(* ===== verification/_CoqProject ===== *)
-Q . S2P
Prelude.v
OrderedDict.v
QuestStore.v
QuestTier.v
QuestTierInv.v
QuestTierProps.v
QuestTierWrite.v
QuestTierSteady.v
QuestTierPrefill.v
QuestTierFree.v
QuestTierExamples.v
QuestStreams.v
QuestAsync.v
QuestSeq.v
QuestConfig.v
QuestDecode.v
QuestSeqDecode.v
QuestLayers.v
QuestGenerate.v
QuestServe.v
QuestServeExamples.v
FreeQueue.v
BlockHash.v
BlockPool.v
BlockPoolProps.v
BlockPoolCache.v
BlockPoolExamples.v
PyNum.v
CachePolicy.v
CachePolicyProps.v
CpuOffload.v
CpuOffloadProps.v
CpuOffloadExamples.v
EncoderCache.v
EncoderCacheProps.v
EncoderCacheExamples.v
CacheHit.v
CacheHitProps.v
SingleType.v
SingleTypeProps.v
SingleTypeStatic.v
SingleTypeOwn.v
SingleTypeAdmit.v
SingleTypeExamples.v
RequestQueue.v
RequestQueueProps.v
RequestQueueRefine.v
Coordinator.v
KVCacheManager.v
CoordinatorOwn.v
KVCacheManagerOwn.v
CoordinatorHit.v
KVCacheManagerExamples.v
KVSpec.v
KVConfig.v
KVConfigProps.v
KVConfigGroups.v
KVConfigWorkers.v
KVConfigExamples.v
Raises.v
SchedQueue.v
SchedRequest.v
SchedStop.v
Scheduler.v
SchedulerInv.v
SchedulerPreempt.v
SchedulerStep.v
SchedulerRun.v
SchedulerWait.v
SchedulerSchedule.v
SchedulerLife.v
SchedulerUpdate.v
SchedulerReach.v
SchedulerKV.v
SchedulerEngine.v
SchedulerExamples.v
SchedulerRuns.v
