(* ===== verification/Prelude.v ===== *)
(** * Verification of the KV-cache management of a vLLM fork with Quest offloading

    The program is an inference server whose memory is a pool of fixed-size blocks
    of key/value rows. The parts modelled here decide which block holds what:

    - the block pool (src/vllm/v1/core/block_pool.py) hands out blocks from an
      intrusive linked list (core/kv_cache_utils.py, [FreeKVCacheBlockQueue]) and
      keeps an index from block hashes to blocks, so that requests with a common
      prefix share blocks;
    - the block hashes (core/kv_cache_utils.py) chain token ids and extra keys;
    - the Quest backend (attention/backends/quest/) keeps the KV data of long
      sequences in two tiers (cache/), a small GPU arena and a pinned CPU store, and
      reloads the blocks a decode step selects; its forward pass (impl.py,
      impl_helpers.py) runs once per layer and step, over managers that share their
      stores, and its configuration (config/quest.py) is validated at start-up;
    - the CPU offloading manager (kv_offload/cpu/) stores blocks by hash in CPU
      memory under an LRU or ARC policy;
    - the encoder cache managers (core/encoder_cache_manager.py) account for the
      embeddings of multimodal inputs;
    - the single-type managers (core/single_type_kv_cache_manager.py) record which
      blocks each request holds for one kind of attention, find cached prefixes,
      and allocate, cache and free;
    - the coordinators (core/kv_cache_coordinator.py) run one single-type manager per
      KV-cache group over one pool, and the KV-cache manager
      (core/kv_cache_manager.py) is what the scheduler calls;
    - the KV-cache configuration (src/vllm/v1/kv_cache_interface.py and the second half of
      core/kv_cache_utils.py) decides at start-up which layers share a block table, how
      many blocks the memory of the workers holds, and the longest context that fits;
    - the request queues (core/sched/request_queue.py) order the waiting requests;
    - the scheduler (core/sched/scheduler.py, async_scheduler.py, utils.py, and
      src/vllm/v1/request.py) is what the engine calls: each step it decides which
      requests run and with how many tokens, asks the two managers for room, preempts
      when there is none, and takes back what the model sampled.

    ** Conventions

    Python methods are functions in the state-and-exception monad [M] of this file:
    a raised exception keeps the mutations made before it. Integers are [Z]; the
    C fields of [BlockStatus] wrap at 32 and 64 bits; floats are binary64 numbers of
    SpecFloat (PyNum). Ordered dictionaries are association lists in iteration order
    (OrderedDict), dictionaries whose order is not observed are [gmap]s. Block
    objects, which the code shares and compares by identity, are references into a
    heap (FreeQueue). Code outside the repository (hash functions, tensor
    reductions) is a parameter, and the theorems name what they need of it.

    ** Files

    - Prelude: exceptions, [M], loops, Python list operations, list lemmas, the
      weakest-precondition rules and the [keeps] rules for invariants.
    - OrderedDict: ordered dictionaries.
    - QuestStore: [BlockResidency], [CpuKvBackingStore], [LRUSlotMap],
      [BlockSummaryStore], [QuestStreamPool].
    - QuestTier: every method of [TierManager]. QuestTierInv: its invariant and the
      content [stored] of both tiers. QuestTierProps, QuestTierWrite,
      QuestTierPrefill: reloads, writes and prefill (C1-C5). QuestTierFree: releasing one
      of several sequences (C6). QuestTierExamples: the constructor (C7), witnesses, and
      concrete runs where the code fails. QuestStreams: the execution of queued copies, and
      the races of write-back transfers. QuestAsync: asynchronous reloads under
      write-through end as the synchronous ones (C8).
    - QuestTierSteady: what the operations of a manager never change, in its own state
      and in the rows of other layers. QuestSeq: a manager [holds] the rows of a
      sequence; ingesting a prompt establishes it, a decode step extends it.
    - QuestConfig: the configuration and its checks. QuestDecode: the metadata, the
      runtime state of all layers, the forward pass, start-up, the torch selection.
      QuestSeqDecode: what a decode step attends. QuestLayers: the layers of a model
      side by side. QuestGenerate: the forward pass of one layer over a prompt and over
      a token. QuestServe: start-up and all passes of a sequence of requests (C9).
      QuestServeExamples: a deployment that satisfies the hypotheses of C9, and runs
      outside them where rows or events are lost.
    - FreeQueue: blocks, the free queue and its refinement of a list (C13).
    - BlockHash: hash keys, extra keys, the request hasher, coarser hash lists and
      block sizes (C14, C15, C18).
    - BlockPool: the pool and its index. BlockPoolProps, BlockPoolCache: allocation,
      touching, freeing, caching, lookup, eviction, reset (C21, C23, C24).
      BlockPoolExamples: witnesses.
    - PyNum: Python numbers. CachePolicy: the policy interface as a class with laws,
      LRU and ARC. CachePolicyProps: both satisfy the laws (C32). CpuOffload: the
      manager over any policy. CpuOffloadProps: its correctness from the laws alone,
      over every reachable state (C28-C30). CpuOffloadExamples: witnesses and two
      divergences from the documentation.
    - EncoderCache: both managers and the scheduler's release. EncoderCacheProps:
      capacity accounting over every run in which the scheduler allocates what it has
      been granted (C35, C36).
      EncoderCacheExamples: witnesses and the slot growth of encoder-decoder models.
    - CacheHit: the specs and the search for cache hits of each attention type.
      CacheHitProps: what each search returns, and when it is the longest usable prefix
      (C11, C22, C25, C34).
    - SingleType: the managers. SingleTypeStatic: what their operations never change.
      SingleTypeProps, SingleTypeOwn: reference counts are exactly the holdings of
      the requests of one manager and the references held elsewhere.
      SingleTypeAdmit: the admission test is exact (C38). SingleTypeExamples:
      witnesses and a hit the sliding-window search misses.
    - RequestQueue: heapq, request order, both queues. RequestQueueProps: the heap
      invariant, for any strict weak order. RequestQueueRefine: the priority queue
      refines a sorted list (C39).
    - Coordinator, KVCacheManager: the coordinators and the manager. CoordinatorOwn,
      KVCacheManagerOwn: the ownership theorem of each manager composed over all
      groups, for every sequence of calls of the KV-cache manager (C12; Mamba in
      align mode and sink groups are excluded, and cache hits are handed over as full
      blocks). CoordinatorHit: the search over several groups ends with the greatest
      common hit (C40; no chunked-local or Quest groups, no EAGLE on Mamba groups).
      KVCacheManagerExamples: witnesses, and three runs whose block lists do not fit
      together.
    - KVSpec: the specs of layers, page sizes and merging. KVConfig: grouping, sizing and
      tensors. KVConfigProps: the search for the longest context (C20). KVConfigGroups:
      layers are dealt out to groups (C27). KVConfigWorkers: from the layers of the
      workers to their configurations and the scheduler's (C17). KVConfigExamples:
      witnesses, and runs that size or merge wrongly.
    - Raises: programs that raise only what the components they call raise.
    - SchedQueue: the queues behind one interface. SchedRequest: requests, their
      statuses and stop conditions. SchedStop: the repetition detector (C37) and the
      rules by which a request stops.
    - Scheduler: [schedule], [update_from_output], drafts, adding, streaming sessions,
      finishing, failed and finished transfers, pause and resets, synchronous and
      asynchronous, over the classes [KVManager] and [EncoderManager] and a record of
      connector operations.
    - SchedulerInv: the laws the scheduler needs of the managers and the invariant of
      its queues. SchedulerPreempt, SchedulerStep, SchedulerRun, SchedulerWait,
      SchedulerSchedule: a step, from its parts to the whole (C10). SchedulerLife:
      adding, finishing, resetting (C31). SchedulerUpdate: the output of a step (C16).
      SchedulerReach: every interleaving of the engine's calls; the queues stay
      consistent (C26) and requests come to an end (C33).
    - SchedulerKV: the modelled managers satisfy the laws. SchedulerEngine: the
      composition never raises (C19). SchedulerExamples: an evaluated run, witnesses.
      SchedulerRuns: evaluated runs, outside the hypotheses, that go wrong.

    ** Fuel

    [hasher_loop] runs with fuel one above the number of tokens;
    [request_block_hasher_total] shows that it never runs out. The binary search for the
    context length has as many rounds as the length has tokens (C20). The traversals of
    the free queue use the number of blocks plus one; their refinement theorem shows
    that this is enough. [align_loop] pops at most as many blocks as there are (C22,
    C25). The sift loops of the heap run at most once per position and [drain] once per
    item; C39 shows that all items come out. The search over several groups shortens its
    candidate in every round but the last, and has one round more than the candidate has
    tokens (C40). In the scheduler [running_loop] has as many rounds as there are
    running requests, [allocate_loop] one more, [waiting_loop] as many as both queues
    hold, [preempt_all] as many as run; a loop that ran out would raise [RuntimeError],
    which C10 and C19 exclude. All other loops are over lists.

    ** Not modelled

    Tiered offloading and the implementations of connectors. Of the scheduler:
    statistics, KV events, log-probabilities, routed experts, NaN counts, the grammar
    bitmask and shutdown.

    Operations that are modelled but covered by part of the theorems only: C9 covers
    batches of one request, KV sharing and synchronous transfers; the other modes of the
    forward pass are modelled but only the operations they call are verified, and of
    asynchronous transfers C8 covers reloads under write-through; those of write-back race
    (QuestStreams). C1 excludes the mixture ordering, under which a kept block can be
    displaced (QuestTierExamples). The theorems on the scheduler
    are without a KV connector, LoRA limit and streaming sessions, for requests that can
    reach [min_tokens] within the context; C10 and C31 cover asynchronous scheduling, C16,
    C19, C26 and C33 are about synchronous scheduling. C19 is about one full-attention group
    with prefix caching off and text requests; C10, C16, C26, C31 and C33 hold for every pair
    of managers with the laws. SchedulerRuns has runs that fail without the restrictions on
    LoRA limits, [min_tokens] and asynchronous scheduling.

    Of the KV-cache configuration all layouts are modelled; C17 is about models with one page
    size whose layers all have one spec or cannot form one group, without
    [num_gpu_blocks_override], automatic fitting and formats of latent attention, and C20
    about groups as all layouts make them. KVConfigExamples has runs in which layers of
    different specs are merged or the null block is not counted.

    Kernels, layers, entry points, processes and native code are numerical or I/O code. *)

From stdpp Require Export prelude gmap strings list fin_maps.

Create HintDb keeps.

(** ** Python exceptions and the state-and-exception monad

    A Python method that mutates [self] and may raise is a state transformer
    whose exceptional results keep the state as it was when the exception was
    raised: Python does not roll a mutation back. *)
Inductive exn :=
  | ValueError
  | RuntimeError
  | AssertionError
  | KeyError
  | IndexError
  | TypeError
  | AttributeError
  | OverflowError
  | StopIteration
  | ZeroDivisionError
  | NotImplementedError.

#[global] Instance exn_eq_dec : EqDecision exn.
Proof. solve_decision. Defined.

Inductive outcome (A : Type) :=
  | Ret (a : A)
  | Raise (e : exn).
Arguments Ret {A} _.
Arguments Raise {A} _.

Definition M (S A : Type) : Type := S → outcome A * S.

Definition ret {S A} (a : A) : M S A := λ s, (Ret a, s).
Definition raise {S A} (e : exn) : M S A := λ s, (Raise e, s).
Definition bind {S A B} (m : M S A) (k : A → M S B) : M S B := λ s,
  match m s with
  | (Ret a, s') => k a s'
  | (Raise e, s') => (Raise e, s')
  end.
Definition get {S} : M S S := λ s, (Ret s, s).
Definition gets {S A} (f : S → A) : M S A := λ s, (Ret (f s), s).
Definition put {S} (s' : S) : M S unit := λ _, (Ret tt, s').
Definition modify {S} (f : S → S) : M S unit := λ s, (Ret tt, f s).
Definition assert_ {S} (b : bool) : M S unit :=
  if b then ret tt else raise AssertionError.
Definition of_option {S A} (e : exn) (o : option A) : M S A :=
  match o with Some a => ret a | None => raise e end.
(** A call that cannot change the state *)
Definition of_outcome {S A} (o : outcome A) : M S A :=
  match o with Ret a => ret a | Raise e => raise e end.

(** [try: m except e: h e] for the exceptions [catches] selects. *)
Definition try_except {S A} (m : M S A) (catches : exn → bool)
    (h : exn → M S A) : M S A := λ s,
  match m s with
  | (Raise e, s') => if catches e then h e s' else (Raise e, s')
  | r => r
  end.

(** Running a method of an attribute: [self.attr.m(...)]. *)
Definition zoom {S T A} (proj : S → T) (upd : T → S → S) (m : M T A) : M S A := λ s,
  let '(r, t) := m (proj s) in (r, upd t s).

Declare Scope py_scope.
Delimit Scope py_scope with py.
Notation "x <- m ;; k" := (bind m (λ x, k))
  (at level 20, m at level 99, k at level 200) : py_scope.
Notation "' p <- m ;; k" := (bind m (λ x, match x with p => k end))
  (at level 20, p pattern, m at level 99, k at level 200) : py_scope.
Notation "m ;; k" := (bind m (λ _, k))
  (at level 100, k at level 200, right associativity) : py_scope.
Open Scope py_scope.

(** [for x in xs: body x] *)
Fixpoint for_each {S A} (xs : list A) (body : A → M S unit) : M S unit :=
  match xs with
  | [] => ret tt
  | x :: xs' => body x ;; for_each xs' body
  end.

(** A list comprehension whose body has effects. *)
Fixpoint for_collect {S A B} (xs : list A) (body : A → M S B) : M S (list B) :=
  match xs with
  | [] => ret []
  | x :: xs' => y <- body x ;; ys <- for_collect xs' body ;; ret (y :: ys)
  end.

(** [range(n)] *)
Definition py_range (n : Z) : list Z := seqZ 0 n.

(** [a // b], [a % b] and [cdiv(a, b)], which is [-(a // -b)] *)
Definition floordiv {S} (a b : Z) : M S Z :=
  if bool_decide (b = 0)%Z then raise ZeroDivisionError else ret (a / b)%Z.
Definition pymod {S} (a b : Z) : M S Z :=
  if bool_decide (b = 0)%Z then raise ZeroDivisionError else ret (a `mod` b)%Z.
Definition ceil_div (a b : Z) : Z := (- (a / - b))%Z.
Definition cdiv {S} (a b : Z) : M S Z := q <- floordiv a (- b) ;; ret (- q)%Z.

Lemma floordiv_run {S} a b (s : S) : (0 < b)%Z → floordiv a b s = (Ret (a / b)%Z, s).
Proof. intros. unfold floordiv. by rewrite bool_decide_false by lia. Qed.
Lemma pymod_run {S} a b (s : S) : (0 < b)%Z → pymod a b s = (Ret (a `mod` b)%Z, s).
Proof. intros. unfold pymod. by rewrite bool_decide_false by lia. Qed.
Lemma cdiv_run {S} a b (s : S) : (0 < b)%Z → cdiv a b s = (Ret (ceil_div a b), s).
Proof. intros. unfold cdiv, bind, floordiv. by rewrite bool_decide_false by lia. Qed.

(** The least number of blocks of [b] tokens that hold [a] tokens. *)
Lemma ceil_div_spec a b n : (0 < b)%Z → (ceil_div a b ≤ n ↔ a ≤ n * b)%Z.
Proof.
  intros Hb. unfold ceil_div.
  pose proof (Z.div_mod a (- b) ltac:(lia)). pose proof (Z.mod_neg_bound a (- b) ltac:(lia)). nia.
Qed.

(** Python list and NumPy indexing: a negative index counts from the end, and
    an index outside [[-len, len)] raises [IndexError]. *)
Definition py_index (len i : Z) : option nat :=
  if bool_decide (0 ≤ i < len)%Z then Some (Z.to_nat i)
  else if bool_decide (- len ≤ i < 0)%Z then Some (Z.to_nat (len + i))
  else None.

Definition list_get {A} (l : list A) (i : Z) : option A :=
  n ← py_index (Z.of_nat (length l)) i; l !! n.

Definition list_set {A} (l : list A) (i : Z) (x : A) : option (list A) :=
  n ← py_index (Z.of_nat (length l)) i; Some (<[n := x]> l).

(** [l.pop()]: the last element and the rest; [None] is the [IndexError]. *)
Definition list_pop {A} (l : list A) : option (A * list A) :=
  match rev l with
  | [] => None
  | x :: r => Some (x, rev r)
  end.

Lemma list_pop_snoc {A} (l : list A) x : list_pop (l ++ [x]) = Some (x, l).
Proof. unfold list_pop. rewrite rev_app_distr. simpl. by rewrite rev_involutive. Qed.

Lemma list_pop_Some {A} (l l' : list A) x : list_pop l = Some (x, l') → l = l' ++ [x].
Proof.
  unfold list_pop. destruct (rev l) as [|y r] eqn:E; intros; simplify_eq.
  apply (f_equal (@rev A)) in E. rewrite rev_involutive in E. done.
Qed.

Lemma list_pop_None {A} (l : list A) : list_pop l = None ↔ l = [].
Proof.
  unfold list_pop. destruct (rev l) as [|y r] eqn:E.
  - apply (f_equal (@rev A)) in E. rewrite rev_involutive in E. done.
  - split; [done|]. by intros ->.
Qed.

Lemma py_index_nonneg len i :
  (0 ≤ i)%Z → py_index len i = if bool_decide (i < len)%Z then Some (Z.to_nat i) else None.
Proof. unfold py_index. intros. repeat case_bool_decide; try lia; done. Qed.

Lemma list_get_lookup {A} (l : list A) i :
  (0 ≤ i)%Z → list_get l i = l !! Z.to_nat i.
Proof.
  intros. unfold list_get. rewrite py_index_nonneg by done. case_bool_decide; simpl; [done|].
  symmetry. apply lookup_ge_None_2. lia.
Qed.

Lemma list_set_inb {A} (l : list A) i x :
  (0 ≤ i < Z.of_nat (length l))%Z → list_set l i x = Some (<[Z.to_nat i := x]> l).
Proof.
  intros. unfold list_set. rewrite py_index_nonneg by lia. by rewrite bool_decide_true by lia.
Qed.

Lemma list_get_set {A} (l : list A) i x y :
  list_get l i = Some x → ∃ n, l !! n = Some x ∧ list_set l i y = Some (<[n := y]> l).
Proof.
  unfold list_get, list_set. destruct (py_index _ i) as [n|]; [|done]. simpl. intros Hx. by exists n.
Qed.

(** [l[lo:hi]]: a negative bound counts from the end, and both are clipped. *)
Definition py_clip (len i : Z) : Z :=
  if bool_decide (i < 0)%Z then Z.max 0 (i + len) else Z.min i len.
Definition py_slice {A} (l : list A) (lo hi : Z) : list A :=
  let n := Z.of_nat (length l) in
  take (Z.to_nat (py_clip n hi - py_clip n lo)) (drop (Z.to_nat (py_clip n lo)) l).

Lemma py_slice_in_range {A} (l : list A) lo hi :
  (0 ≤ lo ≤ hi)%Z → (hi ≤ Z.of_nat (length l))%Z →
  py_slice l lo hi = take (Z.to_nat (hi - lo)) (drop (Z.to_nat lo) l).
Proof.
  intros. unfold py_slice, py_clip. rewrite !bool_decide_false by lia.
  by rewrite !Z.min_l by lia.
Qed.

Lemma py_slice_full {A} (l : list A) n : n = Z.of_nat (length l) → py_slice l 0 n = l.
Proof. intros ->. rewrite py_slice_in_range by lia. simpl. apply take_ge. lia. Qed.

(** ** Filtering *)
Lemma Forall2_impl_elem {A B} (P Q : A → B → Prop) (l : list A) (k : list B) :
  Forall2 P l k → (∀ x y, x ∈ l → P x y → Q x y) → Forall2 Q l k.
Proof.
  induction 1 as [|x y l k Hx Hl IH]; intros Hi; constructor; [apply Hi; [by left|done]|].
  apply IH. intros x' y' Hx'. apply Hi. by right.
Qed.

Lemma filter_all {A} (P : A → Prop) `{∀ x, Decision (P x)} (l : list A) :
  (∀ x, x ∈ l → P x) → filter P l = l.
Proof.
  induction l as [|x l IH]; [done|]. intros Hl. rewrite filter_cons, decide_True, IH; set_solver.
Qed.

Lemma filter_none {A} (P : A → Prop) `{∀ x, Decision (P x)} (l : list A) :
  (∀ x, x ∈ l → ¬ P x) → filter P l = [].
Proof.
  induction l as [|x l IH]; [done|]. intros Hl. rewrite filter_cons, decide_False, IH; set_solver.
Qed.

Lemma filter_ext_in {A} (P Q : A → Prop) `{∀ x, Decision (P x)} `{∀ x, Decision (Q x)} (l : list A) :
  (∀ x, x ∈ l → P x ↔ Q x) → filter P l = filter Q l.
Proof.
  induction l as [|x l IH]; [done|]. intros Hl. rewrite !filter_cons, IH by set_solver.
  specialize (Hl x ltac:(set_solver)). repeat case_decide; tauto.
Qed.

(** ** Sums *)
Definition total (l : list Z) : Z := foldr Z.add 0%Z l.

#[global] Instance total_perm : Proper (Permutation ==> eq) total.
Proof. intros l l' Hp. induction Hp; unfold total in *; simpl; lia. Qed.

Lemma total_zero l : (∀ x, x ∈ l → x = 0%Z) → total l = 0%Z.
Proof.
  induction l as [|x l IH]; intros Hl; [done|]. unfold total in *. simpl. rewrite IH by (intros; apply Hl; by right).
  rewrite (Hl x); [done|by left].
Qed.
Lemma total_nonneg l : (∀ x, x ∈ l → (0 ≤ x)%Z) → (0 ≤ total l)%Z.
Proof.
  induction l as [|x l IH]; intros H; [done|]. change (total (x :: l)) with (x + total l)%Z.
  assert (0 ≤ x)%Z by (apply H, elem_of_cons; by left).
  assert (0 ≤ total l)%Z; [|lia]. apply IH. intros y Hy. apply H, elem_of_cons. by right.
Qed.

(** ** Two-dimensional arrays (NumPy arrays, torch tensors indexed [[i, j]]) *)
Section grid.
Context {A : Type}.
Implicit Types (g : list (list A)) (i j n m : Z) (x : A).

Definition grid_get g i j : option A := row ← list_get g i; list_get row j.

Definition grid_set g i j x : option (list (list A)) :=
  row ← list_get g i; row' ← list_set row j x; list_set g i row'.

Definition grid_wf n m g : Prop :=
  length g = Z.to_nat n ∧ Forall (λ row, length row = Z.to_nat m) g.

Lemma grid_wf_replicate n m x :
  grid_wf n m (replicate (Z.to_nat n) (replicate (Z.to_nat m) x)).
Proof.
  split; [by rewrite length_replicate|].
  apply Forall_replicate. by rewrite length_replicate.
Qed.

Lemma grid_row n m g i :
  grid_wf n m g → (0 ≤ i < n)%Z →
  ∃ row, g !! Z.to_nat i = Some row ∧ length row = Z.to_nat m.
Proof.
  intros [Hlen Hrows] Hi.
  destruct (lookup_lt_is_Some_2 g (Z.to_nat i)) as [row Hrow]; [lia|].
  exists row. split; [done|]. rewrite Forall_lookup in Hrows. eauto.
Qed.

Lemma grid_get_in_range n m g i j :
  grid_wf n m g → (0 ≤ i < n)%Z → (0 ≤ j < m)%Z → is_Some (grid_get g i j).
Proof.
  intros Hwf Hi Hj. destruct (grid_row n m g i) as (row & Hrow & Hlr); [done..|].
  unfold grid_get. rewrite list_get_lookup, Hrow by lia. simpl.
  rewrite list_get_lookup by lia. apply lookup_lt_is_Some_2. lia.
Qed.

Lemma grid_set_spec n m g i j x :
  grid_wf n m g → (0 ≤ i < n)%Z → (0 ≤ j < m)%Z →
  ∃ g', grid_set g i j x = Some g' ∧ grid_wf n m g' ∧
    ∀ i' j', (0 ≤ i')%Z → (0 ≤ j')%Z →
      grid_get g' i' j' = if decide (i' = i ∧ j' = j) then Some x else grid_get g i' j'.
Proof.
  intros Hwf Hi Hj. destruct (grid_row n m g i) as (row & Hrow & Hlr); [done..|].
  destruct Hwf as [Hlen Hrows]. unfold grid_set.
  rewrite list_get_lookup, Hrow by lia. simpl.
  rewrite list_set_inb by lia. simpl. rewrite list_set_inb by lia.
  eexists; split; [done|]. split.
  { split; [by rewrite length_insert|]. apply Forall_insert; [done|]. by rewrite length_insert. }
  intros i' j' ??. unfold grid_get. rewrite !list_get_lookup by lia.
  destruct (decide (i' = i)) as [->|Hne].
  - rewrite list_lookup_insert_eq by lia. rewrite Hrow. simpl. rewrite !list_get_lookup by lia.
    destruct (decide (j' = j)) as [->|Hj'].
    + rewrite list_lookup_insert_eq by lia. by rewrite decide_True.
    + rewrite list_lookup_insert_ne by lia. by rewrite decide_False by naive_solver.
  - rewrite list_lookup_insert_ne by lia. by rewrite decide_False by naive_solver.
Qed.
(** A write to one row, at any index, keeps the shape and the other rows. *)
Lemma list_set_Some {B} (l l' : list B) i y :
  list_set l i y = Some l' → ∃ a : nat, (a < length l)%nat ∧ l' = <[a := y]> l ∧ ((0 ≤ i)%Z → a = Z.to_nat i).
Proof.
  unfold list_set, py_index. intros H.
  repeat case_bool_decide; simplify_eq/=; (eexists; split_and!; [|done|]); lia.
Qed.
Lemma grid_set_other n m g g' i j x :
  (0 ≤ i)%Z → grid_set g i j x = Some g' → grid_wf n m g →
  grid_wf n m g' ∧ ∀ i' j', (0 ≤ i')%Z → i' ≠ i → grid_get g' i' j' = grid_get g i' j'.
Proof.
  intros Hi Hs [Hlen Hrows]. unfold grid_set in Hs. rewrite list_get_lookup in Hs by done.
  destruct (g !! Z.to_nat i) as [row|] eqn:Hrow; [|done]. simpl in Hs.
  destruct (list_set row j x) as [row'|] eqn:Hr; [|done]. simpl in Hs.
  apply list_set_Some in Hs as (a & Ha & -> & Ha'). rewrite Ha' by done. apply list_set_Some in Hr as (b & Hb & -> & _).
  split; [split|].
  - by rewrite length_insert.
  - apply Forall_insert; [done|]. rewrite length_insert. rewrite Forall_lookup in Hrows. eauto.
  - intros i' j' Hi' Hne. unfold grid_get. rewrite !list_get_lookup by done.
    by rewrite list_lookup_insert_ne by lia.
Qed.
Lemma grid_set_Forall (P : A → Prop) g g' i j x :
  grid_set g i j x = Some g' → Forall (Forall P) g → P x → Forall (Forall P) g'.
Proof.
  intros Hs Hg Hx. unfold grid_set in Hs. destruct (list_get g i) as [row|] eqn:Hrow; [|done]. simpl in Hs.
  destruct (list_set row j x) as [row'|] eqn:Hr; [|done]. simpl in Hs.
  apply list_set_Some in Hs as (a & Ha & -> & _). apply list_set_Some in Hr as (b & Hb & -> & _).
  apply Forall_insert; [done|]. apply Forall_insert; [|done].
  unfold list_get in Hrow. destruct (py_index _ _); [|done]. rewrite Forall_lookup in Hg. eauto.
Qed.
Lemma grid_get_Forall (P : A → Prop) g i j x : grid_get g i j = Some x → Forall (Forall P) g → P x.
Proof.
  intros Hs Hg. unfold grid_get, list_get in Hs. destruct (py_index _ i) as [a|]; [|done]. simpl in Hs.
  destruct (g !! a) as [row|] eqn:Hr; [|done]. simpl in Hs. destruct (py_index _ j) as [b|]; [|done]. simpl in Hs.
  rewrite Forall_lookup in Hg. specialize (Hg _ _ Hr). rewrite Forall_lookup in Hg. eauto.
Qed.
End grid.

(** ** Weakest preconditions: "[m] runs from [s] without raising, and the
    result satisfies [Q]". *)
Definition wp {S A} (m : M S A) (s : S) (Q : A → S → Prop) : Prop :=
  match m s with
  | (Ret a, s') => Q a s'
  | (Raise _, _) => False
  end.

Lemma run_bind {S A B} (m : M S A) (k : A → M S B) s a s' :
  m s = (Ret a, s') → bind m k s = k a s'.
Proof. unfold bind. by intros ->. Qed.

Lemma ret_inj {S A} (a b : A) (s s' : S) : (Ret a, s) = (Ret b, s') → a = b.
Proof. by intros [= ->]. Qed.

Lemma run_raise {S A B} (m : M S A) (k : A → M S B) s e s' :
  m s = (Raise e, s') → bind m k s = (Raise e, s').
Proof. unfold bind. by intros ->. Qed.

Section wp_rules.
Context {S : Type}.

Lemma wp_ret {A} (a : A) (s : S) (Q : A → S → Prop) : Q a s → wp (ret a) s Q.
Proof. done. Qed.

Lemma wp_bind {A B} (m : M S A) (k : A → M S B) s Q :
  wp m s (λ a s', wp (k a) s' Q) → wp (bind m k) s Q.
Proof. unfold wp, bind. by destruct (m s) as [[a|e] s']. Qed.

Lemma wp_get (s : S) (Q : S → S → Prop) : Q s s → wp get s Q.
Proof. done. Qed.

Lemma wp_gets {A} (f : S → A) (s : S) (Q : A → S → Prop) : Q (f s) s → wp (gets f) s Q.
Proof. done. Qed.

Lemma wp_put (s s' : S) (Q : unit → S → Prop) : Q tt s' → wp (put s') s Q.
Proof. done. Qed.

Lemma wp_modify (f : S → S) (s : S) (Q : unit → S → Prop) : Q tt (f s) → wp (modify f) s Q.
Proof. done. Qed.

Lemma wp_assert (b : bool) (s : S) (Q : unit → S → Prop) :
  b = true → Q tt s → wp (assert_ b) s Q.
Proof. by intros ->. Qed.

Lemma wp_of_option {A} e (o : option A) a (s : S) (Q : A → S → Prop) :
  o = Some a → Q a s → wp (of_option e o) s Q.
Proof. by intros ->. Qed.

Lemma wp_mono {A} (m : M S A) s (Q Q' : A → S → Prop) :
  wp m s Q → (∀ a s', Q a s' → Q' a s') → wp m s Q'.
Proof. unfold wp. destruct (m s) as [[a|e] s']; naive_solver. Qed.

Lemma wp_bind_assoc {A B C} (m : M S A) (k : A → M S B) (k' : B → M S C) s Q :
  wp (bind (bind m k) k') s Q → wp (bind m (λ a, bind (k a) k')) s Q.
Proof. unfold wp, bind. destruct (m s) as [[a|e] s']; [|done]. by destruct (k a s') as [[b|e] s2]. Qed.

Lemma wp_try_except {A} (m : M S A) catches h s (Q : A → S → Prop) :
  wp m s Q → wp (try_except m catches h) s Q.
Proof. unfold wp, try_except. by destruct (m s) as [[a|e] s']. Qed.

Lemma wp_run {A} (m : M S A) s (Q : A → S → Prop) :
  wp m s Q → ∃ a s', m s = (Ret a, s') ∧ Q a s'.
Proof. unfold wp. destruct (m s) as [[a|e] s']; naive_solver. Qed.

Lemma run_wp {A} (m : M S A) s a s' (Q : A → S → Prop) :
  m s = (Ret a, s') → Q a s' → wp m s Q.
Proof. unfold wp. by intros ->. Qed.

Lemma wp_zoom {T A} (proj : S → T) upd (m : M T A) s (Q : A → S → Prop) :
  wp m (proj s) (λ a t, Q a (upd t s)) → wp (zoom proj upd m) s Q.
Proof. unfold wp, zoom. by destruct (m (proj s)) as [[a|e] t]. Qed.

(** Loop rule: an invariant indexed by the elements already processed. *)
Lemma wp_for_each {A} (xs : list A) (body : A → M S unit) s
    (I : list A → S → Prop) (Q : unit → S → Prop) :
  I [] s →
  (∀ done x todo s, xs = done ++ x :: todo → I done s →
     wp (body x) s (λ _ s', I (done ++ [x]) s')) →
  (∀ s, I xs s → Q tt s) →
  wp (for_each xs body) s Q.
Proof.
  intros H0 Hstep Hfin.
  enough (∀ todo done s, xs = done ++ todo → I done s →
            wp (for_each todo body) s Q) as H by by apply (H xs []).
  clear s H0. intros todo. induction todo as [|x todo IH]; intros done s -> Hs; simpl.
  - apply Hfin. by rewrite app_nil_r.
  - apply wp_bind. eapply wp_mono; [by eapply Hstep|].
    intros [] s' Hs'. apply (IH (done ++ [x])); [by rewrite <-app_assoc|done].
Qed.
End wp_rules.

(** ** Invariants: "[m] started in [I] ends in [I]", whether it returns or raises. *)
Definition keeps {S A} (I : S → Prop) (m : M S A) : Prop := ∀ s, I s → I (m s).2.

Section keeps_rules.
Context {S : Type} (I : S → Prop).

Lemma keeps_ret {A} (a : A) : keeps I (ret a).
Proof. intros s Hs. exact Hs. Qed.
Lemma keeps_raise {A} e : keeps I (raise (A := A) e).
Proof. intros s Hs. exact Hs. Qed.
Lemma keeps_gets {A} (f : S → A) : keeps I (gets f).
Proof. intros s Hs. exact Hs. Qed.
Lemma keeps_assert b : keeps I (assert_ b).
Proof. intros s Hs. by destruct b. Qed.
Lemma keeps_of_option {A} e (o : option A) : keeps I (of_option e o).
Proof. intros s Hs. by destruct o. Qed.
Lemma keeps_floordiv a b : keeps I (floordiv a b).
Proof. intros s Hs. unfold floordiv. by case_bool_decide. Qed.
Lemma keeps_pymod a b : keeps I (pymod a b).
Proof. intros s Hs. unfold pymod. by case_bool_decide. Qed.
Lemma keeps_of_outcome {A} (o : outcome A) : keeps I (of_outcome o).
Proof. intros s Hs. by destruct o. Qed.
Lemma keeps_cdiv a b : keeps I (cdiv a b).
Proof. intros s Hs. unfold cdiv, bind, floordiv. by case_bool_decide. Qed.
Lemma keeps_read : keeps I get.
Proof. intros s Hs. exact Hs. Qed.
Lemma keeps_modify f : (∀ s, I s → I (f s)) → keeps I (modify f).
Proof. intros Hf s Hs. by apply Hf. Qed.
Lemma keeps_bind {A B} (m : M S A) (k : A → M S B) :
  keeps I m → (∀ a, keeps I (k a)) → keeps I (bind m k).
Proof.
  intros Hm Hk s Hs. specialize (Hm s Hs). unfold bind. destruct (m s) as [[a|e] s']; [|done].
  by apply (Hk a).
Qed.
Lemma keeps_get {A} (k : S → M S A) : (∀ s, I s → I (k s s).2) → keeps I (bind get k).
Proof. intros Hk s Hs. by apply Hk. Qed.
Lemma keeps_for_each_elem {A} (xs : list A) (body : A → M S unit) :
  (∀ x, x ∈ xs → keeps I (body x)) → keeps I (for_each xs body).
Proof.
  induction xs as [|x xs IH]; intros Hb; [apply keeps_ret|]. simpl.
  apply keeps_bind; [apply Hb; by left|]. intros _. apply IH. intros y Hy. apply Hb. by right.
Qed.
Lemma keeps_for_each {A} (xs : list A) (body : A → M S unit) :
  (∀ x, keeps I (body x)) → keeps I (for_each xs body).
Proof. intros Hb. by apply keeps_for_each_elem. Qed.
Lemma keeps_for_collect {A B} (xs : list A) (body : A → M S B) :
  (∀ x, keeps I (body x)) → keeps I (for_collect xs body).
Proof.
  intros Hb. induction xs as [|x xs IH]; [apply keeps_ret|]. simpl.
  apply keeps_bind; [apply Hb|]. intros y. apply keeps_bind; [done|]. intros ys. apply keeps_ret.
Qed.
End keeps_rules.

#[export] Hint Resolve keeps_ret keeps_raise keeps_gets keeps_assert keeps_of_option keeps_floordiv keeps_pymod
  keeps_cdiv keeps_of_outcome keeps_read : keeps.

(** [keeps_auto] follows the structure of a program; calls are left to the hints. *)
Ltac keeps_auto :=
  repeat (intros;
    lazymatch goal with
    | |- keeps _ (bind _ _) => apply keeps_bind; [|intros ?]
    | |- keeps _ (for_each _ _) => apply keeps_for_each
    | |- keeps _ (for_collect _ _) => apply keeps_for_collect
    | |- keeps _ (match ?x with _ => _ end) => destruct x
    | |- keeps _ _ => first [solve [eauto 3 with keeps] | fail 1]
    end).

Lemma keeps_zoom {S T A} (I : S → Prop) (J : T → Prop) (proj : S → T) upd (m : M T A) :
  keeps J m → (∀ s, I s → J (proj s)) → (∀ s t, I s → J t → I (upd t s)) → keeps I (zoom proj upd m).
Proof.
  intros Hm Hp Hu s Hs. specialize (Hm _ (Hp s Hs)). unfold zoom. destruct (m (proj s)). by apply Hu.
Qed.

(** ** Invariants with a property of the result: "[m] started in [I] ends in [I], and if
    it returns, its result satisfies [Q]". *)
Definition keeps_to {S A} (I : S → Prop) (Q : A → Prop) (m : M S A) : Prop :=
  ∀ s, I s → I (m s).2 ∧ ∀ a, (m s).1 = Ret a → Q a.

Create HintDb keeps_to.

Section keeps_to_rules.
Context {S : Type} (I : S → Prop).

Lemma keeps_to_ret {A} (Q : A → Prop) a : Q a → keeps_to I Q (ret a).
Proof. intros HQ s Hs. split; [done|]. by intros ? [= <-]. Qed.
Lemma keeps_to_raise {A} (Q : A → Prop) e : keeps_to I Q (raise e).
Proof. by intros s Hs. Qed.
Lemma keeps_to_get : keeps_to I I get.
Proof. intros s Hs. split; [done|]. by intros ? [= <-]. Qed.
Lemma keeps_to_gets {A} (f : S → A) (Q : A → Prop) : (∀ s, I s → Q (f s)) → keeps_to I Q (gets f).
Proof. intros Hf s Hs. split; [done|]. intros ? [= <-]. by apply Hf. Qed.
Lemma keeps_to_of_option {A} e (o : option A) : keeps_to I (λ a, o = Some a) (of_option e o).
Proof. intros s Hs. destruct o; split; try done. by intros ? [= <-]. Qed.
Lemma keeps_to_put s : I s → keeps_to I (λ _, True) (put s).
Proof. by intros Hs s' _. Qed.
Lemma keeps_to_modify f : (∀ s, I s → I (f s)) → keeps_to I (λ _, True) (modify f).
Proof. intros Hf s Hs. split; [by apply Hf|done]. Qed.
Lemma keeps_to_assert b : keeps_to I (λ _, True) (assert_ b).
Proof. intros s Hs. by destruct b. Qed.
Lemma keeps_to_mono {A} (Q Q' : A → Prop) m : keeps_to I Q m → (∀ a, Q a → Q' a) → keeps_to I Q' m.
Proof. intros Hm HQ s Hs. destruct (Hm s Hs) as [? Ha]. split; [done|]. intros a Hr. by apply HQ, Ha. Qed.
Lemma keeps_to_bind {A B} (Q : A → Prop) (Q' : B → Prop) (m : M S A) (k : A → M S B) :
  keeps_to I Q m → (∀ a, Q a → keeps_to I Q' (k a)) → keeps_to I Q' (bind m k).
Proof.
  intros Hm Hk s Hs. destruct (Hm s Hs) as [Hs' Ha]. unfold bind. destruct (m s) as [[a|e] s']; [|done].
  apply (Hk a); [by apply Ha|done].
Qed.
Lemma keeps_to_for_each {A} (xs : list A) (body : A → M S unit) :
  (∀ x, x ∈ xs → keeps_to I (λ _, True) (body x)) → keeps_to I (λ _, True) (for_each xs body).
Proof.
  induction xs as [|x xs IH]; intros Hb; [by apply keeps_to_ret|]. simpl.
  eapply keeps_to_bind; [apply Hb; by left|]. intros _ _. apply IH. intros y Hy. apply Hb. by right.
Qed.
Lemma keeps_to_for_collect {A B} (xs : list A) (body : A → M S B) :
  (∀ x, x ∈ xs → keeps_to I (λ _, True) (body x)) → keeps_to I (λ _, True) (for_collect xs body).
Proof.
  induction xs as [|x xs IH]; intros Hb; [by apply keeps_to_ret|]. simpl.
  eapply keeps_to_bind; [apply Hb; by left|]. intros y _.
  eapply keeps_to_bind; [apply IH; intros z Hz; apply Hb; by right|]. intros. by apply keeps_to_ret.
Qed.
Lemma keeps_to_try {A} (Q : A → Prop) (m : M S A) catches h :
  keeps_to I Q m → (∀ e, keeps_to I Q (h e)) → keeps_to I Q (try_except m catches h).
Proof.
  intros Hm Hh s Hs. destruct (Hm s Hs) as [Hs' Ha]. unfold try_except.
  destruct (m s) as [[a|e] s']; [done|]. destruct (catches e); [by apply Hh|done].
Qed.
Lemma keeps_to_zoom {T A} (J : T → Prop) (proj : S → T) upd (Q : A → Prop) (m : M T A) :
  keeps_to J Q m → (∀ s, I s → J (proj s)) → (∀ s t, I s → J t → I (upd t s)) → keeps_to I Q (zoom proj upd m).
Proof.
  intros Hm Hp Hu s Hs. destruct (Hm _ (Hp s Hs)) as [Ht Ha]. unfold zoom. destruct (m (proj s)).
  split; [by apply Hu|done].
Qed.
Lemma keeps_to_run {A} (Q : A → Prop) m s a s' : keeps_to I Q m → I s → m s = (Ret a, s') → I s' ∧ Q a.
Proof. intros Hm Hs Hr. destruct (Hm s Hs) as [H1 H2]. rewrite Hr in H1, H2. split; [done|by apply H2]. Qed.
Lemma wp_keeps_to {A} (Q : A → S → Prop) (Q' : A → Prop) m s :
  wp m s Q → keeps_to I Q' m → I s → wp m s (λ a s', Q a s' ∧ I s' ∧ Q' a).
Proof.
  intros Hw Hm Hs. destruct (Hm s Hs) as [H1 H2]. unfold wp in *. destruct (m s) as [[a|e] s']; [|done].
  split_and!; [done..|]. by apply H2.
Qed.
End keeps_to_rules.

#[export] Hint Resolve keeps_to_raise keeps_to_get keeps_to_of_option keeps_to_assert : keeps_to.
#[export] Hint Extern 1 (keeps_to _ _ (ret _)) => (apply keeps_to_ret; try done) : keeps_to.

(** [keeps_to_auto] follows the structure of a program; a conditional in front of a
    continuation may not promise a result; calls are left to the hints. *)
Ltac keeps_to_auto :=
  repeat (intros;
    lazymatch goal with
    | |- keeps_to _ _ (bind (match _ with _ => _ end) _) => apply (keeps_to_bind _ (λ _, True)); [|intros ? ?]
    | |- keeps_to _ _ (bind _ _) => eapply keeps_to_bind; [solve [eauto 3 with keeps_to]|intros ? ?; simpl in *]
    | |- keeps_to _ _ (for_each _ _) => apply keeps_to_for_each
    | |- keeps_to _ _ (for_collect _ _) => apply keeps_to_for_collect
    | |- keeps_to _ _ (match ?x with _ => _ end) => destruct x eqn:?
    | |- keeps_to _ (λ _, True) _ => first [solve [eauto 3 with keeps_to]
                                          | eapply keeps_to_mono; [solve [eauto 3 with keeps_to]|done] | fail 1]
    | |- keeps_to _ _ _ => first [solve [eauto 3 with keeps_to] | fail 1]
    end).

(** [wp_step] runs one primitive step of a monadic program. *)
Ltac wp_step :=
  lazymatch goal with
  | |- wp (bind _ _) _ _ => apply wp_bind
  | |- wp (ret _) _ _ => apply wp_ret
  | |- wp get _ _ => apply wp_get
  | |- wp (gets _) _ _ => apply wp_gets
  | |- wp (put _) _ _ => apply wp_put
  | |- wp (modify _) _ _ => apply wp_modify
  | |- wp (zoom _ _ _) _ _ => apply wp_zoom
  end; simpl.
Ltac wp_steps := repeat wp_step.
