(* ===== verification/OrderedDict.v ===== *)
(** * Python dictionaries with their iteration order

    [dict] and [collections.OrderedDict] as association lists in iteration
    order: assigning to a present key keeps its position, assigning to a new key
    appends, [move_to_end] re-links an entry at either end and
    [popitem(last=False)] takes the first entry. The lemmas are stated for
    duplicate-free key lists ([od_wf]), which every operation preserves. *)

From S2P Require Import Prelude.

Section od.
Context {K V : Type} `{EqDecision K}.
Implicit Types (d : list (K * V)) (k : K) (v : V).

Fixpoint od_get k d : option V :=
  match d with
  | [] => None
  | (k', v) :: d' => if decide (k = k') then Some v else od_get k d'
  end.

Definition od_mem k d : bool := bool_decide (is_Some (od_get k d)).

(** [d[k] = v] *)
Fixpoint od_set k v d : list (K * V) :=
  match d with
  | [] => [(k, v)]
  | (k', v') :: d' => if decide (k = k') then (k, v) :: d' else (k', v') :: od_set k v d'
  end.

(** [d.pop(k, None)], the dictionary part *)
Fixpoint od_del k d : list (K * V) :=
  match d with
  | [] => []
  | (k', v') :: d' => if decide (k = k') then d' else (k', v') :: od_del k d'
  end.

(** [d.move_to_end(k)]; [None] is the [KeyError]. *)
Definition od_move_to_end k d : option (list (K * V)) :=
  v ← od_get k d; Some (od_del k d ++ [(k, v)]).

(** [d.move_to_end(k, last=False)] *)
Definition od_move_to_front k d : option (list (K * V)) :=
  v ← od_get k d; Some ((k, v) :: od_del k d).

(** Mutation of the object stored at [k], through a reference to it. *)
Fixpoint od_alter (f : V → V) k d : list (K * V) :=
  match d with
  | [] => []
  | (k', v) :: d' => if decide (k = k') then (k', f v) :: d' else (k', v) :: od_alter f k d'
  end.

Definition od_wf d : Prop := NoDup d.*1.

Lemma od_get_None k d : od_get k d = None ↔ k ∉ d.*1.
Proof.
  induction d as [|[k' v] d IH]; simpl; [by split; [intros _ []%elem_of_nil|]|].
  rewrite not_elem_of_cons. case_decide; subst; [naive_solver|]. rewrite IH. naive_solver.
Qed.

Lemma od_get_Some_key k v d : od_get k d = Some v → k ∈ d.*1.
Proof. intros H. destruct (decide (k ∈ d.*1)) as [|Hn]; [done|]. apply od_get_None in Hn. congruence. Qed.

Lemma od_get_elem k v d : od_get k d = Some v → (k, v) ∈ d.
Proof.
  induction d as [|[k' v'] d IH]; simpl; [done|].
  case_decide; intros; simplify_eq; set_solver.
Qed.

Lemma od_elem_get k v d : od_wf d → (k, v) ∈ d → od_get k d = Some v.
Proof.
  unfold od_wf. induction d as [|[k' v'] d IH]; simpl; [set_solver|].
  intros [Hk Hd]%NoDup_cons [|Hin]%elem_of_cons; simplify_eq; case_decide; simplify_eq; auto.
  destruct Hk. apply list_elem_of_fmap. by exists (k', v).
Qed.

Lemma od_get_iff k v d : od_wf d → od_get k d = Some v ↔ (k, v) ∈ d.
Proof. split; [apply od_get_elem|by apply od_elem_get]. Qed.

Lemma od_mem_spec k d : od_mem k d = true ↔ k ∈ d.*1.
Proof.
  unfold od_mem. rewrite bool_decide_eq_true. destruct (od_get k d) eqn:E.
  - apply od_get_Some_key in E. naive_solver.
  - apply od_get_None in E. split; [by intros [? ?]|done].
Qed.

Lemma od_mem_false k d : od_mem k d = false ↔ od_get k d = None.
Proof. unfold od_mem. rewrite bool_decide_eq_false, eq_None_not_Some. done. Qed.

Lemma od_get_app k d1 d2 :
  od_get k (d1 ++ d2) = match od_get k d1 with Some v => Some v | None => od_get k d2 end.
Proof. induction d1 as [|[k' v] d1 IH]; simpl; [done|]. by case_decide. Qed.

Lemma od_get_set k k' v d :
  od_get k (od_set k' v d) = if decide (k = k') then Some v else od_get k d.
Proof.
  induction d as [|[k'' v''] d IH]; simpl.
  - repeat case_decide; congruence.
  - destruct (decide (k' = k'')); simpl; repeat case_decide; congruence.
Qed.

Lemma od_get_set_eq k v d : od_get k (od_set k v d) = Some v.
Proof. rewrite od_get_set. by case_decide. Qed.

Lemma od_get_set_ne k k' v d : k ≠ k' → od_get k (od_set k' v d) = od_get k d.
Proof. rewrite od_get_set. by case_decide. Qed.

Lemma od_get_del k k' d :
  od_wf d → od_get k (od_del k' d) = if decide (k = k') then None else od_get k d.
Proof.
  unfold od_wf. induction d as [|[k'' v''] d IH]; simpl; intros Hd.
  - by case_decide.
  - apply NoDup_cons in Hd as [Hk Hd].
    destruct (decide (k' = k'')) as [->|]; simpl.
    + case_decide; subst; [by apply od_get_None|done].
    + rewrite IH by done. repeat case_decide; congruence.
Qed.

Lemma od_get_alter f k k' d :
  od_get k (od_alter f k' d) = if decide (k = k') then f <$> od_get k d else od_get k d.
Proof.
  induction d as [|[k'' v] d IH]; simpl; [by case_decide|].
  destruct (decide (k' = k'')); simpl; repeat case_decide; simpl; congruence.
Qed.

Lemma od_set_keys_new k v d : k ∉ d.*1 → od_set k v d = d ++ [(k, v)].
Proof.
  induction d as [|[k' v'] d IH]; simpl; [done|].
  intros Hk. rewrite decide_False by set_solver. rewrite IH; set_solver.
Qed.

Lemma od_set_keys_old k v d : k ∈ d.*1 → (od_set k v d).*1 = d.*1.
Proof.
  induction d as [|[k' v'] d IH]; simpl; [set_solver|].
  intros Hk. case_decide; csimpl; [congruence|]. f_equal. apply IH. set_solver.
Qed.

Lemma od_alter_keys f k d : (od_alter f k d).*1 = d.*1.
Proof.
  induction d as [|[k' v] d IH]; simpl; [done|]. case_decide; csimpl; congruence.
Qed.

Lemma od_del_notin k d : k ∉ d.*1 → od_del k d = d.
Proof.
  induction d as [|[k' v'] d IH]; simpl; [done|]. intros Hk.
  rewrite decide_False by set_solver. rewrite IH; set_solver.
Qed.

Lemma od_del_perm k v d : od_get k d = Some v → d ≡ₚ (k, v) :: od_del k d.
Proof.
  induction d as [|[k' v'] d IH]; simpl; [done|].
  case_decide; intros; simplify_eq; [done|].
  rewrite IH at 1 by done. apply Permutation_swap.
Qed.

Lemma od_del_sublist k d : od_del k d `sublist_of` d.
Proof.
  induction d as [|[k' v'] d IH]; simpl; [done|].
  case_decide; by constructor.
Qed.

Lemma od_del_app k d1 d2 : k ∉ d1.*1 → od_del k (d1 ++ d2) = d1 ++ od_del k d2.
Proof.
  induction d1 as [|[k' v'] d1 IH]; simpl; [done|]. intros Hk.
  rewrite decide_False by set_solver. rewrite IH; set_solver.
Qed.

Lemma od_del_length k v d : od_get k d = Some v → length d = S (length (od_del k d)).
Proof. intros H%od_del_perm. by apply Permutation_length in H. Qed.

Lemma od_elem_del k x d : od_wf d → x ∈ od_del k d ↔ x ∈ d ∧ x.1 ≠ k.
Proof.
  unfold od_wf. induction d as [|[k' v'] d IH]; simpl; [set_solver|].
  intros [Hk Hd]%NoDup_cons. case_decide as Hdec; subst.
  - split.
    + intros Hx. split; [set_solver|]. intros <-. apply Hk, list_elem_of_fmap. eauto.
    + intros [[->|]%elem_of_cons Hne]; done.
  - rewrite !elem_of_cons, IH by done. naive_solver.
Qed.

Lemma od_wf_nil : od_wf [].
Proof. constructor. Qed.

Lemma od_wf_set k v d : od_wf d → od_wf (od_set k v d).
Proof.
  unfold od_wf. intros Hd. destruct (decide (k ∈ d.*1)) as [Hk|Hk].
  - by rewrite od_set_keys_old.
  - rewrite od_set_keys_new, fmap_app by done. simpl.
    apply NoDup_app. repeat split; [done| |apply NoDup_singleton]. set_solver.
Qed.

Lemma od_wf_del k d : od_wf d → od_wf (od_del k d).
Proof.
  unfold od_wf. intros Hd. eapply sublist_NoDup; [done|].
  apply fmap_sublist, od_del_sublist.
Qed.

Lemma od_wf_alter f k d : od_wf d → od_wf (od_alter f k d).
Proof. unfold od_wf. by rewrite od_alter_keys. Qed.

Lemma od_del_keys k d : od_wf d → k ∉ (od_del k d).*1.
Proof. intros Hd. apply od_get_None. rewrite od_get_del by done. by case_decide. Qed.

Lemma od_set_keys k v d x : x ∈ (od_set k v d).*1 ↔ x = k ∨ x ∈ d.*1.
Proof.
  induction d as [|[k' v'] d IH]; csimpl; [set_solver|].
  case_decide; csimpl; rewrite !elem_of_cons, ?IH; naive_solver.
Qed.

Lemma od_del_keys_iff k d x : od_wf d → x ∈ (od_del k d).*1 ↔ x ∈ d.*1 ∧ x ≠ k.
Proof.
  intros Hd. rewrite !list_elem_of_fmap. split.
  - intros ([x' v] & -> & [? ?]%od_elem_del); [|done]. split; [by exists (x', v)|done].
  - intros [([x' v] & -> & Hin) Hne]. exists (x', v). split; [done|]. by apply od_elem_del.
Qed.

Lemma od_move_keys k d d' x : od_move_to_end k d = Some d' → x ∈ d'.*1 ↔ x ∈ d.*1.
Proof.
  unfold od_move_to_end. destruct (od_get k d) as [v|] eqn:E; simpl; intros; simplify_eq.
  rewrite (od_del_perm k v d E) at 2. rewrite Permutation_app_comm. done.
Qed.

Lemma od_get_foldl_del (ks : list (K * V)) k d :
  od_wf d → od_get k (foldl (λ d kb, od_del kb.1 d) d ks) =
    if decide (k ∈ ks.*1) then None else od_get k d.
Proof.
  revert d. induction ks as [|[k' v] ks IH]; intros d Hd; simpl; [done|].
  rewrite IH by by apply od_wf_del. rewrite od_get_del by done.
  repeat case_decide; set_solver.
Qed.

Lemma od_wf_foldl_del (ks : list (K * V)) d : od_wf d → od_wf (foldl (λ d kb, od_del kb.1 d) d ks).
Proof. revert d. induction ks as [|x ks IH]; intros d Hd; simpl; [done|]. by apply IH, od_wf_del. Qed.

Lemma od_wf_snoc k v d : k ∉ d.*1 → od_wf d → od_wf (d ++ [(k, v)]).
Proof. intros. rewrite <-od_set_keys_new by done. by apply od_wf_set. Qed.

Lemma od_move_to_end_Some k v d :
  od_get k d = Some v → od_move_to_end k d = Some (od_del k d ++ [(k, v)]).
Proof. unfold od_move_to_end. by intros ->. Qed.

Lemma od_move_to_end_perm k d d' : od_move_to_end k d = Some d' → d' ≡ₚ d.
Proof.
  unfold od_move_to_end. destruct (od_get k d) as [v|] eqn:E; simpl; intros; simplify_eq.
  symmetry. etrans; [by apply od_del_perm|]. by rewrite Permutation_app_comm.
Qed.

Lemma od_wf_perm d d' : d' ≡ₚ d → od_wf d → od_wf d'.
Proof. unfold od_wf. by intros ->. Qed.

Lemma od_get_perm k d d' : d' ≡ₚ d → od_wf d → od_get k d' = od_get k d.
Proof.
  intros Hp Hd. apply option_eq. intros v.
  rewrite !od_get_iff by eauto using od_wf_perm. by rewrite Hp.
Qed.
End od.

#[global] Instance od_wf_proper {K V} : Proper ((≡ₚ) ==> iff) (@od_wf K V).
Proof. intros d d' Hp. unfold od_wf. by rewrite Hp. Qed.

Create HintDb od.
#[export] Hint Resolve od_wf_nil od_wf_set od_wf_del od_wf_alter od_del_keys od_wf_snoc : od.
#[export] Hint Rewrite @od_get_set @od_get_alter @od_alter_keys : od.

(** The dictionary as a finite map, for clients that do not care about order. *)
Section od_map.
Context {K V : Type} `{Countable K}.
Implicit Types (d : list (K * V)).

Definition od_map d : gmap K V := list_to_map d.

Lemma od_map_lookup d k : od_map d !! k = od_get k d.
Proof.
  unfold od_map. induction d as [|[k' v] d IH]; simpl; [apply lookup_empty|].
  rewrite lookup_insert. repeat case_decide; congruence.
Qed.

Lemma od_map_set k v d : od_map (od_set k v d) = <[k := v]> (od_map d).
Proof.
  apply map_eq. intros k'. rewrite od_map_lookup, od_get_set, lookup_insert, od_map_lookup.
  repeat case_decide; congruence.
Qed.

Lemma od_map_del k d : od_wf d → od_map (od_del k d) = delete k (od_map d).
Proof.
  intros Hd. apply map_eq. intros k'.
  rewrite od_map_lookup, od_get_del, lookup_delete, od_map_lookup by done.
  repeat case_decide; congruence.
Qed.

Lemma od_map_alter f k d : od_map (od_alter f k d) = alter f k (od_map d).
Proof.
  apply map_eq. intros k'. rewrite od_map_lookup, od_get_alter, lookup_alter, !od_map_lookup.
  repeat case_decide; congruence.
Qed.

Lemma od_map_perm d d' : d' ≡ₚ d → od_wf d → od_map d' = od_map d.
Proof. intros Hp Hd. apply map_eq. intros k. rewrite !od_map_lookup. by apply od_get_perm. Qed.

Lemma od_map_size d : od_wf d → size (od_map d) = length d.
Proof.
  unfold od_wf, od_map. induction d as [|[k v] d IH]; simpl; [done|].
  intros [Hk Hd]%NoDup_cons. rewrite map_size_insert_None, IH; [done..|].
  by apply not_elem_of_list_to_map_1.
Qed.
End od_map.

(** ** Sums of the values *)
Lemma total_od_del (d : list (string * Z)) k n :
  od_get k d = Some n → total (od_del k d).*2 = (total d.*2 - n)%Z.
Proof. intros Hg. rewrite (od_del_perm k n d Hg) at 2. csimpl. unfold total. simpl. lia. Qed.

Lemma total_od_set_new (d : list (string * Z)) k n :
  k ∉ d.*1 → total (od_set k n d).*2 = (total d.*2 + n)%Z.
Proof.
  intros Hg. rewrite od_set_keys_new by done. rewrite fmap_app, Permutation_app_comm.
  unfold total. simpl. lia.
Qed.
