(* ===== verification/QuestStore.v ===== *)
(** * Quest backend: the data structures a tier manager owns

    - [BlockResidency]: the per-(layer, block) residency state machine
      (src/vllm/v1/attention/backends/quest/cache/residency.py);
    - [CpuKvBackingStore]: the pinned CPU pool with a LIFO free list per layer
      (cache/cpu_backing_store.py);
    - [LRUSlotMap]: the LRU from (seq_id, logical_block_id) to arena slots
      (class [_LRUSlotMap] of cache/tier_manager.py);
    - [QuestStreamPool]: the h2d/d2h streams and the prefetch event registry
      (async_transfer.py), as two FIFO queues of copies. *)

From S2P Require Import Prelude OrderedDict.

Open Scope Z_scope.

(** ** Residency state machine *)
Module BlockResidency.

Inductive ResidencyState :=
  | ON_GPU
  | EVICTING
  | ON_CPU
  | LOADING.

#[global] Instance ResidencyState_eq_dec : EqDecision ResidencyState.
Proof. solve_decision. Defined.

Record t := mk {
  num_layers : Z;
  max_blocks : Z;
  states : list (list ResidencyState)
}.

(** [np.zeros((num_layers, max_blocks))]: every entry starts as [ON_GPU = 0]. *)
Definition init (num_layers max_blocks : Z) : t :=
  mk num_layers max_blocks
     (replicate (Z.to_nat num_layers) (replicate (Z.to_nat max_blocks) ON_GPU)).

Definition peek (r : t) (layer_idx block_id : Z) : option ResidencyState :=
  grid_get (states r) layer_idx block_id.

Definition poke (layer_idx block_id : Z) (v : ResidencyState) (r : t) : option t :=
  st' ← grid_set (states r) layer_idx block_id v;
  Some (mk (num_layers r) (max_blocks r) st').

Definition state (layer_idx block_id : Z) : M t ResidencyState :=
  r <- get ;; of_option IndexError (peek r layer_idx block_id).

Definition set_state (layer_idx block_id : Z) (v : ResidencyState) : M t unit :=
  r <- get ;; r' <- of_option IndexError (poke layer_idx block_id v r) ;; put r'.

Definition mark_on_gpu (layer_idx block_id : Z) : M t unit :=
  set_state layer_idx block_id ON_GPU.

Definition begin_evict (layer_idx block_id : Z) : M t unit :=
  cur <- state layer_idx block_id ;;
  if bool_decide (cur = EVICTING) then ret tt
  else if bool_decide (cur ≠ ON_GPU) then raise ValueError
  else set_state layer_idx block_id EVICTING.

Definition complete_evict (layer_idx block_id : Z) : M t unit :=
  cur <- state layer_idx block_id ;;
  if bool_decide (cur ≠ EVICTING) then raise ValueError
  else set_state layer_idx block_id ON_CPU.

Definition begin_load (layer_idx block_id : Z) : M t unit :=
  cur <- state layer_idx block_id ;;
  if bool_decide (cur ≠ ON_CPU) then raise ValueError
  else set_state layer_idx block_id LOADING.

Definition complete_load (layer_idx block_id : Z) : M t unit :=
  cur <- state layer_idx block_id ;;
  if bool_decide (cur ≠ LOADING) then raise ValueError
  else set_state layer_idx block_id ON_GPU.

Definition is_on_gpu_mask (layer_idx : Z) (block_ids : list Z) : M t (list bool) :=
  for_collect block_ids (λ b,
    s <- state layer_idx b ;; ret (bool_decide (s = ON_GPU))).

(** The array keeps its shape. *)
Definition wf (r : t) : Prop := grid_wf (num_layers r) (max_blocks r) (states r).

Definition in_range (r : t) (layer_idx block_id : Z) : Prop :=
  0 ≤ layer_idx < num_layers r ∧ 0 ≤ block_id < max_blocks r.

Lemma residency_init_wf nl mb : wf (init nl mb).
Proof. apply grid_wf_replicate. Qed.

(** A write at a block changes that entry only. *)
Definition updated (r r' : t) (l b : Z) (v : ResidencyState) : Prop :=
  wf r' ∧ num_layers r' = num_layers r ∧ max_blocks r' = max_blocks r ∧
  (∀ l' b', 0 ≤ l' → 0 ≤ b' →
     peek r' l' b' = if decide (l' = l ∧ b' = b) then Some v else peek r l' b').

Lemma wp_set_state r l b v (Q : unit → t → Prop) :
  wf r → in_range r l b → (∀ r', updated r r' l b v → Q tt r') →
  wp (set_state l b v) r Q.
Proof.
  intros Hwf Hin HQ. unfold set_state. wp_steps.
  destruct Hin as [Hl Hb].
  destruct (grid_set_spec _ _ (states r) l b v Hwf Hl Hb) as (g & Hg & Hgwf & Hget).
  eapply wp_of_option; [unfold poke; by rewrite Hg|]. wp_steps. by apply HQ.
Qed.

Lemma wp_state r l b v (Q : ResidencyState → t → Prop) :
  peek r l b = Some v → Q v r → wp (state l b) r Q.
Proof. intros Hp HQ. unfold state. wp_steps. by eapply wp_of_option. Qed.

(** The four transitions, each from the state it requires. *)
Lemma wp_begin_evict r l b (Q : unit → t → Prop) :
  wf r → in_range r l b → peek r l b = Some ON_GPU →
  (∀ r', updated r r' l b EVICTING → Q tt r') → wp (begin_evict l b) r Q.
Proof.
  intros Hwf Hin Hp HQ. unfold begin_evict. wp_step.
  eapply wp_state; [done|]. simpl. by apply wp_set_state.
Qed.

Lemma wp_complete_evict r l b (Q : unit → t → Prop) :
  wf r → in_range r l b → peek r l b = Some EVICTING →
  (∀ r', updated r r' l b ON_CPU → Q tt r') → wp (complete_evict l b) r Q.
Proof.
  intros Hwf Hin Hp HQ. unfold complete_evict. wp_step.
  eapply wp_state; [done|]. simpl. by apply wp_set_state.
Qed.

Lemma wp_begin_load r l b (Q : unit → t → Prop) :
  wf r → in_range r l b → peek r l b = Some ON_CPU →
  (∀ r', updated r r' l b LOADING → Q tt r') → wp (begin_load l b) r Q.
Proof.
  intros Hwf Hin Hp HQ. unfold begin_load. wp_step.
  eapply wp_state; [done|]. simpl. by apply wp_set_state.
Qed.

Lemma wp_complete_load r l b (Q : unit → t → Prop) :
  wf r → in_range r l b → peek r l b = Some LOADING →
  (∀ r', updated r r' l b ON_GPU → Q tt r') → wp (complete_load l b) r Q.
Proof.
  intros Hwf Hin Hp HQ. unfold complete_load. wp_step.
  eapply wp_state; [done|]. simpl. by apply wp_set_state.
Qed.

Lemma wp_mark_on_gpu r l b (Q : unit → t → Prop) :
  wf r → in_range r l b → (∀ r', updated r r' l b ON_GPU → Q tt r') →
  wp (mark_on_gpu l b) r Q.
Proof. apply wp_set_state. Qed.

(** Two writes to the same entry amount to the second. *)
Lemma updated_trans r r1 r2 l b v1 v2 :
  updated r r1 l b v1 → updated r1 r2 l b v2 → updated r r2 l b v2.
Proof.
  intros (?&?&?&Hp1) (?&?&?&Hp2). split_and!; [done|congruence..|].
  intros l' b' ??. rewrite Hp2, Hp1 by done. by case_decide.
Qed.

Lemma updated_peek r r' l b v :
  in_range r l b → updated r r' l b v → peek r' l b = Some v.
Proof. intros [??] (_&_&_&Hp). rewrite Hp by lia. by rewrite decide_True. Qed.

Lemma updated_peek_ne r r' l b v b' :
  updated r r' l b v → in_range r l b' → b' ≠ b → peek r' l b' = peek r l b'.
Proof.
  intros (_&_&_&Hp) [??] ?. rewrite Hp by lia. by rewrite decide_False by naive_solver.
Qed.

Lemma updated_in_range r r' l b v l' b' :
  updated r r' l b v → in_range r' l' b' ↔ in_range r l' b'.
Proof. unfold updated, in_range. intros (?&->&->&?). done. Qed.

End BlockResidency.

(** ** Pinned CPU pool *)
Module CpuKvBackingStore.

Record CpuStoreStats := mkStats {
  alloc_count : Z;
  free_count : Z;
  store_calls : Z;
  load_calls : Z
}.

(** [k] and [v] are indexed by layer, then CPU slot; [B] is the content of one
    [block_size x num_kv_heads x head_size] block. *)
Record t (B : Type) := mk {
  k : list (list B);
  v : list (list B);
  num_layers : Z;
  blocks_per_layer : Z;
  free_lists : list (list Z);
  stats : CpuStoreStats
}.
Arguments mk {B}.
Arguments k {B}.
Arguments v {B}.
Arguments num_layers {B}.
Arguments blocks_per_layer {B}.
Arguments free_lists {B}.
Arguments stats {B}.

Section store.
Context {B : Type}.

(** [uninit] is the unspecified content of [torch.empty]. *)
Definition init (uninit : B) (num_layers blocks_per_layer : Z) : outcome (t B) :=
  if bool_decide (num_layers ≤ 0 ∨ blocks_per_layer ≤ 0) then Raise ValueError
  else
    let plane := replicate (Z.to_nat num_layers)
                   (replicate (Z.to_nat blocks_per_layer) uninit) in
    Ret (mk plane plane num_layers blocks_per_layer
            (replicate (Z.to_nat num_layers) (rev (py_range blocks_per_layer)))
            (mkStats 0 0 0 0)).

Definition set_free (fl : list (list Z)) (s : t B) : t B :=
  mk (k s) (v s) (num_layers s) (blocks_per_layer s) fl (stats s).
Definition set_stats (f : CpuStoreStats → CpuStoreStats) (s : t B) : t B :=
  mk (k s) (v s) (num_layers s) (blocks_per_layer s) (free_lists s) (f (stats s)).

Definition alloc (layer_idx : Z) : M (t B) Z :=
  s <- get ;;
  free <- of_option IndexError (list_get (free_lists s) layer_idx) ;;
  match list_pop free with
  | None => raise RuntimeError
  | Some (slot, rest) =>
      fl <- of_option IndexError (list_set (free_lists s) layer_idx rest) ;;
      modify (set_free fl) ;;
      modify (set_stats (λ st, mkStats (alloc_count st + 1) (free_count st)
                                       (store_calls st) (load_calls st))) ;;
      ret slot
  end.

Definition free (layer_idx cpu_slot : Z) : M (t B) unit :=
  s <- get ;;
  fr <- of_option IndexError (list_get (free_lists s) layer_idx) ;;
  fl <- of_option IndexError (list_set (free_lists s) layer_idx (fr ++ [cpu_slot])) ;;
  modify (set_free fl) ;;
  modify (set_stats (λ st, mkStats (alloc_count st) (free_count st + 1)
                                   (store_calls st) (load_calls st))).

(** One direction of the K and the V copy each; [store_block] runs both. *)
Definition write_k (layer_idx slot : Z) (b : B) : M (t B) unit :=
  s <- get ;;
  pl <- of_option IndexError (grid_set (k s) layer_idx slot b) ;;
  put (mk pl (v s) (num_layers s) (blocks_per_layer s) (free_lists s) (stats s)).
Definition write_v (layer_idx slot : Z) (b : B) : M (t B) unit :=
  s <- get ;;
  pl <- of_option IndexError (grid_set (v s) layer_idx slot b) ;;
  put (mk (k s) pl (num_layers s) (blocks_per_layer s) (free_lists s) (stats s)).
Definition read_k (layer_idx slot : Z) : M (t B) B :=
  s <- get ;; of_option IndexError (grid_get (k s) layer_idx slot).
Definition read_v (layer_idx slot : Z) : M (t B) B :=
  s <- get ;; of_option IndexError (grid_get (v s) layer_idx slot).

Definition bump_store : CpuStoreStats → CpuStoreStats := λ st,
  mkStats (alloc_count st) (free_count st) (store_calls st + 1) (load_calls st).
Definition bump_load : CpuStoreStats → CpuStoreStats := λ st,
  mkStats (alloc_count st) (free_count st) (store_calls st) (load_calls st + 1).

Definition store_block (layer_idx cpu_slot : Z) (k_block v_block : B) : M (t B) unit :=
  write_k layer_idx cpu_slot k_block ;;
  write_v layer_idx cpu_slot v_block ;;
  modify (set_stats bump_store).

(** [load_block] reads the two planes; the caller writes its destinations. *)
Definition load_block (layer_idx cpu_slot : Z) : M (t B) (B * B) :=
  kb <- read_k layer_idx cpu_slot ;;
  vb <- read_v layer_idx cpu_slot ;;
  modify (set_stats bump_load) ;;
  ret (kb, vb).

(** The free list of a layer and the content of a CPU slot. *)
Definition free_of (s : t B) (layer_idx : Z) : option (list Z) :=
  list_get (free_lists s) layer_idx.
Definition content (s : t B) (layer_idx slot : Z) : option (B * B) :=
  kb ← grid_get (k s) layer_idx slot;
  vb ← grid_get (v s) layer_idx slot; Some (kb, vb).

Definition plane_wf (s : t B) (pl : list (list B)) : Prop :=
  grid_wf (num_layers s) (blocks_per_layer s) pl.

Definition wf (s : t B) : Prop :=
  plane_wf s (k s) ∧ plane_wf s (v s) ∧ length (free_lists s) = Z.to_nat (num_layers s).

Definition in_range (s : t B) (layer_idx slot : Z) : Prop :=
  0 ≤ layer_idx < num_layers s ∧ 0 ≤ slot < blocks_per_layer s.

(** Two stores that agree on every free list, and on the content of every
    slot. *)
Definition same_content (s s' : t B) : Prop :=
  ∀ l sl, 0 ≤ l → 0 ≤ sl → content s' l sl = content s l sl.
Definition same_shape (s s' : t B) : Prop :=
  wf s' ∧ num_layers s' = num_layers s ∧ blocks_per_layer s' = blocks_per_layer s.

Lemma free_lists_set s l fr :
  wf s → 0 ≤ l < num_layers s →
  ∃ fl, list_set (free_lists s) l fr = Some fl ∧
    length fl = Z.to_nat (num_layers s) ∧
    (∀ l', 0 ≤ l' → list_get fl l' =
       if decide (l' = l) then Some fr else list_get (free_lists s) l').
Proof.
  intros (_&_&Hlen) Hl. rewrite list_set_inb by lia. eexists; split; [done|].
  split; [by rewrite length_insert|]. intros l' ?. rewrite !list_get_lookup by lia.
  case_decide; subst; [by rewrite list_lookup_insert_eq by lia|].
  by rewrite list_lookup_insert_ne by lia.
Qed.

Lemma wp_alloc s l fr slot (Q : Z → t B → Prop) :
  wf s → 0 ≤ l < num_layers s → free_of s l = Some (fr ++ [slot]) →
  (∀ s', same_shape s s' → same_content s s' →
     (∀ l', 0 ≤ l' → free_of s' l' = if decide (l' = l) then Some fr else free_of s l') →
     Q slot s') →
  wp (alloc l) s Q.
Proof.
  intros Hwf Hl Hfr HQ. unfold alloc. wp_steps. eapply wp_of_option; [done|].
  rewrite list_pop_snoc. wp_step.
  destruct (free_lists_set s l fr) as (fl & Hset & Hlen & Hget); [done..|].
  eapply wp_of_option; [done|]. wp_steps. apply HQ; [|done|done].
  destruct Hwf as (?&?&?). done.
Qed.

Lemma alloc_full s l : 
  0 ≤ l → free_of s l = Some [] → alloc l s = (Raise RuntimeError, s).
Proof. intros Hl Hf. unfold alloc, bind, get, free_of in *. simpl. by rewrite Hf. Qed.

Lemma wp_store_free s l slot fr (Q : unit → t B → Prop) :
  wf s → 0 ≤ l < num_layers s → free_of s l = Some fr →
  (∀ s', same_shape s s' → same_content s s' →
     (∀ l', 0 ≤ l' →
        free_of s' l' = if decide (l' = l) then Some (fr ++ [slot]) else free_of s l') →
     Q tt s') →
  wp (free l slot) s Q.
Proof.
  intros Hwf Hl Hfr HQ. unfold free. wp_steps. eapply wp_of_option; [done|]. wp_step.
  destruct (free_lists_set s l (fr ++ [slot])) as (fl & Hset & Hlen & Hget); [done..|].
  eapply wp_of_option; [done|]. wp_steps. apply HQ; [|done|done].
  destruct Hwf as (?&?&?). done.
Qed.

Lemma wp_store_block s l slot kb vb (Q : unit → t B → Prop) :
  wf s → in_range s l slot →
  (∀ s', same_shape s s' → free_lists s' = free_lists s →
     (∀ l' sl', 0 ≤ l' → 0 ≤ sl' → content s' l' sl' =
        if decide (l' = l ∧ sl' = slot) then Some (kb, vb) else content s l' sl') →
     Q tt s') →
  wp (store_block l slot kb vb) s Q.
Proof.
  intros (Hk&Hv&Hf) [Hl Hs] HQ. unfold store_block, write_k, write_v. wp_steps.
  destruct (grid_set_spec _ _ (k s) l slot kb Hk Hl Hs) as (pk & Hpk & Hwk & Hgk).
  eapply wp_of_option; [done|]. wp_steps.
  destruct (grid_set_spec _ _ (v s) l slot vb Hv Hl Hs) as (pv & Hpv & Hwv & Hgv).
  eapply wp_of_option; [done|]. wp_steps. apply HQ; [done..|].
  intros l' sl' ??. unfold content. simpl. rewrite Hgk, Hgv by done. by case_decide.
Qed.

Lemma wp_load_block s l slot kb vb (Q : B * B → t B → Prop) :
  wf s → content s l slot = Some (kb, vb) →
  (∀ s', same_shape s s' → same_content s s' → free_lists s' = free_lists s →
     Q (kb, vb) s') →
  wp (load_block l slot) s Q.
Proof.
  intros Hwf Hc HQ. unfold content in Hc.
  destruct (grid_get (k s) l slot) as [kb'|] eqn:Hk; [|done].
  destruct (grid_get (v s) l slot) as [vb'|] eqn:Hv; [|done]. simplify_eq/=.
  unfold load_block, read_k, read_v. wp_steps. eapply wp_of_option; [done|]. wp_steps.
  eapply wp_of_option; [done|]. wp_steps. by apply HQ.
Qed.

Lemma store_init_wf uninit nl bpl s : init uninit nl bpl = Ret s → wf s.
Proof.
  unfold init. case_bool_decide; [done|]. intros [= <-].
  split_and!; simpl; [apply grid_wf_replicate..|by rewrite length_replicate].
Qed.

Lemma same_shape_refl s : wf s → same_shape s s.
Proof. done. Qed.
Lemma same_shape_trans s1 s2 s3 : same_shape s1 s2 → same_shape s2 s3 → same_shape s1 s3.
Proof. unfold same_shape. intros (?&?&?) (?&?&?). split_and!; congruence. Qed.
Lemma same_shape_in_range s s' l sl : same_shape s s' → in_range s' l sl ↔ in_range s l sl.
Proof. unfold in_range. by intros (_&->&->). Qed.
End store.
End CpuKvBackingStore.

(** ** LRU slot map *)
Module LRUSlotMap.

Notation key := (Z * Z)%type.

Record t := mk {
  capacity : Z;
  key_to_slot : list (key * Z);
  free_slots : list Z
}.

Definition init (capacity : Z) : t := mk capacity [] (rev (py_range capacity)).

Definition contains (key : key) (s : t) : bool := od_mem key (key_to_slot s).

Definition set_map (d : list (key * Z)) (s : t) : t := mk (capacity s) d (free_slots s).
Definition set_free (fr : list Z) (s : t) : t := mk (capacity s) (key_to_slot s) fr.

Definition get (key : key) : M t Z :=
  s <- get ;;
  slot <- of_option KeyError (od_get key (key_to_slot s)) ;;
  d <- of_option KeyError (od_move_to_end key (key_to_slot s)) ;;
  modify (set_map d) ;;
  ret slot.

(** [next((k for k in self._key_to_slot if k not in protected), oldest)] *)
Definition victim_of (protected : list key) (oldest : key) (d : list (key * Z)) : key :=
  from_option fst oldest (head (filter (λ kv, kv.1 ∉ protected) d)).

(** [protected] is the set argument as a list; [[]] stands for [None] and for
    the empty set, which the code treats alike ([not protected]). *)
Definition add (key : key) (protected : list LRUSlotMap.key) : M t (Z * option LRUSlotMap.key) :=
  s <- Prelude.get ;;
  if contains key s then slot <- get key ;; ret (slot, None)
  else
    '(slot, evicted) <-
      match list_pop (free_slots s) with
      | Some (slot, rest) => modify (set_free rest) ;; ret (slot, None)
      | None =>
          match protected with
          | [] =>
              match key_to_slot s with
              | [] => raise KeyError
              | (evicted_key, slot) :: d =>
                  modify (set_map d) ;; ret (slot, Some evicted_key)
              end
          | _ =>
              match key_to_slot s with
              | [] => raise StopIteration
              | (oldest, _) :: _ =>
                  let victim := victim_of protected oldest (key_to_slot s) in
                  slot <- of_option KeyError (od_get victim (key_to_slot s)) ;;
                  modify (set_map (od_del victim (key_to_slot s))) ;;
                  ret (slot, Some victim)
              end
          end
      end ;;
    modify (λ s, set_map (od_set key slot (key_to_slot s)) s) ;;
    ret (slot, evicted).

Definition free (key : key) : M t Z :=
  s <- Prelude.get ;;
  slot <- of_option KeyError (od_get key (key_to_slot s)) ;;
  modify (set_map (od_del key (key_to_slot s))) ;;
  modify (λ s, set_free (free_slots s ++ [slot]) s) ;;
  ret slot.

(** Slots are partitioned between the resident keys and the free list. *)
Record inv (s : t) : Prop := {
  inv_keys : od_wf (key_to_slot s);
  inv_nodup : NoDup ((key_to_slot s).*2 ++ free_slots s);
  inv_range : Forall (λ sl, 0 ≤ sl < capacity s) ((key_to_slot s).*2 ++ free_slots s);
  inv_count : Z.of_nat (length (key_to_slot s) + length (free_slots s)) = capacity s
}.

Lemma init_inv cap : 0 ≤ cap → inv (init cap).
Proof.
  intros Hc. split; simpl.
  - apply od_wf_nil.
  - apply NoDup_ListNoDup, NoDup_rev, NoDup_ListNoDup, NoDup_seqZ.
  - apply Forall_rev, Forall_forall. intros x Hx.
    apply elem_of_seqZ in Hx. simpl. lia.
  - rewrite length_rev. unfold py_range. rewrite length_seqZ. lia.
Qed.

(** How one [add] changes the resident entries. *)
Inductive add_step (key : key) (s s' : t) (slot : Z) : option LRUSlotMap.key → Prop :=
  | add_hit :
      od_get key (key_to_slot s) = Some slot →
      s' = set_map (od_del key (key_to_slot s) ++ [(key, slot)]) s →
      add_step key s s' slot None
  | add_room fr :
      od_get key (key_to_slot s) = None →
      free_slots s = fr ++ [slot] →
      s' = mk (capacity s) (key_to_slot s ++ [(key, slot)]) fr →
      add_step key s s' slot None
  | add_evict victim :
      od_get key (key_to_slot s) = None →
      free_slots s = [] →
      od_get victim (key_to_slot s) = Some slot →
      s' = set_map (od_del victim (key_to_slot s) ++ [(key, slot)]) s →
      add_step key s s' slot (Some victim).

Lemma wp_slot_get s key slot (Q : Z → t → Prop) :
  od_get key (key_to_slot s) = Some slot →
  Q slot (set_map (od_del key (key_to_slot s) ++ [(key, slot)]) s) →
  wp (get key) s Q.
Proof.
  intros Hg HQ. unfold get. wp_steps. eapply wp_of_option; [done|]. wp_steps.
  eapply wp_of_option; [by apply od_move_to_end_Some|]. wp_steps. done.
Qed.

Lemma contains_spec key s : contains key s = true ↔ is_Some (od_get key (key_to_slot s)).
Proof. unfold contains, od_mem. by rewrite bool_decide_eq_true. Qed.

Lemma contains_false key s : contains key s = false ↔ od_get key (key_to_slot s) = None.
Proof. unfold contains. apply od_mem_false. Qed.

(** The victim of a full map is a resident key, and a non-protected one as soon
    as there is one; without protection it is the least recently used. *)
Definition victim_ok (protected : list LRUSlotMap.key) (d : list (key * Z))
    (victim : LRUSlotMap.key) : Prop :=
  match protected with
  | [] => head d.*1 = Some victim
  | _ => Exists (λ k, k ∉ protected) d.*1 →
         ∃ d1 d2, d.*1 = d1 ++ victim :: d2 ∧ victim ∉ protected ∧
                  Forall (λ k, k ∈ protected) d1
  end.

Lemma filter_head_split (protected : list LRUSlotMap.key) (d : list (key * Z)) :
  Exists (λ k, k ∉ protected) d.*1 →
  ∃ d1 v d2, d = d1 ++ v :: d2 ∧
    head (filter (λ kv, kv.1 ∉ protected) d) = Some v ∧
    v.1 ∉ protected ∧ Forall (λ k, k ∈ protected) d1.*1.
Proof.
  induction d as [|kv d IH]; [by intros ?%Exists_nil|]. intros Hex.
  rewrite filter_cons. destruct (decide (kv.1 ∉ protected)) as [Hkv|Hkv].
  - exists [], kv, d. done.
  - apply Exists_cons in Hex as [|Hex]; [done|].
    destruct (IH Hex) as (d1 & v & d2 & -> & Hh & Hv & Hf).
    exists (kv :: d1), v, d2. split_and!; [done..|]. csimpl.
    constructor; [|done]. by destruct (decide (kv.1 ∈ protected)).
Qed.

Lemma victim_of_spec p ps k0 s0 d :
  od_wf ((k0, s0) :: d) →
  ∃ slot, od_get (victim_of (p :: ps) k0 ((k0, s0) :: d)) ((k0, s0) :: d) = Some slot ∧
    victim_ok (p :: ps) ((k0, s0) :: d) (victim_of (p :: ps) k0 ((k0, s0) :: d)).
Proof.
  intros Hwf. unfold victim_of.
  destruct (decide (Exists (λ k, k ∉ p :: ps) (((k0, s0) :: d).*1))) as [Hex|Hex].
  - destruct (filter_head_split _ _ Hex) as (d1 & [vk vs] & d2 & Hsp & -> & Hnp & Hf).
    cbn [from_option fst]. exists vs. split.
    + apply od_elem_get; [done|]. rewrite Hsp. set_solver.
    + intros _. exists d1.*1, d2.*1. rewrite Hsp, fmap_app. done.
  - assert (filter (λ kv, kv.1 ∉ p :: ps) ((k0, s0) :: d) = []) as ->.
    { apply elem_of_nil_inv. intros [kk vv] [Hk1 Hk2]%list_elem_of_filter.
      apply Hex, Exists_exists. exists kk. split; [|done].
      apply list_elem_of_fmap. by exists (kk, vv). }
    cbn [head from_option]. exists s0. split; [|by intros ?].
    simpl. by rewrite decide_True.
Qed.

Lemma wp_add s key protected (Q : Z * option LRUSlotMap.key → t → Prop) :
  inv s → 0 < capacity s →
  (∀ slot evicted s', add_step key s s' slot evicted →
     (∀ v, evicted = Some v → victim_ok protected (key_to_slot s) v) →
     Q (slot, evicted) s') →
  wp (add key protected) s Q.
Proof.
  intros Hinv Hcap HQ. unfold add. wp_steps. destruct (contains key s) eqn:Heqb.
  - wp_steps. apply contains_spec in Heqb as [slot Hs]. eapply wp_slot_get; [done|]. wp_steps.
    apply HQ; [by eapply add_hit|done].
  - wp_steps. apply contains_false in Heqb. destruct (list_pop (free_slots s)) as [[slot rest]|] eqn:Hp.
    + apply list_pop_Some in Hp. wp_steps. apply HQ; [|done].
      eapply add_room; [done..|]. unfold set_map, set_free. simpl. f_equal.
      apply od_set_keys_new. by apply od_get_None.
    + apply list_pop_None in Hp. destruct (key_to_slot s) as [|[k0 s0] d] eqn:Hd.
      { exfalso. pose proof (inv_count s Hinv) as Hc. rewrite Hd, Hp in Hc. simpl in Hc. lia. }
      assert (∀ victim slot, od_get victim ((k0, s0) :: d) = Some slot →
        set_map (od_set key slot (od_del victim ((k0, s0) :: d))) s =
        set_map (od_del victim (key_to_slot s) ++ [(key, slot)]) s) as Hset.
      { intros victim slot Hv. unfold set_map. f_equal. rewrite Hd.
        apply od_set_keys_new. intros Hin. apply od_get_None in Heqb. apply Heqb.
        eapply sublist_subseteq; [apply fmap_sublist, od_del_sublist|done]. }
      destruct protected as [|p ps].
      * wp_steps. apply HQ; [|by intros ? [= <-]].
        eapply add_evict; [by rewrite Hd|done| |].
        { rewrite Hd. simpl. by rewrite decide_True. }
        rewrite <-Hset; simpl; by rewrite ?decide_True.
      * destruct (victim_of_spec p ps k0 s0 d) as (slot & Hv & Hok);
          [rewrite <-Hd; apply Hinv|].
        wp_steps. eapply wp_of_option; [done|]. wp_steps.
        apply HQ; [|by intros ? [= <-]].
        eapply add_evict; [by rewrite Hd|done|by rewrite Hd|].
        rewrite <-Hset; done.
Qed.

Lemma add_step_inv key s s' slot ev :
  inv s → add_step key s s' slot ev → inv s'.
Proof.
  intros [Hk Hn Hr Hc] Hstep.
  destruct Hstep as [Hg ->|fr Hg Hfr ->|victim Hg Hfr Hv ->]; simpl in *.
  - assert (od_del key (key_to_slot s) ++ [(key, slot)] ≡ₚ key_to_slot s) as Hp.
    { eapply od_move_to_end_perm. by apply od_move_to_end_Some. }
    split; simpl.
    + by rewrite Hp.
    + by rewrite Hp.
    + by rewrite Hp.
    + by rewrite Hp.
  - rewrite Hfr in *. apply od_get_None in Hg.
    assert ((key_to_slot s ++ [(key, slot)]).*2 ++ fr ≡ₚ (key_to_slot s).*2 ++ fr ++ [slot]) as Hp.
    { rewrite fmap_app. simpl. rewrite <-app_assoc. f_equiv. by rewrite Permutation_app_comm. }
    split; simpl.
    + by apply od_wf_snoc.
    + by rewrite Hp.
    + by rewrite Hp.
    + rewrite length_app in *. simpl in *. lia.
  - rewrite Hfr, app_nil_r in *.
    pose proof (od_del_perm _ _ _ Hv) as Hp.
    assert ((od_del victim (key_to_slot s) ++ [(key, slot)]).*2 ≡ₚ (key_to_slot s).*2) as Hp2.
    { etrans; [|by rewrite Hp]. rewrite fmap_app. simpl. by rewrite Permutation_app_comm. }
    split; simpl; rewrite ?Hfr, ?app_nil_r.
    + apply od_wf_snoc; [|by apply od_wf_del]. apply od_get_None in Hg. intros Hin. apply Hg.
      eapply sublist_subseteq; [apply fmap_sublist, od_del_sublist|done].
    + by rewrite Hp2.
    + by rewrite Hp2.
    + rewrite length_app. simpl. apply od_del_length in Hv. simpl in *. lia.
Qed.

Lemma add_step_capacity key s s' slot ev :
  add_step key s s' slot ev → capacity s' = capacity s.
Proof. by intros [_ ->|? _ _ ->|? _ _ _ ->]. Qed.

Lemma add_step_get_eq key s s' slot ev :
  inv s → add_step key s s' slot ev → od_get key (key_to_slot s') = Some slot.
Proof.
  intros Hinv Hstep. pose proof (add_step_inv _ _ _ _ _ Hinv Hstep) as Hinv'.
  apply od_elem_get; [apply Hinv'|]. destruct Hstep as [_ ->|? _ _ ->|? _ _ _ ->]; simpl; set_solver.
Qed.

Lemma add_step_get_ne key s s' slot ev k' :
  inv s → add_step key s s' slot ev → k' ≠ key →
  od_get k' (key_to_slot s') = if decide (ev = Some k') then None else od_get k' (key_to_slot s).
Proof.
  intros Hinv Hstep Hne. destruct Hstep as [Hg ->|fr Hg Hfr ->|victim Hg Hfr Hv ->]; simpl;
    rewrite ?od_get_app; simpl; rewrite (decide_False (P := k' = key)) by done.
  - rewrite od_get_del by apply Hinv. rewrite decide_False by done.
    by destruct (od_get k' (key_to_slot s)).
  - by destruct (od_get k' (key_to_slot s)).
  - rewrite od_get_del by apply Hinv.
    destruct (decide (k' = victim)) as [->|Hv'].
    + by rewrite decide_True.
    + rewrite decide_False by congruence. by destruct (od_get k' (key_to_slot s)).
Qed.

Lemma add_step_victim key s s' slot v :
  add_step key s s' slot (Some v) →
  od_get v (key_to_slot s) = Some slot ∧ v ≠ key ∧
  od_get key (key_to_slot s) = None ∧ free_slots s = [].
Proof. inversion 1; subst. split_and!; [done| |done..]. congruence. Qed.

Lemma wp_slot_free s key slot (Q : Z → t → Prop) :
  od_get key (key_to_slot s) = Some slot →
  Q slot (mk (capacity s) (od_del key (key_to_slot s)) (free_slots s ++ [slot])) →
  wp (free key) s Q.
Proof. intros Hg HQ. unfold free. wp_steps. eapply wp_of_option; [done|]. wp_steps. done. Qed.

Lemma free_inv s key slot :
  inv s → od_get key (key_to_slot s) = Some slot →
  inv (mk (capacity s) (od_del key (key_to_slot s)) (free_slots s ++ [slot])).
Proof.
  intros [Hk Hn Hr Hc] Hg. pose proof (od_del_perm _ _ _ Hg) as Hp.
  assert ((od_del key (key_to_slot s)).*2 ++ free_slots s ++ [slot] ≡ₚ
          (key_to_slot s).*2 ++ free_slots s) as Hp2.
  { etrans; [|by rewrite Hp]. simpl. rewrite app_assoc. by rewrite Permutation_app_comm. }
  split; simpl.
  - by apply od_wf_del.
  - by rewrite Hp2.
  - by rewrite Hp2.
  - rewrite length_app. simpl. apply od_del_length in Hg. lia.
Qed.

(** A resident key's slot is in range and belongs to no other key. *)
Lemma slot_in_range s key slot :
  inv s → od_get key (key_to_slot s) = Some slot → 0 ≤ slot < capacity s.
Proof.
  intros Hinv Hg%od_get_elem. pose proof (inv_range s Hinv) as Hr.
  rewrite Forall_app in Hr. destruct Hr as [Hr _]. rewrite Forall_forall in Hr.
  apply Hr, list_elem_of_fmap. by exists (key, slot).
Qed.

Lemma slot_inj s k1 k2 slot :
  inv s → od_get k1 (key_to_slot s) = Some slot → od_get k2 (key_to_slot s) = Some slot →
  k1 = k2.
Proof.
  intros Hinv H1%od_get_elem H2%od_get_elem. pose proof (inv_nodup s Hinv) as Hn.
  apply NoDup_app in Hn as [Hn _].
  apply list_elem_of_lookup in H1 as [i Hi]. apply list_elem_of_lookup in H2 as [j Hj].
  assert (i = j) as ->; [|congruence].
  eapply NoDup_lookup; [done|..]; rewrite list_lookup_fmap, ?Hi, ?Hj; done.
Qed.
End LRUSlotMap.

(** ** Per-block summaries

    The tensor primitives of [on_block_filled] come from torch; they are the
    parameters [tensor_ops], over the type [T] of [num_kv_heads x head_size]
    tensors and the type [row] of one token's keys. *)
Record tensor_ops (row T : Type) := TensorOps {
  amax : list row → T;                 (** [k_block.amax(dim=0)] *)
  amin : list row → T;                 (** [k_block.amin(dim=0)] *)
  t_add : T → T → T;
  t_sub : T → T → T;
  t_half : T → T;                      (** [x * 0.5] *)
  mean_abs_dev : list row → T → T;     (** [(k_block - c).abs().mean(dim=0)] *)
  t_zeros : T
}.
Arguments TensorOps {row T}.
Arguments amax {row T}.
Arguments amin {row T}.
Arguments t_add {row T}.
Arguments t_sub {row T}.
Arguments t_half {row T}.
Arguments mean_abs_dev {row T}.
Arguments t_zeros {row T}.

Module BlockSummaryStore.

Inductive DigestMode := quest_minmax | arkvale_cuboid_mean.

(** [summary] is indexed by layer, then block; the pair is the two digest slots. *)
Record t (T : Type) := mk {
  num_layers : Z;
  max_blocks : Z;
  block_size : Z;
  digest_mode : DigestMode;
  summary : list (list (T * T))
}.
Arguments mk {T}.
Arguments num_layers {T}.
Arguments max_blocks {T}.
Arguments block_size {T}.
Arguments digest_mode {T}.
Arguments summary {T}.

Section summary.
Context {row T : Type} (ops : tensor_ops row T).

Definition init (num_layers max_blocks block_size : Z) (mode : DigestMode) : outcome (t T) :=
  if bool_decide (num_layers ≤ 0) then Raise ValueError
  else if bool_decide (max_blocks ≤ 0) then Raise ValueError
  else Ret (mk num_layers max_blocks block_size mode
              (replicate (Z.to_nat num_layers)
                 (replicate (Z.to_nat max_blocks) (t_zeros ops, t_zeros ops)))).

(** The digest written for a filled block. *)
Definition digest (mode : DigestMode) (k_block : list row) : T * T :=
  match mode with
  | arkvale_cuboid_mean =>
      let k_max := amax ops k_block in
      let k_min := amin ops k_block in
      let center := t_half ops (t_add ops k_max k_min) in
      let radius := mean_abs_dev ops k_block center in
      (t_add ops center radius, t_sub ops center radius)
  | quest_minmax => (amax ops k_block, amin ops k_block)
  end.

Definition lookup_summary (s : t T) (layer_idx block_id : Z) : option (T * T) :=
  grid_get (summary s) layer_idx block_id.

Definition on_block_filled (layer_idx block_id : Z) (k_block : list row) : M (t T) unit :=
  s <- get ;;
  if bool_decide (Z.of_nat (length k_block) ≠ block_size s) then raise ValueError
  else
    sm <- of_option IndexError
            (grid_set (summary s) layer_idx block_id (digest (digest_mode s) k_block)) ;;
    put (mk (num_layers s) (max_blocks s) (block_size s) (digest_mode s) sm).

Definition gather (layer_idx : Z) (block_ids : list Z) : M (t T) (list (T * T)) :=
  s <- get ;;
  for_collect block_ids (λ b, of_option IndexError (lookup_summary s layer_idx b)).

Definition wf (s : t T) : Prop := grid_wf (num_layers s) (max_blocks s) (summary s).

Definition in_range (s : t T) (layer_idx block_id : Z) : Prop :=
  0 ≤ layer_idx < num_layers s ∧ 0 ≤ block_id < max_blocks s.

Definition updated (s s' : t T) (l b : Z) (d : T * T) : Prop :=
  wf s' ∧ num_layers s' = num_layers s ∧ max_blocks s' = max_blocks s ∧
  block_size s' = block_size s ∧ digest_mode s' = digest_mode s ∧
  (∀ l' b', 0 ≤ l' → 0 ≤ b' → lookup_summary s' l' b' =
     if decide (l' = l ∧ b' = b) then Some d else lookup_summary s l' b').

Lemma wp_on_block_filled s l b kb (Q : unit → t T → Prop) :
  wf s → in_range s l b → Z.of_nat (length kb) = block_size s →
  (∀ s', updated s s' l b (digest (digest_mode s) kb) → Q tt s') →
  wp (on_block_filled l b kb) s Q.
Proof.
  intros Hwf [Hl Hb] Hbs HQ. unfold on_block_filled. wp_steps.
  rewrite bool_decide_false by (by intros ?). wp_step.
  destruct (grid_set_spec _ _ (summary s) l b (digest (digest_mode s) kb) Hwf Hl Hb)
    as (g & Hg & Hgwf & Hget).
  eapply wp_of_option; [done|]. wp_steps. by apply HQ.
Qed.
End summary.
End BlockSummaryStore.

(** ** CUDA streams and the prefetch registry

    A stream executes its copies in issue order, at an unspecified later time;
    an event is a position in the stream it was recorded on. *)
Module QuestStreamPool.

(** Source of a device-to-host copy: a slot of the arena, read when the copy
    runs, or a tensor nothing overwrites in between. *)
Inductive tensor_src (B : Type) :=
  | ArenaSlot (slot : Z)
  | Tensor (b : B).
Arguments ArenaSlot {B}.
Arguments Tensor {B}.

Inductive plane := PlaneK | PlaneV.

Inductive copy_op (B : Type) :=
  | CopyH2D (p : plane) (cpu_slot gpu_slot : Z)
  | CopyD2H (p : plane) (src : tensor_src B) (cpu_slot : Z).
Arguments CopyH2D {B}.
Arguments CopyD2H {B}.

Record stream (B : Type) := mkStream {
  issued : list (copy_op B);
  ndone : nat
}.
Arguments mkStream {B}.
Arguments issued {B}.
Arguments ndone {B}.

Definition enqueue {B} (ops : list (copy_op B)) (s : stream B) : stream B :=
  mkStream (issued s ++ ops) (ndone s).

Definition event : Type := nat.

Record t (B : Type) := mk {
  h2d_stream : stream B;
  d2h_stream : stream B;
  pending : gmap (Z * Z) event
}.
Arguments mk {B}.
Arguments h2d_stream {B}.
Arguments d2h_stream {B}.
Arguments pending {B}.

Section pool.
Context {B : Type}.

Definition init : t B := mk (mkStream [] 0) (mkStream [] 0) ∅.

Definition record_h2d_done : M (t B) event := gets (λ p, length (issued (h2d_stream p))).
Definition record_d2h_done : M (t B) event := gets (λ p, length (issued (d2h_stream p))).

Definition register_prefetch_event (seq_id target_layer_idx : Z) (ev : event) : M (t B) unit :=
  modify (λ p, mk (h2d_stream p) (d2h_stream p)
                 (<[(seq_id, target_layer_idx) := ev]> (pending p))).

Definition pop_prefetch_event (seq_id target_layer_idx : Z) : M (t B) (option event) :=
  p <- get ;;
  modify (λ p, mk (h2d_stream p) (d2h_stream p)
                 (delete (seq_id, target_layer_idx) (pending p))) ;;
  ret (pending p !! (seq_id, target_layer_idx)).

Definition issue_h2d (ops : list (copy_op B)) (p : t B) : t B :=
  mk (enqueue ops (h2d_stream p)) (d2h_stream p) (pending p).
Definition issue_d2h (ops : list (copy_op B)) (p : t B) : t B :=
  mk (h2d_stream p) (enqueue ops (d2h_stream p)) (pending p).
End pool.
End QuestStreamPool.
