(* ===== verification/QuestTier.v ===== *)
(** * Quest backend: the tier manager of one layer

    [TierManager] (src/vllm/v1/attention/backends/quest/cache/tier_manager.py)
    keeps the recently used KV blocks of a layer in a bounded GPU arena and
    spills the others to the CPU pool. Two modes: write-back (an evicted block
    is copied to the CPU, a reloaded one gives its CPU slot back) and
    write-through (a full block is mirrored to the CPU when it fills and the
    backup stays). Copies run immediately when there is no stream pool; with one
    they are queued on its streams.

    Modelled: every method. Not modelled: [engine_kv_cache] (stored, never read
    by the class) and the elapsed milliseconds of the CUDA timing events (their
    interval counters are). Tensors handed to a method have the shape of an
    arena slot, as every caller arranges. *)

From S2P Require Import Prelude OrderedDict QuestStore.

Open Scope Z_scope.

Module TierManager.

Notation key := LRUSlotMap.key.

(** [block_ordering]: "lru", "prefetch" or "mixture". *)
Inductive ordering := lru | prefetch | mixture.

#[global] Instance ordering_eq_dec : EqDecision ordering.
Proof. solve_decision. Defined.

Record QuestStats := mkStats {
  block_filled : Z;
  evict_d2h : Z;
  evict_drop : Z;
  load_h2d : Z;
  select_calls : Z;
  selected_total : Z;
  selected_on_gpu : Z;
  h2d_wait_events : Z;
  evict_stall_events : Z
}.

(** [QuestStats()] *)
Definition stats0 : QuestStats := mkStats 0 0 0 0 0 0 0 0 0.

Definition bump_block_filled (n : Z) (st : QuestStats) : QuestStats :=
  mkStats (block_filled st + n) (evict_d2h st) (evict_drop st) (load_h2d st) (select_calls st) (selected_total st) (selected_on_gpu st) (h2d_wait_events st) (evict_stall_events st).
Definition bump_evict_d2h (n : Z) (st : QuestStats) : QuestStats :=
  mkStats (block_filled st) (evict_d2h st + n) (evict_drop st) (load_h2d st) (select_calls st) (selected_total st) (selected_on_gpu st) (h2d_wait_events st) (evict_stall_events st).
Definition bump_evict_drop (n : Z) (st : QuestStats) : QuestStats :=
  mkStats (block_filled st) (evict_d2h st) (evict_drop st + n) (load_h2d st) (select_calls st) (selected_total st) (selected_on_gpu st) (h2d_wait_events st) (evict_stall_events st).
Definition bump_load_h2d (n : Z) (st : QuestStats) : QuestStats :=
  mkStats (block_filled st) (evict_d2h st) (evict_drop st) (load_h2d st + n) (select_calls st) (selected_total st) (selected_on_gpu st) (h2d_wait_events st) (evict_stall_events st).
Definition bump_select_calls (n : Z) (st : QuestStats) : QuestStats :=
  mkStats (block_filled st) (evict_d2h st) (evict_drop st) (load_h2d st) (select_calls st + n) (selected_total st) (selected_on_gpu st) (h2d_wait_events st) (evict_stall_events st).
Definition bump_selected_total (n : Z) (st : QuestStats) : QuestStats :=
  mkStats (block_filled st) (evict_d2h st) (evict_drop st) (load_h2d st) (select_calls st) (selected_total st + n) (selected_on_gpu st) (h2d_wait_events st) (evict_stall_events st).
Definition bump_selected_on_gpu (n : Z) (st : QuestStats) : QuestStats :=
  mkStats (block_filled st) (evict_d2h st) (evict_drop st) (load_h2d st) (select_calls st) (selected_total st) (selected_on_gpu st + n) (h2d_wait_events st) (evict_stall_events st).
Definition bump_h2d_wait_events (n : Z) (st : QuestStats) : QuestStats :=
  mkStats (block_filled st) (evict_d2h st) (evict_drop st) (load_h2d st) (select_calls st) (selected_total st) (selected_on_gpu st) (h2d_wait_events st + n) (evict_stall_events st).
Definition bump_evict_stall_events (n : Z) (st : QuestStats) : QuestStats :=
  mkStats (block_filled st) (evict_d2h st) (evict_drop st) (load_h2d st) (select_calls st) (selected_total st) (selected_on_gpu st) (h2d_wait_events st) (evict_stall_events st + n).

(** One entry of the debug selection log. *)
Record SelectedEntry := mkSelected {
  sel_step : Z;
  sel_seq_id : Z;
  sel_block_ids : list Z
}.

(** A block is the list of its token rows; [block_size] rows each. *)
Section tier.
Context {row T : Type}.
Notation block := (list row).

(** The attributes fixed at construction. *)
Record config := mkConfig {
  layer_idx : Z;
  gpu_budget : Z;
  enable_event_timing : bool;
  enable_overlap_capture : bool;
  enable_write_through : bool;
  block_ordering : ordering;
  prefetch_touch : bool
}.

Record t := mk {
  cfg : config;
  gpu_k : list block;
  gpu_v : list block;
  summary_store : BlockSummaryStore.t T;
  residency : BlockResidency.t;
  cpu_store : CpuKvBackingStore.t block;
  stream_pool : option (QuestStreamPool.t block);
  active_seqs : option (gset Z);
  slot_map : LRUSlotMap.t;
  cpu_slots : list (key * Z);
  host_slots : list (key * Z);
  prev_selected : gmap Z (list Z);
  stats : QuestStats;
  selected_log : list SelectedEntry;
  trimmed : gset Z
}.

Definition with_gpu_k (x : list block) (s : t) : t :=
  mk (cfg s) x (gpu_v s) (summary_store s) (residency s) (cpu_store s) (stream_pool s) (active_seqs s) (slot_map s) (cpu_slots s) (host_slots s) (prev_selected s) (stats s) (selected_log s) (trimmed s).
Definition with_gpu_v (x : list block) (s : t) : t :=
  mk (cfg s) (gpu_k s) x (summary_store s) (residency s) (cpu_store s) (stream_pool s) (active_seqs s) (slot_map s) (cpu_slots s) (host_slots s) (prev_selected s) (stats s) (selected_log s) (trimmed s).
Definition with_summary_store (x : BlockSummaryStore.t T) (s : t) : t :=
  mk (cfg s) (gpu_k s) (gpu_v s) x (residency s) (cpu_store s) (stream_pool s) (active_seqs s) (slot_map s) (cpu_slots s) (host_slots s) (prev_selected s) (stats s) (selected_log s) (trimmed s).
Definition with_residency (x : BlockResidency.t) (s : t) : t :=
  mk (cfg s) (gpu_k s) (gpu_v s) (summary_store s) x (cpu_store s) (stream_pool s) (active_seqs s) (slot_map s) (cpu_slots s) (host_slots s) (prev_selected s) (stats s) (selected_log s) (trimmed s).
Definition with_cpu_store (x : CpuKvBackingStore.t block) (s : t) : t :=
  mk (cfg s) (gpu_k s) (gpu_v s) (summary_store s) (residency s) x (stream_pool s) (active_seqs s) (slot_map s) (cpu_slots s) (host_slots s) (prev_selected s) (stats s) (selected_log s) (trimmed s).
Definition with_stream_pool (x : option (QuestStreamPool.t block)) (s : t) : t :=
  mk (cfg s) (gpu_k s) (gpu_v s) (summary_store s) (residency s) (cpu_store s) x (active_seqs s) (slot_map s) (cpu_slots s) (host_slots s) (prev_selected s) (stats s) (selected_log s) (trimmed s).
Definition with_active_seqs (x : option (gset Z)) (s : t) : t :=
  mk (cfg s) (gpu_k s) (gpu_v s) (summary_store s) (residency s) (cpu_store s) (stream_pool s) x (slot_map s) (cpu_slots s) (host_slots s) (prev_selected s) (stats s) (selected_log s) (trimmed s).
Definition with_slot_map (x : LRUSlotMap.t) (s : t) : t :=
  mk (cfg s) (gpu_k s) (gpu_v s) (summary_store s) (residency s) (cpu_store s) (stream_pool s) (active_seqs s) x (cpu_slots s) (host_slots s) (prev_selected s) (stats s) (selected_log s) (trimmed s).
Definition with_cpu_slots (x : list (key * Z)) (s : t) : t :=
  mk (cfg s) (gpu_k s) (gpu_v s) (summary_store s) (residency s) (cpu_store s) (stream_pool s) (active_seqs s) (slot_map s) x (host_slots s) (prev_selected s) (stats s) (selected_log s) (trimmed s).
Definition with_host_slots (x : list (key * Z)) (s : t) : t :=
  mk (cfg s) (gpu_k s) (gpu_v s) (summary_store s) (residency s) (cpu_store s) (stream_pool s) (active_seqs s) (slot_map s) (cpu_slots s) x (prev_selected s) (stats s) (selected_log s) (trimmed s).
Definition with_prev_selected (x : gmap Z (list Z)) (s : t) : t :=
  mk (cfg s) (gpu_k s) (gpu_v s) (summary_store s) (residency s) (cpu_store s) (stream_pool s) (active_seqs s) (slot_map s) (cpu_slots s) (host_slots s) x (stats s) (selected_log s) (trimmed s).
Definition with_stats (x : QuestStats) (s : t) : t :=
  mk (cfg s) (gpu_k s) (gpu_v s) (summary_store s) (residency s) (cpu_store s) (stream_pool s) (active_seqs s) (slot_map s) (cpu_slots s) (host_slots s) (prev_selected s) x (selected_log s) (trimmed s).
Definition with_selected_log (x : list SelectedEntry) (s : t) : t :=
  mk (cfg s) (gpu_k s) (gpu_v s) (summary_store s) (residency s) (cpu_store s) (stream_pool s) (active_seqs s) (slot_map s) (cpu_slots s) (host_slots s) (prev_selected s) (stats s) x (trimmed s).
Definition with_trimmed (x : gset Z) (s : t) : t :=
  mk (cfg s) (gpu_k s) (gpu_v s) (summary_store s) (residency s) (cpu_store s) (stream_pool s) (active_seqs s) (slot_map s) (cpu_slots s) (host_slots s) (prev_selected s) (stats s) (selected_log s) x.

Definition bump (f : QuestStats → QuestStats) : M t unit :=
  modify (λ s, with_stats (f (stats s)) s).
Definition on_residency {A} (m : M BlockResidency.t A) : M t A := zoom residency with_residency m.
Definition on_cpu_store {A} (m : M (CpuKvBackingStore.t block) A) : M t A :=
  zoom cpu_store with_cpu_store m.
Definition on_slot_map {A} (m : M LRUSlotMap.t A) : M t A := zoom slot_map with_slot_map m.
Definition on_summary {A} (m : M (BlockSummaryStore.t T) A) : M t A :=
  zoom summary_store with_summary_store m.
Definition on_pool {A} (p : QuestStreamPool.t block) (m : M (QuestStreamPool.t block) A) : M t A :=
  zoom (λ s, default p (stream_pool s)) (λ p s, with_stream_pool (Some p) s) m.
End tier.
Arguments t : clear implicits.

Section operations.
Context {row T : Type} (ops : tensor_ops row T).
Notation block := (list row).
Notation TM := (t row T).
Implicit Types (seq_id logical_block_id slot : Z).

Definition init (c : config) (gpu_k gpu_v : list block) (summary_store : BlockSummaryStore.t T)
    (residency : BlockResidency.t) (cpu_store : CpuKvBackingStore.t block)
    (stream_pool : option (QuestStreamPool.t block)) (gpu_pool_aliases_kv_cache : bool)
    : outcome TM :=
  if gpu_pool_aliases_kv_cache then Raise AssertionError
  else Ret (mk c gpu_k gpu_v summary_store residency cpu_store stream_pool None
               (LRUSlotMap.init (gpu_budget c)) [] [] ∅ stats0 [] ∅).

Definition layer : M TM Z := gets (λ s, layer_idx (cfg s)).

Definition record_selected (step seq_id : Z) (block_ids : list Z) : M TM unit :=
  s <- get ;;
  if negb (enable_overlap_capture (cfg s)) then ret tt
  else put (with_selected_log (selected_log s ++ [mkSelected step seq_id block_ids]) s).

Definition drain_selected : M TM (list SelectedEntry) :=
  s <- get ;; put (with_selected_log [] s) ;; ret (selected_log s).

Definition logical_to_slot seq_id logical_block_id : M TM Z :=
  on_slot_map (LRUSlotMap.get (seq_id, logical_block_id)).

Definition is_resident seq_id logical_block_id (s : TM) : bool :=
  LRUSlotMap.contains (seq_id, logical_block_id) (slot_map s).

Definition count_resident seq_id (logical_block_ids : list Z) (s : TM) : Z :=
  Z.of_nat (length (filter (λ b, is_resident seq_id b s = true) logical_block_ids)).

Definition set_prev_selected seq_id (block_ids : list Z) : M TM unit :=
  s <- get ;;
  if bool_decide (block_ordering (cfg s) ≠ mixture) then ret tt
  else put (with_prev_selected (<[seq_id := block_ids]> (prev_selected s)) s).

Definition _protected_keys (seq_id : Z) (s : TM) : list key :=
  if bool_decide (block_ordering (cfg s) ≠ mixture) then []
  else (λ b, (seq_id, b)) <$> default [] (prev_selected s !! seq_id).

Definition register_prefill_summary (seq_id logical_block_id : Z) (k_block : block) : M TM unit :=
  L <- layer ;;
  on_summary (BlockSummaryStore.on_block_filled ops L logical_block_id k_block).

(** [self.gpu_k[slot]], [self.gpu_v[slot]] *)
Definition read_arena (slot : Z) : M TM (block * block) :=
  s <- get ;;
  kb <- of_option IndexError (list_get (gpu_k s) slot) ;;
  vb <- of_option IndexError (list_get (gpu_v s) slot) ;;
  ret (kb, vb).

(** [self.gpu_k[slot].copy_(k_block); self.gpu_v[slot].copy_(v_block)] *)
Definition copy_into_arena (slot : Z) (k_block v_block : block) : M TM unit :=
  s <- get ;;
  gk <- of_option IndexError (list_set (gpu_k s) slot k_block) ;;
  put (with_gpu_k gk s) ;;
  s <- get ;;
  gv <- of_option IndexError (list_set (gpu_v s) slot v_block) ;;
  put (with_gpu_v gv s).

Definition set_cpu_slot (k : key) (cpu_slot : Z) : M TM unit :=
  modify (λ s, with_cpu_slots (od_set k cpu_slot (cpu_slots s)) s).

(** Reading the source of a device-to-host copy now. *)
Definition read_src (src_k src_v : QuestStreamPool.tensor_src block) : M TM (block * block) :=
  let one (pick : block * block → block) src :=
    match src with
    | QuestStreamPool.Tensor b => ret b
    | QuestStreamPool.ArenaSlot slot => kv <- read_arena slot ;; ret (pick kv)
    end in
  kb <- one fst src_k ;; vb <- one snd src_v ;; ret (kb, vb).

Definition _mirror_to_host seq_id logical_block_id
    (src_k src_v : QuestStreamPool.tensor_src block) : M TM unit :=
  s <- get ;;
  if od_mem (seq_id, logical_block_id) (host_slots s) then ret tt
  else
    L <- layer ;;
    cpu_slot <- on_cpu_store (CpuKvBackingStore.alloc L) ;;
    modify (λ s, with_host_slots
      (od_set (seq_id, logical_block_id) cpu_slot (host_slots s)) s) ;;
    match stream_pool s with
    | None =>
        '(kb, vb) <- read_src src_k src_v ;;
        on_cpu_store (CpuKvBackingStore.store_block L cpu_slot kb vb)
    | Some p =>
        on_pool p (modify (QuestStreamPool.issue_d2h
          [QuestStreamPool.CopyD2H QuestStreamPool.PlaneK src_k cpu_slot;
           QuestStreamPool.CopyD2H QuestStreamPool.PlaneV src_v cpu_slot])) ;;
        on_cpu_store (modify (CpuKvBackingStore.set_stats CpuKvBackingStore.bump_store))
    end.

(** [spill_hook] under write-through *)
Definition _drop_gpu_slot seq_id logical_block_id (slot : Z) : M TM unit :=
  s <- get ;;
  assert_ (od_mem (seq_id, logical_block_id) (host_slots s)) ;;
  L <- layer ;;
  on_residency (BlockResidency.begin_evict L logical_block_id) ;;
  on_residency (BlockResidency.complete_evict L logical_block_id) ;;
  bump (bump_evict_drop 1).

(** [spill_hook] under write-back *)
Definition _spill_to_cpu seq_id logical_block_id (slot : Z) : M TM unit :=
  L <- layer ;;
  cpu_slot <- on_cpu_store (CpuKvBackingStore.alloc L) ;;
  on_residency (BlockResidency.begin_evict L logical_block_id) ;;
  '(kb, vb) <- read_arena slot ;;
  s <- get ;;
  match stream_pool s with
  | None =>
      on_cpu_store (CpuKvBackingStore.store_block L cpu_slot kb vb) ;;
      if enable_event_timing (cfg s) then bump (bump_evict_stall_events 1) else ret tt
  | Some p =>
      on_pool p (modify (QuestStreamPool.issue_d2h
        [QuestStreamPool.CopyD2H QuestStreamPool.PlaneK (QuestStreamPool.ArenaSlot slot) cpu_slot;
         QuestStreamPool.CopyD2H QuestStreamPool.PlaneV (QuestStreamPool.ArenaSlot slot) cpu_slot])) ;;
      on_cpu_store (modify (CpuKvBackingStore.set_stats CpuKvBackingStore.bump_store))
  end ;;
  on_residency (BlockResidency.complete_evict L logical_block_id) ;;
  set_cpu_slot (seq_id, logical_block_id) cpu_slot ;;
  bump (bump_evict_d2h 1).

Definition spill_hook (evicted : option key) (slot : Z) : M TM unit :=
  match evicted with
  | None => ret tt
  | Some (sid, bid) =>
      s <- get ;;
      if enable_write_through (cfg s) then _drop_gpu_slot sid bid slot
      else _spill_to_cpu sid bid slot
  end.

Definition on_block_filled seq_id logical_block_id (k_block v_block : block) : M TM Z :=
  L <- layer ;;
  on_summary (BlockSummaryStore.on_block_filled ops L logical_block_id k_block) ;;
  '(slot, evicted) <- on_slot_map (LRUSlotMap.add (seq_id, logical_block_id) []) ;;
  spill_hook evicted slot ;;
  copy_into_arena slot k_block v_block ;;
  on_residency (BlockResidency.mark_on_gpu L logical_block_id) ;;
  bump (bump_block_filled 1) ;;
  s <- get ;;
  (if enable_write_through (cfg s)
   then _mirror_to_host seq_id logical_block_id
          (QuestStreamPool.Tensor k_block) (QuestStreamPool.Tensor v_block)
   else ret tt) ;;
  ret slot.

(** The body of the keep/spill loop of [trim_to_working_set] and of
    [prefill_ingest_kvshare] for a block below [keep_lo]; [src] evaluates the
    block's K and V tensors. *)
Definition spill_prompt_block seq_id (b : Z) (src : M TM (block * block)) : M TM unit :=
  L <- layer ;;
  s <- get ;;
  if enable_write_through (cfg s) then
    '(k_block, v_block) <- src ;;
    _mirror_to_host seq_id b (QuestStreamPool.Tensor k_block) (QuestStreamPool.Tensor v_block) ;;
    on_residency (BlockResidency.begin_evict L b) ;;
    on_residency (BlockResidency.complete_evict L b)
  else
    cpu_slot <- try_except (on_cpu_store (CpuKvBackingStore.alloc L))
                  (λ e, bool_decide (e = RuntimeError)) (λ _, raise RuntimeError) ;;
    '(k_block, v_block) <- src ;;
    on_cpu_store (CpuKvBackingStore.store_block L cpu_slot k_block v_block) ;;
    set_cpu_slot (seq_id, b) cpu_slot ;;
    on_residency (BlockResidency.begin_evict L b) ;;
    on_residency (BlockResidency.complete_evict L b) ;;
    bump (bump_evict_d2h 1).

(** The same for a block that stays in the arena. *)
Definition keep_prompt_block seq_id (b : Z) (src : M TM (block * block)) (count : bool)
    : M TM unit :=
  L <- layer ;;
  '(slot, evicted) <- on_slot_map (LRUSlotMap.add (seq_id, b) []) ;;
  assert_ (bool_decide (evicted = None)) ;;
  '(k_block, v_block) <- src ;;
  copy_into_arena slot k_block v_block ;;
  on_residency (BlockResidency.mark_on_gpu L b) ;;
  (if count then bump (bump_block_filled 1) else ret tt) ;;
  s <- get ;;
  if enable_write_through (cfg s)
  then _mirror_to_host seq_id b (QuestStreamPool.Tensor k_block) (QuestStreamPool.Tensor v_block)
  else ret tt.

Definition keep_lo_of (num_full_blocks : Z) (s : TM) : Z :=
  let keep_n := Z.max 0 (Z.min num_full_blocks (LRUSlotMap.capacity (slot_map s) - 1)) in
  num_full_blocks - keep_n.

Definition trim_to_working_set seq_id (num_full_blocks : Z) (k_eng v_eng : list block)
    (block_table_row : list Z) : M TM unit :=
  s <- get ;;
  if bool_decide (seq_id ∈ trimmed s) then ret tt
  else
    modify (λ s, with_trimmed ({[seq_id]} ∪ trimmed s) s) ;;
    let keep_lo := keep_lo_of num_full_blocks s in
    for_each (py_range num_full_blocks) (λ b,
      phys <- of_option IndexError (list_get block_table_row b) ;;
      let src :=
        kb <- of_option IndexError (list_get k_eng phys) ;;
        vb <- of_option IndexError (list_get v_eng phys) ;;
        ret (kb, vb) in
      if bool_decide (keep_lo ≤ b) then keep_prompt_block seq_id b src false
      else spill_prompt_block seq_id b src).

Definition write_live_block seq_id (live_block_id : Z) (k_block v_block : block) : M TM Z :=
  L <- layer ;;
  '(slot, evicted) <- on_slot_map (LRUSlotMap.add (seq_id, live_block_id) []) ;;
  spill_hook evicted slot ;;
  copy_into_arena slot k_block v_block ;;
  on_residency (BlockResidency.mark_on_gpu L live_block_id) ;;
  ret slot.

(** [x[lo:hi]] for [0 <= lo] *)
Definition slice {A} (x : list A) (lo hi : Z) : list A :=
  take (Z.to_nat (hi - lo)) (drop (Z.to_nat lo) x).

Definition prefill_ingest_kvshare seq_id (num_full_blocks : Z) (key value : list row)
    (block_size : Z) (prompt_len : option Z) : M TM unit :=
  s <- get ;;
  if bool_decide (seq_id ∈ trimmed s) then ret tt
  else
    modify (λ s, with_trimmed ({[seq_id]} ∪ trimmed s) s) ;;
    let keep_lo := keep_lo_of num_full_blocks s in
    L <- layer ;;
    for_each (py_range num_full_blocks) (λ b,
      let lo := b * block_size in
      let k_block := slice key lo (lo + block_size) in
      let v_block := slice value lo (lo + block_size) in
      on_summary (BlockSummaryStore.on_block_filled ops L b k_block) ;;
      if bool_decide (keep_lo ≤ b) then keep_prompt_block seq_id b (ret (k_block, v_block)) true
      else spill_prompt_block seq_id b (ret (k_block, v_block))) ;;
    match prompt_len with
    | None => ret tt
    | Some prompt_len =>
        let partial := prompt_len - num_full_blocks * block_size in
        if bool_decide (0 < partial) then
          let live_id := num_full_blocks in
          '(slot, evicted) <- on_slot_map (LRUSlotMap.add (seq_id, live_id) []) ;;
          spill_hook evicted slot ;;
          let lo := num_full_blocks * block_size in
          '(kb, vb) <- read_arena slot ;;
          copy_into_arena slot (list_inserts 0 (slice key lo (lo + partial)) kb)
                               (list_inserts 0 (slice value lo (lo + partial)) vb) ;;
          on_residency (BlockResidency.mark_on_gpu L live_id)
        else ret tt
    end.

Definition append_decode_token_kvshare seq_id (seq_len_before : Z) (k_tok v_tok : row)
    (block_size : Z) : M TM unit :=
  if bool_decide (block_size = 0) then raise ZeroDivisionError
  else
    let live_block_id := seq_len_before / block_size in
    let offset := seq_len_before `mod` block_size in
    L <- layer ;;
    '(slot, evicted) <- on_slot_map (LRUSlotMap.add (seq_id, live_block_id) []) ;;
    spill_hook evicted slot ;;
    '(kb, vb) <- read_arena slot ;;
    kb' <- of_option IndexError (list_set kb offset k_tok) ;;
    vb' <- of_option IndexError (list_set vb offset v_tok) ;;
    copy_into_arena slot kb' vb' ;;
    on_residency (BlockResidency.mark_on_gpu L live_block_id) ;;
    if bool_decide (offset = block_size - 1) then
      on_summary (BlockSummaryStore.on_block_filled ops L live_block_id kb') ;;
      bump (bump_block_filled 1) ;;
      s <- get ;;
      if enable_write_through (cfg s)
      then _mirror_to_host seq_id live_block_id
             (QuestStreamPool.ArenaSlot slot) (QuestStreamPool.ArenaSlot slot)
      else ret tt
    else ret tt.

Definition keys_of (seq_id : Z) (d : list (key * Z)) : list key :=
  filter (λ k, k.1 = seq_id) d.*1.

(** [cpu_slot = d.pop(k); self.cpu_store.free(self.layer_idx, cpu_slot)] *)
Definition release_cpu_slot (proj : TM → list (key * Z)) (upd : list (key * Z) → TM → TM)
    (k : key) : M TM unit :=
  s <- get ;;
  cpu_slot <- of_option KeyError (od_get k (proj s)) ;;
  modify (λ s, upd (od_del k (proj s)) s) ;;
  L <- layer ;;
  on_cpu_store (CpuKvBackingStore.free L cpu_slot).

Definition free_request seq_id : M TM unit :=
  s <- get ;;
  let keys := keys_of seq_id (LRUSlotMap.key_to_slot (slot_map s)) in
  for_each keys (λ k, _ <- on_slot_map (LRUSlotMap.free k) ;; ret tt) ;;
  s <- get ;;
  let cpu_keys := keys_of seq_id (cpu_slots s) in
  for_each cpu_keys (release_cpu_slot cpu_slots with_cpu_slots) ;;
  s <- get ;;
  let host_keys := keys_of seq_id (host_slots s) in
  for_each host_keys (release_cpu_slot host_slots with_host_slots) ;;
  modify (λ s, with_trimmed (trimmed s ∖ {[seq_id]}) s) ;;
  modify (λ s, with_prev_selected (delete seq_id (prev_selected s)) s) ;;
  L <- layer ;;
  for_each ((keys ++ cpu_keys ++ host_keys).*2) (λ b,
    on_residency (BlockResidency.mark_on_gpu L b)).

Definition _touch_resident seq_id (ids keep_ids : list Z) : M TM unit :=
  let touch bid :=
    s <- get ;;
    if is_resident seq_id bid s
    then _ <- on_slot_map (LRUSlotMap.get (seq_id, bid)) ;; ret tt
    else ret tt in
  for_each keep_ids touch ;; for_each ids touch.

(** [_host_slots.get(key)] under write-through, [_cpu_slots.pop(key)] otherwise *)
Definition take_cpu_slot (k : key) : M TM Z :=
  s <- get ;;
  if enable_write_through (cfg s) then of_option RuntimeError (od_get k (host_slots s))
  else
    let o := od_get k (cpu_slots s) in
    modify (λ s, with_cpu_slots (od_del k (cpu_slots s)) s) ;;
    of_option RuntimeError o.

Definition _ensure_one_sync seq_id (bid : Z) : M TM unit :=
  s <- get ;;
  if is_resident seq_id bid s
  then _ <- on_slot_map (LRUSlotMap.get (seq_id, bid)) ;; ret tt
  else
    cpu_slot <- take_cpu_slot (seq_id, bid) ;;
    s <- get ;;
    '(slot, evicted) <- on_slot_map (LRUSlotMap.add (seq_id, bid) (_protected_keys seq_id s)) ;;
    spill_hook evicted slot ;;
    L <- layer ;;
    on_residency (BlockResidency.begin_load L bid) ;;
    '(kb, vb) <- on_cpu_store (CpuKvBackingStore.load_block L cpu_slot) ;;
    copy_into_arena slot kb vb ;;
    (if enable_write_through (cfg s) then ret tt
     else on_cpu_store (CpuKvBackingStore.free L cpu_slot)) ;;
    on_residency (BlockResidency.complete_load L bid) ;;
    bump (bump_load_h2d 1).

(** The same with copies queued on the h2d stream. *)
Definition _ensure_one_async (p : QuestStreamPool.t block) seq_id (bid : Z) : M TM unit :=
  s <- get ;;
  if is_resident seq_id bid s
  then _ <- on_slot_map (LRUSlotMap.get (seq_id, bid)) ;; ret tt
  else
    cpu_slot <- take_cpu_slot (seq_id, bid) ;;
    s <- get ;;
    '(slot, evicted) <- on_slot_map (LRUSlotMap.add (seq_id, bid) (_protected_keys seq_id s)) ;;
    spill_hook evicted slot ;;
    L <- layer ;;
    on_residency (BlockResidency.begin_load L bid) ;;
    _ <- read_arena slot ;;
    on_pool p (modify (QuestStreamPool.issue_h2d
      [QuestStreamPool.CopyH2D QuestStreamPool.PlaneK cpu_slot slot;
       QuestStreamPool.CopyH2D QuestStreamPool.PlaneV cpu_slot slot])) ;;
    on_cpu_store (modify (CpuKvBackingStore.set_stats CpuKvBackingStore.bump_load)) ;;
    (if enable_write_through (cfg s) then ret tt
     else on_cpu_store (CpuKvBackingStore.free L cpu_slot)) ;;
    on_residency (BlockResidency.complete_load L bid) ;;
    bump (bump_load_h2d 1).

Definition _timed_ensure_sync seq_id (ids : list Z) : M TM unit :=
  before <- get ;;
  for_each ids (_ensure_one_sync seq_id) ;;
  after <- get ;;
  if bool_decide (load_h2d (stats before) < load_h2d (stats after))
  then bump (bump_h2d_wait_events 1) else ret tt.

Definition ensure_resident seq_id (ids : list Z) (keep_resident_ids : option (list Z))
    : M TM (option QuestStreamPool.event) :=
  let keep := default [] keep_resident_ids in
  _touch_resident seq_id ids keep ;;
  s <- get ;;
  match stream_pool s with
  | None =>
      (if enable_event_timing (cfg s) then _timed_ensure_sync seq_id ids
       else for_each ids (_ensure_one_sync seq_id)) ;;
      ret None
  | Some p =>
      for_each ids (_ensure_one_async p seq_id) ;;
      ev <- on_pool p QuestStreamPool.record_h2d_done ;;
      ret (Some ev)
  end.

Definition prefetch_top_ids seq_id (ids : list Z) : M TM unit :=
  s <- get ;;
  match stream_pool s with
  | None => ret tt
  | Some p =>
      for_each ids (λ bid,
        _ensure_one_async p seq_id bid ;;
        s <- get ;;
        if negb (prefetch_touch (cfg s)) && is_resident seq_id bid s then
          d <- of_option KeyError
                 (od_move_to_front (seq_id, bid) (LRUSlotMap.key_to_slot (slot_map s))) ;;
          on_slot_map (modify (LRUSlotMap.set_map d))
        else ret tt) ;;
      ev <- on_pool p QuestStreamPool.record_h2d_done ;;
      L <- layer ;;
      on_pool p (QuestStreamPool.register_prefetch_event seq_id L ev)
  end.
End operations.
End TierManager.
