(* ===== verification/QuestTierInv.v ===== *)
(** * Quest backend: the tier manager's invariant and its two-tier content

    [stored s k] is the KV data a tier manager holds for block [k], whichever
    tier it is in; [tm_inv] is the invariant that makes it well defined. Every
    step of an eviction or a reload is shown to preserve both, which is what the
    theorems of [QuestTierProps] are built from. *)

From S2P Require Import Prelude OrderedDict QuestStore QuestTier.

Open Scope Z_scope.

Section invariant.
Context {row T : Type} (ops : tensor_ops row T).
Notation block := (list row).
Notation TM := (TierManager.t row T).
Notation key := LRUSlotMap.key.
Import TierManager.
Implicit Types (s : TM) (k : key) (sid b slot c L : Z).

Definition resident_map s : list (key * Z) := LRUSlotMap.key_to_slot (slot_map s).
Definition write_through s : bool := enable_write_through (cfg s).
Definition lidx s : Z := layer_idx (cfg s).

(** The dictionary of CPU copies the mode uses. *)
Definition backing s : list (key * Z) :=
  if write_through s then host_slots s else cpu_slots s.

Definition arena s slot : option (block * block) :=
  kb ← list_get (gpu_k s) slot; vb ← list_get (gpu_v s) slot; Some (kb, vb).

Definition cpu_content s c : option (block * block) :=
  CpuKvBackingStore.content (cpu_store s) (lidx s) c.

(** The data held for a block. *)
Definition stored s k : option (block * block) :=
  match od_get k (resident_map s) with
  | Some slot => arena s slot
  | None => c ← od_get k (backing s); cpu_content s c
  end.

(** What the residency array says about a block. *)
Definition expected_residency s k : BlockResidency.ResidencyState :=
  match od_get k (resident_map s), od_get k (backing s) with
  | None, Some _ => BlockResidency.ON_CPU
  | _, _ => BlockResidency.ON_GPU
  end.

Definition block_in_range s b : Prop :=
  BlockResidency.in_range (residency s) (lidx s) b.

(** [transit] are the CPU slots taken from [cpu_slots] whose data is being
    loaded; [hole] is a key whose arena slot has been assigned and whose data
    has not been written yet. *)
Record tm_inv (sid : Z) (hole : option key) (transit : list Z) (s : TM) : Prop := {
  ti_sync : stream_pool s = None;
  ti_slots : LRUSlotMap.inv (slot_map s);
  ti_cap : 0 < LRUSlotMap.capacity (slot_map s);
  ti_gpu_k : Z.of_nat (length (gpu_k s)) = LRUSlotMap.capacity (slot_map s);
  ti_gpu_v : Z.of_nat (length (gpu_v s)) = LRUSlotMap.capacity (slot_map s);
  ti_cpu_wf : CpuKvBackingStore.wf (cpu_store s);
  ti_cpu_layer : 0 ≤ lidx s < CpuKvBackingStore.num_layers (cpu_store s);
  ti_res_wf : BlockResidency.wf (residency s);
  ti_back_wf : od_wf (backing s);
  ti_other : (if write_through s then cpu_slots s else host_slots s) = [];
  ti_cpu_slots : ∃ fr, CpuKvBackingStore.free_of (cpu_store s) (lidx s) = Some fr ∧
    NoDup ((backing s).*2 ++ transit ++ fr) ∧
    Forall (λ c, 0 ≤ c < CpuKvBackingStore.blocks_per_layer (cpu_store s))
      ((backing s).*2 ++ transit ++ fr) ∧
    Z.of_nat (length ((backing s).*2 ++ transit ++ fr)) =
      CpuKvBackingStore.blocks_per_layer (cpu_store s);
  ti_keys : ∀ k, k ∈ (resident_map s).*1 ∨ k ∈ (backing s).*1 →
    k.1 = sid ∧ block_in_range s k.2;
  ti_res : ∀ b, block_in_range s b → hole ≠ Some (sid, b) →
    BlockResidency.peek (residency s) (lidx s) b = Some (expected_residency s (sid, b));
  ti_both : ∀ k slot c, hole ≠ Some k →
    od_get k (resident_map s) = Some slot → od_get k (backing s) = Some c →
    write_through s = true ∧ arena s slot = cpu_content s c
}.

(** ** Arena *)
Lemma wp_copy_into_arena s slot kb vb (Q : unit → TM → Prop) :
  0 ≤ slot → slot < Z.of_nat (length (gpu_k s)) → slot < Z.of_nat (length (gpu_v s)) →
  Q tt (with_gpu_v (<[Z.to_nat slot := vb]> (gpu_v s))
         (with_gpu_k (<[Z.to_nat slot := kb]> (gpu_k s)) s)) →
  wp (copy_into_arena slot kb vb) s Q.
Proof.
  intros ??? HQ. unfold copy_into_arena. wp_steps.
  eapply wp_of_option; [by rewrite list_set_inb by lia|]. wp_steps.
  eapply wp_of_option; [by rewrite list_set_inb by lia|]. wp_steps. done.
Qed.

Lemma wp_read_arena s slot kv (Q : block * block → TM → Prop) :
  arena s slot = Some kv → Q kv s → wp (read_arena slot) s Q.
Proof.
  unfold arena, read_arena. intros Ha HQ.
  destruct (list_get (gpu_k s) slot) as [kb|] eqn:Hk; [|done].
  destruct (list_get (gpu_v s) slot) as [vb|] eqn:Hv; [|done]. simplify_eq/=.
  wp_steps. eapply wp_of_option; [done|]. wp_steps. eapply wp_of_option; [done|]. by wp_steps.
Qed.

Lemma arena_in_range sid hole tr s slot :
  tm_inv sid hole tr s → 0 ≤ slot < LRUSlotMap.capacity (slot_map s) →
  ∃ kv, arena s slot = Some kv.
Proof.
  intros Hinv Hs. pose proof (ti_gpu_k _ _ _ _ Hinv). pose proof (ti_gpu_v _ _ _ _ Hinv).
  unfold arena. rewrite !list_get_lookup by lia.
  destruct (lookup_lt_is_Some_2 (gpu_k s) (Z.to_nat slot)) as [kb ->]; [lia|].
  destruct (lookup_lt_is_Some_2 (gpu_v s) (Z.to_nat slot)) as [vb ->]; [lia|]. by eexists.
Qed.

Lemma cpu_slot_range sid hole tr s k c :
  tm_inv sid hole tr s → od_get k (backing s) = Some c →
  CpuKvBackingStore.in_range (cpu_store s) (lidx s) c.
Proof.
  intros Hinv Hg%od_get_elem.
  destruct (ti_cpu_slots _ _ _ _ Hinv) as (fr & _ & _ & Hr & _).
  rewrite Forall_app, Forall_forall in Hr. destruct Hr as [Hr _].
  split; [by eapply ti_cpu_layer|]. apply Hr, list_elem_of_fmap. by exists (k, c).
Qed.

Lemma content_in_range sid hole tr s c :
  tm_inv sid hole tr s → CpuKvBackingStore.in_range (cpu_store s) (lidx s) c →
  ∃ kv, cpu_content s c = Some kv.
Proof.
  intros Hinv [Hl Hc]. destruct (ti_cpu_wf _ _ _ _ Hinv) as (Hk & Hv & _).
  unfold cpu_content, CpuKvBackingStore.content.
  destruct (grid_get_in_range _ _ _ _ _ Hk Hl Hc) as [kb ->].
  destruct (grid_get_in_range _ _ _ _ _ Hv Hl Hc) as [vb ->]. by eexists.
Qed.

(** A tracked block has data. *)
Lemma stored_tracked sid hole tr s k :
  tm_inv sid hole tr s →
  (is_Some (stored s k) ↔ k ∈ (resident_map s).*1 ∨ k ∈ (backing s).*1).
Proof.
  intros Hinv. unfold stored. split.
  - destruct (od_get k (resident_map s)) eqn:Hr; [eauto using od_get_Some_key|].
    destruct (od_get k (backing s)) eqn:Hb; [eauto using od_get_Some_key|by intros [? ?]].
  - destruct (od_get k (resident_map s)) as [slot|] eqn:Hr.
    + intros _. destruct (arena_in_range _ _ _ _ slot Hinv) as [kv Hkv]; [|by eexists].
      eapply LRUSlotMap.slot_in_range; [by eapply ti_slots|done].
    + apply od_get_None in Hr. intros [?|Hb]; [done|].
      destruct (od_get k (backing s)) as [c|] eqn:Hc; [|by apply od_get_None in Hc].
      simpl. destruct (content_in_range _ _ _ _ c Hinv) as [kv Hkv]; [|by eexists].
      by eapply cpu_slot_range.
Qed.

(** ** Effects of the two spill hooks *)

(** The attributes no tier movement touches. *)
Definition framed s s' : Prop :=
  cfg s' = cfg s ∧ stream_pool s' = stream_pool s ∧ summary_store s' = summary_store s ∧
  active_seqs s' = active_seqs s ∧ prev_selected s' = prev_selected s ∧
  selected_log s' = selected_log s ∧ trimmed s' = trimmed s.

Lemma framed_refl s : framed s s.
Proof. done. Qed.
Lemma framed_trans s1 s2 s3 : framed s1 s2 → framed s2 s3 → framed s1 s3.
Proof. unfold framed. intuition congruence. Qed.

Record spilled s s' k kv c fr : Prop := {
  sp_frame : framed s s';
  sp_arena : gpu_k s' = gpu_k s ∧ gpu_v s' = gpu_v s;
  sp_slots : slot_map s' = slot_map s;
  sp_host : host_slots s' = host_slots s;
  sp_cpu_slots : cpu_slots s' = od_set k c (cpu_slots s);
  sp_shape : CpuKvBackingStore.same_shape (cpu_store s) (cpu_store s');
  sp_free : CpuKvBackingStore.free_of (cpu_store s') (lidx s) = Some fr;
  sp_content : ∀ c', 0 ≤ c' → cpu_content s' c' =
    if decide (c' = c) then Some kv else cpu_content s c';
  sp_res : BlockResidency.updated (residency s) (residency s') (lidx s) k.2 BlockResidency.ON_CPU
}.

Lemma wp_spill_to_cpu s k slot kv c fr (Q : unit → TM → Prop) :
  stream_pool s = None → CpuKvBackingStore.wf (cpu_store s) →
  CpuKvBackingStore.in_range (cpu_store s) (lidx s) c →
  CpuKvBackingStore.free_of (cpu_store s) (lidx s) = Some (fr ++ [c]) →
  BlockResidency.wf (residency s) → block_in_range s k.2 →
  BlockResidency.peek (residency s) (lidx s) k.2 = Some BlockResidency.ON_GPU →
  arena s slot = Some kv →
  (∀ s', spilled s s' k kv c fr → Q tt s') →
  wp (_spill_to_cpu k.1 k.2 slot) s Q.
Proof.
  intros Hsync Hcpu Hc Hfr Hrwf Hrb Hpeek Ha HQ. destruct kv as [kb vb].
  unfold _spill_to_cpu, layer. wp_steps.
  unfold on_cpu_store at 1. wp_step.
  eapply CpuKvBackingStore.wp_alloc; [done|apply Hc|done|]. intros cs1 Hsh1 Hco1 Hfr1.
  wp_steps. unfold on_residency at 1. wp_step.
  apply BlockResidency.wp_begin_evict; [done..|]. intros r1 Hr1. wp_steps.
  eapply wp_read_arena; [exact Ha|]. simpl. wp_steps. rewrite Hsync. wp_steps.
  unfold on_cpu_store at 1. wp_step.
  apply CpuKvBackingStore.wp_store_block;
    [apply Hsh1|by apply (CpuKvBackingStore.same_shape_in_range _ _ _ _ Hsh1)|].
  intros cs2 Hsh2 Hfr2 Hco2.
  destruct (enable_event_timing (cfg s)); [unfold bump at 1|]; wp_steps;
    unfold on_residency; wp_step.
  all: apply BlockResidency.wp_complete_evict;
    [apply Hr1|by apply (BlockResidency.updated_in_range _ _ _ _ _ _ _ Hr1)
    |by eapply BlockResidency.updated_peek|].
  all: intros r2 Hr2; unfold set_cpu_slot, bump; wp_steps; apply HQ.
  all: split; simpl; try done; [by destruct k|by eapply CpuKvBackingStore.same_shape_trans| | |].
  all: try by eapply BlockResidency.updated_trans.
  all: try (unfold CpuKvBackingStore.free_of in *; rewrite Hfr2, Hfr1 by apply Hc;
            by rewrite decide_True).
  all: intros c' Hc'; unfold cpu_content; simpl; rewrite Hco2 by (done || apply Hc).
  all: destruct (decide (c' = c)) as [->|Hne];
    [by rewrite decide_True by done|rewrite decide_False by (by intros [_ ?])].
  all: apply Hco1; [apply Hc|done].
Qed.

Record dropped s s' k : Prop := {
  dr_frame : framed s s';
  dr_arena : gpu_k s' = gpu_k s ∧ gpu_v s' = gpu_v s;
  dr_slots : slot_map s' = slot_map s;
  dr_host : host_slots s' = host_slots s;
  dr_cpu_slots : cpu_slots s' = cpu_slots s;
  dr_cpu : cpu_store s' = cpu_store s;
  dr_res : BlockResidency.updated (residency s) (residency s') (lidx s) k.2 BlockResidency.ON_CPU
}.

Lemma wp_drop_gpu_slot s k slot (Q : unit → TM → Prop) :
  is_Some (od_get k (host_slots s)) →
  BlockResidency.wf (residency s) → block_in_range s k.2 →
  BlockResidency.peek (residency s) (lidx s) k.2 = Some BlockResidency.ON_GPU →
  (∀ s', dropped s s' k → Q tt s') →
  wp (_drop_gpu_slot k.1 k.2 slot) s Q.
Proof.
  intros Hh Hrwf Hrb Hpeek HQ. unfold _drop_gpu_slot, layer. wp_steps.
  apply wp_assert.
  { unfold od_mem. rewrite bool_decide_eq_true. by destruct k. }
  wp_steps. unfold on_residency at 1. wp_step.
  apply BlockResidency.wp_begin_evict; [done..|]. intros r1 Hr1. wp_steps.
  unfold on_residency at 1. wp_step.
  apply BlockResidency.wp_complete_evict;
    [apply Hr1|by apply (BlockResidency.updated_in_range _ _ _ _ _ _ _ Hr1)
    |by eapply BlockResidency.updated_peek|].
  intros r2 Hr2. unfold bump. wp_steps. apply HQ.
  split; simpl; try done. by eapply BlockResidency.updated_trans.
Qed.

(** ** Making room: [add] followed by the spill hook *)

(** Whether the spill hook can take care of [v]: a free CPU slot under
    write-back, a host backup under write-through. *)
Definition spillable s v : Prop :=
  if write_through s then is_Some (od_get v (host_slots s))
  else ∃ fr c, CpuKvBackingStore.free_of (cpu_store s) (lidx s) = Some (fr ++ [c]).

Definition cpu_free_count s : nat :=
  match CpuKvBackingStore.free_of (cpu_store s) (lidx s) with
  | Some fr => length fr
  | None => 0
  end.

(** The state once [k] owns [slot] and the evicted block, if any, is safe. *)
Record room_made sid tr s s' k slot ev : Prop := {
  rm_inv : tm_inv sid (Some k) tr s';
  rm_frame : framed s s';
  rm_arena : gpu_k s' = gpu_k s ∧ gpu_v s' = gpu_v s;
  rm_add : LRUSlotMap.add_step k (slot_map s) (slot_map s') slot ev;
  rm_stored : ∀ k', k' ≠ k → stored s' k' = stored s k';
  rm_backing_k : od_get k (backing s') = od_get k (backing s);
  rm_backing : ∀ k' c, od_get k' (backing s) = Some c → od_get k' (backing s') = Some c;
  rm_transit : ∀ c, c ∈ tr ++ (backing s).*2 → cpu_content s' c = cpu_content s c;
  rm_free : cpu_free_count s' =
    (cpu_free_count s - (if write_through s then 0 else if ev then 1 else 0))%nat;
  rm_shape : CpuKvBackingStore.same_shape (cpu_store s) (cpu_store s');
  rm_range : ∀ b, block_in_range s' b ↔ block_in_range s b;
  rm_res : BlockResidency.peek (residency s') (lidx s) k.2 =
           BlockResidency.peek (residency s) (lidx s) k.2
}.

Lemma room_made_no_evict sid tr s k sm slot :
  tm_inv sid (Some k) tr s → k.1 = sid → block_in_range s k.2 →
  LRUSlotMap.add_step k (slot_map s) sm slot None →
  room_made sid tr s (with_slot_map sm s) k slot None.
Proof.
  intros Hinv Hk1 Hk2 Hadd.
  assert (∀ k', k' ≠ k → od_get k' (LRUSlotMap.key_to_slot sm) = od_get k' (resident_map s))
    as Hne.
  { intros k' Hk'. unfold resident_map.
    by rewrite (LRUSlotMap.add_step_get_ne _ _ _ _ _ k' (ti_slots _ _ _ _ Hinv) Hadd). }
  split; try done.
  - destruct Hinv as [? Hs ????????? Hkeys Hres Hboth].
    split; simpl; try done; unfold resident_map, write_through, backing in *; simpl in *.
    + by eapply LRUSlotMap.add_step_inv.
    + by rewrite (LRUSlotMap.add_step_capacity _ _ _ _ _ Hadd).
    + by rewrite (LRUSlotMap.add_step_capacity _ _ _ _ _ Hadd).
    + by rewrite (LRUSlotMap.add_step_capacity _ _ _ _ _ Hadd).
    + intros k' Hin. destruct (decide (k' = k)) as [->|Hk']; [done|].
      apply Hkeys. destruct Hin as [Hin|Hin]; [left|by right].
      apply od_mem_spec. apply od_mem_spec in Hin. unfold od_mem in *. by rewrite <-Hne.
    + intros b Hb Hh. rewrite Hres by done. unfold expected_residency, resident_map. simpl.
      rewrite Hne by (intros Heq; apply Hh; by rewrite Heq). done.
    + intros k' sl c Hh. rewrite Hne by (by intros ->). by apply Hboth.
  - intros k' Hk'. unfold stored, resident_map at 1. simpl. by rewrite Hne.
  - unfold cpu_free_count. simpl. unfold lidx. simpl. destruct (write_through s); lia.
  - split; [exact (ti_cpu_wf _ _ _ _ Hinv)|done].
Qed.

(** Eviction with the victim written back to the CPU. *)
Section evict_spilled.
Context (sid : Z) (tr : list Z) (s s' : TM) (k : key) (sm : LRUSlotMap.t) (slot : Z) (v : key)
  (kv : block * block) (c : Z) (fr : list Z).
Context (Hinv : tm_inv sid (Some k) tr s) (Hk1 : k.1 = sid) (Hk2 : block_in_range s k.2)
  (Hwt : write_through s = false)
  (Hadd : LRUSlotMap.add_step k (slot_map s) sm slot (Some v))
  (Harena : arena s slot = Some kv)
  (Hfree : CpuKvBackingStore.free_of (cpu_store s) (lidx s) = Some (fr ++ [c]))
  (Hsp : spilled (with_slot_map sm s) s' v kv c fr).

Lemma es_wt : write_through s' = false.
Proof. unfold write_through in *. by destruct (sp_frame _ _ _ _ _ _ Hsp) as [-> _]. Qed.

Lemma es_lidx : lidx s' = lidx s.
Proof. unfold lidx. by destruct (sp_frame _ _ _ _ _ _ Hsp) as [-> _]. Qed.

Lemma es_range b : block_in_range s' b ↔ block_in_range s b.
Proof.
  unfold block_in_range. rewrite es_lidx.
  by rewrite (BlockResidency.updated_in_range _ _ _ _ _ _ _ (sp_res _ _ _ _ _ _ Hsp)).
Qed.

Lemma es_victim_key : v.1 = sid ∧ block_in_range s v.2 ∧ v ≠ k ∧
  od_get v (resident_map s) = Some slot.
Proof.
  destruct (LRUSlotMap.add_step_victim _ _ _ _ _ Hadd) as (Hv & Hvk & _ & _).
  destruct (ti_keys _ _ _ _ Hinv v); [left; by eapply od_get_Some_key|done].
Qed.

Lemma es_victim_not_backed : od_get v (backing s) = None.
Proof.
  destruct es_victim_key as (_ & _ & Hvk & Hv).
  destruct (od_get v (backing s)) as [c'|] eqn:Hc'; [|done].
  destruct (ti_both _ _ _ _ Hinv v slot c') as [? _]; [congruence|done|done|congruence].
Qed.

Lemma es_backing : backing s' = backing s ++ [(v, c)].
Proof.
  pose proof es_victim_not_backed as Hn. unfold backing in *. rewrite es_wt, Hwt in *.
  rewrite (sp_cpu_slots _ _ _ _ _ _ Hsp). apply od_set_keys_new. by apply od_get_None.
Qed.

Lemma es_resident k' : k' ≠ k → od_get k' (resident_map s') =
  if decide (k' = v) then None else od_get k' (resident_map s).
Proof.
  intros Hk'. unfold resident_map at 1. rewrite (sp_slots _ _ _ _ _ _ Hsp). simpl.
  rewrite (LRUSlotMap.add_step_get_ne _ _ _ _ _ k' (ti_slots _ _ _ _ Hinv) Hadd Hk').
  unfold resident_map. destruct (decide (k' = v)) as [->|]; [by rewrite decide_True|].
  by rewrite decide_False by congruence.
Qed.

(** The CPU slots in use, in transit and free stay a permutation. *)
Lemma es_accounting :
  NoDup ((backing s).*2 ++ tr ++ fr ++ [c]) ∧
  Forall (λ c, 0 ≤ c < CpuKvBackingStore.blocks_per_layer (cpu_store s))
    ((backing s).*2 ++ tr ++ fr ++ [c]) ∧
  Z.of_nat (length ((backing s).*2 ++ tr ++ fr ++ [c])) =
    CpuKvBackingStore.blocks_per_layer (cpu_store s) ∧
  (backing s').*2 ++ tr ++ fr ≡ₚ (backing s).*2 ++ tr ++ fr ++ [c].
Proof.
  destruct (ti_cpu_slots _ _ _ _ Hinv) as (fr0 & Hfr0 & Hnd & Hall & Hcnt).
  assert (fr0 = fr ++ [c]) as -> by congruence. split_and!; [done..|].
  rewrite es_backing, fmap_app. simpl. rewrite <-app_assoc. f_equiv. simpl.
  rewrite (app_assoc tr). by rewrite (Permutation_app_comm _ [c]).
Qed.

Lemma es_content c' : c' ∈ tr ++ (backing s).*2 → cpu_content s' c' = cpu_content s c'.
Proof.
  destruct es_accounting as (Hnd & Hall & _). rewrite Forall_forall in Hall. intros Hc'.
  rewrite (sp_content _ _ _ _ _ _ Hsp) by (apply (Hall c'); set_solver).
  rewrite decide_False; [done|]. intros ->. apply NoDup_app in Hnd as (_ & Hd1 & Hnd).
  apply NoDup_app in Hnd as (_ & Hd2 & _).
  apply elem_of_app in Hc' as [Hc'|Hc']; [apply (Hd2 c)|apply (Hd1 c)]; set_solver.
Qed.

Lemma es_stored k' : k' ≠ k → stored s' k' = stored s k'.
Proof.
  intros Hk'. destruct es_accounting as (_ & Hall & _).
  destruct es_victim_key as (_ & _ & _ & Hv).
  unfold stored. rewrite es_resident, es_backing, od_get_app by done. simpl.
  destruct (decide (k' = v)) as [->|Hkv].
  - rewrite es_victim_not_backed, Hv. simpl. rewrite (sp_content _ _ _ _ _ _ Hsp).
    + by rewrite decide_True.
    + rewrite Forall_forall in Hall. apply (Hall c). set_solver.
  - destruct (od_get k' (resident_map s)) as [sl|] eqn:Hsl.
    + unfold arena. by destruct (sp_arena _ _ _ _ _ _ Hsp) as [-> ->].
    + destruct (od_get k' (backing s)) as [c'|] eqn:Hc'; simpl; [|done].
      apply es_content. apply od_get_elem in Hc'.
      apply elem_of_app. right. apply list_elem_of_fmap. by exists (k', c').
Qed.

Lemma es_keys k' : k' ∈ (resident_map s').*1 ∨ k' ∈ (backing s').*1 →
  k'.1 = sid ∧ block_in_range s' k'.2.
Proof.
  intros Hin. rewrite es_range. destruct (decide (k' = k)) as [->|Hk']; [done|].
  destruct es_victim_key as (Hv1 & Hv2 & _).
  destruct (decide (k' = v)) as [->|Hk'v]; [done|].
  apply (ti_keys _ _ _ _ Hinv). destruct Hin as [Hin|Hin].
  - left. apply od_mem_spec. apply od_mem_spec in Hin. unfold od_mem in *.
    rewrite es_resident in Hin by done. by rewrite decide_False in Hin by done.
  - right. rewrite es_backing, fmap_app in Hin. set_solver.
Qed.

Lemma es_residency b : block_in_range s b → Some k ≠ Some (sid, b) →
  BlockResidency.peek (residency s') (lidx s) b = Some (expected_residency s' (sid, b)).
Proof.
  intros Hb Hh. assert ((sid, b) ≠ k) as Hbk by (intros Heq; apply Hh; by rewrite Heq).
  destruct es_victim_key as (Hv1 & Hv2 & _). pose proof (sp_res _ _ _ _ _ _ Hsp) as Hup.
  change (lidx (with_slot_map sm s)) with (lidx s) in Hup.
  unfold expected_residency. rewrite es_backing, es_resident, od_get_app by done.
  destruct v as [v1 vb] eqn:Ev; simpl in *. subst v1. destruct (decide (b = vb)) as [->|Hbv].
  - rewrite !decide_True by done. rewrite (BlockResidency.updated_peek _ _ _ _ _ Hv2 Hup).
    by destruct (od_get _ (backing s)).
  - rewrite !decide_False by congruence.
    rewrite (BlockResidency.updated_peek_ne _ _ _ _ _ b Hup Hb Hbv).
    rewrite (ti_res _ _ _ _ Hinv) by done. unfold expected_residency.
    repeat case_match; simplify_eq; done.
Qed.

Lemma es_both k' sl c' : Some k ≠ Some k' →
  od_get k' (resident_map s') = Some sl → od_get k' (backing s') = Some c' → False.
Proof.
  intros Hh Hr Hb. assert (k' ≠ k) as Hk' by (by intros ->).
  rewrite es_resident in Hr by done. case_decide; [done|].
  rewrite es_backing, od_get_app in Hb. simpl in Hb. rewrite decide_False in Hb by done.
  destruct (od_get k' (backing s)) as [c''|] eqn:Hb'; [|done]. simplify_eq.
  destruct (ti_both _ _ _ _ Hinv k' sl c') as [? _]; [done..|congruence].
Qed.

Lemma es_inv : tm_inv sid (Some k) tr s'.
Proof.
  pose proof (LRUSlotMap.add_step_capacity _ _ _ _ _ Hadd) as Hcap.
  destruct es_accounting as (Hnd & Hall & Hcnt & Hperm).
  destruct Hsp as [Hfr [Hgk Hgv] Hsm Hho Hcs Hsh Hfree' Hco Hup]. simpl in *.
  split; rewrite ?Hsm, ?Hgk, ?Hgv, ?es_lidx, ?es_wt, ?Hcap.
  - destruct Hfr as (_ & -> & _). apply (ti_sync _ _ _ _ Hinv).
  - eapply LRUSlotMap.add_step_inv; [apply (ti_slots _ _ _ _ Hinv)|done].
  - apply (ti_cap _ _ _ _ Hinv).
  - apply (ti_gpu_k _ _ _ _ Hinv).
  - apply (ti_gpu_v _ _ _ _ Hinv).
  - apply Hsh.
  - destruct Hsh as (_ & -> & _). apply (ti_cpu_layer _ _ _ _ Hinv).
  - apply Hup.
  - rewrite es_backing. apply od_wf_snoc; [|apply (ti_back_wf _ _ _ _ Hinv)].
    rewrite <-od_get_None. apply es_victim_not_backed.
  - rewrite Hho. pose proof (ti_other _ _ _ _ Hinv) as Ho. by rewrite Hwt in Ho.
  - exists fr. destruct Hsh as (_ & _ & ->). rewrite Hperm. split_and!; done.
  - apply es_keys.
  - intros b Hb. apply es_residency. by apply es_range.
  - intros k' sl c' Hh Hr Hb. exfalso. by eapply es_both.
Qed.

Lemma room_made_spilled : room_made sid tr s s' k slot (Some v).
Proof.
  destruct es_victim_key as (Hv1 & Hv2 & Hvk & _).
  pose proof es_inv. pose proof es_content. pose proof es_stored. pose proof es_range.
  split; try done.
  - apply (sp_frame _ _ _ _ _ _ Hsp).
  - apply (sp_arena _ _ _ _ _ _ Hsp).
  - by rewrite (sp_slots _ _ _ _ _ _ Hsp).
  - rewrite es_backing, od_get_app. simpl. rewrite decide_False by done.
    by destruct (od_get k (backing s)).
  - intros k' c' Hc'. by rewrite es_backing, od_get_app, Hc'.
  - unfold cpu_free_count. rewrite es_lidx, Hfree, Hwt, length_app. simpl.
    pose proof (sp_free _ _ _ _ _ _ Hsp) as Hf.
    change (lidx (with_slot_map sm s)) with (lidx s) in Hf. rewrite Hf. lia.
  - apply (sp_shape _ _ _ _ _ _ Hsp).
  - apply (BlockResidency.updated_peek_ne _ _ _ _ _ _ (sp_res _ _ _ _ _ _ Hsp) Hk2).
    intros Heq. apply Hvk. destruct k, v; simpl in *; congruence.
Qed.
End evict_spilled.

(** Eviction with the victim's host backup already in place. *)
Section evict_dropped.
Context (sid : Z) (tr : list Z) (s s' : TM) (k : key) (sm : LRUSlotMap.t) (slot : Z) (v : key)
  (cv : Z).
Context (Hinv : tm_inv sid (Some k) tr s) (Hk1 : k.1 = sid) (Hk2 : block_in_range s k.2)
  (Hwt : write_through s = true)
  (Hadd : LRUSlotMap.add_step k (slot_map s) sm slot (Some v))
  (Hcv : od_get v (backing s) = Some cv)
  (Hdr : dropped (with_slot_map sm s) s' v).

Lemma ed_lidx : lidx s' = lidx s.
Proof. unfold lidx. by destruct (dr_frame _ _ _ Hdr) as [-> _]. Qed.

Lemma ed_wt : write_through s' = true.
Proof. unfold write_through in *. by destruct (dr_frame _ _ _ Hdr) as [-> _]. Qed.

Lemma ed_range b : block_in_range s' b ↔ block_in_range s b.
Proof.
  unfold block_in_range. rewrite ed_lidx.
  by rewrite (BlockResidency.updated_in_range _ _ _ _ _ _ _ (dr_res _ _ _ Hdr)).
Qed.

Lemma ed_backing : backing s' = backing s.
Proof. unfold backing. rewrite ed_wt, Hwt. by rewrite (dr_host _ _ _ Hdr). Qed.

Lemma ed_content c : cpu_content s' c = cpu_content s c.
Proof. unfold cpu_content. by rewrite ed_lidx, (dr_cpu _ _ _ Hdr). Qed.

Lemma ed_victim_key : v.1 = sid ∧ block_in_range s v.2 ∧ v ≠ k ∧
  od_get v (resident_map s) = Some slot.
Proof.
  destruct (LRUSlotMap.add_step_victim _ _ _ _ _ Hadd) as (Hv & Hvk & _ & _).
  destruct (ti_keys _ _ _ _ Hinv v); [left; by eapply od_get_Some_key|done].
Qed.

Lemma ed_resident k' : k' ≠ k → od_get k' (resident_map s') =
  if decide (k' = v) then None else od_get k' (resident_map s).
Proof.
  intros Hk'. unfold resident_map at 1. rewrite (dr_slots _ _ _ Hdr). simpl.
  rewrite (LRUSlotMap.add_step_get_ne _ _ _ _ _ k' (ti_slots _ _ _ _ Hinv) Hadd Hk').
  unfold resident_map. destruct (decide (k' = v)) as [->|]; [by rewrite decide_True|].
  by rewrite decide_False by congruence.
Qed.

Lemma ed_arena sl : arena s' sl = arena s sl.
Proof. unfold arena. by destruct (dr_arena _ _ _ Hdr) as [-> ->]. Qed.

Lemma ed_stored k' : k' ≠ k → stored s' k' = stored s k'.
Proof.
  intros Hk'. destruct ed_victim_key as (_ & _ & Hvk & Hv).
  unfold stored. rewrite ed_resident, ed_backing by done.
  destruct (decide (k' = v)) as [->|Hkv].
  - rewrite Hcv, Hv. simpl. rewrite ed_content.
    destruct (ti_both _ _ _ _ Hinv v slot cv) as [_ ->]; [congruence|done..].
  - destruct (od_get k' (resident_map s)); [apply ed_arena|].
    destruct (od_get k' (backing s)); simpl; [apply ed_content|done].
Qed.

Lemma ed_residency b : block_in_range s b → Some k ≠ Some (sid, b) →
  BlockResidency.peek (residency s') (lidx s) b = Some (expected_residency s' (sid, b)).
Proof.
  intros Hb Hh. assert ((sid, b) ≠ k) as Hbk by (intros Heq; apply Hh; by rewrite Heq).
  destruct ed_victim_key as (Hv1 & Hv2 & _). pose proof (dr_res _ _ _ Hdr) as Hup.
  change (lidx (with_slot_map sm s)) with (lidx s) in Hup.
  unfold expected_residency. rewrite ed_backing, ed_resident by done.
  destruct v as [v1 vb] eqn:Ev; simpl in *. subst v1. destruct (decide (b = vb)) as [->|Hbv].
  - rewrite !decide_True by done. rewrite (BlockResidency.updated_peek _ _ _ _ _ Hv2 Hup).
    by rewrite Hcv.
  - rewrite !decide_False by congruence.
    rewrite (BlockResidency.updated_peek_ne _ _ _ _ _ b Hup Hb Hbv).
    by rewrite (ti_res _ _ _ _ Hinv).
Qed.

Lemma ed_inv : tm_inv sid (Some k) tr s'.
Proof.
  pose proof (LRUSlotMap.add_step_capacity _ _ _ _ _ Hadd) as Hcap.
  destruct (dr_arena _ _ _ Hdr) as [Hgk Hgv]. pose proof (dr_slots _ _ _ Hdr) as Hsm.
  pose proof (dr_cpu _ _ _ Hdr) as Hcpu. simpl in *.
  split; rewrite ?Hsm, ?Hgk, ?Hgv, ?ed_lidx, ?ed_wt, ?Hcap, ?ed_backing, ?Hcpu.
  - destruct (dr_frame _ _ _ Hdr) as (_ & -> & _). apply (ti_sync _ _ _ _ Hinv).
  - eapply LRUSlotMap.add_step_inv; [apply (ti_slots _ _ _ _ Hinv)|done].
  - apply (ti_cap _ _ _ _ Hinv).
  - apply (ti_gpu_k _ _ _ _ Hinv).
  - apply (ti_gpu_v _ _ _ _ Hinv).
  - apply (ti_cpu_wf _ _ _ _ Hinv).
  - apply (ti_cpu_layer _ _ _ _ Hinv).
  - apply (dr_res _ _ _ Hdr).
  - apply (ti_back_wf _ _ _ _ Hinv).
  - rewrite (dr_cpu_slots _ _ _ Hdr). pose proof (ti_other _ _ _ _ Hinv) as Ho.
    by rewrite Hwt in Ho.
  - apply (ti_cpu_slots _ _ _ _ Hinv).
  - intros k' Hin. rewrite ed_range. destruct (decide (k' = k)) as [->|Hk']; [done|].
    apply (ti_keys _ _ _ _ Hinv). destruct Hin as [Hin|]; [left|by right].
    apply od_mem_spec. apply od_mem_spec in Hin. unfold od_mem in *.
    rewrite ed_resident in Hin by done. case_decide; [|done].
    rewrite bool_decide_eq_true in Hin. by destruct Hin.
  - intros b Hb. apply ed_residency. by apply ed_range.
  - intros k' sl c' Hh Hr Hb. rewrite ed_arena, ed_content.
    rewrite ed_resident in Hr by (by intros ->). case_decide; [done|].
    split; [done|]. by eapply (ti_both _ _ _ _ Hinv k').
Qed.

Lemma room_made_dropped : room_made sid tr s s' k slot (Some v).
Proof.
  destruct ed_victim_key as (Hv1 & Hv2 & Hvk & _).
  pose proof ed_inv. pose proof ed_stored. pose proof ed_range. pose proof ed_content.
  split; try done.
  - apply (dr_frame _ _ _ Hdr).
  - apply (dr_arena _ _ _ Hdr).
  - by rewrite (dr_slots _ _ _ Hdr).
  - by rewrite ed_backing.
  - intros k' c'. by rewrite ed_backing.
  - unfold cpu_free_count. rewrite ed_lidx, (dr_cpu _ _ _ Hdr), Hwt. simpl. lia.
  - rewrite (dr_cpu _ _ _ Hdr). split; [apply (ti_cpu_wf _ _ _ _ Hinv)|done].
  - apply (BlockResidency.updated_peek_ne _ _ _ _ _ _ (dr_res _ _ _ Hdr) Hk2).
    intros Heq. apply Hvk. destruct k, v; simpl in *; congruence.
Qed.
End evict_dropped.

(** [add] and the spill hook together, in either mode. *)
Lemma wp_add_spill sid tr s k prot (Q : Z * option key → TM → Prop) :
  tm_inv sid (Some k) tr s → k.1 = sid → block_in_range s k.2 →
  (∀ sm slot v, LRUSlotMap.add_step k (slot_map s) sm slot (Some v) →
     LRUSlotMap.victim_ok prot (resident_map s) v → spillable s v) →
  (∀ slot ev s', room_made sid tr s s' k slot ev →
     (∀ v, ev = Some v → LRUSlotMap.victim_ok prot (resident_map s) v) → Q (slot, ev) s') →
  wp (on_slot_map (LRUSlotMap.add k prot)) s
     (λ r s1, wp (spill_hook r.2 r.1) s1 (λ _ s2, Q r s2)).
Proof.
  intros Hinv Hk1 Hk2 Hspill HQ. unfold on_slot_map. wp_step.
  apply LRUSlotMap.wp_add; [apply (ti_slots _ _ _ _ Hinv)|apply (ti_cap _ _ _ _ Hinv)|].
  intros slot ev sm Hadd Hvict. simpl. destruct ev as [[v1 vb]|]; simpl.
  2:{ wp_steps. apply HQ; [by apply room_made_no_evict|done]. }
  destruct (LRUSlotMap.add_step_victim _ _ _ _ _ Hadd) as (Hv & Hvk & Hk & _).
  destruct (ti_keys _ _ _ _ Hinv (v1, vb)) as [Hv1 Hv2];
    [left; by eapply od_get_Some_key|simpl in Hv1, Hv2; subst v1].
  assert (BlockResidency.peek (residency s) (lidx s) vb = Some BlockResidency.ON_GPU) as Hpk.
  { rewrite (ti_res _ _ _ _ Hinv) by (done || congruence).
    unfold expected_residency, resident_map. by rewrite Hv. }
  specialize (Hspill _ _ _ Hadd (Hvict _ eq_refl)). unfold spillable in Hspill.
  wp_step. wp_step. change (enable_write_through (cfg s)) with (write_through s).
  destruct (write_through s) eqn:Hwt.
  - apply (wp_drop_gpu_slot (with_slot_map sm s) (sid, vb)); [done|..|done|done|].
    { apply (ti_res_wf _ _ _ _ Hinv). }
    intros s2 Hdr. apply HQ; [|done]. destruct Hspill as [cv Hcv].
    eapply room_made_dropped; [done..| |done]. unfold backing. by rewrite Hwt.
  - destruct Hspill as (fr & c & Hfr).
    destruct (arena_in_range _ _ _ _ slot Hinv) as [kv Hkv].
    { eapply LRUSlotMap.slot_in_range; [apply (ti_slots _ _ _ _ Hinv)|done]. }
    destruct (ti_cpu_slots _ _ _ _ Hinv) as (fr0 & Hfr0 & _ & Hall & _).
    assert (fr0 = fr ++ [c]) as -> by congruence. rewrite Forall_forall in Hall.
    eapply (wp_spill_to_cpu (with_slot_map sm s) (sid, vb)).
    + apply (ti_sync _ _ _ _ Hinv).
    + apply (ti_cpu_wf _ _ _ _ Hinv).
    + split; [apply (ti_cpu_layer _ _ _ _ Hinv)|apply (Hall c); set_solver].
    + exact Hfr.
    + apply (ti_res_wf _ _ _ _ Hinv).
    + exact Hv2.
    + exact Hpk.
    + exact Hkv.
    + intros s2 Hsp. apply HQ; [by eapply room_made_spilled|done].
Qed.

(** ** Filling the assigned slot *)

(** The state after the data [kv] of [k] has been written to its slot and the
    residency array says [ON_GPU]. *)
Record filled s s' k slot (kv : block * block) : Prop := {
  fl_frame : framed s s';
  fl_slots : slot_map s' = slot_map s;
  fl_gpu_k : gpu_k s' = <[Z.to_nat slot := kv.1]> (gpu_k s);
  fl_gpu_v : gpu_v s' = <[Z.to_nat slot := kv.2]> (gpu_v s);
  fl_cpu_slots : cpu_slots s' = cpu_slots s;
  fl_host : host_slots s' = host_slots s;
  fl_shape : CpuKvBackingStore.same_shape (cpu_store s) (cpu_store s');
  fl_content : CpuKvBackingStore.same_content (cpu_store s) (cpu_store s');
  fl_res : BlockResidency.updated (residency s) (residency s') (lidx s) k.2 BlockResidency.ON_GPU
}.

Section fill.
Context (sid : Z) (tr tr' fr fr' : list Z) (s s' : TM) (k : key) (slot : Z) (kv : block * block).
Context (Hinv : tm_inv sid (Some k) tr s)
  (Hslot : od_get k (resident_map s) = Some slot)
  (Hback : ∀ c, od_get k (backing s) = Some c →
     write_through s = true ∧ cpu_content s c = Some kv)
  (Hfl : filled s s' k slot kv)
  (Hfr : CpuKvBackingStore.free_of (cpu_store s) (lidx s) = Some fr)
  (Hfr' : CpuKvBackingStore.free_of (cpu_store s') (lidx s) = Some fr')
  (Hperm : tr' ++ fr' ≡ₚ tr ++ fr).

Lemma fi_lidx : lidx s' = lidx s.
Proof. unfold lidx. by destruct (fl_frame _ _ _ _ _ Hfl) as [-> _]. Qed.

Lemma fi_wt : write_through s' = write_through s.
Proof. unfold write_through in *. by destruct (fl_frame _ _ _ _ _ Hfl) as [-> _]. Qed.

Lemma fi_resident : resident_map s' = resident_map s.
Proof. unfold resident_map. by rewrite (fl_slots _ _ _ _ _ Hfl). Qed.

Lemma fi_backing : backing s' = backing s.
Proof.
  unfold backing. by rewrite fi_wt, (fl_cpu_slots _ _ _ _ _ Hfl), (fl_host _ _ _ _ _ Hfl).
Qed.

Lemma fi_content c : 0 ≤ c → cpu_content s' c = cpu_content s c.
Proof.
  intros. unfold cpu_content. rewrite fi_lidx. apply (fl_content _ _ _ _ _ Hfl); [|done].
  apply (ti_cpu_layer _ _ _ _ Hinv).
Qed.

Lemma fi_backing_content k' c : od_get k' (backing s) = Some c →
  cpu_content s' c = cpu_content s c.
Proof. intros Hc. apply fi_content. by eapply (cpu_slot_range _ _ _ _ k' c Hinv). Qed.

Lemma fi_arena sl : 0 ≤ sl < LRUSlotMap.capacity (slot_map s) →
  arena s' sl = if decide (sl = slot) then Some kv else arena s sl.
Proof.
  intros Hsl. pose proof (LRUSlotMap.slot_in_range _ _ _ (ti_slots _ _ _ _ Hinv) Hslot) as Hr.
  pose proof (ti_gpu_k _ _ _ _ Hinv). pose proof (ti_gpu_v _ _ _ _ Hinv).
  unfold arena. rewrite (fl_gpu_k _ _ _ _ _ Hfl), (fl_gpu_v _ _ _ _ _ Hfl).
  rewrite !list_get_lookup by lia. case_decide as Hd.
  - subst. rewrite !list_lookup_insert_eq by lia. by destruct kv.
  - by rewrite !list_lookup_insert_ne by lia.
Qed.

Lemma fi_arena_ne k' sl : k' ≠ k → od_get k' (resident_map s) = Some sl →
  arena s' sl = arena s sl.
Proof.
  intros Hk' Hg. rewrite fi_arena.
  - rewrite decide_False; [done|]. intros ->. apply Hk'.
    by eapply LRUSlotMap.slot_inj; [apply (ti_slots _ _ _ _ Hinv)|..].
  - by eapply LRUSlotMap.slot_in_range; [apply (ti_slots _ _ _ _ Hinv)|].
Qed.

Lemma fi_stored_ne k' : k' ≠ k → stored s' k' = stored s k'.
Proof.
  intros Hk'. unfold stored. rewrite fi_resident, fi_backing.
  destruct (od_get k' (resident_map s)) eqn:Hg; [by eapply fi_arena_ne|].
  destruct (od_get k' (backing s)) eqn:Hc; simpl; [by eapply fi_backing_content|done].
Qed.

Lemma fi_stored_eq : stored s' k = Some kv.
Proof.
  unfold stored. rewrite fi_resident, Hslot, fi_arena; [by rewrite decide_True|].
  by eapply LRUSlotMap.slot_in_range; [apply (ti_slots _ _ _ _ Hinv)|].
Qed.

Lemma fi_range b : block_in_range s' b ↔ block_in_range s b.
Proof.
  unfold block_in_range. rewrite fi_lidx.
  by rewrite (BlockResidency.updated_in_range _ _ _ _ _ _ _ (fl_res _ _ _ _ _ Hfl)).
Qed.

Lemma fi_residency b : block_in_range s b →
  BlockResidency.peek (residency s') (lidx s) b = Some (expected_residency s' (sid, b)).
Proof.
  intros Hb. unfold expected_residency. rewrite fi_resident, fi_backing.
  pose proof (fl_res _ _ _ _ _ Hfl) as Hup.
  destruct (ti_keys _ _ _ _ Hinv k) as [Hk1 Hk2]; [left; by eapply od_get_Some_key|].
  destruct (decide (b = k.2)) as [->|Hne].
  - rewrite (BlockResidency.updated_peek _ _ _ _ _ Hb Hup).
    destruct k as [k1 k2]. simpl in *. subst k1. by rewrite Hslot.
  - rewrite (BlockResidency.updated_peek_ne _ _ _ _ _ b Hup Hb Hne).
    rewrite (ti_res _ _ _ _ Hinv); [done..|]. intros [= Heq]. by rewrite Heq in Hne.
Qed.

Lemma fill_inv : tm_inv sid None tr' s'.
Proof.
  destruct (ti_cpu_slots _ _ _ _ Hinv) as (fr0 & Hfr0 & Hnd & Hall & Hcnt).
  assert (fr0 = fr) as -> by congruence.
  destruct (fl_shape _ _ _ _ _ Hfl) as (Hcwf & Hnl & Hbpl).
  split; rewrite ?fi_lidx, ?fi_wt, ?fi_backing, ?(fl_slots _ _ _ _ _ Hfl),
    ?(fl_cpu_slots _ _ _ _ _ Hfl), ?(fl_host _ _ _ _ _ Hfl), ?fi_resident, ?Hnl.
  - destruct (fl_frame _ _ _ _ _ Hfl) as (_ & -> & _). apply (ti_sync _ _ _ _ Hinv).
  - apply (ti_slots _ _ _ _ Hinv).
  - apply (ti_cap _ _ _ _ Hinv).
  - rewrite (fl_gpu_k _ _ _ _ _ Hfl), length_insert. apply (ti_gpu_k _ _ _ _ Hinv).
  - rewrite (fl_gpu_v _ _ _ _ _ Hfl), length_insert. apply (ti_gpu_v _ _ _ _ Hinv).
  - done.
  - apply (ti_cpu_layer _ _ _ _ Hinv).
  - apply (fl_res _ _ _ _ _ Hfl).
  - apply (ti_back_wf _ _ _ _ Hinv).
  - apply (ti_other _ _ _ _ Hinv).
  - exists fr'. rewrite Hbpl, Hperm. done.
  - intros k' Hin. rewrite fi_range. by apply (ti_keys _ _ _ _ Hinv).
  - intros b Hb _. apply fi_residency. by apply fi_range.
  - intros k' sl c _ Hr Hb. rewrite (fi_backing_content k' c Hb).
    destruct (decide (k' = k)) as [->|Hk'].
    + destruct (Hback c Hb) as [-> ->]. simplify_eq. split; [done|].
      rewrite fi_arena; [by rewrite decide_True|].
      by eapply LRUSlotMap.slot_in_range; [apply (ti_slots _ _ _ _ Hinv)|].
    + rewrite (fi_arena_ne k' sl Hk' Hr).
      apply (ti_both _ _ _ _ Hinv k'); [|done..]. congruence.
Qed.
End fill.

(** Nothing is lost by forgetting what is known about one key. *)
Lemma tm_inv_open sid tr s k : tm_inv sid None tr s → tm_inv sid (Some k) tr s.
Proof. intros [????????????? Hboth]. split; try done; eauto. Qed.

(** Taking a CPU slot out of [cpu_slots] for a reload. *)
Lemma take_inv sid s k c :
  tm_inv sid None [] s → write_through s = false →
  od_get k (cpu_slots s) = Some c →
  tm_inv sid (Some k) [c] (with_cpu_slots (od_del k (cpu_slots s)) s).
Proof.
  intros Hinv Hwt Hc. assert (backing s = cpu_slots s) as Hbk by (unfold backing; by rewrite Hwt).
  set (s' := with_cpu_slots _ s).
  assert (backing s' = od_del k (cpu_slots s)) as Hbk'.
  { unfold backing. change (write_through s') with (write_through s). by rewrite Hwt. }
  destruct Hinv as [? ? ? ? ? ? ? ? Hbwf Hoth (fr & Hfr & Hnd & Hall & Hcnt) Hkeys Hres Hboth].
  rewrite Hbk in *. pose proof (od_del_perm _ _ _ Hc) as Hp.
  assert ((od_del k (cpu_slots s)).*2 ++ [c] ++ fr ≡ₚ (cpu_slots s).*2 ++ [] ++ fr) as Hp2.
  { transitivity (((k, c) :: od_del k (cpu_slots s)).*2 ++ fr); [|by rewrite <-Hp].
    simpl. by rewrite Permutation_middle. }
  split; rewrite ?Hbk'; try done.
  - by apply od_wf_del.
  - change (write_through s') with (write_through s). rewrite Hwt in *. exact Hoth.
  - exists fr. rewrite Hp2. done.
  - intros k' Hin. apply Hkeys. destruct Hin as [|Hin]; [by left|right].
    eapply sublist_subseteq; [apply fmap_sublist, od_del_sublist|done].
  - intros b Hb Hh. etrans; [by apply Hres|]. unfold expected_residency.
    rewrite Hbk, Hbk', od_get_del by done. rewrite decide_False; [done|]. intros Heq. apply Hh. by rewrite Heq.
  - intros k' sl c' Hh Hr. rewrite od_get_del by done. case_decide; [done|]. by apply Hboth.
Qed.
End invariant.
