(* ===== verification/QuestTierProps.v ===== *)
(** * Quest backend: correctness of the tier manager

    The tier manager is a key-value store: [stored] is unchanged by reloads and
    evictions, a write changes the entry written and no other, a request's
    entries and CPU slots go away with the request. [ensure_resident] leaves
    every block a step needs in the arena. *)

From S2P Require Import Prelude OrderedDict QuestStore QuestTier QuestTierInv.

Open Scope Z_scope.

Section props.
Context {row T : Type} (ops : tensor_ops row T).
Notation block := (list row).
Notation TM := (TierManager.t row T).
Notation key := LRUSlotMap.key.
Import TierManager.
Implicit Types (s : TM) (k : key) (sid b slot c L : Z).

(** ** Reloading one block *)

(** Re-linking an entry of the LRU order changes nothing else. *)
Lemma tm_inv_relink sid hole tr s d :
  tm_inv sid hole tr s → d ≡ₚ resident_map s →
  tm_inv sid hole tr (with_slot_map (LRUSlotMap.set_map d (slot_map s)) s) ∧
  ∀ k, stored (with_slot_map (LRUSlotMap.set_map d (slot_map s)) s) k = stored s k.
Proof.
  intros Hinv Hp. pose proof (ti_slots _ _ _ _ Hinv) as Hs.
  assert (∀ k, od_get k d = od_get k (resident_map s)) as Hg.
  { intros k. apply od_get_perm; [done|apply Hs]. }
  split.
  - destruct Hinv as [? ? ? ? ? ? ? ? ? ? ? Hkeys Hres Hboth]. split; try done.
    + destruct Hs as [? Hn Hr Hc]. unfold resident_map in Hp. split; simpl; by rewrite ?Hp.
    + intros k Hk. apply Hkeys. unfold resident_map in *. simpl in Hk. by rewrite <-Hp.
    + intros b Hb Hh. etrans; [by apply Hres|]. unfold expected_residency, resident_map at 2.
      simpl. by rewrite Hg.
    + intros k sl c Hh Hr. apply Hboth; [done|]. by rewrite <-Hg.
  - intros k. unfold stored, resident_map at 1. simpl. by rewrite Hg.
Qed.

(** The part of a reload that follows the eviction. *)
Lemma wp_load_fill s k slot c kv fr (w : bool) (Q : unit → TM → Prop) :
  CpuKvBackingStore.wf (cpu_store s) →
  0 ≤ lidx s < CpuKvBackingStore.num_layers (cpu_store s) →
  CpuKvBackingStore.free_of (cpu_store s) (lidx s) = Some fr →
  0 ≤ slot < Z.of_nat (length (gpu_k s)) → slot < Z.of_nat (length (gpu_v s)) →
  BlockResidency.wf (residency s) → block_in_range s k.2 →
  BlockResidency.peek (residency s) (lidx s) k.2 = Some BlockResidency.ON_CPU →
  cpu_content s c = Some kv →
  (∀ s', filled s s' k slot kv →
     CpuKvBackingStore.free_of (cpu_store s') (lidx s) =
       Some (if w then fr else fr ++ [c]) → Q tt s') →
  wp (on_residency (BlockResidency.begin_load (lidx s) k.2) ;;
      '(kb, vb) <- on_cpu_store (CpuKvBackingStore.load_block (lidx s) c) ;;
      copy_into_arena slot kb vb ;;
      (if w then ret tt else on_cpu_store (CpuKvBackingStore.free (lidx s) c)) ;;
      on_residency (BlockResidency.complete_load (lidx s) k.2) ;;
      bump (bump_load_h2d 1)) s Q.
Proof.
  intros Hcpu Hl Hfr Hs1 Hs2 Hrwf Hrb Hpeek Hc HQ. destruct kv as [kb vb].
  unfold on_residency, on_cpu_store, bump. wp_steps.
  apply BlockResidency.wp_begin_load; [done..|]. intros r1 Hr1. wp_steps.
  eapply CpuKvBackingStore.wp_load_block; [done|exact Hc|].
  intros cs1 Hsh1 Hco1 Hfl1. wp_steps.
  apply wp_copy_into_arena; [simpl; lia..|].
  set (s1 := with_gpu_v _ _).
  assert (∀ cs2 Q', CpuKvBackingStore.same_shape (cpu_store s) cs2 →
    CpuKvBackingStore.same_content (cpu_store s) cs2 →
    CpuKvBackingStore.free_of cs2 (lidx s) = Some (if w then fr else fr ++ [c]) →
    (∀ s', filled s s' k slot (kb, vb) → cpu_store s' = cs2 → Q' tt s') →
    wp (on_residency (BlockResidency.complete_load (lidx s) k.2) ;;
        bump (bump_load_h2d 1)) (with_cpu_store cs2 s1) Q') as Hrest.
  { intros cs2 Q' Hsh2 Hco2 Hf2 HQ'. unfold on_residency, bump. wp_steps.
    apply BlockResidency.wp_complete_load;
      [apply Hr1|by apply (BlockResidency.updated_in_range _ _ _ _ _ _ _ Hr1)
      |by eapply BlockResidency.updated_peek|].
    intros r2 Hr2. wp_steps. apply HQ'; [|done]. split; simpl; try done.
    by eapply BlockResidency.updated_trans. }
  wp_step. destruct w.
  - wp_step. change s1 with (with_cpu_store cs1 s1). apply Hrest; [done..| |].
    + unfold CpuKvBackingStore.free_of in *. by rewrite Hfl1.
    + intros s' Hf Hcs. apply HQ; [done|].
      rewrite Hcs. unfold CpuKvBackingStore.free_of in *. by rewrite Hfl1.
  - wp_step. eapply CpuKvBackingStore.wp_store_free; [apply Hsh1| | |].
    + destruct Hsh1 as (_ & -> & _). exact Hl.
    + unfold CpuKvBackingStore.free_of in *. by rewrite Hfl1.
    + intros cs2 Hsh2 Hco2 Hf2. specialize (Hf2 (lidx s)). rewrite decide_True in Hf2 by done.
      specialize (Hf2 ltac:(lia)). apply Hrest.
      * by eapply CpuKvBackingStore.same_shape_trans.
      * intros l sl ??. etrans; [by apply Hco2|by apply Hco1].
      * done.
      * intros s' Hf Hcs. apply HQ; [done|]. by rewrite Hcs.
Qed.

(** What [_ensure_one_sync] does to the state. *)
Record ensured sid s s' k : Prop := {
  en_inv : tm_inv sid None [] s';
  en_frame : framed s s';
  en_stored : ∀ k', stored s' k' = stored s k';
  en_add : ∃ slot ev, LRUSlotMap.add_step k (slot_map s) (slot_map s') slot ev ∧
    ∀ v, ev = Some v → LRUSlotMap.victim_ok (_protected_keys sid s) (resident_map s) v;
  en_free : (cpu_free_count s ≤ cpu_free_count s')%nat;
  en_backing : write_through s = true →
    ∀ k' c, od_get k' (host_slots s) = Some c → od_get k' (host_slots s') = Some c;
  en_range : ∀ b, block_in_range s' b ↔ block_in_range s b
}.

(** The spill hook can handle every victim [add] may pick. *)
Definition can_evict s k : Prop :=
  ∀ sm slot v, LRUSlotMap.add_step k (slot_map s) sm slot (Some v) →
    LRUSlotMap.victim_ok (_protected_keys k.1 s) (resident_map s) v → spillable s v.

Lemma protected_keys_framed sid s s' : framed s s' → _protected_keys sid s' = _protected_keys sid s.
Proof. intros (Hc & _ & _ & _ & Hp & _). unfold _protected_keys. by rewrite Hc, Hp. Qed.

Lemma is_resident_spec sid b s :
  is_resident sid b s = true ↔ is_Some (od_get (sid, b) (resident_map s)).
Proof. apply LRUSlotMap.contains_spec. Qed.

Lemma is_resident_false sid b s :
  is_resident sid b s = false ↔ od_get (sid, b) (resident_map s) = None.
Proof. apply LRUSlotMap.contains_false. Qed.

(** The hit: the block moves to the recently-used end. *)
Lemma wp_touch sid s b (Q : unit → TM → Prop) :
  tm_inv sid None [] s → is_resident sid b s = true →
  (∀ s', ensured sid s s' (sid, b) → Q tt s') →
  wp (_ <- on_slot_map (LRUSlotMap.get (sid, b)) ;; ret tt) s Q.
Proof.
  intros Hinv [slot Hs]%is_resident_spec HQ. unfold on_slot_map. wp_steps.
  eapply LRUSlotMap.wp_slot_get; [done|]. wp_steps. apply HQ.
  destruct (tm_inv_relink sid None [] s (od_del (sid, b) (resident_map s) ++ [((sid, b), slot)]))
    as [Hi Hst]; [done| |].
  { eapply od_move_to_end_perm. by apply od_move_to_end_Some. }
  split; try done.
  exists slot, None. split; [|done]. by eapply LRUSlotMap.add_hit.
Qed.

(** What [room_made] followed by [filled] gives for a reload of [k]. *)
Lemma reload_ensured sid tr s s1 s2 s' k slot ev kv c fr fr' :
  tm_inv sid None [] s → k.1 = sid → od_get k (resident_map s) = None →
  stored s k = Some kv →
  (s1 = s ∧ tr = [] ∧ write_through s = true ∨
   s1 = with_cpu_slots (od_del k (cpu_slots s)) s ∧ tr = [c] ∧ write_through s = false) →
  od_get k (backing s) = Some c →
  room_made sid tr s1 s2 k slot ev →
  (∀ v, ev = Some v → LRUSlotMap.victim_ok (_protected_keys sid s1) (resident_map s1) v) →
  filled s2 s' k slot kv →
  CpuKvBackingStore.free_of (cpu_store s2) (lidx s2) = Some fr →
  CpuKvBackingStore.free_of (cpu_store s') (lidx s2) = Some fr' →
  fr' ≡ₚ tr ++ fr →
  (write_through s = false → (0 < cpu_free_count s)%nat) →
  ensured sid s s' k.
Proof.
  intros Hinv Hk1 Hnr Hst Hs1 Hbk Hrm Hvict Hfl Hfr Hfr' Hperm Hfree.
  assert (framed s s1) as Hf1 by (destruct Hs1 as [(-> & _)|(-> & _)]; done).
  assert (slot_map s1 = slot_map s) as Hsm1 by (destruct Hs1 as [(-> & _)|(-> & _)]; done).
  assert (cpu_store s1 = cpu_store s) as Hcs1 by (destruct Hs1 as [(-> & _)|(-> & _)]; done).
  assert (residency s1 = residency s) as Hre1 by (destruct Hs1 as [(-> & _)|(-> & _)]; done).
  assert (lidx s1 = lidx s) as Hl1 by (unfold lidx; by destruct Hf1 as [-> _]).
  assert (write_through s1 = write_through s) as Hw1
    by (unfold write_through; by destruct Hf1 as [-> _]).
  pose proof (rm_frame _ _ _ _ _ _ _ Hrm) as Hf2. pose proof (fl_frame _ _ _ _ _ Hfl) as Hf3.
  assert (framed s s') as Hf by eauto using framed_trans.
  assert (lidx s2 = lidx s) as Hl2 by (unfold lidx; destruct Hf2 as [-> _]; by destruct Hf1 as [-> _]).
  assert (write_through s2 = write_through s) as Hw2
    by (unfold write_through; destruct Hf2 as [-> _]; by destruct Hf1 as [-> _]).
  pose proof (rm_add _ _ _ _ _ _ _ Hrm) as Hadd.
  assert (od_get k (resident_map s2) = Some slot) as Hslot.
  { unfold resident_map. eapply LRUSlotMap.add_step_get_eq; [|done].
    rewrite Hsm1. apply (ti_slots _ _ _ _ Hinv). }
  assert (∀ k', k' ≠ k → stored s1 k' = stored s k') as Hst1.
  { intros k' Hk'. destruct Hs1 as [(-> & _)|(-> & _ & Hwt)]; [done|].
    pose proof (ti_back_wf _ _ _ _ Hinv) as Hbw.
    unfold stored, backing, write_through in *. simpl. rewrite Hwt in *.
    rewrite od_get_del by done. by rewrite decide_False. }
  assert (∀ c', od_get k (backing s2) = Some c' →
     write_through s2 = true ∧ cpu_content s2 c' = Some kv) as Hback.
  { intros c' Hc'. rewrite (rm_backing_k _ _ _ _ _ _ _ Hrm) in Hc'.
    destruct Hs1 as [(-> & -> & Hwt)|(-> & -> & Hwt)].
    - split; [congruence|]. rewrite (rm_transit _ _ _ _ _ _ _ Hrm).
      + unfold stored in Hst. rewrite Hnr, Hbk in Hst. simpl in Hst. congruence.
      + apply elem_of_app. right. apply od_get_elem in Hc'.
        apply list_elem_of_fmap. by exists (k, c').
    - exfalso. pose proof (ti_back_wf _ _ _ _ Hinv) as Hbw.
      unfold backing, write_through in *. simpl in Hc'. rewrite Hwt in *.
      rewrite od_get_del in Hc' by done. by rewrite decide_True in Hc'. }
  pose proof (rm_inv _ _ _ _ _ _ _ Hrm) as Hinv2.
  split.
  - eapply (fill_inv sid tr [] fr fr' s2 s' k slot kv); try done.
  - done.
  - intros k'. destruct (decide (k' = k)) as [->|Hk'].
    + rewrite Hst. by eapply (fi_stored_eq sid tr s2 s' k slot kv).
    + rewrite (fi_stored_ne sid tr s2 s' k slot kv) by done.
      by rewrite (rm_stored _ _ _ _ _ _ _ Hrm), Hst1.
  - exists slot, ev. rewrite (fl_slots _ _ _ _ _ Hfl), <-Hsm1. split; [done|].
    intros v Hv. specialize (Hvict v Hv). unfold resident_map in *. rewrite Hsm1 in Hvict.
    by rewrite (protected_keys_framed _ _ _ Hf1) in Hvict.
  - pose proof (rm_free _ _ _ _ _ _ _ Hrm) as Hc. unfold cpu_free_count in *.
    assert (lidx s' = lidx s) as -> by (unfold lidx; by destruct Hf as [-> _]).
    rewrite Hl2 in *. rewrite Hl1, Hcs1, Hw1 in Hc. rewrite Hfr, Hfr' in *.
    rewrite Hperm, length_app, Hc.
    destruct Hs1 as [(_ & -> & ->)|(_ & -> & Hwt)]; simpl; [lia|].
    rewrite Hwt. specialize (Hfree Hwt). destruct ev; lia.
  - intros Hwt k' c' Hc'. rewrite (fl_host _ _ _ _ _ Hfl).
    pose proof (rm_backing _ _ _ _ _ _ _ Hrm k' c') as Hb.
    destruct Hs1 as [(-> & _)|(_ & _ & ?)]; [|congruence].
    unfold backing in Hb. rewrite Hw2, Hwt in Hb. by apply Hb.
  - intros b. rewrite (fi_range s2 s' k slot kv) by done.
    rewrite (rm_range _ _ _ _ _ _ _ Hrm). unfold block_in_range. by rewrite Hre1, Hl1.
Qed.

Lemma free_of_inv sid hole tr s : tm_inv sid hole tr s →
  ∃ fr, CpuKvBackingStore.free_of (cpu_store s) (lidx s) = Some fr.
Proof. intros Hinv. destruct (ti_cpu_slots _ _ _ _ Hinv) as (fr & ? & _). by exists fr. Qed.

Lemma room_made_slot sid tr s s' k slot ev :
  LRUSlotMap.inv (slot_map s) → room_made sid tr s s' k slot ev →
  0 ≤ slot < Z.of_nat (length (gpu_k s')) ∧ slot < Z.of_nat (length (gpu_v s')).
Proof.
  intros Hs Hrm. pose proof (rm_inv _ _ _ _ _ _ _ Hrm) as Hinv.
  pose proof (LRUSlotMap.add_step_get_eq _ _ _ _ _ Hs (rm_add _ _ _ _ _ _ _ Hrm)) as Hg.
  pose proof (LRUSlotMap.slot_in_range _ _ _ (ti_slots _ _ _ _ Hinv) Hg).
  rewrite (ti_gpu_k _ _ _ _ Hinv), (ti_gpu_v _ _ _ _ Hinv). lia.
Qed.

Lemma wp_ensure_one_sync sid s b (Q : unit → TM → Prop) :
  tm_inv sid None [] s → is_Some (stored s (sid, b)) →
  can_evict s (sid, b) → (write_through s = false → (0 < cpu_free_count s)%nat) →
  (∀ s', ensured sid s s' (sid, b) → Q tt s') →
  wp (_ensure_one_sync sid b) s Q.
Proof.
  intros Hinv Hst Hev Hfree HQ. unfold _ensure_one_sync. wp_step. wp_step.
  destruct (is_resident sid b s) eqn:Hres; [by apply wp_touch|].
  apply is_resident_false in Hres. set (k := (sid, b)) in *.
  destruct Hst as [kv Hst]. pose proof Hst as Hst'. unfold stored in Hst'. rewrite Hres in Hst'.
  destruct (od_get k (backing s)) as [c|] eqn:Hc; [|done]. simpl in Hst'.
  assert (k.1 = sid ∧ block_in_range s k.2) as [Hk1 Hk2].
  { apply (ti_keys _ _ _ _ Hinv). right. by eapply od_get_Some_key. }
  assert (BlockResidency.peek (residency s) (lidx s) k.2 = Some BlockResidency.ON_CPU) as Hpk.
  { rewrite (ti_res _ _ _ _ Hinv) by done. unfold expected_residency. change (sid, k.2) with k. by rewrite Hres, Hc. }
  (* the state after the CPU slot is looked up, and the slots in transit *)
  assert (∃ s1 tr, wp (take_cpu_slot k) s (λ c' s', c' = c ∧ s' = s1) ∧
    tm_inv sid (Some k) tr s1 ∧ framed s s1 ∧ slot_map s1 = slot_map s ∧
    residency s1 = residency s ∧ cpu_store s1 = cpu_store s ∧ spillable s1 = spillable s ∧
    c ∈ tr ++ (backing s1).*2 ∧ tr = (if write_through s then [] else [c]) ∧
    (s1 = s ∧ tr = [] ∧ write_through s = true ∨
     s1 = with_cpu_slots (od_del k (cpu_slots s)) s ∧ tr = [c] ∧ write_through s = false))
    as (s1 & tr & Htake & Hinv1 & Hf1 & Hsm1 & Hr1 & Hcs1 & Hsp1 & Hctr & Htr & Hcase).
  { unfold take_cpu_slot. destruct (write_through s) eqn:Hwt.
    - exists s, []. split_and!; try done; [|by apply tm_inv_open| |auto].
      + wp_steps. unfold write_through in Hwt. rewrite Hwt.
        eapply wp_of_option; [|done]. by rewrite <-Hc; unfold backing, write_through; rewrite Hwt.
      + simpl. apply od_get_elem in Hc. apply list_elem_of_fmap. by exists (k, c).
    - assert (backing s = cpu_slots s) as Hb by (unfold backing; by rewrite Hwt).
      rewrite Hb in Hc. exists (with_cpu_slots (od_del k (cpu_slots s)) s), [c].
      split_and!; try done; [|by apply take_inv|set_solver|auto].
      wp_steps. unfold write_through in Hwt. rewrite Hwt. wp_steps. by eapply wp_of_option. }
  apply wp_bind. eapply wp_mono; [exact Htake|]. intros c' s1' [-> ->]. wp_step. wp_step. wp_step.
  eapply wp_mono; [apply (wp_add_spill sid tr s1 k (_protected_keys sid s1)
    (λ r s2, wp (L <- layer ;; on_residency (BlockResidency.begin_load L b) ;;
      '(kb, vb) <- on_cpu_store (CpuKvBackingStore.load_block L c) ;;
      copy_into_arena r.1 kb vb ;;
      (if enable_write_through (cfg s1) then ret tt
       else on_cpu_store (CpuKvBackingStore.free L c)) ;;
      on_residency (BlockResidency.complete_load L b) ;;
      bump (bump_load_h2d 1)) s2 Q))|]; [done|done| | | |].
  - unfold block_in_range, lidx in *. rewrite Hr1. by destruct Hf1 as [-> _].
  - intros sm slot v Hadd Hv. rewrite Hsp1. rewrite Hsm1 in Hadd.
    rewrite (protected_keys_framed _ _ _ Hf1) in Hv. unfold resident_map in Hv.
    rewrite Hsm1 in Hv. by eapply Hev.
  - intros slot ev s2 Hrm Hvict. simpl.
    pose proof (rm_inv _ _ _ _ _ _ _ Hrm) as Hinv2.
    destruct (free_of_inv _ _ _ _ Hinv2) as [fr Hfr].
    assert (lidx s2 = lidx s1 ∧ lidx s1 = lidx s) as [Hl2 Hl1].
    { unfold lidx. destruct (rm_frame _ _ _ _ _ _ _ Hrm) as [-> _]. by destruct Hf1 as [-> _]. }
    assert (enable_write_through (cfg s1) = write_through s) as ->
      by (unfold write_through; by destruct Hf1 as [-> _]).
    destruct (room_made_slot _ _ _ _ _ _ _ (ti_slots _ _ _ _ Hinv1) Hrm) as [Hsl1 Hsl2].
    unfold layer. wp_step. wp_step. change (layer_idx (cfg s2)) with (lidx s2).
    eapply (wp_load_fill s2 k slot c kv fr (write_through s)); try done.
    + apply (ti_cpu_wf _ _ _ _ Hinv2).
    + apply (ti_cpu_layer _ _ _ _ Hinv2).
    + apply (ti_res_wf _ _ _ _ Hinv2).
    + apply (rm_range _ _ _ _ _ _ _ Hrm). unfold block_in_range. by rewrite Hr1, Hl1.
    + rewrite Hl2, (rm_res _ _ _ _ _ _ _ Hrm), Hr1, Hl1. done.
    + rewrite (rm_transit _ _ _ _ _ _ _ Hrm) by done. unfold cpu_content. by rewrite Hcs1, Hl1.
    + intros s' Hfl Hfr'. apply HQ. eapply reload_ensured; try done.
      rewrite Htr. destruct (write_through s); [done|]. by rewrite Permutation_app_comm.
  - intros [slot ev] s2 H. simpl in H. wp_step. eapply wp_mono; [exact H|].
    intros [] s3 H3. exact H3.
Qed.

(** ** Making a step's working set resident *)

(** The entries of [P] are the recently-used end of the LRU order. *)
Definition protected_tail (P : list key) (d : list (key * Z)) : Prop :=
  ∃ d1 d2, d = d1 ++ d2 ∧ (∀ k, k ∈ d1.*1 → k ∉ P) ∧ (∀ k, k ∈ d2.*1 → k ∈ P).

Lemma protected_tail_touch P d k slot :
  od_wf d → protected_tail P d → od_get k d = Some slot →
  protected_tail (P ++ [k]) (od_del k d ++ [(k, slot)]).
Proof.
  intros Hwf (d1 & d2 & -> & H1 & H2) Hg. unfold od_wf in Hwf. rewrite fmap_app in Hwf.
  apply NoDup_app in Hwf as (Hn1 & Hd & Hn2). destruct (decide (k ∈ d1.*1)) as [Hk|Hk].
  - exists (od_del k d1), (d2 ++ [(k, slot)]).
    assert (od_del k (d1 ++ d2) = od_del k d1 ++ d2) as ->.
    { clear -Hk. induction d1 as [|[k' v] d1 IH]; simpl in *; [set_solver|].
      case_decide; [done|]. simpl. rewrite IH; set_solver. }
    rewrite app_assoc. split_and!; [done| |rewrite fmap_app; set_solver].
    intros k' Hk'. assert (k' ∈ d1.*1) as Hin.
    { eapply sublist_subseteq; [apply fmap_sublist, od_del_sublist|done]. }
    pose proof (H1 k' Hin). pose proof (od_del_keys k d1 Hn1). set_solver.
  - exists d1, (od_del k d2 ++ [(k, slot)]). rewrite od_del_app, app_assoc by done.
    split_and!; [done|set_solver|]. rewrite fmap_app. intros k' [Hk'|Hk']%elem_of_app.
    + apply elem_of_app. left. apply H2.
      eapply sublist_subseteq; [apply fmap_sublist, od_del_sublist|done].
    + set_solver.
Qed.

Lemma protected_tail_absent P d k :
  protected_tail P d → k ∉ d.*1 → protected_tail (P ++ [k]) d.
Proof.
  intros (d1 & d2 & -> & H1 & H2) Hk. rewrite fmap_app in Hk.
  exists d1, d2. split_and!; [done|set_solver..].
Qed.

Lemma protected_tail_ext P P' d :
  (∀ k, k ∈ P ↔ k ∈ P') → protected_tail P d → protected_tail P' d.
Proof. intros HP (d1 & d2 & -> & H1 & H2). exists d1, d2. split_and!; set_solver. Qed.

(** With [P] at the end of the order and small enough to fit, an insertion of
    an element of [P] evicts no element of [P]. *)
Lemma protected_tail_add P sm sm' k slot ev :
  LRUSlotMap.inv sm → protected_tail P (LRUSlotMap.key_to_slot sm) → k ∈ P →
  Z.of_nat (length (remove_dups P)) ≤ LRUSlotMap.capacity sm →
  LRUSlotMap.add_step k sm sm' slot ev →
  (∀ v, ev = Some v → head (LRUSlotMap.key_to_slot sm).*1 = Some v) →
  protected_tail P (LRUSlotMap.key_to_slot sm') ∧ (∀ v, ev = Some v → v ∉ P).
Proof.
  intros Hinv Htail HkP Hcap Hadd Hvict. pose proof (LRUSlotMap.inv_keys _ Hinv) as Hwf.
  destruct Hadd as [Hg ->|fr Hg Hfr ->|v Hg Hfr Hv ->]; simpl.
  - split; [|done]. eapply protected_tail_ext; [|by apply protected_tail_touch].
    set_solver.
  - split; [|done]. destruct Htail as (d1 & d2 & -> & H1 & H2).
    exists d1, (d2 ++ [(k, slot)]). rewrite <-app_assoc, fmap_app. set_solver.
  - specialize (Hvict _ eq_refl). destruct Htail as (d1 & d2 & Hd & H1 & H2).
    assert (∃ sl d1', d1 = (v, sl) :: d1') as (sl & d1' & ->).
    { destruct d1 as [|[v' sl] d1']; [exfalso|].
      - simpl in Hd. subst d2.
        assert (length (k :: (LRUSlotMap.key_to_slot sm).*1) ≤ length (remove_dups P))%nat as Hlen.
        { apply submseteq_length, NoDup_submseteq.
          - apply NoDup_cons. split; [by apply od_get_None|done].
          - intros x. rewrite elem_of_remove_dups. set_solver. }
        pose proof (LRUSlotMap.inv_count _ Hinv) as Hc. rewrite Hfr in Hc.
        simpl in *. rewrite length_fmap in Hlen. lia.
      - rewrite Hd in Hvict. simpl in Hvict. simplify_eq. eauto. }
    rewrite Hd. simpl. rewrite decide_True by done. split.
    + exists d1', (d2 ++ [(k, slot)]). rewrite <-app_assoc, fmap_app. set_solver.
    + intros v' [= <-]. apply H1. set_solver.
Qed.

(** The state of a step's movement so far, relative to its start [s0]. *)
Record moved sid (P : list key) s0 s : Prop := {
  mv_inv : tm_inv sid None [] s;
  mv_frame : framed s0 s;
  mv_stored : ∀ k, stored s k = stored s0 k;
  mv_tail : protected_tail P (resident_map s);
  mv_cap : LRUSlotMap.capacity (slot_map s) = LRUSlotMap.capacity (slot_map s0);
  mv_free : (cpu_free_count s0 ≤ cpu_free_count s)%nat;
  mv_host : write_through s0 = true →
    ∀ k c, od_get k (host_slots s0) = Some c → od_get k (host_slots s) = Some c;
  mv_keep : ∀ k, k ∈ P → k ∈ (resident_map s0).*1 → k ∈ (resident_map s).*1;
  mv_new : ∀ k, k ∈ (resident_map s).*1 → k ∈ P ∨ k ∈ (resident_map s0).*1
}.

Lemma add_step_keys k sm sm' slot ev k' :
  LRUSlotMap.inv sm → LRUSlotMap.add_step k sm sm' slot ev →
  k' ∈ (LRUSlotMap.key_to_slot sm').*1 ↔
  k' = k ∨ k' ∈ (LRUSlotMap.key_to_slot sm).*1 ∧ ev ≠ Some k'.
Proof.
  intros Hinv Hadd. rewrite <-!od_mem_spec. unfold od_mem. rewrite !bool_decide_eq_true.
  destruct (decide (k' = k)) as [->|Hne].
  - rewrite (LRUSlotMap.add_step_get_eq _ _ _ _ _ Hinv Hadd). naive_solver.
  - rewrite (LRUSlotMap.add_step_get_ne _ _ _ _ _ k' Hinv Hadd Hne).
    case_decide as Hd; [|naive_solver]. split; [by intros [? ?]|naive_solver].
Qed.

(** One [ensured] step keeps the record, provided it evicts nothing of [P]. *)
Lemma moved_ensured sid P P' s0 s s' k slot ev :
  moved sid P s0 s → ensured sid s s' k →
  LRUSlotMap.add_step k (slot_map s) (slot_map s') slot ev →
  protected_tail P' (resident_map s') → (∀ k', k' ∈ P' ↔ k' ∈ P ∨ k' = k) →
  (∀ v, ev = Some v → v ∉ P') →
  (k ∈ P' → k ∈ (resident_map s0).*1 → k ∈ (resident_map s).*1) →
  moved sid P' s0 s'.
Proof.
  intros [Hinv Hfr Hst Ht Hcap Hfree Hho Hkeep Hnew] [Hinv' Hfr' Hst' _ Hfree' Hho' _]
    Hadd Htail HP Hev Hk.
  assert (∀ k', k' ∈ (resident_map s').*1 ↔ k' = k ∨ k' ∈ (resident_map s).*1 ∧ ev ≠ Some k')
    as Hkeys.
  { intros k'. by apply (add_step_keys _ _ _ slot), Hadd; apply (ti_slots _ _ _ _ Hinv). }
  split; try done.
  - by eapply framed_trans.
  - intros k'. by rewrite Hst', Hst.
  - by rewrite (LRUSlotMap.add_step_capacity _ _ _ _ _ Hadd).
  - lia.
  - intros Hwt k' c Hc. apply Hho'; [|by apply Hho].
    unfold write_through in *. by destruct Hfr as [-> _].
  - intros k' HkP Hk0. apply Hkeys. destruct (decide (k' = k)) as [->|Hne]; [by left|right].
    split; [|intros ->; by eapply Hev].
    apply Hkeep; [|done]. by apply HP in HkP as [?|?].
  - intros k' [->|[Hin _]]%Hkeys; [left; apply HP; by right|].
    destruct (Hnew _ Hin) as [?|?]; [left; apply HP; by left|by right].
Qed.

(** [_touch_resident] moves the resident blocks of the step to the end. *)
Lemma wp_touch_loop sid s0 s P0 xs (Q : unit → TM → Prop) :
  moved sid P0 s0 s → (∀ k, k ∈ (resident_map s).*1 ↔ k ∈ (resident_map s0).*1) →
  (∀ s', moved sid (P0 ++ ((λ b, (sid, b)) <$> xs)) s0 s' →
     (∀ k, k ∈ (resident_map s').*1 ↔ k ∈ (resident_map s0).*1) → Q tt s') →
  wp (for_each xs (λ bid,
    s <- get ;;
    if is_resident sid bid s
    then _ <- on_slot_map (LRUSlotMap.get (sid, bid)) ;; ret tt
    else ret tt)) s Q.
Proof.
  intros Hm Hres HQ.
  apply (wp_for_each xs _ s (λ done s', moved sid (P0 ++ ((λ b, (sid, b)) <$> done)) s0 s' ∧
    ∀ k, k ∈ (resident_map s').*1 ↔ k ∈ (resident_map s0).*1)).
  - by rewrite fmap_nil, app_nil_r.
  - clear s Hm Hres. intros done b todo s -> [Hm Hres]. wp_step. wp_step.
    rewrite fmap_app, app_assoc. csimpl. pose proof (mv_inv _ _ _ _ Hm) as Hinv.
    destruct (is_resident sid b s) eqn:Hr.
    + apply wp_touch; [done|done|]. intros s' Hen. apply is_resident_spec in Hr as [slot Hr].
      pose proof Hr as Hin%od_get_Some_key. destruct (en_add _ _ _ _ Hen) as (sl & ev & Hadd & _).
      assert (ev = None ∧ resident_map s' = od_del (sid, b) (resident_map s) ++ [((sid, b), slot)])
        as [-> Hd].
      { unfold resident_map in *. destruct Hadd as [? ->|? ? ? ?|? ? ? ? ?]; [|congruence..].
        split; [done|]. simpl. congruence. }
      split.
      * eapply moved_ensured; [done|done|done| |set_solver|done|done].
        rewrite Hd. apply protected_tail_touch; [|by apply Hm|done].
        apply (ti_slots _ _ _ _ Hinv).
      * intros k. rewrite <-Hres. unfold resident_map. rewrite add_step_keys; [|by apply Hinv|done].
        split; [intros [->|[? _]]; done|]. intros; right; done.
    + wp_step. apply is_resident_false, od_get_None in Hr. split; [|done].
      destruct Hm as [? ? ? Ht ? ? ? Hkeep Hnew]. split; try done.
      * by apply protected_tail_absent.
      * intros k. rewrite <-Hres. done.
      * intros k Hk. right. by apply Hres.
  - intros s' [Hm' Hres']. by apply HQ.
Qed.

Lemma protected_keys_none sid s : block_ordering (cfg s) ≠ mixture → _protected_keys sid s = [].
Proof. intros H. unfold _protected_keys. by rewrite bool_decide_true. Qed.

(** What a caller arranges before [ensure_resident]: the blocks exist, they fit
    in the arena, and what gets displaced has somewhere to go. *)
Record ensure_pre sid (P : list key) (ids : list Z) s : Prop := {
  ep_inv : tm_inv sid None [] s;
  ep_order : block_ordering (cfg s) ≠ mixture;
  ep_stored : ∀ b, b ∈ ids → is_Some (stored s (sid, b));
  ep_fit : Z.of_nat (length (remove_dups P)) ≤ LRUSlotMap.capacity (slot_map s);
  ep_room : if write_through s
    then ∀ k, k ∈ (resident_map s).*1 → k ∉ P → is_Some (od_get k (host_slots s))
    else (0 < cpu_free_count s)%nat
}.

Lemma wp_reload_loop sid s0 s P ids (Q : unit → TM → Prop) :
  ensure_pre sid P ids s0 → (∀ b, b ∈ ids → (sid, b) ∈ P) → moved sid P s0 s →
  (∀ s', moved sid P s0 s' → (∀ b, b ∈ ids → is_resident sid b s' = true) → Q tt s') →
  wp (for_each ids (_ensure_one_sync sid)) s Q.
Proof.
  intros [_ Hord Hsto Hfit Hroom] HP Hm HQ.
  apply (wp_for_each ids _ s (λ done s', moved sid P s0 s' ∧
    ∀ b, b ∈ done → (sid, b) ∈ (resident_map s').*1)).
  { split; [done|set_solver]. }
  2:{ intros s' [Hm' Hr]. apply HQ; [done|]. intros b Hb. apply od_mem_spec. by apply Hr. }
  clear s Hm. intros done b todo s Hids [Hm Hdone].
  pose proof (mv_inv _ _ _ _ Hm) as Hinv. pose proof (mv_frame _ _ _ _ Hm) as Hfr.
  assert (b ∈ ids) as Hb by (rewrite Hids; set_solver).
  assert (write_through s = write_through s0) as Hwt
    by (unfold write_through; by destruct Hfr as [-> _]).
  assert (∀ P', _protected_keys P' s = []) as Hprot.
  { intros P'. rewrite (protected_keys_framed _ _ _ Hfr). by apply protected_keys_none. }
  assert (∀ sm slot ev, LRUSlotMap.add_step (sid, b) (slot_map s) sm slot ev →
    (∀ v, ev = Some v → head (resident_map s).*1 = Some v) →
    protected_tail P (LRUSlotMap.key_to_slot sm) ∧ (∀ v, ev = Some v → v ∉ P)) as Hstep.
  { intros sm slot ev Hadd Hv.
    eapply protected_tail_add; [by apply Hinv|by apply Hm|by apply HP| |done|done].
    by rewrite (mv_cap _ _ _ _ Hm). }
  apply wp_ensure_one_sync; [done| | | |].
  - rewrite (mv_stored _ _ _ _ Hm). by apply Hsto.
  - intros sm slot v Hadd Hv. rewrite Hprot in Hv. simpl in Hv.
    destruct (Hstep sm slot (Some v) Hadd) as [_ Hv2]; [by intros ? [= <-]|].
    specialize (Hv2 v eq_refl). unfold spillable. rewrite Hwt.
    destruct (LRUSlotMap.add_step_victim _ _ _ _ _ Hadd) as (Hvr & _).
    destruct (write_through s0) eqn:Hw0.
    + destruct (mv_new _ _ _ _ Hm v) as [?|Hv0]; [by eapply od_get_Some_key|done|].
      destruct (Hroom v Hv0 Hv2) as [c Hc]. exists c. by eapply mv_host.
    + pose proof (mv_free _ _ _ _ Hm) as Hf. destruct (free_of_inv _ _ _ _ Hinv) as [fr Hfo].
      unfold cpu_free_count in Hf at 2. rewrite Hfo in Hf.
      destruct fr as [|c fr _] using rev_ind; [simpl in Hf; lia|]. by exists fr, c.
  - intros Hw. rewrite Hwt in Hw. rewrite Hw in Hroom. pose proof (mv_free _ _ _ _ Hm). lia.
  - intros s' Hen. destruct (en_add _ _ _ _ Hen) as (slot & ev & Hadd & Hv).
    rewrite Hprot in Hv. destruct (Hstep _ _ _ Hadd Hv) as [Htail Hev].
    assert (∀ k, k ∈ (resident_map s').*1 ↔
      k = (sid, b) ∨ k ∈ (resident_map s).*1 ∧ ev ≠ Some k) as Hkeys.
    { intros k. by apply (add_step_keys _ _ _ slot), Hadd; apply Hinv. }
    split.
    + pose proof (HP b Hb). eapply moved_ensured; [done|done|done|done|set_solver|done|].
      by apply Hm.
    + intros b' [Hb'|Hb']%elem_of_app; apply Hkeys; [right|left; set_solver].
      split; [by apply Hdone|]. intros ->. apply (Hev _ eq_refl), HP.
      rewrite Hids. set_solver.
Qed.

Definition step_keys (sid : Z) (keep_resident_ids : option (list Z)) (ids : list Z) : list key :=
  (λ b, (sid, b)) <$> (default [] keep_resident_ids ++ ids).

Lemma tm_inv_stats sid hole tr s st :
  tm_inv sid hole tr s → tm_inv sid hole tr (with_stats st s).
Proof. intros []. split; done. Qed.

Lemma moved_stats sid P s0 s st : moved sid P s0 s → moved sid P s0 (with_stats st s).
Proof. intros []. split; try done. by apply tm_inv_stats. Qed.

Lemma moved_start sid s : tm_inv sid None [] s → moved sid [] s s.
Proof.
  intros Hinv. split; try done; [|by intros; right].
  exists (resident_map s), []. rewrite app_nil_r. split_and!; [done|set_solver..].
Qed.

(** What [ensure_resident] leaves: a [moved] state with every requested block in the
    arena. *)
Lemma wp_ensure_resident sid ids keep s :
  ensure_pre sid (step_keys sid keep ids) ids s →
  wp (ensure_resident sid ids keep) s (λ r s',
    r = None ∧ moved sid (step_keys sid keep ids) s s' ∧ ∀ b, b ∈ ids → is_resident sid b s' = true).
Proof.
  intros Hpre. pose proof (ep_inv _ _ _ _ Hpre) as Hinv.
  unfold ensure_resident, _touch_resident. wp_step. wp_step.
  apply (wp_touch_loop sid s s []); [by apply moved_start|done|]. intros s1 Hm1 Hr1.
  apply (wp_touch_loop sid s s1 _ _ _ Hm1 Hr1). intros s2 Hm2 _.
  rewrite app_nil_l, <-fmap_app in Hm2. wp_step. wp_step.
  rewrite (ti_sync _ _ _ _ (mv_inv _ _ _ _ Hm2)).
  assert (∀ b, b ∈ ids → (sid, b) ∈ step_keys sid keep ids) as HP.
  { intros b Hb. apply list_elem_of_fmap. exists b. set_solver. }
  wp_step. destruct (enable_event_timing (cfg s2)).
  - unfold _timed_ensure_sync. wp_step. wp_step. wp_step.
    apply (wp_reload_loop sid s s2 _ ids _ Hpre HP Hm2). intros s3 Hm3 Hids.
    wp_steps. case_bool_decide; unfold bump; wp_steps; split_and!; try done.
    by apply moved_stats.
  - apply (wp_reload_loop sid s s2 _ ids _ Hpre HP Hm2). intros s3 Hm3 Hids. by wp_steps.
Qed.

(** A kept block that was resident still is. *)
Lemma moved_keep sid ids keep s s' b :
  moved sid (step_keys sid keep ids) s s' → b ∈ default [] keep → is_resident sid b s = true →
  is_resident sid b s' = true.
Proof.
  intros Hm Hb Hr. apply od_mem_spec. apply od_mem_spec in Hr. apply (mv_keep _ _ _ _ Hm); [|done].
  apply list_elem_of_fmap. exists b. set_solver.
Qed.

(** C1: a synchronous [ensure_resident] of one sequence, under the lru or the prefetch
    ordering (not the mixture one), for requested blocks that are stored somewhere, when
    the requested and the kept blocks together fit the arena and what is displaced has a
    place (a free CPU slot, or a host copy under write-through): it never raises, leaves
    every requested block and every resident block the caller asked to keep in the arena,
    changes the KV data of no block, and keeps the manager's invariant. *)
Theorem ensure_resident_correct sid ids keep s :
  ensure_pre sid (step_keys sid keep ids) ids s →
  ∃ s', ensure_resident sid ids keep s = (Ret None, s') ∧
    tm_inv sid None [] s' ∧
    (∀ k, stored s' k = stored s k) ∧
    (∀ b, b ∈ ids → is_resident sid b s' = true) ∧
    (∀ b, b ∈ default [] keep → is_resident sid b s = true → is_resident sid b s' = true).
Proof.
  intros (r & s' & Hrun & -> & Hm & Hids)%wp_ensure_resident%wp_run.
  exists s'. split_and!; [done|by apply Hm|by apply Hm|done|]. intros b. by apply moved_keep with ids.
Qed.
End props.
