(* ===== verification/QuestTierWrite.v ===== *)
(** * Quest backend: what writes do to the tier manager's content

    [on_block_filled], [write_live_block], [append_decode_token_kvshare],
    [trim_to_working_set], [prefill_ingest_kvshare] and [free_request] against
    the flat store [stored]: each write adds or replaces the entry it names and
    keeps every other block's data, wherever it lives. *)

From S2P Require Import Prelude OrderedDict QuestStore QuestTier QuestTierInv QuestTierProps.

Open Scope Z_scope.

Section writes.
Context {row T : Type} (ops : tensor_ops row T).
Notation block := (list row).
Notation TM := (TierManager.t row T).
Notation key := LRUSlotMap.key.
Import TierManager.
Implicit Types (s : TM) (k : key) (sid b slot c L : Z).

(** ** Closing the invariant after a residency update *)
Lemma tm_inv_close sid tr s r k v :
  tm_inv sid (Some k) tr s → k.1 = sid → block_in_range s k.2 →
  BlockResidency.updated (residency s) r (lidx s) k.2 v →
  v = expected_residency s k →
  (∀ slot c, od_get k (resident_map s) = Some slot → od_get k (backing s) = Some c →
     write_through s = true ∧ arena s slot = cpu_content s c) →
  tm_inv sid None tr (with_residency r s).
Proof.
  intros [? ? ? ? ? ? ? ? ? ? ? Hkeys Hres Hboth] Hk1 Hk2 Hup -> Hk. split; try done.
  - apply Hup.
  - intros k' Hin. destruct (Hkeys k' Hin) as [? Hr]. split; [done|].
    by apply (BlockResidency.updated_in_range _ _ _ _ _ _ _ Hup).
  - intros b Hb _. simpl. apply (BlockResidency.updated_in_range _ _ _ _ _ _ _ Hup) in Hb.
    change (expected_residency (with_residency r s)) with (expected_residency s).
    change (lidx (with_residency r s)) with (lidx s).
    destruct k as [k1 k2]; simpl in *; subst k1. destruct (decide (b = k2)) as [->|Hne].
    + by rewrite (BlockResidency.updated_peek _ _ _ _ _ Hk2 Hup).
    + rewrite (BlockResidency.updated_peek_ne _ _ _ _ _ b Hup Hb Hne). apply Hres; [done|congruence].
  - intros k' sl c _ Hr Hb. destruct (decide (k' = k)) as [->|Hne]; [by apply Hk|].
    apply (Hboth k'); [congruence|done..].
Qed.

(** ** A CPU copy added for one key *)
Record backed s s' k kv c fr : Prop := {
  bk_frame : framed s s';
  bk_arena : gpu_k s' = gpu_k s ∧ gpu_v s' = gpu_v s;
  bk_slots : slot_map s' = slot_map s;
  bk_backing : backing s' = backing s ++ [(k, c)];
  bk_other : (if write_through s then cpu_slots s' = cpu_slots s else host_slots s' = host_slots s);
  bk_shape : CpuKvBackingStore.same_shape (cpu_store s) (cpu_store s');
  bk_free : CpuKvBackingStore.free_of (cpu_store s') (lidx s) = Some fr;
  bk_content : ∀ c', 0 ≤ c' → cpu_content s' c' =
    if decide (c' = c) then Some kv else cpu_content s c';
  bk_res : residency s' = residency s
}.

Section backed.
Context (sid : Z) (s s' : TM) (k : key) (kv : block * block) (c : Z) (fr : list Z).
Context (Hinv : tm_inv sid (Some k) [] s) (Hk1 : k.1 = sid) (Hk2 : block_in_range s k.2)
  (Hnb : od_get k (backing s) = None)
  (Hfree : CpuKvBackingStore.free_of (cpu_store s) (lidx s) = Some (fr ++ [c]))
  (Hbk : backed s s' k kv c fr).

Lemma bk_lidx : lidx s' = lidx s.
Proof. unfold lidx. by destruct (bk_frame _ _ _ _ _ _ Hbk) as [-> _]. Qed.

Lemma bk_wt : write_through s' = write_through s.
Proof. unfold write_through. by destruct (bk_frame _ _ _ _ _ _ Hbk) as [-> _]. Qed.

Lemma bk_resident : resident_map s' = resident_map s.
Proof. unfold resident_map. by rewrite (bk_slots _ _ _ _ _ _ Hbk). Qed.

Lemma bk_arena_eq sl : arena s' sl = arena s sl.
Proof. unfold arena. by destruct (bk_arena _ _ _ _ _ _ Hbk) as [-> ->]. Qed.

Lemma bk_get k' : od_get k' (backing s') = if decide (k' = k) then Some c else od_get k' (backing s).
Proof.
  rewrite (bk_backing _ _ _ _ _ _ Hbk), od_get_app. simpl.
  destruct (decide (k' = k)) as [->|]; [by rewrite Hnb|by destruct (od_get k' (backing s))].
Qed.

Lemma bk_accounting :
  NoDup ((backing s).*2 ++ fr ++ [c]) ∧
  Forall (λ c, 0 ≤ c < CpuKvBackingStore.blocks_per_layer (cpu_store s)) ((backing s).*2 ++ fr ++ [c]) ∧
  Z.of_nat (length ((backing s).*2 ++ fr ++ [c])) = CpuKvBackingStore.blocks_per_layer (cpu_store s) ∧
  (backing s').*2 ++ fr ≡ₚ (backing s).*2 ++ fr ++ [c].
Proof.
  destruct (ti_cpu_slots _ _ _ _ Hinv) as (fr0 & Hfr0 & Hnd & Hall & Hcnt).
  assert (fr0 = fr ++ [c]) as -> by congruence. split_and!; [done..|].
  rewrite (bk_backing _ _ _ _ _ _ Hbk), fmap_app. simpl. rewrite <-app_assoc. f_equiv.
  by rewrite Permutation_app_comm.
Qed.

Lemma bk_content_old k' c' : od_get k' (backing s) = Some c' → cpu_content s' c' = cpu_content s c'.
Proof.
  intros Hc%od_get_elem. destruct bk_accounting as (Hnd & Hall & _).
  assert (c' ∈ (backing s).*2) as Hin by (apply list_elem_of_fmap; by exists (k', c')).
  rewrite Forall_forall in Hall.
  rewrite (bk_content _ _ _ _ _ _ Hbk) by (apply (Hall c'); set_solver).
  rewrite decide_False; [done|]. intros ->. apply NoDup_app in Hnd as (_ & Hd & _).
  apply (Hd c); set_solver.
Qed.

Lemma bk_content_new : cpu_content s' c = Some kv.
Proof.
  destruct bk_accounting as (_ & Hall & _). rewrite Forall_forall in Hall.
  rewrite (bk_content _ _ _ _ _ _ Hbk) by (apply (Hall c); set_solver). by rewrite decide_True.
Qed.

Lemma bk_stored k' : stored s' k' =
  if decide (k' = k) then match od_get k (resident_map s) with
                          | Some _ => stored s k | None => Some kv end
  else stored s k'.
Proof.
  unfold stored. rewrite bk_resident, bk_get. destruct (decide (k' = k)) as [->|].
  - destruct (od_get k (resident_map s)); [apply bk_arena_eq|]. simpl. apply bk_content_new.
  - destruct (od_get k' (resident_map s)); [apply bk_arena_eq|].
    destruct (od_get k' (backing s)) eqn:Hc; simpl; [by eapply bk_content_old|done].
Qed.

Lemma bk_range b : block_in_range s' b ↔ block_in_range s b.
Proof. unfold block_in_range. by rewrite bk_lidx, (bk_res _ _ _ _ _ _ Hbk). Qed.

Lemma bk_inv : tm_inv sid (Some k) [] s'.
Proof.
  destruct bk_accounting as (Hnd & Hall & Hcnt & Hperm).
  destruct (bk_arena _ _ _ _ _ _ Hbk) as [Hgk Hgv].
  destruct (bk_shape _ _ _ _ _ _ Hbk) as (Hcw & Hcl & Hcb).
  split; rewrite ?(bk_slots _ _ _ _ _ _ Hbk), ?Hgk, ?Hgv, ?bk_lidx, ?bk_wt, ?Hcl, ?Hcb,
    ?bk_resident, ?(bk_res _ _ _ _ _ _ Hbk).
  - destruct (bk_frame _ _ _ _ _ _ Hbk) as (_ & -> & _). apply (ti_sync _ _ _ _ Hinv).
  - apply (ti_slots _ _ _ _ Hinv).
  - apply (ti_cap _ _ _ _ Hinv).
  - apply (ti_gpu_k _ _ _ _ Hinv).
  - apply (ti_gpu_v _ _ _ _ Hinv).
  - done.
  - apply (ti_cpu_layer _ _ _ _ Hinv).
  - apply (ti_res_wf _ _ _ _ Hinv).
  - rewrite (bk_backing _ _ _ _ _ _ Hbk). apply od_wf_snoc; [by apply od_get_None|].
    apply (ti_back_wf _ _ _ _ Hinv).
  - pose proof (bk_other _ _ _ _ _ _ Hbk) as Ho. pose proof (ti_other _ _ _ _ Hinv) as Ho'.
    destruct (write_through s); by rewrite Ho.
  - exists fr. simpl. rewrite Hperm. split; [|done]. apply (bk_free _ _ _ _ _ _ Hbk).
  - intros k' Hin. rewrite bk_range. destruct (decide (k' = k)) as [->|Hne]; [done|].
    apply (ti_keys _ _ _ _ Hinv). destruct Hin as [|Hin]; [by left|right].
    rewrite (bk_backing _ _ _ _ _ _ Hbk), fmap_app in Hin. set_solver.
  - intros b Hb Hh. rewrite (ti_res _ _ _ _ Hinv) by (done || by apply bk_range).
    unfold expected_residency. rewrite bk_resident, bk_get. rewrite decide_False; [done|].
    intros Heq. apply Hh. by rewrite Heq.
  - intros k' sl c' Hh Hr. rewrite bk_get, decide_False by congruence. intros Hc.
    rewrite bk_arena_eq, (bk_content_old k') by done. by apply (ti_both _ _ _ _ Hinv k').
Qed.
End backed.

(** [alloc] followed by [store_block] and the dictionary update. *)
Lemma wp_alloc_store s c fr kb vb (Q : Z → TM → Prop) :
  CpuKvBackingStore.wf (cpu_store s) → CpuKvBackingStore.in_range (cpu_store s) (lidx s) c →
  CpuKvBackingStore.free_of (cpu_store s) (lidx s) = Some (fr ++ [c]) →
  (∀ cs, CpuKvBackingStore.same_shape (cpu_store s) cs →
     CpuKvBackingStore.same_content (cpu_store s) cs →
     CpuKvBackingStore.free_of cs (lidx s) = Some fr →
     (∀ s1 Q1, cpu_store s1 = cs → lidx s1 = lidx s →
        (∀ cs', CpuKvBackingStore.same_shape (cpu_store s) cs' →
          CpuKvBackingStore.free_of cs' (lidx s) = Some fr →
          (∀ c', 0 ≤ c' → CpuKvBackingStore.content cs' (lidx s) c' =
             if decide (c' = c) then Some (kb, vb) else cpu_content s c') →
          Q1 tt (with_cpu_store cs' s1)) →
        wp (on_cpu_store (CpuKvBackingStore.store_block (lidx s) c kb vb)) s1 Q1) →
     Q c (with_cpu_store cs s)) →
  wp (on_cpu_store (CpuKvBackingStore.alloc (lidx s))) s Q.
Proof.
  intros Hwf Hc Hfr HQ. unfold on_cpu_store at 1. wp_step.
  eapply CpuKvBackingStore.wp_alloc; [done|apply Hc|done|]. intros cs Hsh Hco Hf.
  assert (CpuKvBackingStore.free_of cs (lidx s) = Some fr) as Hf'.
  { rewrite Hf by apply Hc. by rewrite decide_True. }
  apply HQ; [done..|]. intros s1 Q1 Hs1 Hl1 HQ1. unfold on_cpu_store. wp_step. rewrite Hs1.
  apply CpuKvBackingStore.wp_store_block; [apply Hsh|by apply (CpuKvBackingStore.same_shape_in_range _ _ _ _ Hsh)|].
  intros cs' Hsh' Hfl Hco'. apply HQ1.
  - by eapply CpuKvBackingStore.same_shape_trans.
  - unfold CpuKvBackingStore.free_of in *. by rewrite Hfl.
  - intros c' Hc'. rewrite Hco' by (done || apply Hc).
    destruct (decide (c' = c)) as [->|]; [by rewrite decide_True|].
    rewrite decide_False by (by intros [_ ?]). apply Hco; [apply Hc|done].
Qed.

Lemma free_slot_in_range sid hole tr s fr c :
  tm_inv sid hole tr s →
  CpuKvBackingStore.free_of (cpu_store s) (lidx s) = Some (fr ++ [c]) →
  CpuKvBackingStore.in_range (cpu_store s) (lidx s) c.
Proof.
  intros Hinv Hfr. destruct (ti_cpu_slots _ _ _ _ Hinv) as (fr0 & Hfr0 & _ & Hall & _).
  assert (fr0 = fr ++ [c]) as -> by congruence. rewrite Forall_forall in Hall.
  split; [apply (ti_cpu_layer _ _ _ _ Hinv)|apply (Hall c); set_solver].
Qed.

(** [_mirror_to_host] of a block that has no backup yet. *)
Lemma wp_mirror sid s k kv src_k src_v fr c (Q : unit → TM → Prop) :
  tm_inv sid (Some k) [] s → write_through s = true → od_get k (host_slots s) = None →
  CpuKvBackingStore.free_of (cpu_store s) (lidx s) = Some (fr ++ [c]) →
  (∀ s1 Q1, gpu_k s1 = gpu_k s → gpu_v s1 = gpu_v s → Q1 kv s1 → wp (read_src src_k src_v) s1 Q1) →
  (∀ s', backed s s' k kv c fr → Q tt s') →
  wp (_mirror_to_host k.1 k.2 src_k src_v) s Q.
Proof.
  intros Hinv Hwt Hnb Hfr Hsrc HQ. destruct kv as [kb vb].
  unfold _mirror_to_host, layer. wp_step. wp_step.
  assert (od_mem (k.1, k.2) (host_slots s) = false) as ->
    by (apply od_mem_false; by destruct k).
  wp_step. wp_step. wp_step. change (layer_idx (cfg s)) with (lidx s).
  eapply (wp_alloc_store s c fr kb vb);
    [apply (ti_cpu_wf _ _ _ _ Hinv)|by eapply free_slot_in_range|done|].
  intros cs Hsh Hco Hf Hstore. wp_step. wp_step. rewrite (ti_sync _ _ _ _ Hinv). wp_step.
  apply Hsrc; [done|done|]. simpl. change (layer_idx (cfg s)) with (lidx s).
  apply Hstore; [done|done|]. intros cs' Hsh' Hf' Hco'. apply HQ.
  split; simpl; try done.
  - unfold backing. change (write_through _) with (write_through s). rewrite Hwt. simpl.
    destruct k as [k1 k2]. simpl. apply od_set_keys_new. by apply od_get_None.
  - by rewrite Hwt.
Qed.

(** ** Writing the data of a block into the arena *)

(** The block data a write leaves, and the rest unchanged. *)
Definition writes_to s s' k kv : Prop :=
  ∀ k', stored s' k' = if decide (k' = k) then Some kv else stored s k'.

Lemma writes_to_stored s s' k kv : writes_to s s' k kv → stored s' k = Some kv.
Proof. intros H. rewrite H. by rewrite decide_True. Qed.

(** What a write may need to displace. *)
Definition can_write s k : Prop :=
  ∀ sm slot v, LRUSlotMap.add_step k (slot_map s) sm slot (Some v) →
    head (resident_map s).*1 = Some v → spillable s v.

Record written sid s s' k kv ev : Prop := {
  wr_inv : tm_inv sid None [] s';
  wr_frame : framed s s';
  wr_stored : writes_to s s' k kv;
  wr_add : ∃ slot, LRUSlotMap.add_step k (slot_map s) (slot_map s') slot ev ∧
    (∀ v, ev = Some v → head (resident_map s).*1 = Some v);
  wr_back : od_get k (backing s') = None;
  wr_free : cpu_free_count s' =
    (cpu_free_count s - (if write_through s then 0 else if ev then 1 else 0))%nat;
  wr_range : ∀ b, block_in_range s' b ↔ block_in_range s b;
  wr_host : write_through s = true →
    ∀ k' c, od_get k' (host_slots s) = Some c → od_get k' (host_slots s') = Some c
}.

(** The copy and [mark_on_gpu] once [k] owns a slot. *)
Lemma wp_fill_slot sid s s1 k slot ev kb vb (Q : unit → TM → Prop) :
  tm_inv sid None [] s → k.1 = sid → block_in_range s k.2 →
  od_get k (backing s) = None →
  room_made sid [] s s1 k slot ev →
  (∀ v, ev = Some v → head (resident_map s).*1 = Some v) →
  (∀ s', written sid s s' k (kb, vb) ev → od_get k (resident_map s') = Some slot →
     arena s' slot = Some (kb, vb) → Q tt s') →
  wp (copy_into_arena slot kb vb ;;
      on_residency (BlockResidency.mark_on_gpu (lidx s) k.2)) s1 Q.
Proof.
  intros Hinv Hk1 Hk2 Hnb Hrm Hvict HQ. pose proof (rm_inv _ _ _ _ _ _ _ Hrm) as Hinv1.
  destruct (room_made_slot _ _ _ _ _ _ _ (ti_slots _ _ _ _ Hinv) Hrm) as [Hsl1 Hsl2].
  pose proof (rm_frame _ _ _ _ _ _ _ Hrm) as Hf1.
  assert (lidx s1 = lidx s) as Hl1 by (unfold lidx; by destruct Hf1 as [-> _]).
  assert (write_through s1 = write_through s) as Hw1
    by (unfold write_through; by destruct Hf1 as [-> _]).
  assert (od_get k (resident_map s1) = Some slot) as Hslot.
  { eapply LRUSlotMap.add_step_get_eq; [|by eapply rm_add]. apply (ti_slots _ _ _ _ Hinv). }
  wp_step. apply wp_copy_into_arena; [lia..|]. unfold on_residency. wp_step.
  apply BlockResidency.wp_mark_on_gpu; [apply (ti_res_wf _ _ _ _ Hinv1)| |].
  { rewrite <-Hl1. by apply (rm_range _ _ _ _ _ _ _ Hrm). }
  intros r Hr. set (s' := with_residency _ _).
  assert (filled s1 s' k slot (kb, vb)) as Hfl.
  { split; try done; [|by rewrite Hl1].
    apply CpuKvBackingStore.same_shape_refl, (ti_cpu_wf _ _ _ _ Hinv1). }
  destruct (free_of_inv _ _ _ _ Hinv1) as [fr Hfr].
  assert (∀ c, od_get k (backing s1) = Some c →
    write_through s1 = true ∧ cpu_content s1 c = Some (kb, vb)) as Hback.
  { intros c. rewrite (rm_backing_k _ _ _ _ _ _ _ Hrm), Hnb. done. }
  apply HQ.
  - split.
    + by eapply (fill_inv sid [] [] fr fr s1 s' k slot (kb, vb)).
    + eapply framed_trans; [done|by apply Hfl].
    + intros k'. destruct (decide (k' = k)) as [->|Hne].
      * by eapply (fi_stored_eq sid [] s1 s' k slot (kb, vb)).
      * rewrite (fi_stored_ne sid [] s1 s' k slot (kb, vb)) by done.
        by apply (rm_stored _ _ _ _ _ _ _ Hrm).
    + exists slot. split; [apply Hrm|done].
    + change (backing s') with (backing s1). by rewrite (rm_backing_k _ _ _ _ _ _ _ Hrm).
    + apply (rm_free _ _ _ _ _ _ _ Hrm).
    + intros b. rewrite (fi_range s1 s' k slot (kb, vb)) by done.
      apply (rm_range _ _ _ _ _ _ _ Hrm).
    + intros Hwt k' c Hc. pose proof (rm_backing _ _ _ _ _ _ _ Hrm k' c) as Hb.
      unfold backing in Hb. rewrite Hw1, Hwt in Hb. by apply Hb.
  - done.
  - rewrite (fi_arena sid [] s1 s' k slot (kb, vb)) by
      (done || by eapply LRUSlotMap.slot_in_range; [apply (ti_slots _ _ _ _ Hinv1)|]).
    by rewrite decide_True.
Qed.

(** [add] and the spill hook at the start of a write. *)
Lemma wp_write_room {A} sid s k (cont : Z → M TM A) (Q : A → TM → Prop) :
  tm_inv sid None [] s → k.1 = sid → block_in_range s k.2 → can_write s k →
  (∀ slot ev s1, room_made sid [] s s1 k slot ev →
     (∀ v, ev = Some v → head (resident_map s).*1 = Some v) → wp (cont slot) s1 Q) →
  wp ('(slot, evicted) <- on_slot_map (LRUSlotMap.add k []) ;;
      spill_hook evicted slot ;; cont slot) s Q.
Proof.
  intros Hinv Hk1 Hk2 Hcw HQ. wp_step.
  eapply wp_mono; [apply (wp_add_spill sid [] s k [] (λ r s1, wp (cont r.1) s1 Q));
    [by apply tm_inv_open|done..]|].
  intros [slot ev] s1 H. wp_step. exact H.
Qed.

(** The blocks of the arena, from the least to the most recently used, after [k] was used:
    the least recently used one leaves if [k] needs a slot and none is free. *)
Definition recency_after (k : key) (m : LRUSlotMap.t) : list key :=
  let ks := (LRUSlotMap.key_to_slot m).*1 in
  (if bool_decide (k ∈ ks) then filter (.≠ k) ks
   else match LRUSlotMap.free_slots m with [] => tail ks | _ => ks end) ++ [k].

Lemma od_del_fst {V} k (d : list (key * V)) : od_wf d → (od_del k d).*1 = filter (.≠ k) d.*1.
Proof.
  unfold od_wf. induction d as [|[k' v] d IH]; intros Hwf; [done|]. csimpl in *. apply NoDup_cons in Hwf as [Hk Hwf].
  rewrite filter_cons. destruct (decide (k = k')) as [->|Hne].
  - rewrite decide_False by auto. symmetry. apply filter_all. by intros x Hx ->.
  - rewrite decide_True by congruence. csimpl. by rewrite IH.
Qed.
Lemma add_step_recency k m m' slot ev : LRUSlotMap.inv m → LRUSlotMap.add_step k m m' slot ev →
  (∀ v, ev = Some v → head (LRUSlotMap.key_to_slot m).*1 = Some v) → (LRUSlotMap.key_to_slot m').*1 = recency_after k m.
Proof.
  intros Hinv Hstep Hv. unfold recency_after. pose proof (LRUSlotMap.inv_keys _ Hinv) as Hwf.
  destruct Hstep as [Hg ->|fr Hg Hfr ->|v Hg Hfr Hvs ->]; simpl; rewrite fmap_app; simpl; f_equal.
  - rewrite od_del_fst by done. rewrite bool_decide_true; [done|]. by eapply od_get_Some_key.
  - apply od_get_None in Hg. rewrite bool_decide_false by done. rewrite Hfr. by destruct fr.
  - apply od_get_None in Hg. rewrite bool_decide_false by done. rewrite Hfr. specialize (Hv v eq_refl).
    destruct (LRUSlotMap.key_to_slot m) as [|[k0 s0] d]; [done|]. simpl in *. simplify_eq. by rewrite decide_True.
Qed.

(** C2: [write_live_block] of a block of the one sequence in the arena that has no CPU copy,
    when the block it may displace can be spilled: stores exactly the given rows for it in
    the slot it returns and keeps the data of every other block. The block becomes the most
    recently used one; no other block leaves the arena unless all slots are taken, and then
    only the least recently used one does, to the CPU; the blocks that stay keep their
    slots. The invariant is kept. *)
Theorem write_live_block_correct sid b kb vb s :
  tm_inv sid None [] s → block_in_range s b →
  od_get (sid, b) (backing s) = None → can_write s (sid, b) →
  ∃ slot s', write_live_block sid b kb vb s = (Ret slot, s') ∧
    tm_inv sid None [] s' ∧ writes_to s s' (sid, b) (kb, vb) ∧
    od_get (sid, b) (resident_map s') = Some slot ∧
    (resident_map s').*1 = recency_after (sid, b) (slot_map s) ∧
    (∀ k, k ≠ (sid, b) → k ∈ (resident_map s').*1 → od_get k (resident_map s') = od_get k (resident_map s)).
Proof.
  intros Hinv Hb Hnb Hcw.
  enough (wp (write_live_block sid b kb vb) s (λ slot s', tm_inv sid None [] s' ∧
    writes_to s s' (sid, b) (kb, vb) ∧ od_get (sid, b) (resident_map s') = Some slot ∧
    (resident_map s').*1 = recency_after (sid, b) (slot_map s) ∧
    (∀ k, k ≠ (sid, b) → k ∈ (resident_map s').*1 → od_get k (resident_map s') = od_get k (resident_map s))))
    as (slot & s' & Hrun & Hpost)%wp_run by eauto.
  unfold write_live_block, layer. wp_step. wp_step. change (layer_idx (cfg s)) with (lidx s).
  apply (wp_write_room sid); [done..|]. intros slot ev s1 Hrm Hv.
  apply wp_bind_assoc. wp_step. apply (wp_fill_slot sid s s1 (sid, b) slot ev); try done.
  intros s' Hw Hr _. wp_steps. destruct (wr_add _ _ _ _ _ _ Hw) as (slot' & Hadd & Hh). pose proof (ti_slots _ _ _ _ Hinv) as Hsl.
  split_and!; [apply Hw|apply Hw|done|by eapply add_step_recency|].
  intros k Hk Hin. unfold resident_map in *. pose proof (LRUSlotMap.add_step_get_ne _ _ _ _ _ k Hsl Hadd Hk) as Hget.
  rewrite Hget. case_decide; [|done]. apply od_get_None in Hget. done.
Qed.

Lemma tm_inv_close_same sid tr s k :
  tm_inv sid (Some k) tr s → k.1 = sid →
  BlockResidency.peek (residency s) (lidx s) k.2 = Some (expected_residency s k) →
  (∀ slot c, od_get k (resident_map s) = Some slot → od_get k (backing s) = Some c →
     write_through s = true ∧ arena s slot = cpu_content s c) →
  tm_inv sid None tr s.
Proof.
  intros [? ? ? ? ? ? ? ? ? ? ? Hkeys Hres Hboth] Hk1 Hpk Hk. split; try done.
  - intros b Hb _. destruct k as [k1 k2]; simpl in *; subst k1.
    destruct (decide (b = k2)) as [->|Hne]; [done|]. apply Hres; [done|congruence].
  - intros k' sl c _. destruct (decide (k' = k)) as [->|Hne]; [apply Hk|].
    apply Hboth. congruence.
Qed.

(** The last free CPU slot, which [alloc] pops. *)
Lemma free_slot_available sid hole tr s :
  tm_inv sid hole tr s → (0 < cpu_free_count s)%nat →
  ∃ fr c, CpuKvBackingStore.free_of (cpu_store s) (lidx s) = Some (fr ++ [c]).
Proof.
  intros Hinv Hf. destruct (free_of_inv _ _ _ _ Hinv) as [fr Hfr].
  unfold cpu_free_count in Hf. rewrite Hfr in Hf.
  destruct fr as [|c fr _] using rev_ind; [simpl in Hf; lia|]. by exists fr, c.
Qed.

(** Mirroring a block that sits in the arena changes no block's data. *)
Lemma wp_mirror_resident sid s k slot kv src_k src_v (Q : unit → TM → Prop) :
  tm_inv sid None [] s → write_through s = true → od_get k (host_slots s) = None →
  od_get k (resident_map s) = Some slot → arena s slot = Some kv →
  (0 < cpu_free_count s)%nat →
  (∀ s1 Q1, gpu_k s1 = gpu_k s → gpu_v s1 = gpu_v s → Q1 kv s1 → wp (read_src src_k src_v) s1 Q1) →
  (∀ s' c fr, tm_inv sid None [] s' → backed s s' k kv c fr →
     (∀ k', stored s' k' = stored s k') → is_Some (od_get k (host_slots s')) →
     (cpu_free_count s' = cpu_free_count s - 1)%nat → Q tt s') →
  wp (_mirror_to_host k.1 k.2 src_k src_v) s Q.
Proof.
  intros Hinv Hwt Hnb Hslot Har Hf Hsrc HQ.
  destruct (free_slot_available _ _ _ _ Hinv Hf) as (fr & c & Hfr).
  assert (k.1 = sid ∧ block_in_range s k.2) as [Hk1 Hk2].
  { apply (ti_keys _ _ _ _ Hinv). left. by eapply od_get_Some_key. }
  assert (od_get k (backing s) = None) as Hnb' by (unfold backing; by rewrite Hwt).
  pose proof (tm_inv_open _ _ _ k Hinv) as Hop.
  apply (wp_mirror sid s k kv _ _ fr c); [done..|]. intros s' Hbk.
  assert (tm_inv sid (Some k) [] s') as Hinv' 
    by exact (bk_inv _ _ _ _ _ _ _ Hop Hk1 Hk2 Hnb' Hfr Hbk).
  assert (cpu_content s' c = Some kv) as Hcn 
    by exact (bk_content_new _ _ _ _ _ _ _ Hop Hk1 Hk2 Hnb' Hfr Hbk).
  apply (HQ s' c fr); [|done| | |].
  - apply (tm_inv_close_same sid [] s' k); [done|done| |].
    + rewrite (bk_res _ _ _ _ _ _ Hbk), (bk_lidx _ _ _ _ _ _ Hbk).
      pose proof (ti_res _ _ _ _ Hinv k.2 Hk2) as Hr. rewrite <-Hk1, <-surjective_pairing in Hr.
      rewrite Hr by done. unfold expected_residency.
      by rewrite (bk_resident _ _ _ _ _ _ Hbk), Hslot.
    + rewrite (bk_resident _ _ _ _ _ _ Hbk), (bk_get _ _ _ _ _ _ Hnb' Hbk).
      rewrite decide_True by done. intros sl c' ? ?. simplify_eq.
      split; [by rewrite (bk_wt _ _ _ _ _ _ Hbk)|].
      by rewrite (bk_arena_eq _ _ _ _ _ _ Hbk), Har, Hcn.
  - intros k'. rewrite (bk_stored _ _ _ _ _ _ _ Hop Hk1 Hk2 Hnb' Hfr Hbk).
    destruct (decide (k' = k)) as [->|]; [by rewrite Hslot|done].
  - pose proof (bk_get _ _ _ _ _ _ Hnb' Hbk k) as Hg. rewrite decide_True in Hg by done.
    unfold backing in Hg. rewrite (bk_wt _ _ _ _ _ _ Hbk), Hwt in Hg. by exists c.
  - unfold cpu_free_count.
    rewrite (bk_lidx _ _ _ _ _ _ Hbk), (bk_free _ _ _ _ _ _ Hbk), Hfr, length_app. simpl. lia.
Qed.

(** ** Filling and appending *)
Lemma tm_inv_summary sid hole tr s x :
  tm_inv sid hole tr s → tm_inv sid hole tr (with_summary_store x s).
Proof. intros []. split; done. Qed.

(** The summary store accepts the digest of [kb] for block [b]. *)
Definition summary_ready s b (kb : block) : Prop :=
  BlockSummaryStore.wf (summary_store s) ∧
  BlockSummaryStore.in_range (summary_store s) (lidx s) b ∧
  Z.of_nat (length kb) = BlockSummaryStore.block_size (summary_store s).

Definition digest_of s (kb : block) : T * T :=
  BlockSummaryStore.digest ops (BlockSummaryStore.digest_mode (summary_store s)) kb.

Lemma wp_summary s b kb (Q : unit → TM → Prop) :
  summary_ready s b kb →
  (∀ ss, BlockSummaryStore.updated (summary_store s) ss (lidx s) b (digest_of s kb) →
     Q tt (with_summary_store ss s)) →
  wp (on_summary (BlockSummaryStore.on_block_filled ops (lidx s) b kb)) s Q.
Proof.
  intros (Hwf & Hin & Hlen) HQ. unfold on_summary. wp_step.
  apply BlockSummaryStore.wp_on_block_filled; [done..|]. intros ss Hss. by apply HQ.
Qed.

Lemma updated_lookup s ss b d :
  BlockSummaryStore.in_range (summary_store s) (lidx s) b →
  BlockSummaryStore.updated (summary_store s) ss (lidx s) b d →
  BlockSummaryStore.lookup_summary ss (lidx s) b = Some d.
Proof. intros [[??][??]] (_ & _ & _ & _ & _ & Hup). rewrite Hup by done. by rewrite decide_True. Qed.

(** A write of [k] is mirrored at once under write-through. *)
Definition mirrored s k : Prop :=
  if write_through s then is_Some (od_get k (host_slots s)) else True.

(** C3: [on_block_filled] of a new block puts its rows in the arena, registers
    the digest of its keys, mirrors it to the CPU under write-through, and
    changes the data of no other block. *)
Theorem on_block_filled_correct sid b kb vb s :
  tm_inv sid None [] s → block_in_range s b →
  od_get (sid, b) (backing s) = None → can_write s (sid, b) →
  summary_ready s b kb → (write_through s = true → (0 < cpu_free_count s)%nat) →
  ∃ slot s', on_block_filled ops sid b kb vb s = (Ret slot, s') ∧
    tm_inv sid None [] s' ∧ writes_to s s' (sid, b) (kb, vb) ∧
    od_get (sid, b) (resident_map s') = Some slot ∧ mirrored s' (sid, b) ∧
    BlockSummaryStore.lookup_summary (summary_store s') (lidx s) b = Some (digest_of s kb).
Proof.
  intros Hinv Hb Hnb Hcw Hsum Hfree.
  enough (wp (on_block_filled ops sid b kb vb) s (λ slot s', tm_inv sid None [] s' ∧
    writes_to s s' (sid, b) (kb, vb) ∧ od_get (sid, b) (resident_map s') = Some slot ∧
    mirrored s' (sid, b) ∧
    BlockSummaryStore.lookup_summary (summary_store s') (lidx s) b = Some (digest_of s kb)))
    as (slot & s' & Hrun & Hpost)%wp_run by eauto.
  unfold on_block_filled, layer. wp_step. wp_step. change (layer_idx (cfg s)) with (lidx s).
  wp_step. apply wp_summary; [done|]. intros ss Hss. set (s0 := with_summary_store ss s).
  apply (wp_write_room sid s0); [by apply tm_inv_summary|done|done|done|].
  intros slot ev s1 Hrm Hv. apply wp_bind_assoc. wp_step.
  apply (wp_fill_slot sid s0 s1 (sid, b) slot ev); [by apply tm_inv_summary|done..|].
  intros s2 Hw Hslot Har. unfold bump. do 3 wp_step. apply wp_get. simpl.
  assert (write_through s2 = write_through s) as Hwt
    by (unfold write_through; by destruct (wr_frame _ _ _ _ _ _ Hw) as [-> _]).
  assert (summary_store s2 = ss) as Hss2 by by destruct (wr_frame _ _ _ _ _ _ Hw) as (_ & _ & -> & _).
  apply (updated_lookup _ _ _ _ (proj1 (proj2 Hsum))) in Hss.
  change (enable_write_through (cfg s2)) with (write_through s2). rewrite Hwt.
  wp_step. destruct (write_through s) eqn:Hwts.
  - set (s3 := with_stats _ s2).
    apply (wp_mirror_resident sid s3 (sid, b) slot (kb, vb)); try done.
    + apply tm_inv_stats, Hw.
    + pose proof (wr_back _ _ _ _ _ _ Hw) as H. unfold backing in H. by rewrite Hwt in H.
    + pose proof (wr_free _ _ _ _ _ _ Hw) as H.
      change (cpu_free_count s3) with (cpu_free_count s2). rewrite H.
      change (write_through s0) with (write_through s). rewrite Hwts.
      change (cpu_free_count s0) with (cpu_free_count s). specialize (Hfree eq_refl). lia.
    + intros s4 c fr Hinv4 Hbk Hst Hho _. wp_step. split_and!; [done| | | |].
      * intros k'. rewrite Hst. apply (wr_stored _ _ _ _ _ _ Hw).
      * by rewrite (bk_resident _ _ _ _ _ _ Hbk).
      * unfold mirrored. rewrite (bk_wt _ _ _ _ _ _ Hbk).
        change (write_through s3) with (write_through s2). by rewrite Hwt.
      * destruct (bk_frame _ _ _ _ _ _ Hbk) as (_ & _ & -> & _). simpl. by rewrite Hss2.
  - wp_steps. split_and!;
      [apply tm_inv_stats, Hw|intros k'; apply (wr_stored _ _ _ _ _ _ Hw)|done| |].
    + unfold mirrored. change (write_through _) with (write_through s2). by rewrite Hwt.
    + by rewrite Hss2.
Qed.

(** Every arena slot holds [bs] rows. *)
Definition arena_shape (bs : Z) s : Prop :=
  Forall (λ blk : block, Z.of_nat (length blk) = bs) (gpu_k s) ∧
  Forall (λ blk : block, Z.of_nat (length blk) = bs) (gpu_v s).

Lemma arena_shape_lookup bs s slot kb vb :
  arena_shape bs s → 0 ≤ slot → arena s slot = Some (kb, vb) →
  Z.of_nat (length kb) = bs ∧ Z.of_nat (length vb) = bs.
Proof.
  intros [Hk Hv] Hs Ha. unfold arena in Ha. rewrite !list_get_lookup in Ha by done.
  destruct (gpu_k s !! Z.to_nat slot) eqn:H1; [|done].
  destruct (gpu_v s !! Z.to_nat slot) eqn:H2; [|done]. simplify_eq/=.
  rewrite Forall_lookup in Hk, Hv. eauto.
Qed.

(** The row a decode step writes. *)
Definition put_row (off : Z) (x : row) (blk : block) : block := <[Z.to_nat off := x]> blk.

(** The condition under which the block that becomes full can be finished. *)
Definition can_finish s b (bs off : Z) : Prop :=
  off = bs - 1 →
  BlockSummaryStore.wf (summary_store s) ∧
  BlockSummaryStore.in_range (summary_store s) (lidx s) b ∧
  BlockSummaryStore.block_size (summary_store s) = bs ∧
  (write_through s = true → (0 < cpu_free_count s)%nat).

(** What the live slot held before the row is written: its own rows if the
    block was in the arena. *)
Lemma room_made_old sid s s1 k slot ev kv :
  tm_inv sid None [] s → room_made sid [] s s1 k slot ev →
  od_get k (backing s) = None → stored s k = Some kv → arena s1 slot = Some kv.
Proof.
  intros Hinv Hrm Hnb Hst. unfold stored in Hst.
  destruct (od_get k (resident_map s)) as [sl|] eqn:Hr; [|by rewrite Hnb in Hst].
  assert (sl = slot) as ->.
  { destruct (rm_add _ _ _ _ _ _ _ Hrm); unfold resident_map in *; congruence. }
  unfold arena in *. by destruct (rm_arena _ _ _ _ _ _ _ Hrm) as [-> ->].
Qed.

(** The end of a decode step that fills its block. *)
Lemma wp_finish_block sid s k slot kb vb (Q : unit → TM → Prop) :
  tm_inv sid None [] s → od_get k (resident_map s) = Some slot → arena s slot = Some (kb, vb) →
  od_get k (backing s) = None → summary_ready s k.2 kb →
  (write_through s = true → (0 < cpu_free_count s)%nat) →
  (∀ s', tm_inv sid None [] s' → (∀ k', stored s' k' = stored s k') →
     slot_map s' = slot_map s → mirrored s' k →
     (∀ k' c, od_get k' (host_slots s) = Some c → od_get k' (host_slots s') = Some c) →
     BlockSummaryStore.lookup_summary (summary_store s') (lidx s) k.2 = Some (digest_of s kb) →
     Q tt s') →
  wp (on_summary (BlockSummaryStore.on_block_filled ops (lidx s) k.2 kb) ;;
      bump (bump_block_filled 1) ;;
      s <- get ;;
      if enable_write_through (cfg s)
      then _mirror_to_host k.1 k.2 (QuestStreamPool.ArenaSlot slot) (QuestStreamPool.ArenaSlot slot)
      else ret tt) s Q.
Proof.
  intros Hinv Hslot Har Hnb Hsum Hfree HQ. wp_step. apply wp_summary; [done|]. intros ss Hss.
  unfold bump. do 3 wp_step. apply wp_get. simpl.
  apply (updated_lookup _ _ _ _ (proj1 (proj2 Hsum))) in Hss.
  set (s1 := with_stats _ _). change (enable_write_through (cfg s)) with (write_through s).
  assert (tm_inv sid None [] s1) as Hinv1 by by apply tm_inv_stats, tm_inv_summary.
  destruct (write_through s) eqn:Hwt.
  - apply (wp_mirror_resident sid s1 k slot (kb, vb)); try done.
    + unfold backing in Hnb. by rewrite Hwt in Hnb.
    + by apply Hfree.
    + intros s2 Q2 Hgk Hgv HQ2. unfold read_src. wp_step. wp_step.
      assert (arena s2 slot = Some (kb, vb)) as Har2.
      { unfold arena in *. by rewrite Hgk, Hgv. }
      eapply wp_read_arena; [exact Har2|]. wp_step. wp_step. wp_step.
      eapply wp_read_arena; [exact Har2|]. by wp_steps.
    + intros s2 c fr Hinv2 Hbk Hst Hho _. apply HQ; [done|done|by apply Hbk| | |].
      * unfold mirrored. rewrite (bk_wt _ _ _ _ _ _ Hbk).
        change (write_through s1) with (write_through s). by rewrite Hwt.
      * intros k' c' Hk'. pose proof (bk_backing _ _ _ _ _ _ Hbk) as Hb. unfold backing in Hb.
        rewrite (bk_wt _ _ _ _ _ _ Hbk) in Hb. change (write_through s1) with (write_through s) in Hb.
        rewrite Hwt in Hb. rewrite Hb, od_get_app. change (host_slots s1) with (host_slots s). by rewrite Hk'.
      * by destruct (bk_frame _ _ _ _ _ _ Hbk) as (_ & _ & -> & _).
  - wp_step. apply HQ; try done. unfold mirrored.
    change (write_through s1) with (write_through s). by rewrite Hwt.
Qed.

(** What a decode step leaves, the old content of the live block being [kb], [vb]. *)
Record appended sid (b off bs : Z) (kt vt : row) (kb vb : block) s s' : Prop := {
  ap_inv : tm_inv sid None [] s';
  ap_stored : writes_to s s' (sid, b) (put_row off kt kb, put_row off vt vb);
  ap_old : ∀ kv, stored s (sid, b) = Some kv → kv = (kb, vb);
  ap_len : Z.of_nat (length kb) = bs ∧ Z.of_nat (length vb) = bs;
  ap_resident : is_resident sid b s' = true;
  ap_back : off ≠ bs - 1 → od_get (sid, b) (backing s') = None;
  ap_host : write_through s = true →
    ∀ k c, od_get k (host_slots s) = Some c → od_get k (host_slots s') = Some c;
  ap_done : off = bs - 1 → mirrored s' (sid, b) ∧
    BlockSummaryStore.lookup_summary (summary_store s') (lidx s) b = Some (digest_of s (put_row off kt kb))
}.

Lemma wp_append_decode_token sid n kt vt bs s :
  let b := n / bs in
  let off := n `mod` bs in
  0 < bs → tm_inv sid None [] s → arena_shape bs s → block_in_range s b →
  od_get (sid, b) (backing s) = None → can_write s (sid, b) → can_finish s b bs off →
  wp (append_decode_token_kvshare ops sid n kt vt bs) s (λ _ s', ∃ kb vb, appended sid b off bs kt vt kb vb s s').
Proof.
  intros b off Hbs Hinv Hshape Hb Hnb Hcw Hfin.
  pose proof (Z.mod_pos_bound n bs Hbs) as Hoff. fold off in Hoff.
  unfold append_decode_token_kvshare. rewrite bool_decide_false by lia. fold b off.
  unfold layer. wp_step. wp_step. change (layer_idx (cfg s)) with (lidx s).
  apply (wp_write_room sid s); [done..|]. intros slot ev s1 Hrm Hv.
  destruct (room_made_slot _ _ _ _ _ _ _ (ti_slots _ _ _ _ Hinv) Hrm) as [Hsl1 _].
  assert (∃ kb vb, arena s1 slot = Some (kb, vb)) as (kb & vb & Hold).
  { pose proof (rm_inv _ _ _ _ _ _ _ Hrm) as Hinv1.
    destruct (arena_in_range _ _ _ _ slot Hinv1) as [[kb vb] ?]; [|eauto].
    rewrite <-(ti_gpu_k _ _ _ _ Hinv1). done. }
  destruct (arena_shape_lookup bs s1 slot kb vb) as [Hlk Hlv]; [|lia|done|].
  { unfold arena_shape. by destruct (rm_arena _ _ _ _ _ _ _ Hrm) as [-> ->]. }
  wp_step. eapply wp_read_arena; [exact Hold|]. simpl. wp_step.
  eapply wp_of_option; [by rewrite list_set_inb by lia|]. wp_step.
  eapply wp_of_option; [by rewrite list_set_inb by lia|].
  fold (put_row off kt kb) (put_row off vt vb). apply wp_bind_assoc. wp_step.
  apply (wp_fill_slot sid s s1 (sid, b) slot ev); [done..|]. intros s2 Hw Hslot Har.
  assert (∀ kv, stored s (sid, b) = Some kv → kv = (kb, vb)) as Hkv.
  { intros kv Hst. pose proof (room_made_old _ _ _ _ _ _ _ Hinv Hrm Hnb Hst). congruence. }
  pose proof (wr_frame _ _ _ _ _ _ Hw) as (Hcfg & _ & Hss & _).
  assert (lidx s2 = lidx s) as Hl by (unfold lidx; by rewrite Hcfg).
  assert (write_through s2 = write_through s) as Hwt by (unfold write_through; by rewrite Hcfg).
  case_bool_decide as Hlast.
  - destruct (Hfin Hlast) as (Hswf & Hsr & Hsbs & Hsf). rewrite <-Hl.
    apply (wp_finish_block sid s2 (sid, b) slot (put_row off kt kb) (put_row off vt vb));
      [apply Hw|done|done|apply Hw| | |].
    + unfold summary_ready, put_row. rewrite Hss, Hl, length_insert. split_and!; [done..|lia].
    + intros H. rewrite Hwt in H. rewrite (wr_free _ _ _ _ _ _ Hw), H. specialize (Hsf H). lia.
    + intros s3 Hinv3 Hst Hsm Hmir Hho Hlook. exists kb, vb. split; try done.
      * intros k'. rewrite Hst. apply (wr_stored _ _ _ _ _ _ Hw).
      * apply is_resident_spec. unfold resident_map in *. rewrite Hsm. by exists slot.
      * intros H k c Hk. by apply Hho, (wr_host _ _ _ _ _ _ Hw).
      * intros _. split; [done|]. rewrite <-Hl. etrans; [exact Hlook|]. unfold digest_of. by rewrite Hss.
  - wp_step. exists kb, vb. split; try done; try (intros; by apply Hw).
    apply is_resident_spec. by exists slot.
Qed.

(** C4: a decode step writes its token's row at [seq_len mod block_size] of the
    live block and changes no other row of any block; when the row completes the
    block, the digest of the whole block is registered and, under write-through,
    the block gets its CPU backup. *)
Theorem append_decode_token_correct sid n kt vt bs s :
  let b := n / bs in
  let off := n `mod` bs in
  0 < bs → tm_inv sid None [] s → arena_shape bs s → block_in_range s b →
  od_get (sid, b) (backing s) = None → can_write s (sid, b) → can_finish s b bs off →
  ∃ s' kb vb, append_decode_token_kvshare ops sid n kt vt bs s = (Ret tt, s') ∧
    tm_inv sid None [] s' ∧
    writes_to s s' (sid, b) (put_row off kt kb, put_row off vt vb) ∧
    (∀ kv, stored s (sid, b) = Some kv → kv = (kb, vb)) ∧
    Z.of_nat (length kb) = bs ∧ Z.of_nat (length vb) = bs ∧
    is_resident sid b s' = true ∧
    (off = bs - 1 → mirrored s' (sid, b) ∧
       BlockSummaryStore.lookup_summary (summary_store s') (lidx s) b =
         Some (digest_of s (put_row off kt kb))).
Proof.
  intros b off Hbs Hinv Hshape Hb Hnb Hcw Hfin.
  destruct (wp_run _ _ _ (wp_append_decode_token sid n kt vt bs s Hbs Hinv Hshape Hb Hnb Hcw Hfin))
    as ([] & s' & Hrun & kb & vb & [? ? ? [? ?] ? ? ? ?]).
  by exists s', kb, vb.
Qed.
End writes.
