(* ===== verification/QuestTierSteady.v ===== *)
(** * Quest backend: what no operation of a tier manager changes

    All layers share the summary store, the residency array and the CPU pool. Every
    operation of the manager of one layer, whether it returns or raises, keeps the
    shape of these objects and of the arena, and never touches the rows of another
    layer ([steady]). *)

From S2P Require Import Prelude OrderedDict QuestStore QuestTier QuestTierInv QuestTierWrite.

Open Scope Z_scope.

(** ** The shared objects *)
Section stores.
Context {row T : Type} (ops : tensor_ops row T).
Notation block := (list row).
(** [bs] rows per block; [L] is the layer that operates, started from [r0], [c0], [u0]. *)
Context (bs L : Z) (HL : 0 ≤ L).
Implicit Types (b slot : Z).

Definition has_rows (x : block) : Prop := Z.of_nat (length x) = bs.

Record res_steady (r0 r : BlockResidency.t) : Prop := {
  rs_wf : BlockResidency.wf r;
  rs_layers : BlockResidency.num_layers r = BlockResidency.num_layers r0;
  rs_blocks : BlockResidency.max_blocks r = BlockResidency.max_blocks r0;
  rs_rows : ∀ l b, 0 ≤ l → l ≠ L → BlockResidency.peek r l b = BlockResidency.peek r0 l b
}.

Lemma keeps_set_state r0 l b v : l = L → keeps_to (res_steady r0) (λ _, True) (BlockResidency.set_state l b v).
Proof.
  intros ->. unfold BlockResidency.set_state. eapply keeps_to_bind; [apply keeps_to_get|]. intros r Hr.
  eapply keeps_to_bind; [apply keeps_to_of_option|]. intros r' Hr'. apply keeps_to_put.
  unfold BlockResidency.poke in Hr'. destruct (grid_set _ _ _ _) as [g|] eqn:Hg; [|done]. simplify_eq/=.
  destruct Hr as [Hwf Hnl Hmb Hrows].
  destruct (grid_set_other _ _ _ _ _ _ _ HL Hg Hwf) as [Hwf' Hother]. split; try done.
  intros l b' Hl Hne. rewrite <-Hrows by done. by apply Hother.
Qed.
Lemma keeps_state r0 l b : keeps_to (res_steady r0) (λ _, True) (BlockResidency.state l b).
Proof.
  unfold BlockResidency.state. eapply keeps_to_bind; [apply keeps_to_get|]. intros r Hr.
  eapply keeps_to_mono; [apply keeps_to_of_option|done].
Qed.
Hint Resolve keeps_set_state keeps_state : keeps_to.

Lemma keeps_residency_ops r0 l b : l = L →
  keeps_to (res_steady r0) (λ _, True) (BlockResidency.mark_on_gpu l b) ∧
  keeps_to (res_steady r0) (λ _, True) (BlockResidency.begin_evict l b) ∧
  keeps_to (res_steady r0) (λ _, True) (BlockResidency.complete_evict l b) ∧
  keeps_to (res_steady r0) (λ _, True) (BlockResidency.begin_load l b) ∧
  keeps_to (res_steady r0) (λ _, True) (BlockResidency.complete_load l b).
Proof.
  intros ->. unfold BlockResidency.mark_on_gpu, BlockResidency.begin_evict, BlockResidency.complete_evict,
    BlockResidency.begin_load, BlockResidency.complete_load.
  split_and!; keeps_to_auto.
Qed.

Record cpu_steady (c0 c : CpuKvBackingStore.t block) : Prop := {
  cs_wf : CpuKvBackingStore.wf c;
  cs_layers : CpuKvBackingStore.num_layers c = CpuKvBackingStore.num_layers c0;
  cs_blocks : CpuKvBackingStore.blocks_per_layer c = CpuKvBackingStore.blocks_per_layer c0;
  cs_k : Forall (Forall has_rows) (CpuKvBackingStore.k c);
  cs_v : Forall (Forall has_rows) (CpuKvBackingStore.v c);
  cs_free : ∀ l, 0 ≤ l → l ≠ L → CpuKvBackingStore.free_of c l = CpuKvBackingStore.free_of c0 l;
  cs_content : ∀ l slot, 0 ≤ l → l ≠ L → CpuKvBackingStore.content c l slot = CpuKvBackingStore.content c0 l slot
}.

Lemma cpu_steady_stats c0 c f : cpu_steady c0 c → cpu_steady c0 (CpuKvBackingStore.set_stats f c).
Proof. intros []. by split. Qed.

Lemma cpu_steady_free c0 c fl (x : list Z) :
  cpu_steady c0 c → list_set (CpuKvBackingStore.free_lists c) L x = Some fl →
  cpu_steady c0 (CpuKvBackingStore.set_free fl c).
Proof.
  intros [(? & ? & Hlen) ? ? ? ? Hfree ?] (a & Ha & -> & Heq)%list_set_Some. rewrite Heq in * by done.
  split; try done.
  - split_and!; [done..|]. simpl. by rewrite length_insert.
  - intros l Hl Hne. rewrite <-Hfree by done. unfold CpuKvBackingStore.free_of. simpl.
    rewrite !list_get_lookup by done. by rewrite list_lookup_insert_ne by lia.
Qed.

Lemma keeps_alloc c0 l : l = L → keeps_to (cpu_steady c0) (λ _, True) (CpuKvBackingStore.alloc l).
Proof.
  intros -> c Hc. unfold CpuKvBackingStore.alloc, bind, get, of_option, raise, ret, modify.
  destruct (list_get (CpuKvBackingStore.free_lists c) L) as [fr|]; [|done].
  destruct (list_pop fr) as [[slot rest]|]; [|done].
  destruct (list_set (CpuKvBackingStore.free_lists c) L rest) as [fl|] eqn:Hfl; [|done].
  split; [|done]. by eapply cpu_steady_stats, cpu_steady_free.
Qed.
Lemma keeps_cpu_free c0 l slot : l = L → keeps_to (cpu_steady c0) (λ _, True) (CpuKvBackingStore.free l slot).
Proof.
  intros -> c Hc. unfold CpuKvBackingStore.free, bind, get, of_option, raise, ret, modify.
  destruct (list_get (CpuKvBackingStore.free_lists c) L) as [fr|]; [|done].
  destruct (list_set (CpuKvBackingStore.free_lists c) L (fr ++ [slot])) as [fl|] eqn:Hfl; [|done].
  split; [|done]. by eapply cpu_steady_stats, cpu_steady_free.
Qed.

Lemma keeps_store_block c0 l slot kb vb :
  l = L → has_rows kb → has_rows vb → keeps_to (cpu_steady c0) (λ _, True) (CpuKvBackingStore.store_block l slot kb vb).
Proof.
  intros -> Hk Hv. unfold CpuKvBackingStore.store_block, CpuKvBackingStore.write_k, CpuKvBackingStore.write_v.
  eapply keeps_to_bind; [|intros _ _; eapply keeps_to_bind; [|intros _ _; apply keeps_to_modify; intros; by apply cpu_steady_stats]].
  all: eapply keeps_to_bind; [apply keeps_to_get|]; intros c [(Hwk & Hwv & Hlen) Hnl Hbl Hck Hcv Hf Hco].
  all: eapply keeps_to_bind; [apply keeps_to_of_option|]; intros pl Hpl; apply keeps_to_put.
  - destruct (grid_set_other _ _ _ _ _ _ _ HL Hpl Hwk) as [Hwk' Hother]. split; try done.
    + simpl. by apply (grid_set_Forall _ _ _ _ _ _ Hpl).
    + intros l sl Hl Hne. rewrite <-Hco by done. unfold CpuKvBackingStore.content. simpl. by rewrite Hother.
  - destruct (grid_set_other _ _ _ _ _ _ _ HL Hpl Hwv) as [Hwv' Hother]. split; try done.
    + simpl. by apply (grid_set_Forall _ _ _ _ _ _ Hpl).
    + intros l sl Hl Hne. rewrite <-Hco by done. unfold CpuKvBackingStore.content. simpl. by rewrite Hother.
Qed.
Lemma keeps_load_block c0 l slot :
  keeps_to (cpu_steady c0) (λ kv, has_rows kv.1 ∧ has_rows kv.2) (CpuKvBackingStore.load_block l slot).
Proof.
  unfold CpuKvBackingStore.load_block, CpuKvBackingStore.read_k, CpuKvBackingStore.read_v.
  eapply (keeps_to_bind _ has_rows); [|intros kb Hk; eapply (keeps_to_bind _ has_rows); [|intros vb Hv]].
  1-2: eapply keeps_to_bind; [apply keeps_to_get|]; intros c []; eapply keeps_to_mono; [apply keeps_to_of_option|];
    intros x Hx; apply (grid_get_Forall has_rows _ _ _ _ Hx); assumption.
  eapply keeps_to_bind; [apply keeps_to_modify; intros; by apply cpu_steady_stats|]. intros _ _. by apply keeps_to_ret.
Qed.

Record sum_steady (u0 u : BlockSummaryStore.t T) : Prop := {
  us_wf : BlockSummaryStore.wf u;
  us_layers : BlockSummaryStore.num_layers u = BlockSummaryStore.num_layers u0;
  us_blocks : BlockSummaryStore.max_blocks u = BlockSummaryStore.max_blocks u0;
  us_size : BlockSummaryStore.block_size u = BlockSummaryStore.block_size u0;
  us_rows : ∀ l b, 0 ≤ l → l ≠ L → BlockSummaryStore.lookup_summary u l b = BlockSummaryStore.lookup_summary u0 l b
}.
Lemma keeps_on_block_filled u0 l b kb :
  l = L → keeps_to (sum_steady u0) (λ _, True) (BlockSummaryStore.on_block_filled ops l b kb).
Proof.
  intros ->. unfold BlockSummaryStore.on_block_filled. eapply keeps_to_bind; [apply keeps_to_get|]. intros u Hu.
  case_bool_decide; [apply keeps_to_raise|]. eapply keeps_to_bind; [apply keeps_to_of_option|]. intros g Hg.
  apply keeps_to_put. destruct Hu as [Hwf ? ? ? Hrows].
  destruct (grid_set_other _ _ _ _ _ _ _ HL Hg Hwf) as [Hwf' Hother]. split; try done.
  intros l' b' Hl Hne. rewrite <-Hrows by done. by apply Hother.
Qed.
End stores.

(** ** The manager *)
Section steady.
Context {row T : Type} (ops : tensor_ops row T).
Notation block := (list row).
Notation TM := (TierManager.t row T).
Import TierManager.
(** Only sequences of [tr] are ever marked as trimmed. *)
Context (bs : Z) (tr : gset Z) (s0 : TM).
Context (HL : 0 ≤ lidx s0).
Implicit Types (s : TM) (b slot : Z).

Record steady s : Prop := {
  sd_cfg : cfg s = cfg s0;
  sd_pool : stream_pool s = None;
  sd_active : active_seqs s = active_seqs s0;
  sd_trimmed : trimmed s ⊆ tr;
  sd_cap : LRUSlotMap.capacity (slot_map s) = LRUSlotMap.capacity (slot_map s0);
  sd_k : Forall (has_rows bs) (gpu_k s);
  sd_v : Forall (has_rows bs) (gpu_v s);
  sd_gk : length (gpu_k s) = length (gpu_k s0);
  sd_gv : length (gpu_v s) = length (gpu_v s0);
  sd_res : res_steady (lidx s0) (residency s0) (residency s);
  sd_cpu : cpu_steady bs (lidx s0) (cpu_store s0) (cpu_store s);
  sd_sum : sum_steady (lidx s0) (summary_store s0) (summary_store s)
}.
Notation stays := (keeps_to steady (λ _, True)).

Lemma steady_layer s : steady s → lidx s = lidx s0.
Proof. intros [Hc]. unfold lidx. by rewrite Hc. Qed.

Lemma stays_layer : keeps_to steady (λ l, l = lidx s0) layer.
Proof. apply keeps_to_gets. intros s Hs. by apply steady_layer. Qed.
Lemma stays_zoom_res {A} (Q : A → Prop) m :
  keeps_to (res_steady (lidx s0) (residency s0)) Q m → keeps_to steady Q (on_residency m).
Proof. intros Hm. eapply keeps_to_zoom; [exact Hm|by intros s []|]. intros s r [] ?. by split. Qed.
Lemma stays_zoom_cpu {A} (Q : A → Prop) m :
  keeps_to (cpu_steady bs (lidx s0) (cpu_store s0)) Q m → keeps_to steady Q (on_cpu_store m).
Proof. intros Hm. eapply keeps_to_zoom; [exact Hm|by intros s []|]. intros s r [] ?. by split. Qed.
Lemma stays_summary l b kb : l = lidx s0 → stays (on_summary (BlockSummaryStore.on_block_filled ops l b kb)).
Proof.
  intros Hl. eapply keeps_to_zoom; [by apply keeps_on_block_filled|by intros s []|]. intros s r [] ?. by split.
Qed.
Lemma stays_slots {A} (m : M LRUSlotMap.t A) :
  (∀ cap, keeps (λ sm, LRUSlotMap.capacity sm = cap) m) → stays (on_slot_map m).
Proof.
  intros Hm s Hs. split; [|done]. unfold on_slot_map, zoom. specialize (Hm _ (slot_map s) eq_refl).
  destruct (m (slot_map s)). simpl in *. destruct Hs. split; simpl; try done. congruence.
Qed.
Lemma slots_get k cap : keeps (λ sm, LRUSlotMap.capacity sm = cap) (LRUSlotMap.get k).
Proof. unfold LRUSlotMap.get. repeat (apply keeps_bind; [|intros ?]); eauto using keeps_modify with keeps. Qed.
Lemma slots_add k p cap : keeps (λ sm, LRUSlotMap.capacity sm = cap) (LRUSlotMap.add k p).
Proof.
  unfold LRUSlotMap.add. keeps_auto; try apply slots_get; try by apply keeps_modify.
Qed.
Lemma slots_free k cap : keeps (λ sm, LRUSlotMap.capacity sm = cap) (LRUSlotMap.free k).
Proof. unfold LRUSlotMap.free. keeps_auto; by apply keeps_modify. Qed.

Lemma stays_residency l b : l = lidx s0 →
  stays (on_residency (BlockResidency.mark_on_gpu l b)) ∧ stays (on_residency (BlockResidency.begin_evict l b)) ∧
  stays (on_residency (BlockResidency.complete_evict l b)) ∧ stays (on_residency (BlockResidency.begin_load l b)) ∧
  stays (on_residency (BlockResidency.complete_load l b)).
Proof.
  intros Hl. destruct (keeps_residency_ops (lidx s0) HL (residency s0) l b Hl) as (? & ? & ? & ? & ?).
  split_and!; by apply stays_zoom_res.
Qed.
Lemma stays_alloc l : l = lidx s0 → stays (on_cpu_store (CpuKvBackingStore.alloc l)).
Proof. intros. by apply stays_zoom_cpu, keeps_alloc. Qed.
Lemma stays_free l c : l = lidx s0 → stays (on_cpu_store (CpuKvBackingStore.free l c)).
Proof. intros. by apply stays_zoom_cpu, keeps_cpu_free. Qed.
Lemma stays_store l c kb vb : l = lidx s0 → has_rows bs kb → has_rows bs vb →
  stays (on_cpu_store (CpuKvBackingStore.store_block l c kb vb)).
Proof. intros. by apply stays_zoom_cpu, keeps_store_block. Qed.
Lemma stays_load l c :
  keeps_to steady (λ kv, has_rows bs kv.1 ∧ has_rows bs kv.2) (on_cpu_store (CpuKvBackingStore.load_block l c)).
Proof. apply stays_zoom_cpu, keeps_load_block. Qed.
Lemma stays_bump f : stays (bump f).
Proof. apply keeps_to_modify. intros s []. by split. Qed.
Lemma stays_set_cpu_slot k c : stays (set_cpu_slot k c).
Proof. apply keeps_to_modify. intros s []. by split. Qed.

Lemma stays_read_arena slot : keeps_to steady (λ kv, has_rows bs kv.1 ∧ has_rows bs kv.2) (read_arena slot).
Proof.
  unfold read_arena. eapply keeps_to_bind; [apply keeps_to_get|]. intros s [].
  eapply keeps_to_bind; [apply keeps_to_of_option|]. intros kb Hk.
  eapply keeps_to_bind; [apply keeps_to_of_option|]. intros vb Hv. apply keeps_to_ret.
  unfold list_get in *. destruct (py_index _ slot) as [i|]; [|done].
  destruct (py_index (Z.of_nat (length (gpu_v s))) slot) as [j|]; [|done].
  split; [by apply (Forall_lookup_1 _ (gpu_k s) i)|by apply (Forall_lookup_1 _ (gpu_v s) j)].
Qed.
Lemma stays_copy slot kb vb : has_rows bs kb → has_rows bs vb → stays (copy_into_arena slot kb vb).
Proof.
  intros Hk Hv. unfold copy_into_arena. eapply keeps_to_bind; [apply keeps_to_get|]. intros s Hs.
  eapply keeps_to_bind; [apply keeps_to_of_option|]. intros g (a & Ha & -> & _)%list_set_Some.
  eapply keeps_to_bind; [apply keeps_to_put|intros _ _].
  { destruct Hs. split; simpl; try done; [by apply Forall_insert|by rewrite length_insert]. }
  eapply keeps_to_bind; [apply keeps_to_get|]. intros s1 Hs1.
  eapply keeps_to_bind; [apply keeps_to_of_option|]. intros g' (a' & Ha' & -> & _)%list_set_Some. apply keeps_to_put.
  destruct Hs1. split; simpl; try done; [by apply Forall_insert|by rewrite length_insert].
Qed.

(** The copies of a stream pool do not occur. *)
Ltac stays_auto :=
  keeps_to_auto; repeat match goal with H : has_rows _ _ ∧ _ |- _ => destruct H end; subst;
  try match goal with Hs : steady ?a, H : stream_pool ?a = Some _ |- _ => by rewrite (sd_pool _ Hs) in H end.
Hint Resolve stays_bump stays_set_cpu_slot stays_copy stays_alloc stays_free stays_store stays_load stays_read_arena
  stays_summary stays_layer : keeps_to.
Hint Extern 1 (keeps_to _ _ (on_residency _)) => (by apply stays_residency) : keeps_to.
Hint Extern 1 (keeps_to _ _ (on_slot_map _)) =>
  (apply stays_slots; intros; first [apply slots_get|apply slots_add|apply slots_free]) : keeps_to.

Lemma stays_drop sid b slot : stays (_drop_gpu_slot sid b slot).
Proof. unfold _drop_gpu_slot. stays_auto. Qed.
Lemma stays_spill sid b slot : stays (_spill_to_cpu sid b slot).
Proof. unfold _spill_to_cpu. repeat stays_auto. Qed.
Hint Resolve stays_drop stays_spill : keeps_to.
Lemma stays_hook ev slot : stays (spill_hook ev slot).
Proof. unfold spill_hook. stays_auto. Qed.
Hint Resolve stays_hook : keeps_to.

Definition src_rows (src : QuestStreamPool.tensor_src block) : Prop :=
  match src with QuestStreamPool.Tensor b => has_rows bs b | QuestStreamPool.ArenaSlot _ => True end.

Lemma stays_read_src sk sv :
  src_rows sk → src_rows sv → keeps_to steady (λ kv, has_rows bs kv.1 ∧ has_rows bs kv.2) (read_src sk sv).
Proof.
  intros Hk Hv. unfold read_src. eapply (keeps_to_bind _ (has_rows bs)).
  { destruct sk; [|by apply keeps_to_ret]. eapply keeps_to_bind; [apply stays_read_arena|].
    intros ? []. by apply keeps_to_ret. }
  intros kb Hkb. eapply (keeps_to_bind _ (has_rows bs)).
  { destruct sv; [|by apply keeps_to_ret]. eapply keeps_to_bind; [apply stays_read_arena|].
    intros ? []. by apply keeps_to_ret. }
  intros vb Hvb. by apply keeps_to_ret.
Qed.
Hint Resolve stays_read_src : keeps_to.

Lemma stays_with (f : TM → TM) :
  (∀ s, cfg (f s) = cfg s ∧ stream_pool (f s) = stream_pool s ∧ active_seqs (f s) = active_seqs s ∧
     (trimmed s ⊆ tr → trimmed (f s) ⊆ tr) ∧
     LRUSlotMap.capacity (slot_map (f s)) = LRUSlotMap.capacity (slot_map s) ∧
     gpu_k (f s) = gpu_k s ∧ gpu_v (f s) = gpu_v s ∧ residency (f s) = residency s ∧
     cpu_store (f s) = cpu_store s ∧ summary_store (f s) = summary_store s) → stays (modify f).
Proof.
  intros Hf. apply keeps_to_modify. intros s []. destruct (Hf s) as (E1 & E2 & E9 & E10 & E3 & E4 & E5 & E6 & E7 & E8).
  split; rewrite ?E1, ?E2, ?E3, ?E4, ?E5, ?E6, ?E7, ?E8, ?E9; auto.
Qed.
Hint Extern 2 (keeps_to _ _ (modify _)) => (apply stays_with; intros; split_and!; (done || set_solver)) : keeps_to.

Lemma stays_mirror sid b sk sv : src_rows sk → src_rows sv → stays (_mirror_to_host sid b sk sv).
Proof. intros Hk Hv. unfold _mirror_to_host. repeat stays_auto. Qed.
Hint Resolve stays_mirror : keeps_to.

Lemma stays_spill_prompt sid b src :
  keeps_to steady (λ kv, has_rows bs kv.1 ∧ has_rows bs kv.2) src → stays (spill_prompt_block sid b src).
Proof.
  intros Hsrc. unfold spill_prompt_block. stays_auto.
  - repeat stays_auto.
  - eapply keeps_to_bind; [apply (keeps_to_try _ (λ _, True)); [by apply stays_alloc|intros; apply keeps_to_raise]|].
    intros. repeat stays_auto.
Qed.
Lemma stays_keep_prompt sid b src count :
  keeps_to steady (λ kv, has_rows bs kv.1 ∧ has_rows bs kv.2) src → stays (keep_prompt_block sid b src count).
Proof. intros Hsrc. unfold keep_prompt_block. repeat stays_auto. Qed.
Hint Resolve stays_spill_prompt stays_keep_prompt : keeps_to.

Lemma slice_rows (l : list row) lo n :
  0 < bs → 0 ≤ lo → lo + bs ≤ Z.of_nat (length l) → n = lo + bs → has_rows bs (slice l lo n).
Proof. intros ? ? ? ->. unfold has_rows, slice. rewrite length_take, length_drop. lia. Qed.
Lemma inserts_rows (l x : list row) i : has_rows bs l → has_rows bs (list_inserts i x l).
Proof. unfold has_rows. by rewrite length_inserts. Qed.

(** The loop of [prefill_ingest_kvshare] over the full blocks *)
Definition ingest_blocks sid (L lo n : Z) (ks vs : list row) : M TM unit :=
  for_each (py_range n) (λ b,
    on_summary (BlockSummaryStore.on_block_filled ops L b (slice ks (b * bs) (b * bs + bs))) ;;
    if bool_decide (lo ≤ b)
    then keep_prompt_block sid b (ret (slice ks (b * bs) (b * bs + bs), slice vs (b * bs) (b * bs + bs))) true
    else spill_prompt_block sid b (ret (slice ks (b * bs) (b * bs + bs), slice vs (b * bs) (b * bs + bs)))).

Lemma stays_ingest_blocks sid L lo n ks vs :
  L = lidx s0 → 0 < bs → n * bs ≤ Z.of_nat (length ks) → n * bs ≤ Z.of_nat (length vs) →
  stays (ingest_blocks sid L lo n ks vs).
Proof.
  intros -> Hbs Hk Hv. apply keeps_to_for_each. intros b Hb. apply elem_of_seqZ in Hb.
  assert (keeps_to steady (λ kv, has_rows bs kv.1 ∧ has_rows bs kv.2)
    (ret (slice ks (b * bs) (b * bs + bs), slice vs (b * bs) (b * bs + bs)) : M TM _)).
  { apply keeps_to_ret. simpl. split; apply slice_rows; nia. }
  stays_auto.
Qed.

Lemma stays_prefill_ingest sid n ks vs plen :
  sid ∈ tr → 0 < bs → n * bs ≤ Z.of_nat (length ks) → n * bs ≤ Z.of_nat (length vs) →
  stays (prefill_ingest_kvshare ops sid n ks vs bs plen).
Proof.
  intros Htr Hbs Hk Hv. unfold prefill_ingest_kvshare. stays_auto.
  apply (keeps_to_bind _ (λ _, True)); [by apply stays_ingest_blocks|intros _ _].
  stays_auto. eapply keeps_to_bind; [apply stays_copy; by apply inserts_rows|]. intros. stays_auto.
Qed.

Lemma stays_append sid n kt vt : stays (append_decode_token_kvshare ops sid n kt vt bs).
Proof.
  assert (∀ (l l' : block) i x, has_rows bs l → list_set l i x = Some l' → has_rows bs l') as Hset.
  { intros l l' i x Hl (a & _ & -> & _)%list_set_Some. unfold has_rows. by rewrite length_insert. }
  unfold append_decode_token_kvshare. repeat stays_auto.
  eapply keeps_to_bind; [apply stays_copy; (eapply Hset; [|eassumption]; assumption)|]. intros. repeat stays_auto.
Qed.

Lemma stays_release proj upd k :
  (∀ d s, cfg (upd d s) = cfg s ∧ stream_pool (upd d s) = stream_pool s ∧ active_seqs (upd d s) = active_seqs s ∧
     (trimmed s ⊆ tr → trimmed (upd d s) ⊆ tr) ∧
     LRUSlotMap.capacity (slot_map (upd d s)) = LRUSlotMap.capacity (slot_map s) ∧
     gpu_k (upd d s) = gpu_k s ∧ gpu_v (upd d s) = gpu_v s ∧ residency (upd d s) = residency s ∧
     cpu_store (upd d s) = cpu_store s ∧ summary_store (upd d s) = summary_store s) →
  stays (release_cpu_slot proj upd k).
Proof.
  intros Hupd. unfold release_cpu_slot. stays_auto.
Qed.
Hint Extern 1 (keeps_to _ _ (release_cpu_slot _ _ _)) => (by apply stays_release) : keeps_to.

Lemma stays_free_request sid : stays (free_request sid).
Proof.
  unfold free_request. stays_auto. apply (keeps_to_bind _ (λ _, True)); [stays_auto|intros _ _].
  stays_auto. apply (keeps_to_bind _ (λ _, True)); [stays_auto|intros _ _].
  stays_auto. apply (keeps_to_bind _ (λ _, True)); [stays_auto|intros _ _]. stays_auto.
Qed.

Lemma stays_touch sid ids keep : stays (_touch_resident sid ids keep).
Proof. unfold _touch_resident. apply (keeps_to_bind _ (λ _, True)); [|intros _ _]; stays_auto. Qed.

Lemma stays_take k : stays (take_cpu_slot k).
Proof.
  unfold take_cpu_slot. stays_auto; (eapply keeps_to_mono; [apply keeps_to_of_option|done]).
Qed.
Hint Resolve stays_touch stays_take : keeps_to.

Lemma stays_ensure_one sid b : stays (_ensure_one_sync sid b).
Proof. unfold _ensure_one_sync. repeat stays_auto. Qed.
Hint Resolve stays_ensure_one : keeps_to.

Lemma stays_ensure sid ids keep : keeps_to steady (λ ev, ev = None) (ensure_resident sid ids keep).
Proof.
  unfold ensure_resident, _timed_ensure_sync. stays_auto.
  all: apply (keeps_to_bind _ (λ _, True)); [|intros; first [by apply keeps_to_ret|repeat stays_auto]].
  all: repeat stays_auto.
Qed.
Lemma stays_slot sid b : stays (logical_to_slot sid b).
Proof. unfold logical_to_slot. stays_auto. Qed.
Lemma stays_record step sid ids : stays (record_selected step sid ids).
Proof.
  unfold record_selected. stays_auto. apply keeps_to_put. destruct H. by split.
Qed.
End steady.
