(* ===== verification/QuestTierPrefill.v ===== *)
(** * Quest backend: prefill hand-over and request teardown

    [trim_to_working_set] moves a prompt's full blocks from the engine's KV
    cache into the two tiers, [free_request] gives everything back. *)

From S2P Require Import Prelude OrderedDict QuestStore QuestTier QuestTierInv QuestTierProps QuestTierWrite.

Open Scope Z_scope.

Section prefill.
Context {row T : Type} (ops : tensor_ops row T).
Notation block := (list row).
Notation TM := (TierManager.t row T).
Notation key := LRUSlotMap.key.
Import TierManager.
Implicit Types (s : TM) (k : key) (sid b slot c L : Z).

Definition untracked s k : Prop :=
  od_get k (resident_map s) = None ∧ od_get k (backing s) = None.

(** Evaluating the source tensors of a prompt block changes nothing. *)
Definition yields (src : M TM (block * block)) (kv : block * block) : Prop :=
  ∀ s Q, Q kv s → wp src s Q.

(** From [ON_GPU] to [ON_CPU]. *)
Lemma wp_evict_residency s b L (Q : unit → TM → Prop) :
  L = lidx s →
  BlockResidency.wf (residency s) → block_in_range s b →
  BlockResidency.peek (residency s) (lidx s) b = Some BlockResidency.ON_GPU →
  (∀ r, BlockResidency.updated (residency s) r (lidx s) b BlockResidency.ON_CPU →
     Q tt (with_residency r s)) →
  wp (on_residency (BlockResidency.begin_evict L b) ;;
      on_residency (BlockResidency.complete_evict L b)) s Q.
Proof.
  intros -> Hwf Hb Hpk HQ. unfold on_residency. wp_steps.
  apply BlockResidency.wp_begin_evict; [done..|]. intros r1 Hr1. wp_steps.
  apply BlockResidency.wp_complete_evict;
    [apply Hr1|by apply (BlockResidency.updated_in_range _ _ _ _ _ _ _ Hr1)
    |by eapply BlockResidency.updated_peek|].
  intros r2 Hr2. apply HQ. by eapply BlockResidency.updated_trans.
Qed.

(** What ingesting one prompt block does. *)
Record ingested sid s s' k kv : Prop := {
  ig_inv : tm_inv sid None [] s';
  ig_frame : framed s s';
  ig_stored : writes_to s s' k kv;
  ig_cap : LRUSlotMap.capacity (slot_map s') = LRUSlotMap.capacity (slot_map s);
  ig_back : ∀ k', k' ≠ k → untracked s k' → untracked s' k';
  ig_range : ∀ b, block_in_range s' b ↔ block_in_range s b
}.

(** A CPU copy of an untracked block and its residency update. *)
Lemma backed_ingested sid s s1 k kv c fr r :
  tm_inv sid None [] s → k.1 = sid → block_in_range s k.2 → untracked s k →
  CpuKvBackingStore.free_of (cpu_store s) (lidx s) = Some (fr ++ [c]) →
  backed s s1 k kv c fr →
  BlockResidency.updated (residency s1) r (lidx s1) k.2 BlockResidency.ON_CPU →
  ingested sid s (with_residency r s1) k kv.
Proof.
  intros Hinv Hk1 Hk2 [Hnr Hnb] Hfr Hbk Hr. pose proof (tm_inv_open _ _ _ k Hinv) as Hop.
  pose proof (bk_inv _ _ _ _ _ _ _ Hop Hk1 Hk2 Hnb Hfr Hbk) as Hinv1.
  pose proof (bk_resident _ _ _ _ _ _ Hbk) as Hres.
  split.
  - apply (tm_inv_close sid [] s1 r k BlockResidency.ON_CPU); try done.
    + by apply (bk_range _ _ _ _ _ _ Hbk).
    + unfold expected_residency. rewrite Hres, Hnr, (bk_get _ _ _ _ _ _ Hnb Hbk).
      by rewrite decide_True.
    + rewrite Hres, Hnr. done.
  - apply (bk_frame _ _ _ _ _ _ Hbk).
  - intros k'. change (stored (with_residency r s1) k') with (stored s1 k').
    rewrite (bk_stored _ _ _ _ _ _ _ Hop Hk1 Hk2 Hnb Hfr Hbk). by rewrite Hnr.
  - simpl. by rewrite (bk_slots _ _ _ _ _ _ Hbk).
  - intros k' Hne [H1 H2]. split; [by rewrite <-H1, <-Hres|].
    change (backing (with_residency r s1)) with (backing s1).
    rewrite (bk_get _ _ _ _ _ _ Hnb Hbk). by rewrite decide_False.
  - intros b. rewrite <-(bk_range _ _ _ _ _ _ Hbk). unfold block_in_range.
    apply (BlockResidency.updated_in_range _ _ _ _ _ _ _ Hr).
Qed.

Lemma untracked_on_gpu sid s b :
  tm_inv sid None [] s → block_in_range s b → untracked s (sid, b) →
  BlockResidency.peek (residency s) (lidx s) b = Some BlockResidency.ON_GPU.
Proof.
  intros Hinv Hb [H1 H2]. rewrite (ti_res _ _ _ _ Hinv) by done.
  unfold expected_residency. by rewrite H1, H2.
Qed.

Lemma ingested_stats sid s s' k kv st :
  ingested sid s s' k kv → ingested sid s (with_stats st s') k kv.
Proof. intros []. split; try done. by apply tm_inv_stats. Qed.

(** A prompt block below the working set goes to the CPU. *)
Lemma wp_spill_prompt_block sid s b src kv (Q : unit → TM → Prop) :
  tm_inv sid None [] s → block_in_range s b → untracked s (sid, b) →
  (0 < cpu_free_count s)%nat → yields src kv →
  (∀ s', ingested sid s s' (sid, b) kv → slot_map s' = slot_map s →
     (cpu_free_count s' = cpu_free_count s - 1)%nat → Q tt s') →
  wp (spill_prompt_block sid b src) s Q.
Proof.
  intros Hinv Hb Hun Hfree Hsrc HQ. destruct kv as [kb vb].
  destruct (free_slot_available _ _ _ _ Hinv Hfree) as (fr & c & Hfr).
  assert (∀ s1 r, backed s s1 (sid, b) (kb, vb) c fr →
    BlockResidency.updated (residency s1) r (lidx s) b BlockResidency.ON_CPU →
    ingested sid s (with_residency r s1) (sid, b) (kb, vb) ∧
    slot_map s1 = slot_map s ∧ (cpu_free_count s1 = cpu_free_count s - 1)%nat) as Hend.
  { intros s1 r Hbk Hr. pose proof (bk_lidx _ _ _ _ _ _ Hbk) as Hl. split_and!.
    - eapply backed_ingested; try done. by rewrite Hl.
    - apply Hbk.
    - unfold cpu_free_count. rewrite Hl, (bk_free _ _ _ _ _ _ Hbk), Hfr, length_app. simpl. lia. }
  pose proof (untracked_on_gpu _ _ _ Hinv Hb Hun) as Hpk.
  unfold spill_prompt_block, layer. wp_step. wp_step. wp_step. wp_step.
  change (enable_write_through (cfg s)) with (write_through s).
  change (layer_idx (cfg s)) with (lidx s). destruct Hun as [Hnr Hnb].
  destruct (write_through s) eqn:Hwt.
  - wp_step. apply Hsrc. wp_step.
    apply (wp_mirror sid s (sid, b) (kb, vb) _ _ fr c); [by apply tm_inv_open|done| |done|..].
    { unfold backing in Hnb. by rewrite Hwt in Hnb. }
    { intros s1 Q1 _ _ HQ1. unfold read_src. by wp_steps. }
    intros s1 Hbk. pose proof (bk_lidx _ _ _ _ _ _ Hbk) as Hl.
    pose proof (bk_res _ _ _ _ _ _ Hbk) as Hr.
    apply wp_evict_residency; [done| | | |].
    + rewrite Hr. apply (ti_res_wf _ _ _ _ Hinv).
    + by apply (bk_range _ _ _ _ _ _ Hbk).
    + by rewrite Hr, Hl.
    + intros r Hr'. rewrite Hl in Hr'. destruct (Hend s1 r Hbk Hr') as (? & ? & ?). by apply HQ.
  - wp_step. apply wp_try_except.
    eapply (wp_alloc_store s c fr kb vb);
      [apply (ti_cpu_wf _ _ _ _ Hinv)|by eapply free_slot_in_range|done|].
    intros cs Hsh Hco Hf Hstore. wp_step. apply Hsrc. wp_step. apply Hstore; [done|done|].
    intros cs' Hsh' Hf' Hco'. unfold set_cpu_slot. wp_step. wp_step.
    set (s1 := with_cpu_slots _ _).
    assert (backed s s1 (sid, b) (kb, vb) c fr) as Hbk.
    { split; simpl; try done; [|by rewrite Hwt].
      unfold backing in *. change (write_through s1) with (write_through s).
      rewrite Hwt in *. apply od_set_keys_new. by apply od_get_None. }
    apply wp_bind_assoc. wp_step. apply wp_evict_residency; [done| |done|done|].
    + apply (ti_res_wf _ _ _ _ Hinv).
    + intros r Hr'. unfold bump. wp_step. destruct (Hend s1 r Hbk Hr') as (? & ? & ?).
      apply HQ; [by apply ingested_stats|done..].
Qed.

Lemma written_ingested sid s s' k kv ev :
  tm_inv sid None [] s → written sid s s' k kv ev → ev = None → ingested sid s s' k kv.
Proof.
  intros Hinv Hw ->. pose proof (wr_inv _ _ _ _ _ _ Hw) as Hinv'.
  destruct (wr_add _ _ _ _ _ _ Hw) as (slot & Hadd & _).
  split; try apply Hw.
  - by eapply LRUSlotMap.add_step_capacity.
  - intros k' Hne [H1 H2]. assert (¬ is_Some (stored s' k')) as Hn.
    { rewrite (wr_stored _ _ _ _ _ _ Hw), decide_False by done. unfold stored.
      rewrite H1, H2. by intros [? ?]. }
    rewrite (stored_tracked _ _ _ _ _ Hinv') in Hn. split; apply od_get_None; tauto.
Qed.

Lemma ingested_backed sid s s1 s' k kv c fr :
  ingested sid s s1 k kv → tm_inv sid None [] s' → backed s1 s' k kv c fr →
  od_get k (backing s1) = None → (∀ k', stored s' k' = stored s1 k') → ingested sid s s' k kv.
Proof.
  intros [? Hf Hst Hcap Hun Hrg] Hinv' Hbk Hnb Hst'. split.
  - done.
  - eapply framed_trans; [done|apply Hbk].
  - intros k'. by rewrite Hst'.
  - by rewrite (bk_slots _ _ _ _ _ _ Hbk).
  - intros k' Hne Hu. destruct (Hun k' Hne Hu) as [H1 H2]. split.
    + by rewrite (bk_resident _ _ _ _ _ _ Hbk).
    + rewrite (bk_get _ _ _ _ _ _ Hnb Hbk). by rewrite decide_False.
  - intros b. by rewrite (bk_range _ _ _ _ _ _ Hbk).
Qed.

(** A prompt block of the working set takes a free arena slot. *)
Lemma wp_keep_prompt_block sid s b src kv count (Q : unit → TM → Prop) :
  tm_inv sid None [] s → block_in_range s b → untracked s (sid, b) →
  Z.of_nat (length (resident_map s)) < LRUSlotMap.capacity (slot_map s) →
  (write_through s = true → (0 < cpu_free_count s)%nat) → yields src kv →
  (∀ s', ingested sid s s' (sid, b) kv →
     (resident_map s').*1 = (resident_map s).*1 ++ [(sid, b)] →
     (cpu_free_count s' = cpu_free_count s - (if write_through s then 1 else 0))%nat → Q tt s') →
  wp (keep_prompt_block sid b src count) s Q.
Proof.
  intros Hinv Hb [Hnr Hnb] Hlen Hfree Hsrc HQ. destruct kv as [kb vb].
  unfold keep_prompt_block, layer. wp_step. wp_step. change (layer_idx (cfg s)) with (lidx s).
  unfold on_slot_map. wp_step. wp_step.
  apply LRUSlotMap.wp_add; [apply (ti_slots _ _ _ _ Hinv)|apply (ti_cap _ _ _ _ Hinv)|].
  intros slot ev sm Hadd _.
  assert (ev = None ∧ (LRUSlotMap.key_to_slot sm).*1 = (resident_map s).*1 ++ [(sid, b)])
    as [-> Hkeys].
  { pose proof (LRUSlotMap.inv_count _ (ti_slots _ _ _ _ Hinv)) as Hc.
    unfold resident_map in *. destruct Hadd as [? _|fr _ _ ->|v _ Hfr _ _]; [congruence| |].
    - split; [done|]. simpl. by rewrite fmap_app.
    - rewrite Hfr in Hc. simpl in Hc. lia. }
  apply wp_bind, wp_assert; [done|]. wp_step. apply Hsrc. apply wp_bind_assoc. wp_step.
  pose proof (tm_inv_open _ _ _ (sid, b) Hinv) as Hop.
  apply (wp_fill_slot sid s (with_slot_map sm s) (sid, b) slot None); try done.
  { by apply room_made_no_evict. }
  intros s2 Hw Hslot Har.
  assert (ingested sid s s2 (sid, b) (kb, vb)) as Hig by by eapply written_ingested.
  assert ((resident_map s2).*1 = (resident_map s).*1 ++ [(sid, b)]) as Hkeys2.
  { destruct (wr_add _ _ _ _ _ _ Hw) as (sl & Hadd2 & _). unfold resident_map in *.
    destruct Hadd2 as [? _|? _ _ ->|]; [congruence|simpl; by rewrite fmap_app|].
    pose proof (LRUSlotMap.inv_count _ (ti_slots _ _ _ _ Hinv)) as Hc.
    rewrite H0 in Hc. simpl in Hc. lia. }
  assert (write_through s2 = write_through s) as Hwt
    by (unfold write_through; by destruct (wr_frame _ _ _ _ _ _ Hw) as [-> _]).
  pose proof (wr_free _ _ _ _ _ _ Hw) as Hf2.
  assert (cpu_free_count s2 = cpu_free_count s) as Hf2' by (rewrite Hf2; destruct (write_through s); lia).
  assert (∀ st, wp (s <- get ;;
    if enable_write_through (cfg s)
    then _mirror_to_host sid b (QuestStreamPool.Tensor kb) (QuestStreamPool.Tensor vb)
    else ret tt) (with_stats st s2) Q) as Hend.
  { intros st. wp_step. apply wp_get.
    change (enable_write_through (cfg (with_stats st s2))) with (write_through s2). rewrite Hwt.
    apply (ingested_stats _ _ _ _ _ st) in Hig. pose proof (wr_back _ _ _ _ _ _ Hw) as Hb2.
    destruct (write_through s) eqn:Hwts.
    - apply (wp_mirror_resident sid (with_stats st s2) (sid, b) slot (kb, vb)); try done.
      + apply Hig.
      + unfold backing in Hb2. by rewrite Hwt in Hb2.
      + change (cpu_free_count (with_stats st s2)) with (cpu_free_count s2).
        rewrite Hf2'. by apply Hfree.
      + intros s3 c fr Hinv3 Hbk Hst Hho Hf3. apply HQ.
        * by eapply ingested_backed.
        * by rewrite (bk_resident _ _ _ _ _ _ Hbk).
        * rewrite Hf3. change (cpu_free_count (with_stats st s2)) with (cpu_free_count s2). lia.
    - wp_step. apply HQ; [done|done|]. change (cpu_free_count (with_stats st s2)) with (cpu_free_count s2). lia. }
  unfold bump. wp_step. destruct count; wp_step; [apply Hend|].
  specialize (Hend (stats s2)). assert (with_stats (stats s2) s2 = s2) as Heq by by destruct s2.
  by rewrite Heq in Hend.
Qed.

(** ** The whole prompt *)

(** The engine's KV data of prompt block [b]. *)
Definition prompt_kv (k_eng v_eng : list block) (block_table_row : list Z) b
    : option (block * block) :=
  phys ← list_get block_table_row b;
  kb ← list_get k_eng phys; vb ← list_get v_eng phys; Some (kb, vb).

Lemma seqZ_split a m n : 0 ≤ m ≤ n → seqZ a n = seqZ a m ++ seqZ (a + m) (n - m).
Proof. intros Hm. replace n with (m + (n - m)) at 1 by lia. apply seqZ_app; lia. Qed.

(** A prefix of the prompt keeps at most [n - lo] blocks at or above [lo] and
    spills at most [lo] blocks. *)
Lemma filter_prefix_count n lo done todo :
  0 ≤ lo ≤ n → py_range n = done ++ todo →
  Z.of_nat (length (filter (λ b, lo ≤ b) done)) ≤ n - lo ∧
  Z.of_nat (length (filter (λ b, ¬ lo ≤ b) done)) ≤ lo.
Proof.
  intros Hlo Hr. unfold py_range in Hr. rewrite (seqZ_split 0 lo n Hlo) in Hr.
  assert (∀ P `{∀ x, Decision (P x)}, (length (filter P done) ≤
    length (filter P (seqZ 0 lo)) + length (filter P (seqZ (0 + lo) (n - lo))))%nat) as Hle.
  { intros P ?. rewrite <-length_app, <-filter_app, Hr, filter_app, length_app. lia. }
  assert (filter (λ b, lo ≤ b) (seqZ 0 lo) = []) as H1.
  { apply elem_of_nil_inv. intros x. rewrite list_elem_of_filter, elem_of_seqZ. lia. }
  assert (filter (λ b, ¬ lo ≤ b) (seqZ (0 + lo) (n - lo)) = []) as H2.
  { apply elem_of_nil_inv. intros x. rewrite list_elem_of_filter, elem_of_seqZ. lia. }
  pose proof (Hle (λ b, lo ≤ b) _) as L1. pose proof (Hle (λ b, ¬ lo ≤ b) _) as L2.
  rewrite H1 in L1. rewrite H2 in L2. simpl in *.
  pose proof (length_filter (λ b, lo ≤ b) (seqZ (0 + lo) (n - lo))) as B1.
  pose proof (length_filter (λ b, ¬ lo ≤ b) (seqZ 0 lo)) as B2.
  rewrite length_seqZ in B1, B2. simpl in *. lia.
Qed.

(** The state after some prompt blocks have been ingested. *)
Record prompt_state sid (src : Z → option (block * block)) (lo : Z) s0 (done : list Z) s : Prop := {
  ps_inv : tm_inv sid None [] s;
  ps_frame : framed s0 s;
  ps_stored : ∀ b, stored s (sid, b) = if decide (b ∈ done) then src b else None;
  ps_cap : LRUSlotMap.capacity (slot_map s) = LRUSlotMap.capacity (slot_map s0);
  ps_range : ∀ b, block_in_range s b ↔ block_in_range s0 b;
  ps_resident : (resident_map s).*1 = (λ b, (sid, b)) <$> filter (λ b, lo ≤ b) done;
  ps_free : (cpu_free_count s + (if write_through s0 then length done
     else length (filter (λ b, ¬ (lo ≤ b)%Z) done)) = cpu_free_count s0)%nat
}.

Lemma stored_untracked sid hole tr s k :
  tm_inv sid hole tr s → stored s k = None → untracked s k.
Proof.
  intros Hinv Hst. assert (¬ is_Some (stored s k)) as Hn by (rewrite Hst; by intros [? ?]).
  rewrite (stored_tracked _ _ _ _ _ Hinv) in Hn. split; apply od_get_None; tauto.
Qed.

Lemma prompt_step sid src lo s0 done b s s' kv :
  prompt_state sid src lo s0 done s → src b = Some kv → b ∉ done →
  ingested sid s s' (sid, b) kv →
  (resident_map s').*1 = (resident_map s).*1 ++ (if decide (lo ≤ b) then [(sid, b)] else []) →
  (cpu_free_count s' + (if write_through s0 then 1 else if decide (lo ≤ b)%Z then 0 else 1) =
   cpu_free_count s)%nat →
  prompt_state sid src lo s0 (done ++ [b]) s'.
Proof.
  intros [Hinv Hf Hst Hcap Hrg Hres Hfree] Hsrc Hb [Hinv' Hf' Hst' Hcap' _ Hrg'] Hres' Hfree'.
  split.
  - done.
  - by eapply framed_trans.
  - intros b'. rewrite Hst', Hst. destruct (decide (b' = b)) as [->|Hne].
    + rewrite decide_True by done. by rewrite decide_True by set_solver.
    + rewrite decide_False by congruence. by apply decide_ext; set_solver.
  - congruence.
  - intros b'. by rewrite Hrg'.
  - rewrite Hres', Hres, filter_app, fmap_app. f_equal. rewrite filter_cons, filter_nil.
    by case_decide.
  - rewrite filter_app, !length_app, filter_cons, filter_nil. simpl.
    destruct (write_through s0); [lia|].
    destruct (decide (lo ≤ b)); destruct (decide (¬ lo ≤ b)); simpl in *; first [tauto|lia].
Qed.

(** The loop body both prefill paths share. *)
Definition prompt_body sid (lo b : Z) (src : M TM (block * block)) (count : bool) : M TM unit :=
  if bool_decide (lo ≤ b) then keep_prompt_block sid b src count
  else spill_prompt_block sid b src.

Lemma wp_prompt_body sid src kvs lo n s0 done b todo s count (Q : unit → TM → Prop) :
  py_range n = done ++ b :: todo → 0 ≤ lo ≤ n →
  n - lo < LRUSlotMap.capacity (slot_map s0) → block_in_range s0 b →
  (if write_through s0 then n else lo) ≤ Z.of_nat (cpu_free_count s0) →
  prompt_state sid kvs lo s0 done s →
  (∃ kv, kvs b = Some kv ∧ yields src kv) →
  (∀ s', prompt_state sid kvs lo s0 (done ++ [b]) s' → Q tt s') →
  wp (prompt_body sid lo b src count) s Q.
Proof.
  intros Hr Hlo Hcap Hb Hfree Hps (kv & Hkv & Hsrc) HQ.
  pose proof (ps_inv _ _ _ _ _ _ Hps) as Hinv. pose proof (ps_frame _ _ _ _ _ _ Hps) as Hf.
  assert (b ∉ done) as Hnd.
  { pose proof (NoDup_seqZ 0 n) as Hn. unfold py_range in Hr. rewrite Hr in Hn.
    apply NoDup_app in Hn as (_ & Hd & _). intros ?. apply (Hd b); set_solver. }
  assert (untracked s (sid, b)) as Hun.
  { eapply stored_untracked; [done|]. rewrite (ps_stored _ _ _ _ _ _ Hps). by rewrite decide_False. }
  assert (block_in_range s b) as Hb' by by apply (ps_range _ _ _ _ _ _ Hps).
  assert (write_through s = write_through s0) as Hwt
    by (unfold write_through; by destruct Hf as [-> _]).
  rewrite cons_middle, app_assoc in Hr.
  pose proof (filter_prefix_count n lo (done ++ [b]) todo Hlo Hr) as [Hc1 Hc2].
  assert (Z.of_nat (length (done ++ [b])) ≤ n) as Hc3.
  { pose proof (f_equal length Hr) as Hl. unfold py_range in Hl.
    rewrite length_seqZ, length_app in Hl. lia. }
  pose proof (ps_free _ _ _ _ _ _ Hps) as Hfr.
  rewrite !filter_app, !length_app, !filter_cons, !filter_nil in *.
  unfold prompt_body. case_bool_decide as Hge.
  - rewrite (decide_True (P := lo ≤ b)) in Hc1 by done. simpl in *.
    apply (wp_keep_prompt_block sid s b src kv); try done.
    + rewrite <-(length_fmap fst), (ps_resident _ _ _ _ _ _ Hps), length_fmap.
      rewrite (ps_cap _ _ _ _ _ _ Hps). lia.
    + intros Hw. rewrite Hwt in Hw. rewrite Hw in Hfr, Hfree. lia.
    + intros s' Hig Hres Hf'. apply HQ. eapply prompt_step; try done.
      * by rewrite decide_True.
      * rewrite Hf', Hwt. rewrite (decide_True (P := lo ≤ b)) by done.
        destruct (write_through s0); simpl in *; lia.
  - rewrite (decide_True (P := ¬ lo ≤ b)) in Hc2 by done. simpl in *.
    apply (wp_spill_prompt_block sid s b src kv); try done.
    + destruct (write_through s0); lia.
    + intros s' Hig Hsm Hf'. apply HQ. eapply prompt_step; try done.
      * rewrite decide_False, app_nil_r by done. unfold resident_map. by rewrite Hsm.
      * rewrite Hf'. rewrite (decide_False (P := lo ≤ b)) by done.
        destruct (write_through s0); simpl in *; lia.
Qed.

(** C5: after [trim_to_working_set] every full prompt block of the sequence is
    held with exactly the data the engine's cache had for it, the newest
    [min(n, capacity - 1)] of them in the arena and the others on the CPU, with
    one arena slot left for the live block. *)
Theorem trim_to_working_set_correct sid n k_eng v_eng block_table_row s :
  let lo := keep_lo_of n s in
  tm_inv sid None [] s → sid ∉ trimmed s → resident_map s = [] → backing s = [] → 0 ≤ n →
  (∀ b, 0 ≤ b < n → block_in_range s b ∧ is_Some (prompt_kv k_eng v_eng block_table_row b)) →
  (if write_through s then n else lo) ≤ Z.of_nat (cpu_free_count s) →
  ∃ s', trim_to_working_set sid n k_eng v_eng block_table_row s = (Ret tt, s') ∧
    tm_inv sid None [] s' ∧
    (∀ b, stored s' (sid, b) =
       if decide (0 ≤ b < n) then prompt_kv k_eng v_eng block_table_row b else None) ∧
    (∀ b, is_resident sid b s' = true ↔ lo ≤ b < n) ∧
    Z.of_nat (length (resident_map s')) < LRUSlotMap.capacity (slot_map s').
Proof.
  intros lo Hinv Htr Hr0 Hb0 Hn Hkv Hfree.
  pose proof (ti_cap _ _ _ _ Hinv) as Hcap.
  assert (0 ≤ lo ≤ n ∧ n - lo < LRUSlotMap.capacity (slot_map s)) as [Hlo Hlt].
  { unfold lo, keep_lo_of. lia. }
  set (s0 := with_trimmed ({[sid]} ∪ trimmed s) s).
  set (kvs := prompt_kv k_eng v_eng block_table_row).
  enough (wp (trim_to_working_set sid n k_eng v_eng block_table_row) s (λ _ s',
    prompt_state sid kvs lo s0 (py_range n) s')) as ([] & s' & Hrun & Hps)%wp_run.
  { assert (∀ b, b ∈ py_range n ↔ 0 ≤ b < n) as Hin.
    { intros b. unfold py_range. rewrite elem_of_seqZ. lia. }
    exists s'. split_and!; [done|apply Hps| | |].
    - intros b. rewrite (ps_stored _ _ _ _ _ _ Hps). apply decide_ext. apply Hin.
    - intros b. change (is_resident sid b s') with (od_mem (sid, b) (resident_map s')).
      rewrite od_mem_spec, (ps_resident _ _ _ _ _ _ Hps), list_elem_of_fmap.
      split.
      + intros (b' & [= <-] & Hb'). rewrite list_elem_of_filter, Hin in Hb'. lia.
      + intros Hb. exists b. split; [done|]. rewrite list_elem_of_filter, Hin. lia.
    - rewrite <-(length_fmap fst), (ps_resident _ _ _ _ _ _ Hps), length_fmap.
      rewrite (ps_cap _ _ _ _ _ _ Hps).
      pose proof (filter_prefix_count n lo (py_range n) [] Hlo) as [? _]; [by rewrite app_nil_r|].
      simpl. lia. }
  unfold trim_to_working_set. wp_step. wp_step. rewrite bool_decide_false by done.
  wp_step. wp_step. fold s0. fold lo.
  apply (wp_for_each _ _ _ (prompt_state sid kvs lo s0)).
  - split; try done.
    + destruct Hinv. by split.
    + intros b. unfold stored. change (resident_map s0) with (resident_map s).
      change (backing s0) with (backing s). by rewrite Hr0, Hb0.
    + change (resident_map s0) with (resident_map s). by rewrite Hr0.
    + simpl. destruct (write_through s0); lia.
  - intros done b todo s1 Hr Hps.
    assert (0 ≤ b < n) as Hb.
    { assert (b ∈ py_range n) as Hin by (rewrite Hr; set_solver).
      unfold py_range in Hin. rewrite elem_of_seqZ in Hin. lia. }
    destruct (Hkv b Hb) as [Hbr [kv Hkvb]]. pose proof Hkvb as Hsrc. unfold prompt_kv in Hsrc.
    destruct (list_get block_table_row b) as [phys|] eqn:Hphys; [|done]. simpl in Hsrc.
    wp_step.
    apply (wp_prompt_body sid _ kvs lo n s0 done b todo s1 false); try done.
    exists kv. split; [done|]. intros s2 Q2 HQ2.
    destruct (list_get k_eng phys) as [kb|]; [|done]. simpl in Hsrc.
    destruct (list_get v_eng phys) as [vb|]; [|done]. simplify_eq/=.
    by wp_steps.
  - done.
Qed.

(** ** Releasing a request *)
Lemma keys_of_all sid (d : list (key * Z)) : (∀ k, k ∈ d.*1 → k.1 = sid) → keys_of sid d = d.*1.
Proof.
  unfold keys_of. intros Hd. generalize dependent d. intros d. generalize (d.*1). clear d.
  intros l Hl. induction l as [|k l IH]; [done|]. rewrite filter_cons, decide_True, IH; set_solver.
Qed.

Lemma wp_free_slots s (Q : unit → TM → Prop) :
  (∀ sm, LRUSlotMap.capacity sm = LRUSlotMap.capacity (slot_map s) →
     LRUSlotMap.key_to_slot sm = [] →
     LRUSlotMap.free_slots sm = LRUSlotMap.free_slots (slot_map s) ++ (resident_map s).*2 →
     Q tt (with_slot_map sm s)) →
  wp (for_each ((resident_map s).*1) (λ k, _ <- on_slot_map (LRUSlotMap.free k) ;; ret tt)) s Q.
Proof.
  intros HQ. destruct s as [? ? ? ? ? ? ? ? [cap d fr] ? ? ? ? ? ?]. unfold resident_map in *.
  simpl in *. revert fr HQ. induction d as [|[k slot] d IH]; intros fr HQ; simpl.
  - apply wp_ret. apply (HQ (LRUSlotMap.mk cap [] fr)); [done..|]. simpl. by rewrite app_nil_r.
  - unfold on_slot_map. wp_steps. unfold LRUSlotMap.free. wp_steps.
    eapply wp_of_option; [by rewrite decide_True|]. wp_steps. rewrite decide_True by done.
    apply IH. intros sm Hc Hk Hf. apply HQ; [done..|]. simpl in *. by rewrite <-app_assoc in Hf.
Qed.

(** Giving the CPU slots of a whole dictionary back. *)
Lemma wp_release_all (proj : TM → list (key * Z)) upd s L fr (Q : unit → TM → Prop) :
  (∀ d s, proj (upd d s) = d) → (∀ d d' s, upd d (upd d' s) = upd d s) →
  (∀ d s, cpu_store (upd d s) = cpu_store s ∧ cfg (upd d s) = cfg s) →
  (∀ d s cs, upd d (with_cpu_store cs s) = with_cpu_store cs (upd d s)) →
  upd (proj s) s = s → L = lidx s →
  CpuKvBackingStore.wf (cpu_store s) → 0 ≤ L < CpuKvBackingStore.num_layers (cpu_store s) →
  CpuKvBackingStore.free_of (cpu_store s) L = Some fr →
  (∀ cs, CpuKvBackingStore.same_shape (cpu_store s) cs →
     CpuKvBackingStore.same_content (cpu_store s) cs →
     CpuKvBackingStore.free_of cs L = Some (fr ++ (proj s).*2) →
     Q tt (with_cpu_store cs (upd [] s))) →
  wp (for_each ((proj s).*1) (release_cpu_slot proj upd)) s Q.
Proof.
  intros Hpu Huu Hst Hcom Hid HL Hwf Hl Hfr HQ.
  enough (∀ d cs fr', CpuKvBackingStore.same_shape (cpu_store s) cs →
    CpuKvBackingStore.same_content (cpu_store s) cs →
    CpuKvBackingStore.free_of cs L = Some fr' → fr' ++ d.*2 = fr ++ (proj s).*2 →
    wp (for_each (d.*1) (release_cpu_slot proj upd)) (with_cpu_store cs (upd d s)) Q) as H.
  { specialize (H (proj s) (cpu_store s) fr). rewrite Hid in H.
    assert (with_cpu_store (cpu_store s) s = s) as Heq by by destruct s.
    rewrite Heq in H. by apply H. }
  clear Hid. intros d. induction d as [|[k c] d IH]; intros cs fr' Hsh Hco Hf Heq; simpl.
  - apply wp_ret. apply HQ; [done..|]. simpl in Heq. by rewrite <-Heq, app_nil_r.
  - unfold release_cpu_slot at 1, layer. do 3 wp_step. rewrite <-Hcom, Hpu. wp_step.
    eapply wp_of_option; [simpl; by rewrite decide_True|].
    wp_step. wp_step. rewrite Hpu. simpl.
    rewrite decide_True by done. rewrite Huu, Hcom. unfold on_cpu_store. wp_steps.
    destruct (Hst d s) as [_ ->]. change (layer_idx (cfg s)) with (lidx s). rewrite <-HL.
    eapply (CpuKvBackingStore.wp_store_free cs L c fr'); [apply Hsh| |done|].
    { by destruct Hsh as (_ & -> & _). }
    intros cs' Hsh' Hco' Hf'.
    change (with_cpu_store cs' (with_cpu_store cs (upd d s))) with (with_cpu_store cs' (upd d s)).
    apply (IH cs' (fr' ++ [c])).
    + by eapply CpuKvBackingStore.same_shape_trans.
    + intros l sl ??. etrans; [by apply Hco'|by apply Hco].
    + rewrite Hf' by lia. by rewrite decide_True.
    + rewrite <-app_assoc. exact Heq.
Qed.

(** Marking a list of blocks as on the GPU. *)
Lemma wp_mark_all s bs L (Q : unit → TM → Prop) :
  L = lidx s → BlockResidency.wf (residency s) → (∀ b, b ∈ bs → block_in_range s b) →
  (∀ r, BlockResidency.wf r → BlockResidency.num_layers r = BlockResidency.num_layers (residency s) →
     BlockResidency.max_blocks r = BlockResidency.max_blocks (residency s) →
     (∀ b, block_in_range s b → BlockResidency.peek r L b =
        if decide (b ∈ bs) then Some BlockResidency.ON_GPU
        else BlockResidency.peek (residency s) L b) → Q tt (with_residency r s)) →
  wp (for_each bs (λ b, on_residency (BlockResidency.mark_on_gpu L b))) s Q.
Proof.
  intros -> Hwf Hb HQ.
  apply (wp_for_each bs _ s (λ done s', ∃ r, s' = with_residency r s ∧ BlockResidency.wf r ∧
    BlockResidency.num_layers r = BlockResidency.num_layers (residency s) ∧
    BlockResidency.max_blocks r = BlockResidency.max_blocks (residency s) ∧
    ∀ b, block_in_range s b → BlockResidency.peek r (lidx s) b =
      if decide (b ∈ done) then Some BlockResidency.ON_GPU
      else BlockResidency.peek (residency s) (lidx s) b)).
  - exists (residency s). split_and!; try done. by destruct s.
  - intros done b todo s' -> (r & -> & Hrwf & Hnl & Hmb & Hpk). unfold on_residency. wp_step.
    assert (BlockResidency.in_range r (lidx s) b) as Hin.
    { unfold BlockResidency.in_range. rewrite Hnl, Hmb. apply (Hb b). set_solver. }
    apply BlockResidency.wp_mark_on_gpu; [done..|].
    intros r' Hup. pose proof Hup as (Hwf' & Hnl' & Hmb' & _). exists r'.
    split_and!; [done|done|congruence|congruence|]. intros b' Hb'.
    assert (BlockResidency.in_range r (lidx s) b') as Hin'.
    { unfold BlockResidency.in_range. rewrite Hnl, Hmb. apply Hb'. }
    destruct (decide (b' = b)) as [->|Hne].
    + rewrite (BlockResidency.updated_peek _ _ _ _ _ Hin Hup). by rewrite decide_True by set_solver.
    + rewrite (BlockResidency.updated_peek_ne _ _ _ _ _ b' Hup Hin' Hne), Hpk by done.
      apply decide_ext. set_solver.
  - intros s' (r & -> & ?). destruct_and!. by apply HQ.
Qed.

(** The manager holds nothing and every slot of both tiers is free. *)
Definition released s : Prop :=
  resident_map s = [] ∧ cpu_slots s = [] ∧ host_slots s = [] ∧
  Z.of_nat (length (LRUSlotMap.free_slots (slot_map s))) = LRUSlotMap.capacity (slot_map s) ∧
  Z.of_nat (cpu_free_count s) = CpuKvBackingStore.blocks_per_layer (cpu_store s).

(** A manager that holds nothing satisfies the invariant for any next sequence. *)
Lemma tm_inv_released sid sid' s s' :
  tm_inv sid None [] s → resident_map s' = [] → cpu_slots s' = [] → host_slots s' = [] →
  cfg s' = cfg s → stream_pool s' = stream_pool s → gpu_k s' = gpu_k s → gpu_v s' = gpu_v s →
  LRUSlotMap.capacity (slot_map s') = LRUSlotMap.capacity (slot_map s) →
  LRUSlotMap.free_slots (slot_map s') ≡ₚ (resident_map s).*2 ++ LRUSlotMap.free_slots (slot_map s) →
  CpuKvBackingStore.same_shape (cpu_store s) (cpu_store s') →
  (∃ fr fr', CpuKvBackingStore.free_of (cpu_store s) (lidx s) = Some fr ∧
     CpuKvBackingStore.free_of (cpu_store s') (lidx s) = Some fr' ∧ fr' ≡ₚ (backing s).*2 ++ fr) →
  BlockResidency.wf (residency s') →
  (∀ b, block_in_range s' b → BlockResidency.peek (residency s') (lidx s) b = Some BlockResidency.ON_GPU) →
  tm_inv sid' None [] s'.
Proof.
  intros Hinv Hr Hc Hh Hcfg Hsp Hgk Hgv Hcap Hfs (Hcw & Hcl & Hcb) (fr & fr' & Hfr & Hfr' & Hp) Hrw Hpk.
  assert (lidx s' = lidx s) as Hl by (unfold lidx; by rewrite Hcfg).
  assert (backing s' = []) as Hb by (unfold backing; rewrite Hc, Hh; by destruct (write_through s')).
  destruct (ti_slots _ _ _ _ Hinv) as [Hs1 Hs2 Hs3 Hs4]. unfold resident_map in *.
  destruct (ti_cpu_slots _ _ _ _ Hinv) as (fr0 & Hfr0 & Hacc). rewrite Hfr0 in Hfr. simplify_eq.
  simpl in Hacc. split; rewrite ?Hb, ?Hl, ?Hcap, ?Hgk, ?Hgv, ?Hsp; try apply Hinv; try done.
  - split; rewrite ?Hr; simpl; [apply od_wf_nil|by rewrite Hfs|rewrite Hcap; by rewrite Hfs|].
    rewrite Hfs, length_app, length_fmap, Hcap. lia.
  - rewrite Hcl. apply (ti_cpu_layer _ _ _ _ Hinv).
  - apply od_wf_nil.
  - by destruct (write_through s').
  - exists fr'. simpl. split; [done|]. by rewrite Hp, Hcb.
  - unfold resident_map. rewrite Hr. set_solver.
  - intros b Hb' _. rewrite Hpk by done. unfold expected_residency, resident_map. by rewrite Hr, Hb.
Qed.

(** The residency of the blocks of the sequence is reset, the others were on the GPU. *)
Lemma residency_reset sid s (r : BlockResidency.t) (bs : list Z) :
  tm_inv sid None [] s →
  (∀ b, block_in_range s b → BlockResidency.peek r (lidx s) b =
     if decide (b ∈ bs) then Some BlockResidency.ON_GPU else BlockResidency.peek (residency s) (lidx s) b) →
  (∀ k, k ∈ (backing s).*1 → k.2 ∈ bs) →
  ∀ b, block_in_range s b → BlockResidency.peek r (lidx s) b = Some BlockResidency.ON_GPU.
Proof.
  intros Hinv Hr Hbs b Hb. rewrite Hr by done. case_decide as Hin; [done|].
  rewrite (ti_res _ _ _ _ Hinv) by done. unfold expected_residency.
  assert (od_get (sid, b) (backing s) = None) as ->.
  { apply od_get_None. intros Hk. by apply Hin, (Hbs (sid, b)). }
  by destruct (od_get _ _).
Qed.

Lemma wp_free_request sid s :
  tm_inv sid None [] s →
  wp (free_request sid) s (λ _ s', released s' ∧ trimmed s' = trimmed s ∖ {[sid]} ∧
    prev_selected s' = delete sid (prev_selected s) ∧ active_seqs s' = active_seqs s ∧
    ∀ sid', tm_inv sid' None [] s').
Proof.
  intros Hinv.
  assert (∀ k, k ∈ (resident_map s).*1 ∨ k ∈ (backing s).*1 → k.1 = sid ∧ block_in_range s k.2)
    as Hkeys by apply Hinv.
  assert (backing s = cpu_slots s ++ host_slots s) as Hbk.
  { pose proof (ti_other _ _ _ _ Hinv) as Ho. unfold backing.
    destruct (write_through s); rewrite Ho; [done|by rewrite app_nil_r]. }
  rewrite Hbk, fmap_app in Hkeys.
  unfold free_request, layer. wp_step. wp_step.
  rewrite (keys_of_all sid (LRUSlotMap.key_to_slot (slot_map s)))
    by (intros k Hk; apply Hkeys; by left).
  wp_step. apply wp_free_slots. intros sm Hc1 Hk1 Hf1. wp_step. wp_step. wp_step.
  rewrite (keys_of_all sid (cpu_slots s)) by (intros k Hk; apply Hkeys; set_solver).
  destruct (ti_cpu_slots _ _ _ _ Hinv) as (fr & Hfr & _ & _ & Hcnt). simpl in Hcnt.
  apply (wp_release_all cpu_slots with_cpu_slots (with_slot_map sm s) (lidx s) fr);
    [done|done|done|done|done|done|apply (ti_cpu_wf _ _ _ _ Hinv)|
     apply (ti_cpu_layer _ _ _ _ Hinv)|done|].
  intros cs1 Hsh1 Hco1 Hfr1. wp_step. wp_step. wp_step.
  rewrite (keys_of_all sid (host_slots s)) by (intros k Hk; apply Hkeys; set_solver).
  set (s1 := with_cpu_store cs1 _).
  apply (wp_release_all host_slots with_host_slots s1 (lidx s) (fr ++ (cpu_slots s).*2));
    [done|done|done|done|done|done|apply Hsh1| |exact Hfr1|].
  { destruct Hsh1 as (_ & Hnl1 & _). change (cpu_store s1) with cs1. rewrite Hnl1.
    apply (ti_cpu_layer _ _ _ _ Hinv). }
  intros cs2 Hsh2 Hco2 Hfr2. wp_step. wp_step. wp_step. wp_step. wp_step. wp_step.
  set (s2 := with_prev_selected _ _).
  apply wp_mark_all; [done|apply (ti_res_wf _ _ _ _ Hinv)| |].
  { intros b Hb. apply list_elem_of_fmap in Hb as (k & -> & Hk). apply Hkeys. set_solver. }
  intros r Hrwf Hnl Hmb Hpk. set (s3 := with_residency r s2).
  assert (CpuKvBackingStore.same_shape (cpu_store s) cs2) as Hsh
    by (by eapply CpuKvBackingStore.same_shape_trans).
  assert (fr ++ (cpu_slots s).*2 ++ (host_slots s).*2 ≡ₚ (backing s).*2 ++ fr) as Hp.
  { rewrite Hbk, fmap_app. by rewrite Permutation_app_comm. }
  rewrite <-app_assoc in Hfr2. change (host_slots s1) with (host_slots s) in Hfr2.
  assert (LRUSlotMap.free_slots sm ≡ₚ (resident_map s).*2 ++ LRUSlotMap.free_slots (slot_map s)) as Hp2.
  { rewrite Hf1. by rewrite Permutation_app_comm. }
  split_and!; [|done|done|done|intros sid'; apply (tm_inv_released sid sid' s); try done].
  - split_and!; [done..| |].
    + simpl. rewrite Hp2, length_app, length_fmap, Hc1.
      pose proof (LRUSlotMap.inv_count _ (ti_slots _ _ _ _ Hinv)). unfold resident_map. lia.
    + unfold cpu_free_count. change (cpu_store s3) with cs2. change (lidx s3) with (lidx s).
      destruct Hsh as (_ & _ & Hcb). rewrite Hfr2, Hp, Hcb. lia.
  - by exists fr, (fr ++ (cpu_slots s).*2 ++ (host_slots s).*2).
  - intros b Hb. apply (residency_reset sid s r _ Hinv Hpk).
    + rewrite Hbk. intros k Hk. apply list_elem_of_fmap. exists k. split; [done|].
      rewrite fmap_app in Hk. set_solver.
    + unfold block_in_range, BlockResidency.in_range in *. simpl in Hb. by rewrite Hnl, Hmb in Hb.
Qed.

Lemma released_stored s k : released s → stored s k = None.
Proof.
  intros (Hr & Hc & Hh & _). unfold stored, backing. rewrite Hr, Hc, Hh. by destruct (write_through s).
Qed.
End prefill.

(** ** Construction *)
Section construction.
Context {row T : Type}.
Notation block := (list row).
Notation TM := (TierManager.t row T).
Import TierManager.

Lemma py_range_nodup n : NoDup (rev (py_range n)).
Proof. apply NoDup_ListNoDup, NoDup_rev, NoDup_ListNoDup, NoDup_seqZ. Qed.
Lemma py_range_length n : 0 ≤ n → Z.of_nat (length (rev (py_range n))) = n.
Proof. intros Hn. rewrite length_rev. unfold py_range. rewrite length_seqZ. lia. Qed.

Section fresh.
Context (c : config) (gk gv : list block) (ss : BlockSummaryStore.t T) (nl mb : Z) (uninit : block) (bpl : Z).
Context (cs : CpuKvBackingStore.t block).
Context (Hbudget : 0 < gpu_budget c) (Hgk : Z.of_nat (length gk) = gpu_budget c) (Hgv : Z.of_nat (length gv) = gpu_budget c).
Context (Hl : 0 ≤ layer_idx c < nl) (Hcs : CpuKvBackingStore.init uninit nl bpl = Ret cs).

Lemma fresh_cpu :
  0 < bpl ∧ CpuKvBackingStore.num_layers cs = nl ∧ CpuKvBackingStore.blocks_per_layer cs = bpl ∧
  CpuKvBackingStore.free_of cs (layer_idx c) = Some (rev (py_range bpl)).
Proof.
  clear Hbudget Hgk Hgv. pose proof Hcs as H. unfold CpuKvBackingStore.init in H. case_bool_decide as Hpos; [done|]. injection H as H.
  rewrite <-H. split_and!; [lia|done|done|]. unfold CpuKvBackingStore.free_of. simpl. rewrite list_get_lookup by lia.
  apply lookup_replicate. split; [done|lia].
Qed.

Lemma fresh_inv s sid : init c gk gv ss (BlockResidency.init nl mb) cs None false = Ret s → tm_inv sid None [] s.
Proof.
  intros [= <-]. destruct fresh_cpu as (Hpos & Hnl & Hbpl & Hfree). set (s := mk _ _ _ _ _ _ _ _ _ _ _ _ _ _ _).
  assert (backing s = []) as Hbk by (unfold backing; by destruct (write_through s)).
  split; simpl; try done.
  - apply LRUSlotMap.init_inv. lia.
  - by eapply CpuKvBackingStore.store_init_wf.
  - by rewrite Hnl.
  - apply BlockResidency.residency_init_wf.
  - rewrite Hbk. apply od_wf_nil.
  - exists (rev (py_range bpl)). rewrite Hbk, Hbpl. simpl. split_and!; [done| | |apply py_range_length; lia].
    + apply py_range_nodup.
    + apply Forall_rev, Forall_forall. unfold py_range. intros x Hx%elem_of_seqZ. lia.
  - rewrite Hbk. set_solver.
  - intros b [_ Hb'] _. unfold expected_residency. rewrite Hbk. simpl.
    unfold BlockResidency.peek, grid_get. simpl. change (lidx s) with (layer_idx c).
    rewrite list_get_lookup, lookup_replicate_2 by lia. simpl.
    rewrite list_get_lookup, lookup_replicate_2 by (simpl in Hb'; lia). done.
Qed.

Lemma fresh_released s : init c gk gv ss (BlockResidency.init nl mb) cs None false = Ret s → released s.
Proof.
  intros [= <-]. destruct fresh_cpu as (Hpos & Hnl & Hbpl & Hfree). split_and!; try done.
  - simpl. apply py_range_length. lia.
  - unfold cpu_free_count, lidx. simpl. rewrite Hfree, Hbpl. apply py_range_length. lia.
Qed.
End fresh.
End construction.
