(* ===== verification/QuestTierFree.v ===== *)
(** * Quest backend: releasing one sequence among several

    [free_request] for an arena and a CPU store that hold blocks of any number of
    sequences: the blocks of the one sequence leave both tiers and their slots become free;
    the blocks of all others stay where they are. *)

From S2P Require Import Prelude OrderedDict QuestStore QuestTier QuestTierInv QuestTierProps QuestTierWrite QuestTierPrefill.

Open Scope Z_scope.

(** ** Dictionaries by sequence *)
Notation key := LRUSlotMap.key.
Definition of_seq (sid : Z) (d : list (key * Z)) : list (key * Z) := filter (λ kv, kv.1.1 = sid) d.
Definition of_others (sid : Z) (d : list (key * Z)) : list (key * Z) := filter (λ kv, kv.1.1 ≠ sid) d.

Lemma keys_of_seq sid d : TierManager.keys_of sid d = (of_seq sid d).*1.
Proof.
  unfold TierManager.keys_of, of_seq. induction d as [|[k v] d IH]; [done|]. csimpl. rewrite !filter_cons. csimpl. case_decide; csimpl; by rewrite IH.
Qed.
Lemma of_others_get sid d k : od_get k (of_others sid d) = if decide (k.1 = sid) then None else od_get k d.
Proof.
  unfold of_others. induction d as [|[k' v] d IH]; [by case_decide|]. rewrite filter_cons. simpl. destruct (decide (k'.1 = sid)) as [He|He].
  - rewrite decide_False by auto. rewrite IH. case_decide as Hk; [done|]. by rewrite decide_False by (intros ->; done).
  - rewrite decide_True by done. simpl. rewrite IH. destruct (decide (k = k')) as [->|Hne]; [|done]. by rewrite decide_False.
Qed.
Lemma of_others_wf sid d : od_wf d → od_wf (of_others sid d).
Proof. intros H. eapply sublist_NoDup; [exact H|]. apply fmap_sublist, sublist_filter. Qed.
Lemma of_seq_perm sid d : d ≡ₚ of_seq sid d ++ of_others sid d.
Proof.
  unfold of_seq, of_others. induction d as [|kv d IH]; [done|]. rewrite !filter_cons. destruct (decide (kv.1.1 = sid)).
  - rewrite decide_False by auto. simpl. by rewrite <-IH.
  - rewrite decide_True by done. rewrite <-Permutation_middle. by rewrite <-IH.
Qed.

(** What is left when the keys of a sequence are deleted one after the other: the entries
    before [d] are those of others, those of [d] are still to do. *)
Lemma del_head (pre d : list (key * Z)) k v : od_wf (pre ++ (k, v) :: d) → od_del k (pre ++ (k, v) :: d) = pre ++ d ∧ od_get k (pre ++ (k, v) :: d) = Some v.
Proof.
  intros Hwf. assert (k ∉ pre.*1) as Hk.
  { unfold od_wf in Hwf. rewrite fmap_app in Hwf. csimpl in Hwf. apply NoDup_app in Hwf as (_ & Hd & _). intros Hin. apply (Hd k Hin). by left. }
  split.
  - rewrite od_del_app by done. simpl. by rewrite decide_True.
  - rewrite od_get_app. apply od_get_None in Hk. rewrite Hk. simpl. by rewrite decide_True.
Qed.

Section free.
Context {row T : Type}.
Notation block := (list row).
Notation TM := (TierManager.t row T).
Import TierManager.
Implicit Types (s : TM) (sid b : Z).

Lemma wp_free_seq_slots sid s (Q : unit → TM → Prop) :
  od_wf (resident_map s) →
  Q tt (with_slot_map (LRUSlotMap.mk (LRUSlotMap.capacity (slot_map s)) (of_others sid (resident_map s))
          (LRUSlotMap.free_slots (slot_map s) ++ (of_seq sid (resident_map s)).*2)) s) →
  wp (for_each ((of_seq sid (resident_map s)).*1) (λ k, _ <- on_slot_map (LRUSlotMap.free k) ;; ret tt)) s Q.
Proof.
  destruct s as [c gk gv ss rs cs sp act [cap d fr] cpu host prev st lg tr]. unfold resident_map. simpl. intros Hwf.
  enough (∀ (d pre : list (key * Z)) (fr : list Z), od_wf (pre ++ d) →
    Q tt (mk c gk gv ss rs cs sp act
            (LRUSlotMap.mk cap (pre ++ of_others sid d) (fr ++ (of_seq sid d).*2)) cpu host prev st lg tr) →
    wp (for_each ((of_seq sid d).*1) (λ k, _ <- on_slot_map (LRUSlotMap.free k) ;; ret tt))
      (mk c gk gv ss rs cs sp act (LRUSlotMap.mk cap (pre ++ d) fr) cpu host prev st lg tr) Q) as H by (apply (H d []); done).
  clear Hwf d fr. intros d. induction d as [|[k slot] d IH]; intros pre fr Hwf HQ.
  - apply wp_ret. unfold of_others, of_seq in HQ. rewrite !filter_nil in HQ. simpl in HQ. by rewrite !app_nil_r in *.
  - unfold of_seq, of_others in *. rewrite !filter_cons in HQ. rewrite filter_cons.
    cbn [fst] in *. destruct (decide (k.1 = sid)) as [He|He].
    + rewrite (decide_False (P := k.1 ≠ sid)) in HQ by auto. csimpl in *. destruct (del_head pre d k slot Hwf) as [Hdel Hget].
      unfold on_slot_map. wp_steps. unfold LRUSlotMap.free. wp_steps. eapply wp_of_option; [exact Hget|]. wp_steps. rewrite Hdel. simpl.
      apply IH; [eapply sublist_NoDup; [exact Hwf|]; rewrite !fmap_app; csimpl; apply sublist_app; [done|by constructor]|].
      by rewrite <-app_assoc.
    + rewrite (decide_True (P := k.1 ≠ sid)) in HQ by done. change ((k, slot) :: d) with ([(k, slot)] ++ d) in *.
      rewrite (app_assoc pre) in *. apply IH; [done|]. by rewrite <-app_assoc.
Qed.

(** Giving the CPU slots of a sequence back. *)
Lemma wp_release_seq sid (proj : TM → list (key * Z)) upd s L fr (Q : unit → TM → Prop) :
  (∀ d s, proj (upd d s) = d) → (∀ d d' s, upd d (upd d' s) = upd d s) →
  (∀ d s, cpu_store (upd d s) = cpu_store s ∧ cfg (upd d s) = cfg s) →
  (∀ d s cs, upd d (with_cpu_store cs s) = with_cpu_store cs (upd d s)) →
  upd (proj s) s = s → L = lidx s → od_wf (proj s) →
  CpuKvBackingStore.wf (cpu_store s) → 0 ≤ L < CpuKvBackingStore.num_layers (cpu_store s) →
  CpuKvBackingStore.free_of (cpu_store s) L = Some fr →
  (∀ cs, CpuKvBackingStore.same_shape (cpu_store s) cs →
     CpuKvBackingStore.same_content (cpu_store s) cs →
     CpuKvBackingStore.free_of cs L = Some (fr ++ (of_seq sid (proj s)).*2) →
     (∀ L', 0 ≤ L' → L' ≠ L → CpuKvBackingStore.free_of cs L' = CpuKvBackingStore.free_of (cpu_store s) L') →
     Q tt (with_cpu_store cs (upd (of_others sid (proj s)) s))) →
  wp (for_each ((of_seq sid (proj s)).*1) (release_cpu_slot proj upd)) s Q.
Proof.
  intros Hpu Huu Hst Hcom Hid HL Hod Hwf Hl Hfr HQ.
  enough (∀ d pre cs fr', od_wf (pre ++ d) → CpuKvBackingStore.same_shape (cpu_store s) cs →
    CpuKvBackingStore.same_content (cpu_store s) cs →
    CpuKvBackingStore.free_of cs L = Some fr' → fr' ++ (of_seq sid d).*2 = fr ++ (of_seq sid (proj s)).*2 →
    pre ++ of_others sid d = of_others sid (proj s) →
    (∀ L', 0 ≤ L' → L' ≠ L → CpuKvBackingStore.free_of cs L' = CpuKvBackingStore.free_of (cpu_store s) L') →
    wp (for_each ((of_seq sid d).*1) (release_cpu_slot proj upd)) (with_cpu_store cs (upd (pre ++ d) s)) Q) as H.
  { specialize (H (proj s) [] (cpu_store s) fr). simpl in H. rewrite Hid in H.
    assert (with_cpu_store (cpu_store s) s = s) as Heq by by destruct s.
    rewrite Heq in H. by apply H. }
  clear Hid Hod. intros d. induction d as [|[k c] d IH]; intros pre cs fr' Hod Hsh Hco Hf Heq Hoth Hlay.
  - apply wp_ret. change (of_seq sid []) with (@nil (key * Z)) in Heq. change (of_others sid []) with (@nil (key * Z)) in Hoth. simpl in Heq. rewrite !app_nil_r in *.
    rewrite Hoth. apply HQ; [done..| |done]. by rewrite <-Heq.
  - unfold of_seq at 1 in Heq. unfold of_others at 1 in Hoth. rewrite filter_cons in Heq, Hoth. unfold of_seq at 1. rewrite filter_cons.
    fold (of_seq sid d) in *. fold (of_others sid d) in *. cbn [fst] in *. destruct (decide (k.1 = sid)) as [He|He].
    + rewrite (decide_False (P := k.1 ≠ sid)) in Hoth by auto. csimpl in *. destruct (del_head pre d k c Hod) as [Hdel Hget].
      unfold release_cpu_slot at 1, layer. do 3 wp_step. rewrite <-Hcom, Hpu. wp_step.
      eapply wp_of_option; [exact Hget|]. wp_step. wp_step. rewrite Hpu, Hdel, Huu, Hcom. unfold on_cpu_store. wp_steps.
      destruct (Hst (pre ++ d) s) as [_ ->]. change (layer_idx (cfg s)) with (lidx s). rewrite <-HL.
      eapply (CpuKvBackingStore.wp_store_free cs L c fr'); [apply Hsh| |done|].
      { by destruct Hsh as (_ & -> & _). }
      intros cs' Hsh' Hco' Hf'.
      change (with_cpu_store cs' (with_cpu_store cs (upd (pre ++ d) s))) with (with_cpu_store cs' (upd (pre ++ d) s)).
      apply (IH pre cs' (fr' ++ [c])); [| | | | |done|].
      * eapply sublist_NoDup; [exact Hod|]. rewrite !fmap_app. csimpl. apply sublist_app; [done|by constructor].
      * by eapply CpuKvBackingStore.same_shape_trans.
      * intros l sl ??. etrans; [by apply Hco'|by apply Hco].
      * rewrite Hf' by lia. by rewrite decide_True.
      * by rewrite <-app_assoc.
      * intros L' H0 Hne. rewrite Hf', decide_False by done. by apply Hlay.
    + rewrite (decide_True (P := k.1 ≠ sid)) in Hoth by done. change ((k, c) :: d) with ([(k, c)] ++ d) in *.
      rewrite (app_assoc pre) in *. apply (IH (pre ++ [(k, c)]) cs fr'); try done. by rewrite <-app_assoc.
Qed.

(** ** Several sequences in one manager *)
Record shared_inv s : Prop := {
  sh_slots : LRUSlotMap.inv (slot_map s);
  sh_cpu_wf : CpuKvBackingStore.wf (cpu_store s);
  sh_layer : 0 ≤ lidx s < CpuKvBackingStore.num_layers (cpu_store s);
  sh_res : BlockResidency.wf (residency s);
  sh_cpu : od_wf (cpu_slots s);
  sh_host : od_wf (host_slots s);
  sh_keys k : k ∈ (resident_map s).*1 ∨ k ∈ (cpu_slots s).*1 ∨ k ∈ (host_slots s).*1 → block_in_range s k.2;
  sh_free : ∃ fr, CpuKvBackingStore.free_of (cpu_store s) (lidx s) = Some fr ∧
    NoDup ((cpu_slots s).*2 ++ (host_slots s).*2 ++ fr) ∧
    Forall (λ c, 0 ≤ c < CpuKvBackingStore.blocks_per_layer (cpu_store s)) ((cpu_slots s).*2 ++ (host_slots s).*2 ++ fr)
}.
Definition holds_block sid s b : Prop :=
  (sid, b) ∈ (resident_map s).*1 ∨ (sid, b) ∈ (cpu_slots s).*1 ∨ (sid, b) ∈ (host_slots s).*1.

(** [s'] is [s] without the blocks of [sid]. *)
Record freed sid s s' : Prop := {
  fd_arena : resident_map s' = of_others sid (resident_map s);
  fd_cpu : cpu_slots s' = of_others sid (cpu_slots s) ∧ host_slots s' = of_others sid (host_slots s);
  fd_gpu : gpu_k s' = gpu_k s ∧ gpu_v s' = gpu_v s;
  fd_content : CpuKvBackingStore.same_content (cpu_store s) (cpu_store s');
  fd_slots : LRUSlotMap.capacity (slot_map s') = LRUSlotMap.capacity (slot_map s) ∧
    LRUSlotMap.free_slots (slot_map s') = LRUSlotMap.free_slots (slot_map s) ++ (of_seq sid (resident_map s)).*2;
  fd_cpu_free : ∃ fr, CpuKvBackingStore.free_of (cpu_store s) (lidx s) = Some fr ∧
    CpuKvBackingStore.free_of (cpu_store s') (lidx s) = Some (fr ++ (of_seq sid (cpu_slots s)).*2 ++ (of_seq sid (host_slots s)).*2);
  fd_layers L : 0 ≤ L → L ≠ lidx s → CpuKvBackingStore.free_of (cpu_store s') L = CpuKvBackingStore.free_of (cpu_store s) L;
  fd_marks : trimmed s' = trimmed s ∖ {[sid]} ∧ prev_selected s' = delete sid (prev_selected s);
  fd_residency b : block_in_range s b → (holds_block sid s b → BlockResidency.peek (residency s') (lidx s) b = Some BlockResidency.ON_GPU) ∧
    (¬ holds_block sid s b → BlockResidency.peek (residency s') (lidx s) b = BlockResidency.peek (residency s) (lidx s) b);
  fd_rest : cfg s' = cfg s ∧ summary_store s' = summary_store s ∧ active_seqs s' = active_seqs s ∧ stats s' = stats s ∧
    stream_pool s' = stream_pool s ∧ selected_log s' = selected_log s
}.
Lemma freed_stored sid s s' k : shared_inv s → freed sid s s' → stored s' k = if decide (k.1 = sid) then None else stored s k.
Proof.
  intros Hs Hf. assert (lidx s' = lidx s ∧ write_through s' = write_through s) as [Hl Hw].
  { unfold lidx, write_through. by destruct (fd_rest _ _ _ Hf) as [-> _]. }
  assert (backing s' = of_others sid (backing s)) as Hb.
  { destruct (fd_cpu _ _ _ Hf) as [H1 H2]. unfold backing. rewrite Hw. by destruct (write_through s). }
  assert (∀ slot, arena s' slot = arena s slot) as Ha by (intros slot; destruct (fd_gpu _ _ _ Hf) as [H1 H2]; unfold arena; by rewrite H1, H2).
  unfold stored. rewrite (fd_arena _ _ _ Hf), Hb, !of_others_get. case_decide; [done|]. destruct (od_get k (resident_map s)) as [slot|]; [done|].
  destruct (od_get k (backing s)) as [c|] eqn:Hc; [|done]. simpl. unfold cpu_content. rewrite Hl. apply (fd_content _ _ _ Hf); [apply Hs|].
  destruct (sh_free _ Hs) as (fr & _ & _ & Hr). rewrite Forall_forall in Hr.
  assert (c ∈ (cpu_slots s).*2 ++ (host_slots s).*2 ++ fr) as Hin; [|apply Hr in Hin; lia].
  apply od_get_elem in Hc. unfold backing in Hc. destruct (write_through s); rewrite !elem_of_app; [right; left|left]; by apply (list_elem_of_fmap_2 snd) in Hc.
Qed.

(** The residency array keeps its shape. *)
Definition same_numbering s s' : Prop :=
  BlockResidency.wf (residency s') ∧ BlockResidency.num_layers (residency s') = BlockResidency.num_layers (residency s) ∧
  BlockResidency.max_blocks (residency s') = BlockResidency.max_blocks (residency s).

Lemma of_others_keys sid d k : k ∈ (of_others sid d).*1 → k ∈ d.*1.
Proof. intros (kv & -> & [_ Hin]%list_elem_of_filter)%list_elem_of_fmap. by apply list_elem_of_fmap_2. Qed.
Lemma seq_values_perm sid d : d.*2 ≡ₚ (of_seq sid d).*2 ++ (of_others sid d).*2.
Proof. rewrite <-fmap_app. by rewrite <-of_seq_perm. Qed.
(** The slots a sequence held move to the free list, as one permutation. *)
Lemma moved_perm sid d fr : (of_others sid d).*2 ++ fr ++ (of_seq sid d).*2 ≡ₚ d.*2 ++ fr.
Proof. rewrite (seq_values_perm sid d). solve_Permutation. Qed.

Lemma freed_slot_map sid s s' : LRUSlotMap.inv (slot_map s) → freed sid s s' → LRUSlotMap.inv (slot_map s').
Proof.
  intros Hi Hf. pose proof (fd_arena _ _ _ Hf) as Ha. destruct (fd_slots _ _ _ Hf) as [Hc Hfr]. unfold resident_map in *.
  assert ((LRUSlotMap.key_to_slot (slot_map s')).*2 ++ LRUSlotMap.free_slots (slot_map s') ≡ₚ
          (LRUSlotMap.key_to_slot (slot_map s)).*2 ++ LRUSlotMap.free_slots (slot_map s)) as Hp by (rewrite Ha, Hfr; apply moved_perm).
  split.
  - rewrite Ha. apply of_others_wf, Hi.
  - rewrite Hp. apply Hi.
  - rewrite Hp, Hc. apply Hi.
  - apply Permutation_length in Hp. rewrite !length_app, !length_fmap in Hp. rewrite Hp, Hc. apply Hi.
Qed.
Lemma freed_inv sid s s' :
  shared_inv s → freed sid s s' → CpuKvBackingStore.same_shape (cpu_store s) (cpu_store s') → same_numbering s s' → shared_inv s'.
Proof.
  intros Hs Hf (Hcw & Hcl & Hcb) (Hrw & Hrl & Hrm). destruct (fd_cpu _ _ _ Hf) as [H1 H2]. pose proof (fd_arena _ _ _ Hf) as Ha.
  assert (lidx s' = lidx s) as Hl by (unfold lidx; by destruct (fd_rest _ _ _ Hf) as [-> _]). split.
  - eapply freed_slot_map; [apply Hs|done].
  - done.
  - rewrite Hl, Hcl. apply Hs.
  - done.
  - rewrite H1. apply of_others_wf, Hs.
  - rewrite H2. apply of_others_wf, Hs.
  - intros k Hk. unfold block_in_range, BlockResidency.in_range. rewrite Hl, Hrl, Hrm. apply (sh_keys _ Hs k).
    rewrite Ha, H1, H2 in Hk. destruct Hk as [Hk|[Hk|Hk]]; apply of_others_keys in Hk; tauto.
  - destruct (sh_free _ Hs) as (fr & Hfr & Hnd & Hrg). destruct (fd_cpu_free _ _ _ Hf) as (fr' & Hfr' & Hfree). simplify_eq.
    assert ((cpu_slots s').*2 ++ (host_slots s').*2 ++ fr ++ (of_seq sid (cpu_slots s)).*2 ++ (of_seq sid (host_slots s)).*2 ≡ₚ
            (cpu_slots s).*2 ++ (host_slots s).*2 ++ fr) as Hp.
    { rewrite H1, H2, (seq_values_perm sid (cpu_slots s)), (seq_values_perm sid (host_slots s)). solve_Permutation. }
    eexists. rewrite Hl. split_and!; [exact Hfree|by rewrite Hp|by rewrite Hp, Hcb].
Qed.

Lemma wp_free_request_shared sid s : shared_inv s →
  wp (free_request sid) s (λ _ s', freed sid s s' ∧ CpuKvBackingStore.same_shape (cpu_store s) (cpu_store s') ∧ same_numbering s s').
Proof.
  intros Hs. destruct (sh_free _ Hs) as (fr & Hfr & _). unfold free_request, layer. wp_step. wp_step. wp_step.
  rewrite keys_of_seq. fold (resident_map s). apply wp_free_seq_slots; [apply Hs|]. set (s1 := with_slot_map _ s).
  wp_step. wp_step. wp_step. rewrite keys_of_seq.
  apply (wp_release_seq sid cpu_slots with_cpu_slots s1 (lidx s) fr); [done|done|done|done|done|done|apply Hs|apply Hs|apply Hs|done|].
  intros cs1 Hsh1 Hco1 Hfr1 Hlay1. set (s2 := with_cpu_store cs1 _). wp_step. wp_step. wp_step. rewrite keys_of_seq.
  apply (wp_release_seq sid host_slots with_host_slots s2 (lidx s) (fr ++ (of_seq sid (cpu_slots s)).*2));
    [done|done|done|done|done|done|apply Hs|apply Hsh1| |exact Hfr1|].
  { destruct Hsh1 as (_ & Hnl1 & _). change (cpu_store s2) with cs1. rewrite Hnl1. apply Hs. }
  intros cs2 Hsh2 Hco2 Hfr2 Hlay2. do 6 wp_step. set (s3 := with_prev_selected _ _).
  assert (∀ b, b ∈ ((of_seq sid (resident_map s)).*1 ++ (of_seq sid (cpu_slots s)).*1 ++ (of_seq sid (host_slots s)).*1).*2 ↔ holds_block sid s b) as Hheld.
  { intros b. rewrite list_elem_of_fmap. unfold holds_block, of_seq. split.
    - intros ([sid' b'] & -> & Hin). rewrite !elem_of_app in Hin. simpl.
      destruct Hin as [Hin|[Hin|Hin]]; apply list_elem_of_fmap in Hin as ([k v] & Hk & [He Hin]%list_elem_of_filter); simpl in *; subst k; simpl in *; subst sid';
        apply (list_elem_of_fmap_2 fst) in Hin; simpl in Hin; auto.
    - intros Hin. exists (sid, b). split; [done|]. rewrite !elem_of_app.
      destruct Hin as [Hin|[Hin|Hin]]; apply list_elem_of_fmap in Hin as ([k v] & Hk & Hin); simpl in Hk; subst k; [left|right; left|right; right];
        apply list_elem_of_fmap; exists ((sid, b), v); (split; [done|]); by apply list_elem_of_filter. }
  apply wp_mark_all; [done|apply Hs| |].
  { intros b Hb%Hheld. apply (sh_keys _ Hs (sid, b)). destruct Hb as [?|[?|?]]; tauto. }
  intros r Hrwf Hnl Hmb Hpk. split_and!; [split; try done|by eapply CpuKvBackingStore.same_shape_trans|done].
  - intros L sl H1 H2. etrans; [by apply Hco2|by apply Hco1].
  - exists fr. split; [done|]. change (cpu_store (with_residency r s3)) with cs2. by rewrite Hfr2, <-app_assoc.
  - intros L H1 H2. etrans; [by apply Hlay2|by apply Hlay1].
  - intros b Hb. change (residency (with_residency r s3)) with r. change (lidx s3) with (lidx s) in Hpk. rewrite Hpk by done.
    split; intros Hh; [by rewrite decide_True by by apply Hheld|by rewrite decide_False by by rewrite Hheld].
Qed.

(** C6: [free_request] in a manager that holds blocks of any number of sequences: it
    succeeds; both tiers lose exactly the entries of the sequence and keep the order and
    the slots of all others; the arena slots and CPU slots of the sequence, and no others,
    are added to the free lists, those of other layers staying as they are; no row of
    either tier is written, so the data held for every block of another sequence is
    unchanged and none is held for the sequence; its trim mark and its last selection are
    forgotten; the residency entries of its block numbers are reset and all others kept. *)
Theorem free_request_correct sid s :
  shared_inv s →
  ∃ s', free_request sid s = (Ret tt, s') ∧ freed sid s s' ∧ shared_inv s' ∧
    ∀ k, stored s' k = if decide (k.1 = sid) then None else stored s k.
Proof.
  intros Hs. destruct (wp_run _ _ _ (wp_free_request_shared sid s Hs)) as ([] & s' & Hrun & Hf & Hcs & Hr). exists s'.
  split_and!; [done|done|by eapply freed_inv|]. intros k. by apply freed_stored.
Qed.
End free.
