(* ===== verification/QuestTierExamples.v ===== *)
(** * Quest backend: construction, concrete runs and boundary behaviour

    A freshly constructed manager satisfies the invariant; the invariant can be
    checked by evaluation on concrete states, which gives the instances of the
    theorems at concrete inputs and the runs that mark where their side
    conditions are needed. *)

From S2P Require Import Prelude OrderedDict QuestStore QuestTier QuestTierInv QuestTierProps QuestTierWrite QuestTierPrefill QuestTierFree.

Open Scope Z_scope.
Import TierManager.

(** ** Construction *)
Section construction.
Context {row T : Type}.
Notation block := (list row).
Notation TM := (TierManager.t row T).

(** C7: [TierManager.__init__] over a separate GPU pool of [gpu_budget] slots,
    a fresh CPU pool and a fresh residency array establishes the invariant with
    every slot of both tiers free; an aliased pool is refused. *)
Theorem init_correct c (gk gv : list block) (ss : BlockSummaryStore.t T) nl mb uninit bpl cs sid :
  0 < gpu_budget c → Z.of_nat (length gk) = gpu_budget c → Z.of_nat (length gv) = gpu_budget c →
  0 ≤ layer_idx c < nl → CpuKvBackingStore.init uninit nl bpl = Ret cs →
  init c gk gv ss (BlockResidency.init nl mb) cs None true = Raise AssertionError ∧
  ∃ s : TM, init c gk gv ss (BlockResidency.init nl mb) cs None false = Ret s ∧
    tm_inv sid None [] s ∧ released s ∧ ∀ b, block_in_range s b ↔ 0 ≤ b < mb.
Proof.
  intros Hb Hgk Hgv Hl Hcs. split; [done|]. eexists. split; [done|].
  split; [by apply (fresh_inv c gk gv ss nl mb uninit bpl cs)|].
  split; [by apply (fresh_released c gk gv ss nl mb uninit bpl cs)|].
  intros b. unfold block_in_range, BlockResidency.in_range, lidx. simpl. lia.
Qed.
End construction.

(** ** Checking the invariant by evaluation *)
Section checker.
Context {row T : Type} `{EqDecision row}.
Notation block := (list row).
Notation TM := (TierManager.t row T).
Implicit Types (s : TM).

Definition checkable sid s : Prop :=
  let sm := slot_map s in
  let cs := cpu_store s in
  let res := residency s in
  let d := resident_map s in
  let fr := default [] (CpuKvBackingStore.free_of cs (lidx s)) in
  (if stream_pool s then False else True) ∧
  (NoDup d.*1 ∧ NoDup (d.*2 ++ LRUSlotMap.free_slots sm) ∧
   Forall (λ sl, 0 ≤ sl < LRUSlotMap.capacity sm) (d.*2 ++ LRUSlotMap.free_slots sm) ∧
   Z.of_nat (length d + length (LRUSlotMap.free_slots sm)) = LRUSlotMap.capacity sm) ∧
  0 < LRUSlotMap.capacity sm ∧
  Z.of_nat (length (gpu_k s)) = LRUSlotMap.capacity sm ∧
  Z.of_nat (length (gpu_v s)) = LRUSlotMap.capacity sm ∧
  (length (CpuKvBackingStore.k cs) = Z.to_nat (CpuKvBackingStore.num_layers cs) ∧
   Forall (λ r, length r = Z.to_nat (CpuKvBackingStore.blocks_per_layer cs)) (CpuKvBackingStore.k cs) ∧
   length (CpuKvBackingStore.v cs) = Z.to_nat (CpuKvBackingStore.num_layers cs) ∧
   Forall (λ r, length r = Z.to_nat (CpuKvBackingStore.blocks_per_layer cs)) (CpuKvBackingStore.v cs) ∧
   length (CpuKvBackingStore.free_lists cs) = Z.to_nat (CpuKvBackingStore.num_layers cs)) ∧
  0 ≤ lidx s < CpuKvBackingStore.num_layers cs ∧
  (length (BlockResidency.states res) = Z.to_nat (BlockResidency.num_layers res) ∧
   Forall (λ r, length r = Z.to_nat (BlockResidency.max_blocks res)) (BlockResidency.states res)) ∧
  NoDup (backing s).*1 ∧
  (if write_through s then cpu_slots s else host_slots s) = [] ∧
  (is_Some (CpuKvBackingStore.free_of cs (lidx s)) ∧ NoDup ((backing s).*2 ++ fr) ∧
   Forall (λ c, 0 ≤ c < CpuKvBackingStore.blocks_per_layer cs) ((backing s).*2 ++ fr) ∧
   Z.of_nat (length ((backing s).*2 ++ fr)) = CpuKvBackingStore.blocks_per_layer cs) ∧
  (0 ≤ lidx s < BlockResidency.num_layers res) ∧
  Forall (λ k, k.1 = sid ∧ 0 ≤ k.2 < BlockResidency.max_blocks res) (d.*1 ++ (backing s).*1) ∧
  Forall (λ b, BlockResidency.peek res (lidx s) b = Some (expected_residency s (sid, b)))
    (seqZ 0 (BlockResidency.max_blocks res)) ∧
  Forall (λ kv, if od_get kv.1 (backing s) is Some c
    then write_through s = true ∧ arena s kv.2 = cpu_content s c else True) d.

#[global] Instance checkable_dec sid s : Decision (checkable sid s).
Proof.
  unfold checkable. repeat apply and_dec; try apply _.
  - destruct (stream_pool s); apply _.
  - apply Forall_dec. intros kv. destruct (od_get kv.1 (backing s)); apply _.
Defined.

Lemma checkable_inv sid s : checkable sid s → tm_inv sid None [] s.
Proof.
  intros (H1 & (?&?&?&?) & ? & ? & ? & (?&?&?&?&?) & ? & (?&?) & ? & ? & (Hfr&?&?&?) & Hl & Hk & Hr & Hb).
  rewrite Forall_forall in Hk. rewrite Forall_forall in Hr. rewrite Forall_forall in Hb. destruct Hfr as [fr Hfr]. rewrite Hfr in *. simpl in *.
  split; try done.
  - by destruct (stream_pool s).
  - by exists fr.
  - intros k Hin. destruct (Hk k) as [? ?]; [set_solver|]. done.
  - intros b [_ Hb'] _. apply Hr. apply elem_of_seqZ. lia.
  - intros k slot c _ Hg%od_get_elem Hc. specialize (Hb (k, slot) Hg). simpl in Hb. by rewrite Hc in Hb.
Qed.
End checker.

(** ** A concrete manager: three arena slots, four CPU slots, blocks of two rows *)
Definition demo_ops : tensor_ops Z Z :=
  TensorOps (foldr Z.max 0) (foldr Z.min 100) Z.add Z.sub (λ x, x / 2)
    (λ l c, foldr (λ x a, Z.abs (x - c) + a) 0 l / Z.of_nat (length l)) 0.

Definition demo_cpu : CpuKvBackingStore.t (list Z) :=
  CpuKvBackingStore.mk [replicate 4 [0; 0]] [replicate 4 [0; 0]] 1 4 [[3; 2; 1; 0]]
    (CpuKvBackingStore.mkStats 0 0 0 0).

Definition demo_summary : BlockSummaryStore.t Z :=
  BlockSummaryStore.mk 1 8 2 BlockSummaryStore.quest_minmax [replicate 8 (0, 0)].

Definition demo_start (wt : bool) (ord : ordering) : t Z Z :=
  mk (mkConfig 0 3 false false wt ord false)
     (replicate 3 [0; 0]) (replicate 3 [0; 0]) demo_summary (BlockResidency.init 1 8)
     demo_cpu None None (LRUSlotMap.init 3) [] [] ∅ stats0 [] ∅.

Definition demo_blocks : list (list Z) := [[10; 11]; [20; 21]; [30; 31]; [40; 41]].

(** The state after a run, whatever its result. *)
Definition after {S A} (m : M S A) (s : S) : S := (m s).2.

(** Four prompt blocks handed over, then a live block. *)
Definition demo_prompt (wt : bool) (ord : ordering) : t Z Z :=
  after (trim_to_working_set 7 (if wt then 3 else 4) demo_blocks demo_blocks [3; 2; 1; 0])
    (demo_start wt ord).
Definition demo_live (wt : bool) (ord : ordering) : t Z Z :=
  after (write_live_block 7 (if wt then 3 else 4) [50; 0] [51; 0]) (demo_prompt wt ord).

Ltac check_inv := apply checkable_inv, (bool_decide_unpack _); vm_compute; exact I.

Lemma ensure_resident_correct_witness :
  ∃ s', ensure_resident 7 [1; 3] (Some [4]) (demo_live false lru) = (Ret None, s') ∧
    tm_inv 7 None [] s' ∧
    (∀ k, stored s' k = stored (demo_live false lru) k) ∧
    (∀ b, b ∈ [1; 3] → is_resident 7 b s' = true) ∧
    (∀ b, b ∈ [4] → is_resident 7 b (demo_live false lru) = true → is_resident 7 b s' = true).
Proof.
  apply (ensure_resident_correct 7 [1; 3] (Some [4]) (demo_live false lru)). split.
  - check_inv.
  - vm_compute. discriminate.
  - intros b Hb. assert (b = 1 ∨ b = 3) as [-> | ->] by set_solver; vm_compute; by eexists.
  - vm_compute. discriminate.
  - vm_compute. lia.
Defined.

Lemma write_live_block_correct_witness :
  ∃ slot s', write_live_block 7 4 [50; 0] [51; 0] (demo_prompt false lru) = (Ret slot, s') ∧
    tm_inv 7 None [] s' ∧ writes_to (demo_prompt false lru) s' (7, 4) ([50; 0], [51; 0]) ∧
    od_get (7, 4) (resident_map s') = Some slot ∧
    (resident_map s').*1 = recency_after (7, 4) (slot_map (demo_prompt false lru)) ∧
    (∀ k, k ≠ (7, 4) → k ∈ (resident_map s').*1 → od_get k (resident_map s') = od_get k (resident_map (demo_prompt false lru))).
Proof.
  apply (write_live_block_correct 7 4 [50; 0] [51; 0] (demo_prompt false lru)).
  - check_inv.
  - vm_compute. intuition congruence.
  - vm_compute. reflexivity.
  - intros sm slot v _ _. vm_compute. by exists [3], 2.
Defined.

Lemma on_block_filled_correct_witness :
  ∃ slot s', on_block_filled demo_ops 7 4 [50; 52] [51; 53] (demo_prompt false lru) =
      (Ret slot, s') ∧
    tm_inv 7 None [] s' ∧ writes_to (demo_prompt false lru) s' (7, 4) ([50; 52], [51; 53]) ∧
    od_get (7, 4) (resident_map s') = Some slot ∧ mirrored s' (7, 4) ∧
    BlockSummaryStore.lookup_summary (summary_store s') (lidx (demo_prompt false lru)) 4 =
      Some (digest_of demo_ops (demo_prompt false lru) [50; 52]).
Proof.
  apply (on_block_filled_correct demo_ops 7 4 [50; 52] [51; 53] (demo_prompt false lru)).
  - check_inv.
  - vm_compute. intuition congruence.
  - vm_compute. reflexivity.
  - intros sm slot v _ _. vm_compute. by exists [3], 2.
  - vm_compute. repeat split; repeat constructor; discriminate.
  - vm_compute. discriminate.
Defined.

Lemma append_decode_token_correct_witness :
  ∃ s' kb vb, append_decode_token_kvshare demo_ops 7 9 60 61 2 (demo_live false lru) =
      (Ret tt, s') ∧
    tm_inv 7 None [] s' ∧
    writes_to (demo_live false lru) s' (7, 4) (put_row 1 60 kb, put_row 1 61 vb) ∧
    (∀ kv, stored (demo_live false lru) (7, 4) = Some kv → kv = (kb, vb)) ∧
    Z.of_nat (length kb) = 2 ∧ Z.of_nat (length vb) = 2 ∧
    is_resident 7 4 s' = true ∧
    (1 = 2 - 1 → mirrored s' (7, 4) ∧
       BlockSummaryStore.lookup_summary (summary_store s') (lidx (demo_live false lru)) 4 =
         Some (digest_of demo_ops (demo_live false lru) (put_row 1 60 kb))).
Proof.
  apply (append_decode_token_correct demo_ops 7 9 60 61 2 (demo_live false lru)).
  - lia.
  - check_inv.
  - split; vm_compute; by repeat constructor.
  - vm_compute. intuition congruence.
  - vm_compute. reflexivity.
  - intros sm slot v _ _. vm_compute. by exists [3], 2.
  - intros _. vm_compute. repeat split; repeat constructor; discriminate.
Defined.

Lemma trim_to_working_set_correct_witness :
  ∃ s', trim_to_working_set 7 4 demo_blocks demo_blocks [3; 2; 1; 0] (demo_start false lru) =
      (Ret tt, s') ∧
    tm_inv 7 None [] s' ∧
    (∀ b, stored s' (7, b) =
       if decide (0 ≤ b < 4) then prompt_kv demo_blocks demo_blocks [3; 2; 1; 0] b else None) ∧
    (∀ b, is_resident 7 b s' = true ↔ 2 ≤ b < 4) ∧
    Z.of_nat (length (resident_map s')) < LRUSlotMap.capacity (slot_map s').
Proof.
  apply (trim_to_working_set_correct 7 4 demo_blocks demo_blocks [3; 2; 1; 0] (demo_start false lru)).
  - check_inv.
  - set_solver.
  - vm_compute. reflexivity.
  - vm_compute. reflexivity.
  - lia.
  - intros b Hb. assert (b = 0 ∨ b = 1 ∨ b = 2 ∨ b = 3) as [-> | [-> | [-> | ->]]] by lia;
      (split; [vm_compute; intuition congruence|vm_compute; by eexists]).
  - vm_compute. congruence.
Defined.

(** Two sequences: block 5 of sequence 8 joins the blocks of sequence 7. *)
Definition demo_two : t Z Z := after (write_live_block 8 5 [70; 0] [71; 0]) (demo_live false lru).

Lemma demo_two_shared : shared_inv demo_two.
Proof.
  split; [split|..]; try (vm_compute; repeat constructor; by first [lia|set_solver]).
  eexists. split; [vm_compute; reflexivity|]. split; vm_compute; repeat constructor; by first [lia|set_solver].
Qed.

Lemma free_request_correct_witness :
  (∃ s', free_request 7 demo_two = (Ret tt, s') ∧ freed 7 demo_two s' ∧ shared_inv s' ∧
     ∀ k, stored s' k = if decide (k.1 = 7) then None else stored demo_two k) ∧
  is_Some (stored demo_two (7, 3)) ∧ is_Some (stored demo_two (8, 5)).
Proof.
  split; [apply (free_request_correct 7 demo_two); exact demo_two_shared|]. vm_compute. split; by eexists.
Defined.

Lemma init_correct_witness :
  init (mkConfig 0 3 false false false lru false) (replicate 3 [0; 0]) (replicate 3 [0; 0])
    demo_summary (BlockResidency.init 1 8) demo_cpu None true = Raise AssertionError ∧
  ∃ s : t Z Z, init (mkConfig 0 3 false false false lru false) (replicate 3 [0; 0])
      (replicate 3 [0; 0]) demo_summary (BlockResidency.init 1 8) demo_cpu None false = Ret s ∧
    tm_inv 7 None [] s ∧ released s ∧ ∀ b, block_in_range s b ↔ 0 ≤ b < 8.
Proof.
  apply (init_correct (mkConfig 0 3 false false false lru false) (replicate 3 [0; 0])
    (replicate 3 [0; 0]) demo_summary 1 8 [0; 0] 4 demo_cpu 7); try done; simpl; lia.
Defined.

(** ** Where the side conditions are needed *)

(** The mixture ordering with block 2 selected at the previous step. *)
Definition demo_mixture : t Z Z := after (set_prev_selected 7 [2]) (demo_live false mixture).
Definition demo_mixture_after : t Z Z := after (ensure_resident 7 [1; 3] (Some [4])) demo_mixture.

(** Under the mixture ordering [ensure_resident] can displace the live
    block it was told to keep: all the conditions of the lru case hold, the call
    succeeds, and the block is gone from the arena, its place taken because the
    blocks of the previous step come first. The next decode token is then
    written to a fresh slot and the row the block already had is lost. *)
Theorem mixture_displaces_live_block :
  tm_inv 7 None [] demo_mixture ∧
  Z.of_nat (length (remove_dups (step_keys 7 (Some [4]) [1; 3]))) =
    LRUSlotMap.capacity (slot_map demo_mixture) ∧
  is_resident 7 4 demo_mixture = true ∧
  (ensure_resident 7 [1; 3] (Some [4]) demo_mixture).1 = Ret None ∧
  is_resident 7 4 demo_mixture_after = false ∧
  stored demo_mixture_after (7, 4) = Some ([50; 0], [51; 0]) ∧
  stored (after (append_decode_token_kvshare demo_ops 7 9 60 61 2) demo_mixture_after) (7, 4) ≠
    Some ([50; 60], [51; 61]).
Proof. split; [check_inv|]. vm_compute. split_and!; try done. Qed.

(** The residency array has one entry per block id, not per sequence: once
    a sequence has block 0 on the CPU, handing over a second sequence that
    spills its own block 0 fails with [ValueError]. *)
Theorem second_sequence_spill_fails :
  (trim_to_working_set 7 4 demo_blocks demo_blocks [3; 2; 1; 0] (demo_start false lru)).1 = Ret tt ∧
  (trim_to_working_set 8 4 demo_blocks demo_blocks [3; 2; 1; 0] (demo_prompt false lru)).1 =
    Raise ValueError.
Proof. by vm_compute. Qed.

(** A manager whose CPU pool has exactly the two slots the prompt needs. *)
Definition tight_start : t Z Z :=
  with_cpu_store (CpuKvBackingStore.mk [replicate 2 [0; 0]] [replicate 2 [0; 0]] 1 2 [[1; 0]]
    (CpuKvBackingStore.mkStats 0 0 0 0)) (demo_start false lru).
Definition tight_live : t Z Z :=
  after (write_live_block 7 4 [50; 0] [51; 0])
    (after (trim_to_working_set 7 4 demo_blocks demo_blocks [3; 2; 1; 0]) tight_start).
Definition tight_after : t Z Z := after (ensure_resident 7 [1] None) tight_live.

(** With no free CPU slot left a reload that must displace a block fails
    with [RuntimeError] after it has already taken the requested block's CPU slot:
    the block's data can no longer be reached and its slot is in no free list. *)
Theorem full_pool_reload_loses_block :
  tm_inv 7 None [] tight_live ∧
  stored tight_live (7, 1) = Some ([30; 31], [30; 31]) ∧
  (ensure_resident 7 [1] None tight_live).1 = Raise RuntimeError ∧
  od_get (7, 1) (cpu_slots tight_after) = None ∧
  cpu_free_count tight_after = 0%nat ∧ length (cpu_slots tight_after) = 1%nat.
Proof. split; [check_inv|]. by vm_compute. Qed.
