(* ===== verification/QuestStreams.v ===== *)
(** * Quest backend: when the queued copies run

    With a stream pool, the tier manager only queues its copies. [stream_step]
    is the execution of the queues: either stream may run its next copy at any
    time, each stream in issue order, with no order between the two (the code
    issues no [wait_stream]/[wait_event] between them). *)

From S2P Require Import Prelude OrderedDict QuestStore QuestTier QuestTierInv QuestTierProps QuestTierWrite QuestTierPrefill QuestTierExamples.

Open Scope Z_scope.
Import TierManager QuestStreamPool.

Section streams.
Context {row T : Type}.
Notation block := (list row).
Notation TM := (TierManager.t row T).
Implicit Types (s : TM).

Inductive which := h2d | d2h.

Definition stream_of (w : which) (p : QuestStreamPool.t block) : stream block :=
  match w with h2d => h2d_stream p | d2h => d2h_stream p end.

Definition finish_one (w : which) (p : QuestStreamPool.t block) : QuestStreamPool.t block :=
  let bump (st : stream block) := mkStream (issued st) (S (ndone st)) in
  match w with
  | h2d => QuestStreamPool.mk (bump (h2d_stream p)) (d2h_stream p) (pending p)
  | d2h => QuestStreamPool.mk (h2d_stream p) (bump (d2h_stream p)) (pending p)
  end.

(** The memory effect of one copy. *)
Definition run_copy (op : copy_op block) : M TM unit :=
  L <- layer ;;
  match op with
  | CopyH2D PlaneK c slot =>
      b <- on_cpu_store (CpuKvBackingStore.read_k L c) ;;
      s <- get ;;
      g <- of_option IndexError (list_set (gpu_k s) slot b) ;; put (with_gpu_k g s)
  | CopyH2D PlaneV c slot =>
      b <- on_cpu_store (CpuKvBackingStore.read_v L c) ;;
      s <- get ;;
      g <- of_option IndexError (list_set (gpu_v s) slot b) ;; put (with_gpu_v g s)
  | CopyD2H PlaneK src c =>
      s <- get ;;
      b <- of_option IndexError (match src with
             | Tensor b => Some b | ArenaSlot slot => list_get (gpu_k s) slot end) ;;
      on_cpu_store (CpuKvBackingStore.write_k L c b)
  | CopyD2H PlaneV src c =>
      s <- get ;;
      b <- of_option IndexError (match src with
             | Tensor b => Some b | ArenaSlot slot => list_get (gpu_v s) slot end) ;;
      on_cpu_store (CpuKvBackingStore.write_v L c b)
  end.

(** The next copy of a stream runs. *)
Inductive stream_step : TM → TM → Prop :=
  | stream_step_run w s s' p op :
      stream_pool s = Some p →
      issued (stream_of w p) !! ndone (stream_of w p) = Some op →
      run_copy op s = (Ret tt, s') →
      stream_step s (with_stream_pool (Some (finish_one w p)) s').

Definition quiescent s : Prop :=
  ∀ p, stream_pool s = Some p →
    ndone (h2d_stream p) = length (issued (h2d_stream p)) ∧
    ndone (d2h_stream p) = length (issued (d2h_stream p)).

(** One schedule, as a function. *)
Definition run_next (w : which) (s : TM) : option TM :=
  p ← stream_pool s;
  op ← issued (stream_of w p) !! ndone (stream_of w p);
  match run_copy op s with
  | (Ret _, s') => Some (with_stream_pool (Some (finish_one w p)) s')
  | _ => None
  end.

Fixpoint run_schedule (ws : list which) (s : TM) : option TM :=
  match ws with
  | [] => Some s
  | w :: ws => s' ← run_next w s; run_schedule ws s'
  end.

Lemma run_next_step w s s' : run_next w s = Some s' → stream_step s s'.
Proof.
  unfold run_next. intros H. destruct (stream_pool s) as [p|] eqn:Hp; [|done]. simpl in H.
  destruct (issued (stream_of w p) !! ndone (stream_of w p)) as [op|] eqn:Hop; [|done].
  simpl in H. destruct (run_copy op s) as [[[]|e] s1] eqn:Hr; [|done]. simplify_eq.
  by econstructor.
Qed.

Lemma run_schedule_steps ws s s' : run_schedule ws s = Some s' → rtc stream_step s s'.
Proof.
  revert s. induction ws as [|w ws IH]; intros s H; simpl in H; [by simplify_eq|].
  destruct (run_next w s) as [s1|] eqn:Hn; [|done]. simpl in H.
  eapply rtc_l; [by eapply run_next_step|by apply IH].
Qed.
End streams.

(** ** The copies of one reload race

    [demo_live]: blocks 2, 3 and the live block 4 fill the arena, 0 and 1 are
    on the CPU. [ensure_resident] of 1 displaces 2 into a CPU slot and loads 1
    into the arena slot 2 had, on two unordered streams. *)
Definition demo_async : TierManager.t Z Z := with_stream_pool (Some QuestStreamPool.init) (demo_live false lru).
Definition demo_issued : TierManager.t Z Z := after (ensure_resident 7 [1] (Some [3; 4])) demo_async.
Definition demo_synced : TierManager.t Z Z := after (ensure_resident 7 [1] (Some [3; 4])) (demo_live false lru).

Definition demo_in_order : option (TierManager.t Z Z) := run_schedule [d2h; d2h; h2d; h2d] demo_issued.
Definition demo_raced : option (TierManager.t Z Z) := run_schedule [h2d; h2d; d2h; d2h] demo_issued.

Definition quiescentb {row T} (s : TierManager.t row T) : bool :=
  match stream_pool s with
  | None => true
  | Some p => bool_decide (ndone (h2d_stream p) = length (issued (h2d_stream p))) &&
              bool_decide (ndone (d2h_stream p) = length (issued (d2h_stream p)))
  end.

Lemma quiescentb_spec {row T} (s : TierManager.t row T) : quiescentb s = true → quiescent s.
Proof.
  unfold quiescentb, quiescent. intros H p Hp. rewrite Hp in H.
  apply andb_true_iff in H as [H1 H2]. by rewrite !bool_decide_eq_true in H1, H2.
Qed.

(** A complete execution of [ws] from [s] that leaves [kv] for block [k]. *)
Definition ends_with {row T} `{EqDecision row} (ws : list which) (s : TierManager.t row T)
    (k : LRUSlotMap.key) (kv : list row * list row) : bool :=
  match run_schedule ws s with
  | Some s' => quiescentb s' && bool_decide (stored s' k = Some kv)
  | None => false
  end.

Lemma ends_with_spec {row T} `{EqDecision row} ws (s : TierManager.t row T) k kv :
  ends_with ws s k kv = true →
  ∃ s', rtc stream_step s s' ∧ quiescent s' ∧ stored s' k = Some kv.
Proof.
  unfold ends_with. destruct (run_schedule ws s) as [s'|] eqn:Hr; [|done].
  intros [Hq Hs]%andb_true_iff. rewrite bool_decide_eq_true in Hs. exists s'.
  eauto using run_schedule_steps, quiescentb_spec.
Qed.

(** The two streams of an asynchronous write-back reload are unordered. From the state
    one [ensure_resident] call leaves, some execution of the queued copies ends
    with the displaced block 2 holding its own data, as the synchronous path
    does, and some execution ends with it holding the data of the block loaded
    over it. *)
Lemma async_reload_race :
  stored (demo_live false lru) (7, 2) = Some ([20; 21], [20; 21]) ∧
  stored demo_synced (7, 2) = Some ([20; 21], [20; 21]) ∧
  (∃ s, rtc stream_step demo_issued s ∧ quiescent s ∧
     stored s (7, 2) = Some ([20; 21], [20; 21])) ∧
  (∃ s, rtc stream_step demo_issued s ∧ quiescent s ∧
     stored s (7, 2) = Some ([30; 31], [30; 31])).
Proof.
  split_and!; [by vm_compute|by vm_compute| |].
  - apply (ends_with_spec [d2h; d2h; h2d; h2d]). by vm_compute.
  - apply (ends_with_spec [h2d; h2d; d2h; d2h]). by vm_compute.
Qed.

(** Two reloads: the CPU slot the first one frees is handed to the second
    eviction while the first load from it is still queued. *)
Definition demo_issued2 : TierManager.t Z Z := after (ensure_resident 7 [0; 1] (Some [4])) demo_async.

(** Running the device-to-host stream first is no remedy: the CPU slot that
    a queued load still has to read is free as soon as it is queued, and a later
    eviction of the same call overwrites it, so that the reloaded block 0 ends up
    with the data of the displaced block. *)
Lemma async_cpu_slot_reuse :
  stored (demo_live false lru) (7, 0) = Some ([40; 41], [40; 41]) ∧
  stored (demo_live false lru) (7, 3) = Some ([10; 11], [10; 11]) ∧
  ∃ s, rtc stream_step demo_issued2 s ∧ quiescent s ∧
    stored s (7, 0) = Some ([10; 11], [10; 11]).
Proof.
  split_and!; [by vm_compute|by vm_compute|].
  apply (ends_with_spec [d2h; d2h; d2h; d2h; h2d; h2d; h2d; h2d]). by vm_compute.
Qed.
