(* ===== verification/QuestAsync.v ===== *)
(** * Quest backend: asynchronous reloads under write-through

    With write-through every block that can be displaced already has a host copy, so an
    asynchronous [ensure_resident] queues loads only. [blind] collects the operations that
    neither read nor write the arena or the streams; the asynchronous run is the
    synchronous one with the arena behind by the queued copies ([lags]), and every
    execution of the queue catches up. *)

From S2P Require Import Prelude OrderedDict QuestStore QuestTier QuestTierInv QuestTierProps QuestTierWrite QuestTierPrefill QuestTierFree QuestTierExamples QuestStreams.

Open Scope Z_scope.
Import TierManager QuestStreamPool.

Section async.
Context {row T : Type}.
Notation block := (list row).
Notation TM := (TierManager.t row T).
Notation pool := (QuestStreamPool.t block).
Implicit Types (s a : TM) (p : pool) (gk gv : list block).

(** The manager with another arena content and a stream pool. *)
Definition overlay gk gv p s : TM := with_stream_pool (Some p) (with_gpu_v gv (with_gpu_k gk s)).

(** ** Operations that see neither the arena nor the streams *)
Definition keeps s s' : Prop :=
  cfg s' = cfg s ∧ cpu_store s' = cpu_store s ∧ gpu_k s' = gpu_k s ∧ gpu_v s' = gpu_v s ∧ stream_pool s' = stream_pool s.
Definition blind {A} s (m : M TM A) : Prop :=
  ∀ x s', m s = (Ret x, s') → keeps s s' ∧ ∀ gk gv p, m (overlay gk gv p s) = (Ret x, overlay gk gv p s').

Lemma keeps_refl s : keeps s s.
Proof. done. Qed.
Lemma keeps_trans s1 s2 s3 : keeps s1 s2 → keeps s2 s3 → keeps s1 s3.
Proof. unfold keeps. intuition congruence. Qed.
Lemma blind_ret {A} s (x : A) : blind s (ret x).
Proof. intros y s' [= <- <-]. done. Qed.
Lemma blind_raise {A} s e : blind s (raise (A := A) e).
Proof. by intros y s' ?. Qed.
Lemma blind_bind {A B} s (m : M TM A) (f : A → M TM B) :
  blind s m → (∀ x s', keeps s s' → blind s' (f x)) → blind s (bind m f).
Proof.
  intros Hm Hf y s2. unfold bind. destruct (m s) as [[x|e] s1] eqn:Hr; [|done]. destruct (Hm _ _ Hr) as [Hk Ho]. intros H2.
  destruct (Hf x s1 Hk _ _ H2) as [Hk2 Ho2]. split; [by eapply keeps_trans|]. intros gk gv p. by rewrite Ho.
Qed.
Lemma blind_get {A} s (f : TM → M TM A) :
  (∀ gk gv p, f (overlay gk gv p s) = f s) → blind s (f s) → blind s (bind get f).
Proof. intros Ho Hf y s' Hr. unfold bind, get in *. destruct (Hf _ _ Hr) as [Hk Hov]. split; [done|]. intros gk gv p. by rewrite Ho. Qed.
Lemma blind_gets {A} s (g : TM → A) : (∀ gk gv p, g (overlay gk gv p s) = g s) → blind s (gets g).
Proof. intros Hg x s' [= <- <-]. split; [done|]. intros gk gv p. unfold gets. by rewrite Hg. Qed.
Lemma blind_modify s (g : TM → TM) :
  keeps s (g s) → (∀ gk gv p, g (overlay gk gv p s) = overlay gk gv p (g s)) → blind s (modify g).
Proof. intros Hk Hg x s' [= <- <-]. split; [done|]. intros gk gv p. unfold modify. by rewrite Hg. Qed.
Lemma blind_on_slot_map {A} s (m : M LRUSlotMap.t A) : blind s (on_slot_map m).
Proof. intros x s'. unfold on_slot_map, zoom. simpl. destruct (m (slot_map s)) as [r t]. by intros [= -> <-]. Qed.
Lemma blind_on_residency {A} s (m : M BlockResidency.t A) : blind s (on_residency m).
Proof. intros x s'. unfold on_residency, zoom. simpl. destruct (m (residency s)) as [r t]. by intros [= -> <-]. Qed.
Lemma blind_of_option {A} s e (o : option A) : blind s (of_option e o).
Proof. destruct o; [apply blind_ret|apply blind_raise]. Qed.
Lemma blind_assert s (c : bool) : blind s (assert_ c).
Proof. destruct c; [apply blind_ret|apply blind_raise]. Qed.
Lemma blind_bump s f : blind s (bump f).
Proof. by apply blind_modify. Qed.
Lemma blind_for_each {A} s (xs : list A) (body : A → M TM unit) :
  (∀ x s', keeps s s' → blind s' (body x)) → blind s (for_each xs body).
Proof.
  revert s. induction xs as [|x xs IH]; intros s Hb; simpl; [apply blind_ret|]. apply blind_bind; [by apply Hb|].
  intros _ s' Hk. apply IH. intros y s2 Hk2. apply Hb. by eapply keeps_trans.
Qed.
#[local] Hint Resolve keeps_refl blind_ret blind_raise blind_on_slot_map blind_on_residency blind_of_option blind_assert blind_bump : core.

Lemma blind_touch sid ids keep s : blind s (_touch_resident sid ids keep).
Proof.
  unfold _touch_resident.
  assert (∀ b s, blind s (s <- get ;; if is_resident sid b s then _ <- on_slot_map (LRUSlotMap.get (sid, b)) ;; ret tt else ret tt)%py) as Hb.
  { intros b s1. apply blind_get; [done|]. destruct (is_resident sid b s1); [apply blind_bind|]; auto. }
  apply blind_bind; [|intros _ s' _]; apply blind_for_each; auto.
Qed.

(** Under write-through the spill hook only forgets the arena slot. *)
Lemma blind_spill_hook s ev slot : write_through s = true → blind s (spill_hook ev slot).
Proof.
  intros Hw. destruct ev as [[sid b]|]; simpl; [|auto]. apply blind_get; [done|]. unfold write_through in Hw. rewrite Hw.
  unfold _drop_gpu_slot. apply blind_get; [done|]. apply blind_bind; [auto|]. intros _ s1 _.
  apply blind_bind; [by apply blind_gets|]. intros L s2 _. repeat (apply blind_bind; [auto|intros ???]). auto.
Qed.
Lemma blind_take s k : write_through s = true → blind s (take_cpu_slot k).
Proof. intros Hw. unfold take_cpu_slot. apply blind_get; [done|]. unfold write_through in Hw. rewrite Hw. auto. Qed.

(** Everything one reload does before the copy. *)
Definition reload_head sid b : M TM (Z * Z * Z * bool) :=
  (c <- take_cpu_slot (sid, b) ;;
   s <- get ;;
   '(slot, evicted) <- on_slot_map (LRUSlotMap.add (sid, b) (_protected_keys sid s)) ;;
   spill_hook evicted slot ;;
   L <- layer ;;
   on_residency (BlockResidency.begin_load L b) ;;
   ret (c, slot, L, enable_write_through (cfg s)))%py.
Lemma blind_head sid b s : write_through s = true → blind s (reload_head sid b).
Proof.
  intros Hw. unfold reload_head. apply blind_bind; [by apply blind_take|]. intros c s1 Hk1.
  apply blind_get; [done|]. apply blind_bind; [auto|]. intros [slot ev] s2 Hk2.
  apply blind_bind; [apply blind_spill_hook|intros _ s3 _].
  { unfold write_through in *. destruct Hk2 as [-> _], Hk1 as [-> _]. done. }
  apply blind_bind; [by apply blind_gets|]. intros L s4 _. apply blind_bind; auto.
Qed.
Definition reload_tail L b : M TM unit :=
  (on_residency (BlockResidency.complete_load L b) ;; bump (bump_load_h2d 1))%py.
Lemma blind_tail L b s : blind s (reload_tail L b).
Proof. apply blind_bind; auto. Qed.
Lemma sync_split sid b s : is_resident sid b s = false →
  _ensure_one_sync sid b s =
    bind (reload_head sid b) (λ '(c, slot, L, wt),
      '(kb, vb) <- on_cpu_store (CpuKvBackingStore.load_block L c) ;;
      copy_into_arena slot kb vb ;;
      (if wt : bool then ret tt else on_cpu_store (CpuKvBackingStore.free L c)) ;;
      reload_tail L b)%py s.
Proof.
  intros Hr. unfold _ensure_one_sync, reload_head, reload_tail, bind, get, ret. rewrite Hr. by repeat case_match; simplify_eq.
Qed.
Lemma async_split p sid b s : is_resident sid b s = false →
  _ensure_one_async p sid b s =
    bind (reload_head sid b) (λ '(c, slot, L, wt),
      _ <- read_arena slot ;;
      on_pool p (modify (issue_h2d [CopyH2D PlaneK c slot; CopyH2D PlaneV c slot])) ;;
      on_cpu_store (modify (CpuKvBackingStore.set_stats CpuKvBackingStore.bump_load)) ;;
      (if wt : bool then ret tt else on_cpu_store (CpuKvBackingStore.free L c)) ;;
      reload_tail L b)%py s.
Proof.
  intros Hr. unfold _ensure_one_async, reload_head, reload_tail, bind, get, ret. rewrite Hr. by repeat case_match; simplify_eq.
Qed.

Lemma head_result sid b s c slot L wt s' :
  write_through s = true → reload_head sid b s = (Ret (c, slot, L, wt), s') → L = lidx s' ∧ wt = true.
Proof.
  intros Hw. unfold reload_head, bind at 1. destruct (take_cpu_slot (sid, b) s) as [[c'|e] s1] eqn:Ht; [|done].
  destruct (blind_take s (sid, b) Hw _ _ Ht) as [(Hc & _) _]. unfold write_through in Hw. rewrite <-Hc in Hw.
  unfold bind, get, ret, layer, gets. rewrite Hw.
  destruct (on_slot_map _ s1) as [[[slot' ev]|e] s2]; [|done]. destruct (spill_hook ev slot' s2) as [[[]|e] s3]; [|done].
  unfold on_residency, zoom. destruct (BlockResidency.begin_load (layer_idx (cfg s3)) b (residency s3)) as [[[]|e] r]; [|done].
  by intros [= -> -> <- <- <-].
Qed.
Lemma load_result s L c kb vb s' :
  on_cpu_store (CpuKvBackingStore.load_block L c) s = (Ret (kb, vb), s') →
  grid_get (CpuKvBackingStore.k (cpu_store s)) L c = Some kb ∧ grid_get (CpuKvBackingStore.v (cpu_store s)) L c = Some vb ∧
  s' = with_cpu_store (CpuKvBackingStore.set_stats CpuKvBackingStore.bump_load (cpu_store s)) s.
Proof.
  unfold on_cpu_store, zoom, CpuKvBackingStore.load_block, CpuKvBackingStore.read_k, CpuKvBackingStore.read_v, bind, get, modify, of_option.
  by repeat case_match; intros; simplify_eq; unfold ret, raise in *; simplify_eq.
Qed.
Lemma copy_result s slot kb vb s' :
  copy_into_arena slot kb vb s = (Ret tt, s') →
  ∃ gk gv, list_set (gpu_k s) slot kb = Some gk ∧ list_set (gpu_v s) slot vb = Some gv ∧ s' = with_gpu_v gv (with_gpu_k gk s).
Proof.
  unfold copy_into_arena, bind, get, put, of_option, ret, raise. simpl. intros H. repeat case_match; simplify_eq. eauto.
Qed.

(** ** An arena behind by queued loads *)
Fixpoint replay (cs : CpuKvBackingStore.t block) (L : Z) (ops : list (copy_op block)) (g : list block * list block)
    : option (list block * list block) :=
  match ops with
  | [] => Some g
  | CopyH2D PlaneK c slot :: ops =>
      b ← grid_get (CpuKvBackingStore.k cs) L c; x ← list_set g.1 slot b; replay cs L ops (x, g.2)
  | CopyH2D PlaneV c slot :: ops =>
      b ← grid_get (CpuKvBackingStore.v cs) L c; x ← list_set g.2 slot b; replay cs L ops (g.1, x)
  | CopyD2H _ _ _ :: _ => None
  end.
(** Both streams of [p] as they are with [pend] still to run, all of it loads. *)
Definition only_loads p (pend : list (copy_op block)) : Prop :=
  drop (ndone (h2d_stream p)) (issued (h2d_stream p)) = pend ∧ (ndone (h2d_stream p) ≤ length (issued (h2d_stream p)))%nat ∧
  ndone (d2h_stream p) = length (issued (d2h_stream p)).
Definition lags s a : Prop :=
  ∃ gk gv p pend, a = overlay gk gv p s ∧ only_loads p pend ∧
    replay (cpu_store s) (lidx s) pend (gk, gv) = Some (gpu_k s, gpu_v s).

Lemma replay_app cs L o1 o2 g : replay cs L (o1 ++ o2) g = g' ← replay cs L o1 g; replay cs L o2 g'.
Proof.
  revert g. induction o1 as [|[[] c slot|? ? ?] o1 IH]; intros g; simpl; [done|..|done].
  - destruct (grid_get _ L c); simpl; [|done]. destruct (list_set g.1 slot l); simpl; [apply IH|done].
  - destruct (grid_get _ L c); simpl; [|done]. destruct (list_set g.2 slot l); simpl; [apply IH|done].
Qed.
Lemma replay_stats cs f L o g : replay (CpuKvBackingStore.set_stats f cs) L o g = replay cs L o g.
Proof.
  revert g. induction o as [|[[] c slot|? ? ?] o IH]; intros g; simpl; [done|..|done].
  - destruct (grid_get _ L c); simpl; [|done]. destruct (list_set g.1 slot l); simpl; [apply IH|done].
  - destruct (grid_get _ L c); simpl; [|done]. destruct (list_set g.2 slot l); simpl; [apply IH|done].
Qed.
Lemma set_length {A} (l l' : list A) i x : list_set l i x = Some l' → length l' = length l.
Proof. unfold list_set. destruct (py_index _ i); simpl; intros; simplify_eq. by rewrite length_insert. Qed.
Lemma replay_length cs L o g g' : replay cs L o g = Some g' → length g'.1 = length g.1 ∧ length g'.2 = length g.2.
Proof.
  revert g. induction o as [|[[] c slot|? ? ?] o IH]; intros g; simpl; [by intros [= ->]|..|done].
  - destruct (grid_get _ L c) as [b|]; simpl; [|done]. destruct (list_set g.1 slot b) as [x|] eqn:Hx; simpl; [|done].
    intros [H1 H2]%IH. simpl in *. split; [|done]. rewrite H1. by eapply set_length.
  - destruct (grid_get _ L c) as [b|]; simpl; [|done]. destruct (list_set g.2 slot b) as [x|] eqn:Hx; simpl; [|done].
    intros [H1 H2]%IH. simpl in *. split; [done|]. rewrite H2. by eapply set_length.
Qed.
Lemma set_get {A} (l l' : list A) (l2 : list A) i x : length l = length l2 → list_set l i x = Some l' → is_Some (list_get l2 i).
Proof.
  unfold list_set, list_get. intros ->. destruct (py_index _ i) as [n|] eqn:Hn; [|done]. intros _. simpl. apply lookup_lt_is_Some.
  revert Hn. unfold py_index. repeat case_bool_decide; intros; simplify_eq; lia.
Qed.

Lemma lags_blind {A} s a (m : M TM A) x s' :
  blind s m → m s = (Ret x, s') → lags s a → ∃ a', m a = (Ret x, a') ∧ lags s' a'.
Proof.
  intros Hm Hr (gk & gv & p & pend & -> & Hp & Hre). destruct (Hm _ _ Hr) as [(Hc & Hs & Hk & Hv & _) Ho].
  eexists. split; [apply Ho|]. exists gk, gv, p, pend. unfold lidx in *. by rewrite Hc, Hs, Hk, Hv.
Qed.

(** The copy of one reload: run at once on one side, queued on the other. *)
Lemma lags_copy p0 s a c slot kb vb s1 s2 :
  lags s a → on_cpu_store (CpuKvBackingStore.load_block (lidx s) c) s = (Ret (kb, vb), s1) → copy_into_arena slot kb vb s1 = (Ret tt, s2) →
  ∃ kv a2, read_arena slot a = (Ret kv, a) ∧
    (on_pool p0 (modify (issue_h2d [CopyH2D PlaneK c slot; CopyH2D PlaneV c slot])) ;;
     on_cpu_store (modify (CpuKvBackingStore.set_stats CpuKvBackingStore.bump_load)))%py a = (Ret tt, a2) ∧ lags s2 a2.
Proof.
  intros (gk & gv & p & pend & -> & (Hpend & Hle & Hd) & Hre) (Hk & Hv & ->)%load_result (gk' & gv' & Hgk & Hgv & ->)%copy_result.
  simpl in Hgk, Hgv. destruct (replay_length _ _ _ _ _ Hre) as [Hlk Hlv]. simpl in Hlk, Hlv.
  destruct (set_get _ _ gk _ _ Hlk Hgk) as [kb0 Hkb0]. destruct (set_get _ _ gv _ _ Hlv Hgv) as [vb0 Hvb0].
  exists (kb0, vb0). eexists. split_and!.
  - unfold read_arena, bind, get, of_option, ret. simpl. by rewrite Hkb0, Hvb0.
  - reflexivity.
  - exists gk, gv, (issue_h2d [CopyH2D PlaneK c slot; CopyH2D PlaneV c slot] p), (pend ++ [CopyH2D PlaneK c slot; CopyH2D PlaneV c slot]).
    split; [done|]. split.
    + split_and!; simpl; [|rewrite length_app; lia|done]. rewrite drop_app_le by done. by rewrite Hpend.
    + change (lidx (with_gpu_v _ _)) with (lidx s). simpl. rewrite replay_stats, replay_app, Hre. simpl. rewrite Hk. simpl. rewrite Hgk. simpl. rewrite Hv. simpl. by rewrite Hgv.
Qed.

Lemma lags_reload p0 sid b s a s' :
  write_through s = true → lags s a → _ensure_one_sync sid b s = (Ret tt, s') →
  cfg s' = cfg s ∧ ∃ a', _ensure_one_async p0 sid b a = (Ret tt, a') ∧ lags s' a'.
Proof.
  intros Hw Hl. assert (is_resident sid b a = is_resident sid b s) as Hres by (by destruct Hl as (?&?&?&?&->&_)).
  destruct (is_resident sid b s) eqn:Hr.
  - intros Hs. assert (blind s (_ <- on_slot_map (LRUSlotMap.get (sid, b)) ;; ret tt)%py) as Hb by (apply blind_bind; auto).
    unfold _ensure_one_async, bind at 1, get. rewrite Hres. unfold _ensure_one_sync, bind at 1, get in Hs. rewrite Hr in Hs.
    split; [by destruct (Hb _ _ Hs) as [[? _] _]|]. by eapply lags_blind.
  - rewrite sync_split by done. unfold bind at 1. destruct (reload_head sid b s) as [[[[[c slot] L] wt]|e] s1] eqn:Hh; [|done].
    pose proof (blind_head sid b s Hw) as Hbh. destruct (lags_blind _ _ _ _ _ Hbh Hh Hl) as (a1 & Ha1 & Hl1).
    destruct (Hbh _ _ Hh) as [(Hc1 & _) _]. destruct (head_result _ _ _ _ _ _ _ _ Hw Hh) as [-> ->].
    unfold bind at 1. destruct (on_cpu_store _ s1) as [[[kb vb]|e] s2] eqn:Hld; [|done].
    unfold bind at 1. destruct (copy_into_arena slot kb vb s2) as [[[]|e] s3] eqn:Hcp; [|done]. intros Ht.
    destruct (lags_copy p0 _ _ _ _ _ _ _ _ Hl1 Hld Hcp) as (kv & a2 & Hra & Hq & Hl2).
    destruct (load_result _ _ _ _ _ _ Hld) as (_ & _ & ->). destruct (copy_result _ _ _ _ _ Hcp) as (gk & gv & _ & _ & ->).
    change (reload_tail (lidx s1) b (with_gpu_v gv (with_gpu_k gk (with_cpu_store (CpuKvBackingStore.set_stats CpuKvBackingStore.bump_load (cpu_store s1)) s1))) = (Ret tt, s')) in Ht.
    destruct (lags_blind _ _ _ _ _ (blind_tail _ _ _) Ht Hl2) as (a3 & Ha3 & Hl3).
    split; [destruct (blind_tail _ _ _ _ _ Ht) as [[Hc3 _] _]; rewrite Hc3; exact Hc1|]. exists a3. split; [|done].
    rewrite async_split by done. unfold bind at 1. rewrite Ha1. unfold bind at 1. rewrite Hra.
    unfold bind at 1. unfold bind at 1 in Hq. destruct (on_pool p0 _ a1) as [[[]|e] a1']; [|done]. unfold bind at 1. rewrite Hq. exact Ha3.
Qed.
Lemma lags_reloads p0 sid ids s a s' :
  write_through s = true → lags s a → for_each ids (_ensure_one_sync sid) s = (Ret tt, s') →
  ∃ a', for_each ids (_ensure_one_async p0 sid) a = (Ret tt, a') ∧ lags s' a'.
Proof.
  revert s a. induction ids as [|b ids IH]; intros s a Hw Hl; simpl; [intros [= <-]; by exists a|].
  unfold bind. destruct (_ensure_one_sync sid b s) as [[[]|e] s1] eqn:Hs; [|done]. intros Hr.
  destruct (lags_reload p0 _ _ _ _ _ Hw Hl Hs) as [Hc (a1 & -> & Hl1)]. apply (IH s1); [unfold write_through in *; by rewrite Hc|done|done].
Qed.

(** ** Running the queue *)
Lemma run_load s gk gv p op rest g :
  replay (cpu_store s) (lidx s) (op :: rest) (gk, gv) = Some g →
  ∃ gk' gv', run_copy op (overlay gk gv p s) = (Ret tt, overlay gk' gv' p s) ∧ replay (cpu_store s) (lidx s) rest (gk', gv') = Some g.
Proof.
  destruct op as [[] c slot|? ? ?]; simpl; [..|done].
  - destruct (grid_get _ _ c) as [b|] eqn:Hg; simpl; [|done]. destruct (list_set gk slot b) as [x|] eqn:Hx; simpl; [|done]. intros Hr.
    exists x, gv. split; [|done]. unfold run_copy, bind, layer, gets, on_cpu_store, zoom, CpuKvBackingStore.read_k, bind, get, of_option, put, ret. simpl.
    unfold lidx in Hg. rewrite Hg. simpl. by rewrite Hx.
  - destruct (grid_get _ _ c) as [b|] eqn:Hg; simpl; [|done]. destruct (list_set gv slot b) as [x|] eqn:Hx; simpl; [|done]. intros Hr.
    exists gk, x. split; [|done]. unfold run_copy, bind, layer, gets, on_cpu_store, zoom, CpuKvBackingStore.read_v, bind, get, of_option, put, ret. simpl.
    unfold lidx in Hg. rewrite Hg. simpl. by rewrite Hx.
Qed.
(** How many copies of a stream are still to run. *)
Definition left_to_run a : nat :=
  match stream_pool a with Some p => length (issued (h2d_stream p)) - ndone (h2d_stream p) | None => 0 end.

Lemma lags_step s a a' : lags s a → stream_step a a' →
  lags s a' ∧ left_to_run a = Datatypes.S (left_to_run a') ∧
  (∀ p p', stream_pool a = Some p → stream_pool a' = Some p' → issued (h2d_stream p') = issued (h2d_stream p)).
Proof.
  intros (gk & gv & p & pend & -> & (Hpend & Hle & Hd) & Hre) Hst. inversion Hst as [w sa s1 p' op Hp Hop Hrun]. subst. simpl in Hp. simplify_eq.
  destruct w; simpl in Hop; [|apply lookup_lt_Some in Hop; lia]. pose proof (lookup_lt_Some _ _ _ Hop) as Hlt.
  rewrite (drop_S _ _ _ Hop) in Hre. destruct (run_load s gk gv p' op _ _ Hre) as (gk' & gv' & Hrun' & Hre').
  rewrite Hrun in Hrun'. simplify_eq. split_and!.
  - exists gk', gv', (finish_one h2d p'), (drop (Datatypes.S (ndone (h2d_stream p'))) (issued (h2d_stream p'))).
    split_and!; [done| |done]. split_and!; simpl; [done|lia|done].
  - unfold left_to_run. simpl. lia.
  - intros q q' [= <-] [= <-]. done.
Qed.
Lemma lags_progress s a : lags s a → left_to_run a ≠ 0%nat → ∃ a', stream_step a a'.
Proof.
  intros (gk & gv & p & pend & -> & (Hpend & Hle & Hd) & Hre) Hn. unfold left_to_run in Hn. simpl in Hn.
  destruct (lookup_lt_is_Some_2 (issued (h2d_stream p)) (ndone (h2d_stream p))) as [op Hop]; [lia|].
  rewrite <-Hpend, (drop_S _ _ _ Hop) in Hre. destruct (run_load s gk gv p op _ _ Hre) as (gk' & gv' & Hrun & _).
  eexists. by eapply (stream_step_run h2d _ _ p op).
Qed.
(** The queue always runs dry. *)
Lemma lags_sn s a : lags s a → sn stream_step a.
Proof.
  remember (left_to_run a) as n eqn:Hn. revert a Hn. induction n as [|n IH]; intros a Hn Hl; constructor; intros a' Hst;
    destruct (lags_step _ _ _ Hl Hst) as (Hl' & Hm & _); [lia|]. apply IH; [lia|done].
Qed.
Lemma lags_dry s a : lags s a → left_to_run a = 0%nat →
  gpu_k a = gpu_k s ∧ gpu_v a = gpu_v s ∧ quiescent a.
Proof.
  intros (gk & gv & p & pend & -> & (Hpend & Hle & Hd) & Hre) Hn. unfold left_to_run in Hn. simpl in Hn.
  rewrite <-Hpend, drop_ge in Hre by lia. simpl in Hre. simplify_eq. split_and!; [done..|]. intros p' [= <-]. lia.
Qed.

Lemma sync_result sid ids keep s s' :
  stream_pool s = None → ensure_resident sid ids keep s = (Ret None, s') →
  ∃ s1 s2 st, _touch_resident sid ids (default [] keep) s = (Ret tt, s1) ∧ for_each ids (_ensure_one_sync sid) s1 = (Ret tt, s2) ∧
    s' = with_stats st s2.
Proof.
  intros Hp. unfold ensure_resident, bind at 1. destruct (_touch_resident sid ids (default [] keep) s) as [[[]|e] s1] eqn:Ht; [|done].
  destruct (blind_touch sid ids (default [] keep) s _ _ Ht) as [(_ & _ & _ & _ & Hp1) _]. unfold bind at 1, get at 1. rewrite Hp1, Hp.
  unfold _timed_ensure_sync, bind, get, bump, modify, ret. intros Hr. exists s1. revert Hr.
  destruct (enable_event_timing (cfg s1)); destruct (for_each ids (_ensure_one_sync sid) s1) as [[[]|e] s2]; try done.
  - case_bool_decide; intros [= <-]; exists s2; [eexists; split_and!; done|]. exists (stats s2). split_and!; [done..|]. by destruct s2.
  - intros [= <-]. exists s2, (stats s2). split_and!; [done..|]. by destruct s2.
Qed.
Lemma lags_start s p : only_loads p [] → lags s (with_stream_pool (Some p) s).
Proof. intros Hp. exists (gpu_k s), (gpu_v s), p, []. split_and!; [by destruct s|done|done]. Qed.

(** The asynchronous call, against the synchronous one. *)
Lemma async_lags sid ids keep s s' p :
  write_through s = true → stream_pool s = None → only_loads p [] → ensure_resident sid ids keep s = (Ret None, s') →
  ∃ st a p', ensure_resident sid ids keep (with_stream_pool (Some p) s) = (Ret (Some (length (issued (h2d_stream p')))), a) ∧
    stream_pool a = Some p' ∧ lags (with_stats st s') a.
Proof.
  intros Hw Hn Hp (s1 & s2 & st & Ht & Hf & ->)%sync_result; [|done].
  destruct (lags_blind _ _ _ _ _ (blind_touch sid ids (default [] keep) s) Ht (lags_start s p Hp)) as (a1 & Ha1 & Hl1).
  assert (write_through s1 = true) as Hw1.
  { destruct (blind_touch sid ids (default [] keep) s _ _ Ht) as [[Hc _] _]. unfold write_through in *. by rewrite Hc. }
  assert (∃ p1, stream_pool a1 = Some p1) as [p1 Hp1] by (destruct Hl1 as (?&?&?&?&->&_); by eexists).
  destruct (lags_reloads p1 _ _ _ _ _ Hw1 Hl1 Hf) as (a2 & Ha2 & Hl2).
  assert (∃ p2, stream_pool a2 = Some p2) as [p2 Hp2] by (destruct Hl2 as (?&?&?&?&->&_); by eexists).
  exists (stats s2), (with_stream_pool (Some p2) a2), p2. split_and!; [|done|].
  - unfold ensure_resident, bind at 1. rewrite Ha1. unfold bind at 1, get. rewrite Hp1. unfold bind at 1. rewrite Ha2.
    unfold bind, on_pool, zoom, record_h2d_done, gets, ret. by rewrite Hp2.
  - destruct Hl2 as (gk & gv & q & pend & -> & Hq & Hre). simpl in Hp2. simplify_eq. exists gk, gv, p2, pend. split_and!; [by destruct s2|done|done].
Qed.

Lemma lags_run s a a' : lags s a → rtc stream_step a a' →
  lags s a' ∧ (∀ p p', stream_pool a = Some p → stream_pool a' = Some p' → issued (h2d_stream p') = issued (h2d_stream p)).
Proof.
  intros Hl Hr. revert Hl. induction Hr as [a|a b c Hab Hbc IH]; intros Hl; [split; [done|]; intros; by simplify_eq|].
  destruct (lags_step _ _ _ Hl Hab) as (Hlb & _ & Hi). destruct (IH Hlb) as [Hlc Hi']. split; [done|]. intros p p' Hp Hp'.
  destruct Hlb as (?&?&q&?&->&_). rewrite (Hi' q p') by done. by apply Hi.
Qed.

(** C8: an asynchronous [ensure_resident] under write-through, started with both streams
    idle and the conditions under which the synchronous call succeeds (a lru or prefetch
    ordering, every requested block stored, requested and kept blocks together within the
    arena, a host copy of whatever may be displaced): it returns an event; whatever order
    the streams run in, they never get stuck before it, they always come to rest, and in
    every state reached after the event has fired the requested and the kept blocks are in
    the arena and each block of either tier holds the data it held before the call. *)
Theorem async_reload_correct sid ids keep s p :
  ensure_pre sid (step_keys sid keep ids) ids s → write_through s = true → only_loads p [] →
  ∃ ev a, ensure_resident sid ids keep (with_stream_pool (Some p) s) = (Ret (Some ev), a) ∧ sn stream_step a ∧
    ∀ a', rtc stream_step a a' → ∃ p', stream_pool a' = Some p' ∧
      ((ndone (h2d_stream p') < ev)%nat → ∃ a'', stream_step a' a'') ∧
      ((ev ≤ ndone (h2d_stream p'))%nat → quiescent a' ∧ (∀ k, stored a' k = stored s k) ∧
         (∀ b, b ∈ ids → is_resident sid b a' = true) ∧
         (∀ b, b ∈ default [] keep → is_resident sid b s = true → is_resident sid b a' = true)).
Proof.
  intros Hpre Hw Hp. pose proof (ti_sync _ _ _ _ (ep_inv _ _ _ _ Hpre)) as Hn.
  destruct (wp_run _ _ _ (wp_ensure_resident sid ids keep s Hpre)) as (r & s' & Hrun & -> & Hm & Hids).
  destruct (async_lags _ _ _ _ _ _ Hw Hn Hp Hrun) as (st & a & q & Ha & Hq & Hl). eexists _, a. split; [exact Ha|].
  split; [by eapply lags_sn|]. intros a' Hst. destruct (lags_run _ _ _ Hl Hst) as [Hl' Hi].
  assert (∃ p', stream_pool a' = Some p') as [p' Hp'] by (destruct Hl' as (?&?&?&?&->&_); by eexists).
  exists p'. split; [done|]. rewrite <-(Hi q p') by done.
  assert (left_to_run a' = length (issued (h2d_stream p')) - ndone (h2d_stream p'))%nat as Hleft by (unfold left_to_run; by rewrite Hp').
  split; [intros; eapply lags_progress; [done|lia]|]. intros Hev. destruct (lags_dry _ _ Hl') as (Hk & Hv & Hqu); [lia|].
  assert (stored a' = stored s') as -> by (destruct Hl' as (gk&gv&?&?&->&_); simpl in Hk, Hv; subst gk gv; by destruct s').
  assert (∀ b, is_resident sid b a' = is_resident sid b s') as Hres by (destruct Hl' as (?&?&?&?&->&_); done).
  split_and!; [done|by apply Hm|intros b; rewrite Hres; by apply Hids|]. intros b Hb Hr. rewrite Hres. by apply (moved_keep sid ids keep s).
Qed.
End async.

(** Block 0 is only on the host; loading it displaces block 1, whose host copy stays. *)
Lemma async_reload_correct_witness :
  ∃ ev a, ensure_resident 7 [0] (Some [2; 3]) (with_stream_pool (Some QuestStreamPool.init) (demo_live true lru)) = (Ret (Some ev), a) ∧
    sn stream_step a ∧
    ∀ a', rtc stream_step a a' → ∃ p', stream_pool a' = Some p' ∧
      ((ndone (h2d_stream p') < ev)%nat → ∃ a'', stream_step a' a'') ∧
      ((ev ≤ ndone (h2d_stream p'))%nat → quiescent a' ∧ (∀ k, stored a' k = stored (demo_live true lru) k) ∧
         (∀ b, b ∈ [0] → is_resident 7 b a' = true) ∧
         (∀ b, b ∈ [2; 3] → is_resident 7 b (demo_live true lru) = true → is_resident 7 b a' = true)).
Proof.
  apply (async_reload_correct 7 [0] (Some [2; 3]) (demo_live true lru) QuestStreamPool.init); [split|done|done].
  - check_inv.
  - vm_compute. discriminate.
  - intros b ->%list_elem_of_singleton. vm_compute. by eexists.
  - vm_compute. discriminate.
  - vm_compute. intros k Hk HP. assert (k = (7, 1)) as ->; [|by eexists]. set_solver.
Defined.
