(* ===== verification/QuestSeq.v ===== *)
(** * Quest backend: one sequence in one layer

    [holds sid ks vs s]: the tier manager holds exactly the key rows [ks] and value rows
    [vs] of sequence [sid], the full blocks in either tier and the trailing partial
    block in the arena. Ingesting the prompt establishes it, a decode step extends it
    by its row, and reloading the selected blocks gathers their rows from the arena. *)

From S2P Require Import Prelude OrderedDict QuestStore QuestTier QuestTierInv QuestTierProps QuestTierWrite QuestTierSteady QuestTierPrefill.

Open Scope Z_scope.

Section seq.
Context {row T : Type} (ops : tensor_ops row T).
Notation block := (list row).
Notation TM := (TierManager.t row T).
Notation key := LRUSlotMap.key.
Import TierManager.
(** [bs] rows per block, and room for [N] blocks of a sequence *)
Context (bs N : Z) (Hbs : 0 < bs) (HN : 0 ≤ N).
Implicit Types (s : TM) (k : key) (sid b slot n : Z) (ks vs : list row).

(** ** What the operations never change *)
Record ready (sid : Z) s : Prop := {
  rd_steady : steady bs {[sid]} s s;
  rd_order : block_ordering (cfg s) ≠ mixture;
  rd_cap : 2 ≤ LRUSlotMap.capacity (slot_map s);
  rd_layer : 0 ≤ lidx s;
  rd_res_layer : lidx s < BlockResidency.num_layers (residency s);
  rd_sum_layer : lidx s < BlockSummaryStore.num_layers (summary_store s);
  rd_res : N ≤ BlockResidency.max_blocks (residency s);
  rd_sum : N ≤ BlockSummaryStore.max_blocks (summary_store s);
  rd_size : BlockSummaryStore.block_size (summary_store s) = bs;
  rd_cpu : N ≤ CpuKvBackingStore.blocks_per_layer (cpu_store s)
}.

Lemma steady_self tr s0 s : steady bs tr s0 s → steady bs tr s s.
Proof.
  intros [? ? ? ? ? ? ? ? ? [] [] []]. split; try done; by split.
Qed.
Lemma ready_steady sid s s' : ready sid s → steady bs {[sid]} s s' → ready sid s'.
Proof.
  intros Hr Hs. pose proof (steady_layer _ _ _ _ Hs) as Hl. pose proof (steady_self _ _ _ Hs).
  destruct Hr, Hs as [Hc ? ? ? Hcap ? ? ? ? [] [] []]. split; rewrite ?Hl, ?Hc, ?Hcap; try done; congruence.
Qed.
Lemma ready_range sid s b : ready sid s → 0 ≤ b < N → block_in_range s b.
Proof. intros [] Hb. split; split; lia. Qed.
Lemma ready_sum sid s b :
  ready sid s → 0 ≤ b < N →
  BlockSummaryStore.wf (summary_store s) ∧ BlockSummaryStore.in_range (summary_store s) (lidx s) b.
Proof. intros [[? ? ? ? ? ? ? ? ? ? ? []]] Hb. split; [done|]. split; lia. Qed.
Lemma ready_arena sid s : ready sid s → arena_shape bs s.
Proof. intros [[]]. by split. Qed.

(** ** The rows of a sequence *)
Definition rows (l : list row) b : block := slice l (b * bs) (b * bs + bs).
Definition nfull ks : Z := Z.of_nat (length ks) / bs.
Definition nlive ks : Z := Z.of_nat (length ks) `mod` bs.
Definition nblocks ks : Z := nfull ks + if decide (nlive ks = 0) then 0 else 1.

Lemma n_split ks : Z.of_nat (length ks) = nfull ks * bs + nlive ks ∧ 0 ≤ nlive ks < bs ∧ 0 ≤ nfull ks.
Proof.
  unfold nfull, nlive. pose proof (Z.div_mod (Z.of_nat (length ks)) bs). pose proof (Z.mod_pos_bound (Z.of_nat (length ks)) bs).
  split_and!; try lia. apply Z.div_pos; lia.
Qed.

(** The partial block: its rows come first, the rest of the slot is unused. *)
Record live_block sid ks vs s : Prop := {
  lv_rows : ∃ kb vb, stored s (sid, nfull ks) = Some (kb, vb) ∧
    take (Z.to_nat (nlive ks)) kb = drop (Z.to_nat (nfull ks * bs)) ks ∧
    take (Z.to_nat (nlive ks)) vb = drop (Z.to_nat (nfull ks * bs)) vs;
  lv_resident : is_resident sid (nfull ks) s = true;
  lv_back : od_get (sid, nfull ks) (backing s) = None
}.

Record holds sid ks vs s : Prop := {
  ho_inv : tm_inv sid None [] s;
  ho_ready : ready sid s;
  ho_len : length vs = length ks;
  ho_full : ∀ b, 0 ≤ b < nfull ks → stored s (sid, b) = Some (rows ks b, rows vs b);
  ho_live : nlive ks ≠ 0 → live_block sid ks vs s;
  ho_none : ∀ b, ¬ 0 ≤ b < nblocks ks → stored s (sid, b) = None;
  ho_mirror : write_through s = true → ∀ b, 0 ≤ b < nfull ks → is_Some (od_get (sid, b) (host_slots s))
}.

(** ** Counting the CPU slots *)
Lemma backing_count sid hole s :
  tm_inv sid hole [] s →
  Z.of_nat (length (backing s)) + Z.of_nat (cpu_free_count s) = CpuKvBackingStore.blocks_per_layer (cpu_store s).
Proof.
  intros Hinv. destruct (ti_cpu_slots _ _ _ _ Hinv) as (fr & Hfr & _ & _ & Hc). simpl in Hc.
  unfold cpu_free_count. rewrite Hfr. rewrite length_app, length_fmap in Hc. lia.
Qed.

(** Distinct blocks below [m] are at most [m] many. *)
Lemma keys_bound (l : list key) sid m :
  NoDup l → 0 ≤ m → (∀ k, k ∈ l → k.1 = sid ∧ 0 ≤ k.2 < m) → Z.of_nat (length l) ≤ m.
Proof.
  intros Hnd Hm Hl. assert (l ⊆+ ((λ b, (sid, b)) <$> seqZ 0 m)) as Hsub.
  { apply NoDup_submseteq; [done|]. intros [x b] Hk. destruct (Hl _ Hk) as [Hx Hb]. simpl in *. subst.
    apply list_elem_of_fmap. exists b. split; [done|]. apply elem_of_seqZ. lia. }
  apply submseteq_length in Hsub. rewrite length_fmap, length_seqZ in Hsub. lia.
Qed.

Lemma tracked_stored sid hole s k :
  tm_inv sid hole [] s → k ∈ (resident_map s).*1 ∨ k ∈ (backing s).*1 → is_Some (stored s k) ∧ k.1 = sid.
Proof.
  intros Hinv Hk. split; [by apply (stored_tracked _ _ _ _ _ Hinv)|]. by apply (ti_keys _ _ _ _ Hinv).
Qed.

Lemma holds_key sid ks vs s k :
  holds sid ks vs s → k ∈ (resident_map s).*1 ∨ k ∈ (backing s).*1 → k.1 = sid ∧ 0 ≤ k.2 < nblocks ks.
Proof.
  intros Hh Hk. destruct (tracked_stored _ _ _ _ (ho_inv _ _ _ _ Hh) Hk) as [Hst Hsid]. split; [done|].
  destruct k as [x b]. simpl in *. subst. destruct (decide (0 ≤ b < nblocks ks)) as [?|Hn]; [done|].
  apply (ho_none _ _ _ _ Hh) in Hn. rewrite Hn in Hst. by destruct Hst.
Qed.

(** Under write-back a resident block leaves a CPU slot free. *)
Lemma write_back_room sid ks vs s :
  holds sid ks vs s → nblocks ks ≤ N → write_through s = false → resident_map s ≠ [] → (0 < cpu_free_count s)%nat.
Proof.
  intros Hh Hn Hwt Hres. pose proof (ho_inv _ _ _ _ Hh) as Hinv.
  pose proof (backing_count _ _ _ Hinv) as Hc. pose proof (rd_cpu _ _ (ho_ready _ _ _ _ Hh)) as Hcpu.
  pose proof (n_split ks) as (_ & _ & Hf).
  assert (Z.of_nat (length ((resident_map s).*1 ++ (backing s).*1)) ≤ nblocks ks) as Hlen.
  { apply (keys_bound _ sid); [|unfold nblocks; case_decide; lia|].
    - apply NoDup_app. split_and!; [apply (LRUSlotMap.inv_keys _ (ti_slots _ _ _ _ Hinv))| |apply (ti_back_wf _ _ _ _ Hinv)].
      intros k Hr Hb. apply od_mem_spec, bool_decide_eq_true in Hr as [slot Hr].
      apply od_mem_spec, bool_decide_eq_true in Hb as [c Hb].
      destruct (ti_both _ _ _ _ Hinv k slot c) as [Hw _]; [done..|]. by rewrite Hwt in Hw.
    - intros k Hk. apply elem_of_app in Hk. by apply (holds_key sid ks vs s). }
  rewrite length_app, !length_fmap in Hlen. destruct (resident_map s); [done|]. simpl in Hlen. lia.
Qed.

(** Under write-through a block that is not backed yet has a slot. *)
Lemma write_through_room sid ks vs s :
  holds sid ks vs s → nfull ks < N → write_through s = true → (0 < cpu_free_count s)%nat.
Proof.
  intros Hh Hn Hwt. pose proof (ho_inv _ _ _ _ Hh) as Hinv. pose proof (n_split ks) as (_ & _ & Hf).
  pose proof (backing_count _ _ _ Hinv) as Hc. pose proof (rd_cpu _ _ (ho_ready _ _ _ _ Hh)) as Hcpu.
  assert (Z.of_nat (length ((backing s).*1)) ≤ nfull ks) as Hlen; [|rewrite length_fmap in Hlen; lia].
  apply (keys_bound _ sid); [apply (ti_back_wf _ _ _ _ Hinv)|done|]. intros k Hk.
  destruct (holds_key sid ks vs s k Hh) as [Hsid Hb]; [by right|]. split; [done|].
  unfold nblocks in Hb. case_decide as Hl; [lia|]. destruct (decide (k.2 = nfull ks)) as [He|]; [|lia].
  pose proof (lv_back _ _ _ _ (ho_live _ _ _ _ Hh Hl)) as Hnb. rewrite <-Hsid, <-He in Hnb.
  apply od_get_None in Hnb. by destruct k.
Qed.

(** ** A decode step *)
Lemma take_put (l : block) off x :
  0 ≤ off < Z.of_nat (length l) → take (Z.to_nat (off + 1)) (put_row off x l) = take (Z.to_nat off) l ++ [x].
Proof.
  intros Ho. unfold put_row. replace (Z.to_nat (off + 1)) with (S (Z.to_nat off)) by lia.
  rewrite (take_S_r _ _ x) by (apply list_lookup_insert_eq; lia). by rewrite take_insert_ge by lia.
Qed.

Lemma rows_app l x b : 0 ≤ b → (b + 1) * bs ≤ Z.of_nat (length l) → rows (l ++ x) b = rows l b.
Proof.
  intros Hb Hl. unfold rows, slice. rewrite drop_app_le by nia. rewrite take_app_le; [done|].
  rewrite length_drop. nia.
Qed.

(** The last rows of a sequence that ends with its block [b] *)
Lemma rows_last l x b :
  0 ≤ b → Z.of_nat (length l) = b * bs + (bs - 1) → rows (l ++ [x]) b = drop (Z.to_nat (b * bs)) l ++ [x].
Proof.
  intros Hb Hl. unfold rows, slice. rewrite drop_app_le by lia. rewrite take_ge; [done|].
  rewrite length_app, length_drop. simpl. lia.
Qed.

Lemma append_lengths (l : list row) x :
  let off := nlive l in let b := nfull l in
  Z.of_nat (length (l ++ [x])) = b * bs + off + 1 ∧
  (off ≠ bs - 1 → nfull (l ++ [x]) = b ∧ nlive (l ++ [x]) = off + 1) ∧
  (off = bs - 1 → nfull (l ++ [x]) = b + 1 ∧ nlive (l ++ [x]) = 0).
Proof.
  intros off b. pose proof (n_split l) as (Hl & Ho & Hf). fold off b in Hl, Ho, Hf.
  assert (Z.of_nat (length (l ++ [x])) = b * bs + off + 1) as E by (rewrite length_app; simpl; lia).
  split; [done|]. unfold nfull, nlive. rewrite E. split; intros Ho'; split; symmetry.
  - apply (Z.div_unique _ _ _ (off + 1)); lia.
  - apply (Z.mod_unique _ _ b); lia.
  - apply (Z.div_unique _ _ _ 0); lia.
  - apply (Z.mod_unique _ _ (b + 1)); lia.
Qed.

Lemma append_live sid ks vs s (kb vb : block) :
  holds sid ks vs s → (∀ kv, stored s (sid, nfull ks) = Some kv → kv = (kb, vb)) →
  take (Z.to_nat (nlive ks)) kb = drop (Z.to_nat (nfull ks * bs)) ks ∧
  take (Z.to_nat (nlive ks)) vb = drop (Z.to_nat (nfull ks * bs)) vs.
Proof.
  intros Hh Hold. pose proof (n_split ks) as (Hl & _ & _). pose proof (ho_len _ _ _ _ Hh) as Hlen.
  destruct (decide (nlive ks = 0)) as [E|E].
  - rewrite E. simpl. rewrite !drop_ge by lia. done.
  - destruct (lv_rows _ _ _ _ (ho_live _ _ _ _ Hh E)) as (kb' & vb' & Hst & Hk & Hv). apply Hold in Hst. by simplify_eq.
Qed.

Lemma append_can_write sid ks vs s :
  holds sid ks vs s → nblocks ks ≤ N → can_write s (sid, nfull ks).
Proof.
  intros Hh Hn sm slot v Hadd Hv. inversion Hadd as [| |victim Hnone Hfree Hvic]; subst.
  assert (nlive ks = 0) as E.
  { destruct (decide (nlive ks = 0)) as [|E]; [done|].
    pose proof (lv_resident _ _ _ _ (ho_live _ _ _ _ Hh E)) as [? Hr]%is_resident_spec.
    unfold resident_map in Hr. by rewrite Hr in Hnone. }
  assert (v ∈ (resident_map s).*1) as Hin by by eapply od_get_Some_key.
  unfold spillable. destruct (write_through s) eqn:Hwt.
  - destruct (holds_key sid ks vs s v Hh) as [Hsid Hb]; [by left|]. unfold nblocks in Hb. rewrite decide_True in Hb by done.
    destruct v as [x b]. simpl in *. subst. apply (ho_mirror _ _ _ _ Hh); [done|lia].
  - destruct (free_slot_available sid None [] s (ho_inv _ _ _ _ Hh)) as (fr & c & Hfr); [|by exists fr, c].
    apply (write_back_room sid ks vs s Hh Hn Hwt). intros Hr. rewrite Hr in Hin. by apply not_elem_of_nil in Hin.
Qed.

Lemma wp_append sid ks vs kt vt s :
  holds sid ks vs s → Z.of_nat (length ks) < N * bs →
  wp (append_decode_token_kvshare ops sid (Z.of_nat (length ks)) kt vt bs) s (λ _ s',
    holds sid (ks ++ [kt]) (vs ++ [vt]) s' ∧ steady bs {[sid]} s s' ∧ resident_map s' ≠ []).
Proof.
  intros Hh Hroom. pose proof (ho_ready _ _ _ _ Hh) as Hrd. pose proof (ho_inv _ _ _ _ Hh) as Hinv.
  pose proof (n_split ks) as (Hl & Ho & Hf). pose proof (ho_len _ _ _ _ Hh) as Hlen.
  assert (nfull ks < N) as HfN by nia. assert (nblocks ks ≤ N) as HbN by (unfold nblocks; case_decide; lia).
  eapply wp_mono; [apply wp_keeps_to; [apply wp_append_decode_token|apply (stays_append ops bs {[sid]} s), Hrd|apply Hrd]|].
  all: fold (nfull ks); fold (nlive ks); try done.
  - by eapply ready_arena.
  - by apply (ready_range sid).
  - destruct (decide (nlive ks = 0)) as [E|E]; [|apply (ho_live _ _ _ _ Hh E)].
    assert (untracked s (sid, nfull ks)) as [_ ?]; [|done]. eapply stored_untracked; [done|].
    apply (ho_none _ _ _ _ Hh). unfold nblocks. rewrite decide_True by done. lia.
  - by apply append_can_write with vs.
  - intros E. destruct (ready_sum sid s (nfull ks) Hrd) as [? ?]; [lia|]. split_and!; [done|done|apply Hrd|].
    intros Hwt. by apply (write_through_room sid ks vs).
  - intros [] s' ((kb & vb & Hap) & Hst & _). destruct Hap as [Hinv' Hw Hold [Hkl Hvl] Hres Hback Hho Hdone].
    destruct (append_live _ _ _ _ _ _ Hh Hold) as [Hk Hv].
    destruct (append_lengths ks kt) as (Hn' & Hmid & Hend).
    assert (resident_map s' ≠ []) as Hne.
    { apply is_resident_spec in Hres as [? Hr]. intros E. by rewrite E in Hr. }
    assert (write_through s' = write_through s) as Hwt by (unfold write_through; by rewrite (sd_cfg _ _ _ _ Hst)).
    assert (nfull ks ≤ nfull (ks ++ [kt]) ∧ nblocks (ks ++ [kt]) = nfull ks + 1) as [Hmono Hnb].
    { unfold nblocks. destruct (decide (nlive ks = bs - 1)) as [E|E];
        [destruct (Hend E) as [-> ->]|destruct (Hmid E) as [-> ->]]; case_decide; lia. }
    split; [|done]. split; [done|by eapply ready_steady|by rewrite !length_app, Hlen| | | |].
    + intros b Hb. rewrite Hw. case_decide as Heq.
      * injection Heq as ->. destruct (decide (nlive ks = bs - 1)) as [E|E]; [|destruct (Hmid E); lia].
        rewrite !rows_last by lia. rewrite <-Hk, <-Hv, <-!take_put by lia. rewrite !take_ge; [done|..].
        all: unfold put_row; rewrite length_insert; lia.
      * assert (b < nfull ks). { assert (b ≠ nfull ks) by congruence. destruct (decide (nlive ks = bs - 1)) as [E|E];
          [destruct (Hend E)|destruct (Hmid E)]; lia. }
        rewrite !rows_app by nia. apply (ho_full _ _ _ _ Hh). lia.
    + intros Hlive. destruct (decide (nlive ks = bs - 1)) as [E|E]; [by destruct (Hend E)|].
      destruct (Hmid E) as [E1 E2]. split; rewrite ?E1; [|done|by apply Hback].
      exists (put_row (nlive ks) kt kb), (put_row (nlive ks) vt vb). rewrite E2, Hw, decide_True by done.
      rewrite !take_put by lia. rewrite !drop_app_le by lia. by rewrite Hk, Hv.
    + intros b Hb. rewrite Hnb in Hb. rewrite Hw. case_decide as Heq; [injection Heq as ->; lia|].
      apply (ho_none _ _ _ _ Hh). unfold nblocks. case_decide; lia.
    + intros Hw' b Hb. rewrite Hwt in Hw'. destruct (decide (b = nfull ks)) as [->|].
      * destruct (decide (nlive ks = bs - 1)) as [E|E]; [|destruct (Hmid E); lia].
        destruct (Hdone E) as [Hmir _]. unfold mirrored in Hmir. by rewrite Hwt, Hw' in Hmir.
      * destruct (ho_mirror _ _ _ _ Hh Hw' b) as [c Hc]; [|exists c; by apply Hho].
        destruct (decide (nlive ks = bs - 1)) as [E|E]; [destruct (Hend E)|destruct (Hmid E)]; lia.
Qed.

(** ** The prompt *)
Lemma prompt_state_summary sid kvs lo s0 done s ss :
  prompt_state sid kvs lo s0 done s →
  prompt_state sid kvs lo (with_summary_store ss s0) done (with_summary_store ss s).
Proof.
  intros [Hi Hf Hs Hc Hr Hres Hfr]. split; try done; [by apply tm_inv_summary|].
  destruct Hf as (? & ? & ? & ? & ? & ? & ?). by split_and!.
Qed.

Definition prompt_rows ks vs n b : option (block * block) :=
  if decide (0 ≤ b < n) then Some (rows ks b, rows vs b) else None.

Lemma wp_ingest_blocks sid ks vs s lo n :
  tm_inv sid None [] s → ready sid s → resident_map s = [] → backing s = [] →
  0 ≤ lo ≤ n → n ≤ N → n - lo < LRUSlotMap.capacity (slot_map s) → n * bs ≤ Z.of_nat (length ks) →
  wp (ingest_blocks ops bs sid (lidx s) lo n ks vs) s (λ _ s',
    ∃ ss, prompt_state sid (prompt_rows ks vs n) lo (with_summary_store ss s) (py_range n) s').
Proof.
  intros Hinv Hrd Hr0 Hb0 Hlo HnN Hcap Hks.
  pose proof (backing_count _ _ _ Hinv) as Hc. rewrite Hb0 in Hc. simpl in Hc. pose proof (rd_cpu _ _ Hrd) as Hcpu.
  apply (wp_for_each _ _ _ (λ done s1,
    prompt_state sid (prompt_rows ks vs n) lo (with_summary_store (summary_store s1) s) done s1 ∧
    BlockSummaryStore.wf (summary_store s1) ∧
    BlockSummaryStore.num_layers (summary_store s1) = BlockSummaryStore.num_layers (summary_store s) ∧
    BlockSummaryStore.max_blocks (summary_store s1) = BlockSummaryStore.max_blocks (summary_store s) ∧
    BlockSummaryStore.block_size (summary_store s1) = bs)).
  - split_and!; [|by apply (us_wf _ _ _ (sd_sum _ _ _ _ (rd_steady _ _ Hrd)))|done|done|apply Hrd].
    split; try done.
    + intros b. unfold stored. by rewrite Hr0, Hb0.
    + by rewrite Hr0.
    + simpl. change (write_through (with_summary_store (summary_store s) s)) with (write_through s).
      destruct (write_through s); change (cpu_free_count (with_summary_store (summary_store s) s)) with (cpu_free_count s); lia.
  - intros done b todo s1 Hr (Hps & Hwf & Hnl & Hmb & Hsz).
    assert (0 ≤ b < n) as Hb.
    { assert (b ∈ py_range n) as Hin by (rewrite Hr; set_solver). unfold py_range in Hin. rewrite elem_of_seqZ in Hin. lia. }
    assert (lidx s1 = lidx s) as Hl.
    { unfold lidx. by destruct (ps_frame _ _ _ _ _ _ Hps) as [-> _]. }
    wp_step. rewrite <-Hl. apply wp_summary.
    { split_and!; [done|split; rewrite ?Hl, ?Hnl, ?Hmb; split; destruct Hrd; lia|]. rewrite Hsz.
      unfold slice. rewrite length_take, length_drop. nia. }
    intros ss (Hwf' & Hnl' & Hmb' & Hsz' & _ & _).
    apply (wp_prompt_body sid _ (prompt_rows ks vs n) lo n (with_summary_store ss s) done b todo); try done.
    + apply (ready_range sid s); [done|lia].
    + change (write_through (with_summary_store ss s)) with (write_through s).
      change (cpu_free_count (with_summary_store ss s)) with (cpu_free_count s). destruct (write_through s); lia.
    + by apply (prompt_state_summary _ _ _ (with_summary_store (summary_store s1) s)).
    + exists (rows ks b, rows vs b). split; [unfold prompt_rows; by rewrite decide_True by lia|].
      intros s2 Q2 HQ2. by apply wp_ret.
    + intros s2 Hps2. pose proof (ps_frame _ _ _ _ _ _ Hps2) as (_ & _ & E & _). simpl in E. rewrite E.
      split_and!; [done|done|congruence..].
  - intros s' (Hps & _). by exists (summary_store s').
Qed.

(** As many CPU copies as blocks: every block has one. *)
Lemma all_backed sid s n :
  tm_inv sid None [] s → (∀ b, ¬ 0 ≤ b < n → stored s (sid, b) = None) → 0 ≤ n →
  Z.of_nat (length (backing s)) = n → ∀ b, 0 ≤ b < n → is_Some (od_get (sid, b) (backing s)).
Proof.
  intros Hinv Hnone Hn Hlen b Hb.
  assert ((backing s).*1 ⊆+ ((λ b, (sid, b)) <$> seqZ 0 n)) as Hsub.
  { apply NoDup_submseteq; [apply (ti_back_wf _ _ _ _ Hinv)|]. intros [x b'] Hk.
    destruct (tracked_stored _ _ _ (x, b') Hinv) as [[? Hst] Hx]; [by right|]. simpl in Hx. subst x.
    apply list_elem_of_fmap. exists b'. split; [done|]. apply elem_of_seqZ.
    destruct (decide (0 ≤ b' < n)) as [?|Hno]; [lia|]. by rewrite Hnone in Hst. }
  apply submseteq_length_Permutation in Hsub; [|rewrite !length_fmap, length_seqZ; lia].
  eapply bool_decide_eq_true_1. change (od_mem (sid, b) (backing s) = true). apply od_mem_spec. rewrite Hsub. apply list_elem_of_fmap. exists b.
  split; [done|]. apply elem_of_seqZ. lia.
Qed.

(** The prompt's partial block, once its rows are in a slot *)
Lemma prefill_live (l : list row) (old : block) :
  has_rows bs old →
  take (Z.to_nat (nlive l)) (list_inserts 0 (slice l (nfull l * bs) (nfull l * bs + nlive l)) old) =
    drop (Z.to_nat (nfull l * bs)) l.
Proof.
  intros Hold. pose proof (n_split l) as (Hl & Ho & Hf). unfold has_rows in Hold.
  unfold slice. rewrite (take_ge (drop _ l)) by (rewrite length_drop; lia).
  set (x := drop _ l). assert (Z.of_nat (length x) = nlive l) as Hx by (unfold x; rewrite length_drop; lia).
  apply list_eq. intros i. destruct (decide (i < length x)%nat).
  - rewrite lookup_take_lt by lia. rewrite list_lookup_inserts; [f_equal; lia|lia|lia].
  - rewrite lookup_take_ge by lia. symmetry. apply lookup_ge_None. lia.
Qed.

(** The state between the full blocks and the partial block *)
Record prefilled sid ks vs s : Prop := {
  pf_inv : tm_inv sid None [] s;
  pf_ready : ready sid s;
  pf_len : length vs = length ks;
  pf_stored : ∀ b, stored s (sid, b) = prompt_rows ks vs (nfull ks) b;
  pf_mirror : write_through s = true → ∀ b, 0 ≤ b < nfull ks → is_Some (od_get (sid, b) (host_slots s));
  pf_room : Z.of_nat (length (resident_map s)) < LRUSlotMap.capacity (slot_map s);
  pf_some : 0 < nfull ks → resident_map s ≠ []
}.

Lemma prefilled_holds sid ks vs s : prefilled sid ks vs s → nlive ks = 0 → holds sid ks vs s.
Proof.
  intros [] E. split; try done.
  - intros b Hb. rewrite pf_stored0. unfold prompt_rows. by rewrite decide_True.
  - intros b Hb. rewrite pf_stored0. unfold prompt_rows. rewrite decide_False; [done|].
    unfold nblocks in Hb. by rewrite decide_True, Z.add_0_r in Hb.
Qed.

Lemma prompt_state_prefilled sid ks vs s s1 lo ss :
  tm_inv sid None [] s → backing s = [] → ready sid s → length vs = length ks → 0 ≤ lo ≤ nfull ks →
  (0 < nfull ks → lo < nfull ks) → nfull ks - lo < LRUSlotMap.capacity (slot_map s) → steady bs {[sid]} s s1 →
  prompt_state sid (prompt_rows ks vs (nfull ks)) lo (with_summary_store ss s) (py_range (nfull ks)) s1 →
  prefilled sid ks vs s1.
Proof.
  intros Hinv Hb0 Hrd Hlen Hlo Hlo' Hlt Hst Hps. pose proof (n_split ks) as (Hl & Ho & Hf).
  assert (∀ b, stored s1 (sid, b) = prompt_rows ks vs (nfull ks) b) as Hstored.
  { intros b. rewrite (ps_stored _ _ _ _ _ _ Hps). unfold prompt_rows, py_range.
    case_decide as H; rewrite elem_of_seqZ in H; case_decide; (done || lia). }
  assert (write_through s1 = write_through s) as Hwt by (unfold write_through; by rewrite (sd_cfg _ _ _ _ Hst)).
  pose proof (ps_inv _ _ _ _ _ _ Hps) as Hinv1.
  split; [done|by eapply ready_steady|done|done| | |].
  - intros Hw. assert (backing s1 = host_slots s1) as <- by (unfold backing; by rewrite Hw).
    apply all_backed; [done| |done|].
    { intros b Hb. rewrite Hstored. unfold prompt_rows. by rewrite decide_False. }
    pose proof (backing_count _ _ _ Hinv1). pose proof (backing_count _ _ _ Hinv) as Hc. rewrite Hb0 in Hc. simpl in Hc.
    pose proof (cs_blocks _ _ _ _ (sd_cpu _ _ _ _ Hst)) as Hbl. pose proof (ps_free _ _ _ _ _ _ Hps) as Hfr.
    change (write_through (with_summary_store ss s)) with (write_through s) in Hfr.
    change (cpu_free_count (with_summary_store ss s)) with (cpu_free_count s) in Hfr.
    rewrite <-Hwt, Hw in Hfr. unfold py_range in Hfr. rewrite length_seqZ in Hfr. lia.
  - rewrite <-(length_fmap fst), (ps_resident _ _ _ _ _ _ Hps), length_fmap, (ps_cap _ _ _ _ _ _ Hps). simpl.
    pose proof (filter_prefix_count (nfull ks) lo (py_range (nfull ks)) [] Hlo) as [? _]; [by rewrite app_nil_r|]. lia.
  - intros Hpos E. pose proof (ps_resident _ _ _ _ _ _ Hps) as Hr. rewrite E in Hr. simpl in Hr.
    assert ((sid, nfull ks - 1) ∈ ((λ b, (sid, b)) <$> filter (λ b, lo ≤ b) (py_range (nfull ks)))) as Hin; [|by rewrite <-Hr in Hin; apply not_elem_of_nil in Hin].
    apply list_elem_of_fmap. exists (nfull ks - 1). split; [done|]. apply list_elem_of_filter. split; [lia|].
    apply elem_of_seqZ. lia.
Qed.

(** The partial block takes a free slot. *)
Lemma written_holds sid ks vs s s' kb vb ev :
  prefilled sid ks vs s → nlive ks ≠ 0 → ready sid s' →
  written sid s s' (sid, nfull ks) (kb, vb) ev → is_resident sid (nfull ks) s' = true →
  take (Z.to_nat (nlive ks)) kb = drop (Z.to_nat (nfull ks * bs)) ks →
  take (Z.to_nat (nlive ks)) vb = drop (Z.to_nat (nfull ks * bs)) vs → holds sid ks vs s'.
Proof.
  intros [Hinv Hrd Hlen Hst Hmir _ _] E Hrd' Hw Hres Hk Hv. pose proof (n_split ks) as (Hl & Ho & Hf).
  assert (write_through s' = write_through s) as Hwt.
  { unfold write_through. by destruct (wr_frame _ _ _ _ _ _ Hw) as [-> _]. }
  split; [apply Hw|done|done| | | |].
  - intros b Hb. rewrite (wr_stored _ _ _ _ _ _ Hw), decide_False by (intros [= ->]; lia). rewrite Hst.
    unfold prompt_rows. by rewrite decide_True.
  - intros _. split; [|done|apply Hw]. exists kb, vb.
    by rewrite (wr_stored _ _ _ _ _ _ Hw), decide_True.
  - intros b Hb. unfold nblocks in Hb. rewrite decide_False in Hb by done.
    rewrite (wr_stored _ _ _ _ _ _ Hw), decide_False by (intros [= ->]; lia). rewrite Hst.
    unfold prompt_rows. by rewrite decide_False by lia.
  - intros Hw' b Hb. rewrite Hwt in Hw'. destruct (Hmir Hw' b Hb) as [c Hc]. exists c. by apply (wr_host _ _ _ _ _ _ Hw).
Qed.

Lemma wp_prefill_partial sid ks vs s :
  prefilled sid ks vs s → nlive ks ≠ 0 → nblocks ks ≤ N →
  wp ('(slot, evicted) <- on_slot_map (LRUSlotMap.add (sid, nfull ks) []) ;;
      spill_hook evicted slot ;;
      '(kb, vb) <- read_arena slot ;;
      copy_into_arena slot (list_inserts 0 (slice ks (nfull ks * bs) (nfull ks * bs + nlive ks)) kb)
                           (list_inserts 0 (slice vs (nfull ks * bs) (nfull ks * bs + nlive ks)) vb) ;;
      on_residency (BlockResidency.mark_on_gpu (lidx s) (nfull ks))) s (λ _ s', ∃ kb vb ev,
    written sid s s' (sid, nfull ks) (kb, vb) ev ∧ is_resident sid (nfull ks) s' = true ∧
    take (Z.to_nat (nlive ks)) kb = drop (Z.to_nat (nfull ks * bs)) ks ∧
    take (Z.to_nat (nlive ks)) vb = drop (Z.to_nat (nfull ks * bs)) vs).
Proof.
  intros [Hinv Hrd Hlen Hst _ Hroom _] E HN'. pose proof (n_split ks) as (Hl & Ho & Hf).
  assert (block_in_range s (nfull ks)) as Hbr.
  { apply (ready_range sid); [done|]. unfold nblocks in HN'. rewrite decide_False in HN' by lia. lia. }
  assert (untracked s (sid, nfull ks)) as [_ Hnb].
  { eapply stored_untracked; [done|]. rewrite Hst. unfold prompt_rows. by rewrite decide_False by lia. }
  apply (wp_write_room sid s (sid, nfull ks)); [done..| |].
  { intros sm slot v Hadd _. inversion Hadd as [| |victim Hnone Hfree Hvic]; subst.
    pose proof (LRUSlotMap.inv_count _ (ti_slots _ _ _ _ Hinv)) as Hc. rewrite Hfree in Hc. simpl in Hc.
    unfold resident_map in Hroom. lia. }
  intros slot ev s1 Hrm Hv. destruct (room_made_slot _ _ _ _ _ _ _ (ti_slots _ _ _ _ Hinv) Hrm) as [Hsl1 Hsl2].
  pose proof (rm_inv _ _ _ _ _ _ _ Hrm) as Hinv1.
  destruct (arena_in_range _ _ _ _ slot Hinv1) as [[kb vb] Hold]; [by rewrite <-(ti_gpu_k _ _ _ _ Hinv1)|].
  destruct (arena_shape_lookup bs s1 slot kb vb) as [Hlk Hlv]; [|lia|done|].
  { unfold arena_shape. destruct (rm_arena _ _ _ _ _ _ _ Hrm) as [-> ->]. by eapply ready_arena. }
  wp_step. eapply wp_read_arena; [exact Hold|]. simpl.
  apply (wp_fill_slot sid s s1 (sid, nfull ks) slot ev); [done..|]. intros s' Hw Hslot Har.
  eexists _, _, ev. split; [exact Hw|]. split; [apply is_resident_spec; by exists slot|].
  assert (nfull vs = nfull ks ∧ nlive vs = nlive ks) as [E1 E2] by (unfold nfull, nlive; by rewrite Hlen).
  split; [by apply prefill_live|]. rewrite <-E1, <-E2. by apply prefill_live.
Qed.

Lemma wp_prefill sid ks vs s :
  tm_inv sid None [] s → ready sid s → resident_map s = [] → backing s = [] → sid ∉ trimmed s →
  length vs = length ks → nblocks ks ≤ N → ks ≠ [] →
  wp (prefill_ingest_kvshare ops sid (nfull ks) ks vs bs (Some (Z.of_nat (length ks)))) s (λ _ s',
    holds sid ks vs s' ∧ resident_map s' ≠ [] ∧ steady bs {[sid]} s s').
Proof.
  intros Hinv Hrd Hr0 Hb0 Htr Hlen HN' Hne. pose proof (n_split ks) as (Hl & Ho & Hf). pose proof (rd_cap _ _ Hrd) as Hcap.
  assert (nfull ks ≤ N) as HfN by (unfold nblocks in HN'; case_decide; lia).
  assert (wp (prefill_ingest_kvshare ops sid (nfull ks) ks vs bs (Some (Z.of_nat (length ks)))) s (λ _ s',
    resident_map s' ≠ [] ∧ (ready sid s' → holds sid ks vs s'))) as Hw.
  2: { eapply wp_mono; [apply wp_keeps_to; [exact Hw|apply (stays_prefill_ingest ops bs {[sid]} s)|apply Hrd]|].
       - apply Hrd.
       - set_solver.
       - done.
       - nia.
       - nia.
       - intros [] s' ((Hr & Hh) & Hsd & _). split_and!; [|done|done]. by eapply Hh, ready_steady. }
  unfold prefill_ingest_kvshare. wp_step. wp_step. rewrite bool_decide_false by done. wp_step. wp_step.
  set (s0 := with_trimmed _ s). set (lo := keep_lo_of (nfull ks) s).
  assert (0 ≤ lo ≤ nfull ks ∧ nfull ks - lo < LRUSlotMap.capacity (slot_map s)) as [Hlo Hlt] by (unfold lo, keep_lo_of; lia).
  assert (0 < nfull ks → lo < nfull ks) as Hlo' by (unfold lo, keep_lo_of; lia).
  assert (tm_inv sid None [] s0) as Hinv0 by (destruct Hinv; by split).
  assert (ready sid s0) as Hrd0.
  { destruct Hrd as [Hst]. split; try done. destruct Hst. split; try done. simpl. set_solver. }
  unfold layer. wp_step. wp_step. change (layer_idx (cfg s)) with (lidx s0). wp_step.
  eapply wp_mono.
  { apply wp_keeps_to; [apply (wp_ingest_blocks sid ks vs s0 lo (nfull ks)); try done; lia
      |apply (stays_ingest_blocks ops bs {[sid]} s0); try done; [apply Hrd0|nia|nia]|apply Hrd0]. }
  intros [] s1 ((ss & Hps) & Hst1 & _).
  assert (prefilled sid ks vs s1) as Hpf by by eapply prompt_state_prefilled.
  replace (Z.of_nat (length ks) - nfull ks * bs) with (nlive ks) by lia. case_bool_decide as Hp.
  2: { wp_step. split; [|intros _; apply prefilled_holds; [done|lia]]. apply Hpf.
       destruct ks; [done|]. simpl length in Hl. lia. }
  rewrite <-(steady_layer _ _ _ _ Hst1).
  eapply wp_mono; [apply (wp_prefill_partial sid ks vs s1); [done|lia|done]|].
  intros [] s' (kb & vb & ev & Hw & Hres & Hk & Hv). split; [|intros Hrd'; eapply written_holds; try done; lia].
  apply is_resident_spec in Hres as [slot Hslot]. intros E. by rewrite E in Hslot.
Qed.
End seq.
