(* ===== verification/QuestConfig.v ===== *)
(** * Quest backend: configuration

    [QuestConfig] of src/vllm/config/quest.py with its validation and the sizing of
    the CPU pool, and the checks of attention/backends/quest/backend.py and
    compatibility.py. Enumerations are the strings the code compares; the messages
    of validation errors are not modelled, only which checks fail. *)

From S2P Require Import Prelude QuestStore QuestTier.

Open Scope Z_scope.

Record QuestConfig := mkQuestConfig {
  enabled : bool;
  block_size : Z;
  top_k : Z;
  full_kv_layers : list Z;
  digest_mode : string;
  gpu_cache_blocks_per_seq : Z;
  cpu_cache_blocks : Z;
  cpu_cache_gib : option Z;
  eviction_policy : string;
  enable_write_through : bool;
  footprint_kvshare : bool;
  enable_async_prefetch : bool;
  prefetch_window_blocks : Z;
  block_ordering : string;
  prefetch_touch : bool;
  selection_impl : string;
  enable_debug_counters : bool;
  unsupported_model_policy : string
}.

Definition one_of (x : string) (l : list string) : bool := bool_decide (x ∈ l).

(** [prefetch_window_blocks or top_k] *)
Definition effective_window (qc : QuestConfig) : Z :=
  if bool_decide (prefetch_window_blocks qc = 0) then top_k qc else prefetch_window_blocks qc.

(** The checks of [QuestConfig.validate] in their order: each raises ValueError. *)
Definition violations (qc : QuestConfig) : list bool :=
  [bool_decide (top_k qc ≤ 0);
   bool_decide (gpu_cache_blocks_per_seq qc < top_k qc);
   bool_decide (block_size qc ≤ 0);
   bool_decide (cpu_cache_blocks qc < 0);
   match cpu_cache_gib qc with Some g => bool_decide (g ≤ 0) | None => false end;
   negb (one_of (eviction_policy qc) ["lru"; "arc"]);
   negb (one_of (selection_impl qc) ["torch"; "triton"; "cuda"]);
   negb (one_of (unsupported_model_policy qc) ["error"; "fallback"]);
   negb (one_of (digest_mode qc) ["quest_minmax"; "arkvale_cuboid_mean"]);
   bool_decide (prefetch_window_blocks qc < 0);
   bool_decide (0 < prefetch_window_blocks qc) && negb (enable_async_prefetch qc);
   negb (one_of (block_ordering qc) ["lru"; "prefetch"; "mixture"]);
   one_of (block_ordering qc) ["prefetch"; "mixture"] && negb (enable_async_prefetch qc);
   one_of (block_ordering qc) ["prefetch"; "mixture"] && bool_decide (effective_window qc ≤ 0);
   one_of (block_ordering qc) ["prefetch"; "mixture"] &&
     bool_decide (gpu_cache_blocks_per_seq qc ≤ effective_window qc);
   prefetch_touch qc && one_of (block_ordering qc) ["lru"; "prefetch"]].

Definition validate (qc : QuestConfig) : outcome unit :=
  if existsb id (violations qc) then Raise ValueError else Ret tt.

Definition resolve_cpu_blocks_per_layer (qc : QuestConfig) (page_size_bytes num_quest_layers : Z)
    (max_model_len max_num_seqs blk_size : option Z) : outcome Z :=
  if bool_decide (num_quest_layers ≤ 0) then Ret 0
  else
    let legacy_cap := cpu_cache_blocks qc in
    match (match cpu_cache_gib qc with
           | None => Ret legacy_cap
           | Some g =>
               if bool_decide (page_size_bytes = 0) then Raise ZeroDivisionError
               else Ret (Z.min legacy_cap (g * 1024 ^ 3 / page_size_bytes / num_quest_layers))
           end) with
    | Raise e => Raise e
    | Ret ceiling =>
        match max_model_len, max_num_seqs, blk_size with
        | Some len, Some seqs, Some bs =>
            if bool_decide (bs = 0) then Raise ZeroDivisionError
            else
              let need := - (- len / bs) * seqs in
              if bool_decide (ceiling < need) then
                if enable_write_through qc then Raise RuntimeError else Ret ceiling
              else Ret need
        | _, _, _ => Ret ceiling
        end
    end.

(** ** Compatibility *)

(** What the checks read of the model and cache configuration *)
Record ModelConfig := mkModelConfig { architecture : option string; is_mla : bool; has_sliding_window : bool }.
Record CacheConfig := mkCacheConfig { cache_block_size : Z; enable_prefix_caching : bool }.

Definition SUPPORTED_MODEL_FAMILIES : list string := ["llama"; "mistral"; "qwen2"; "qwen2.5"; "yi"].

(** [str.lower] on ASCII *)
Definition lower_char (c : Ascii.ascii) : Ascii.ascii :=
  let n := Ascii.nat_of_ascii c in
  if bool_decide (65 ≤ n ≤ 90)%nat then Ascii.ascii_of_nat (n + 32) else c.
Fixpoint lower (s : string) : string :=
  match s with EmptyString => EmptyString | String c s => String (lower_char c) (lower s) end.
(** [str.removesuffix] *)
Definition removesuffix (suffix s : string) : string :=
  let n := (String.length s - String.length suffix)%nat in
  if (bool_decide (String.length suffix ≤ String.length s)%nat &&
      String.eqb (String.substring n (String.length suffix) s) suffix)%bool
  then String.substring 0 n s else s.

(** Which of the three reasons [check_model_compat] reports *)
Inductive compat_error := ArchitectureUnset | ArchitectureUnsupported | MlaUnsupported | SlidingWindowUnsupported.

Definition check_model_compat (mc : ModelConfig) : list compat_error :=
  match architecture mc with
  | None => [ArchitectureUnset]
  | Some a =>
      if one_of (removesuffix "forcausallm" (lower a)) SUPPORTED_MODEL_FAMILIES then []
      else [ArchitectureUnsupported]
  end ++
  (if is_mla mc then [MlaUnsupported] else []) ++
  (if has_sliding_window mc then [SlidingWindowUnsupported] else []).

Inductive quest_error :=
  | BlockSizeNotMultiple | KvshareNeedsNoPrefixCaching | TopKTooLarge | Incompatible (e : compat_error).

(** [QuestSparseOffloadBackend.validate_quest_configuration] *)
Definition validate_quest_configuration (mc : ModelConfig) (cc : CacheConfig) (quest_config : option QuestConfig)
    : list quest_error :=
  match quest_config with
  | None => []
  | Some qc =>
      if negb (enabled qc) then []
      else
        (if bool_decide (cache_block_size cc `mod` 256 = 0) then [] else [BlockSizeNotMultiple]) ++
        (if footprint_kvshare qc && enable_prefix_caching cc then [KvshareNeedsNoPrefixCaching] else []) ++
        (if bool_decide (gpu_cache_blocks_per_seq qc - 1 < top_k qc) then [TopKTooLarge] else []) ++
        (if String.eqb (unsupported_model_policy qc) "error"
         then Incompatible <$> check_model_compat mc else [])
  end.

(** The ordering of the tier manager: an unlisted string is neither "lru" nor "mixture". *)
Definition ordering_of (s : string) : TierManager.ordering :=
  if String.eqb s "lru" then TierManager.lru
  else if String.eqb s "mixture" then TierManager.mixture else TierManager.prefetch.

(** [digest_mode == "arkvale_cuboid_mean"] is the only test of the digest. *)
Definition digest_of_string (s : string) : BlockSummaryStore.DigestMode :=
  if String.eqb s "arkvale_cuboid_mean" then BlockSummaryStore.arkvale_cuboid_mean
  else BlockSummaryStore.quest_minmax.

(** ** What validation guarantees *)

(** An accepted configuration leaves one arena slot beside the selected blocks. *)
Lemma validated_live_slot mc cc qc :
  enabled qc = true → validate qc = Ret tt → validate_quest_configuration mc cc (Some qc) = [] →
  0 < top_k qc ∧ top_k qc + 1 ≤ gpu_cache_blocks_per_seq qc.
Proof.
  intros Hen Hv Hb. unfold validate, violations in Hv. simpl in Hv.
  destruct (bool_decide (top_k qc ≤ 0)) eqn:Hk; [done|]. apply bool_decide_eq_false in Hk.
  unfold validate_quest_configuration in Hb. rewrite Hen in Hb. simpl in Hb.
  apply app_eq_nil in Hb as [_ Hb]. apply app_eq_nil in Hb as [_ Hb]. apply app_eq_nil in Hb as [Hb _].
  case_bool_decide; [done|]. lia.
Qed.

(** A resolved pool under write-through backs every block of every sequence. *)
Lemma resolved_backs_all qc psb nl len seqs bs n :
  0 < nl → 0 < bs → enable_write_through qc = true →
  resolve_cpu_blocks_per_layer qc psb nl (Some len) (Some seqs) (Some bs) = Ret n →
  n = ceil_div len bs * seqs.
Proof.
  intros Hnl Hbs Hwt. unfold resolve_cpu_blocks_per_layer. rewrite (bool_decide_false (nl ≤ 0)) by lia.
  destruct (cpu_cache_gib qc) as [g|]; [case_bool_decide; [done|]|].
  all: rewrite (bool_decide_false (bs = 0)) by lia; case_bool_decide; rewrite ?Hwt; intros [= <-].
  all: unfold ceil_div; f_equal; f_equal; rewrite <- (Z.opp_involutive len) at 2; by rewrite Z.div_opp_opp by lia.
Qed.
