(* ===== verification/QuestDecode.v ===== *)
(** * Quest backend: the forward pass of an attention layer

    [QuestSparseOffloadImpl.forward] (attention/backends/quest/impl.py), the per-step
    orchestration of impl_helpers.py, the torch block selection
    (attention/ops/quest_selection_torch.py) and [init_runtime_state] of backend.py.

    The tier managers of all layers share one summary store, one residency array, one
    CPU pool and one stream pool: [on_tm] runs an operation of one manager on the
    shared objects. Engine KV caches are tensors by address, so that layers which
    alias one scratch tensor do so here. The kernels (dense attention, paged
    attention, the scores) are parameters, and so is what the device has done to the
    arena when a wait for an event returns; rows of one token are abstract. Request
    ids are integers; positions, the fallback, are distinct from them in the code. *)

From stdpp Require Import sorting.
From S2P Require Import Prelude OrderedDict QuestStore QuestTier QuestConfig.

Open Scope Z_scope.
Import TierManager.

(** [FlashAttentionMetadata] and the fields [QuestAttentionMetadata] adds *)
Record metadata := mkMeta {
  num_actual_tokens : Z;
  max_query_len : Z;
  slot_mapping : list Z;
  seq_lens : list Z;
  query_start_loc : list Z;
  block_table : list (list Z);
  quest_layer_indices : list Z;
  quest_top_k : Z;
  request_ids : list Z
}.

(** The fields of [FlashAttentionMetadata] among them *)
Record fa_metadata := mkFa {
  fa_num_actual_tokens : Z;
  fa_max_query_len : Z;
  fa_slot_mapping : list Z;
  fa_seq_lens : list Z;
  fa_query_start_loc : list Z;
  fa_block_table : list (list Z)
}.

(** [QuestMetadataBuilder]: what it adds to the metadata of every step *)
Record QuestMetadataBuilder := mkBuilder {
  b_quest_layer_indices : option (list Z);
  b_quest_top_k : Z;
  b_request_ids : list Z
}.
Definition new_builder : QuestMetadataBuilder := mkBuilder None 64 [].
Definition set_quest_layer_indices (indices : list Z) (b : QuestMetadataBuilder) : QuestMetadataBuilder :=
  mkBuilder (Some indices) (b_quest_top_k b) (b_request_ids b).
Definition set_quest_top_k (top_k : Z) (b : QuestMetadataBuilder) : QuestMetadataBuilder :=
  mkBuilder (b_quest_layer_indices b) top_k (b_request_ids b).
Definition set_request_ids (ids : list Z) (b : QuestMetadataBuilder) : QuestMetadataBuilder :=
  mkBuilder (b_quest_layer_indices b) (b_quest_top_k b) ids.

Definition _promote (fa_md : fa_metadata) (b : QuestMetadataBuilder) : metadata :=
  mkMeta (fa_num_actual_tokens fa_md) (fa_max_query_len fa_md) (fa_slot_mapping fa_md) (fa_seq_lens fa_md)
    (fa_query_start_loc fa_md) (fa_block_table fa_md)
    (default [] (b_quest_layer_indices b)) (b_quest_top_k b) (b_request_ids b).

(** The table the model runner hands to the builders: the slot of a Quest layer, -1 for
    the others. [layer_idxs] are the [layer_idx] of the attention layers. *)
Definition number_layers (full_set : list Z) (idxs : list Z) (table : list Z) : option (list Z) :=
  fst <$> foldl (λ acc idx,
    '(table, slot) ← acc;
    if bool_decide (idx ∈ full_set) then Some (table, slot)
    else table' ← list_set table idx slot; Some (table', slot + 1)) (Some (table, 0)) idxs.
Definition layer_index_table (full_kv_layers layer_idxs : list Z) : option (list Z) :=
  let sorted := merge_sort Z.le layer_idxs in
  let num_layers := match sorted with [] => 0 | x :: xs => foldl Z.max x xs + 1 end in
  number_layers full_kv_layers sorted (replicate (Z.to_nat num_layers) (-1)).

(** What the forward pass reads of an attention layer, apart from the runtime state *)
Record attn_layer := mkLayer {
  l_idx : Z;
  num_heads : Z;
  num_kv_heads : Z;
  kv_sharing_target : bool
}.

(** The objects shared by the tier managers *)
Record stores (row T : Type) := mkStores {
  st_summary : BlockSummaryStore.t T;
  st_residency : BlockResidency.t;
  st_cpu : CpuKvBackingStore.t (list row);
  st_pool : option (QuestStreamPool.t (list row))
}.
Arguments mkStores {row T}.
Arguments st_summary {row T}.
Arguments st_residency {row T}.
Arguments st_cpu {row T}.
Arguments st_pool {row T}.

(** [tms] are the [tier_manager] attributes by layer, [registry] is the sorted list of
    Quest layers when cross-layer prefetch is wired up, [engine] the KV-cache tensors by
    address, [scratch_owner] the module's [_SCRATCH_OWNER] and [scratch_ptr] the layers'
    [_quest_kvshare_scratch_ptr]. *)
Record runtime (row T : Type) := mkRuntime {
  quest_config_ref : QuestConfig;
  tms : gmap Z (TierManager.t row T);
  shared : stores row T;
  registry : option (list Z);
  engine : gmap Z (list (list row) * list (list row));
  scratch_owner : gmap Z (Z * bool);
  scratch_ptr : gmap Z Z
}.
Arguments mkRuntime {row T}.
Arguments quest_config_ref {row T}.
Arguments tms {row T}.
Arguments shared {row T}.
Arguments registry {row T}.
Arguments engine {row T}.
Arguments scratch_owner {row T}.
Arguments scratch_ptr {row T}.

Section decode.
Context {row T qrow orow : Type} (ops : tensor_ops row T).
Notation block := (list row).
Notation TM := (TierManager.t row T).
Notation R := (runtime row T).
Implicit Types (L : attn_layer) (md : metadata) (key value : list row) (query : list qrow) (ptr : Z).

(** The dense kernel reads the engine's cache; the paged kernel reads the first
    [cache_seqlens] rows of the blocks of its block table. *)
Context (fa_forward : list qrow → list row → list row → option (list block * list block) → option metadata → list orow).
Context (flash_attn_with_kvcache : qrow → list block → list block → list Z → Z → orow).
(** [selection_fn]: query, summary rows, candidates, group count, top-k *)
Context (selection_fn : qrow → list (T * T) → list Z → Z → Z → outcome (list Z)).
Context (wait_event : QuestStreamPool.event → M TM unit).

(** ** State access *)
Definition with_tms ms st (r : R) : R :=
  mkRuntime (quest_config_ref r) ms st (registry r) (engine r) (scratch_owner r) (scratch_ptr r).
Definition with_engine e (r : R) : R :=
  mkRuntime (quest_config_ref r) (tms r) (shared r) (registry r) e (scratch_owner r) (scratch_ptr r).
Definition with_scratch o p (r : R) : R :=
  mkRuntime (quest_config_ref r) (tms r) (shared r) (registry r) (engine r) o p.

Definition attach (st : stores row T) (s : TM) : TM :=
  with_summary_store (st_summary st) (with_residency (st_residency st)
    (with_cpu_store (st_cpu st) (with_stream_pool (st_pool st) s))).
Definition stores_of (s : TM) : stores row T :=
  mkStores (summary_store s) (residency s) (cpu_store s) (stream_pool s).

(** A call on [layer.tier_manager] *)
Definition on_tm {A} (idx : Z) (m : M TM A) : M R A := λ r,
  match tms r !! idx with
  | None => (Raise AttributeError, r)
  | Some s => let '(o, s') := m (attach (shared r) s) in (o, with_tms (<[idx := s']> (tms r)) (stores_of s') r)
  end.
Definition tier_manager (idx : Z) : M R (option TM) := gets (λ r, attach (shared r) <$> tms r !! idx).

(** [tm.gpu_k.shape[1]] *)
Definition arena_block_size (s : TM) : Z :=
  match gpu_k s with [] => 0 | b :: _ => Z.of_nat (length b) end.

(** ** Requests of a batch *)
Definition _seq_id_for md (req_idx : Z) : Z :=
  if bool_decide (req_idx < Z.of_nat (length (request_ids md)))
  then default req_idx (list_get (request_ids md) req_idx) else req_idx.

Definition enumerate {A} (l : list A) : list (Z * A) := zip (py_range (Z.of_nat (length l))) l.

Definition batch_seqs md : gset Z :=
  list_to_set (_seq_id_for md <$> py_range (Z.of_nat (length (seq_lens md)))).

(** Requests that left the batch are freed; the order over a set is unspecified. *)
Definition collect_finished (idx : Z) md : M R unit :=
  tm <- tier_manager idx ;;
  let active := batch_seqs md in
  (match tm ≫= active_seqs with
   | None => ret tt
   | Some prev_active => for_each (elements (prev_active ∖ active)) (λ old, on_tm idx (free_request old))
   end) ;;
  on_tm idx (modify (with_active_seqs (Some active))).

(** ** Prefill and decode bookkeeping *)
Definition notify_filled_blocks_after_prefill L key md : M R unit :=
  tm <- tier_manager (l_idx L) ;;
  match tm with
  | None => ret tt
  | Some s =>
      let bs := arena_block_size s in
      if bool_decide (py_slice (slot_mapping md) 0 (num_actual_tokens md) = []) then ret tt
      else
        for_each (enumerate (seq_lens md)) (λ '(i, _),
          beg <- of_option IndexError (list_get (query_start_loc md) i) ;;
          end_ <- of_option IndexError (list_get (query_start_loc md) (i + 1)) ;;
          if bool_decide (end_ - beg < bs) then ret tt
          else
            full_blocks <- floordiv (end_ - beg) bs ;;
            for_each (py_range full_blocks) (λ b,
              let tok_lo := beg + b * bs in
              on_tm (l_idx L) (register_prefill_summary ops (_seq_id_for md i) b
                                 (py_slice key tok_lo (tok_lo + bs)))))
  end.

(** [kv_cache[:, 0]], [kv_cache[:, 1]] *)
Definition read_engine ptr : M R (list block * list block) :=
  r <- get ;; of_option AttributeError (engine r !! ptr).

Definition notify_filled_blocks_after_decode L ptr md : M R unit :=
  tm <- tier_manager (l_idx L) ;;
  match tm with
  | None => ret tt
  | Some s =>
      let bs := arena_block_size s in
      collect_finished (l_idx L) md ;;
      '(k_eng, v_eng) <- read_engine ptr ;;
      for_each (enumerate (seq_lens md)) (λ '(i, sl),
        full_blocks <- floordiv sl bs ;;
        let seq_id := _seq_id_for md i in
        table_row <- of_option IndexError (list_get (block_table md) i) ;;
        on_tm (l_idx L) (trim_to_working_set seq_id full_blocks k_eng v_eng table_row) ;;
        rem <- pymod sl bs ;;
        (if bool_decide (sl ≠ 0 ∧ rem = 0) then
           phys <- of_option IndexError (list_get table_row (full_blocks - 1)) ;;
           kb <- of_option IndexError (list_get k_eng phys) ;;
           vb <- of_option IndexError (list_get v_eng phys) ;;
           _ <- on_tm (l_idx L) (on_block_filled ops seq_id (full_blocks - 1) kb vb) ;; ret tt
         else ret tt) ;;
        if bool_decide (rem ≠ 0) then
          phys <- of_option IndexError (list_get table_row full_blocks) ;;
          kb <- of_option IndexError (list_get k_eng phys) ;;
          vb <- of_option IndexError (list_get v_eng phys) ;;
          _ <- on_tm (l_idx L) (write_live_block seq_id full_blocks kb vb) ;; ret tt
        else ret tt)
  end.

(** ** KV sharing: the scratch tensor *)

(** The rows [reshape_and_cache_flash] scatters: padding slots are negative. *)
Definition set_row (slot bs : Z) (x : row) (plane : list block) : option (list block) :=
  b ← plane !! Z.to_nat (slot / bs);
  b' ← list_set b (slot `mod` bs) x; list_set plane (slot / bs) b'.
Definition cache_token (bs slot : Z) (k v : row) (c : list block * list block) : option (list block * list block) :=
  if bool_decide (slot < 0) then Some c
  else ks ← set_row slot bs k c.1; vs ← set_row slot bs v c.2; Some (ks, vs).

(** [do_kv_cache_update]; a slot beyond the tensor is an illegal access. *)
Definition do_kv_cache_update key value ptr (slots : list Z) : M R unit :=
  for_each (zip slots (zip key value)) (λ '(slot, (k, v)),
    c <- read_engine ptr ;;
    let bs := match c.1 with [] => 0 | b :: _ => Z.of_nat (length b) end in
    c' <- of_option RuntimeError (cache_token bs slot k v c) ;;
    modify (λ r, with_engine (<[ptr := c']> (engine r)) r)).

Definition list_max (l : list Z) : option Z :=
  match l with [] => None | x :: xs => Some (foldl Z.max x xs) end.

Definition kvshare_write_scratch L key value ptr md : M R unit :=
  let slots := py_slice (slot_mapping md) 0 (num_actual_tokens md) in
  c <- read_engine ptr ;;
  let scratch_slots := Z.of_nat (length c.1) * match c.1 with [] => 0 | b :: _ => Z.of_nat (length b) end in
  m <- of_option RuntimeError (list_max slots) ;;
  assert_ (bool_decide (m < scratch_slots)) ;;
  r <- get ;;
  assert_ (match scratch_owner r !! ptr with None => true | Some (_, offload_done) => offload_done end) ;;
  modify (λ r, with_scratch (<[ptr := (l_idx L, false)]> (scratch_owner r)) (scratch_ptr r) r) ;;
  do_kv_cache_update key value ptr slots ;;
  modify (λ r, with_scratch (scratch_owner r) (<[l_idx L := ptr]> (scratch_ptr r)) r).

(** [if ptr is not None and ptr in _SCRATCH_OWNER: _SCRATCH_OWNER[ptr][1] = True] *)
Definition release_scratch (idx : Z) : M R unit :=
  modify (λ r, match scratch_ptr r !! idx with
               | None => r
               | Some p => match scratch_owner r !! p with
                           | None => r
                           | Some (w, _) => with_scratch (<[p := (w, true)]> (scratch_owner r)) (scratch_ptr r) r
                           end
               end).

Definition kvshare_prefill_offload L key value md : M R unit :=
  tm <- tier_manager (l_idx L) ;;
  match tm with
  | None => ret tt
  | Some s =>
      let bs := arena_block_size s in
      collect_finished (l_idx L) md ;;
      for_each (enumerate (seq_lens md)) (λ '(i, _),
        beg <- of_option IndexError (list_get (query_start_loc md) i) ;;
        end_ <- of_option IndexError (list_get (query_start_loc md) (i + 1)) ;;
        let prompt_len := end_ - beg in
        if bool_decide (prompt_len ≤ 0) then ret tt
        else
          num_full <- floordiv prompt_len bs ;;
          on_tm (l_idx L) (prefill_ingest_kvshare ops (_seq_id_for md i) num_full (py_slice key beg end_)
                             (py_slice value beg end_) bs (Some prompt_len))) ;;
      release_scratch (l_idx L)
  end.

Definition kvshare_decode_write L key value md : M R unit :=
  tm <- tier_manager (l_idx L) ;;
  match tm with
  | None => ret tt
  | Some s =>
      let bs := arena_block_size s in
      collect_finished (l_idx L) md ;;
      for_each (enumerate (seq_lens md)) (λ '(i, sl),
        k_tok <- of_option IndexError (list_get key i) ;;
        v_tok <- of_option IndexError (list_get value i) ;;
        on_tm (l_idx L) (append_decode_token_kvshare ops (_seq_id_for md i) (sl - 1) k_tok v_tok bs))
  end.

(** ** Cross-layer prefetch *)
Definition _next_quest_layer_idx (idx : Z) (r : R) : option Z :=
  match registry r with
  | None => None
  | Some indices => head (filter (λ i, idx < i) indices)
  end.

Definition _prefetch_window (idx : Z) (top_k : Z) (r : R) : Z :=
  let qc := quest_config_ref r in
  if negb (bool_decide (is_Some (tms r !! idx))) || String.eqb (QuestConfig.block_ordering qc) "lru" then 0
  else
    let configured := if bool_decide (prefetch_window_blocks qc = 0) then top_k else prefetch_window_blocks qc in
    Z.min configured top_k.

(** ** Sparse decode *)

(** [if pool is not None: pop the event of every request and wait for it] *)
Definition wait_prefetched L md : M R unit :=
  for_each (py_range (Z.of_nat (length (seq_lens md)))) (λ i,
    ev <- on_tm (l_idx L) (s <- get ;;
            match stream_pool s with
            | None => ret None
            | Some p => on_pool p (QuestStreamPool.pop_prefetch_event (_seq_id_for md i) (l_idx L))
            end) ;;
    match ev with None => ret tt | Some e => on_tm (l_idx L) (wait_event e) end).

(** The decode of one request in the manager of its layer: the selected blocks and the
    kernel's output row *)
Definition decode_step (num_heads num_kv_heads : Z) query (top_k seq_id i sl : Z) : M TM (list Z * orow) :=
  s <- get ;;
  let bs := arena_block_size s in
  full_blocks <- floordiv sl bs ;;
  residual <- pymod sl bs ;;
  let has_partial := bool_decide (residual ≠ 0) in
  q <- of_option IndexError (list_get query i) ;;
  summary_layer <- of_option IndexError (list_get (BlockSummaryStore.summary (summary_store s)) (layer_idx (cfg s))) ;;
  num_kv_groups <- floordiv num_heads num_kv_heads ;;
  top_ids <- of_outcome (selection_fn q summary_layer (py_range full_blocks) num_kv_groups (Z.min top_k full_blocks)) ;;
  record_selected (select_calls (stats s) - 1) seq_id top_ids ;;
  s <- get ;;
  bump (bump_selected_total (Z.of_nat (length top_ids))) ;;
  bump (bump_selected_on_gpu (count_resident seq_id top_ids s)) ;;
  ev <- ensure_resident seq_id top_ids (if has_partial then Some [full_blocks] else None) ;;
  (match ev with None => ret tt | Some e => wait_event e end) ;;
  slots <- for_collect top_ids (logical_to_slot seq_id) ;;
  live <- (if has_partial then slot <- logical_to_slot seq_id full_blocks ;; ret [slot] else ret []) ;;
  s <- get ;;
  ret (top_ids, flash_attn_with_kvcache q (gpu_k s) (gpu_v s) (slots ++ live)
                  (Z.of_nat (length slots) * bs + residual)).

Definition decode_request L query md (top_k i : Z) (sl : Z) : M R (list Z * orow) :=
  on_tm (l_idx L) (decode_step (num_heads L) (num_kv_heads L) query top_k (_seq_id_for md i) i sl).

Definition run_sparse_decode L query md : M R (list orow) :=
  on_tm (l_idx L) (bump (bump_select_calls 1)) ;;
  let top_k := quest_top_k md in
  wait_prefetched L md ;;
  outs <- for_collect (enumerate (seq_lens md)) (λ '(i, sl), decode_request L query md top_k i sl) ;;
  (if bool_decide (outs.*1 = []) then raise RuntimeError else ret tt) ;;
  r <- get ;;
  (match st_pool (shared r), _next_quest_layer_idx (l_idx L) r with
   | Some _, Some next =>
       let window := _prefetch_window (l_idx L) top_k r in
       if bool_decide (0 < window) && bool_decide (is_Some (tms r !! next)) then
         for_each (enumerate outs) (λ '(i, (top_ids, _)),
           let ids := py_slice top_ids 0 window in
           on_tm next (set_prev_selected (_seq_id_for md i) ids) ;;
           on_tm next (prefetch_top_ids (_seq_id_for md i) ids))
       else ret tt
   | _, _ => ret tt
   end) ;;
  ret outs.*2.

(** ** [QuestSparseOffloadImpl.forward] *)
Definition _is_full_kv_layer L md : outcome bool :=
  if bool_decide (quest_layer_indices md = []) then Ret true
  else match list_get (quest_layer_indices md) (l_idx L) with
       | None => Raise IndexError
       | Some i => Ret (bool_decide (i < 0))
       end.

Definition _is_footprint_kvshare_layer L (r : R) : bool :=
  bool_decide (is_Some (tms r !! l_idx L)) && footprint_kvshare (quest_config_ref r).
Definition _is_kvshare_shared_layer L (r : R) : bool :=
  kv_sharing_target L && _is_footprint_kvshare_layer L r.

Definition forward L query key value ptr (attn_metadata : option metadata) : M R (list orow) :=
  r <- get ;;
  match attn_metadata with
  | None => ret (fa_forward query key value (engine r !! ptr) None)
  | Some md =>
      let is_prefill := bool_decide (1 < max_query_len md) in
      full_kv <- of_outcome (_is_full_kv_layer L md) ;;
      let bs := from_option arena_block_size 0 (tms r !! l_idx L) in
      let any_seq_too_short := bool_decide (0 < bs) && bool_decide (Exists (λ sl, sl < bs) (seq_lens md)) in
      let kvshare_layer := negb full_kv && _is_footprint_kvshare_layer L r in
      if (is_prefill || full_kv || any_seq_too_short)%bool then
        let kvshare_write := kvshare_layer && is_prefill && _is_kvshare_shared_layer L r in
        (if kvshare_write : bool then kvshare_write_scratch L key value ptr md else ret tt) ;;
        c <- gets (λ r, engine r !! ptr) ;;
        let out := fa_forward query key value c (Some md) in
        (if kvshare_layer && is_prefill then kvshare_prefill_offload L key value md
         else notify_filled_blocks_after_prefill L key md) ;;
        ret out
      else
        (if kvshare_layer : bool then kvshare_decode_write L key value md
         else notify_filled_blocks_after_decode L ptr md) ;;
        run_sparse_decode L query md
  end.

(** ** [QuestSparseOffloadBackend.init_runtime_state]

    [layers] are the global indices of the layers of this backend, [kv_block_size] the
    block size of a layer's engine tensor when there is one; new tensors hold the
    unspecified row [uninit]. *)
Section init.
Context (uninit : row) (qc : QuestConfig) (layers : list Z) (block_size max_blocks_total page_bytes : Z).
Context (max_model_len max_num_seqs : option Z) (kv_block_size : Z → option Z).

Definition quest_layers : list Z := filter (λ l, l ∉ full_kv_layers qc) layers.

Definition new_tier_manager (slot : Z) (idx : Z) (st : stores row T) : outcome TM :=
  let cap := gpu_cache_blocks_per_seq qc in
  let bs := default block_size (kv_block_size idx) in
  let gpu := replicate (Z.to_nat cap) (replicate (Z.to_nat bs) uninit) in
  TierManager.init
    (TierManager.mkConfig slot cap (enable_debug_counters qc) (enable_debug_counters qc)
       (QuestConfig.enable_write_through qc) (ordering_of (QuestConfig.block_ordering qc))
       (QuestConfig.prefetch_touch qc))
    gpu gpu (st_summary st) (st_residency st) (st_cpu st) (st_pool st) false.

Fixpoint new_tier_managers (ls : list (Z * Z)) (st : stores row T) (ms : gmap Z TM) : outcome (gmap Z TM) :=
  match ls with
  | [] => Ret ms
  | (slot, idx) :: ls' =>
      match new_tier_manager slot idx st with
      | Raise e => Raise e
      | Ret s => new_tier_managers ls' st (<[idx := s]> ms)
      end
  end.

(** The sorted view of the Quest layers *)
Fixpoint insert_sorted (x : Z) (l : list Z) : list Z :=
  match l with
  | [] => [x]
  | y :: l' => if bool_decide (x < y) then x :: l else if bool_decide (x = y) then l else y :: insert_sorted x l'
  end.

Definition init_runtime_state : outcome (option R) :=
  if negb (enabled qc) then Ret None
  else if bool_decide (quest_layers = []) then Ret None
  else if negb (one_of (selection_impl qc) ["torch"; "triton"; "cuda"]) then Raise ValueError
  else
    let num_quest := Z.of_nat (length quest_layers) in
    match resolve_cpu_blocks_per_layer qc page_bytes num_quest max_model_len max_num_seqs (Some block_size) with
    | Raise e => Raise e
    | Ret cpu_blocks =>
        match BlockSummaryStore.init ops num_quest max_blocks_total block_size
                (digest_of_string (QuestConfig.digest_mode qc)) with
        | Raise e => Raise e
        | Ret summary =>
            match CpuKvBackingStore.init (replicate (Z.to_nat block_size) uninit) num_quest cpu_blocks with
            | Raise e => Raise e
            | Ret cpu_store =>
                let residency := BlockResidency.init num_quest max_blocks_total in
                let pool := if enable_async_prefetch qc then Some QuestStreamPool.init else None in
                let st := mkStores summary residency cpu_store pool in
                match new_tier_managers (enumerate quest_layers) st ∅ with
                | Raise e => Raise e
                | Ret ms =>
                    let registry :=
                      if enable_async_prefetch qc && negb (String.eqb (QuestConfig.block_ordering qc) "lru")
                      then Some (foldr insert_sorted [] quest_layers) else None in
                    Ret (Some (mkRuntime qc ms st registry ∅ ∅ ∅))
                end
            end
        end
    end.
End init.

(** [bind_runtime]: [attn] are the attention layers, each with its [layer_idx] and whether
    its backend is this one; [num_blocks] is the engine's block count. *)
Definition bound_layers (qc : QuestConfig) (attn : list (Z * bool)) : list Z :=
  (filter (λ l, l.2 = true ∧ l.1 ∉ full_kv_layers qc) attn).*1.

Definition bind_runtime (uninit : row) (mc : ModelConfig) (cc : CacheConfig) (quest_config : option QuestConfig)
    (attn : list (Z * bool)) (num_blocks page_bytes : Z) (max_model_len max_num_seqs : option Z)
    (kv_block_size : Z → option Z) : outcome (option R) :=
  match quest_config with
  | None => Ret None
  | Some qc =>
      if negb (enabled qc) then Ret None
      else if negb (bool_decide (length (validate_quest_configuration mc cc (Some qc)) = 0%nat)) then Raise ValueError
      else
        let quest_layers_list := bound_layers qc attn in
        if bool_decide (quest_layers_list = []) then Ret None
        else init_runtime_state uninit qc quest_layers_list (cache_block_size cc) num_blocks page_bytes
               max_model_len max_num_seqs kv_block_size
  end.
End decode.

(** ** [quest_selection_torch] *)
Section selection.
Context {T qrow F : Type}.
(** The score of a block and [torch.topk(scores, k, sorted=False)[1]] *)
Context (score : qrow → T * T → Z → F) (topk : list F → Z → list Z).

Definition quest_selection_torch (query : qrow) (block_summary : list (T * T)) (candidate_ids : list Z)
    (num_kv_groups top_k : Z) : outcome (list Z) :=
  let num_candidates := Z.of_nat (length candidate_ids) in
  if bool_decide (num_candidates < top_k) then Raise ValueError
  else
    match mapM (list_get block_summary) candidate_ids with
    | None => Raise IndexError
    | Some summary_sel =>
        let scores := (λ s, score query s num_kv_groups) <$> summary_sel in
        match mapM (list_get candidate_ids) (topk scores top_k) with
        | None => Raise IndexError
        | Some ids => Ret ids
        end
    end.
End selection.
