(* ===== verification/QuestSeqDecode.v ===== *)
(** * Quest backend: what a decode step attends

    With the blocks of [holds] in two tiers, a decode step reloads the blocks it
    selected, and the slots it hands to the paged kernel hold exactly their rows
    followed by the rows of the partial block. *)

From S2P Require Import Prelude OrderedDict QuestStore QuestTier QuestTierInv QuestTierProps QuestTierWrite QuestTierSteady QuestTierPrefill QuestSeq QuestDecode.

Open Scope Z_scope.

(** The rows a paged kernel reads: the first [n] of the blocks of its block table *)
Definition gather {row} (plane : list (list row)) (slots : list Z) (n : Z) : list row :=
  take (Z.to_nat n) (concat ((λ i, default [] (list_get plane i)) <$> slots)).

Section attended.
Context {row T qrow orow : Type} (ops : tensor_ops row T).
Notation block := (list row).
Notation TM := (TierManager.t row T).
Notation key := LRUSlotMap.key.
Import TierManager.
Context (bs N : Z) (Hbs : 0 < bs).
Implicit Types (s : TM) (k : key) (sid b slot : Z) (ks vs : list row) (ids : list Z).

(** The rows of the blocks [ids] and of the partial block *)
Definition attended (l : list row) ids : list row := concat (rows bs l <$> ids) ++ drop (Z.to_nat (nfull bs l * bs)) l.

(** With every block selected these are all rows, up to the order of the blocks. *)
Lemma attended_all l ids : ids ≡ₚ py_range (nfull bs l) → attended l ids ≡ₚ l.
Proof.
  intros Hp. unfold attended. rewrite Hp. pose proof (n_split bs Hbs l) as (Hl & Ho & Hf).
  assert (∀ n : nat, Z.of_nat n * bs ≤ Z.of_nat (length l) →
    concat (rows bs l <$> seqZ 0 (Z.of_nat n)) = take (Z.to_nat (Z.of_nat n * bs)) l) as Hc.
  { induction n as [|n IH]; intros Hn; [done|]. replace (Z.of_nat (S n)) with (Z.of_nat n + 1) by lia.
    rewrite seqZ_app by lia. rewrite fmap_app, concat_app, IH by nia. simpl. rewrite app_nil_r.
    unfold rows, slice. replace (Z.to_nat ((Z.of_nat n + 1) * bs)) with (Z.to_nat (Z.of_nat n * bs) + Z.to_nat bs)%nat by nia.
    rewrite <-take_take_drop. do 2 f_equal; lia. }
  unfold py_range. rewrite <-(Z2Nat.id (nfull bs l)) at 1 by done. rewrite Hc by lia.
  rewrite Z2Nat.id by done. by rewrite take_drop.
Qed.

(** ** The slots of the gather *)
Lemma wp_slot sid s b slot (Q : Z → TM → Prop) :
  od_get (sid, b) (resident_map s) = Some slot →
  (∀ d, d ≡ₚ resident_map s → Q slot (with_slot_map (LRUSlotMap.set_map d (slot_map s)) s)) →
  wp (logical_to_slot sid b) s Q.
Proof.
  intros Hg HQ. unfold logical_to_slot, on_slot_map. apply wp_zoom. eapply LRUSlotMap.wp_slot_get; [exact Hg|].
  apply HQ. symmetry. etrans; [by apply od_del_perm|]. by rewrite Permutation_app_comm.
Qed.

(** A state that differs in the order of the arena's entries *)
Definition relinked s s' : Prop :=
  ∃ d, d ≡ₚ resident_map s ∧ s' = with_slot_map (LRUSlotMap.set_map d (slot_map s)) s.
Lemma relinked_refl s : relinked s s.
Proof. exists (resident_map s). split; [done|]. by destruct s as [? ? ? ? ? ? ? ? []]. Qed.
Lemma relinked_get s s' k : od_wf (resident_map s) → relinked s s' → od_get k (resident_map s') = od_get k (resident_map s).
Proof. intros Hwf (d & Hd & ->). by apply od_get_perm. Qed.

Lemma wp_slots sid s s1 ids (Q : list Z → TM → Prop) :
  od_wf (resident_map s) → relinked s s1 → (∀ b, b ∈ ids → is_resident sid b s = true) →
  (∀ slots s', relinked s s' → Forall2 (λ b slot, od_get (sid, b) (resident_map s) = Some slot) ids slots → Q slots s') →
  wp (for_collect ids (logical_to_slot sid)) s1 Q.
Proof.
  intros Hwf. revert s1 Q. induction ids as [|b ids IH]; intros s1 Q Hrel Hres HQ; simpl.
  { wp_step. by apply HQ. }
  destruct (proj1 (is_resident_spec sid b s)) as [slot Hslot]; [apply Hres; by left|].
  wp_step. apply (wp_slot sid s1 b slot); [by rewrite (relinked_get s)|]. intros d Hd. wp_step.
  apply IH.
  - destruct Hrel as (d1 & Hd1 & ->). exists d. split; [|by destruct s as [? ? ? ? ? ? ? ? []]]. by rewrite Hd.
  - intros b' Hb'. apply Hres. by right.
  - intros slots s' Hrel' HF. wp_step. apply HQ; [done|]. by constructor.
Qed.

(** Their rows *)
Lemma gather_slots (plane : list block) (f : Z → block) ids slots (live : option (Z * block)) off :
  Forall2 (λ b slot, list_get plane slot = Some (f b) ∧ Z.of_nat (length (f b)) = bs) ids slots →
  (if live is Some (slot, x) then list_get plane slot = Some x ∧ 0 ≤ off ≤ Z.of_nat (length x) else off = 0) →
  gather plane (slots ++ (if live is Some (slot, _) then [slot] else [])) (Z.of_nat (length slots) * bs + off) =
    concat (f <$> ids) ++ (if live is Some (_, x) then take (Z.to_nat off) x else []).
Proof.
  intros HF Hlive. unfold gather. rewrite fmap_app, concat_app.
  assert (concat ((λ i, default [] (list_get plane i)) <$> slots) = concat (f <$> ids) ∧
    Z.of_nat (length (concat (f <$> ids))) = Z.of_nat (length slots) * bs) as [-> Hlen].
  { induction HF as [|b slot ids slots [Hs Hl] HF [IH1 IH2]]; [done|].
    rewrite !fmap_cons. cbn [concat length]. rewrite IH1, Hs, length_app. cbn [default from_option id]. split; [done|]. lia. }
  destruct live as [[slot x]|]; simpl.
  - destruct Hlive as [-> Ho]. simpl. rewrite app_nil_r, take_app.
    rewrite take_ge by lia. do 2 f_equal. lia.
  - subst off. rewrite app_nil_r. apply take_ge. lia.
Qed.

(** ** Movement keeps the sequence *)
Lemma holds_frame sid ks vs s s' :
  holds bs N sid ks vs s → tm_inv sid None [] s' → ready bs N sid s' → cfg s' = cfg s →
  (∀ k, stored s' k = stored s k) →
  (nlive bs ks ≠ 0 → is_resident sid (nfull bs ks) s' = true ∧ od_get (sid, nfull bs ks) (backing s') = None) →
  (write_through s = true → ∀ b, 0 ≤ b < nfull bs ks → is_Some (od_get (sid, b) (host_slots s'))) →
  holds bs N sid ks vs s'.
Proof.
  intros Hh Hinv Hrd Hcfg Hst Hlive Hmir. split; [done|done|apply Hh| | | |].
  - intros b Hb. rewrite Hst. by apply Hh.
  - intros Hl. destruct (Hlive Hl) as [Hr Hb]. split; [|done|done]. rewrite Hst. by apply (ho_live _ _ _ _ _ _ Hh).
  - intros b Hb. rewrite Hst. by apply Hh.
  - unfold write_through. rewrite Hcfg. exact Hmir.
Qed.

Lemma holds_relinked sid ks vs s s' : holds bs N sid ks vs s → relinked s s' → holds bs N sid ks vs s'.
Proof.
  intros Hh Hrel. pose proof (ho_inv _ _ _ _ _ _ Hh) as Hinv.
  pose proof (LRUSlotMap.inv_keys _ (ti_slots _ _ _ _ Hinv)) as Hwf. pose proof Hrel as (d & Hd & ->).
  destruct (tm_inv_relink sid None [] s d Hinv Hd) as [Hinv' Hst].
  apply (holds_frame sid ks vs s); try done.
  - destruct (ho_ready _ _ _ _ _ _ Hh) as [Hsd]. split; try done. destruct Hsd. by split.
  - intros Hl. destruct (ho_live _ _ _ _ _ _ Hh Hl) as [_ Hr Hb]. split; [|done].
    apply is_resident_spec. rewrite (relinked_get s) by done. by apply is_resident_spec.
  - apply Hh.
Qed.

(** No CPU copy appears: none is made, and none is lost under write-through. *)
Lemma moved_backing sid P s s' k :
  tm_inv sid None [] s → moved sid P s s' →
  CpuKvBackingStore.blocks_per_layer (cpu_store s') = CpuKvBackingStore.blocks_per_layer (cpu_store s) →
  is_resident k.1 k.2 s' = true → od_get k (backing s) = None → od_get k (backing s') = None.
Proof.
  intros Hinv Hm Hbl Hr Hnb. pose proof (mv_inv _ _ _ _ Hm) as Hinv'.
  assert (write_through s' = write_through s) as Hwt.
  { unfold write_through. by destruct (mv_frame _ _ _ _ Hm) as [-> _]. }
  apply eq_None_not_Some. intros [c Hc]. apply is_resident_spec in Hr as [slot Hr]. destruct k as [x b]. simpl in Hr.
  destruct (ti_both _ _ _ _ Hinv' (x, b) slot c) as [Hw _]; [done..|]. rewrite Hwt in Hw.
  pose proof (backing_count _ _ _ Hinv) as Hc1. pose proof (backing_count _ _ _ Hinv') as Hc2.
  pose proof (mv_free _ _ _ _ Hm) as Hfree.
  assert (((x, b) :: (backing s).*1) ⊆+ (backing s').*1) as Hsub.
  { apply NoDup_submseteq.
    - constructor; [by apply od_get_None|apply (ti_back_wf _ _ _ _ Hinv)].
    - intros k Hk. apply elem_of_cons in Hk as [->|Hk]; [by eapply od_get_Some_key|].
      apply od_mem_spec, bool_decide_eq_true in Hk as [c' Hk]. eapply od_get_Some_key.
      unfold backing in *. rewrite Hwt, Hw in *. by apply (mv_host _ _ _ _ Hm Hw). }
  apply submseteq_length in Hsub. simpl in Hsub. rewrite !length_fmap in Hsub. lia.
Qed.

Lemma holds_moved sid ks vs s s' ids keep :
  holds bs N sid ks vs s → steady bs {[sid]} s s' → moved sid (step_keys sid keep ids) s s' →
  (nlive bs ks ≠ 0 → nfull bs ks ∈ default [] keep) → holds bs N sid ks vs s'.
Proof.
  intros Hh Hsd Hm Hkeep. pose proof (ho_inv _ _ _ _ _ _ Hh) as Hinv.
  apply (holds_frame sid ks vs s); [done|apply Hm| |apply Hsd|apply Hm| |].
  - eapply ready_steady; [done|apply Hh|done].
  - intros Hl. destruct (ho_live _ _ _ _ _ _ Hh Hl) as [_ Hr Hb].
    assert (is_resident sid (nfull bs ks) s' = true) as Hr' by (eapply moved_keep; eauto). split; [done|].
    eapply (moved_backing sid _ s s' (sid, nfull bs ks)); try done. apply (cs_blocks _ _ _ _ (sd_cpu _ _ _ _ Hsd)).
  - intros Hw b Hb. destruct (ho_mirror _ _ _ _ _ _ Hh Hw b Hb) as [c Hc]. exists c. by apply (mv_host _ _ _ _ Hm Hw).
Qed.

(** ** The call of [ensure_resident] *)
Definition selected ks (top_k : Z) ids : Prop :=
  NoDup ids ∧ Z.of_nat (length ids) = Z.min top_k (nfull bs ks) ∧ ∀ b, b ∈ ids → 0 ≤ b < nfull bs ks.

Definition keep_of ks : option (list Z) := if bool_decide (nlive bs ks ≠ 0) then Some [nfull bs ks] else None.

Lemma remove_dups_length {A} `{EqDecision A} (l : list A) : (length (remove_dups l) ≤ length l)%nat.
Proof. induction l as [|x l IH]; simpl; [done|]. case_decide; simpl; lia. Qed.

Lemma decode_ensure_pre sid ks vs s top_k ids :
  holds bs N sid ks vs s → selected ks top_k ids → nblocks bs ks ≤ N → resident_map s ≠ [] →
  top_k + 1 ≤ LRUSlotMap.capacity (slot_map s) → ensure_pre sid (step_keys sid (keep_of ks) ids) ids s.
Proof.
  intros Hh (Hnd & Hlen & Hids) HN' Hres Hcap. split.
  - apply Hh.
  - apply (rd_order _ _ _ _ (ho_ready _ _ _ _ _ _ Hh)).
  - intros b Hb. rewrite (ho_full _ _ _ _ _ _ Hh) by auto. done.
  - etrans; [apply inj_le, remove_dups_length|]. unfold step_keys. rewrite length_fmap, length_app.
    unfold keep_of. case_bool_decide; simpl; lia.
  - destruct (write_through s) eqn:Hwt; [|by apply (write_back_room bs N Hbs sid ks vs)].
    intros k Hk HnP. destruct (holds_key bs N sid ks vs s k Hh) as [Hsid Hb]; [by left|].
    destruct k as [x b]. simpl in *. subst. apply (ho_mirror _ _ _ _ _ _ Hh); [done|].
    unfold nblocks in Hb. case_decide as E; [lia|]. destruct (decide (b = nfull bs ks)) as [->|]; [|lia].
    exfalso. apply HnP. unfold step_keys, keep_of. rewrite bool_decide_true by done. simpl. by left.
Qed.

(** ** The decode step *)
Context (selection_fn : qrow → list (T * T) → list Z → Z → Z → outcome (list Z)).
Context (flash_attn_with_kvcache : qrow → list block → list block → list Z → Z → orow).
Context (wait_event : QuestStreamPool.event → M TM unit).
(** A selection returns [top_k] distinct candidates. *)
Hypothesis selection_ok : ∀ q summary n groups top_k,
  0 ≤ top_k ≤ n → n ≤ Z.of_nat (length summary) →
  ∃ ids, selection_fn q summary (py_range n) groups top_k = Ret ids ∧ NoDup ids ∧ Z.of_nat (length ids) = top_k ∧
    ∀ b, b ∈ ids → 0 ≤ b < n.
(** The paged kernel attends the rows its block table and length describe. *)
Context (attend : qrow → list row → list row → orow).
Hypothesis flash_ok : ∀ q gk gv slots n,
  flash_attn_with_kvcache q gk gv slots n = attend q (gather gk slots n) (gather gv slots n).

Lemma arena_list_get s slot kb vb : arena s slot = Some (kb, vb) → list_get (gpu_k s) slot = Some kb ∧ list_get (gpu_v s) slot = Some vb.
Proof.
  unfold arena. destruct (list_get (gpu_k s) slot); [|done]. destruct (list_get (gpu_v s) slot); [|done].
  by intros [= <- <-].
Qed.

Lemma rows_length (l : list row) b : 0 ≤ b < nfull bs l → Z.of_nat (length (rows bs l b)) = bs.
Proof.
  intros Hb. pose proof (n_split bs Hbs l) as (Hl & Ho & Hf). unfold rows, slice. rewrite length_take, length_drop. nia.
Qed.

(** The rows behind the slots of a step *)
Lemma step_gather sid ks vs s ids slots live :
  holds bs N sid ks vs s → (∀ b, b ∈ ids → 0 ≤ b < nfull bs ks) →
  Forall2 (λ b slot, od_get (sid, b) (resident_map s) = Some slot) ids slots →
  (if bool_decide (nlive bs ks ≠ 0) then ∃ slot, live = [slot] ∧ od_get (sid, nfull bs ks) (resident_map s) = Some slot
   else live = []) →
  gather (gpu_k s) (slots ++ live) (Z.of_nat (length slots) * bs + nlive bs ks) = attended ks ids ∧
  gather (gpu_v s) (slots ++ live) (Z.of_nat (length slots) * bs + nlive bs ks) = attended vs ids.
Proof.
  intros Hh Hids HF Hlive. pose proof (n_split bs Hbs ks) as (Hl & Ho & Hf). pose proof (ho_len _ _ _ _ _ _ Hh) as Hlen.
  assert (nfull bs vs = nfull bs ks) as Ev by (unfold nfull; by rewrite Hlen).
  assert (∀ b slot, b ∈ ids → od_get (sid, b) (resident_map s) = Some slot →
    list_get (gpu_k s) slot = Some (rows bs ks b) ∧ list_get (gpu_v s) slot = Some (rows bs vs b)) as Hrow.
  { intros b slot Hb Hslot. apply arena_list_get. rewrite <-(ho_full _ _ _ _ _ _ Hh b) by auto. unfold stored. by rewrite Hslot. }
  assert (∀ (plane : list block) (f : Z → block),
    (∀ b slot, b ∈ ids → od_get (sid, b) (resident_map s) = Some slot → list_get plane slot = Some (f b)) →
    (∀ b, 0 ≤ b < nfull bs ks → Z.of_nat (length (f b)) = bs) →
    Forall2 (λ b slot, list_get plane slot = Some (f b) ∧ Z.of_nat (length (f b)) = bs) ids slots) as HFr.
  { intros plane f Hp Hlf. eapply Forall2_impl_elem; [exact HF|]. intros b slot Hb Hslot. split; [by apply Hp|by apply Hlf, Hids]. }
  assert (∀ b, 0 ≤ b < nfull bs ks → Z.of_nat (length (rows bs vs b)) = bs) as Hlv by (intros b Hb; apply rows_length; by rewrite Ev).
  case_bool_decide as E.
  - destruct Hlive as (slot & -> & Hslot). destruct (lv_rows _ _ _ _ _ (ho_live _ _ _ _ _ _ Hh E)) as (kb & vb & Hst & Hk & Hv).
    unfold stored in Hst. rewrite Hslot in Hst.
    destruct (arena_shape_lookup bs s slot kb vb) as [Hkl Hvl]; [eapply ready_arena, Hh| |done|].
    { pose proof (LRUSlotMap.slot_in_range _ _ _ (ti_slots _ _ _ _ (ho_inv _ _ _ _ _ _ Hh)) Hslot). lia. }
    apply arena_list_get in Hst as [Hgk Hgv]. unfold attended. rewrite Ev, <-Hk, <-Hv. split.
    + apply (gather_slots (gpu_k s) (rows bs ks) ids slots (Some (slot, kb))); [|split; [done|lia]].
      apply HFr; [intros; by eapply Hrow|intros; by apply rows_length].
    + apply (gather_slots (gpu_v s) (rows bs vs) ids slots (Some (slot, vb))); [|split; [done|lia]].
      apply HFr; [intros; by eapply Hrow|done].
  - subst live. assert (nlive bs ks = 0) as -> by (destruct (decide (nlive bs ks = 0)); [done|by destruct E]).
    unfold attended. rewrite Ev, !(drop_ge _ (Z.to_nat _)) by lia. split.
    + apply (gather_slots (gpu_k s) (rows bs ks) ids slots None 0); [|done].
      apply HFr; [intros; by eapply Hrow|intros; by apply rows_length].
    + apply (gather_slots (gpu_v s) (rows bs vs) ids slots None 0); [|done].
      apply HFr; [intros; by eapply Hrow|done].
Qed.

Lemma holds_log sid ks vs s st log :
  holds bs N sid ks vs s → holds bs N sid ks vs (with_stats st (with_selected_log log s)).
Proof.
  intros Hh. apply (holds_frame sid ks vs s); try done.
  - destruct (ho_inv _ _ _ _ _ _ Hh). by split.
  - destruct (ho_ready _ _ _ _ _ _ Hh) as [Hsd]. split; try done. destruct Hsd. by split.
  - intros Hl. by destruct (ho_live _ _ _ _ _ _ Hh Hl).
  - apply Hh.
Qed.

Lemma arena_size sid s : ready bs N sid s → tm_inv sid None [] s → arena_block_size s = bs.
Proof.
  intros Hrd Hinv. unfold arena_block_size. pose proof (ti_gpu_k _ _ _ _ Hinv) as Hl. pose proof (rd_cap _ _ _ _ Hrd).
  pose proof (sd_k _ _ _ _ (rd_steady _ _ _ _ Hrd)) as HF. destruct (gpu_k s) as [|b l]; [simpl in Hl; lia|].
  by apply Forall_cons in HF as [? _].
Qed.

Lemma summary_row sid s :
  ready bs N sid s → ∃ r, list_get (BlockSummaryStore.summary (summary_store s)) (layer_idx (cfg s)) = Some r ∧
    N ≤ Z.of_nat (length r).
Proof.
  intros Hrd. destruct (sd_sum _ _ _ _ (rd_steady _ _ _ _ Hrd)) as [Hwf].
  destruct (grid_row _ _ _ (lidx s) Hwf) as (r & Hr & Hlen); [destruct Hrd; lia|].
  exists r. rewrite list_get_lookup by apply Hrd. split; [done|]. pose proof (rd_sum _ _ _ _ Hrd). lia.
Qed.

(** The program after the selection *)
Lemma wp_step_tail sid ks vs s q top_k ids :
  holds bs N sid ks vs s → nblocks bs ks ≤ N → selected ks top_k ids → ids ≠ [] → resident_map s ≠ [] →
  top_k + 1 ≤ LRUSlotMap.capacity (slot_map s) →
  wp (ev <- ensure_resident sid ids (keep_of ks) ;;
      (match ev with None => ret tt | Some e => wait_event e end) ;;
      slots <- for_collect ids (logical_to_slot sid) ;;
      live <- (if bool_decide (nlive bs ks ≠ 0) then slot <- logical_to_slot sid (nfull bs ks) ;; ret [slot] else ret []) ;;
      s <- get ;;
      ret (ids, flash_attn_with_kvcache q (gpu_k s) (gpu_v s) (slots ++ live) (Z.of_nat (length slots) * bs + nlive bs ks)))
    s (λ r s', holds bs N sid ks vs s' ∧ resident_map s' ≠ [] ∧
      r = (ids, attend q (attended ks ids) (attended vs ids))).
Proof.
  intros Hh HN' Hsel Hne Hres Hcap. pose proof (ho_ready _ _ _ _ _ _ Hh) as Hrd. destruct Hsel as (Hnd & Hlen & Hids).
  wp_step. eapply wp_mono.
  { apply wp_keeps_to; [apply wp_ensure_resident|apply (stays_ensure bs {[sid]} s), Hrd|apply Hrd].
    by apply (decode_ensure_pre sid ks vs s top_k). }
  intros ev s1 ((-> & Hm & Hr1) & Hsd & _).
  assert (holds bs N sid ks vs s1) as Hh1.
  { eapply holds_moved; try done. intros Hl. unfold keep_of. rewrite bool_decide_true by done. by left. }
  pose proof (LRUSlotMap.inv_keys _ (ti_slots _ _ _ _ (ho_inv _ _ _ _ _ _ Hh1))) as Hwf.
  assert (resident_map s1 ≠ []) as Hres1.
  { destruct ids as [|b ids]; [done|]. destruct (proj1 (is_resident_spec sid b s1)) as [slot Hslot]; [apply Hr1; by left|].
    intros E. by rewrite E in Hslot. }
  wp_step. wp_step. wp_step. apply (wp_slots sid s1); [done|apply relinked_refl|done|]. intros slots s2 Hrel2 HF.
  assert (∀ s3 live, relinked s1 s3 →
    (if bool_decide (nlive bs ks ≠ 0) then ∃ slot, live = [slot] ∧ od_get (sid, nfull bs ks) (resident_map s1) = Some slot
     else live = []) →
    wp (s <- get ;; ret (ids, flash_attn_with_kvcache q (gpu_k s) (gpu_v s) (slots ++ live)
                               (Z.of_nat (length slots) * bs + nlive bs ks))) s3
      (λ r s', holds bs N sid ks vs s' ∧ resident_map s' ≠ [] ∧ r = (ids, attend q (attended ks ids) (attended vs ids))))
    as Hend.
  { intros s3 live Hrel3 Hlive. wp_step. wp_step. wp_step. split; [by eapply holds_relinked|].
    destruct (step_gather sid ks vs s1 ids slots live Hh1 Hids HF Hlive) as [Hk Hv].
    destruct Hrel3 as (d & Hd & ->). split.
    - intros E. apply Hres1. change (resident_map _) with d in E. rewrite E in Hd. by apply Permutation_nil in Hd.
    - f_equal. rewrite flash_ok. simpl. by rewrite Hk, Hv. }
  wp_step. case_bool_decide as E; [|wp_step; by apply Hend].
  destruct (proj1 (is_resident_spec sid (nfull bs ks) s1)) as [slot Hslot].
  { apply (lv_resident _ _ _ _ _ (ho_live _ _ _ _ _ _ Hh1 E)). }
  wp_step. apply (wp_slot sid s2 _ slot); [by rewrite (relinked_get s1)|]. intros d Hd. wp_step. apply Hend.
  - destruct Hrel2 as (d2 & Hd2 & ->). exists d. split; [|by destruct s1 as [? ? ? ? ? ? ? ? []]]. by rewrite Hd.
  - by exists slot.
Qed.

Lemma stays_decode_step tr s0 nh nkv query top_k sid i sl :
  0 ≤ lidx s0 →
  keeps_to (steady bs tr s0) (λ _, True)
    (decode_step flash_attn_with_kvcache selection_fn wait_event nh nkv query top_k sid i sl).
Proof.
  intros HL. assert (∀ {A} (m : M TM A), keeps (steady bs tr s0) m → keeps_to (steady bs tr s0) (λ _, True) m) as Hk.
  { intros A m Hm s Hs. split; [by apply Hm|done]. }
  unfold decode_step. eapply keeps_to_bind; [apply keeps_to_get|]. intros s Hs.
  do 5 (eapply keeps_to_bind; [apply Hk; eauto with keeps|intros ? _]).
  eapply keeps_to_bind; [apply Hk; eauto with keeps|intros ids _].
  eapply keeps_to_bind; [apply stays_record|intros _ _].
  eapply keeps_to_bind; [apply keeps_to_get|]. intros s1 Hs1.
  do 2 (eapply keeps_to_bind; [apply stays_bump|intros _ _]).
  eapply keeps_to_bind; [by apply stays_ensure|intros ? ->].
  apply (keeps_to_bind _ (λ _, True)); [by apply keeps_to_ret|intros _ _].
  eapply keeps_to_bind; [apply keeps_to_for_collect; intros; apply stays_slot|intros slots _].
  apply (keeps_to_bind _ (λ _, True)); [|intros live _].
  - case_bool_decide; [|by apply keeps_to_ret]. eapply keeps_to_bind; [apply stays_slot|intros]. by apply keeps_to_ret.
  - eapply keeps_to_bind; [apply keeps_to_get|]. intros. by apply keeps_to_ret.
Qed.

Lemma wp_decode_step sid ks vs s nh nkv query q top_k i :
  holds bs N sid ks vs s → nblocks bs ks ≤ N → 1 ≤ nfull bs ks → 1 ≤ top_k → 0 < nkv → resident_map s ≠ [] →
  top_k + 1 ≤ LRUSlotMap.capacity (slot_map s) → list_get query i = Some q →
  wp (decode_step flash_attn_with_kvcache selection_fn wait_event nh nkv query top_k sid i (Z.of_nat (length ks))) s
    (λ r s', holds bs N sid ks vs s' ∧ steady bs {[sid]} s s' ∧ resident_map s' ≠ [] ∧
      ∃ ids, selected ks top_k ids ∧ r = (ids, attend q (attended ks ids) (attended vs ids))).
Proof.
  intros Hh HN' Hf Hk Hkv Hres Hcap Hq. pose proof (ho_ready _ _ _ _ _ _ Hh) as Hrd.
  pose proof (ho_inv _ _ _ _ _ _ Hh) as Hinv.
  assert (nfull bs ks ≤ N) as HfN by (unfold nblocks in HN'; case_decide; lia).
  eapply wp_mono.
  { apply wp_keeps_to; [|apply (stays_decode_step {[sid]} s); apply Hrd|apply Hrd].
    instantiate (1 := λ r s', holds bs N sid ks vs s' ∧ resident_map s' ≠ [] ∧
      ∃ ids, selected ks top_k ids ∧ r = (ids, attend q (attended ks ids) (attended vs ids))).
    unfold decode_step. wp_step. wp_step. rewrite (arena_size sid) by done.
    destruct (summary_row sid s Hrd) as (r & Hr & Hrlen).
    destruct (selection_ok q r (nfull bs ks) (nh / nkv) (Z.min top_k (nfull bs ks))) as (ids & Hsel & Hnd & Hlen & Hids); [lia..|].
    assert (∀ {A} (m : M TM A) a (k : A → M TM (list Z * orow)) Q, m s = (Ret a, s) → wp (k a) s Q → wp (bind m k) s Q) as Hstep.
    { intros A m a k Q Hm Hw. unfold wp. rewrite (run_bind m k s a s Hm). exact Hw. }
    eapply Hstep; [by apply floordiv_run|]. eapply Hstep; [by apply pymod_run|].
    eapply Hstep; [by rewrite Hq|]. eapply Hstep; [by rewrite Hr|]. eapply Hstep; [by apply floordiv_run|].
    fold (nfull bs ks). fold (nlive bs ks). eapply Hstep; [by rewrite Hsel|].
    assert (wp (record_selected (select_calls (stats s) - 1) sid ids) s (λ _ s', ∃ log, s' = with_selected_log log s)) as Hrec.
    { unfold record_selected. wp_step. wp_step. destruct (negb _); wp_step; [|by eexists].
      exists (selected_log s). by destruct s. }
    wp_step. eapply wp_mono; [exact Hrec|]. intros [] s1 [log ->]. unfold bump. do 6 wp_step. 
    eapply wp_mono; [apply (wp_step_tail sid ks vs _ q top_k ids)|].
    - by apply holds_log.
    - done.
    - by split_and!.
    - intros ->. simpl in Hlen. lia.
    - done.
    - done.
    - intros r' s' (Hh' & Hres' & ->). split_and!; [done..|]. exists ids. by split_and!. }
  intros r s' ((Hh' & Hres' & Hids) & Hsd & _). by split_and!.
Qed.
End attended.
