(* ===== verification/QuestLayers.v ===== *)
(** * Quest backend: the layers of a model

    Every Quest layer has a tier manager of its own over the shared stores. A layer is
    fresh or holds the rows of one sequence; a call of one layer's manager leaves every
    other layer as it was. *)

From stdpp Require Import functions.
From S2P Require Import Prelude OrderedDict QuestStore QuestTier QuestTierInv QuestTierProps QuestTierWrite QuestTierSteady QuestTierPrefill QuestSeq QuestConfig QuestDecode.

Open Scope Z_scope.
Import TierManager.

Section layers.
Context {row T : Type}.
Notation block := (list row).
Notation TM := (TierManager.t row T).
Notation R := (runtime row T).
Context (bs N : Z) (Hbs : 0 < bs).
Implicit Types (s : TM) (r : R) (idx sid : Z) (st : stores row T).

(** ** One call *)
Lemma attach_stores s : attach (stores_of s) s = s.
Proof. by destruct s. Qed.
Lemma attach_attach st st' s : attach st' (attach st s) = attach st' s.
Proof. done. Qed.
Lemma stores_attach st s : stores_of (attach st s) = st.
Proof. by destruct st. Qed.

Lemma wp_on_tm {A} idx (m : M TM A) r s (Q : A → R → Prop) :
  tms r !! idx = Some s →
  wp m (attach (shared r) s) (λ a s', Q a (with_tms (<[idx := s']> (tms r)) (stores_of s') r)) →
  wp (on_tm idx m) r Q.
Proof.
  intros Hs Hw. unfold wp, on_tm in *. rewrite Hs. by destruct (m (attach (shared r) s)) as [[a|e] s'].
Qed.

(** ** Other layers *)

(** The stores changed in the rows of layer [L] only. *)
Record changed (L : Z) st st' : Prop := {
  ch_res : res_steady L (st_residency st) (st_residency st');
  ch_cpu : cpu_steady bs L (st_cpu st) (st_cpu st');
  ch_sum : sum_steady L (st_summary st) (st_summary st');
  ch_pool : st_pool st' = None
}.

Lemma steady_changed tr st s s' : steady bs tr (attach st s) s' → changed (lidx s) st (stores_of s').
Proof. intros []. by split. Qed.

Lemma tm_inv_changed sid L st st' s :
  tm_inv sid None [] (attach st s) → changed L st st' → lidx s ≠ L → tm_inv sid None [] (attach st' s).
Proof.
  intros Hinv [Hres Hcpu Hsum Hpool] Hne. pose proof (ti_cpu_layer _ _ _ _ Hinv) as Hl. change (lidx (attach st s)) with (lidx s) in Hl.
  destruct Hres as [Hrw Hrl Hrb Hrr], Hcpu as [Hcw Hcl Hcb _ _ Hcf Hcc].
  assert (∀ c, cpu_content (attach st' s) c = cpu_content (attach st s) c) as Hcont by (intros c; apply Hcc; [apply Hl|done]).
  destruct Hinv as [? ? ? ? ? ? ? ? ? ? Hslots Hkeys Hr Hboth]. split; try done.
  - simpl. rewrite Hcl. done.
  - destruct Hslots as (fr & Hfr & Hacc). exists fr. split; [|by simpl in *; rewrite Hcb].
    etrans; [|exact Hfr]. apply Hcf; [apply Hl|done].
  - intros k Hk. destruct (Hkeys k Hk) as [? [Hb1 Hb2]]. split; [done|]. simpl in Hb1, Hb2.
    split; simpl; by rewrite ?Hrl, ?Hrb.
  - intros b [Hb1 Hb2] Hh. simpl in Hb1, Hb2. rewrite Hrl in Hb1. rewrite Hrb in Hb2.
    etrans; [|apply (Hr b); [by split|done]]. apply Hrr; [apply Hl|done].
  - intros k slot c Hh Hk Hc. destruct (Hboth k slot c Hh Hk Hc) as [? Ha]. split; [done|]. by rewrite Hcont, <-Ha.
Qed.

Lemma stored_changed sid L st st' s k :
  tm_inv sid None [] (attach st s) → changed L st st' → lidx s ≠ L →
  stored (attach st' s) k = stored (attach st s) k.
Proof.
  intros Hinv [_ [_ _ _ _ _ _ Hco] _ _] Hne. pose proof (ti_cpu_layer _ _ _ _ Hinv) as Hl. unfold stored.
  change (resident_map (attach st' s)) with (resident_map (attach st s)).
  change (backing (attach st' s)) with (backing (attach st s)).
  destruct (od_get k _); [done|]. destruct (od_get k _); [|done]. simpl. apply Hco; [apply Hl|done].
Qed.

Lemma ready_changed sid L st st' s :
  ready bs N sid (attach st s) → changed L st st' → ready bs N sid (attach st' s).
Proof.
  intros [Hsd] [Hres Hcpu Hsum Hpool]. destruct Hres as [? Hrl Hrb ?], Hcpu as [? Hcl Hcb ? ? ? ?], Hsum as [? Hsl Hsb Hss ?].
  split; simpl in *; rewrite ?Hrl, ?Hrb, ?Hcl, ?Hcb, ?Hsl, ?Hsb, ?Hss; try done.
  destruct Hsd as [? ? ? ? ? ? ? ? ? [] [] []]. split; try done; simpl; by split.
Qed.

(** ** The state of a layer *)

(** The sequence a layer holds, with its key and value rows *)
Definition content : Type := option (Z * list row * list row).

Record idle s : Prop := {
  id_inv : ∀ sid, tm_inv sid None [] s;
  id_ready : ∀ sid, ready bs N sid s;
  id_released : released s;
  id_trimmed : trimmed s = ∅;
  id_active : active_seqs s = None
}.

Definition layer_state (c : content) s : Prop :=
  match c with
  | None => idle s
  | Some (sid, ks, vs) => holds bs N sid ks vs s ∧ resident_map s ≠ [] ∧ active_seqs s = Some {[sid]}
  end.

Lemma layer_state_changed c L st st' s :
  layer_state c (attach st s) → changed L st st' → lidx s ≠ L → layer_state c (attach st' s).
Proof.
  intros Hs Hch Hne. destruct c as [[[sid ks] vs]|].
  - destruct Hs as (Hh & Hres & Hact). split_and!; [|done|done].
    pose proof (ho_inv _ _ _ _ _ _ Hh) as Hinv.
    assert (∀ k, stored (attach st' s) k = stored (attach st s) k) as Hst by (intros k; by eapply stored_changed).
    destruct Hh as [_ Hrd Hlen Hfull Hlive Hnone Hmir]. split; try done.
    + by eapply tm_inv_changed.
    + by eapply ready_changed.
    + intros b Hb. rewrite Hst. by apply Hfull.
    + intros Hl. destruct (Hlive Hl) as [Hr ? ?]. split; [by rewrite Hst|done|done].
    + intros b Hb. rewrite Hst. by apply Hnone.
  - destruct Hs as [Hinv Hrd Hrel Htr Hact]. split; try done.
    + intros sid. by eapply tm_inv_changed.
    + intros sid. by eapply ready_changed.
    + destruct Hrel as (? & ? & ? & ? & Hfree). split_and!; try done. destruct Hch as [_ [? ? Hcb ? ? Hcf ?] _ _].
      change (cpu_store (attach st' s)) with (st_cpu st'). rewrite Hcb. etrans; [|exact Hfree]. f_equal. unfold cpu_free_count.
      change (CpuKvBackingStore.free_of (cpu_store (attach st' s)) (lidx (attach st' s)))
        with (CpuKvBackingStore.free_of (st_cpu st') (lidx s)).
      rewrite Hcf; [done| |done]. by destruct (Hrd 0).
Qed.

(** ** All layers *)
Definition capacity_of s : Z := LRUSlotMap.capacity (slot_map s).
Context (layers : list attn_layer) (qc : QuestConfig).

Record serving (cur : Z → content) r : Prop := {
  sv_config : quest_config_ref r = qc;
  sv_kvshare : footprint_kvshare qc = true;
  sv_pool : st_pool (shared r) = None;
  sv_layer : ∀ L, L ∈ layers → ∃ s, tms r !! l_idx L = Some s ∧ layer_state (cur (l_idx L)) (attach (shared r) s);
  sv_slots : ∀ L L' s s', L ∈ layers → L' ∈ layers → tms r !! l_idx L = Some s → tms r !! l_idx L' = Some s' →
    lidx s = lidx s' → l_idx L = l_idx L';
  sv_cap : ∀ L s, L ∈ layers → tms r !! l_idx L = Some s → capacity_of s = gpu_cache_blocks_per_seq qc
}.

(** Layer [L] moved to the content [c]; the others are as they were. *)
Definition upd idx s r : R := with_tms (<[idx := s]> (tms r)) (stores_of s) r.

Lemma serving_upd cur r L s s' c :
  serving cur r → L ∈ layers → tms r !! l_idx L = Some s → layer_state c s' →
  changed (lidx s) (shared r) (stores_of s') → lidx s' = lidx s → capacity_of s' = capacity_of s →
  serving (<[l_idx L := c]> cur) (upd (l_idx L) s' r).
Proof.
  intros Hsv HL Hs Hls Hch Hl Hcap. split; simpl.
  - apply Hsv.
  - apply Hsv.
  - apply Hch.
  - intros L' HL'. destruct (decide (l_idx L' = l_idx L)) as [E|E].
    + exists s'. rewrite E, lookup_insert_eq, fn_lookup_insert. split; [done|]. by rewrite attach_stores.
    + destruct (sv_layer _ _ Hsv L' HL') as (s2 & Hs2 & Hls2). exists s2.
      rewrite lookup_insert_ne, fn_lookup_insert_ne by done. split; [done|].
      apply (layer_state_changed _ (lidx s) (shared r)); [done|exact Hch|]. intros El. apply E.
      by eapply (sv_slots _ _ Hsv L' L).
  - intros L1 L2 s1 s2 H1 H2 E1 E2 Hl12.
    assert (∀ L0 s0, L0 ∈ layers → <[l_idx L := s']> (tms r) !! l_idx L0 = Some s0 →
      ∃ s0', tms r !! l_idx L0 = Some s0' ∧ lidx s0' = lidx s0) as Hback.
    { intros L0 s0 H0 E0. destruct (decide (l_idx L0 = l_idx L)) as [E|E].
      - rewrite E, lookup_insert_eq in E0. simplify_eq. exists s. by rewrite E.
      - rewrite lookup_insert_ne in E0 by done. by exists s0. }
    destruct (Hback L1 s1) as (s1' & ? & ?); [done..|]. destruct (Hback L2 s2) as (s2' & ? & ?); [done..|].
    eapply (sv_slots _ _ Hsv L1 L2); try done. congruence.
  - intros L' s2 HL' Hs2. destruct (decide (l_idx L' = l_idx L)) as [E|E].
    + rewrite E, lookup_insert_eq in Hs2. simplify_eq. rewrite Hcap. by apply (sv_cap _ _ Hsv L).
    + rewrite lookup_insert_ne in Hs2 by done. by apply (sv_cap _ _ Hsv L').
Qed.

Lemma upd_tms idx s r : tms (upd idx s r) !! idx = Some s.
Proof. simpl. by rewrite lookup_insert_eq. Qed.
Lemma upd_attach idx s r : attach (shared (upd idx s r)) s = s.
Proof. apply attach_stores. Qed.
Lemma upd_upd idx s s' r : upd idx s' (upd idx s r) = upd idx s' r.
Proof. unfold upd, with_tms. simpl. by rewrite insert_insert_eq. Qed.

Lemma wp_upd {A} idx (m : M TM A) s r (Q : A → R → Prop) :
  wp m s (λ a s', Q a (upd idx s' r)) → wp (on_tm idx m) (upd idx s r) Q.
Proof.
  intros Hw. apply (wp_on_tm _ _ _ s); [apply upd_tms|]. rewrite upd_attach. eapply wp_mono; [exact Hw|].
  intros a s' HQ. fold (upd idx s' (upd idx s r)). by rewrite upd_upd.
Qed.

(** Every call starts from the layer's manager on the shared stores. *)
Lemma upd_start idx s r : tms r !! idx = Some s → shared r = stores_of (attach (shared r) s) ∧
  (∀ {A} (m : M TM A) (Q : A → R → Prop), wp m (attach (shared r) s) (λ a s', Q a (upd idx s' r)) → wp (on_tm idx m) r Q).
Proof. intros Hs. split; [by rewrite stores_attach|]. intros A m Q Hw. by apply (wp_on_tm _ _ _ s). Qed.

Lemma changed_refl sid s : ready bs N sid s → changed (lidx s) (stores_of s) (stores_of s).
Proof. intros [[]]. by split. Qed.
Lemma changed_trans L st1 st2 st3 : changed L st1 st2 → changed L st2 st3 → changed L st1 st3.
Proof.
  intros [[? E1 E2 H1] [? E3 E4 ? ? H2 H3] [? E5 E6 E7 H4] ?] [[? F1 F2 G1] [? F3 F4 ? ? G2 G3] [? F5 F6 F7 G4] ?].
  split; try done; split; try done; try congruence; intros.
  - by rewrite G1, H1.
  - by rewrite G2, H2.
  - by rewrite G3, H3.
  - by rewrite G4, H4.
Qed.
End layers.
