(* ===== verification/QuestGenerate.v ===== *)
(** * Quest backend: the forward pass of a layer

    With one request in the batch, KV sharing on and synchronous transfers, the forward
    pass of a Quest layer over a prompt writes the aliased scratch tensor, attends it
    densely and moves the prompt into the two tiers; the forward pass over the next token
    returns the attention over the rows of the selected blocks and of the partial block,
    as computed from the history of the sequence. Either leaves the other layers alone. *)

From stdpp Require Import functions.
From S2P Require Import Prelude OrderedDict QuestStore QuestTier QuestTierInv QuestTierProps QuestTierWrite QuestTierSteady QuestTierPrefill QuestSeq QuestConfig QuestDecode QuestSeqDecode QuestLayers.

Open Scope Z_scope.
Import TierManager.

Section generate.
Context {row T qrow orow : Type} (ops : tensor_ops row T).
Notation block := (list row).
Notation TM := (TierManager.t row T).
Notation R := (runtime row T).
Context (bs N : Z) (Hbs : 0 < bs).
Implicit Types (s : TM) (r : R) (idx sid : Z) (L : attn_layer) (ks vs key value : list row) (md : metadata).

(** ** A batch of one request *)
Lemma batch_single md sid n :
  request_ids md = [sid] → seq_lens md = [n] →
  batch_seqs md = {[sid]} ∧ _seq_id_for md 0 = sid ∧ enumerate (seq_lens md) = [(0, n)].
Proof.
  intros Hr Hs. unfold batch_seqs, _seq_id_for, enumerate. rewrite Hr, Hs. split_and!; [|done|done].
  simpl. set_solver.
Qed.

Lemma wp_tier_manager idx r s (Q : option TM → R → Prop) :
  tms r !! idx = Some s → Q (Some (attach (shared r) s)) r → wp (tier_manager idx) r Q.
Proof. intros Hs HQ. unfold tier_manager. wp_step. by rewrite Hs. Qed.

(** ** Requests that left *)
Record cleared sid s : Prop := {
  cl_inv : tm_inv sid None [] s;
  cl_ready : ready bs N sid s;
  cl_resident : resident_map s = [];
  cl_backing : backing s = [];
  cl_trimmed : trimmed s = ∅;
  cl_active : active_seqs s = Some {[sid]}
}.

Lemma released_cleared sid s :
  tm_inv sid None [] s → ready bs N sid s → released s → trimmed s = ∅ →
  cleared sid (with_active_seqs (Some {[sid]}) s).
Proof.
  intros Hinv Hrd (Hr & Hc & Hh & _) Ht. split; try done.
  - destruct Hinv. by split.
  - destruct Hrd as [Hsd]. split; try done. destruct Hsd. by split.
  - unfold backing. simpl. rewrite Hc, Hh. by destruct (write_through _).
Qed.

Lemma ready_other sid sid' s : ready bs N sid s → trimmed s = ∅ → ready bs N sid' s.
Proof.
  intros [Hsd] Ht. split; try done. destruct Hsd. split; try done. rewrite Ht. set_solver.
Qed.

(** The previous sequence, if any, is released. *)
Lemma wp_collect_new idx r s c sid md (Q : unit → R → Prop) :
  tms r !! idx = Some s → layer_state bs N c (attach (shared r) s) → batch_seqs md = {[sid]} →
  (∀ old ks vs, c = Some (old, ks, vs) → old ≠ sid) →
  (∀ s', cleared sid s' → changed bs (lidx s) (shared r) (stores_of s') → lidx s' = lidx s → capacity_of s' = capacity_of s →
     Q tt (upd idx s' r)) →
  wp (collect_finished idx md) r Q.
Proof.
  intros Hs Hls Hb Hne HQ. unfold collect_finished. wp_step. apply (wp_tier_manager _ _ _ _ Hs). rewrite Hb.
  set (s0 := attach (shared r) s) in *. destruct (upd_start idx s r Hs) as [Hsh Hcall]. fold s0 in Hsh, Hcall.
  change (lidx s) with (lidx s0) in *.
  destruct c as [[[old ks] vs]|].
  - destruct Hls as (Hh & Hres & Hact). rewrite (Hact : Some s0 ≫= active_seqs = _). wp_step.
    assert (old ≠ sid) as Hns by by eapply Hne.
    assert (({[old]} : gset Z) ∖ {[sid]} = {[old]}) as -> by set_solver. rewrite elements_singleton. simpl.
    pose proof (ho_ready _ _ _ _ _ _ Hh) as Hrd.
    wp_step. apply Hcall. eapply wp_mono.
    { apply wp_keeps_to; [apply wp_free_request, Hh|apply (stays_free_request bs {[old]} s0), Hrd|apply Hrd]. }
    intros [] s1 ((Hrel & Htr & _ & _ & Hinv1) & Hsd & _). wp_step.
    pose proof (ready_steady _ _ Hbs _ _ _ Hrd Hsd) as Hrd1.
    assert (trimmed s1 = ∅) as Ht1. { pose proof (sd_trimmed _ _ _ _ (rd_steady _ _ _ _ Hrd)). rewrite Htr. set_solver. }
    apply wp_upd. wp_step. apply HQ.
    + apply released_cleared; [done|by eapply ready_other|done|done].
    + rewrite Hsh. destruct Hsd. by split.
    + apply (steady_layer _ _ _ _ Hsd).
    + apply (sd_cap _ _ _ _ Hsd).
  - destruct Hls as [Hinv Hrd Hrel Ht Hact]. rewrite (Hact : Some s0 ≫= active_seqs = _). wp_step. wp_step. apply Hcall. wp_step. apply HQ.
    + by apply released_cleared.
    + rewrite Hsh. exact (changed_refl bs N sid s0 (Hrd sid)).
    + done.
    + done.
Qed.

(** The sequence of the batch stays. *)
Lemma wp_collect_same idx r s sid ks vs md (Q : unit → R → Prop) :
  tms r !! idx = Some s → layer_state bs N (Some (sid, ks, vs)) (attach (shared r) s) → batch_seqs md = {[sid]} →
  Q tt (upd idx (attach (shared r) s) r) → wp (collect_finished idx md) r Q.
Proof.
  intros Hs (Hh & Hres & Hact) Hb HQ. unfold collect_finished. wp_step. apply (wp_tier_manager _ _ _ _ Hs). rewrite Hb.
  destruct (upd_start idx s r Hs) as [Hsh Hcall]. set (s0 := attach (shared r) s) in *.
  rewrite (Hact : Some s0 ≫= active_seqs = _). wp_step. assert (({[sid]} : gset Z) ∖ {[sid]} = ∅) as -> by set_solver. rewrite elements_empty.
  cbn [for_each]. wp_step. apply Hcall. wp_step. assert (with_active_seqs (Some {[sid]}) s0 = s0) as ->; [|done].
  rewrite <-Hact. by destruct s0.
Qed.

(** ** The scratch tensor *)
Context (layers : list attn_layer) (qc : QuestConfig) (ptr size : Z).

Definition planes (ebs : Z) (c : list block * list block) : Prop :=
  length c.2 = length c.1 ∧ Z.of_nat (length c.1) * ebs = size ∧
  Forall (λ b : block, Z.of_nat (length b) = ebs) c.1 ∧ Forall (λ b : block, Z.of_nat (length b) = ebs) c.2.
Definition sized (c : list block * list block) : Prop := ∃ ebs, 0 < ebs ∧ planes ebs c.

(** The tensor has [size] slots and the layer that wrote it last is done with it. *)
Definition scratch_ok r : Prop :=
  (∃ c, engine r !! ptr = Some c ∧ sized c) ∧
  match scratch_owner r !! ptr with None => True | Some (_, offload_done) => offload_done = true end.

(** The row of a slot, and a tensor that holds the rows of a prompt at their slots *)
Definition row_at (ebs : Z) (plane : list block) (slot : Z) : option row :=
  b ← plane !! Z.to_nat (slot / ebs); b !! Z.to_nat (slot `mod` ebs).
Definition tensor_block (c : list block * list block) : Z :=
  match c.1 with [] => 0 | b :: _ => Z.of_nat (length b) end.
Definition cached_at (c : list block * list block) (x : Z * (row * row)) : Prop :=
  let '(slot, (k, v)) := x in
  0 ≤ slot → row_at (tensor_block c) c.1 slot = Some k ∧ row_at (tensor_block c) c.2 slot = Some v.
Definition cached (slots : list Z) key value c : Prop := Forall (cached_at c) (zip slots (zip key value)).

Lemma sized_block c ebs : 0 < size → planes ebs c → tensor_block c = ebs.
Proof.
  intros Hpos (_ & Hsz & HF & _). unfold tensor_block. destruct c.1 as [|b l]; [simpl in Hsz; lia|].
  by apply Forall_cons in HF as [? _].
Qed.

Lemma set_row_ok (plane : list block) ebs slot (x : row) :
  0 < ebs → Forall (λ b : block, Z.of_nat (length b) = ebs) plane → 0 ≤ slot < Z.of_nat (length plane) * ebs →
  ∃ plane', set_row slot ebs x plane = Some plane' ∧ length plane' = length plane ∧
    Forall (λ b : block, Z.of_nat (length b) = ebs) plane' ∧ row_at ebs plane' slot = Some x ∧
    ∀ slot', 0 ≤ slot' → slot' ≠ slot → row_at ebs plane' slot' = row_at ebs plane slot'.
Proof.
  intros He HF Hs. assert (0 ≤ slot / ebs < Z.of_nat (length plane)) as Hd.
  { split; [apply Z.div_pos; lia|]. apply Z.div_lt_upper_bound; lia. }
  pose proof (Z.mod_pos_bound slot ebs He) as Hm. unfold set_row.
  destruct (lookup_lt_is_Some_2 plane (Z.to_nat (slot / ebs))) as [b Hb]; [lia|]. rewrite Hb. simpl.
  pose proof (Forall_lookup_1 _ _ _ _ HF Hb) as Hlen. simpl in Hlen.
  rewrite list_set_inb by lia. simpl. rewrite list_set_inb by lia. eexists. split; [done|].
  rewrite length_insert. split; [done|]. split; [apply Forall_insert; [done|]; by rewrite length_insert|].
  unfold row_at. split; [by rewrite list_lookup_insert_eq by lia; simpl; rewrite list_lookup_insert_eq by lia|].
  intros slot' Hs' Hne. pose proof (Z.mod_pos_bound slot' ebs He). pose proof (Z.div_pos slot' ebs Hs' He).
  pose proof (Z.div_mod slot ebs). pose proof (Z.div_mod slot' ebs).
  destruct (decide (slot' / ebs = slot / ebs)) as [E|E]; [|by rewrite list_lookup_insert_ne by lia].
  rewrite E, list_lookup_insert_eq by lia. rewrite Hb. simpl.
  rewrite list_lookup_insert_ne; [done|]. rewrite E in *. lia.
Qed.

Lemma fst_zip_take {A B} (l : list A) (k : list B) : (zip l k).*1 = take (length k) l.
Proof. revert k. induction l as [|x l IH]; intros [|y k]; try done. simpl. by rewrite IH. Qed.

Lemma cache_token_ok c ebs slot (k v : row) :
  0 < ebs → planes ebs c → slot < size →
  ∃ c', cache_token (tensor_block c) slot k v c = Some c' ∧ planes ebs c' ∧ cached_at c' (slot, (k, v)) ∧
    ∀ y, y.1 ≠ slot → cached_at c y → cached_at c' y.
Proof.
  intros Hebs Hpl Hslot. unfold cache_token. case_bool_decide as Hneg.
  { exists c. split_and!; try done. unfold cached_at. lia. }
  rewrite (sized_block c ebs) by (done || lia). destruct Hpl as (Hl & Hsz & HF1 & HF2) eqn:Epl.
  destruct (set_row_ok c.1 ebs slot k) as (p1 & -> & E1 & G1 & R1 & O1); [done|done|lia|]. simpl.
  destruct (set_row_ok c.2 ebs slot v) as (p2 & -> & E2 & G2 & R2 & O2); [done|done|rewrite Hl; lia|]. simpl.
  exists (p1, p2). assert (planes ebs (p1, p2)) as Hpl' by (split_and!; simpl; [congruence|by rewrite E1|done|done]).
  split; [done|]. split; [done|]. unfold cached_at. rewrite (sized_block (p1, p2) ebs) by (done || lia). split; [done|].
  intros [slot' [k' v']] Hne Hy Hs'. simpl in Hne. destruct (Hy Hs') as [Y1 Y2].
  rewrite (sized_block c ebs) in Y1, Y2 by (done || lia). simpl. by rewrite O1, O2.
Qed.

Lemma wp_cache_update key value (slots : list Z) r (Q : unit → R → Prop) :
  (∃ c, engine r !! ptr = Some c ∧ sized c) → Forall (λ x, x < size) slots → NoDup slots →
  (∀ e c, e !! ptr = Some c → sized c → cached slots key value c → Q tt (with_engine e r)) →
  wp (do_kv_cache_update key value ptr slots) r Q.
Proof.
  intros (c0 & Hc0 & Hsz0) Hslots Hnd HQ. unfold do_kv_cache_update.
  apply (wp_for_each _ _ _ (λ done r', ∃ e c, r' = with_engine e r ∧ e !! ptr = Some c ∧ sized c ∧ Forall (cached_at c) done)).
  - exists (engine r), c0. split; [by destruct r|]. by split_and!.
  - intros done [slot [k v]] todo r1 Hz (e & c & -> & He & (ebs & Hebs & Hpl) & Hdone).
    assert (slot < size) as Hslot.
    { rewrite Forall_forall in Hslots. apply Hslots. assert ((slot, (k, v)) ∈ zip slots (zip key value)) as Hin by (rewrite Hz; set_solver).
      by apply elem_of_zip_l in Hin. }
    unfold read_engine. do 2 wp_step. wp_step. eapply wp_of_option; [exact He|]. wp_step. fold (tensor_block c).
    destruct (cache_token_ok c ebs slot k v) as (c' & Hc' & Hpl' & Hnew & Hold); [done..|].
    eapply wp_of_option; [exact Hc'|]. wp_step. exists (<[ptr := c']> e), c'. split; [done|]. rewrite lookup_insert_eq.
    split_and!; [done|by exists ebs|]. apply Forall_app. split; [|by apply Forall_singleton].
    rewrite Forall_forall in Hdone |- *. intros y Hy. apply Hold; [|by apply Hdone].
    intros Ey. assert (NoDup ((zip slots (zip key value)).*1)) as Hndz.
    { rewrite fst_zip_take. eapply sublist_NoDup; [exact Hnd|]. apply sublist_take. }
    rewrite Hz, fmap_app in Hndz. apply NoDup_app in Hndz as (_ & Hdisj & _). apply (Hdisj y.1).
    + by apply list_elem_of_fmap_2.
    + rewrite Ey. simpl. by left.
  - intros r' (e & c & -> & He & Hsz & HF). by apply (HQ e c).
Qed.

(** The slots of a prompt *)
Definition slots_of md : list Z := py_slice (slot_mapping md) 0 (num_actual_tokens md).

Lemma list_max_lt (l : list Z) n : l ≠ [] → Forall (λ x, x < n) l → ∃ m, list_max l = Some m ∧ m < n.
Proof.
  destruct l as [|x l]; [done|]. intros _ [Hx Hl]%Forall_cons. exists (foldl Z.max x l). split; [done|].
  revert x Hx. induction Hl as [|y l Hy Hl IH]; intros x Hx; simpl; [done|]. apply IH. lia.
Qed.

Lemma wp_write_scratch L key value md r (Q : unit → R → Prop) :
  scratch_ok r → slots_of md ≠ [] → Forall (λ x, x < size) (slots_of md) → NoDup (slots_of md) →
  (∀ e o p c, e !! ptr = Some c → sized c → cached (slots_of md) key value c →
     o !! ptr = Some (l_idx L, false) → p !! l_idx L = Some ptr → Q tt (with_scratch o p (with_engine e r))) →
  wp (kvshare_write_scratch L key value ptr md) r Q.
Proof.
  intros [(c & Hc & ebs & Hebs & Hpl) Hown] Hne Hslots Hnd HQ. unfold kvshare_write_scratch, read_engine. do 2 wp_step. wp_step.
  eapply wp_of_option; [exact Hc|]. fold (slots_of md). fold (tensor_block c).
  destruct (list_max_lt _ size Hne Hslots) as (m & Hm & Hlt). wp_step. eapply wp_of_option; [exact Hm|]. wp_step.
  apply wp_assert.
  { apply bool_decide_eq_true. destruct Hpl as (_ & Hsz & HF & _). unfold tensor_block. destruct c.1 as [|b l]; [simpl in *; lia|].
    apply Forall_cons in HF as [Hb _]. simpl in Hb. rewrite Hb. lia. }
  do 3 wp_step. apply wp_assert; [by destruct (scratch_owner r !! ptr) as [[? ?]|]|]. do 2 wp_step. wp_step.
  apply wp_cache_update; [by exists c; split; [|exists ebs]|done|done|]. intros e c' He Hsz Hca. wp_step.
  apply (HQ e (<[ptr := (l_idx L, false)]> (scratch_owner r)) (<[l_idx L := ptr]> (scratch_ptr r)) c'); [done..| |];
    by rewrite lookup_insert_eq.
Qed.

(** ** The forward pass of a layer over a prompt *)
Context (HN : 0 ≤ N).
Context (fa_forward : list qrow → list row → list row → option (list block * list block) → option metadata → list orow).
Context (flash_attn_with_kvcache : qrow → list block → list block → list Z → Z → orow).
Context (selection_fn : qrow → list (T * T) → list Z → Z → Z → outcome (list Z)).
Context (wait_event : QuestStreamPool.event → M TM unit).
Notation forward := (forward ops fa_forward flash_attn_with_kvcache selection_fn wait_event).

Lemma serving_frame cur r r' :
  serving bs N layers qc cur r → quest_config_ref r' = quest_config_ref r → tms r' = tms r → shared r' = shared r →
  serving bs N layers qc cur r'.
Proof. intros [] E1 E2 E3. split; by rewrite ?E1, ?E2, ?E3. Qed.

Lemma layer_size c s : layer_state bs N c s → arena_block_size s = bs.
Proof.
  destruct c as [[[sid ks] vs]|].
  - intros [Hh _]. by apply (arena_size bs N Hbs sid); apply Hh.
  - intros []. by apply (arena_size bs N Hbs 0).
Qed.

(** The batch is the prompt, or the next token, of request [sid]. *)
Record single md sid (n q : Z) : Prop := {
  sg_ids : request_ids md = [sid];
  sg_lens : seq_lens md = [n];
  sg_query : max_query_len md = q;
  sg_start : query_start_loc md = [0; q]
}.

Lemma wp_prefill_offload cur r L key value md sid n (Q : unit → R → Prop) :
  serving bs N layers qc cur r → L ∈ layers → single md sid n n → 0 < n →
  Z.of_nat (length key) = n → Z.of_nat (length value) = n → nblocks bs key ≤ N →
  (∀ old ks vs, cur (l_idx L) = Some (old, ks, vs) → old ≠ sid) →
  (∀ s', serving bs N layers qc (<[l_idx L := Some (sid, key, value)]> cur) (upd (l_idx L) s' r) →
     wp (release_scratch (l_idx L)) (upd (l_idx L) s' r) Q) →
  wp (kvshare_prefill_offload ops L key value md) r Q.
Proof.
  intros Hsv HL [Hids Hlens Hq Hstart] Hn Hk Hv HnN Hne HQ.
  destruct (sv_layer _ _ _ _ _ _ Hsv L HL) as (s & Hs & Hls). destruct (batch_single md sid n Hids Hlens) as (Hb & Hsid & Hen).
  unfold kvshare_prefill_offload. wp_step. apply (wp_tier_manager _ _ _ _ Hs). rewrite (layer_size _ _ Hls).
  wp_step. eapply wp_collect_new; [done|done|done|done|]. intros s1 Hcl Hch Hl Hcap. rewrite Hen. cbn [for_each]. rewrite Hstart.
  wp_steps. rewrite Z.sub_0_r, bool_decide_false by lia. rewrite Hsid. wp_step. eapply run_wp; [by apply floordiv_run|].
  rewrite <-Hk. fold (nfull bs key). rewrite py_slice_full by lia. rewrite py_slice_full by lia.
  apply wp_upd. eapply wp_mono; [apply (wp_prefill ops bs N Hbs HN sid key value s1)|].
  - apply Hcl.
  - apply Hcl.
  - apply Hcl.
  - apply Hcl.
  - destruct Hcl as [_ _ _ _ -> _]. set_solver.
  - lia.
  - done.
  - intros ->. simpl in Hk. lia.
  - intros [] s2 (Hh & Hres & Hsd). wp_step. apply HQ.
    pose proof (steady_layer _ _ _ _ Hsd) as Hl2. eapply serving_upd; [exact Hsv|done|exact Hs| | | |].
    + split_and!; [done|done|]. rewrite (sd_active _ _ _ _ Hsd). apply Hcl.
    + eapply changed_trans; [exact Hch|]. rewrite <-Hl. apply (steady_changed bs {[sid]} (stores_of s1) s1). by rewrite attach_stores.
    + congruence.
    + rewrite <-Hcap. apply (sd_cap _ _ _ _ Hsd).
Qed.

(** The scratch tensor is done with, or held by layer [idx]. *)
Definition scratch_held idx r : Prop :=
  (∃ c, engine r !! ptr = Some c ∧ sized c) ∧
  match scratch_owner r !! ptr with
  | None => True
  | Some (_, offload_done) => offload_done = true ∨ scratch_ptr r !! idx = Some ptr
  end.
Lemma scratch_ok_held idx r : scratch_ok r → scratch_held idx r.
Proof. intros [He Ho]. split; [done|]. destruct (scratch_owner r !! ptr) as [[? ?]|]; [by left|done]. Qed.

Lemma wp_release idx r (Q : unit → R → Prop) :
  scratch_held idx r →
  (∀ o, scratch_ok (with_scratch o (scratch_ptr r) r) → Q tt (with_scratch o (scratch_ptr r) r)) →
  wp (release_scratch idx) r Q.
Proof.
  intros [He Ho] HQ. unfold release_scratch. wp_step.
  assert (r = with_scratch (scratch_owner r) (scratch_ptr r) r) as Er by by destruct r.
  destruct (scratch_ptr r !! idx) as [p|] eqn:Hp; [destruct (scratch_owner r !! p) as [[w d]|] eqn:Hw|].
  - apply HQ. split; [done|]. simpl. destruct (decide (p = ptr)) as [->|Hpp]; [by rewrite lookup_insert_eq|].
    rewrite lookup_insert_ne by done. destruct (scratch_owner r !! ptr) as [[w' d']|]; [|done].
    destruct Ho as [Ho|Ho]; [done|]. congruence.
  - rewrite Er at 1. apply HQ. split; [done|]. simpl. destruct (scratch_owner r !! ptr) as [[w' d']|] eqn:E; [|done].
    destruct Ho as [Ho|Ho]; congruence.
  - rewrite Er at 1. apply HQ. split; [done|]. simpl. destruct (scratch_owner r !! ptr) as [[w' d']|] eqn:E; [|done].
    destruct Ho as [Ho|Ho]; congruence.
Qed.

(** The branch the forward pass of a Quest layer takes *)
Lemma kvshare_layer cur r L : serving bs N layers qc cur r → L ∈ layers → _is_footprint_kvshare_layer L r = true.
Proof.
  intros Hsv HL. destruct (sv_layer _ _ _ _ _ _ Hsv L HL) as (s & Hs & _). unfold _is_footprint_kvshare_layer.
  by rewrite Hs, (sv_config _ _ _ _ _ _ Hsv), (sv_kvshare _ _ _ _ _ _ Hsv).
Qed.

Lemma wp_forward_prefill cur r L query key value md sid n (Q : list orow → R → Prop) :
  serving bs N layers qc cur r → scratch_ok r → L ∈ layers → single md sid n n → 1 < n → _is_full_kv_layer L md = Ret false →
  slots_of md ≠ [] → Forall (λ x, x < size) (slots_of md) → NoDup (slots_of md) →
  Z.of_nat (length key) = n → Z.of_nat (length value) = n → nblocks bs key ≤ N →
  (∀ old ks vs, cur (l_idx L) = Some (old, ks, vs) → old ≠ sid) →
  (∀ c r', (kv_sharing_target L = true → ∃ t, c = Some t ∧ cached (slots_of md) key value t) →
     serving bs N layers qc (<[l_idx L := Some (sid, key, value)]> cur) r' → scratch_ok r' →
     Q (fa_forward query key value c (Some md)) r') →
  wp (forward L query key value ptr (Some md)) r Q.
Proof.
  intros Hsv Hsc HL Hsg Hn Hfull Hne Hslots Hnd Hk Hv HnN Hold HQ. unfold QuestDecode.forward.
  wp_step. wp_step. rewrite Hfull. wp_step. wp_step. rewrite (sg_query _ _ _ _ Hsg), bool_decide_true by done. simpl.
  unfold _is_kvshare_shared_layer. rewrite (kvshare_layer cur r L) by done. simpl.
  assert (∀ r', serving bs N layers qc cur r' → scratch_held (l_idx L) r' →
    (kv_sharing_target L = true → ∃ t, engine r' !! ptr = Some t ∧ cached (slots_of md) key value t) →
    wp (c <- gets (λ r, engine r !! ptr) ;;
        kvshare_prefill_offload ops L key value md ;; ret (fa_forward query key value c (Some md))) r' Q) as Hrest.
  { intros r' Hsv' Hheld Hca. wp_step. wp_step. wp_step.
    apply (wp_prefill_offload cur r' L key value md sid n); [done|done|done|lia|done..|].
    intros s' Hsv2. apply wp_release; [done|]. intros o Hok. wp_step.
    apply HQ; [done|by eapply serving_frame|done]. }
  wp_step. destruct (kv_sharing_target L) eqn:Ekv; simpl.
  - apply wp_write_scratch; [done..|]. intros e o p c He Hsz Hca Ho Hp. apply Hrest; [by eapply serving_frame| |by exists c].
    split; [by exists c|]. simpl. rewrite Ho. by right.
  - wp_step. apply Hrest; [done|by apply scratch_ok_held|done].
Qed.

(** ** The forward pass of a layer over the next token *)
Hypothesis selection_ok : ∀ q summary n groups top_k,
  0 ≤ top_k ≤ n → n ≤ Z.of_nat (length summary) →
  ∃ ids, selection_fn q summary (py_range n) groups top_k = Ret ids ∧ NoDup ids ∧ Z.of_nat (length ids) = top_k ∧
    ∀ b, b ∈ ids → 0 ≤ b < n.
Context (attend : qrow → list row → list row → orow).
Hypothesis flash_ok : ∀ q gk gv slots n,
  flash_attn_with_kvcache q gk gv slots n = attend q (gather gk slots n) (gather gv slots n).

(** The blocks are chosen, reloaded and attended; with no stream pool nothing is awaited
    or prefetched. *)
Lemma wp_sparse_decode L q md sid ks vs s r (Q : list orow → R → Prop) :
  holds bs N sid ks vs s → resident_map s ≠ [] → request_ids md = [sid] → seq_lens md = [Z.of_nat (length ks)] →
  bs ≤ Z.of_nat (length ks) → nblocks bs ks ≤ N → 0 < num_kv_heads L →
  1 ≤ quest_top_k md → quest_top_k md + 1 ≤ capacity_of s →
  (∀ ids s', selected bs ks (quest_top_k md) ids → holds bs N sid ks vs s' → resident_map s' ≠ [] → steady bs {[sid]} s s' →
     Q [attend q (attended bs ks ids) (attended bs vs ids)] (upd (l_idx L) s' r)) →
  wp (run_sparse_decode flash_attn_with_kvcache selection_fn wait_event L [q] md) (upd (l_idx L) s r) Q.
Proof.
  intros Hh Hres Hids Hlens Hbl HnN Hkv Htop Hcap HQ. destruct (batch_single md sid _ Hids Hlens) as (_ & Hsid & Hen).
  unfold run_sparse_decode. wp_step. apply wp_upd. unfold bump. wp_step. set (s2 := with_stats _ s).
  assert (holds bs N sid ks vs s2) as Hh2.
  { pose proof (holds_log bs N sid ks vs s (bump_select_calls 1 (stats s)) (selected_log s) Hh) as H. by destruct s. }
  pose proof (sd_pool _ _ _ _ (rd_steady _ _ _ _ (ho_ready _ _ _ _ _ _ Hh2))) as Hpool.
  assert (1 ≤ nfull bs ks) as Hf by (unfold nfull; apply Z.div_le_lower_bound; lia).
  wp_step. unfold wait_prefetched. rewrite Hlens. change (py_range _) with [0]. cbn [for_each]. wp_step. wp_step.
  apply wp_upd. wp_step. wp_step. rewrite (Hpool : stream_pool s = None). wp_step. wp_step. wp_step.
  do 2 wp_step. change (Z.of_nat 0 + 0) with 0. unfold decode_request. rewrite Hsid. apply wp_upd.
  eapply wp_mono; [apply (wp_decode_step bs N Hbs selection_fn flash_attn_with_kvcache wait_event selection_ok attend flash_ok
    sid ks vs s2 (num_heads L) (num_kv_heads L) [q] q (quest_top_k md) 0); try done; lia|].
  intros [ids o] s3 (Hh3 & Hsd3 & Hres3 & ids' & Hsel & [= -> ->]). wp_steps.
  rewrite (sd_pool _ _ _ _ Hsd3). wp_step. apply HQ; [done..|]. destruct Hsd3. by split.
Qed.

Lemma wp_forward_decode cur r L q k v md sid ks vs (Q : list orow → R → Prop) :
  serving bs N layers qc cur r → scratch_ok r → L ∈ layers → cur (l_idx L) = Some (sid, ks, vs) →
  single md sid (Z.of_nat (length ks) + 1) 1 → _is_full_kv_layer L md = Ret false →
  bs ≤ Z.of_nat (length ks) + 1 → Z.of_nat (length ks) < N * bs → 0 < num_kv_heads L →
  1 ≤ quest_top_k md → quest_top_k md + 1 ≤ gpu_cache_blocks_per_seq qc →
  (∀ ids r', selected bs (ks ++ [k]) (quest_top_k md) ids →
     serving bs N layers qc (<[l_idx L := Some (sid, ks ++ [k], vs ++ [v])]> cur) r' → scratch_ok r' →
     Q [attend q (attended bs (ks ++ [k]) ids) (attended bs (vs ++ [v]) ids)] r') →
  wp (forward L [q] [k] [v] ptr (Some md)) r Q.
Proof.
  intros Hsv Hsc HL Hcur [Hids Hlens Hq Hstart] Hfull Hbl HnN Hkv Htop Hcap HQ. unfold QuestDecode.forward.
  destruct (sv_layer _ _ _ _ _ _ Hsv L HL) as (s & Hs & Hls). destruct (batch_single md sid _ Hids Hlens) as (Hb & Hsid & Hen).
  wp_step. wp_step. rewrite Hfull. wp_step. wp_step. rewrite Hq. simpl. rewrite Hs. simpl.
  rewrite (layer_size _ _ Hls : arena_block_size s = bs). rewrite (bool_decide_false (Exists _ _)).
  2: { rewrite Hlens. intros [?|?%Exists_nil]%Exists_cons; [lia|done]. }
  rewrite andb_false_r, (kvshare_layer cur r L) by done. simpl.
  wp_step. unfold kvshare_decode_write. wp_step. apply (wp_tier_manager _ _ _ _ Hs). rewrite (layer_size _ _ Hls).
  rewrite Hcur in Hls. wp_step. eapply wp_collect_same; [done|done|done|]. rewrite Hen. cbn [for_each]. wp_steps.
  rewrite Hsid. set (s0 := attach (shared r) s) in *. destruct Hls as (Hh & Hres & Hact).
  replace (Z.of_nat (length ks) + 1 - 1) with (Z.of_nat (length ks)) by lia.
  apply wp_upd. eapply wp_mono; [by apply (wp_append ops bs N Hbs HN sid ks vs k v)|].
  intros [] s1 (Hh1 & Hsd1 & Hres1). wp_step.
  assert (Z.of_nat (length (ks ++ [k])) = Z.of_nat (length ks) + 1) as Hlk by (rewrite length_app; simpl; lia).
  pose proof (n_split bs Hbs (ks ++ [k])) as (Hl & Ho & Hf).
  apply (wp_sparse_decode L q md sid (ks ++ [k]) (vs ++ [v])); try done.
  - by rewrite Hlens, Hlk.
  - lia.
  - unfold nblocks. case_decide; nia.
  - etrans; [exact Hcap|]. unfold capacity_of. rewrite (sd_cap _ _ _ _ Hsd1).
    by rewrite <-(sv_cap _ _ _ _ _ _ Hsv L s HL Hs).
  - intros ids s2 Hsel Hh2 Hres2 Hsd2. apply (HQ ids); [done| |done].
    apply (serving_upd bs N layers qc cur r L s); [done|done|done| | | |].
    + split_and!; [done|done|]. rewrite (sd_active _ _ _ _ Hsd2), (sd_active _ _ _ _ Hsd1). done.
    + apply (changed_trans bs _ _ (stores_of s1)); [exact (steady_changed bs {[sid]} (shared r) s s1 Hsd1)|].
      rewrite <-(steady_layer _ _ _ _ Hsd1 : lidx s1 = lidx s).
      apply (steady_changed bs {[sid]} (stores_of s1) s1). by rewrite attach_stores.
    + rewrite (steady_layer _ _ _ _ Hsd2). apply (steady_layer _ _ _ _ Hsd1).
    + unfold capacity_of. rewrite (sd_cap _ _ _ _ Hsd2), (sd_cap _ _ _ _ Hsd1). done.
Qed.
End generate.
