(* ===== verification/QuestServe.v ===== *)
(** * Quest backend: from start-up through a sequence of requests

    The runtime state [bind_runtime] builds, the metadata of the model runner's
    table and of [QuestMetadataBuilder], and the forward passes of all Quest layers for
    a list of requests served one after the other (C9). *)

From stdpp Require Import functions sorting.
From S2P Require Import Prelude OrderedDict QuestStore QuestTier QuestTierInv QuestTierProps QuestTierWrite QuestTierSteady QuestTierPrefill QuestSeq QuestConfig QuestDecode QuestSeqDecode QuestLayers QuestGenerate.

Open Scope Z_scope.
Import TierManager.

(** ** The table of layers *)
Section table.
Implicit Types (full idxs table : list Z).

Lemma max_upper (xs : list Z) x : x ≤ foldl Z.max x xs ∧ ∀ y, y ∈ xs → y ≤ foldl Z.max x xs.
Proof.
  revert x. induction xs as [|z xs IH]; intros x; simpl; [split; [done|set_solver]|].
  destruct (IH (Z.max x z)) as [H1 H2]. split; [lia|]. intros y [->|Hy]%elem_of_cons; [lia|]. by apply H2.
Qed.

(** Numbering writes a slot at every Quest layer and leaves the others alone. *)
Lemma number_layers_spec full idxs table :
  (∀ i, i ∈ idxs → 0 ≤ i < Z.of_nat (length table)) →
  ∃ table', number_layers full idxs table = Some table' ∧ length table' = length table ∧
    ∀ i, 0 ≤ i → (i ∈ idxs → i ∉ full → ∃ x, list_get table' i = Some x ∧ 0 ≤ x) ∧
      (i ∈ full → list_get table' i = list_get table i).
Proof.
  intros Hr. unfold number_layers.
  enough (∀ slot, 0 ≤ slot → ∃ table' slot', foldl (λ acc idx,
    '(table, slot) ← acc;
    if bool_decide (idx ∈ full) then Some (table, slot)
    else table' ← list_set table idx slot; Some (table', slot + 1)) (Some (table, slot)) idxs = Some (table', slot') ∧
    length table' = length table ∧
    ∀ i, 0 ≤ i → ((i ∈ idxs ∨ ∃ x, list_get table i = Some x ∧ 0 ≤ x) → i ∉ full → ∃ x, list_get table' i = Some x ∧ 0 ≤ x) ∧
      (i ∈ full → list_get table' i = list_get table i)) as H.
  { destruct (H 0) as (t' & s' & -> & Hl & Ht); [done|]. exists t'. split; [done|]. split; [done|]. intros i Hi.
    destruct (Ht i Hi) as [H1 H2]. split; [|done]. intros ? ?. apply H1; [by left|done]. }
  revert table Hr. induction idxs as [|j idxs IH]; intros table Hr slot Hs; simpl.
  { exists table, slot. split; [done|]. split; [done|]. intros i Hi. split; [|done]. intros [?%elem_of_nil|?]; done. }
  case_bool_decide as Hj.
  - destruct (IH table) with (slot := slot) as (t' & s' & E & Hl & Ht); [set_solver|done|]. exists t', s'. split; [done|]. split; [done|].
    intros i Hi. destruct (Ht i Hi) as [H1 H2]. split; [|done]. intros Hor Hnf. apply H1; [|done].
    destruct Hor as [[->|?]%elem_of_cons|?]; [done|by left|by right].
  - assert (0 ≤ j < Z.of_nat (length table)) as Hjr by set_solver. rewrite list_set_inb by lia. simpl.
    destruct (IH (<[Z.to_nat j := slot]> table)) with (slot := slot + 1) as (t' & s' & E & Hl & Ht).
    { intros i Hi. rewrite length_insert. set_solver. }
    { lia. }
    exists t', s'. split; [done|]. rewrite length_insert in Hl. split; [done|]. intros i Hi. destruct (Ht i Hi) as [H1 H2]. split.
    + intros Hor Hnf. apply H1; [|done]. rewrite !list_get_lookup in * by done. destruct (decide (i = j)) as [->|Hne].
      * right. exists slot. rewrite list_lookup_insert_eq by lia. done.
      * rewrite list_lookup_insert_ne by lia. destruct Hor as [[?|?]%elem_of_cons|?]; [done|by left|by right].
    + intros Hif. rewrite H2 by done. rewrite !list_get_lookup by done. apply list_lookup_insert_ne.
      intros E'. apply Hj. assert (j = i) as -> by lia. done.
Qed.

(** A layer of the model is a Quest layer exactly when it is not configured as full-KV. *)
Lemma layer_table full idxs :
  (∀ i, i ∈ idxs → 0 ≤ i) →
  ∃ table, layer_index_table full idxs = Some table ∧
    ∀ i, i ∈ idxs → ∃ x, list_get table i = Some x ∧ (x < 0 ↔ i ∈ full).
Proof.
  intros Hpos. unfold layer_index_table. set (l := merge_sort Z.le idxs).
  assert (l ≡ₚ idxs) as Hl by apply merge_sort_Permutation.
  set (n := match l with [] => 0 | x :: xs => foldl Z.max x xs + 1 end).
  assert (∀ i, i ∈ l → 0 ≤ i < n) as Hn.
  { intros i Hi. split; [apply Hpos; by rewrite <-Hl|]. unfold n. destruct l as [|x xs]; [set_solver|].
    destruct (max_upper xs x) as [H1 H2]. apply elem_of_cons in Hi as [->|Hi]; [lia|]. specialize (H2 _ Hi). lia. }
  destruct (number_layers_spec full l (replicate (Z.to_nat n) (-1))) as (t & -> & Hlen & Ht).
  { intros i Hi. rewrite length_replicate. specialize (Hn i Hi). lia. }
  exists t. split; [done|]. intros i Hi. rewrite <-Hl in Hi. destruct (Hn i Hi) as [Hi0 Hin]. destruct (Ht i Hi0) as [H1 H2].
  destruct (decide (i ∈ full)) as [Hf|Hf].
  - exists (-1). rewrite (H2 Hf). split; [|by split].
    rewrite list_get_lookup by done. apply lookup_replicate. split; [done|lia].
  - destruct (H1 Hi Hf) as (x & Hx & Hx0). exists x. split; [done|]. split; [lia|done].
Qed.
End table.

(** ** Start-up *)
Section startup.
Context {row T : Type} (ops : tensor_ops row T).
Notation block := (list row).
Notation TM := (TierManager.t row T).
Notation R := (runtime row T).
Context (uninit : row) (qc : QuestConfig) (idxs : list Z) (bs max_blocks_total page_bytes : Z).
Context (max_model_len max_num_seqs : option Z) (kv_block_size : Z → option Z).
Context (Hbs : 0 < bs) (Hkv : ∀ i, default bs (kv_block_size i) = bs).
Context (Hsync : enable_async_prefetch qc = false) (Hvalid : validate qc = Ret tt).
Implicit Types (s : TM) (r : R) (st : stores row T).

Lemma valid_violations : Forall (λ b, b = false) (violations qc).
Proof.
  pose proof Hvalid as H. unfold validate in H. destruct (existsb id (violations qc)) eqn:E; [done|].
  apply Forall_forall. intros b Hb. destruct b; [|done]. exfalso.
  assert (existsb id (violations qc) = true); [|congruence]. apply existsb_exists. exists true. split; [by apply list_elem_of_In|done].
Qed.

(** Without the stream pool only the LRU order is accepted. *)
Lemma valid_order : ordering_of (QuestConfig.block_ordering qc) = lru.
Proof.
  pose proof valid_violations as H. unfold violations in H. do 11 (apply Forall_cons in H as [_ H]).
  apply Forall_cons in H as [H1 H]. apply Forall_cons in H as [H2 _]. rewrite Hsync in H2. simpl in H2. rewrite andb_true_r in H2.
  unfold one_of in *. apply negb_false_iff, bool_decide_eq_true in H1. apply bool_decide_eq_false in H2.
  unfold ordering_of. apply elem_of_cons in H1 as [->|H1]; [done|]. by destruct H2.
Qed.

Lemma new_tier_managers_spec ls st (ms ms' : gmap Z TM) :
  new_tier_managers uninit qc bs kv_block_size ls st ms = Ret ms' → NoDup ls.*2 →
  (∀ slot idx, (slot, idx) ∈ ls → ∃ s, ms' !! idx = Some s ∧ new_tier_manager uninit qc bs kv_block_size slot idx st = Ret s) ∧
  ∀ idx, idx ∉ ls.*2 → ms' !! idx = ms !! idx.
Proof.
  revert ms. induction ls as [|[slot idx] ls IH]; intros ms; cbn [new_tier_managers]; rewrite ?fmap_cons.
  { intros [= <-] _. split; [set_solver|done]. }
  destruct (new_tier_manager uninit qc bs kv_block_size slot idx st) as [s|e] eqn:Es; [|done]. intros Hms [Hni Hnd]%NoDup_cons.
  destruct (IH _ Hms Hnd) as [H1 H2]. split.
  - intros slot' idx' [[= -> ->]|Hin]%elem_of_cons; [|by apply H1]. exists s. split; [|done].
    by rewrite H2, lookup_insert_eq.
  - intros idx' Hn. rewrite H2 by set_solver. apply lookup_insert_ne. set_solver.
Qed.

Lemma enumerate_spec (l : list Z) i x : (i, x) ∈ enumerate l ↔ 0 ≤ i ∧ l !! Z.to_nat i = Some x.
Proof.
  unfold enumerate, py_range. rewrite list_elem_of_lookup. setoid_rewrite lookup_zip_Some. split.
  - intros (j & Hj & Hx). apply lookup_seqZ in Hj as [-> Hj]. split; [lia|]. by replace (Z.to_nat (0 + Z.of_nat j)) with j by lia.
  - intros [Hi Hx]. exists (Z.to_nat i). split; [|done]. apply lookup_seqZ. apply lookup_lt_Some in Hx. lia.
Qed.
Lemma enumerate_snd (l : list Z) : (enumerate l).*2 = l.
Proof. unfold enumerate. apply snd_zip. unfold py_range. rewrite length_seqZ. lia. Qed.

(** What the shared stores are when the managers are built *)
Record fresh_stores (n cpu_blocks : Z) st : Prop := {
  fs_summary : BlockSummaryStore.init ops n max_blocks_total bs (digest_of_string (digest_mode qc)) = Ret (st_summary st);
  fs_residency : st_residency st = BlockResidency.init n max_blocks_total;
  fs_cpu : CpuKvBackingStore.init (replicate (Z.to_nat bs) uninit) n cpu_blocks = Ret (st_cpu st);
  fs_pool : st_pool st = None
}.

Lemma init_run r :
  init_runtime_state ops uninit qc idxs bs max_blocks_total page_bytes max_model_len max_num_seqs kv_block_size = Ret (Some r) →
  let n := Z.of_nat (length (quest_layers qc idxs)) in
  ∃ cpu_blocks, resolve_cpu_blocks_per_layer qc page_bytes n max_model_len max_num_seqs (Some bs) = Ret cpu_blocks ∧
    fresh_stores n cpu_blocks (shared r) ∧ quest_config_ref r = qc ∧ scratch_owner r = ∅ ∧
    new_tier_managers uninit qc bs kv_block_size (enumerate (quest_layers qc idxs)) (shared r) ∅ = Ret (tms r).
Proof.
  intros Hr n. unfold init_runtime_state in Hr. destruct (negb (enabled qc)); [done|]. case_bool_decide; [done|].
  destruct (negb (one_of (selection_impl qc) _)); [done|]. fold n in Hr.
  destruct (resolve_cpu_blocks_per_layer _ _ _ _ _ _) as [cpu|]; [|done].
  destruct (BlockSummaryStore.init _ _ _ _ _) as [ss|] eqn:Ess; [|done].
  destruct (CpuKvBackingStore.init _ _ _) as [cs|] eqn:Ecs; [|done]. rewrite Hsync in Hr. simpl in Hr.
  destruct (new_tier_managers _ _ _ _ _ _ _) as [ms|] eqn:Ems; [|done]. injection Hr as <-. simpl.
  exists cpu. split; [done|]. split; [by split|]. done.
Qed.

Section managers.
Context (N n cpu_blocks : Z) (st : stores row T) (Hfs : fresh_stores n cpu_blocks st).
Context (HNb : N ≤ max_blocks_total) (HNc : N ≤ cpu_blocks) (Hcap : 2 ≤ gpu_cache_blocks_per_seq qc).

Lemma fresh_manager slot idx s :
  0 ≤ slot < n → new_tier_manager uninit qc bs kv_block_size slot idx st = Ret s →
  idle bs N (attach st s) ∧ lidx s = slot ∧ capacity_of s = gpu_cache_blocks_per_seq qc.
Proof.
  intros Hslot Hnew. destruct Hfs as [Hsum Hres Hcpu Hpool].
  assert (attach st s = s) as Hat by (unfold new_tier_manager, init in Hnew; injection Hnew as <-; done).
  unfold new_tier_manager in Hnew. rewrite Hkv, Hres, Hpool in Hnew.
  assert (∀ sid, tm_inv sid None [] s) as Hinv.
  { intros sid. eapply (fresh_inv _ _ _ _ n max_blocks_total _ cpu_blocks (st_cpu st)); [| | | |exact Hcpu|exact Hnew]; simpl; try lia.
    all: rewrite length_replicate; lia. }
  assert (released s) as Hrel.
  { eapply (fresh_released _ _ _ _ n max_blocks_total _ cpu_blocks (st_cpu st)); [| |exact Hcpu|exact Hnew]; simpl; lia. }
  rewrite Hat. unfold init in Hnew. injection Hnew as <-. split; [|done]. split; try done. intros sid.
  destruct (fresh_cpu (mkConfig slot 0 false false false lru false) n _ cpu_blocks (st_cpu st) Hslot Hcpu) as (Hpos & Hnl & Hbpl & _).
  unfold BlockSummaryStore.init in Hsum. case_bool_decide; [done|]. case_bool_decide; [done|].
  injection Hsum as Hsum. rewrite <-Hsum. split; unfold lidx; simpl; try done; try lia.
  - split; simpl; try done.
    + apply Forall_replicate. unfold has_rows. rewrite length_replicate. lia.
    + apply Forall_replicate. unfold has_rows. rewrite length_replicate. lia.
    + split; try done. apply BlockResidency.residency_init_wf.
    + split; try done; [by eapply CpuKvBackingStore.store_init_wf|..]; unfold CpuKvBackingStore.init in Hcpu;
        (case_bool_decide; [done|]); injection Hcpu as <-; simpl;
        apply Forall_replicate, Forall_replicate; unfold has_rows; rewrite length_replicate; lia.
    + split; try done. apply grid_wf_replicate.
  - by rewrite valid_order.
Qed.
End managers.

(** Every Quest layer starts idle. *)
Lemma init_serving N (layers : list attn_layer) cpu_blocks r :
  init_runtime_state ops uninit qc idxs bs max_blocks_total page_bytes max_model_len max_num_seqs kv_block_size = Ret (Some r) →
  resolve_cpu_blocks_per_layer qc page_bytes (Z.of_nat (length (quest_layers qc idxs))) max_model_len max_num_seqs (Some bs) =
    Ret cpu_blocks →
  NoDup idxs → (∀ L, L ∈ layers → l_idx L ∈ quest_layers qc idxs) →
  N ≤ max_blocks_total → N ≤ cpu_blocks → 2 ≤ gpu_cache_blocks_per_seq qc → footprint_kvshare qc = true →
  serving bs N layers qc (λ _, None) r ∧ scratch_owner r = ∅.
Proof.
  intros Hr Hres Hnd Hin HNb HNc Hcap Hshare. destruct (init_run r Hr) as (cpu & Hcpu & Hfs & Hqc & Hown & Hms).
  rewrite Hres in Hcpu. injection Hcpu as <-. set (n := Z.of_nat _) in *.
  apply new_tier_managers_spec in Hms as [Hms _]; [|rewrite enumerate_snd; by apply NoDup_filter].
  assert (∀ L, L ∈ layers → ∃ slot s, quest_layers qc idxs !! Z.to_nat slot = Some (l_idx L) ∧ tms r !! l_idx L = Some s ∧
    idle bs N (attach (shared r) s) ∧ lidx s = slot ∧ 0 ≤ slot ∧ capacity_of s = gpu_cache_blocks_per_seq qc) as HL.
  { intros L HL. apply Hin in HL as [j Hj]%list_elem_of_lookup. assert ((Z.of_nat j, l_idx L) ∈ enumerate (quest_layers qc idxs)) as He.
    { apply enumerate_spec. split; [lia|]. by rewrite Nat2Z.id. }
    destruct (Hms _ _ He) as (s & Hs & Hnew). exists (Z.of_nat j), s. rewrite Nat2Z.id. apply lookup_lt_Some in Hj as Hlt.
    destruct (fresh_manager N n cpu_blocks (shared r) Hfs HNb HNc Hcap (Z.of_nat j) (l_idx L) s) as (? & ? & ?); [lia|done|].
    split_and!; try done. lia. }
  split; [|done]. split; try done.
  - apply Hfs.
  - intros L HL'. destruct (HL L HL') as (slot & s & _ & Hs & Hid & _). by exists s.
  - intros L L' s s' H1 H2 E1 E2 El. destruct (HL L H1) as (i & s1 & Hi & Hs1 & _ & Hl1 & Hi0 & _).
    destruct (HL L' H2) as (j & s2 & Hj & Hs2 & _ & Hl2 & Hj0 & _). simplify_eq. congruence.
  - intros L s H1 E1. destruct (HL L H1) as (i & s1 & _ & Hs1 & _ & _ & _ & Hc). by simplify_eq.
Qed.
End startup.

(** ** The kernels *)

(** A selection returns [top_k] distinct ids of its candidates. *)
Definition selects {qrow T} (selection_fn : qrow → list (T * T) → list Z → Z → Z → outcome (list Z)) : Prop :=
  ∀ q summary n groups top_k, 0 ≤ top_k ≤ n → n ≤ Z.of_nat (length summary) →
  ∃ ids, selection_fn q summary (py_range n) groups top_k = Ret ids ∧ NoDup ids ∧ Z.of_nat (length ids) = top_k ∧
    ∀ i, i ∈ ids → 0 ≤ i < n.

(** The paged kernel attends the first [n] rows of the blocks of its block table. *)
Definition paged {qrow row orow} (flash : qrow → list (list row) → list (list row) → list Z → Z → orow)
    (attend : qrow → list row → list row → orow) : Prop :=
  ∀ q gk gv slots n, flash q gk gv slots n = attend q (gather gk slots n) (gather gv slots n).

(** The torch implementation selects when [torch.topk] returns distinct positions. *)
Lemma torch_selects {T qrow F} (score : qrow → T * T → Z → F) (topk : list F → Z → list Z) :
  (∀ l k, 0 ≤ k ≤ Z.of_nat (length l) → NoDup (topk l k) ∧ Z.of_nat (length (topk l k)) = k ∧
     ∀ i, i ∈ topk l k → 0 ≤ i < Z.of_nat (length l)) →
  selects (quest_selection_torch score topk).
Proof.
  intros Htopk q summary n groups k Hk Hn. unfold quest_selection_torch.
  assert (Z.of_nat (length (py_range n)) = n) as Hr by (unfold py_range; rewrite length_seqZ; lia).
  assert (∀ i, 0 ≤ i < n → list_get (py_range n) i = Some i) as Hget.
  { intros i Hi. rewrite list_get_lookup by lia. unfold py_range. apply lookup_seqZ. lia. }
  rewrite Hr, bool_decide_false by lia.
  assert (∃ sel, mapM (list_get summary) (py_range n) = Some sel ∧ Z.of_nat (length sel) = n) as (sel & -> & Hsel).
  { destruct (mapM (list_get summary) (py_range n)) as [sel|] eqn:E.
    - exists sel. split; [done|]. apply length_mapM in E. lia.
    - exfalso. apply mapM_None_1, Exists_exists in E as (i & Hi & Hnone). unfold py_range in Hi. apply elem_of_seqZ in Hi.
      rewrite list_get_lookup in Hnone by lia. apply lookup_ge_None in Hnone. lia. }
  set (scores := _ <$> sel). assert (Z.of_nat (length scores) = n) as Hs by (unfold scores; by rewrite length_fmap).
  destruct (Htopk scores k) as (Hnd & Hlen & Hin); [lia|]. rewrite Hs in Hin. exists (topk scores k). split_and!; try done.
  assert (mapM (list_get (py_range n)) (topk scores k) = Some (topk scores k)) as ->; [|done].
  apply mapM_Some_2. apply Forall2_same_length_lookup_2; [done|]. intros i x y Hx Hy. simplify_eq.
  apply Hget, Hin. by eapply list_elem_of_lookup_2.
Qed.

(** ** Requests *)
Section serve.
Context {row T qrow orow : Type} (ops : tensor_ops row T).
Notation block := (list row).
Notation TM := (TierManager.t row T).
Notation R := (runtime row T).
Context (fa_forward : list qrow → list row → list row → option (list block * list block) → option metadata → list orow).
Context (flash_attn_with_kvcache : qrow → list block → list block → list Z → Z → orow).
Context (selection_fn : qrow → list (T * T) → list Z → Z → Z → outcome (list Z)).
Context (wait_event : QuestStreamPool.event → M TM unit).
Context (layers : list attn_layer) (ptr : Z).

(** A request: the projections of its prompt and of each next token, by layer, and the
    metadata the model runner builds for the step *)
Record request := mkRequest {
  rq_id : Z;
  rq_prompt : Z → list qrow * list row * list row;
  rq_prompt_md : fa_metadata;
  rq_steps : list ((Z → qrow * row * row) * fa_metadata)
}.
Implicit Types (rq : request) (b : QuestMetadataBuilder) (r : R).

(** One model step runs every Quest layer. *)
Definition pass md (inp : Z → list qrow * list row * list row) : M R (list (list orow)) :=
  for_collect layers (λ L, let '(q, k, v) := inp (l_idx L) in
    forward ops fa_forward flash_attn_with_kvcache selection_fn wait_event L q k v ptr (Some md)).
Definition token (inp : Z → qrow * row * row) : Z → list qrow * list row * list row :=
  λ i, let '(q, k, v) := inp i in ([q], [k], [v]).
Definition generate b rq : M R (list (list orow) * list (list (list orow))) :=
  let b := set_request_ids [rq_id rq] b in
  prompt <- pass (_promote (rq_prompt_md rq) b) (rq_prompt rq) ;;
  steps <- for_collect (rq_steps rq) (λ '(inp, fa), pass (_promote fa b) (token inp)) ;;
  ret (prompt, steps).
Definition serve b (rqs : list request) : M R (list (list (list orow) * list (list (list orow)))) :=
  for_collect rqs (generate b).

(** *** What a request must look like *)
Context (bs N size : Z).

Definition single_fa (fa : fa_metadata) (n q : Z) : Prop :=
  fa_seq_lens fa = [n] ∧ fa_max_query_len fa = q ∧ fa_query_start_loc fa = [0; q].
Definition fa_slots (fa : fa_metadata) : list Z := py_slice (fa_slot_mapping fa) 0 (fa_num_actual_tokens fa).

Fixpoint valid_steps (n : Z) (steps : list ((Z → qrow * row * row) * fa_metadata)) : Prop :=
  match steps with
  | [] => n ≤ N * bs
  | (_, fa) :: steps => single_fa fa (n + 1) 1 ∧ valid_steps (n + 1) steps
  end.
Record valid_request rq (n : Z) : Prop := {
  vr_single : single_fa (rq_prompt_md rq) n n;
  vr_long : 2 ≤ n ∧ bs ≤ n;
  vr_slots : fa_slots (rq_prompt_md rq) ≠ [] ∧ Forall (λ x, x < size) (fa_slots (rq_prompt_md rq)) ∧
    NoDup (fa_slots (rq_prompt_md rq));
  vr_rows : ∀ L, L ∈ layers →
    Z.of_nat (length (rq_prompt rq (l_idx L)).1.2) = n ∧ Z.of_nat (length (rq_prompt rq (l_idx L)).2) = n;
  vr_steps : valid_steps n (rq_steps rq)
}.

(** *** What serving it returns *)
Context (attend : qrow → list row → list row → orow) (top_k : Z).
Notation history := (Z → list row * list row).

Definition extend (h : history) (inp : Z → qrow * row * row) : history :=
  λ i, let '(_, k, v) := inp i in ((h i).1 ++ [k], (h i).2 ++ [v]).
Definition step_output (h : history) (inp : Z → qrow * row * row) L (out : list orow) : Prop :=
  let '(ks, vs) := h (l_idx L) in
  ∃ ids, selected bs ks top_k ids ∧ out = [attend (inp (l_idx L)).1.1 (attended bs ks ids) (attended bs vs ids)].
Fixpoint steps_output (h : history) (steps : list ((Z → qrow * row * row) * fa_metadata)) (outs : list (list (list orow))) : Prop :=
  match steps, outs with
  | [], [] => True
  | (inp, _) :: steps, out :: outs =>
      let h := extend h inp in Forall2 (step_output h inp) layers out ∧ steps_output h steps outs
  | _, _ => False
  end.
(** A layer that shares the scratch tensor attends over the rows the backend has written
    there; the tensor of the layer that owns it is written by the engine before the call,
    outside the backend. *)
Definition prompt_output b rq L (out : list orow) : Prop :=
  let '(q, k, v) := rq_prompt rq (l_idx L) in
  ∃ c, (kv_sharing_target L = true → ∃ t, c = Some t ∧ cached (fa_slots (rq_prompt_md rq)) k v t) ∧
    out = fa_forward q k v c (Some (_promote (rq_prompt_md rq) (set_request_ids [rq_id rq] b))).
Definition prompt_history rq : history := λ i, ((rq_prompt rq i).1.2, (rq_prompt rq i).2).
Definition request_output b rq (out : list (list orow) * list (list (list orow))) : Prop :=
  Forall2 (prompt_output b rq) layers out.1 ∧ steps_output (prompt_history rq) (rq_steps rq) out.2.

(** *** One pass over the layers *)
Context (qc : QuestConfig).
Notation serving := (serving bs N layers qc).
Notation scratch_ok := (scratch_ok ptr size).

Lemma serving_ext cur cur' (r : R) :
  serving cur r → (∀ L, L ∈ layers → cur' (l_idx L) = cur (l_idx L)) → serving cur' r.
Proof.
  intros [] E. split; try done. intros L HL. rewrite E by done. by apply sv_layer.
Qed.

Lemma wp_pass {A} (body : attn_layer → M R A) (P : attn_layer → A → Prop) (new : Z → content) todo cur r (Q : list A → R → Prop) :
  NoDup (l_idx <$> todo) →
  (∀ L cur' r' (Q' : A → R → Prop), L ∈ todo → cur' (l_idx L) = cur (l_idx L) → serving cur' r' → scratch_ok r' →
     (∀ a r2, P L a → serving (<[l_idx L := new (l_idx L)]> cur') r2 → scratch_ok r2 → Q' a r2) → wp (body L) r' Q') →
  serving cur r → scratch_ok r →
  (∀ outs r', Forall2 P todo outs → serving (λ i, if decide (i ∈ l_idx <$> todo) then new i else cur i) r' → scratch_ok r' →
     Q outs r') →
  wp (for_collect todo body) r Q.
Proof.
  revert cur r Q. induction todo as [|L todo IH]; intros cur r Q Hnd Hbody Hsv Hsc HQ; simpl.
  { wp_step. by apply HQ. }
  rewrite fmap_cons in Hnd. apply NoDup_cons in Hnd as [HnL Hnd]. wp_step.
  apply (Hbody L cur r); [by left|done|done|done|]. intros a r2 HP Hsv2 Hsc2. wp_step.
  apply (IH (<[l_idx L := new (l_idx L)]> cur)); [done| |done|done|].
  - intros L' cur' r' Q' HL' E. apply Hbody; [by right|]. rewrite E. apply fn_lookup_insert_ne. intros E'.
    apply HnL. rewrite E'. by apply list_elem_of_fmap_2.
  - intros outs r3 HF Hsv3 Hsc3. wp_step. apply HQ; [by constructor| |done]. eapply serving_ext; [exact Hsv3|].
    intros L' _. cbv beta. destruct (decide (l_idx L' = l_idx L)) as [E|E].
    + rewrite E. rewrite decide_True by (by left). rewrite decide_False by done. by rewrite fn_lookup_insert.
    + rewrite fn_lookup_insert_ne by done. apply decide_ext. rewrite fmap_cons, elem_of_cons. naive_solver.
Qed.

(** *** A request *)
Context (Hbs : 0 < bs) (HN : 0 ≤ N).
Hypothesis selection_ok : selects selection_fn.
Hypothesis flash_ok : paged flash_attn_with_kvcache attend.
Context (b : QuestMetadataBuilder).
Hypothesis table_ok : ∀ L fa ids, L ∈ layers → _is_full_kv_layer L (_promote fa (set_request_ids ids b)) = Ret false.
Hypothesis top_k_ok : b_quest_top_k b = top_k.
Context (Hnd : NoDup (l_idx <$> layers)) (Hheads : ∀ L, L ∈ layers → 0 < num_kv_heads L).
Context (Htop : 1 ≤ top_k) (Hcap : top_k + 1 ≤ gpu_cache_blocks_per_seq qc).
Notation at_history sid h := (λ i : Z, Some (sid, (h i).1, (h i).2)).

Lemma nblocks_le (l : list row) : Z.of_nat (length l) ≤ N * bs → nblocks bs l ≤ N.
Proof.
  intros Hl. pose proof (n_split bs Hbs l) as (E & Ho & Hf). unfold nblocks. case_decide; nia.
Qed.

Lemma all_layers (new cur : Z → content) r : serving (λ i, if decide (i ∈ l_idx <$> layers) then new i else cur i) r → serving new r.
Proof.
  intros Hsv. eapply serving_ext; [exact Hsv|]. intros L HL. cbv beta.
  by rewrite decide_True by by apply list_elem_of_fmap_2.
Qed.

Lemma valid_steps_le n steps : valid_steps n steps → n ≤ N * bs.
Proof.
  revert n. induction steps as [|[inp fa] steps IH]; intros n; [done|]. intros [_ H]. apply IH in H. lia.
Qed.

Lemma wp_prompt_pass cur rq n r (Q : list (list orow) → R → Prop) :
  serving cur r → scratch_ok r → valid_request rq n →
  (∀ L old ks vs, L ∈ layers → cur (l_idx L) = Some (old, ks, vs) → old ≠ rq_id rq) →
  (∀ outs r', Forall2 (prompt_output b rq) layers outs → serving (at_history (rq_id rq) (prompt_history rq)) r' →
     scratch_ok r' → Q outs r') →
  wp (pass (_promote (rq_prompt_md rq) (set_request_ids [rq_id rq] b)) (rq_prompt rq)) r Q.
Proof.
  intros Hsv Hsc [(Hl & Hq & Hs) [Hn2 Hnbs] (Hne & Hsl & Hsnd) Hrows Hsteps] Hold HQ. apply valid_steps_le in Hsteps.
  apply (wp_pass _ (prompt_output b rq) (at_history (rq_id rq) (prompt_history rq)) _ cur); [done| |done|done|].
  - intros L cur' r' Q' HL Ecur Hsv' Hsc' HQ'. destruct (Hrows L HL) as [Hk Hv]. specialize (HQ').
    unfold prompt_output in HQ'. unfold prompt_history in HQ'. destruct (rq_prompt rq (l_idx L)) as [[q k] v]. simpl in Hk, Hv, HQ'.
    apply (wp_forward_prefill ops bs N Hbs layers qc ptr size HN fa_forward _ _ _ cur' r' L q k v _ (rq_id rq) n);
      try done; try lia; [by apply table_ok|apply nblocks_le; lia|intros old ks vs; rewrite Ecur; by apply Hold|].
    intros c r2 Hca Hsv2 Hsc2. apply HQ'; [by exists c|done|done].
  - intros outs r' HF Hsv' Hsc'. apply HQ; [done|by eapply all_layers|done].
Qed.

Lemma wp_step_pass sid h inp fa n r (Q : list (list orow) → R → Prop) :
  serving (at_history sid h) r → scratch_ok r → single_fa fa (n + 1) 1 → bs ≤ n → n + 1 ≤ N * bs →
  (∀ L, L ∈ layers → Z.of_nat (length (h (l_idx L)).1) = n) →
  (∀ outs r', Forall2 (step_output (extend h inp) inp) layers outs → serving (at_history sid (extend h inp)) r' →
     scratch_ok r' → Q outs r') →
  wp (pass (_promote fa (set_request_ids [sid] b)) (token inp)) r Q.
Proof.
  intros Hsv Hsc (Hl & Hq & Hs) Hnbs HnN Hlen HQ.
  apply (wp_pass _ (step_output (extend h inp) inp) (at_history sid (extend h inp)) _ (at_history sid h)); [done| |done|done|].
  - intros L cur' r' Q' HL Ecur Hsv' Hsc' HQ'. specialize (Hlen L HL). unfold token, step_output, extend in *.
    destruct (inp (l_idx L)) as [[q k] v]. simpl in HQ'.
    apply (wp_forward_decode ops bs N Hbs layers qc ptr size HN fa_forward _ _ _ selection_ok attend flash_ok
      cur' r' L q k v _ sid (h (l_idx L)).1 (h (l_idx L)).2); simpl; rewrite ?top_k_ok; try done; try lia; [|by apply table_ok|by apply Hheads|].
    + split; try done. simpl. by rewrite Hl, Hlen.
    + intros ids r2 Hsel Hsv2 Hsc2. rewrite ?top_k_ok in Hsel. apply HQ'; [by exists ids|done|done].
  - intros outs r' HF Hsv' Hsc'. apply HQ; [done|by apply (all_layers _ (at_history sid h))|done].
Qed.

Lemma extend_length h inp n :
  (∀ L, L ∈ layers → Z.of_nat (length (h (l_idx L)).1) = n) →
  ∀ L, L ∈ layers → Z.of_nat (length (extend h inp (l_idx L)).1) = n + 1.
Proof.
  intros Hh L HL. unfold extend. destruct (inp (l_idx L)) as [[q k] v]. simpl. rewrite length_app. simpl. specialize (Hh L HL). lia.
Qed.

Lemma wp_steps_pass sid h steps n r (Q : list (list (list orow)) → R → Prop) :
  serving (at_history sid h) r → scratch_ok r → valid_steps n steps → bs ≤ n →
  (∀ L, L ∈ layers → Z.of_nat (length (h (l_idx L)).1) = n) →
  (∀ outs h' r', steps_output h steps outs → serving (at_history sid h') r' → scratch_ok r' → Q outs r') →
  wp (for_collect steps (λ '(inp, fa), pass (_promote fa (set_request_ids [sid] b)) (token inp))) r Q.
Proof.
  revert h n r Q. induction steps as [|[inp fa] steps IH]; intros h n r Q Hsv Hsc Hval Hnbs Hlen HQ; cbn [for_collect].
  { wp_step. by apply (HQ [] h). }
  destruct Hval as [Hfa Hval]. pose proof (valid_steps_le _ _ Hval) as HnN. apply wp_bind.
  apply (wp_step_pass sid h inp fa n); [done..|]. intros out r1 HF Hsv1 Hsc1. apply wp_bind.
  apply (IH (extend h inp) (n + 1)); [done|done|done|lia|by apply extend_length|].
  intros outs h' r2 Hout Hsv2 Hsc2. apply wp_ret. by apply (HQ _ h').
Qed.

Lemma wp_generate cur rq n r (Q : _ → R → Prop) :
  serving cur r → scratch_ok r → valid_request rq n →
  (∀ L old ks vs, L ∈ layers → cur (l_idx L) = Some (old, ks, vs) → old ≠ rq_id rq) →
  (∀ out h r', request_output b rq out → serving (at_history (rq_id rq) h) r' → scratch_ok r' → Q out r') →
  wp (generate b rq) r Q.
Proof.
  intros Hsv Hsc Hval Hold HQ. unfold generate. apply wp_bind. apply (wp_prompt_pass cur rq n); [done..|].
  intros p r1 Hp Hsv1 Hsc1. apply wp_bind. apply (wp_steps_pass (rq_id rq) (prompt_history rq) _ n); [done|done|apply Hval|apply Hval| |].
  - intros L HL. by apply (vr_rows _ _ Hval).
  - intros outs h r2 Ho Hsv2 Hsc2. apply wp_ret. by apply (HQ _ h).
Qed.

Lemma wp_serve cur rqs r :
  serving cur r → scratch_ok r → (∀ rq, rq ∈ rqs → ∃ n, valid_request rq n) → NoDup (rq_id <$> rqs) →
  (∀ L old ks vs, L ∈ layers → cur (l_idx L) = Some (old, ks, vs) → old ∉ rq_id <$> rqs) →
  wp (serve b rqs) r (λ outs _, Forall2 (request_output b) rqs outs).
Proof.
  unfold serve. enough (∀ Q, serving cur r → scratch_ok r → (∀ rq, rq ∈ rqs → ∃ n, valid_request rq n) → NoDup (rq_id <$> rqs) →
    (∀ L old ks vs, L ∈ layers → cur (l_idx L) = Some (old, ks, vs) → old ∉ rq_id <$> rqs) →
    (∀ outs r', Forall2 (request_output b) rqs outs → Q outs r') → wp (for_collect rqs (generate b)) r Q) as H.
  { intros. apply H; try done. }
  revert cur r. induction rqs as [|rq rqs IH]; intros cur r Q Hsv Hsc Hval Hids Hold HQ; cbn [for_collect].
  { apply wp_ret. by apply HQ. }
  rewrite fmap_cons in Hids. apply NoDup_cons in Hids as [Hni Hids]. destruct (Hval rq) as [n Hn]; [by left|].
  apply wp_bind. apply (wp_generate cur rq n); [done|done|done| |].
  { intros L old ks vs HL Hc ->. apply (Hold L (rq_id rq) ks vs HL Hc). rewrite fmap_cons. by left. }
  intros out h r1 Hout Hsv1 Hsc1. apply wp_bind. apply (IH (at_history (rq_id rq) h)); [done|done| |done| |].
  - intros rq' Hin. apply Hval. by right.
  - by intros L old ks vs _ [= <- _ _].
  - intros outs r2 HF. apply wp_ret. apply HQ. by constructor.
Qed.
End serve.

(** ** The deployment *)

(** A validated configuration with KV sharing and synchronous transfers, the runtime state
    [bind_runtime] built for the layers, the table of the model runner, and the engine's
    scratch tensor of [size] slots. *)
Record deployed {row T} (ops : tensor_ops row T) (uninit : row) mc cc (qc : QuestConfig) (attn : list (Z * bool))
    (layers : list attn_layer) (num_blocks page_bytes : Z) max_model_len max_num_seqs (kv_block_size : Z → option Z)
    (cpu_blocks : Z) (table : list Z) (ptr size : Z) (r : runtime row T) : Prop := {
  dp_valid : validate qc = Ret tt;
  dp_sync : enable_async_prefetch qc = false;
  dp_kvshare : footprint_kvshare qc = true;
  dp_attn : NoDup attn.*1 ∧ ∀ i, i ∈ attn.*1 → 0 ≤ i;
  dp_layers : NoDup (l_idx <$> layers);
  dp_layer : ∀ L, L ∈ layers → l_idx L ∈ bound_layers qc attn ∧ 0 < num_kv_heads L;
  dp_size : 0 < cache_block_size cc ∧ ∀ i, default (cache_block_size cc) (kv_block_size i) = cache_block_size cc;
  dp_cpu : resolve_cpu_blocks_per_layer qc page_bytes (Z.of_nat (length (bound_layers qc attn))) max_model_len max_num_seqs
    (Some (cache_block_size cc)) = Ret cpu_blocks;
  dp_table : layer_index_table (full_kv_layers qc) attn.*1 = Some table;
  dp_init : ∃ r0 e c, bind_runtime ops uninit mc cc (Some qc) attn num_blocks page_bytes max_model_len max_num_seqs
    kv_block_size = Ret (Some r0) ∧ r = with_engine e r0 ∧ e !! ptr = Some c ∧ sized size c
}.

(** The metadata builder as the model runner wires it *)
Definition wired_builder (qc : QuestConfig) (table : list Z) : QuestMetadataBuilder :=
  QuestDecode.set_quest_top_k (top_k qc) (set_quest_layer_indices table new_builder).

Lemma bound_layers_quest qc attn : quest_layers qc (bound_layers qc attn) = bound_layers qc attn.
Proof.
  unfold quest_layers, bound_layers. induction attn as [|[i q] attn IH]; [done|]. rewrite filter_cons. case_decide as H; [|done].
  rewrite fmap_cons, filter_cons_True by apply H. by rewrite IH.
Qed.
Lemma bound_layers_spec qc attn i : i ∈ bound_layers qc attn → i ∈ attn.*1 ∧ i ∉ full_kv_layers qc.
Proof.
  unfold bound_layers. intros ([j q] & -> & [[Hq Hf] Hin]%list_elem_of_filter)%list_elem_of_fmap. split; [|done].
  by apply (list_elem_of_fmap_2 fst _ (j, q)).
Qed.
Lemma bound_layers_nodup qc attn : NoDup attn.*1 → NoDup (bound_layers qc attn).
Proof. intros Hnd. unfold bound_layers. eapply sublist_NoDup; [exact Hnd|]. apply fmap_sublist, sublist_filter. Qed.

Lemma bind_run {row T} (ops : tensor_ops row T) uninit mc cc qc attn num_blocks page_bytes len seqs kvbs r :
  bind_runtime ops uninit mc cc (Some qc) attn num_blocks page_bytes len seqs kvbs = Ret (Some r) →
  enabled qc = true ∧ validate_quest_configuration mc cc (Some qc) = [] ∧
  init_runtime_state ops uninit qc (bound_layers qc attn) (cache_block_size cc) num_blocks page_bytes len seqs kvbs = Ret (Some r).
Proof.
  unfold bind_runtime. destruct (enabled qc); [|done]. destruct (validate_quest_configuration _ _ _); [|done].
  intros H. split; [done|]. split; [done|]. simpl in H. by case_bool_decide.
Qed.

Lemma wired_quest_layer qc attn table L fa ids :
  (∀ i, i ∈ attn.*1 → 0 ≤ i) → layer_index_table (full_kv_layers qc) attn.*1 = Some table → l_idx L ∈ bound_layers qc attn →
  _is_full_kv_layer L (_promote fa (set_request_ids ids (wired_builder qc table))) = Ret false.
Proof.
  intros Hpos Ht [HL Hnf]%bound_layers_spec. destruct (layer_table (full_kv_layers qc) attn.*1 Hpos) as (t & Ht' & Hx).
  rewrite Ht in Ht'. injection Ht' as <-. destruct (Hx _ HL) as (x & Hg & Hneg). unfold _is_full_kv_layer. simpl.
  rewrite bool_decide_false by (intros ->; by destruct (l_idx L)). rewrite Hg, bool_decide_false; [done|]. tauto.
Qed.

(** C9: the Quest backend serves requests one after the other, each with a prompt of at
    least one block, as the sparse attention it describes: from the state [bind_runtime]
    builds, every forward pass of every Quest layer returns; the dense attention of a
    prompt reads the layer's own rows from the scratch tensor the layers alias; and each
    decode step returns the attention of the query over exactly the rows, of this request
    and this layer, of [min top_k full_blocks] distinct blocks and of the partial block,
    whichever blocks were spilled to the CPU pool in between. *)
Theorem serve_correct {row T qrow orow} (ops : tensor_ops row T) fa_forward flash_attn_with_kvcache selection_fn wait_event
    (attend : qrow → list row → list row → orow) uninit mc cc qc attn layers num_blocks page_bytes
    max_model_len max_num_seqs kv_block_size cpu_blocks table ptr size r (rqs : list request) :
  selects selection_fn → paged flash_attn_with_kvcache attend →
  deployed ops uninit mc cc qc attn layers num_blocks page_bytes max_model_len max_num_seqs kv_block_size
    cpu_blocks table ptr size r →
  (∀ rq, rq ∈ rqs → ∃ n, valid_request layers (cache_block_size cc) (Z.min num_blocks cpu_blocks) size rq n) →
  NoDup (rq_id <$> rqs) →
  let b := wired_builder qc table in
  wp (serve ops fa_forward flash_attn_with_kvcache selection_fn wait_event layers ptr b rqs) r
    (λ outs _, Forall2 (request_output fa_forward layers (cache_block_size cc) attend (top_k qc) b) rqs outs).
Proof.
  intros Hsel Hflash [] Hval Hids b. destruct dp_init0 as (r0 & e & c & Hbind & -> & He & Hsz), dp_size0 as [Hbs Hkv], dp_attn0 as [Hnd Hpos].
  apply bind_run in Hbind as (Hen & Hacc & Hinit). set (bs := cache_block_size cc) in *.
  destruct (validated_live_slot mc cc qc) as [Htop Hcap]; [done..|].
  destruct (init_run ops uninit qc _ bs num_blocks page_bytes _ _ _ dp_sync0 r0 Hinit) as (cpu & Hcpu & [Hsum _ Hst _] & _).
  rewrite bound_layers_quest, dp_cpu0 in Hcpu. injection Hcpu as <-.
  assert (0 ≤ Z.min num_blocks cpu_blocks) as HN.
  { unfold BlockSummaryStore.init in Hsum. unfold CpuKvBackingStore.init in Hst. repeat (case_bool_decide; [done|]). lia. }
  destruct (init_serving ops uninit qc (bound_layers qc attn) bs num_blocks page_bytes max_model_len max_num_seqs kv_block_size
    Hbs Hkv dp_sync0 dp_valid0 (Z.min num_blocks cpu_blocks) layers cpu_blocks r0) as [Hsv Hown];
    rewrite ?bound_layers_quest; [done|done|by apply bound_layers_nodup|intros L HL; by apply dp_layer0|lia|lia|lia|done|].
  apply (wp_serve ops fa_forward flash_attn_with_kvcache selection_fn wait_event layers ptr bs
    (Z.min num_blocks cpu_blocks) size attend (top_k qc) qc Hbs HN Hsel Hflash b) with (cur := λ _, None); try done.
  - intros L fa ids HL. apply (wired_quest_layer qc attn); [done|done|by apply dp_layer0].
  - intros L HL. by apply dp_layer0.
  - lia.
  - by eapply serving_frame.
  - split; [by exists c|]. simpl. by rewrite Hown.
Qed.
