(* ===== verification/QuestServeExamples.v ===== *)
(** * Quest backend: concrete deployments

    A model of three layers, the first one dense, at the block size 256 the backend
    requires, for which the hypotheses of [serve_correct] hold; and small runs that show
    what happens outside them: prompts shorter than a block, and the prefetch events of a
    model whose Quest layers are not numbered from 0. *)

From S2P Require Import Prelude OrderedDict QuestStore QuestTier QuestTierExamples QuestConfig QuestDecode QuestSeqDecode QuestGenerate QuestServe.

Open Scope Z_scope.
Import TierManager.

(** ** Kernels *)

(** Rows are integers; attention returns the query and the rows it read. *)
Notation out := (Z * list Z * list Z)%type.
Definition demo_attend (q : Z) (ks vs : list Z) : out := (q, ks, vs).
Definition demo_flash (q : Z) (gk gv : list (list Z)) (slots : list Z) (n : Z) : out :=
  demo_attend q (gather gk slots n) (gather gv slots n).
Definition demo_fa (query key value : list Z) (c : option (list (list Z) * list (list Z))) (md : option metadata) : list out :=
  (λ q, (q, key, value)) <$> query.
(** Scores are positions: the first blocks are selected. *)
Definition demo_topk (l : list Z) (k : Z) : list Z := py_range k.
Definition demo_select : Z → list (Z * Z) → list Z → Z → Z → outcome (list Z) :=
  quest_selection_torch (λ q s _, q * s.1) demo_topk.
Definition demo_wait (e : QuestStreamPool.event) : M (TierManager.t Z Z) unit := ret tt.

Lemma demo_selects : selects demo_select.
Proof.
  apply torch_selects. intros l k Hk. unfold demo_topk, py_range. split; [apply NoDup_seqZ|]. rewrite length_seqZ.
  split; [lia|]. intros i Hi%elem_of_seqZ. lia.
Qed.
Lemma demo_paged : paged demo_flash demo_attend.
Proof. done. Qed.

(** ** A deployment *)
Definition demo_config (bs : Z) (async : bool) (order : string) : QuestConfig :=
  mkQuestConfig true bs 1 [0] "quest_minmax" 2 4 None "lru" false true async 0 order false "torch" false "error".
Definition demo_layers : list attn_layer := [mkLayer 1 2 1 false; mkLayer 2 2 1 true].

Definition demo_init (bs : Z) (async : bool) (order : string) : outcome (option (runtime Z Z)) :=
  init_runtime_state demo_ops 0 (demo_config bs async order) [1; 2] bs 4 1 (Some (4 * bs)) (Some 1) (λ _, None).
Definition demo_attn : list (Z * bool) := [(0, true); (1, true); (2, true)].
(** The scratch tensor, at address 100 *)
Definition demo_tensor (bs : Z) : list (list Z) := replicate 4 (replicate (Z.to_nat bs) 0).
Definition demo_runtime (bs : Z) (async : bool) (order : string) : runtime Z Z :=
  let r0 := match demo_init bs async order with Ret (Some r) => r
            | _ => mkRuntime (demo_config bs async order) ∅
                     (mkStores (BlockSummaryStore.mk 0 0 0 BlockSummaryStore.quest_minmax []) (BlockResidency.init 0 0)
                        (CpuKvBackingStore.mk [] [] 0 0 [] (CpuKvBackingStore.mkStats 0 0 0 0)) None) None ∅ ∅ ∅ end in
  with_engine {[100 := (demo_tensor bs, demo_tensor bs)]} r0.
Definition demo_table : list Z := [-1; 0; 1].

(** A request with a prompt of [n] rows and [m] more tokens; layer [i] has the rows
    [1000 * i + position]. *)
Definition demo_fa_md (n q : Z) : fa_metadata := mkFa q q (seqZ (n - q) q) [n] [0; q] [].
Definition demo_request (id n : Z) (m : nat) : request (row := Z) (qrow := Z) :=
  mkRequest id (λ i, (seqZ 0 n, seqZ (1000 * i) n, seqZ (1000 * i) n)) (demo_fa_md n n)
    ((λ j, (λ i, (n + j, 1000 * i + (n + j), 1000 * i + (n + j)), demo_fa_md (n + j + 1) 1)) <$> seqZ 0 (Z.of_nat m)).

Lemma demo_deployed :
  deployed demo_ops 0 (mkModelConfig (Some "LlamaForCausalLM") false false) (mkCacheConfig 256 false)
    (demo_config 256 false "lru") demo_attn demo_layers 4 1 (Some 1024) (Some 1) (λ _, None) 4 demo_table 100 1024
    (demo_runtime 256 false "lru").
Proof.
  split; try by vm_compute.
  - split; [by apply (bool_decide_unpack _)|]. intros i Hi. change (i ∈ [0; 1; 2]) in Hi.
    repeat (apply elem_of_cons in Hi as [->|Hi]; [lia|]). by apply elem_of_nil in Hi.
  - by apply (bool_decide_unpack _).
  - intros L HL. repeat (apply elem_of_cons in HL as [->|HL]; [split; [by apply (bool_decide_unpack _)|simpl; lia]|]).
    by apply elem_of_nil in HL.
  - unfold demo_runtime. destruct (demo_init 256 false "lru") as [[r|]|] eqn:E.
    + exists r, {[100 := (demo_tensor 256, demo_tensor 256)]}, (demo_tensor 256, demo_tensor 256).
      split; [by rewrite <-E; vm_compute|]. split; [done|]. split; [by rewrite lookup_singleton_eq|]. exists 256. split; [lia|].
      split_and!; [done|done|apply Forall_replicate; by vm_compute..].
    + by vm_compute in E.
    + by vm_compute in E.
Qed.

Lemma demo_steps_valid n k m :
  n + k + Z.of_nat m ≤ 1024 → 0 ≤ k →
  valid_steps 256 4 (n + k)
    ((λ j, (λ i, (n + j, 1000 * i + (n + j), 1000 * i + (n + j)), demo_fa_md (n + j + 1) 1)) <$> seqZ k (Z.of_nat m)).
Proof.
  revert k. induction m as [|m IH]; intros k Hm Hk; [simpl; lia|]. rewrite seqZ_cons by lia.
  replace (Z.pred (Z.of_nat (S m))) with (Z.of_nat m) by lia. rewrite fmap_cons. split; [by split_and!|].
  replace (n + k + 1) with (n + Z.succ k) by lia. apply IH; lia.
Qed.

Lemma demo_valid id n m :
  256 ≤ n → n + Z.of_nat m ≤ 1024 → valid_request demo_layers 256 4 1024 (demo_request id n m) n.
Proof.
  intros Hn Hm. assert (fa_slots (rq_prompt_md (demo_request id n m)) = seqZ 0 n) as Hs.
  { unfold fa_slots. simpl. rewrite Z.sub_diag. apply py_slice_full. rewrite length_seqZ. lia. }
  split.
  - by split_and!.
  - lia.
  - rewrite Hs. split_and!; [|apply Forall_forall; intros x Hx%elem_of_seqZ; lia|apply NoDup_seqZ].
    intros E. apply (f_equal length) in E. rewrite length_seqZ in E. simpl in E. lia.
  - intros L _. simpl. rewrite !length_seqZ. lia.
  - simpl. pose proof (demo_steps_valid n 0 m) as H. rewrite Z.add_0_r in H. apply H; lia.
Qed.

(** Two requests, of 300 and 256 prompt rows; the first decodes three tokens with four
    blocks' worth of room. *)
Lemma serve_correct_witness :
  wp (serve demo_ops demo_fa demo_flash demo_select demo_wait demo_layers 100 (wired_builder (demo_config 256 false "lru") demo_table)
        [demo_request 7 300 3; demo_request 9 256 1]) (demo_runtime 256 false "lru")
    (λ outs _, Forall2 (request_output demo_fa demo_layers 256 demo_attend 1 (wired_builder (demo_config 256 false "lru") demo_table))
       [demo_request 7 300 3; demo_request 9 256 1] outs).
Proof.
  apply (serve_correct demo_ops demo_fa demo_flash demo_select demo_wait demo_attend 0
    (mkModelConfig (Some "LlamaForCausalLM") false false) (mkCacheConfig 256 false) (demo_config 256 false "lru") demo_attn
    demo_layers 4 1 (Some 1024) (Some 1) (λ _, None) 4 demo_table 100 1024).
  - exact demo_selects.
  - exact demo_paged.
  - exact demo_deployed.
  - intros rq Hrq. apply elem_of_cons in Hrq as [->|[->|[]%elem_of_nil]%elem_of_cons].
    + exists 300. by apply demo_valid.
    + exists 256. by apply demo_valid.
  - by apply (bool_decide_unpack _).
Defined.

(** ** Evaluating a run

    The output of the last step of a request, for each layer *)
Definition last_outputs (bs : Z) (rqs : list (request (row := Z) (qrow := Z))) : option (list (list out)) :=
  match serve demo_ops demo_fa demo_flash demo_select demo_wait demo_layers 100
          (wired_builder (demo_config bs false "lru") demo_table) rqs (demo_runtime bs false "lru") with
  | (Ret outs, _) => out ← last outs; last out.2
  | (Raise _, _) => None
  end.

(** After a request of 9 rows in blocks of 4 and three more tokens, the last of which
    fills block 2: block 0, reloaded from the CPU pool, is what [top_k = 1] selects. *)
Example long_prompt_run : last_outputs 4 [demo_request 7 9 2] =
  Some [[(10, [1000; 1001; 1002; 1003; 1008; 1009; 1010], [1000; 1001; 1002; 1003; 1008; 1009; 1010])];
        [(10, [2000; 2001; 2002; 2003; 2008; 2009; 2010], [2000; 2001; 2002; 2003; 2008; 2009; 2010])]].
Proof. by vm_compute. Qed.

(** A prompt shorter than a block: the token of the decode step that still is inside the
    first block never reaches the arena, and the step that completes the block attends
    the unwritten row in its place. *)
Example short_prompt_loses_row : last_outputs 4 [demo_request 7 2 2] =
  Some [[(3, [1000; 1001; 0; 1003], [1000; 1001; 0; 1003])];
        [(3, [2000; 2001; 0; 2003], [2000; 2001; 0; 2003])]].
Proof. by vm_compute. Qed.

(** ** Prefetch events

    A decode step of layer 1 prefetches for layer 2, whose manager has slot 1. The event
    is registered for target 1, the slot; layer 2 looks for target 2, its global index,
    so that it never waits, and the event of slot 1 stays behind. *)
Definition demo_prefetched : runtime Z Z :=
  let b := set_request_ids [7] (wired_builder (demo_config 4 true "prefetch") demo_table) in
  let L1 := mkLayer 1 2 1 false in
  after (pass demo_ops demo_fa demo_flash demo_select demo_wait demo_layers 100 (_promote (demo_fa_md 9 9) b)
           (rq_prompt (demo_request 7 9 0)) ;;
         forward demo_ops demo_fa demo_flash demo_select demo_wait L1 [9] [1009] [1009] 100
           (Some (_promote (demo_fa_md 10 1) b)))
    (demo_runtime 4 true "prefetch").
Definition pending_events (r : runtime Z Z) : list (Z * Z) :=
  match st_pool (shared r) with None => [] | Some p => (map_to_list (QuestStreamPool.pending p)).*1 end.

Example prefetch_event_missed :
  layer_idx ∘ cfg <$> tms demo_prefetched !! 2 = Some 1 ∧ pending_events demo_prefetched = [(7, 1)] ∧
  pending_events (after (wait_prefetched demo_wait (mkLayer 2 2 1 true)
    (_promote (demo_fa_md 10 1) (set_request_ids [7] new_builder))) demo_prefetched) = [(7, 1)].
Proof. by vm_compute. Qed.
