(* ===== verification/FreeQueue.v ===== *)
(** * The free-block queue: an intrusive doubly linked list

    [KVCacheBlock] and [FreeKVCacheBlockQueue] of
    src/vllm/v1/core/kv_cache_utils.py. Blocks are shared mutable objects linked
    through their own [prev_free_block]/[next_free_block] attributes, so the
    model has the heap: a map from references to block objects. [queue_rep]
    relates the links to the list of free blocks in eviction order, and every
    method of the class is shown to implement the list operation it stands
    for. *)

From S2P Require Import Prelude.

Open Scope Z_scope.

(** [bytes]; a hash or a hash with its group id. *)
Notation bytes := (list Z) (only parsing).

(** A reference to a block object: the two sentinels of the queue and the
    blocks of the pool by id. *)
Inductive ref := FakeHead | FakeTail | Blk (id : Z).

#[global] Instance ref_eq_dec : EqDecision ref.
Proof. solve_decision. Defined.

#[global] Instance ref_countable : Countable ref.
Proof.
  refine (inj_countable'
    (λ r, match r with FakeHead => inl tt | FakeTail => inr (inl tt) | Blk i => inr (inr i) end)
    (λ x, match x with inl _ => FakeHead | inr (inl _) => FakeTail | inr (inr i) => Blk i end) _).
  by intros [].
Defined.

Record KVCacheBlock := mkBlock {
  block_id : Z;
  ref_cnt : Z;
  block_hash : option bytes;
  prev_free_block : option ref;
  next_free_block : option ref;
  is_null : bool
}.

(** [KVCacheBlock(block_id=...)] *)
Definition new_block (id : Z) : KVCacheBlock := mkBlock id 0 None None None false.

#[global] Instance KVCacheBlock_inhabited : Inhabited KVCacheBlock := populate (new_block (-1)).

Definition set_prev (r : option ref) (b : KVCacheBlock) : KVCacheBlock :=
  mkBlock (block_id b) (ref_cnt b) (block_hash b) r (next_free_block b) (is_null b).
Definition set_next (r : option ref) (b : KVCacheBlock) : KVCacheBlock :=
  mkBlock (block_id b) (ref_cnt b) (block_hash b) (prev_free_block b) r (is_null b).
Definition set_ref_cnt (n : Z) (b : KVCacheBlock) : KVCacheBlock :=
  mkBlock (block_id b) n (block_hash b) (prev_free_block b) (next_free_block b) (is_null b).
Definition set_hash (h : option bytes) (b : KVCacheBlock) : KVCacheBlock :=
  mkBlock (block_id b) (ref_cnt b) h (prev_free_block b) (next_free_block b) (is_null b).
Definition set_null (n : bool) (b : KVCacheBlock) : KVCacheBlock :=
  mkBlock (block_id b) (ref_cnt b) (block_hash b) (prev_free_block b) (next_free_block b) n.

(** The heap holds every block object a reference points to. *)
Notation heap := (gmap ref KVCacheBlock).
Definition write (r : ref) (f : KVCacheBlock → KVCacheBlock) (h : heap) : heap :=
  <[r := f (h !!! r)]> h.

Module FreeKVCacheBlockQueue.

Record t := mk {
  blocks : heap;
  num_free_blocks : Z
}.

Definition on_heap (f : heap → heap) (q : t) : t := mk (f (blocks q)) (num_free_blocks q).
Definition set_num (n : Z) (q : t) : t := mk (blocks q) n.

Definition prev_of (r : ref) : M t (option ref) := gets (λ q, prev_free_block (blocks q !!! r)).
Definition next_of (r : ref) : M t (option ref) := gets (λ q, next_free_block (blocks q !!! r)).
Definition write_prev (r : ref) (v : option ref) : M t unit := modify (on_heap (write r (set_prev v))).
Definition write_next (r : ref) (v : option ref) : M t unit := modify (on_heap (write r (set_next v))).
Definition add_num (n : Z) : M t unit := modify (λ q, set_num (num_free_blocks q + n) q).

(** [FreeKVCacheBlockQueue(blocks)]: [bs] lists the references of [blocks]. *)
Definition init_link (bs : list ref) (n i : Z) : M t unit :=
  let at_ (j : Z) := of_option IndexError (list_get bs j) in
  (if bool_decide (0 < i)
   then b <- at_ i ;; p <- at_ (i - 1) ;; write_prev b (Some p) else ret tt) ;;
  (if bool_decide (i < n - 1)
   then b <- at_ i ;; x <- at_ (i + 1) ;; write_next b (Some x) else ret tt).

Definition init (bs : list ref) : M t unit :=
  let n := Z.of_nat (length bs) in
  let at_ (j : Z) := of_option IndexError (list_get bs j) in
  modify (set_num n) ;;
  for_each (py_range n) (init_link bs n) ;;
  modify (on_heap (λ h, <[FakeTail := new_block (-1)]> (<[FakeHead := new_block (-1)]> h))) ;;
  if bool_decide (0 < n) then
    first <- at_ 0 ;; last <- at_ (-1) ;;
    write_next FakeHead (Some first) ;;
    write_prev first (Some FakeHead) ;;
    write_prev FakeTail (Some last) ;;
    write_next last (Some FakeTail)
  else
    write_next FakeHead (Some FakeTail) ;;
    write_prev FakeTail (Some FakeHead).

Definition popleft : M t ref :=
  first <- next_of FakeHead ;;
  match first with
  | None | Some FakeTail =>
      n <- gets num_free_blocks ;;
      assert_ (bool_decide (n = 0)) ;; raise ValueError
  | Some first_block =>
      second <- next_of first_block ;;
      match second with
      | None => raise RuntimeError
      | Some second_block =>
          write_next FakeHead (Some second_block) ;;
          write_prev second_block (Some FakeHead) ;;
          write_prev first_block None ;;
          write_next first_block None ;;
          add_num (-1) ;;
          ret first_block
      end
  end.

(** The loop of [popleft_n]: the popped blocks and the block after them. *)
Fixpoint pop_loop (n : nat) (curr_block : option ref) : M t (list ref * option ref) :=
  match n with
  | O => ret ([], curr_block)
  | S n' =>
      match curr_block with
      | None => raise AssertionError
      | Some b =>
          curr <- next_of b ;;
          write_prev b None ;;
          write_next b None ;;
          '(popped, rest) <- pop_loop n' curr ;;
          ret (b :: popped, rest)
      end
  end.

Definition popleft_n (n : Z) : M t (list ref) :=
  if bool_decide (n = 0) then ret []
  else
    num <- gets num_free_blocks ;;
    assert_ (bool_decide (n ≤ num)) ;;
    add_num (- n) ;;
    first <- next_of FakeHead ;;
    '(popped, curr) <- pop_loop (Z.to_nat n) first ;;
    match curr with
    | Some c => write_next FakeHead (Some c) ;; write_prev c (Some FakeHead)
    | None => ret tt
    end ;;
    ret popped.

Definition remove (block : ref) : M t unit :=
  p <- prev_of block ;;
  n <- next_of block ;;
  match p, n with
  | Some pb, Some nb =>
      write_next pb (Some nb) ;;
      write_prev nb (Some pb) ;;
      write_prev block None ;;
      write_next block None ;;
      add_num (-1)
  | _, _ => raise RuntimeError
  end.

Definition append (block : ref) : M t unit :=
  last <- prev_of FakeTail ;;
  match last with
  | None => raise RuntimeError
  | Some last_block =>
      write_next last_block (Some block) ;;
      write_prev block (Some last_block) ;;
      write_next block (Some FakeTail) ;;
      write_prev FakeTail (Some block) ;;
      add_num 1
  end.

(** The loop of [append_n] returns the last block linked. *)
Fixpoint append_loop (bs : list ref) (last_block : ref) : M t ref :=
  match bs with
  | [] => ret last_block
  | b :: bs' =>
      write_prev b (Some last_block) ;;
      write_next last_block (Some b) ;;
      append_loop bs' b
  end.

Definition append_n (bs : list ref) : M t unit :=
  match bs with
  | [] => ret tt
  | _ =>
      last <- prev_of FakeTail ;;
      last_block <- of_option AssertionError last ;;
      last_block <- append_loop bs last_block ;;
      write_next last_block (Some FakeTail) ;;
      write_prev FakeTail (Some last_block) ;;
      add_num (Z.of_nat (length bs))
  end.

(** [fuel] bounds the traversal; the heap's size is enough (every reference is
    visited once). *)
Fixpoint collect (fuel : nat) (curr_block : ref) : M t (list ref) :=
  match fuel with
  | O => raise StopIteration
  | S f =>
      next <- next_of curr_block ;;
      match next with
      | None => ret []
      | Some n => rest <- collect f n ;; ret (curr_block :: rest)
      end
  end.

Definition get_all_free_blocks : M t (list ref) :=
  first <- next_of FakeHead ;;
  first <- of_option RuntimeError first ;;
  q <- get ;;
  collect (size (blocks q)) first.
End FreeKVCacheBlockQueue.

(** ** Chains of links *)
Section chain.
Implicit Types (n p : ref → option ref) (l : list ref) (a b r : ref).

Fixpoint lchain n p l : Prop :=
  match l with
  | a :: ((b :: _) as l') => n a = Some b ∧ p b = Some a ∧ lchain n p l'
  | _ => True
  end.

Lemma lchain_cons n p a b l :
  lchain n p (a :: b :: l) ↔ n a = Some b ∧ p b = Some a ∧ lchain n p (b :: l).
Proof. done. Qed.

Lemma lchain_app n p l1 a l2 :
  lchain n p (l1 ++ a :: l2) ↔ lchain n p (l1 ++ [a]) ∧ lchain n p (a :: l2).
Proof.
  induction l1 as [|x l1 IH]; [simpl; tauto|]. destruct l1 as [|y l1].
  - simpl. tauto.
  - change ((x :: y :: l1) ++ a :: l2) with (x :: y :: (l1 ++ a :: l2)).
    change ((x :: y :: l1) ++ [a]) with (x :: y :: (l1 ++ [a])).
    rewrite !lchain_cons. simpl in IH. rewrite IH. tauto.
Qed.

(** Only the [next] links of all but the last element and the [prev] links of
    all but the first matter. *)
Lemma lchain_ext n p n' p' l :
  NoDup l → lchain n p l →
  (∀ a, a ∈ l → last l ≠ Some a → n' a = n a) →
  (∀ a, a ∈ l → head l ≠ Some a → p' a = p a) → lchain n' p' l.
Proof.
  induction l as [|a l IH]; [done|]. destruct l as [|b l]; [done|].
  rewrite !lchain_cons. intros [Ha Hnd]%NoDup_cons (Hn & Hp & Hl) Hn' Hp'. split_and!.
  - rewrite Hn'; [done|set_solver|]. rewrite last_cons_cons. intros Heq.
    apply last_Some in Heq as [l' Heq]. rewrite Heq in Ha. set_solver.
  - rewrite Hp'; [done|set_solver|]. simpl. intros [= ->]. set_solver.
  - apply IH; [done|done| |].
    + intros x Hx Hlast. apply Hn'; [set_solver|]. by rewrite last_cons_cons.
    + intros x Hx Hhd. apply Hp'; [set_solver|]. simpl. intros [= ->]. done.
Qed.
End chain.

(** ** The list a heap represents *)
Definition nxt (h : heap) (r : ref) : option ref := next_free_block (h !!! r).
Definition prv (h : heap) (r : ref) : option ref := prev_free_block (h !!! r).

Definition full (l : list ref) : list ref := FakeHead :: l ++ [FakeTail].

Record queue_rep (h : heap) (l : list ref) : Prop := {
  qr_chain : lchain (nxt h) (prv h) (full l);
  qr_nodup : NoDup (full l);
  qr_tail : nxt h FakeTail = None;
  qr_alloc : ∀ r, r ∈ full l → is_Some (h !! r);
  qr_off : ∀ i, Blk i ∉ l → nxt h (Blk i) = None ∧ prv h (Blk i) = None
}.

Lemma nxt_write_next h r v r' : nxt (write r (set_next v) h) r' = if decide (r' = r) then v else nxt h r'.
Proof.
  unfold nxt, write. destruct (decide (r' = r)) as [->|]; [by rewrite lookup_total_insert_eq|].
  by rewrite lookup_total_insert_ne.
Qed.
Lemma prv_write_next h r v r' : prv (write r (set_next v) h) r' = prv h r'.
Proof.
  unfold prv, write. destruct (decide (r' = r)) as [->|]; [by rewrite lookup_total_insert_eq|].
  by rewrite lookup_total_insert_ne.
Qed.
Lemma prv_write_prev h r v r' : prv (write r (set_prev v) h) r' = if decide (r' = r) then v else prv h r'.
Proof.
  unfold prv, write. destruct (decide (r' = r)) as [->|]; [by rewrite lookup_total_insert_eq|].
  by rewrite lookup_total_insert_ne.
Qed.
Lemma nxt_write_prev h r v r' : nxt (write r (set_prev v) h) r' = nxt h r'.
Proof.
  unfold nxt, write. destruct (decide (r' = r)) as [->|]; [by rewrite lookup_total_insert_eq|].
  by rewrite lookup_total_insert_ne.
Qed.

(** Two heaps that differ in the links only. *)
Definition same_data (h h' : heap) : Prop :=
  ∀ r, block_id (h' !!! r) = block_id (h !!! r) ∧ ref_cnt (h' !!! r) = ref_cnt (h !!! r) ∧
       block_hash (h' !!! r) = block_hash (h !!! r) ∧ is_null (h' !!! r) = is_null (h !!! r) ∧
       (is_Some (h !! r) → is_Some (h' !! r)).

Lemma same_data_refl h : same_data h h.
Proof. done. Qed.
Lemma same_data_trans h1 h2 h3 : same_data h1 h2 → same_data h2 h3 → same_data h1 h3.
Proof.
  intros H1 H2 r. destruct (H1 r) as (?&?&?&?&?), (H2 r) as (?&?&?&?&?).
  split_and!; [congruence..|auto].
Qed.
Lemma same_data_next h r v : same_data h (write r (set_next v) h).
Proof.
  intros r'. unfold write. destruct (decide (r' = r)) as [->|Hne].
  - rewrite lookup_total_insert_eq, lookup_insert_eq. by simpl.
  - by rewrite lookup_total_insert_ne, lookup_insert_ne.
Qed.
Lemma same_data_prev h r v : same_data h (write r (set_prev v) h).
Proof.
  intros r'. unfold write. destruct (decide (r' = r)) as [->|Hne].
  - rewrite lookup_total_insert_eq, lookup_insert_eq. by simpl.
  - by rewrite lookup_total_insert_ne, lookup_insert_ne.
Qed.

Lemma write_is_Some h r f r' : is_Some (h !! r') → is_Some (write r f h !! r').
Proof.
  intros Hr. unfold write. destruct (decide (r = r')) as [->|]; [by rewrite lookup_insert_eq|].
  by rewrite lookup_insert_ne.
Qed.

Create HintDb links.
#[export] Hint Resolve same_data_refl same_data_next same_data_prev write_is_Some : links.
#[export] Hint Extern 2 (same_data _ (write _ (set_next _) _)) =>
  eapply same_data_trans; [|apply same_data_next] : links.
#[export] Hint Extern 2 (same_data _ (write _ (set_prev _) _)) =>
  eapply same_data_trans; [|apply same_data_prev] : links.
#[export] Hint Rewrite nxt_write_next nxt_write_prev prv_write_next prv_write_prev : links.

Lemma full_in r l : r ∈ full l ↔ r = FakeHead ∨ r ∈ l ∨ r = FakeTail.
Proof. unfold full. set_solver. Qed.

Lemma rep_in_blk h l r : queue_rep h l → r ∈ l → ∃ i, r = Blk i.
Proof.
  intros Hq Hr. pose proof (qr_nodup _ _ Hq) as Hn. unfold full in Hn.
  apply NoDup_cons in Hn as [Hh Hn]. apply NoDup_app in Hn as (_ & Ht & _).
  destruct r as [| |i]; [set_solver| |eauto]. exfalso. apply (Ht FakeTail); set_solver.
Qed.

(** Unlinking [x] between [a] and [b], and linking [x] between them. *)
Lemma lchain_unlink n p n' p' F1 a x b F2 :
  NoDup (F1 ++ a :: x :: b :: F2) → lchain n p (F1 ++ a :: x :: b :: F2) →
  (∀ r, n' r = if decide (r = x) then None else if decide (r = a) then Some b else n r) →
  (∀ r, p' r = if decide (r = x) then None else if decide (r = b) then Some a else p r) →
  lchain n' p' (F1 ++ a :: b :: F2).
Proof.
  intros Hnd Hl Hn Hp. apply lchain_app in Hl as [Hl1 Hl2].
  apply NoDup_app in Hnd as (Hn1 & Hd & Hn2).
  rewrite !NoDup_cons in Hn2. destruct Hn2 as (Ha & Hx & Hb & Hn2). apply lchain_app. split.
  - apply (lchain_ext n p); [|done|..].
    + apply NoDup_app. split_and!; [done| |apply NoDup_singleton]. set_solver.
    + intros r Hr Hlast. rewrite last_snoc in Hlast. rewrite Hn.
      rewrite !decide_False; [done|congruence|]. set_solver.
    + intros r Hr _. rewrite Hp. rewrite !decide_False; [done|set_solver..].
  - apply lchain_cons in Hl2 as (_ & _ & Hl2). apply lchain_cons in Hl2 as (_ & _ & Hl2).
    apply lchain_cons. split_and!.
    + rewrite Hn, decide_False, decide_True by set_solver. done.
    + rewrite Hp, decide_False, decide_True by set_solver. done.
    + apply (lchain_ext n p); [by apply NoDup_cons|done|..].
      * intros r Hr _. rewrite Hn, !decide_False; [done|set_solver..].
      * intros r Hr Hhd. rewrite Hp, !decide_False; [done| |set_solver]. intros ->. by apply Hhd.
Qed.

(** [FakeHead :: l1] and [l2 ++ [FakeTail]] seen from the gap between them. *)
Lemma full_gap l1 l2 : ∃ F1 a b F2,
  FakeHead :: l1 = F1 ++ [a] ∧ l2 ++ [FakeTail] = b :: F2 ∧
  full (l1 ++ l2) = F1 ++ a :: b :: F2 ∧
  ∀ x, full (l1 ++ x :: l2) = F1 ++ a :: x :: b :: F2.
Proof.
  assert (∃ F1 a, FakeHead :: l1 = F1 ++ [a]) as (F1 & a & H1).
  { destruct l1 as [|y l1 _] using rev_ind; [by exists [], FakeHead|].
    exists (FakeHead :: l1), y. done. }
  assert (∃ b F2, l2 ++ [FakeTail] = b :: F2) as (b & F2 & H2).
  { destruct l2 as [|y l2]; [by exists FakeTail, []|by exists y, (l2 ++ [FakeTail])]. }
  exists F1, a, b, F2. unfold full. split_and!; [done|done|..].
  - rewrite <-app_assoc, H2. change (FakeHead :: l1 ++ b :: F2) with ((FakeHead :: l1) ++ b :: F2).
    rewrite H1, <-app_assoc. done.
  - intros x. rewrite <-app_assoc. simpl. rewrite H2.
    change (FakeHead :: l1 ++ x :: b :: F2) with ((FakeHead :: l1) ++ x :: b :: F2).
    rewrite H1, <-app_assoc. done.
Qed.

(** The links around a member of the queue. *)
Lemma rep_neighbours h l1 x l2 :
  queue_rep h (l1 ++ x :: l2) → ∃ a b,
    last (FakeHead :: l1) = Some a ∧ head (l2 ++ [FakeTail]) = Some b ∧
    prv h x = Some a ∧ nxt h x = Some b.
Proof.
  intros Hq. destruct (full_gap l1 l2) as (F1 & a & b & F2 & H1 & H2 & _ & Hf).
  pose proof (qr_chain _ _ Hq) as Hc. rewrite Hf in Hc. apply lchain_app in Hc as [_ Hc].
  rewrite !lchain_cons in Hc. exists a, b. rewrite H1, H2, last_snoc. naive_solver.
Qed.

Lemma rep_unlink h h' l1 x l2 a b :
  queue_rep h (l1 ++ x :: l2) → last (FakeHead :: l1) = Some a → head (l2 ++ [FakeTail]) = Some b →
  (∀ r, nxt h' r = if decide (r = x) then None else if decide (r = a) then Some b else nxt h r) →
  (∀ r, prv h' r = if decide (r = x) then None else if decide (r = b) then Some a else prv h r) →
  (∀ r, is_Some (h !! r) → is_Some (h' !! r)) →
  queue_rep h' (l1 ++ l2).
Proof.
  intros Hq Ha Hb Hn Hp Hal. destruct (full_gap l1 l2) as (F1 & a' & b' & F2 & H1 & H2 & Hf & Hfx).
  rewrite H1, last_snoc in Ha. rewrite H2 in Hb. simpl in Hb.
  injection Ha as ->. injection Hb as ->.
  pose proof (qr_nodup _ _ Hq) as Hnd. pose proof (qr_chain _ _ Hq) as Hc. rewrite Hfx in Hnd, Hc.
  assert (x ≠ FakeTail ∧ x ≠ FakeHead) as [Hxt Hxh].
  { destruct (rep_in_blk h (l1 ++ x :: l2) x Hq) as [i ->]; [set_solver|done]. }
  assert (a ≠ FakeTail) as Hat.
  { intros ->. pose proof (qr_nodup _ _ Hq) as Hn'. rewrite Hfx in Hn'.
    assert (FakeTail ∈ b :: F2) by (rewrite <-H2; set_solver).
    apply NoDup_app in Hn' as (_ & _ & Hn'). apply NoDup_cons in Hn' as [Hn' _]. set_solver. }
  split.
  - rewrite Hf. by eapply lchain_unlink.
  - rewrite Hf. eapply sublist_NoDup; [exact Hnd|]. apply sublist_app; [done|].
    by apply sublist_skip, sublist_cons.
  - rewrite Hn, !decide_False by done. apply Hq.
  - intros r Hr. apply Hal, (qr_alloc _ _ Hq). rewrite !full_in in *. set_solver.
  - intros i Hi. rewrite Hn, Hp. destruct (decide (Blk i = x)) as [|Hx]; [done|].
    assert (Blk i ∉ l1 ++ x :: l2) as Hout by set_solver.
    assert (Blk i ≠ a).
    { intros <-. assert (Blk i ∈ FakeHead :: l1) as Hin by (rewrite H1; set_solver).
      apply elem_of_cons in Hin as [?|?]; [done|set_solver]. }
    assert (Blk i ≠ b).
    { intros <-. assert (Blk i ∈ l2 ++ [FakeTail]) as Hin by (rewrite H2; set_solver).
      apply elem_of_app in Hin as [?|?]; [set_solver|set_solver]. }
    rewrite !decide_False by done. by apply (qr_off _ _ Hq).
Qed.

(** Linking a run of fresh blocks [xs] at the tail. *)
Lemma rep_link h h' l xs a :
  queue_rep h l → last (FakeHead :: l) = Some a → NoDup xs →
  (∀ x, x ∈ xs → x ∉ l ∧ (∃ i, x = Blk i) ∧ is_Some (h !! x)) →
  lchain (nxt h') (prv h') (a :: xs ++ [FakeTail]) →
  (∀ r, r ∉ a :: xs → nxt h' r = nxt h r) →
  (∀ r, r ∉ xs ++ [FakeTail] → prv h' r = prv h r) →
  (∀ r, is_Some (h !! r) → is_Some (h' !! r)) →
  queue_rep h' (l ++ xs).
Proof.
  intros Hq Ha Hnx Hxs Hc Hn Hp Hal.
  apply last_Some in Ha as [F1 HF1]. pose proof (qr_nodup _ _ Hq) as Hnd.
  assert (full l = F1 ++ a :: [FakeTail]) as Hfl.
  { unfold full. rewrite app_comm_cons, HF1, <-app_assoc. done. }
  assert (full (l ++ xs) = F1 ++ a :: xs ++ [FakeTail]) as Hfx.
  { unfold full. rewrite <-(app_assoc l), app_comm_cons, HF1, <-app_assoc. done. }
  assert (a ≠ FakeTail) as Hat.
  { rewrite Hfl in Hnd. apply NoDup_app in Hnd as (_ & _ & Hnd).
    apply NoDup_cons in Hnd as [Hnd _]. set_solver. }
  assert (NoDup (full (l ++ xs))) as Hndx.
  { unfold full in *. apply NoDup_cons in Hnd as [Hh Hnd]. apply NoDup_app in Hnd as (Hnl & Hd & _).
    rewrite <-app_assoc. apply NoDup_cons. split.
    - intros [?|[Hx|?]%elem_of_app]%elem_of_app; [set_solver| |set_solver].
      apply Hxs in Hx as (_ & [i ?] & _). done.
    - apply NoDup_app. split_and!; [done|..].
      + intros r Hr [Hx|Hx]%elem_of_app; [by apply Hxs in Hx as [? _]|set_solver].
      + apply NoDup_app. split_and!; [done| |apply NoDup_singleton].
        intros r Hr ->%list_elem_of_singleton. by apply Hxs in Hr as (_ & [i ?] & _). }
  assert (∀ r, r ∈ F1 → r ∉ a :: xs ++ [FakeTail]) as Hdis.
  { rewrite Hfx in Hndx. apply NoDup_app in Hndx as (_ & Hd & _). done. }
  split.
  - rewrite Hfx. apply lchain_app. split; [|done].
    pose proof (qr_chain _ _ Hq) as Hc0. rewrite Hfl in Hc0. apply lchain_app in Hc0 as [Hc0 _].
    apply (lchain_ext (nxt h) (prv h)); [|done|..].
    + rewrite Hfl in Hnd. eapply sublist_NoDup; [exact Hnd|]. apply sublist_app; [done|].
      apply sublist_skip, sublist_nil_l.
    + intros r Hr Hl. rewrite last_snoc in Hl. apply Hn.
      assert (r ∈ F1) as HrF by (apply elem_of_app in Hr as [?|?]; set_solver).
      pose proof (Hdis r HrF). set_solver.
    + intros r Hr Hhd. apply Hp. apply elem_of_app in Hr as [Hr | ->%list_elem_of_singleton].
      * pose proof (Hdis r Hr). set_solver.
      * rewrite Hfx in Hndx. apply NoDup_app in Hndx as (_ & _ & Hnx').
        by apply NoDup_cons in Hnx' as [? _].
  - done.
  - rewrite Hn; [apply Hq|]. intros [?|Hx]%elem_of_cons; [by apply Hat|].
    by apply Hxs in Hx as (_ & [i ?] & _).
  - intros r Hr. apply Hal. apply full_in in Hr as [-> | [Hr | ->]].
    + apply (qr_alloc _ _ Hq). set_solver.
    + apply elem_of_app in Hr as [Hr|Hr]; [|by apply Hxs].
      apply (qr_alloc _ _ Hq). rewrite full_in. set_solver.
    + apply (qr_alloc _ _ Hq). rewrite full_in. set_solver.
  - intros i Hi. assert (Blk i ∉ l ∧ Blk i ∉ xs) as [Hil Hix] by set_solver.
    assert (Blk i ≠ a).
    { intros <-. assert (Blk i ∈ FakeHead :: l) as Hin by (rewrite HF1; set_solver). set_solver. }
    rewrite Hn, Hp by set_solver. by apply (qr_off _ _ Hq).
Qed.

(** ** The methods refine list operations *)
Module QueueProps.
Import FreeKVCacheBlockQueue.

(** The queue object [q] holds the free list [l]. *)
Definition queue_inv (q : t) (l : list ref) : Prop :=
  queue_rep (blocks q) l ∧ num_free_blocks q = Z.of_nat (length l).

Ltac links := simpl; autorewrite with links; simpl.

Lemma popleft_correct q x l :
  queue_inv q (x :: l) →
  ∃ q', popleft q = (Ret x, q') ∧ queue_inv q' l ∧ same_data (blocks q) (blocks q').
Proof.
  intros [Hq Hnum]. destruct (rep_neighbours _ [] x l Hq) as (a & b & [= <-] & Hb & Hpx & Hnx).
  destruct (rep_in_blk _ _ x Hq) as [i ->]; [set_solver|].
  pose proof (qr_chain _ _ Hq) as Hc. apply lchain_cons in Hc as (Hfirst & _).
  unfold nxt in Hfirst, Hnx. unfold popleft, bind, next_of, gets. simpl. rewrite Hfirst. simpl.
  rewrite Hnx. simpl. eexists. split; [done|]. split.
  - split; [|simpl in *; lia]. simpl. eapply (rep_unlink _ _ [] (Blk i) l FakeHead b Hq); [done|done|..].
    + intros r. links. destruct (decide (r = Blk i)); [done|]. by destruct (decide (r = FakeHead)).
    + intros r. links. by destruct (decide (r = Blk i)).
    + eauto 10 with links.
  - simpl. eauto 10 with links.
Qed.

Lemma popleft_empty q : queue_inv q [] → popleft q = (Raise ValueError, q).
Proof.
  intros [Hq Hnum]. pose proof (qr_chain _ _ Hq) as [Hfirst _]. unfold nxt in Hfirst.
  unfold popleft, bind, next_of, gets. rewrite Hfirst. by rewrite Hnum.
Qed.

Lemma remove_correct q l1 x l2 :
  queue_inv q (l1 ++ x :: l2) →
  ∃ q', remove x q = (Ret tt, q') ∧ queue_inv q' (l1 ++ l2) ∧ same_data (blocks q) (blocks q').
Proof.
  intros [Hq Hnum]. destruct (rep_neighbours _ l1 x l2 Hq) as (a & b & Ha & Hb & Hpx & Hnx).
  unfold nxt in Hnx. unfold prv in Hpx. unfold remove, bind, prev_of, next_of, gets.
  rewrite Hpx, Hnx. eexists. split; [done|]. split.
  - split; [|simpl in *; rewrite !length_app in *; simpl in *; lia]. simpl.
    eapply (rep_unlink _ _ l1 x l2 a b Hq); [done|done|..].
    + intros r. links. destruct (decide (r = x)); [done|]. by destruct (decide (r = a)).
    + intros r. links. by destruct (decide (r = x)).
    + eauto 10 with links.
  - simpl. eauto 10 with links.
Qed.

(** A block that is not in the queue has no links, and [remove] refuses it. *)
Lemma remove_absent q l i : queue_inv q l → Blk i ∉ l → remove (Blk i) q = (Raise RuntimeError, q).
Proof.
  intros [Hq _] Hi. destruct (qr_off _ _ Hq i Hi) as [Hn Hp]. unfold nxt in Hn. unfold prv in Hp.
  unfold remove, bind, prev_of, next_of, gets. by rewrite Hp.
Qed.

Lemma rep_last h l : queue_rep h l → ∃ a, last (FakeHead :: l) = Some a ∧ prv h FakeTail = Some a.
Proof.
  intros Hq. destruct (full_gap l []) as (F1 & a & b & F2 & H1 & [= <- <-] & Hf & _).
  rewrite app_nil_r in Hf. pose proof (qr_chain _ _ Hq) as Hc. rewrite Hf in Hc.
  apply lchain_app in Hc as [_ Hc]. apply lchain_cons in Hc as (_ & Hp & _).
  exists a. by rewrite H1, last_snoc.
Qed.

Lemma append_loop_spec q xs a :
  NoDup (a :: xs) →
  ∃ q' z, append_loop xs a q = (Ret z, q') ∧ last (a :: xs) = Some z ∧
    num_free_blocks q' = num_free_blocks q ∧
    lchain (nxt (blocks q')) (prv (blocks q')) (a :: xs) ∧
    (∀ r, r ∉ a :: xs → nxt (blocks q') r = nxt (blocks q) r) ∧
    (∀ r, r ∉ xs → prv (blocks q') r = prv (blocks q) r) ∧
    same_data (blocks q) (blocks q').
Proof.
  revert q a. induction xs as [|b xs IH]; intros q a Hnd; simpl.
  - exists q, a. done.
  - apply NoDup_cons in Hnd as [Ha Hnd]. unfold bind, write_prev, write_next, modify.
    set (q1 := on_heap (write a (set_next (Some b))) (on_heap (write b (set_prev (Some a))) q)).
    destruct (IH q1 b Hnd) as (q' & z & Hrun & Hz & Hnum & Hch & Hn & Hp & Hsd).
    exists q', z. split_and!; try done.
    + rewrite Hn by set_solver. subst q1. simpl. links. by rewrite decide_True.
    + apply NoDup_cons in Hnd as [Hb _]. rewrite Hp by done. subst q1. simpl. links.
      by rewrite decide_True.
    + intros r Hr. rewrite Hn by set_solver. subst q1. simpl. links. rewrite decide_False by set_solver.
      done.
    + intros r Hr. rewrite Hp by set_solver. subst q1. simpl. links. by rewrite decide_False by set_solver.
    + eapply same_data_trans; [|exact Hsd]. subst q1. simpl. eauto with links.
Qed.

Lemma lchain_snoc n p l z x :
  lchain n p l → last l = Some z → n z = Some x → p x = Some z → lchain n p (l ++ [x]).
Proof.
  intros Hl [l' ->]%last_Some Hn Hp. rewrite <-app_assoc. apply lchain_app. by split.
Qed.

Lemma append_n_correct q l xs :
  queue_inv q l → NoDup xs →
  (∀ x, x ∈ xs → x ∉ l ∧ (∃ i, x = Blk i) ∧ is_Some (blocks q !! x)) →
  ∃ q', append_n xs q = (Ret tt, q') ∧ queue_inv q' (l ++ xs) ∧ same_data (blocks q) (blocks q').
Proof.
  intros [Hq Hnum] Hnd Hxs. destruct (rep_last _ _ Hq) as (a & Ha & Hpt).
  destruct xs as [|x0 xs0] eqn:Exs; [exists q; by rewrite app_nil_r|]. rewrite <-Exs in *.
  assert (append_n xs = (last <- prev_of FakeTail ;; last_block <- of_option AssertionError last ;;
    last_block <- append_loop xs last_block ;; write_next last_block (Some FakeTail) ;;
    write_prev FakeTail (Some last_block) ;; add_num (Z.of_nat (length xs)))) as ->
    by (by rewrite Exs).
  assert (a ∉ xs) as Hax.
  { intros Hax. destruct (Hxs a Hax) as (Hal & [i ->] & _). apply last_Some in Ha as [F Ha].
    assert (Blk i ∈ FakeHead :: l) as Hin by (rewrite Ha; set_solver). set_solver. }
  assert (FakeTail ∉ a :: xs) as Htail.
  { intros [Heq|Hin]%elem_of_cons.
    - subst a. apply last_Some in Ha as [F Ha]. pose proof (qr_nodup _ _ Hq) as Hn'.
      unfold full in Hn'. rewrite app_comm_cons, Ha in Hn'. rewrite <-app_assoc in Hn'.
      apply NoDup_app in Hn' as (_ & _ & Hn'). apply NoDup_cons in Hn' as [Hn' _]. set_solver.
    - by apply Hxs in Hin as (_ & [i ?] & _). }
  destruct (append_loop_spec q xs a) as (q1 & z & Hrun & Hz & Hnum1 & Hch & Hn & Hp & Hsd);
    [by apply NoDup_cons|].
  unfold prv in Hpt. unfold bind at 1, prev_of, gets. rewrite Hpt. unfold bind, of_option, ret.
  rewrite Hrun. simpl. eexists. split; [done|].
  assert (z ∈ xs) as Hzx.
  { rewrite Exs, last_cons_cons, <-Exs in Hz. apply last_Some in Hz as [? ->]. set_solver. }
  split; [split; [|simpl; rewrite length_app; lia]|].
  - simpl. eapply (rep_link (blocks q) _ l xs a Hq Ha Hnd Hxs).
    + rewrite app_comm_cons. eapply (lchain_snoc _ _ _ z); [|done|..].
      * eapply lchain_ext; [by apply NoDup_cons|exact Hch|..].
        -- intros r Hr Hl. links. rewrite decide_False; [done|]. intros ->. done.
        -- intros r Hr Hh. links. rewrite decide_False; [done|]. intros ->. done.
      * links. by rewrite decide_True.
      * by links.
    + intros r Hr. links. rewrite decide_False by set_solver. by apply Hn.
    + intros r Hr. links. rewrite decide_False by set_solver. apply Hp. set_solver.
    + intros r Hr. do 2 apply write_is_Some. by apply Hsd.
  - simpl. eapply same_data_trans; [exact Hsd|]. eauto with links.
Qed.

(** [append] is [append_n] of one block. *)
Lemma append_as_append_n q l x :
  queue_inv q l → x ≠ FakeTail → ∃ q1 q2, append x q = (Ret tt, q1) ∧ append_n [x] q = (Ret tt, q2) ∧
    num_free_blocks q1 = num_free_blocks q2 ∧
    (∀ r, nxt (blocks q1) r = nxt (blocks q2) r ∧ prv (blocks q1) r = prv (blocks q2) r) ∧
    same_data (blocks q) (blocks q1).
Proof.
  intros [Hq _] Hx. destruct (rep_last _ _ Hq) as (a & _ & Hpt). unfold prv in Hpt.
  unfold append, append_n, append_loop, bind, prev_of, gets. rewrite Hpt. simpl.
  eexists _, _. split_and!; [done|done|done| |simpl; eauto 10 with links].
  intros r. simpl. links. done.
Qed.

Lemma append_correct q l x :
  queue_inv q l → x ∉ l → (∃ i, x = Blk i) → is_Some (blocks q !! x) →
  ∃ q', append x q = (Ret tt, q') ∧ queue_inv q' (l ++ [x]) ∧ same_data (blocks q) (blocks q').
Proof.
  intros Hq Hx [i ->] Hal.
  destruct (append_as_append_n q l (Blk i) Hq) as (q1 & q2 & H1 & H2 & Hnum & Hl & Hsd); [done|].
  destruct (append_n_correct q l [Blk i] Hq) as (q2' & H2' & [Hq2 Hn2] & _);
    [apply NoDup_singleton|by intros x ->%list_elem_of_singleton; eauto|].
  assert (q2' = q2) as -> by congruence.
  exists q1. split_and!; [done| |done]. split; [|congruence].
  destruct Hq2 as [Hc Hnd Ht Hall Hoff]. split.
  - eapply lchain_ext; [done|exact Hc|..]; intros r _ _; apply Hl.
  - done.
  - by rewrite (proj1 (Hl FakeTail)).
  - intros r Hr. apply Hsd. apply full_in in Hr as [-> | [Hr | ->]].
    + apply (qr_alloc _ _ (proj1 Hq)), full_in. auto.
    + apply elem_of_app in Hr as [Hr | ->%list_elem_of_singleton]; [|done].
      apply (qr_alloc _ _ (proj1 Hq)), full_in. auto.
    + apply (qr_alloc _ _ (proj1 Hq)), full_in. auto.
  - intros j Hj. destruct (Hl (Blk j)) as [-> ->]. by apply Hoff.
Qed.

Lemma pop_loop_spec q xs b F :
  NoDup (xs ++ b :: F) → lchain (nxt (blocks q)) (prv (blocks q)) (xs ++ b :: F) →
  ∃ q', pop_loop (length xs) (head (xs ++ b :: F)) q = (Ret (xs, Some b), q') ∧
    num_free_blocks q' = num_free_blocks q ∧
    (∀ r, nxt (blocks q') r = if decide (r ∈ xs) then None else nxt (blocks q) r) ∧
    (∀ r, prv (blocks q') r = if decide (r ∈ xs) then None else prv (blocks q) r) ∧
    same_data (blocks q) (blocks q').
Proof.
  revert q. induction xs as [|x xs IH]; intros q Hnd Hc; simpl.
  - exists q. split_and!; try done; intros r; by rewrite decide_False by set_solver.
  - apply NoDup_cons in Hnd as [Hx Hnd].
    assert (nxt (blocks q) x = head (xs ++ b :: F)) as Hnx.
    { destruct xs as [|y xs]; simpl in Hc |- *; by destruct Hc as (-> & _). }
    assert (lchain (nxt (blocks q)) (prv (blocks q)) (xs ++ b :: F)) as Hc'.
    { destruct xs as [|y xs]; simpl in Hc |- *; by destruct Hc as (_ & _ & ?). }
    unfold bind at 1, next_of, gets. unfold nxt in Hnx. rewrite Hnx.
    set (q1 := on_heap (write x (set_next None)) (on_heap (write x (set_prev None)) q)).
    destruct (IH q1 Hnd) as (q' & Hrun & Hnum & Hn & Hp & Hsd).
    { eapply lchain_ext; [done|exact Hc'|..]; intros r Hr _; subst q1; simpl; links;
        rewrite decide_False; try done; intros ->; done. }
    unfold bind, write_prev, write_next, modify. fold q1. rewrite Hrun. exists q'.
    split_and!; [done|done| | |].
    + intros r. rewrite Hn. subst q1. simpl. links. destruct (decide (r = x)) as [->|].
      * rewrite (decide_True (P := x ∈ x :: xs)) by set_solver. by case_decide.
      * apply decide_ext. set_solver.
    + intros r. rewrite Hp. subst q1. simpl. links. destruct (decide (r = x)) as [->|].
      * rewrite (decide_True (P := x ∈ x :: xs)) by set_solver. by case_decide.
      * apply decide_ext. set_solver.
    + eapply same_data_trans; [|exact Hsd]. subst q1. simpl. eauto with links.
Qed.

Lemma popleft_n_correct q l1 l2 :
  queue_inv q (l1 ++ l2) →
  ∃ q', popleft_n (Z.of_nat (length l1)) q = (Ret l1, q') ∧ queue_inv q' l2 ∧
    same_data (blocks q) (blocks q').
Proof.
  intros [Hq Hnum]. unfold popleft_n. rewrite length_app in Hnum. case_bool_decide as H0.
  { destruct l1; [|simpl in H0; lia]. by exists q. }
  assert (∃ b F, l2 ++ [FakeTail] = b :: F) as (b & F & HF)
    by (destruct l2; simpl; eauto).
  pose proof (qr_chain _ _ Hq) as Hc. pose proof (qr_nodup _ _ Hq) as Hnd.
  unfold full in Hc, Hnd. rewrite <-app_assoc, HF in Hc, Hnd.
  assert (nxt (blocks q) FakeHead = head (l1 ++ b :: F)) as Hfirst.
  { destruct l1 as [|x l1]; simpl in Hc |- *; by destruct Hc as (-> & _). }
  assert (lchain (nxt (blocks q)) (prv (blocks q)) (l1 ++ b :: F)) as Hc'.
  { destruct l1 as [|x l1]; simpl in Hc |- *; by destruct Hc as (_ & _ & ?). }
  apply NoDup_cons in Hnd as [Hh Hnd].
  set (q1 := set_num (num_free_blocks q + - Z.of_nat (length l1)) q).
  destruct (pop_loop_spec q1 l1 b F Hnd Hc') as (q2 & Hrun & Hn2 & Hn & Hp & Hsd).
  unfold nxt in Hfirst. unfold bind at 1, gets, assert_. rewrite bool_decide_true by lia.
  unfold bind, add_num, next_of, modify, gets. simpl. fold q1. rewrite Hfirst, Nat2Z.id, Hrun.
  simpl. eexists. split; [done|].
  assert (∀ r, r ∈ b :: F → r ∉ l1) as Hdis.
  { apply NoDup_app in Hnd as (_ & Hd & _). intros r H1 H2. by apply (Hd r). }
  split; [split|].
  - simpl. split.
    + unfold full. rewrite HF. apply lchain_cons. split_and!.
      * links. done.
      * links. by rewrite decide_True.
      * apply lchain_app in Hc' as [_ Hc'].
        apply NoDup_app in Hnd as (_ & _ & Hnd'). eapply lchain_ext; [done|exact Hc'|..].
        -- intros r Hr _. links. rewrite decide_False by set_solver.
           rewrite Hn, decide_False by auto. done.
        -- intros r Hr Hhd. links. rewrite decide_False by (intros ->; done).
           rewrite Hp, decide_False by auto. done.
    + unfold full. rewrite HF. apply NoDup_cons. split; [set_solver|].
      by apply NoDup_app in Hnd as (_ & _ & ?).
    + links. rewrite Hn. assert (FakeTail ∉ l1) as Ht.
      { apply Hdis. rewrite <-HF. set_solver. }
      rewrite decide_False by done. apply Hq.
    + intros r Hr. do 2 apply write_is_Some. apply Hsd. apply (qr_alloc _ _ Hq).
      rewrite full_in in *. set_solver.
    + intros i Hi. links. rewrite Hn, Hp. destruct (decide (Blk i = b)) as [Hb|Hb].
      { exfalso. apply Hi. assert (Blk i ∈ l2 ++ [FakeTail]) as Hin by (rewrite HF, Hb; set_solver).
        apply elem_of_app in Hin as [?|Hin]; [done|set_solver]. }
      case_decide; [done|]. apply (qr_off _ _ Hq). set_solver.
  - simpl. rewrite Hn2. simpl. lia.
  - simpl. eapply same_data_trans; [exact Hsd|]. eauto with links.
Qed.

Lemma collect_spec q l fuel :
  nxt (blocks q) FakeTail = None → lchain (nxt (blocks q)) (prv (blocks q)) (l ++ [FakeTail]) →
  (length l < fuel)%nat →
  ∃ x, head (l ++ [FakeTail]) = Some x ∧ collect fuel x q = (Ret l, q).
Proof.
  intros Ht. revert fuel. induction l as [|x l IH]; intros fuel Hc Hf.
  - exists FakeTail. split; [done|]. destruct fuel as [|f]; [simpl in Hf; lia|]. simpl.
    unfold bind, next_of, gets. unfold nxt in Ht. by rewrite Ht.
  - exists x. split; [done|]. destruct fuel as [|f]; [simpl in Hf; lia|]. simpl in Hf.
    assert (lchain (nxt (blocks q)) (prv (blocks q)) (l ++ [FakeTail]) ∧
            nxt (blocks q) x = head (l ++ [FakeTail])) as [Hc' Hnx].
    { destruct l as [|y l]; simpl in Hc |- *; naive_solver. }
    destruct (IH f Hc') as (y & Hy & Hrun); [lia|]. rewrite Hy in Hnx. unfold nxt in Hnx.
    simpl. unfold bind, next_of, gets. rewrite Hnx. by rewrite Hrun.
Qed.

Lemma get_all_free_blocks_correct q l :
  queue_inv q l → get_all_free_blocks q = (Ret l, q).
Proof.
  intros [Hq _]. pose proof (qr_chain _ _ Hq) as Hc. unfold full in Hc.
  assert (length l < size (blocks q))%nat as Hsize.
  { assert (full l ⊆+ (map_to_list (blocks q)).*1) as Hsub.
    { apply NoDup_submseteq; [apply Hq|]. intros r Hr.
      destruct (qr_alloc _ _ Hq r Hr) as [b Hb]. apply list_elem_of_fmap.
      exists (r, b). split; [done|]. by apply elem_of_map_to_list. }
    apply submseteq_length in Hsub. rewrite length_fmap, length_map_to_list in Hsub.
    unfold full in Hsub. simpl in Hsub. rewrite length_app in Hsub. simpl in Hsub. lia. }
  assert (lchain (nxt (blocks q)) (prv (blocks q)) (l ++ [FakeTail]) ∧
          nxt (blocks q) FakeHead = head (l ++ [FakeTail])) as [Hc' Hfirst].
  { destruct l as [|y l]; simpl in Hc |- *; naive_solver. }
  destruct (collect_spec q l _ (qr_tail _ _ Hq) Hc' Hsize) as (x & Hx & Hrun).
  rewrite Hx in Hfirst. unfold nxt in Hfirst.
  unfold get_all_free_blocks, bind, next_of, gets, get. rewrite Hfirst. simpl. by rewrite Hrun.
Qed.

(** ** Construction *)
Definition ids (n : Z) : list ref := Blk <$> py_range n.

Lemma ids_get n i : 0 ≤ i < n → list_get (ids n) i = Some (Blk i).
Proof.
  intros Hi. rewrite list_get_lookup by lia. unfold ids, py_range.
  rewrite list_lookup_fmap, lookup_seqZ_lt by lia. simpl. do 2 f_equal. lia.
Qed.

Lemma ids_length n : 0 ≤ n → Z.of_nat (length (ids n)) = n.
Proof. intros. unfold ids, py_range. rewrite length_fmap, length_seqZ. lia. Qed.

Lemma ids_last n : 0 < n → list_get (ids n) (-1) = Some (Blk (n - 1)).
Proof.
  intros Hn. unfold list_get, py_index. rewrite ids_length by lia.
  rewrite bool_decide_false, bool_decide_true by lia. simpl.
  rewrite <-(ids_get n (n - 1)) by lia. rewrite list_get_lookup by lia. done.
Qed.

Lemma lchain_ids n p a m :
  (∀ i, a ≤ i < a + m - 1 → n (Blk i) = Some (Blk (i + 1)) ∧ p (Blk (i + 1)) = Some (Blk i)) →
  lchain n p (Blk <$> seqZ a m).
Proof.
  destruct (Z.le_gt_cases m 0) as [Hm|Hm]; [by rewrite seqZ_nil by lia|].
  revert a. pattern m. apply (Zlt_lower_bound_ind _ 1); [|lia]. clear m Hm.
  intros m IH Hm a H. destruct (decide (m = 1)) as [->|Hm1]; [by rewrite seqZ_cons by lia|].
  rewrite seqZ_cons by lia. specialize (IH (Z.pred m) ltac:(lia) (Z.succ a)).
  rewrite (seqZ_cons (Z.succ a)) in * by lia. csimpl in *. apply lchain_cons.
  destruct (H a) as [H1 H2]; [lia|]. replace (a + 1) with (Z.succ a) in * by lia.
  split_and!; [done|done|]. apply IH. intros i Hi. apply H. lia.
Qed.

(** The links the first loop sets, block by block. *)
Lemma init_links n q :
  0 ≤ n → (∀ i, nxt (blocks q) (Blk i) = None ∧ prv (blocks q) (Blk i) = None) →
  wp (for_each (py_range n) (init_link (ids n) n)) q (λ _ q',
    num_free_blocks q' = num_free_blocks q ∧ same_data (blocks q) (blocks q') ∧
    ∀ i, nxt (blocks q') (Blk i) = (if decide (0 ≤ i < n - 1) then Some (Blk (i + 1)) else None) ∧
         prv (blocks q') (Blk i) = (if decide (0 < i < n) then Some (Blk (i - 1)) else None)).
Proof.
  intros Hn Hnone.
  apply (wp_for_each _ _ q (λ done q',
    num_free_blocks q' = num_free_blocks q ∧ same_data (blocks q) (blocks q') ∧
    ∀ i, nxt (blocks q') (Blk i) =
           (if decide (i ∈ done ∧ i < n - 1) then Some (Blk (i + 1)) else None) ∧
         prv (blocks q') (Blk i) =
           (if decide (i ∈ done ∧ 0 < i) then Some (Blk (i - 1)) else None))).
  - split_and!; try done.
  - intros done i todo q' Hr (Hnum & Hsd & Hl).
    assert (0 ≤ i < n) as Hi.
    { assert (i ∈ py_range n) as Hin by (rewrite Hr; set_solver). unfold py_range in Hin.
      rewrite elem_of_seqZ in Hin. lia. }
    assert (i ∉ done) as Hid.
    { pose proof (NoDup_seqZ 0 n) as Hnd. unfold py_range in Hr. rewrite Hr in Hnd.
      apply NoDup_app in Hnd as (_ & Hd & _). intros H. apply (Hd i H). set_solver. }
    unfold init_link. wp_step. case_bool_decide as H0; case_bool_decide as H1;
      rewrite ?ids_get by lia; unfold write_prev, write_next; simpl; wp_steps;
      rewrite ?ids_get by lia; simpl; wp_steps.
    all: split_and!; [done|simpl; eapply same_data_trans; [exact Hsd|eauto 10 with links]|].
    all: intros j; simpl; links; destruct (Hl j) as [-> ->].
    all: destruct (decide (j = i)) as [->|Hji];
      rewrite ?(decide_True (P := Blk i = Blk i)) by done;
      rewrite ?(decide_False (P := Blk j = Blk i)) by congruence.
    all: split; repeat case_decide; try done; exfalso; set_solver by lia.
  - intros q' (Hnum & Hsd & Hl). split_and!; [done|done|]. intros i.
    destruct (Hl i) as [-> ->]. unfold py_range.
    split; apply decide_ext; rewrite elem_of_seqZ; lia.
Qed.

Lemma queue_init_correct n q :
  0 ≤ n →
  (∀ i, nxt (blocks q) (Blk i) = None ∧ prv (blocks q) (Blk i) = None) →
  (∀ i, 0 ≤ i < n → is_Some (blocks q !! Blk i)) →
  ∃ q', init (ids n) q = (Ret tt, q') ∧ queue_inv q' (ids n) ∧
    ∀ i, block_id (blocks q' !!! Blk i) = block_id (blocks q !!! Blk i) ∧
         ref_cnt (blocks q' !!! Blk i) = ref_cnt (blocks q !!! Blk i) ∧
         block_hash (blocks q' !!! Blk i) = block_hash (blocks q !!! Blk i) ∧
         is_null (blocks q' !!! Blk i) = is_null (blocks q !!! Blk i).
Proof.
  intros Hn Hnone Hal.
  enough (wp (init (ids n)) q (λ _ q', queue_inv q' (ids n) ∧
    ∀ i, block_id (blocks q' !!! Blk i) = block_id (blocks q !!! Blk i) ∧
         ref_cnt (blocks q' !!! Blk i) = ref_cnt (blocks q !!! Blk i) ∧
         block_hash (blocks q' !!! Blk i) = block_hash (blocks q !!! Blk i) ∧
         is_null (blocks q' !!! Blk i) = is_null (blocks q !!! Blk i)))
    as ([] & q' & Hrun & Hpost)%wp_run by eauto.
  unfold init. rewrite ids_length by done. do 3 wp_step.
  eapply wp_mono; [apply init_links; done|]. intros [] q1 (Hnum & Hsd & Hl). simpl in *. do 2 wp_step.
  set (h0 := <[FakeTail := new_block (-1)]> (<[FakeHead := new_block (-1)]> (blocks q1))).
  assert (∀ i, h0 !!! Blk i = blocks q1 !!! Blk i) as Hb0.
  { intros i. subst h0. by rewrite !lookup_total_insert_ne. }
  assert (∀ i, nxt h0 (Blk i) = nxt (blocks q1) (Blk i) ∧ prv h0 (Blk i) = prv (blocks q1) (Blk i))
    as Hl0 by (intros i; unfold nxt, prv; by rewrite Hb0).
  assert (nxt h0 FakeTail = None) as Ht0.
  { unfold nxt. subst h0. by rewrite lookup_total_insert_eq. }
  assert (∀ h', same_data h0 h' → ∀ i,
    block_id (h' !!! Blk i) = block_id (blocks q !!! Blk i) ∧
    ref_cnt (h' !!! Blk i) = ref_cnt (blocks q !!! Blk i) ∧
    block_hash (h' !!! Blk i) = block_hash (blocks q !!! Blk i) ∧
    is_null (h' !!! Blk i) = is_null (blocks q !!! Blk i)) as Hdata.
  { intros h' Hsd' i. destruct (Hsd' (Blk i)) as (?&?&?&?&_), (Hsd (Blk i)) as (?&?&?&?&_).
    rewrite Hb0 in *. split_and!; congruence. }
  assert (∀ h', same_data h0 h' → ∀ r, r ∈ full (ids n) → is_Some (h' !! r)) as Halloc.
  { intros h' Hsd' r Hr. apply Hsd'. subst h0. apply full_in in Hr as [-> | [Hr | ->]].
    - rewrite lookup_insert_ne, lookup_insert_eq by done. eauto.
    - apply list_elem_of_fmap in Hr as (i & -> & Hi). unfold py_range in Hi.
      rewrite elem_of_seqZ in Hi. rewrite !lookup_insert_ne by done. apply Hsd, Hal. lia.
    - rewrite lookup_insert_eq. eauto. }
  assert (NoDup (full (ids n))) as Hnd.
  { unfold full, ids. apply NoDup_cons. split.
    - rewrite elem_of_app, list_elem_of_fmap, list_elem_of_singleton. naive_solver.
    - apply NoDup_app. split_and!; [|intros r (i & -> & _)%list_elem_of_fmap; set_solver
                                    |apply NoDup_singleton].
      apply NoDup_fmap_2; [by intros ?? [=]|apply NoDup_seqZ]. }
  case_bool_decide as H0.
  - rewrite ids_get, ids_last by lia. unfold write_next, write_prev. simpl. wp_steps.
    fold h0. split; [split; [|simpl; rewrite Hnum; by rewrite ids_length]|].
    2:{ apply Hdata. simpl. fold h0. eauto 10 with links. }
    split; [|done| | |].
    + unfold full. replace (FakeHead :: ids n ++ [FakeTail])
        with ([FakeHead] ++ ids n ++ [FakeTail]) by done.
      assert (ids n = Blk 0 :: (Blk <$> seqZ 1 (n - 1))) as Hids.
      { unfold ids, py_range. rewrite seqZ_cons by lia. csimpl. do 3 f_equal; lia. }
      assert (last (ids n) = Some (Blk (n - 1))) as Hlast.
      { unfold ids, py_range. replace n with ((n - 1) + 1) at 1 by lia.
        rewrite seqZ_app by lia. rewrite (seqZ_cons (0 + (n - 1))), (seqZ_nil _ (Z.pred 1)) by lia.
        rewrite fmap_app. csimpl. rewrite last_snoc. done. }
      rewrite Hids. simpl. apply lchain_cons. split_and!; [by links|by links|].
      rewrite app_comm_cons, <-Hids. eapply lchain_snoc; [|exact Hlast|..].
      * unfold ids, py_range. apply lchain_ids. intros i Hi. links. fold h0.
        rewrite !decide_False by (intros [=]; lia).
        destruct (Hl0 i) as [-> _], (Hl0 (i + 1)) as [_ ->].
        destruct (Hl i) as [-> _], (Hl (i + 1)) as [_ ->].
        rewrite !decide_True by lia. split; [done|]. do 2 f_equal. lia.
      * links. by rewrite decide_True.
      * by links.
    + links. fold h0. done.
    + apply Halloc. simpl. fold h0. eauto 10 with links.
    + intros i Hi. links. fold h0. destruct (Hl0 i) as [-> ->]. destruct (Hl i) as [-> ->].
      assert (¬ 0 ≤ i < n) as Hi'.
      { intros Hin. apply Hi, list_elem_of_fmap. exists i. split; [done|].
        unfold py_range. rewrite elem_of_seqZ. lia. }
      rewrite !decide_False by (intros ?; simplify_eq; lia). done.
  - assert (n = 0) as -> by lia. unfold write_next, write_prev. wp_steps. fold h0.
    split; [split; [|simpl; lia]|].
    2:{ apply Hdata. simpl. fold h0. eauto 10 with links. }
    split; [|done| | |].
    + unfold full. simpl. links. done.
    + links. fold h0. done.
    + apply Halloc. simpl. fold h0. eauto 10 with links.
    + intros i Hi. links. fold h0. destruct (Hl0 i) as [-> ->]. destruct (Hl i) as [-> ->].
      by rewrite !decide_False by lia.
Qed.

(** ** The class as an implementation of a list *)
Inductive op :=
  | OPopleft
  | OPopleftN (n : Z)
  | ORemove (x : ref)
  | OAppend (x : ref)
  | OAppendN (xs : list ref)
  | OGetAll.

Definition run_op (o : op) : M t (list ref) :=
  match o with
  | OPopleft => x <- popleft ;; ret [x]
  | OPopleftN n => popleft_n n
  | ORemove x => remove x ;; ret []
  | OAppend x => append x ;; ret []
  | OAppendN xs => append_n xs ;; ret []
  | OGetAll => get_all_free_blocks
  end.

(** What the operation does to the list of free blocks. *)
Definition spec_op (o : op) (l : list ref) : outcome (list ref) * list ref :=
  match o with
  | OPopleft => match l with [] => (Raise ValueError, []) | x :: l' => (Ret [x], l') end
  | OPopleftN n =>
      if bool_decide (n ≤ Z.of_nat (length l))
      then (Ret (take (Z.to_nat n) l), drop (Z.to_nat n) l) else (Raise AssertionError, l)
  | ORemove x =>
      if bool_decide (x ∈ l) then (Ret [], filter (.≠ x) l) else (Raise RuntimeError, l)
  | OAppend x => (Ret [], l ++ [x])
  | OAppendN xs => (Ret [], l ++ xs)
  | OGetAll => (Ret l, l)
  end.

(** Callers append blocks that are not in the queue, and count from zero up. *)
Definition allowed (o : op) (q : t) (l : list ref) : Prop :=
  let fresh x := x ∉ l ∧ (∃ i, x = Blk i) ∧ is_Some (blocks q !! x) in
  match o with
  | OPopleftN n => 0 ≤ n
  | ORemove x => ∃ i, x = Blk i
  | OAppend x => fresh x
  | OAppendN xs => NoDup xs ∧ ∀ x, x ∈ xs → fresh x
  | OPopleft | OGetAll => True
  end.

Lemma filter_split (x : ref) l1 l2 : NoDup (l1 ++ x :: l2) → filter (.≠ x) (l1 ++ x :: l2) = l1 ++ l2.
Proof.
  intros Hnd. apply NoDup_app in Hnd as (_ & Hd & Hnd). apply NoDup_cons in Hnd as [Hx _].
  assert (∀ l : list ref, x ∉ l → filter (.≠ x) l = l) as Hid.
  { intros l Hl. apply filter_all. set_solver. }
  rewrite filter_app, filter_cons, decide_False by tauto. rewrite !Hid; [done| |]; set_solver.
Qed.

(** C13: every method of [FreeKVCacheBlockQueue] implements its list operation:
    from a queue that holds the list [l], it returns what the operation on [l]
    returns (the errors on an empty or too short queue and on a block that is
    not in it included), leaves the queue holding the resulting list, with the
    count right and every block's other attributes untouched. *)
Theorem queue_refines_list o q l :
  queue_inv q l → allowed o q l →
  ∃ q', run_op o q = ((spec_op o l).1, q') ∧ queue_inv q' (spec_op o l).2 ∧
    same_data (blocks q) (blocks q').
Proof.
  intros Hq Hok. destruct o as [|n|x|x|xs|]; simpl in *.
  - destruct l as [|x l].
    + exists q. unfold bind. rewrite popleft_empty by done. split_and!; done.
    + destruct (popleft_correct q x l Hq) as (q' & Hrun & Hq' & Hsd).
      exists q'. unfold bind. by rewrite Hrun.
  - case_bool_decide as Hn; simpl.
    + assert (queue_inv q (take (Z.to_nat n) l ++ drop (Z.to_nat n) l)) as Hq'
        by by rewrite take_drop.
      destruct (popleft_n_correct q _ _ Hq') as (q' & Hrun & Hq'' & Hsd).
      rewrite length_take in Hrun. replace (Z.of_nat (Z.to_nat n `min` length l)) with n in Hrun by lia.
      by exists q'.
    + exists q. split_and!; [|done|done]. destruct Hq as [_ Hnum].
      unfold popleft_n, bind, gets, assert_. rewrite bool_decide_false by lia. cbn beta iota.
      rewrite Hnum, bool_decide_false by lia. done.
  - destruct Hok as [i ->]. case_bool_decide as Hx; simpl.
    + apply list_elem_of_split in Hx as (l1 & l2 & ->).
      destruct (remove_correct q l1 (Blk i) l2 Hq) as (q' & Hrun & Hq' & Hsd).
      exists q'. unfold bind. rewrite Hrun. rewrite filter_split; [done|].
      destruct Hq as [Hq _]. pose proof (qr_nodup _ _ Hq) as Hnd. unfold full in Hnd.
      apply NoDup_cons in Hnd as [_ Hnd]. by apply NoDup_app in Hnd as [? _].
    + exists q. unfold bind. by erewrite remove_absent.
  - destruct Hok as (Hx & Hi & Ha). destruct (append_correct q l x Hq Hx Hi Ha) as (q' & Hrun & ?).
    exists q'. unfold bind. by rewrite Hrun.
  - destruct Hok as [Hnd Hxs]. destruct (append_n_correct q l xs Hq Hnd Hxs) as (q' & Hrun & ?).
    exists q'. unfold bind. by rewrite Hrun.
  - exists q. by rewrite (get_all_free_blocks_correct q l).
Qed.

(** A pool of four fresh blocks. *)
Definition demo_heap : heap :=
  list_to_map ((λ i, (Blk i, new_block i)) <$> py_range 4).
Definition demo_queue : t := (init (ids 4) (mk demo_heap 0)).2.

Lemma demo_queue_inv : queue_inv demo_queue (ids 4).
Proof.
  destruct (queue_init_correct 4 (mk demo_heap 0)) as (q' & Hrun & Hq & _).
  - lia.
  - intros i. unfold nxt, prv. simpl. unfold lookup_total, map_lookup_total.
    destruct (demo_heap !! Blk i) as [b|] eqn:Hb; [|done].
    apply elem_of_list_to_map_2, list_elem_of_fmap in Hb as (j & [= -> ->] & _). done.
  - intros i Hi. assert (i = 0 ∨ i = 1 ∨ i = 2 ∨ i = 3) as [-> | [-> | [-> | ->]]] by lia;
      vm_compute; by eexists.
  - unfold demo_queue. by rewrite Hrun.
Qed.

Lemma queue_refines_list_witness :
  ∃ q', run_op (OPopleftN 3) demo_queue = (Ret [Blk 0; Blk 1; Blk 2], q') ∧
    queue_inv q' [Blk 3] ∧ same_data (blocks demo_queue) (blocks q').
Proof. apply (queue_refines_list (OPopleftN 3) demo_queue (ids 4) demo_queue_inv). simpl. lia. Defined.
End QueueProps.
