(* ===== verification/BlockHash.v ===== *)
(** * Block hashing for prefix caching

    The hash-key helpers, the extra hash keys, [hash_block_tokens], the request
    block hasher, [BlockHashListWithBlockSize] and
    [resolve_kv_cache_block_sizes] of src/vllm/v1/core/kv_cache_utils.py. The
    hash function ([sha256], [xxhash], their cbor variants) and the digest of a
    slice of prompt embeddings come from libraries and are parameters. *)

From S2P Require Import Prelude FreeQueue.

Open Scope Z_scope.

(** ** Packing a hash with its group id *)

(** [n.to_bytes(4, "big", signed=False)] *)
Definition to_bytes4 (n : Z) : outcome bytes :=
  if bool_decide (0 ≤ n < 2 ^ 32)
  then Ret [Z.land (Z.shiftr n 24) 255; Z.land (Z.shiftr n 16) 255;
            Z.land (Z.shiftr n 8) 255; Z.land n 255]
  else Raise OverflowError.

(** [int.from_bytes(b, "big", signed=False)] *)
Definition from_bytes (b : bytes) : Z := fold_left (λ a x, Z.lor (Z.shiftl a 8) x) b 0.

Definition make_block_hash_with_group_id (block_hash : bytes) (group_id : Z) : outcome bytes :=
  match to_bytes4 group_id with
  | Ret g => Ret (block_hash ++ g)
  | Raise e => Raise e
  end.

(** [key[:-4]] and [key[-4:]] *)
Definition get_block_hash (key : bytes) : bytes := take (length key - 4) key.
Definition get_group_id (key : bytes) : Z := from_bytes (drop (length key - 4) key).

(** [VLLM_KV_EVENTS_USE_INT_BLOCK_HASHES] selects the second form. *)
Inductive ExternalBlockHash := ExtBytes (b : bytes) | ExtInt (n : Z).

Definition maybe_convert_block_hash (use_int : bool) (hash_bytes : bytes) : ExternalBlockHash :=
  if use_int then ExtInt (Z.land (from_bytes hash_bytes) (Z.shiftl 1 64 - 1)) else ExtBytes hash_bytes.

(** ** Requests, as far as hashing reads them *)
Record PlaceholderRange := mkRange { offset : Z; length_ : Z }.
Record MultiModalFeature := mkFeature { identifier : option string; mm_position : PlaceholderRange }.
Record LoRARequest := mkLora { adapter_id : Z; lora_name : string }.

(** A row of [prompt_embeds] is a number; the rows of a block are only ever digested. *)
Record Request := mkRequest {
  all_token_ids : list Z;
  block_hashes : list bytes;
  mm_features : list MultiModalFeature;
  lora_request : option LoRARequest;
  cache_salt : option string;
  prompt_embeds : option (list Z);
  prompt_embeds_per_block_hashes : gmap (Z * Z) bytes
}.

Definition set_embeds_cache (c : gmap (Z * Z) bytes) (r : Request) : Request :=
  mkRequest (all_token_ids r) (block_hashes r) (mm_features r) (lora_request r) (cache_salt r)
    (prompt_embeds r) c.
Definition set_block_hashes (hs : list bytes) (r : Request) : Request :=
  mkRequest (all_token_ids r) hs (mm_features r) (lora_request r) (cache_salt r)
    (prompt_embeds r) (prompt_embeds_per_block_hashes r).
Definition set_tokens (ts : list Z) (r : Request) : Request :=
  mkRequest ts (block_hashes r) (mm_features r) (lora_request r) (cache_salt r)
    (prompt_embeds r) (prompt_embeds_per_block_hashes r).

Definition num_tokens (r : Request) : Z := Z.of_nat (length (all_token_ids r)).

(** The elements of the extra-keys tuple, as Python values: the tuple does not
    record where an element comes from. *)
Inductive extra_key :=
  | KStr (s : string)
  | KPair (identifier : string) (offset : Z)
  | KBytes (b : bytes).

#[global] Instance extra_key_eq_dec : EqDecision extra_key.
Proof. solve_decision. Defined.

Definition need_extra_keys (r : Request) : bool :=
  bool_decide (mm_features r ≠ []) || bool_decide (is_Some (lora_request r)) ||
  bool_decide (is_Some (cache_salt r)).

#[global] Instance PlaceholderRange_eq_dec : EqDecision PlaceholderRange.
Proof. solve_decision. Defined.

#[global] Instance MultiModalFeature_eq_dec : EqDecision MultiModalFeature.
Proof. solve_decision. Defined.

(** The loop over the features from [curr_mm_idx] on. *)
Fixpoint mm_loop (start_token_idx end_token_idx : Z) (fs : list MultiModalFeature) (curr_mm_idx : Z)
    : outcome (list extra_key * Z) :=
  match fs with
  | [] => Ret ([], curr_mm_idx)
  | f :: fs' =>
      match identifier f with
      | None => Raise AssertionError
      | Some id =>
          let off := offset (mm_position f) in
          let len := length_ (mm_position f) in
          if bool_decide (off < end_token_idx) then
            if bool_decide (off + len ≤ start_token_idx) then
              mm_loop start_token_idx end_token_idx fs' (curr_mm_idx + 1)
            else
              let k := KPair id (off - start_token_idx) in
              if bool_decide (off + len ≤ end_token_idx) then
                match mm_loop start_token_idx end_token_idx fs' (curr_mm_idx + 1) with
                | Ret (ks, i) => Ret (k :: ks, i)
                | Raise e => Raise e
                end
              else Ret ([k], curr_mm_idx)
          else Ret ([], curr_mm_idx)
      end
  end.

Definition _gen_mm_extra_hash_keys (r : Request) (start_token_idx end_token_idx start_mm_idx : Z)
    : outcome (list extra_key * Z) :=
  let n := Z.of_nat (length (mm_features r)) in
  match last (mm_features r) with
  | None => Ret ([], start_mm_idx)
  | Some l =>
      let last_pos := mm_position l in
      if bool_decide (offset last_pos + length_ last_pos ≤ start_token_idx)
      then Ret ([], start_mm_idx)
      else if bool_decide (start_mm_idx < 0) then
        if bool_decide (- start_mm_idx ≤ n)
        then mm_loop start_token_idx end_token_idx
               (drop (Z.to_nat (n + start_mm_idx)) (mm_features r)) (n + start_mm_idx)
        else Raise AssertionError
      else mm_loop start_token_idx end_token_idx
             (drop (Z.to_nat start_mm_idx) (mm_features r)) start_mm_idx
  end.

Definition _gen_lora_extra_hash_keys (r : Request) : list extra_key :=
  match lora_request r with
  | None => []
  | Some l => [KStr (lora_name l)]
  end.

Section hashing.
(** [hashlib.sha256(tensor_data(rows)).digest()] *)
Context (embeds_digest : list Z → bytes).

Definition _gen_prompt_embeds_extra_hash_keys (start_token_idx end_token_idx : Z)
    : M Request (list extra_key) :=
  r <- get ;;
  match prompt_embeds r with
  | None => ret []
  | Some embeds =>
      match prompt_embeds_per_block_hashes r !! (start_token_idx, end_token_idx) with
      | Some h => ret [KBytes h]
      | None =>
          let h := embeds_digest (py_slice embeds start_token_idx end_token_idx) in
          modify (λ r, set_embeds_cache
            (<[(start_token_idx, end_token_idx) := h]> (prompt_embeds_per_block_hashes r)) r) ;;
          ret [KBytes h]
      end
  end.

(** [[request.cache_salt] if (start_token_idx == 0 and request.cache_salt) else []] *)
Definition cache_salt_keys (r : Request) (start_token_idx : Z) : list extra_key :=
  match cache_salt r with
  | Some salt => if bool_decide (start_token_idx = 0 ∧ salt ≠ EmptyString) then [KStr salt] else []
  | None => []
  end.

Definition generate_block_hash_extra_keys (start_token_idx end_token_idx start_mm_idx : Z)
    : M Request (option (list extra_key) * Z) :=
  r <- get ;;
  '(mm_keys, new_start_mm_idx) <-
    of_outcome (_gen_mm_extra_hash_keys r start_token_idx end_token_idx start_mm_idx) ;;
  let lora_keys := _gen_lora_extra_hash_keys r in
  let salt_keys := cache_salt_keys r start_token_idx in
  embeds_keys <- _gen_prompt_embeds_extra_hash_keys start_token_idx end_token_idx ;;
  let extra_keys := lora_keys ++ mm_keys ++ salt_keys ++ embeds_keys in
  match extra_keys with
  | [] => ret (None, new_start_mm_idx)
  | _ => ret (Some extra_keys, new_start_mm_idx)
  end.

(** The hash function, on the tuple it is given, and the seed. *)
Context (hash_function : bytes * list Z * option (list extra_key) → bytes) (NONE_HASH : bytes).

Definition hash_block_tokens (parent_block_hash : option bytes) (curr_block_token_ids : list Z)
    (extra_keys : option (list extra_key)) : bytes :=
  let parent :=
    match parent_block_hash with
    | Some (x :: b) => x :: b
    | _ => NONE_HASH
    end in
  hash_function (parent, curr_block_token_ids, extra_keys).

(** [x[lo:hi]] for [0 <= lo <= hi] *)
Definition token_slice (x : list Z) (lo hi : Z) : list Z :=
  take (Z.to_nat (hi - lo)) (drop (Z.to_nat lo) x).

(** The [while True] loop; every iteration advances by [block_size], so
    [num_tokens + 1] iterations are enough. *)
Fixpoint hasher_loop (fuel : nat) (block_size start_token_idx curr_mm_idx : Z)
    (prev : option bytes) : M Request (list bytes) :=
  match fuel with
  | O => raise StopIteration
  | S f =>
      r <- get ;;
      let end_token_idx := start_token_idx + block_size in
      if bool_decide (num_tokens r < end_token_idx) then ret []
      else
        '(extra_keys, curr_mm_idx) <-
          generate_block_hash_extra_keys start_token_idx end_token_idx curr_mm_idx ;;
        let block_tokens := token_slice (all_token_ids r) start_token_idx end_token_idx in
        let block_hash := hash_block_tokens prev block_tokens extra_keys in
        rest <- hasher_loop f block_size end_token_idx curr_mm_idx (Some block_hash) ;;
        ret (block_hash :: rest)
  end.

Definition request_block_hasher (block_size : Z) : M Request (list bytes) :=
  r <- get ;;
  let start_token_idx := Z.of_nat (length (block_hashes r)) * block_size in
  if bool_decide (num_tokens r < start_token_idx + block_size) then ret []
  else
    let curr_mm_idx := if bool_decide (0 < start_token_idx) then -1 else 0 in
    hasher_loop (S (length (all_token_ids r))) block_size start_token_idx curr_mm_idx
      (last (block_hashes r)).
End hashing.

(** ** Hashes at a coarser block size *)
Module BlockHashListWithBlockSize.
Record t := mk { base_hashes : list bytes; scale_factor : Z }.

Definition init (block_hashes : list bytes) (hash_block_size target_block_size : Z) : outcome t :=
  if bool_decide (hash_block_size = 0) then Raise ZeroDivisionError
  else if bool_decide (target_block_size `mod` hash_block_size ≠ 0) then Raise AssertionError
  else Ret (mk block_hashes (target_block_size / hash_block_size)).

Definition len (x : t) : outcome Z :=
  if bool_decide (scale_factor x = 0) then Raise ZeroDivisionError
  else Ret (Z.of_nat (length (base_hashes x)) / scale_factor x).

Definition _get_value_at (x : t) (idx : Z) : bytes :=
  let base := idx * scale_factor x in
  let end_ := base + scale_factor x in
  concat (py_slice (base_hashes x) base end_).

(** [x[idx]] and [x[start:]] *)
Definition getitem (x : t) (idx : Z) : bytes := _get_value_at x idx.
Definition getitem_from (x : t) (start : Z) : outcome (list bytes) :=
  match len x with
  | Raise e => Raise e
  | Ret n => Ret (_get_value_at x <$> seqZ (py_clip n start) (n - py_clip n start))
  end.

(** [__iter__] *)
Definition iter (x : t) : outcome (list bytes) :=
  match len x with
  | Raise e => Raise e
  | Ret n => Ret (_get_value_at x <$> py_range n)
  end.
End BlockHashListWithBlockSize.

(** ** Scheduler and hash block sizes *)
Record group_spec := mkGroup { gs_block_size : Z; gs_is_mamba : bool }.
Record sizes_config := mkSizes {
  sc_block_size : Z;
  sc_hash_block_size : option Z;
  sc_enable_prefix_caching : bool;
  sc_connector_enabled : bool;
  sc_dcp : Z;
  sc_pcp : Z
}.

(** [math.lcm], [math.gcd] of several integers *)
Definition lcm_list (l : list Z) : Z := foldr Z.lcm 1 l.
Definition gcd_list (l : list Z) : Z := foldr Z.gcd 0 l.

Definition resolve_kv_cache_block_sizes (groups : list group_spec) (c : sizes_config)
    : outcome (Z * Z) :=
  if bool_decide (length groups ≤ 1)%nat then
    let bs := sc_block_size c * sc_dcp c * sc_pcp c in Ret (bs, bs)
  else if bool_decide (sc_dcp c ≠ 1 ∨ sc_pcp c ≠ 1) then Raise ValueError
  else
    let group_block_sizes := gs_block_size <$> groups in
    let scheduler_block_size := lcm_list group_block_sizes in
    if negb (sc_enable_prefix_caching c || sc_connector_enabled c)
    then Ret (scheduler_block_size, scheduler_block_size)
    else if existsb (λ g, gs_is_mamba g && negb (bool_decide (gs_block_size g = sc_block_size c))) groups
    then Ret (scheduler_block_size, scheduler_block_size)
    else
      let hash_block_size := default (gcd_list group_block_sizes) (sc_hash_block_size c) in
      if bool_decide (hash_block_size = 0) then Raise ZeroDivisionError
      else if existsb (λ bs, negb (bool_decide (bs `mod` hash_block_size = 0))) group_block_sizes
      then Raise ValueError
      else Ret (scheduler_block_size, hash_block_size).

(** ** Properties: keys *)

(** A byte string holds bytes. *)
Definition is_bytes (b : bytes) : Prop := Forall (λ x, 0 ≤ x < 256) b.

(** Appending a byte to a big-endian number. *)
Lemma lor_shiftl_byte a b : 0 ≤ b < 256 → Z.lor (Z.shiftl a 8) b = a * 256 + b.
Proof.
  intros Hb. rewrite <-Z.add_nocarry_lor.
  - by rewrite Z.shiftl_mul_pow2 by lia.
  - apply Z.bits_inj'. intros i Hi. rewrite Z.land_spec, Z.bits_0, Z.shiftl_spec by done.
    destruct (Z.lt_ge_cases i 8); [by rewrite Z.testbit_neg_r by lia|].
    replace b with (b mod 2 ^ 8) by (apply Z.mod_small; lia).
    rewrite Z.mod_pow2_bits_high by lia. apply andb_false_r.
Qed.

Lemma from_bytes_snoc b x : 0 ≤ x < 256 → from_bytes (b ++ [x]) = from_bytes b * 256 + x.
Proof. intros Hx. unfold from_bytes. rewrite fold_left_app. simpl. by apply lor_shiftl_byte. Qed.

Lemma to_bytes4_from_bytes n : 0 ≤ n < 2 ^ 32 →
  ∃ g, to_bytes4 n = Ret g ∧ length g = 4%nat ∧ from_bytes g = n ∧ is_bytes g.
Proof.
  intros Hn. unfold to_bytes4. rewrite bool_decide_true by done. eexists. split; [done|].
  split; [done|]. change 255 with (Z.ones 8). rewrite !Z.land_ones by lia.
  assert (∀ a, 0 ≤ a mod 2 ^ 8 < 256) as Hm by (intros a; apply Z.mod_pos_bound; lia).
  split; [|repeat constructor; apply Hm].
  change [?a; ?b; ?c; ?d] with (((([] ++ [a]) ++ [b]) ++ [c]) ++ [d]).
  rewrite !from_bytes_snoc by apply Hm. change (from_bytes []) with 0.
  rewrite !Z.shiftr_div_pow2 by lia. pose proof (Z.div_mod n (2 ^ 8)).
  pose proof (Z.div_mod (n / 2 ^ 8) (2 ^ 8)). pose proof (Z.div_mod (n / 2 ^ 16) (2 ^ 8)).
  assert (n / 2 ^ 8 / 2 ^ 8 = n / 2 ^ 16) by (by rewrite Z.div_div by lia).
  assert (n / 2 ^ 16 / 2 ^ 8 = n / 2 ^ 24) by (by rewrite Z.div_div by lia).
  assert (0 ≤ n / 2 ^ 24 < 256) by (split; [apply Z.div_pos; lia|apply Z.div_lt_upper_bound; lia]).
  rewrite (Z.mod_small (n / 2 ^ 24)) by lia. lia.
Qed.

Lemma pack_parts (h g : bytes) : length g = 4%nat →
  get_block_hash (h ++ g) = h ∧ get_group_id (h ++ g) = from_bytes g.
Proof.
  intros Hg. unfold get_block_hash, get_group_id. rewrite length_app.
  replace (length h + length g - 4)%nat with (length h) by lia.
  by rewrite take_app_length, drop_app_length.
Qed.

(** C14: a block hash packed with a group id that fits 32 bits unpacks to the
    same hash and group id, whatever the length of the hash; a group id that
    does not fit is refused with [OverflowError]. *)
Theorem block_hash_key_roundtrip h g :
  match make_block_hash_with_group_id h g with
  | Ret key => 0 ≤ g < 2 ^ 32 ∧ get_block_hash key = h ∧ get_group_id key = g ∧
               length key = (length h + 4)%nat
  | Raise e => e = OverflowError ∧ ¬ 0 ≤ g < 2 ^ 32
  end.
Proof.
  unfold make_block_hash_with_group_id. destruct (decide (0 ≤ g < 2 ^ 32)) as [Hg|Hg].
  - destruct (to_bytes4_from_bytes g Hg) as (b & -> & Hlen & Hfb & _).
    destruct (pack_parts h b Hlen) as [-> ->]. rewrite length_app. split_and!; try done; lia.
  - unfold to_bytes4. by rewrite bool_decide_false.
Qed.

Lemma pack_inj h1 g1 h2 g2 k :
  make_block_hash_with_group_id h1 g1 = Ret k → make_block_hash_with_group_id h2 g2 = Ret k →
  h1 = h2 ∧ g1 = g2.
Proof.
  assert (∀ h g, make_block_hash_with_group_id h g = Ret k → get_block_hash k = h ∧ get_group_id k = g)
    as H.
  { intros h g. unfold make_block_hash_with_group_id. destruct (decide (0 ≤ g < 2 ^ 32)) as [Hg|Hg].
    - destruct (to_bytes4_from_bytes g Hg) as (b & -> & Hlen & Hfb & _). intros [= <-].
      destruct (pack_parts h b Hlen) as [-> ->]. done.
    - unfold to_bytes4. by rewrite bool_decide_false. }
  intros [<- <-]%H [<- <-]%H. done.
Qed.

(** ** Properties: the hash of a block determines its prefix *)
Section soundness.
Context (embeds_digest : list Z → bytes)
  (hash_function : bytes * list Z * option (list extra_key) → bytes) (NONE_HASH : bytes).
Notation hasher_loop := (hasher_loop embeds_digest hash_function NONE_HASH).
Notation request_block_hasher := (request_block_hasher embeds_digest hash_function NONE_HASH).
Notation hash_block_tokens := (hash_block_tokens hash_function NONE_HASH).

(** The chain of hashes over a list of blocks with their extra keys. *)
Fixpoint chain_hash (prev : option bytes) (cs : list (list Z * option (list extra_key)))
    : list bytes :=
  match cs with
  | [] => []
  | (ts, ks) :: cs' =>
      let h := hash_block_tokens prev ts ks in h :: chain_hash (Some h) cs'
  end.

(** The full blocks of [ts] from token [start] on. *)
Fixpoint blocks_from (n : nat) (bs start : Z) (ts : list Z) : list (list Z) :=
  match n with
  | O => []
  | S n' => token_slice ts start (start + bs) :: blocks_from n' bs (start + bs) ts
  end.

Definition full_blocks (bs start : Z) (ts : list Z) : nat :=
  Z.to_nat ((Z.of_nat (length ts) - start) / bs).

Lemma full_blocks_0 bs start ts :
  0 < bs → Z.of_nat (length ts) < start + bs → full_blocks bs start ts = 0%nat.
Proof.
  intros Hbs Hlt. unfold full_blocks. destruct (Z.le_gt_cases start (Z.of_nat (length ts))).
  - rewrite Z.div_small by lia. done.
  - assert ((Z.of_nat (length ts) - start) / bs < 0) by (apply Z.div_lt_upper_bound; lia). lia.
Qed.

Lemma full_blocks_S bs start ts :
  0 < bs → start + bs ≤ Z.of_nat (length ts) →
  full_blocks bs start ts = S (full_blocks bs (start + bs) ts).
Proof.
  intros Hbs Hle. unfold full_blocks.
  replace (Z.of_nat (length ts) - start) with (Z.of_nat (length ts) - (start + bs) + 1 * bs) by lia.
  rewrite Z.div_add by lia.
  assert (0 ≤ (Z.of_nat (length ts) - (start + bs)) / bs) by (apply Z.div_pos; lia). lia.
Qed.

(** What the extra-key generators leave alone. *)
Definition same_request (r r' : Request) : Prop :=
  ∃ c, r' = set_embeds_cache c r.

Lemma same_request_refl r : same_request r r.
Proof. exists (prompt_embeds_per_block_hashes r). by destruct r. Qed.
Lemma same_request_trans r1 r2 r3 : same_request r1 r2 → same_request r2 r3 → same_request r1 r3.
Proof. intros [c ->] [c' ->]. by exists c'. Qed.

Lemma extra_keys_same s e i r o r' :
  generate_block_hash_extra_keys embeds_digest s e i r = (o, r') → same_request r r'.
Proof.
  unfold generate_block_hash_extra_keys, bind, get, of_outcome, ret, raise.
  destruct (_gen_mm_extra_hash_keys r s e i) as [[ks j]|ex]; [|intros [= _ <-]; apply same_request_refl].
  unfold _gen_prompt_embeds_extra_hash_keys, bind, get, ret, modify.
  destruct (prompt_embeds r) as [embeds|].
  - destruct (prompt_embeds_per_block_hashes r !! (s, e)).
    + case_match; intros [= _ <-]; apply same_request_refl.
    + case_match; intros [= _ <-]; by eexists.
  - case_match; intros [= _ <-]; apply same_request_refl.
Qed.

(** Whatever the extra keys are, the loop returns the chain over the full
    blocks of the tokens. *)
Lemma hasher_loop_chain fuel bs start mm prev r hs r' :
  0 < bs → hasher_loop fuel bs start mm prev r = (Ret hs, r') →
  same_request r r' ∧
  ∃ ks, length ks = full_blocks bs start (all_token_ids r) ∧
    hs = chain_hash prev (zip (blocks_from (length ks) bs start (all_token_ids r)) ks).
Proof.
  intros Hbs. revert start mm prev r hs. induction fuel as [|f IH]; intros start mm prev r hs; simpl;
    [done|]. unfold bind, get, ret.
  case_bool_decide as Hend.
  { intros [= <- <-]. split; [apply same_request_refl|]. exists [].
    unfold num_tokens in Hend. by rewrite full_blocks_0. }
  destruct (generate_block_hash_extra_keys _ _ _ _ r) as [[[ek mm']|ex] r1] eqn:Hg; [|done].
  apply extra_keys_same in Hg. set (h := hash_block_tokens prev _ _).
  destruct (hasher_loop f bs (start + bs) mm' (Some h) r1) as [[rest|ex] r2] eqn:Hr; [|done].
  intros [= <- <-]. apply IH in Hr as (Hs2 & ks & Hlen & ->).
  assert (all_token_ids r1 = all_token_ids r) as Ht by (by destruct Hg as [c ->]).
  split; [by eapply same_request_trans|]. exists (ek :: ks). simpl. rewrite Ht in *.
  unfold num_tokens in Hend. by rewrite full_blocks_S, Hlen by lia.
Qed.

(** Assumptions on the hash function: no collisions, no empty digest, and the
    seed is not a digest. *)
Context (hash_inj : ∀ x y, hash_function x = hash_function y → x = y)
  (hash_nonempty : ∀ x, hash_function x ≠ [])
  (seed_fresh : ∀ x, hash_function x ≠ NONE_HASH).

Lemma hash_block_inj p1 t1 k1 p2 t2 k2 :
  (∀ b, p1 = Some b → ∃ x, b = hash_function x) → (∀ b, p2 = Some b → ∃ x, b = hash_function x) →
  hash_block_tokens p1 t1 k1 = hash_block_tokens p2 t2 k2 → p1 = p2 ∧ t1 = t2 ∧ k1 = k2.
Proof.
  intros H1 H2 Heq. unfold hash_block_tokens in Heq. apply hash_inj in Heq. injection Heq as Hp Ht Hk.
  split_and!; [|done..].
  destruct p1 as [b1|], p2 as [b2|]; [| | |done].
  - destruct (H1 _ eq_refl) as [x1 ->], (H2 _ eq_refl) as [x2 ->].
    destruct (hash_function x1) eqn:E1; [by destruct (hash_nonempty x1)|].
    destruct (hash_function x2) eqn:E2; [by destruct (hash_nonempty x2)|]. congruence.
  - destruct (H1 _ eq_refl) as [x1 ->]. destruct (hash_function x1) eqn:E1;
      [by destruct (hash_nonempty x1)|]. by destruct (seed_fresh x1); rewrite E1.
  - destruct (H2 _ eq_refl) as [x2 ->]. destruct (hash_function x2) eqn:E2;
      [by destruct (hash_nonempty x2)|]. by destruct (seed_fresh x2); rewrite E2.
Qed.

(** The hash before position [i] of a chain. *)
Definition before (prev : option bytes) (hs : list bytes) (i : nat) : option bytes :=
  match i with O => prev | S j => hs !! j end.

Lemma chain_hash_lookup prev cs i h :
  chain_hash prev cs !! i = Some h →
  ∃ ts ks, cs !! i = Some (ts, ks) ∧
    h = hash_block_tokens (before prev (chain_hash prev cs) i) ts ks.
Proof.
  revert prev i. induction cs as [|[ts ks] cs IH]; intros prev i; [done|].
  destruct i as [|i]; simpl.
  - intros [= <-]. by exists ts, ks.
  - intros Hi. destruct (IH _ _ Hi) as (t' & k' & Hc & ->). exists t', k'. split; [done|]. by destruct i.
Qed.

Lemma before_hash cs i b :
  before None (chain_hash None cs) i = Some b → ∃ x, b = hash_function x.
Proof.
  destruct i as [|j]; [done|]. simpl. intros (ts & ks & _ & ->)%chain_hash_lookup.
  unfold hash_block_tokens. by eexists.
Qed.

Lemma chain_hash_inj c1 c2 i j h :
  chain_hash None c1 !! i = Some h → chain_hash None c2 !! j = Some h →
  i = j ∧ take (S i) c1 = take (S j) c2.
Proof.
  revert j h. induction i as [|i IH]; intros j h H1 H2.
  all: destruct (chain_hash_lookup _ _ _ _ H1) as (t1 & k1 & Hc1 & Hh1).
  all: destruct (chain_hash_lookup _ _ _ _ H2) as (t2 & k2 & Hc2 & Hh2).
  all: rewrite Hh1 in Hh2; apply hash_block_inj in Hh2 as (Hp & -> & ->);
    [|intros b; apply before_hash..].
  - destruct j as [|j].
    + split; [done|]. destruct c1, c2; simplify_eq/=. done.
    + exfalso. simpl in Hp. symmetry in Hp. apply lookup_ge_None in Hp.
      assert (is_Some (chain_hash None c2 !! S j)) as Hs by eauto.
      apply lookup_lt_is_Some in Hs. lia.
  - destruct j as [|j]; simpl in Hp.
    + exfalso. apply lookup_ge_None in Hp.
      assert (is_Some (chain_hash None c1 !! S i)) as Hs by eauto.
      apply lookup_lt_is_Some in Hs. lia.
    + destruct (lookup_lt_is_Some_2 (chain_hash None c1) i) as [h' Hh'].
      { assert (is_Some (chain_hash None c1 !! S i)) as Hs by eauto.
        apply lookup_lt_is_Some in Hs. lia. }
      destruct (IH j h' Hh') as [-> Ht]; [congruence|]. split; [done|].
      rewrite (take_S_r _ _ _ Hc1), (take_S_r _ _ _ Hc2). by rewrite Ht.
Qed.

Lemma token_slice_app ts a n1 n2 :
  0 ≤ a → 0 ≤ n1 → 0 ≤ n2 →
  token_slice ts a (a + n1) ++ token_slice ts (a + n1) (a + n1 + n2) =
  token_slice ts a (a + n1 + n2).
Proof.
  intros. unfold token_slice.
  replace (a + n1 - a) with n1 by lia. replace (a + n1 + n2 - (a + n1)) with n2 by lia.
  replace (a + n1 + n2 - a) with (n1 + n2) by lia.
  rewrite (Z2Nat.inj_add a n1), (Z2Nat.inj_add n1 n2) by lia. rewrite <-drop_drop.
  apply take_take_drop.
Qed.

Lemma blocks_from_concat n bs a ts :
  0 ≤ a → 0 ≤ bs → concat (blocks_from n bs a ts) = token_slice ts a (a + Z.of_nat n * bs).
Proof.
  revert a. induction n as [|n IH]; intros a Ha Hbs; simpl.
  - unfold token_slice. replace (a + Z.of_nat 0 * bs - a) with 0 by lia. done.
  - rewrite IH by lia. replace (a + Z.of_nat (S n) * bs) with (a + bs + Z.of_nat n * bs) by lia.
    apply token_slice_app; lia.
Qed.

Lemma blocks_from_take m n bs a ts : (m ≤ n)%nat → take m (blocks_from n bs a ts) = blocks_from m bs a ts.
Proof.
  revert m a. induction n as [|n IH]; intros m a Hm; destruct m as [|m]; simpl; try done; [lia|].
  f_equal. apply IH. lia.
Qed.

Lemma blocks_from_length n bs a ts : length (blocks_from n bs a ts) = n.
Proof. revert a. induction n as [|n IH]; intros a; simpl; [done|]. by rewrite IH. Qed.

Lemma chain_prefix bs a ts (ks : list (option (list extra_key))) m :
  0 ≤ a → 0 ≤ bs → (m ≤ length ks)%nat →
  concat (take m (zip (blocks_from (length ks) bs a ts) ks)).*1 =
  token_slice ts a (a + Z.of_nat m * bs).
Proof.
  intros Ha Hbs Hm. rewrite fmap_take, fst_zip by (rewrite blocks_from_length; lia).
  rewrite blocks_from_take by lia. by apply blocks_from_concat.
Qed.

Lemma chain_hash_length prev cs : length (chain_hash prev cs) = length cs.
Proof. revert prev. induction cs as [|[??] cs IH]; intros prev; simpl; [done|]. by rewrite IH. Qed.
End soundness.

(** ** A collision-free instance, and runs at concrete requests *)
#[global] Instance extra_key_countable : Countable extra_key.
Proof.
  refine (inj_countable'
    (λ k, match k with KStr s => inl s | KPair s o => inr (inl (s, o)) | KBytes b => inr (inr b) end)
    (λ x, match x with inl s => KStr s | inr (inl (s, o)) => KPair s o | inr (inr b) => KBytes b end) _).
  by intros [].
Defined.

Fixpoint pos_bits (p : positive) : bytes :=
  match p with
  | xH => [1]
  | xO p' => 2 :: pos_bits p'
  | xI p' => 3 :: pos_bits p'
  end.

Lemma pos_bits_inj p q : pos_bits p = pos_bits q → p = q.
Proof. revert q. induction p; intros [] H; simplify_eq/=; f_equal; auto. Qed.

(** The hashed tuple itself, flattened, as its digest. *)
Definition code_hash (x : bytes * list Z * option (list extra_key)) : bytes :=
  let '(p, ts, ks) := x in
  [1; Z.of_nat (length p); Z.of_nat (length ts)] ++ p ++ ts ++ pos_bits (encode ks).

Lemma code_hash_inj x y : code_hash x = code_hash y → x = y.
Proof.
  destruct x as [[p ts] ks], y as [[p' ts'] ks']. unfold code_hash. intros [= Hp Ht H].
  apply app_inj_1 in H as [-> H]; [|lia]. apply app_inj_1 in H as [-> H]; [|lia].
  apply pos_bits_inj, (inj encode) in H. by subst.
Qed.
Lemma code_hash_nonempty x : code_hash x ≠ [].
Proof. by destruct x as [[??] ?]. Qed.
Lemma code_hash_fresh x : code_hash x ≠ [0].
Proof. by destruct x as [[??] ?]. Qed.

Definition no_embeds : list Z → bytes := λ _, [].
Definition demo_request (ts : list Z) : Request := mkRequest ts [] [] None None None ∅.
(** The tuple of extra keys does not say which of them is the LoRA name
    and which the cache salt: a first block under the adapter [a] and a first
    block with the salt [a] and no adapter get the same hash for the same tokens,
    whatever the hash function. *)
Theorem lora_salt_same_hash embeds_digest hash_function NONE_HASH :
  let r_lora := mkRequest [1; 2] [] [] (Some (mkLora 1 "a")) None None ∅ in
  let r_salt := mkRequest [1; 2] [] [] None (Some "a") None ∅ in
  ∃ hs, request_block_hasher embeds_digest hash_function NONE_HASH 2 r_lora = (Ret hs, r_lora) ∧
        request_block_hasher embeds_digest hash_function NONE_HASH 2 r_salt = (Ret hs, r_salt) ∧
        length hs = 1%nat.
Proof. exists [hash_function (NONE_HASH, [1; 2], Some [KStr "a"])]. split_and!; reflexivity. Qed.

(** ** Multimodal keys *)
Definition feature_end (f : MultiModalFeature) : Z := offset (mm_position f) + length_ (mm_position f).

(** The features the engine passes: in order, disjoint, non-empty, identified. *)
Fixpoint features_ok (from : Z) (fs : list MultiModalFeature) : Prop :=
  match fs with
  | [] => True
  | f :: fs' => from ≤ offset (mm_position f) ∧ 0 < length_ (mm_position f) ∧
                is_Some (identifier f) ∧ features_ok (feature_end f) fs'
  end.

Definition overlaps (s e : Z) (f : MultiModalFeature) : Prop :=
  offset (mm_position f) < e ∧ s < feature_end f.
#[global] Instance overlaps_dec s e f : Decision (overlaps s e f).
Proof. unfold overlaps. apply _. Defined.

Definition feature_key (s : Z) (f : MultiModalFeature) : extra_key :=
  KPair (default EmptyString (identifier f)) (offset (mm_position f) - s).

(** The keys of a block by inspection of all features. *)
Definition mm_reference (s e : Z) (fs : list MultiModalFeature) : list extra_key :=
  feature_key s <$> filter (overlaps s e) fs.

(** The features that end at or before [e]. *)
Definition finished (e : Z) (fs : list MultiModalFeature) : list MultiModalFeature :=
  filter (λ f, feature_end f ≤ e) fs.

Lemma features_ok_after from fs e : features_ok from fs → e ≤ from → ∀ f, f ∈ fs →
  e ≤ offset (mm_position f) ∧ 0 < length_ (mm_position f).
Proof.
  revert from. induction fs as [|f0 fs IH]; intros from; simpl; [set_solver|].
  intros (Hf & Hl & _ & Hfs) He f [->|Hin]%elem_of_cons; [lia|].
  eapply IH; [done| |done]. unfold feature_end. lia.
Qed.

Lemma mm_loop_spec s e from fs i :
  s < e → features_ok from fs →
  mm_loop s e fs i = Ret (mm_reference s e fs, i + Z.of_nat (length (finished e fs))).
Proof.
  intros Hse. revert from i. induction fs as [|f fs IH]; intros from i Hok; simpl.
  { by rewrite Z.add_0_r. }
  destruct Hok as (Hf & Hl & [id Hid] & Hfs). rewrite Hid.
  pose proof (λ e', features_ok_after _ _ e' Hfs) as Hlater.
  assert (e < feature_end f ∨ e ≤ offset (mm_position f) →
    filter (overlaps s e) fs = [] ∧ finished e fs = []) as Hrest.
  { unfold finished, feature_end in *.
    intros He. split; apply filter_none; unfold overlaps, feature_end; intros f' Hf'.
    all: destruct (Hlater e ltac:(lia) f' Hf'); lia. }
  unfold mm_reference. cbn [finished]. unfold finished at 1. rewrite !filter_cons. fold (finished e fs).
  assert (overlaps s e f ↔ offset (mm_position f) < e ∧ s < feature_end f) as Hov by done.
  unfold feature_end in *. case_bool_decide as H1; [case_bool_decide as H2; [|case_bool_decide as H3]|].
  - rewrite (IH _ _ Hfs). rewrite decide_False by (rewrite Hov; lia). rewrite decide_True by lia.
    simpl. do 2 f_equal. lia.
  - rewrite (IH _ _ Hfs). rewrite decide_True by (rewrite Hov; lia). rewrite decide_True by lia.
    csimpl. assert (feature_key s f = KPair id (offset (mm_position f) - s)) as ->
      by (unfold feature_key; by rewrite Hid).
    unfold mm_reference. do 2 f_equal. lia.
  - destruct Hrest as [-> ->]; [lia|]. rewrite decide_True by (rewrite Hov; lia).
    rewrite decide_False by lia. csimpl. unfold feature_key. by rewrite Hid, Z.add_0_r.
  - destruct Hrest as [-> ->]; [lia|]. rewrite decide_False by (rewrite Hov; lia).
    rewrite decide_False by lia. by rewrite Z.add_0_r.
Qed.

Lemma mm_reference_app s e fs1 fs2 :
  mm_reference s e (fs1 ++ fs2) = mm_reference s e fs1 ++ mm_reference s e fs2.
Proof. unfold mm_reference. by rewrite filter_app, fmap_app. Qed.

Lemma mm_reference_past s e fs : (∀ f, f ∈ fs → feature_end f ≤ s) → mm_reference s e fs = [].
Proof.
  intros H. unfold mm_reference. rewrite filter_none; [done|].
  intros f Hf [_ Hs]. specialize (H f Hf). lia.
Qed.

Lemma features_ok_drop from fs n : features_ok from fs → ∃ from', features_ok from' (drop n fs).
Proof.
  revert from n. induction fs as [|f fs IH]; intros from [|n] Hok; simpl; [by exists 0..|by exists from|].
  destruct Hok as (_ & _ & _ & Hok). by eapply IH.
Qed.

(** In order and disjoint: every feature ends no later than the last one, and
    the features finished by [e] come first. *)
Lemma features_ok_last from fs l : features_ok from fs → last fs = Some l →
  ∀ f, f ∈ fs → feature_end f ≤ feature_end l.
Proof.
  revert from. induction fs as [|f0 fs IH]; intros from Hok Hl; [done|].
  destruct Hok as (Hf & Hlen & _ & Hok). destruct fs as [|f1 fs].
  - simpl in Hl. intros f ->%list_elem_of_singleton. by simplify_eq.
  - rewrite last_cons_cons in Hl. intros f [->|Hin]%elem_of_cons; [|by eapply IH].
    pose proof (IH _ Hok Hl f1 ltac:(set_solver)). destruct Hok as (H1 & H2 & _).
    unfold feature_end in *. lia.
Qed.

Lemma finished_prefix e from fs : features_ok from fs →
  take (length (finished e fs)) fs = finished e fs.
Proof.
  revert from. induction fs as [|f fs IH]; intros from Hok; simpl; [done|].
  destruct Hok as (Hf & Hlen & _ & Hok). unfold finished. rewrite filter_cons.
  fold (finished e fs). case_decide as Hd; simpl.
  - f_equal. by eapply IH.
  - replace (finished e fs) with (@nil MultiModalFeature); [done|]. symmetry.
    apply filter_none. intros f' Hf'. destruct (features_ok_after _ _ (feature_end f) Hok) with f';
      [lia|done|]. unfold feature_end in *. lia.
Qed.

(** The index a possibly negative [start_mm_idx] stands for. *)
Definition resolve_mm (n i : Z) : Z := if bool_decide (i < 0) then n + i else i.

(** [_gen_mm_extra_hash_keys] with a running feature index gives the keys
    of exactly the multimodal inputs that overlap the block, with their offsets
    relative to it, as a search over all features would; the index it returns is
    again one from which the next block's search may start. *)
Lemma mm_extra_keys_run r s e i :
  let n := Z.of_nat (length (mm_features r)) in
  let passed i e := ∀ f, f ∈ take (Z.to_nat (resolve_mm n i)) (mm_features r) → feature_end f ≤ e in
  features_ok 0 (mm_features r) → s < e → - n ≤ i ≤ n → passed i s →
  ∃ i', _gen_mm_extra_hash_keys r s e i = Ret (mm_reference s e (mm_features r), i') ∧
    - n ≤ i' ≤ n ∧ passed i' e.
Proof.
  intros n passed Hok Hse Hi Hp. unfold _gen_mm_extra_hash_keys. fold n.
  destruct (last (mm_features r)) as [l|] eqn:Hl.
  2:{ apply last_None in Hl. exists i. split_and!; [by rewrite Hl|lia|lia|].
      intros f Hf. rewrite Hl, take_nil in Hf. by apply not_elem_of_nil in Hf. }
  fold (feature_end l). case_bool_decide as Hlast.
  { exists i. split_and!; [|lia|lia|].
    - rewrite mm_reference_past; [done|]. intros f Hf.
      pose proof (features_ok_last _ _ _ Hok Hl f Hf). lia.
    - intros f Hf. specialize (Hp f Hf). simpl in Hp. lia. }
  set (j := resolve_mm n i) in *.
  assert (0 ≤ j ≤ n) as Hj by (unfold j, resolve_mm; case_bool_decide; lia).
  assert (mm_loop s e (drop (Z.to_nat j) (mm_features r)) j =
    Ret (mm_reference s e (mm_features r),
         j + Z.of_nat (length (finished e (drop (Z.to_nat j) (mm_features r)))))) as Hloop.
  { destruct (features_ok_drop 0 (mm_features r) (Z.to_nat j) Hok) as [from Hok'].
    rewrite (mm_loop_spec s e from _ _ Hse Hok').
    assert (mm_reference s e (mm_features r) = mm_reference s e (drop (Z.to_nat j) (mm_features r)))
      as ->; [|done].
    transitivity (mm_reference s e (take (Z.to_nat j) (mm_features r) ++
      drop (Z.to_nat j) (mm_features r))); [by rewrite take_drop|].
    rewrite mm_reference_app, mm_reference_past; [done|]. exact Hp. }
  set (m := Z.of_nat (length (finished e (drop (Z.to_nat j) (mm_features r))))) in *.
  assert (0 ≤ m ≤ n - j) as Hm.
  { unfold m, finished. pose proof (length_filter (λ f, feature_end f ≤ e)
      (drop (Z.to_nat j) (mm_features r))) as Hle. rewrite length_drop in Hle. lia. }
  exists (j + m). split_and!; [|lia|lia|].
  - destruct (decide (i < 0)) as [Hneg|Hneg].
    + rewrite bool_decide_true, bool_decide_true by lia. rewrite <-Hloop. subst j. unfold resolve_mm.
      by rewrite bool_decide_true.
    + rewrite bool_decide_false by lia. rewrite <-Hloop. subst j. unfold resolve_mm.
      by rewrite bool_decide_false.
  - unfold passed. unfold resolve_mm. rewrite bool_decide_false by lia.
    rewrite Z2Nat.inj_add, <-take_take_drop by lia. intros f [Hf|Hf]%elem_of_app.
    + specialize (Hp f Hf). simpl in Hp. lia.
    + destruct (features_ok_drop 0 (mm_features r) (Z.to_nat j) Hok) as [from Hok'].
      subst m. rewrite Nat2Z.id, (finished_prefix e from _ Hok') in Hf.
      unfold finished in Hf. by apply list_elem_of_filter in Hf as [? _].
Qed.

Definition demo_mm_request : Request :=
  mkRequest [] [] [mkFeature (Some "img") (mkRange 2 3); mkFeature (Some "snd") (mkRange 6 4)]
    None None None ∅.

(** ** A block hash identifies a prefix and its extra keys *)
Section prefix.
Context (embeds_digest : list Z → bytes)
  (hash_function : bytes * list Z * option (list extra_key) → bytes) (NONE_HASH : bytes).
Notation request_block_hasher := (request_block_hasher embeds_digest hash_function NONE_HASH).
Notation hasher_loop := (hasher_loop embeds_digest hash_function NONE_HASH).

(** The extra keys of the tokens [s..e), from the request alone: the adapter, the inputs
    that overlap the block with their relative offsets, the salt in the first block and
    the digest of the embeddings. *)
Definition embeds_keys (r : Request) (s e : Z) : list extra_key :=
  match prompt_embeds r with
  | None => []
  | Some rows => [KBytes (embeds_digest (py_slice rows s e))]
  end.
Definition block_keys (r : Request) (s e : Z) : option (list extra_key) :=
  match _gen_lora_extra_hash_keys r ++ mm_reference s e (mm_features r) ++ cache_salt_keys r s ++ embeds_keys r s e with
  | [] => None
  | ks => Some ks
  end.
(** The cached digests are those of the request's embeddings. *)
Definition digests_ok (r : Request) : Prop :=
  ∀ s e h rows, prompt_embeds_per_block_hashes r !! (s, e) = Some h → prompt_embeds r = Some rows →
    h = embeds_digest (py_slice rows s e).

Definition mm_passed (r : Request) (i e : Z) : Prop :=
  let n := Z.of_nat (length (mm_features r)) in
  - n ≤ i ≤ n ∧ ∀ f, f ∈ take (Z.to_nat (resolve_mm n i)) (mm_features r) → feature_end f ≤ e.

Lemma embeds_keys_run r s e : digests_ok r →
  ∃ c, _gen_prompt_embeds_extra_hash_keys embeds_digest s e r = (Ret (embeds_keys r s e), set_embeds_cache c r) ∧
    digests_ok (set_embeds_cache c r).
Proof.
  intros Hd. assert (set_embeds_cache (prompt_embeds_per_block_hashes r) r = r) as Hsame by by destruct r.
  unfold _gen_prompt_embeds_extra_hash_keys, embeds_keys, bind, get, ret, modify.
  destruct (prompt_embeds r) as [rows|] eqn:Hrows; [|exists (prompt_embeds_per_block_hashes r); by rewrite Hsame].
  destruct (prompt_embeds_per_block_hashes r !! (s, e)) as [h|] eqn:Hh.
  - exists (prompt_embeds_per_block_hashes r). rewrite Hsame. by rewrite (Hd s e h rows).
  - eexists. split; [done|]. intros s' e' h' rows' Hin Hr'. simpl in *. rewrite Hrows in Hr'. simplify_eq.
    destruct (decide ((s', e') = (s, e))) as [[= -> ->]|Hne]; [by rewrite lookup_insert_eq in Hin; simplify_eq|].
    rewrite lookup_insert_ne in Hin by congruence. by eapply Hd.
Qed.
Lemma extra_keys_run r s e i : features_ok 0 (mm_features r) → s < e → mm_passed r i s → digests_ok r →
  ∃ i' c, generate_block_hash_extra_keys embeds_digest s e i r = (Ret (block_keys r s e, i'), set_embeds_cache c r) ∧
    mm_passed r i' e ∧ digests_ok (set_embeds_cache c r).
Proof.
  intros Hok Hse [Hi Hp] Hd. destruct (mm_extra_keys_run r s e i Hok Hse Hi Hp) as (i' & Hmm & Hi' & Hp').
  destruct (embeds_keys_run r s e Hd) as (c & Hek & Hd'). exists i', c.
  split; [|by split]. unfold generate_block_hash_extra_keys, bind, get, of_outcome, ret. rewrite Hmm. cbv beta iota. rewrite Hek.
  unfold block_keys. by destruct (_ ++ _).
Qed.

Fixpoint keys_from (n : nat) (bs start : Z) (r : Request) : list (option (list extra_key)) :=
  match n with
  | O => []
  | S n' => block_keys r start (start + bs) :: keys_from n' bs (start + bs) r
  end.
Lemma keys_from_length n bs start r : length (keys_from n bs start r) = n.
Proof. revert start. induction n as [|n IH]; intros start; simpl; [done|]. by rewrite IH. Qed.
Lemma keys_from_lookup n bs start r k : (k < n)%nat →
  keys_from n bs start r !! k = Some (block_keys r (start + Z.of_nat k * bs) (start + Z.of_nat (S k) * bs)).
Proof.
  revert start k. induction n as [|n IH]; intros start k Hk; [lia|]. destruct k as [|k]; simpl.
  - do 2 f_equal; lia.
  - rewrite IH by lia. do 2 f_equal; lia.
Qed.
Lemma keys_from_cache n bs start r c : keys_from n bs start (set_embeds_cache c r) = keys_from n bs start r.
Proof. revert start. induction n as [|n IH]; intros start; simpl; [done|]. by rewrite IH. Qed.

(** The hashes chain the tokens and the keys of the blocks. *)
Lemma hasher_loop_keys fuel bs start mm prev r hs r' :
  0 < bs → features_ok 0 (mm_features r) → mm_passed r mm start → digests_ok r →
  hasher_loop fuel bs start mm prev r = (Ret hs, r') →
  ∃ n, hs = chain_hash hash_function NONE_HASH prev (zip (blocks_from n bs start (all_token_ids r)) (keys_from n bs start r)).
Proof.
  intros Hbs. revert start mm prev r hs. induction fuel as [|f IH]; intros start mm prev r hs Hok Hmm Hd; simpl; [done|]. unfold bind, get, ret.
  case_bool_decide as Hend; [intros [= <- <-]; by exists 0%nat|].
  destruct (extra_keys_run r start (start + bs) mm Hok ltac:(lia) Hmm Hd) as (mm' & c & -> & Hmm' & Hd').
  set (h := hash_block_tokens _ _ prev _ _).
  destruct (hasher_loop f bs (start + bs) mm' (Some h) (set_embeds_cache c r)) as [[rest|ex] r2] eqn:Hr; [|done].
  intros [= <- <-]. apply IH in Hr as (n & ->); [|done..]. exists (S n). simpl. by rewrite keys_from_cache.
Qed.
Lemma hasher_keys bs r hs r' :
  0 < bs → block_hashes r = [] → features_ok 0 (mm_features r) → digests_ok r → request_block_hasher bs r = (Ret hs, r') →
  ∃ n, hs = chain_hash hash_function NONE_HASH None (zip (blocks_from n bs 0 (all_token_ids r)) (keys_from n bs 0 r)).
Proof.
  intros Hbs Hfresh Hok Hd. unfold request_block_hasher, bind, get, ret. rewrite Hfresh.
  case_bool_decide; [intros [= <- <-]; by exists 0%nat|]. intros H'. change (Z.of_nat (length (@nil bytes)) * bs) with 0 in H'.
  eapply hasher_loop_keys; [done|done| |done|exact H'].
  split; [lia|]. intros f Hf. simpl in Hf. by apply elem_of_nil in Hf.
Qed.

(** Assumptions on the hash function: no collisions, no empty digest, and the
    seed is not a digest. *)
Context (hash_inj : ∀ x y, hash_function x = hash_function y → x = y)
  (hash_nonempty : ∀ x, hash_function x ≠ [])
  (seed_fresh : ∀ x, hash_function x ≠ NONE_HASH).

(** C15: with a collision-free hash function, a block hash identifies a whole
    prefix: if the hashers of two new requests, whose multimodal inputs are in order,
    disjoint and identified, both return hashes and the hash of block [i] of one equals
    the hash of block [j] of the other, then [i = j], the two requests have the same
    tokens up to the end of that block, and each block up to it has the same tuple of
    extra keys in both requests: the adapter name, the inputs that overlap it with their offsets
    relative to it, the salt and the digest of the prompt embeddings. *)
Theorem equal_hash_equal_prefix bs r1 r2 hs1 hs2 r1' r2' i j h :
  0 < bs → block_hashes r1 = [] → block_hashes r2 = [] →
  features_ok 0 (mm_features r1) → features_ok 0 (mm_features r2) → digests_ok r1 → digests_ok r2 →
  request_block_hasher bs r1 = (Ret hs1, r1') → request_block_hasher bs r2 = (Ret hs2, r2') →
  hs1 !! i = Some h → hs2 !! j = Some h →
  i = j ∧
  token_slice (all_token_ids r1) 0 (Z.of_nat (S i) * bs) = token_slice (all_token_ids r2) 0 (Z.of_nat (S i) * bs) ∧
  ∀ k : nat, (k ≤ i)%nat →
    block_keys r1 (Z.of_nat k * bs) (Z.of_nat (S k) * bs) = block_keys r2 (Z.of_nat k * bs) (Z.of_nat (S k) * bs).
Proof.
  intros Hbs Hf1 Hf2 Ho1 Ho2 Hd1 Hd2 H1 H2 Hi Hj.
  apply hasher_keys in H1 as [n1 ->]; [|done..]. apply hasher_keys in H2 as [n2 ->]; [|done..].
  assert (∀ n ts r m, chain_hash hash_function NONE_HASH None (zip (blocks_from n bs 0 ts) (keys_from n bs 0 r)) !! m = Some h → (S m ≤ n)%nat) as Hlen.
  { intros n ts r m Hm%lookup_lt_Some. rewrite chain_hash_length, length_zip, blocks_from_length, keys_from_length in Hm. lia. }
  pose proof (Hlen _ _ _ _ Hi). pose proof (Hlen _ _ _ _ Hj).
  destruct (chain_hash_inj hash_function NONE_HASH hash_inj hash_nonempty seed_fresh _ _ _ _ _ Hi Hj) as [-> Heq]. split; [done|]. split.
  - apply (f_equal (λ l, concat l.*1)) in Heq. pose proof (chain_prefix bs 0 (all_token_ids r1) (keys_from n1 bs 0 r1) (S j)) as P1.
    pose proof (chain_prefix bs 0 (all_token_ids r2) (keys_from n2 bs 0 r2) (S j)) as P2. rewrite !keys_from_length in P1, P2.
    rewrite !Z.add_0_l in P1, P2. rewrite P1, P2 in Heq by lia. done.
  - intros k Hk. apply (f_equal (λ l, l.*2 !! k)) in Heq. rewrite !fmap_take, !snd_zip in Heq by (rewrite blocks_from_length, keys_from_length; lia).
    rewrite !lookup_take_lt, !keys_from_lookup in Heq by lia. rewrite !Z.add_0_l in Heq. by injection Heq.
Qed.
End prefix.

(** Two requests with an image in the second block: an equal hash there means equal keys *)
Definition demo_image_request (ts : list Z) : Request :=
  mkRequest ts [] [mkFeature (Some "img") (mkRange 2 2)] None None (Some ts) ∅.
Definition sum_embeds (rows : list Z) : bytes := [foldr Z.add 0 rows].
Definition demo_hashed (ts : list Z) : outcome (list bytes) * Request := request_block_hasher sum_embeds code_hash [0] 2 (demo_image_request ts).
Definition demo_image_hashes (ts : list Z) : list bytes := match (demo_hashed ts).1 with Ret hs => hs | Raise _ => [] end.

Lemma equal_hash_equal_prefix_witness :
  1%nat = 1%nat ∧ token_slice [5; 6; 7; 8; 9] 0 (Z.of_nat 2 * 2) = token_slice [5; 6; 7; 8; 1; 2] 0 (Z.of_nat 2 * 2) ∧
  ∀ k : nat, (k ≤ 1)%nat →
    block_keys sum_embeds (demo_image_request [5; 6; 7; 8; 9]) (Z.of_nat k * 2) (Z.of_nat (S k) * 2) =
    block_keys sum_embeds (demo_image_request [5; 6; 7; 8; 1; 2]) (Z.of_nat k * 2) (Z.of_nat (S k) * 2).
Proof.
  apply (equal_hash_equal_prefix sum_embeds code_hash [0] code_hash_inj code_hash_nonempty
    code_hash_fresh 2 (demo_image_request [5; 6; 7; 8; 9]) (demo_image_request [5; 6; 7; 8; 1; 2])
    (demo_image_hashes [5; 6; 7; 8; 9]) (demo_image_hashes [5; 6; 7; 8; 1; 2])
    (demo_hashed [5; 6; 7; 8; 9]).2 (demo_hashed [5; 6; 7; 8; 1; 2]).2 1 1
    (nth 1 (demo_image_hashes [5; 6; 7; 8; 9]) [])).
  1-3: done.
  1-2: simpl; split_and!; first [lia | done | by eexists].
  1-2: by intros s e h' rows Hin.
  all: vm_compute; reflexivity.
Defined.

(** The key of the image, which covers the second block, is among the keys of that block. *)
Example demo_image_key :
  block_keys sum_embeds (demo_image_request [5; 6; 7; 8]) 2 4 = Some [KPair "img" 0; KBytes [15]].
Proof. reflexivity. Qed.

Lemma demo_mm_keys :
  ∃ i', _gen_mm_extra_hash_keys demo_mm_request 4 8 0 =
      Ret (mm_reference 4 8 (mm_features demo_mm_request), i') ∧ -2 ≤ i' ≤ 2 ∧
    ∀ f, f ∈ take (Z.to_nat (resolve_mm 2 i')) (mm_features demo_mm_request) → feature_end f ≤ 8.
Proof.
  apply (mm_extra_keys_run demo_mm_request 4 8 0).
  - simpl. split_and!; first [lia | done | by eexists].
  - lia.
  - simpl. lia.
  - simpl. intros f Hf. by apply not_elem_of_nil in Hf.
Defined.

(** ** Scaled hash lists *)
Module ScaledProps.
Import BlockHashListWithBlockSize.

Lemma value_at x i :
  0 < scale_factor x → 0 ≤ i → (i + 1) * scale_factor x ≤ Z.of_nat (length (base_hashes x)) →
  _get_value_at x i =
    concat (take (Z.to_nat (scale_factor x)) (drop (Z.to_nat (i * scale_factor x)) (base_hashes x))).
Proof.
  intros Hs Hi Hle. unfold _get_value_at. rewrite py_slice_in_range by nia. do 3 f_equal. lia.
Qed.

(** Equal concatenations of equally many digests of one length are equal digest
    by digest. *)
Lemma concat_inj (d : nat) (l1 l2 : list bytes) :
  length l1 = length l2 → Forall (λ h, length h = d) l1 → Forall (λ h, length h = d) l2 →
  concat l1 = concat l2 → l1 = l2.
Proof.
  revert l2. induction l1 as [|h1 l1 IH]; intros [|h2 l2] Hlen H1 H2 Heq; simplify_eq/=; [done|].
  apply Forall_cons in H1 as [? ?]. apply Forall_cons in H2 as [? ?].
  apply app_inj_1 in Heq as [-> ?]; [|lia]. f_equal. by apply IH.
Qed.

(** C18: at a block size [k] times the hash block size, the list has
    [len / k] entries, entry [i] is the concatenation of the [k] hashes of the
    tokens it covers, and for digests of one length two entries are equal only if
    all [k] hashes are. *)
Theorem scaled_hashes_correct hs hash_bs target_bs x :
  0 < hash_bs → 0 < target_bs → init hs hash_bs target_bs = Ret x →
  target_bs = scale_factor x * hash_bs ∧
  ∃ l, iter x = Ret l ∧
    Z.of_nat (length l) = Z.of_nat (length hs) / scale_factor x ∧
    ∀ i h, l !! i = Some h →
      let block y i := take (Z.to_nat (scale_factor y))
        (drop (Z.to_nat (Z.of_nat i * scale_factor y)) (base_hashes y)) in
      h = concat (block x i) ∧
      ∀ d hs' x' l' j, init hs' hash_bs target_bs = Ret x' → iter x' = Ret l' →
        Forall (λ h, length h = d) hs → Forall (λ h, length h = d) hs' →
        l' !! j = Some h → block x i = block x' j.
Proof.
  intros Hh Ht. assert (∀ hs x, init hs hash_bs target_bs = Ret x →
    base_hashes x = hs ∧ 0 < scale_factor x ∧ target_bs = scale_factor x * hash_bs ∧
    scale_factor x = target_bs / hash_bs) as Hinit.
  { clear hs x. intros hs x. unfold init. rewrite bool_decide_false by lia.
    case_bool_decide as Hm; [done|]. intros [= <-]. simpl.
    pose proof (Z.div_mod target_bs hash_bs). split_and!; [done| |lia|done].
    apply Z.div_str_pos. pose proof (Z.mod_divide target_bs hash_bs ltac:(lia)) as [Hd _].
    specialize (Hd Hm). apply Z.divide_pos_le in Hd; lia. }
  assert (∀ hs x l i h, init hs hash_bs target_bs = Ret x → iter x = Ret l → l !! i = Some h →
    h = concat (take (Z.to_nat (scale_factor x))
          (drop (Z.to_nat (Z.of_nat i * scale_factor x)) hs)) ∧
    (Z.of_nat i + 1) * scale_factor x ≤ Z.of_nat (length hs)) as Hent.
  { clear hs x. intros hs x l i h Hx Hl Hi. destruct (Hinit hs x Hx) as (<- & Hs & _).
    unfold iter, len in Hl. rewrite bool_decide_false in Hl by lia. injection Hl as <-.
    unfold py_range in Hi. rewrite list_lookup_fmap in Hi.
    destruct (seqZ 0 _ !! i) as [z|] eqn:Hz; [|done]. simpl in Hi. injection Hi as <-.
    apply lookup_seqZ in Hz as [-> Hz].
    assert ((Z.of_nat i + 1) * scale_factor x ≤ Z.of_nat (length (base_hashes x))) as Hle.
    { pose proof (Z.mul_div_le (Z.of_nat (length (base_hashes x))) (scale_factor x) Hs). nia. }
    split; [|done]. rewrite value_at by (done || lia). done. }
  intros Hx. destruct (Hinit hs x Hx) as (Hb & Hs & Hts & Hsc). split; [done|].
  unfold iter at 1, len. rewrite bool_decide_false by lia. eexists. split; [done|]. split.
  { unfold py_range. rewrite length_fmap, length_seqZ, Hb.
    assert (0 ≤ Z.of_nat (length hs) / scale_factor x) by (apply Z.div_pos; lia). lia. }
  intros i h Hi. cbv zeta. rewrite Hb.
  assert (iter x = Ret (_get_value_at x <$> py_range (Z.of_nat (length (base_hashes x)) / scale_factor x)))
    as Hit by (unfold iter, len; by rewrite bool_decide_false by lia).
  destruct (Hent hs x _ i h Hx Hit Hi) as [Hv Hle]. split; [done|].
  intros d hs' x' l' j Hx' Hl' Hd Hd' Hj. destruct (Hent hs' x' l' j h Hx' Hl' Hj) as [Hv' Hle'].
  destruct (Hinit hs' x' Hx') as (Hb' & Hs' & _ & Hsc'). rewrite Hb'.
  assert (scale_factor x' = scale_factor x) as Heq by congruence. rewrite Heq in *.
  apply (concat_inj d); [|by apply Forall_take, Forall_drop..|congruence].
  rewrite !length_take, !length_drop. nia.
Qed.

Lemma scaled_hashes_correct_witness :
  32 = 2 * 16 ∧
  ∃ l, iter (mk [[1]; [2]; [3]; [4]; [5]] 2) = Ret l ∧ Z.of_nat (length l) = 5 / 2 ∧
    ∀ i h, l !! i = Some h →
      let block y i := take (Z.to_nat (scale_factor y))
        (drop (Z.to_nat (Z.of_nat i * scale_factor y)) (base_hashes y)) in
      h = concat (block (mk [[1]; [2]; [3]; [4]; [5]] 2) i) ∧
      ∀ d hs' x' l' j, init hs' 16 32 = Ret x' → iter x' = Ret l' →
        Forall (λ h, length h = d) [[1]; [2]; [3]; [4]; [5]] → Forall (λ h, length h = d) hs' →
        l' !! j = Some h → block (mk [[1]; [2]; [3]; [4]; [5]] 2) i = block x' j.
Proof.
  apply (scaled_hashes_correct [[1]; [2]; [3]; [4]; [5]] 16 32 (mk [[1]; [2]; [3]; [4]; [5]] 2));
    [lia | lia | reflexivity].
Defined.
End ScaledProps.

(** ** Block sizes *)
Lemma lcm_list_divide l x : x ∈ l → (x | lcm_list l).
Proof.
  induction l as [|y l IH]; [by intros ?%not_elem_of_nil|]. intros [->|Hx]%elem_of_cons; simpl.
  - apply Z.divide_lcm_l.
  - etrans; [by apply IH|apply Z.divide_lcm_r].
Qed.

Lemma gcd_list_divide l x : x ∈ l → (gcd_list l | x).
Proof.
  induction l as [|y l IH]; [by intros ?%not_elem_of_nil|]. intros [->|Hx]%elem_of_cons; simpl.
  - apply Z.gcd_divide_l.
  - etrans; [apply Z.gcd_divide_r|by apply IH].
Qed.

Lemma gcd_list_pos l : l ≠ [] → (∀ x, x ∈ l → 0 < x) → 0 < gcd_list l.
Proof.
  destruct l as [|y l]; [done|]. intros _ Hp. simpl.
  pose proof (Z.gcd_nonneg y (gcd_list l)). assert (Z.gcd y (gcd_list l) ≠ 0); [|lia].
  intros Hg. apply Z.gcd_eq_0_l in Hg. specialize (Hp y ltac:(set_solver)). lia.
Qed.

(** For several KV cache groups with positive block sizes and block hashing
    in use, the scheduler block size is a multiple of every group's block size;
    the hash block size, when no mamba group diverges, divides every group's
    block size; with no override the call never fails, and an override that does
    not divide some group's block size is refused with [ValueError]. *)
Theorem resolve_block_sizes_correct groups c :
  (2 ≤ length groups)%nat → sc_dcp c = 1 → sc_pcp c = 1 →
  (∀ g, g ∈ groups → 0 < gs_block_size g ∧ gs_is_mamba g = false) →
  (∀ h, sc_hash_block_size c = Some h → 0 < h) →
  sc_enable_prefix_caching c = true →
  match resolve_kv_cache_block_sizes groups c with
  | Ret (sched, hash) =>
      ∀ g, g ∈ groups → (gs_block_size g | sched) ∧ (hash | gs_block_size g)
  | Raise e => e = ValueError ∧ ∃ h g, sc_hash_block_size c = Some h ∧ g ∈ groups ∧
                 ¬ (h | gs_block_size g)
  end.
Proof.
  intros Hlen Hd Hp Hg Hh Hpc. unfold resolve_kv_cache_block_sizes.
  rewrite bool_decide_false by lia. rewrite bool_decide_false by (rewrite Hd, Hp; lia). rewrite Hpc.
  simpl. set (sizes := gs_block_size <$> groups).
  assert (existsb (λ g, gs_is_mamba g && negb (bool_decide (gs_block_size g = sc_block_size c))) groups
    = false) as ->.
  { apply not_true_is_false. intros (g & Hin & Hb)%existsb_exists. apply list_elem_of_In in Hin.
    destruct (Hg g Hin) as [_ Hm]. by rewrite Hm in Hb. }
  assert (0 < default (gcd_list sizes) (sc_hash_block_size c)) as Hpos.
  { destruct (sc_hash_block_size c) as [h|]; simpl; [by apply Hh|]. apply gcd_list_pos.
    - subst sizes. destruct groups; [simpl in Hlen; lia|done].
    - intros x (g & -> & Hin)%list_elem_of_fmap. by apply Hg. }
  set (hash := default (gcd_list sizes) (sc_hash_block_size c)) in *.
  rewrite bool_decide_false by lia. destruct (existsb _ sizes) eqn:He.
  - apply existsb_exists in He as (x & Hin & Hx). apply list_elem_of_In in Hin.
    rewrite negb_true_iff, bool_decide_eq_false in Hx. split; [done|].
    assert (¬ (hash | x)) as Hnd by (intros Hdv; by apply Hx, Z.mod_divide; [lia|]).
    apply list_elem_of_fmap in Hin as (g & -> & Hin). subst hash.
    destruct (sc_hash_block_size c) as [h|] eqn:Hs; simpl in *.
    + by exists h, g.
    + exfalso. apply Hnd, gcd_list_divide. apply list_elem_of_fmap. eauto.
  - intros g Hin. assert (gs_block_size g ∈ sizes) as Hs by (apply list_elem_of_fmap; eauto). split.
    + by apply lcm_list_divide.
    + apply Z.mod_divide; [lia|]. destruct (decide (gs_block_size g mod hash = 0)) as [|Hm]; [done|].
      exfalso. assert (existsb (λ bs, negb (bool_decide (bs mod hash = 0))) sizes = true) as Ht.
      { apply existsb_exists. exists (gs_block_size g). split; [by apply list_elem_of_In|].
        by rewrite bool_decide_false. }
      congruence.
Qed.

Lemma resolve_block_sizes_correct_witness :
  resolve_kv_cache_block_sizes [mkGroup 32 false; mkGroup 48 false] (mkSizes 16 None true false 1 1) =
    Ret (96, 16) ∧
  ∀ g, g ∈ [mkGroup 32 false; mkGroup 48 false] → (gs_block_size g | 96) ∧ (16 | gs_block_size g).
Proof.
  split; [by vm_compute|].
  apply (resolve_block_sizes_correct [mkGroup 32 false; mkGroup 48 false]
    (mkSizes 16 None true false 1 1)); try done.
  intros g [->|[->|[]%elem_of_nil]%elem_of_cons]%elem_of_cons; done.
Defined.

(** ** The hasher terminates *)
Section termination.
Context (embeds_digest : list Z → bytes).

Definition identified (r : Request) : Prop := ∀ f, f ∈ mm_features r → is_Some (identifier f).

(** An index the feature search accepts. *)
Definition mm_idx_ok (r : Request) (i : Z) : Prop :=
  mm_features r = [] ∨ - Z.of_nat (length (mm_features r)) ≤ i.

Lemma mm_loop_total s e fs i :
  (∀ f, f ∈ fs → is_Some (identifier f)) → ∃ ks i', mm_loop s e fs i = Ret (ks, i') ∧ i ≤ i'.
Proof.
  revert i. induction fs as [|f fs IH]; intros i Hid; simpl; [by exists [], i|].
  destruct (Hid f) as [id ->]; [set_solver|].
  destruct (IH (i + 1)) as (ks & i' & Hl & Hi'); [set_solver|]. rewrite Hl.
  repeat case_bool_decide; eexists _, _; (split; [done|]); lia.
Qed.

Lemma extra_keys_total s e i r :
  identified r → mm_idx_ok r i →
  ∃ ek i' r', generate_block_hash_extra_keys embeds_digest s e i r = (Ret (ek, i'), r') ∧
    mm_idx_ok r i'.
Proof.
  intros Hid Hi.
  assert (∃ ks i', _gen_mm_extra_hash_keys r s e i = Ret (ks, i') ∧ mm_idx_ok r i')
    as (ks & i' & Hmm & Hok).
  { unfold _gen_mm_extra_hash_keys. destruct (last (mm_features r)) as [l|] eqn:Hl; [|eauto].
    case_bool_decide; [eauto|]. destruct Hi as [Hi|Hi]; [by rewrite Hi in Hl|].
    case_bool_decide as Hneg.
    - rewrite bool_decide_true by lia.
      edestruct (mm_loop_total s e) as (ks & i' & Hl' & Hi'); [|rewrite Hl'; exists ks, i'].
      + intros f Hf. apply Hid. eapply sublist_subseteq; [apply sublist_drop|done].
      + split; [done|]. right. lia.
    - edestruct (mm_loop_total s e) as (ks & i' & Hl' & Hi'); [|rewrite Hl'; exists ks, i'].
      + intros f Hf. apply Hid. eapply sublist_subseteq; [apply sublist_drop|done].
      + split; [done|]. right. lia. }
  unfold generate_block_hash_extra_keys, bind, get, of_outcome, ret. rewrite Hmm.
  unfold _gen_prompt_embeds_extra_hash_keys, bind, get, ret, modify.
  repeat case_match; simplify_eq; eauto 10.
Qed.

Context (hash_function : bytes * list Z * option (list extra_key) → bytes) (NONE_HASH : bytes).

Lemma hasher_loop_total fuel bs start mm prev r :
  0 < bs → identified r → mm_idx_ok r mm → (full_blocks bs start (all_token_ids r) < fuel)%nat →
  ∃ hs r', hasher_loop embeds_digest hash_function NONE_HASH fuel bs start mm prev r = (Ret hs, r').
Proof.
  intros Hbs. revert start mm prev r. induction fuel as [|f IH]; intros start mm prev r Hid Hmm Hf;
    simpl; [lia|]. unfold bind, get, ret. case_bool_decide as Hend; [by eauto|].
  destruct (extra_keys_total start (start + bs) mm r Hid Hmm) as (ek & mm' & r1 & Hek & Hmm').
  rewrite Hek. apply extra_keys_same in Hek as [c ->].
  unfold num_tokens in Hend. rewrite full_blocks_S in Hf by lia.
  edestruct (IH (start + bs) mm' (Some (hash_block_tokens hash_function NONE_HASH prev
    (token_slice (all_token_ids r) start (start + bs)) ek)) (set_embeds_cache c r))
    as (hs & r2 & Hrun); [done|done|simpl; lia|]. rewrite Hrun. by eauto.
Qed.

(** The hasher of a request whose multimodal inputs are identified returns,
    with one hash per full block that has none yet, and only the cache of
    embedding digests of the request may have changed. *)
Theorem request_block_hasher_total bs r :
  0 < bs → identified r → Z.of_nat (length (block_hashes r)) * bs ≤ num_tokens r →
  ∃ hs r', request_block_hasher embeds_digest hash_function NONE_HASH bs r = (Ret hs, r') ∧
    same_request r r' ∧
    Z.of_nat (length (block_hashes r) + length hs) = num_tokens r / bs.
Proof.
  intros Hbs Hid Hle. unfold request_block_hasher, bind, get, ret.
  set (start := Z.of_nat (length (block_hashes r)) * bs) in *.
  assert (num_tokens r / bs = Z.of_nat (length (block_hashes r)) + (num_tokens r - start) / bs) as Hdiv.
  { unfold start. rewrite <-Z.div_add_l by lia. f_equal. lia. }
  case_bool_decide as Hlt.
  { eexists [], r. split_and!; [done|apply same_request_refl|]. simpl.
    rewrite Hdiv, (Z.div_small (num_tokens r - start)) by lia. lia. }
  edestruct (hasher_loop_total (S (length (all_token_ids r))) bs start
    (if bool_decide (0 < start) then -1 else 0) (last (block_hashes r)) r) as (hs & r' & Hrun); try done.
  - unfold mm_idx_ok. destruct (mm_features r); [by left|right]. simpl. case_bool_decide; lia.
  - unfold full_blocks. apply Nat.lt_succ_r.
    assert ((Z.of_nat (length (all_token_ids r)) - start) / bs ≤ Z.of_nat (length (all_token_ids r))).
    { apply Z.div_le_upper_bound; [lia|]. unfold start. nia. }
    lia.
  - exists hs, r'. split; [done|].
    apply hasher_loop_chain in Hrun as (Hs & ks & Hlen & Hhs); [|done]. split; [done|].
    rewrite Hhs, chain_hash_length, length_zip, blocks_from_length, Nat.min_id, Hlen.
    unfold full_blocks. rewrite Nat2Z.inj_add, Z2Nat.id; [by rewrite Hdiv|].
    apply Z.div_pos; [unfold num_tokens in *; lia|done].
Qed.
End termination.

Lemma request_block_hasher_total_witness :
  ∃ hs r', request_block_hasher no_embeds code_hash [0] 2 (demo_request [1; 2; 3; 4; 5]) = (Ret hs, r') ∧
    same_request (demo_request [1; 2; 3; 4; 5]) r' ∧
    Z.of_nat (length (block_hashes (demo_request [1; 2; 3; 4; 5])) + length hs) = 5 / 2.
Proof.
  apply (request_block_hasher_total no_embeds code_hash [0] 2 (demo_request [1; 2; 3; 4; 5])).
  - lia.
  - intros f Hf. by apply not_elem_of_nil in Hf.
  - vm_compute. discriminate.
Defined.
