(* ===== verification/BlockPool.v ===== *)
(** * The block pool with its prefix-cache index

    [BlockHashToBlockMap] and [BlockPool] of src/vllm/v1/core/block_pool.py over
    the free-block queue of [FreeQueue]. Modelled: every method except
    [get_usage] (a floating-point ratio of two modelled numbers) and logging. The
    metrics collector is the log of the calls it receives. *)

From S2P Require Import Prelude OrderedDict FreeQueue BlockHash.

Open Scope Z_scope.

(** ** Hash key to block(s) *)
Module BlockHashToBlockMap.

(** [KVCacheBlock | dict[int, KVCacheBlock]] *)
Inductive entry := Single (b : ref) | Many (d : list (Z * ref)).

Notation t := (gmap (list Z) entry).
Definition init : t := ∅.

(** [next(iter(blocks.values()))] raises [StopIteration] on an empty dict. *)
Definition get_one_block (key : bytes) (m : t) : outcome (option ref) :=
  match m !! key with
  | None => Ret None
  | Some (Single b) => Ret (Some b)
  | Some (Many ((_, b) :: _)) => Ret (Some b)
  | Some (Many []) => Raise StopIteration
  end.

(** [id_of] reads the [block_id] attribute of a block object. *)
Definition insert (id_of : ref → Z) (key : bytes) (block : ref) (m : t) : t :=
  match m !! key with
  | None => <[key := Single block]> m
  | Some (Single b) => <[key := Many (od_set (id_of block) block [(id_of b, b)])]> m
  | Some (Many d) => <[key := Many (od_set (id_of block) block d)]> m
  end.

Definition pop (id_of : ref → Z) (key : bytes) (block_id : Z) (m : t) : option ref * t :=
  match m !! key with
  | None => (None, m)
  | Some (Single b) =>
      if bool_decide (id_of b = block_id) then (Some b, delete key m) else (None, m)
  | Some (Many d) =>
      let block := od_get block_id d in
      match od_del block_id d with
      | [] => (block, delete key m)
      | d' => (block, <[key := Many d']> m)
      end
  end.

Definition len (m : t) : nat := size m.
End BlockHashToBlockMap.

(** ** Events and metrics calls *)
Inductive KVCacheEvent :=
  | BlockStored (block_hashes : list ExternalBlockHash) (parent_block_hash : option ExternalBlockHash)
      (token_ids : list Z) (block_size : Z) (lora_id : option Z) (lora_name : option string)
      (extra_keys : option (list (option (list extra_key)))) (group_idx : Z)
  | BlockRemoved (block_hashes : list ExternalBlockHash) (group_idx : Z)
  | AllBlocksCleared.

Inductive metrics_call :=
  | on_block_allocated (b : ref)
  | on_block_evicted (b : ref)
  | on_block_accessed (b : ref)
  | metrics_reset.

Module BlockPool.
Import FreeKVCacheBlockQueue.
Notation queue := FreeKVCacheBlockQueue.t.

Record t := mk {
  num_gpu_blocks : Z;
  enable_caching : bool;
  hash_block_size : Z;
  free_block_queue : queue;
  cached_block_hash_to_block : BlockHashToBlockMap.t;
  null_block : ref;
  enable_kv_cache_events : bool;
  kv_event_queue : list KVCacheEvent;
  metrics_collector : option (list metrics_call);
  use_int_block_hashes : bool
}.

Definition with_queue (q : queue) (p : t) : t :=
  mk (num_gpu_blocks p) (enable_caching p) (hash_block_size p) q (cached_block_hash_to_block p)
     (null_block p) (enable_kv_cache_events p) (kv_event_queue p) (metrics_collector p) (use_int_block_hashes p).
Definition with_cache (m : BlockHashToBlockMap.t) (p : t) : t :=
  mk (num_gpu_blocks p) (enable_caching p) (hash_block_size p) (free_block_queue p) m
     (null_block p) (enable_kv_cache_events p) (kv_event_queue p) (metrics_collector p) (use_int_block_hashes p).
Definition with_events (l : list KVCacheEvent) (p : t) : t :=
  mk (num_gpu_blocks p) (enable_caching p) (hash_block_size p) (free_block_queue p) (cached_block_hash_to_block p)
     (null_block p) (enable_kv_cache_events p) l (metrics_collector p) (use_int_block_hashes p).
Definition with_metrics (m : option (list metrics_call)) (p : t) : t :=
  mk (num_gpu_blocks p) (enable_caching p) (hash_block_size p) (free_block_queue p) (cached_block_hash_to_block p)
     (null_block p) (enable_kv_cache_events p) (kv_event_queue p) m (use_int_block_hashes p).

Definition on_queue {A} (m : M queue A) : M t A := zoom free_block_queue with_queue m.
Definition emit (e : KVCacheEvent) : M t unit := modify (λ p, with_events (kv_event_queue p ++ [e]) p).
(** [if self.metrics_collector: self.metrics_collector.<call>] *)
Definition metric (c : metrics_call) : M t unit :=
  modify (λ p, with_metrics ((λ l, l ++ [c]) <$> metrics_collector p) p).

(** The block object behind a reference, and writing one of its attributes. *)
Definition obj (p : t) (b : ref) : KVCacheBlock := blocks (free_block_queue p) !!! b.
Definition read (b : ref) : M t KVCacheBlock := gets (λ p, obj p b).
Definition update (b : ref) (f : KVCacheBlock → KVCacheBlock) : M t unit :=
  on_queue (modify (on_heap (write b f))).
Definition id_of (p : t) (b : ref) : Z := block_id (obj p b).

(** The block objects [KVCacheBlock(idx) for idx in range(n)]. *)
Definition fresh_heap (n : Z) : heap := list_to_map ((λ i, (Blk i, new_block i)) <$> py_range n).

Definition init (num_gpu_blocks : Z) (enable_caching : bool) (hash_block_size : Z)
    (enable_kv_cache_events : bool) (metrics : option (list metrics_call)) (use_int : bool)
    : outcome t :=
  if negb (bool_decide (0 < num_gpu_blocks)) then Raise AssertionError
  else
    match FreeKVCacheBlockQueue.init (Blk <$> py_range num_gpu_blocks)
            (FreeKVCacheBlockQueue.mk (fresh_heap num_gpu_blocks) 0) with
    | (Raise e, _) => Raise e
    | (Ret _, q) =>
        match popleft q with
        | (Raise e, _) => Raise e
        | (Ret null, q) =>
            Ret (mk num_gpu_blocks enable_caching hash_block_size
                   (on_heap (write null (set_null true)) q)
                   BlockHashToBlockMap.init null enable_kv_cache_events [] metrics use_int)
        end
    end.

Definition get_num_free_blocks (p : t) : Z := num_free_blocks (free_block_queue p).

(** [None] is the cache miss. *)
Fixpoint get_cached_block (block_hash : bytes) (kv_cache_group_ids : list Z) (p : t)
    : outcome (option (list ref)) :=
  match kv_cache_group_ids with
  | [] => Ret (Some [])
  | g :: gs =>
      match make_block_hash_with_group_id block_hash g with
      | Raise e => Raise e
      | Ret key =>
          match BlockHashToBlockMap.get_one_block key (cached_block_hash_to_block p) with
          | Raise e => Raise e
          | Ret None => Ret None
          | Ret (Some b) =>
              match get_cached_block block_hash gs p with
              | Ret (Some bs) => Ret (Some (b :: bs))
              | r => r
              end
          end
      end
  end.

Definition _maybe_evict_cached_block (block : ref) : M t bool :=
  metric (on_block_evicted block) ;;
  b <- read block ;;
  match block_hash b with
  | None => ret false
  | Some h =>
      p <- get ;;
      let '(popped, m) := BlockHashToBlockMap.pop (id_of p) h (block_id b)
                            (cached_block_hash_to_block p) in
      modify (with_cache m) ;;
      match popped with
      | None => ret false
      | Some _ =>
          update block (set_hash None) ;;
          (if enable_kv_cache_events p
           then emit (BlockRemoved [maybe_convert_block_hash (use_int_block_hashes p) (get_block_hash h)]
                                   (get_group_id h))
           else ret tt) ;;
          ret true
      end
  end.

(** The body of the two loops of [get_new_blocks]. *)
Definition take_block (caching : bool) (block : ref) : M t unit :=
  (if caching then _ <- _maybe_evict_cached_block block ;; ret tt else ret tt) ;;
  b <- read block ;;
  assert_ (bool_decide (ref_cnt b = 0)) ;;
  update block (λ b, set_ref_cnt (ref_cnt b + 1) b) ;;
  metric (on_block_allocated block).

Definition get_new_blocks (num_blocks : Z) : M t (list ref) :=
  p <- get ;;
  if bool_decide (get_num_free_blocks p < num_blocks) then raise ValueError
  else
    bs <- on_queue (popleft_n num_blocks) ;;
    for_each bs (take_block (enable_caching p)) ;;
    ret bs.

Definition touch (bs : list ref) : M t unit :=
  for_each bs (λ block,
    b <- read block ;;
    (if bool_decide (ref_cnt b = 0) && negb (is_null b) then on_queue (remove block) else ret tt) ;;
    update block (λ b, set_ref_cnt (ref_cnt b + 1) b) ;;
    metric (on_block_accessed block)).

Definition free_blocks (ordered_blocks : list ref) : M t unit :=
  for_each ordered_blocks (λ block, update block (λ b, set_ref_cnt (ref_cnt b - 1) b)) ;;
  p <- get ;;
  on_queue (append_n (filter (λ b, ref_cnt (obj p b) = 0 ∧ is_null (obj p b) = false) ordered_blocks)).

(** [block_ids] is a set; the order of the iteration is the order of the list. *)
Definition evict_blocks (block_ids : list Z) : M t unit :=
  for_each block_ids (λ block_id,
    p <- get ;;
    assert_ (bool_decide (block_id < num_gpu_blocks p)) ;;
    block <- of_option IndexError (list_get (Blk <$> py_range (num_gpu_blocks p)) block_id) ;;
    _ <- _maybe_evict_cached_block block ;; ret tt).

Definition reset_prefix_cache : M t bool :=
  p <- get ;;
  let num_used_blocks := num_gpu_blocks p - get_num_free_blocks p in
  if bool_decide (num_used_blocks ≠ 1) then ret false
  else
    modify (with_cache BlockHashToBlockMap.init) ;;
    for_each (Blk <$> py_range (num_gpu_blocks p)) (λ b, update b (set_hash None)) ;;
    metric metrics_reset ;;
    (if enable_kv_cache_events p then emit AllBlocksCleared else ret tt) ;;
    ret true.

Definition take_events : M t (list KVCacheEvent) :=
  p <- get ;;
  if negb (enable_kv_cache_events p) then ret []
  else modify (with_events []) ;; ret (kv_event_queue p).

(** ** Caching full blocks *)
Section caching.
Context (embeds_digest : list Z → bytes).
Notation S := (t * Request)%type.

Definition on_pool {A} (m : M t A) : M S A := zoom fst (λ p s, (p, s.2)) m.
Definition on_request {A} (m : M Request A) : M S A := zoom snd (λ r s, (s.1, r)) m.

(** [request.block_hashes] or its view at [block_size]: the element at an index,
    and the elements from an index on. *)
Inductive hash_list := Plain (hs : list bytes) | Scaled (x : BlockHashListWithBlockSize.t).

Definition hash_list_of (hash_bs block_size : Z) (hs : list bytes) : outcome hash_list :=
  if bool_decide (block_size = hash_bs) then Ret (Plain hs)
  else if bool_decide (hash_bs = 0) then Raise ZeroDivisionError
  else if bool_decide (block_size `mod` hash_bs ≠ 0) then Raise AssertionError
  else match BlockHashListWithBlockSize.init hs hash_bs block_size with
       | Ret x => Ret (Scaled x) | Raise e => Raise e end.

Definition hl_from (l : hash_list) (start : Z) : outcome (list bytes) :=
  match l with
  | Plain hs => Ret (py_slice hs start (Z.of_nat (length hs)))
  | Scaled x => BlockHashListWithBlockSize.getitem_from x start
  end.
Definition hl_get (l : hash_list) (i : Z) : outcome bytes :=
  match l with
  | Plain hs => match list_get hs i with Some h => Ret h | None => Raise IndexError end
  | Scaled x => Ret (BlockHashListWithBlockSize.getitem x i)
  end.

(** [blk.is_null or (block_mask is not None and not block_mask[i])] *)
Definition skipped (p : t) (block_mask : option (list bool)) (blk : ref) (i : Z) : bool :=
  is_null (obj p blk) ||
  match block_mask with Some m => negb (default true (list_get m i)) | None => false end.

(** The first loop: set the hash of each block and index it; the external hashes
    of the blocks that were cached. *)
Fixpoint cache_loop (block_mask : option (list bool)) (group_id : Z) (hs : list bytes) (i : Z)
    (bs : list ref) : M t (list ExternalBlockHash) :=
  match bs with
  | [] => ret []
  | blk :: bs' =>
      p <- get ;;
      if skipped p block_mask blk i then cache_loop block_mask group_id hs (i + 1) bs'
      else
        b <- read blk ;;
        assert_ (bool_decide (block_hash b = None)) ;;
        h <- of_option IndexError (list_get hs i) ;;
        key <- of_outcome (make_block_hash_with_group_id h group_id) ;;
        update blk (set_hash (Some key)) ;;
        modify (λ p, with_cache (BlockHashToBlockMap.insert (id_of p) key blk
                                   (cached_block_hash_to_block p)) p) ;;
        rest <- cache_loop block_mask group_id hs (i + 1) bs' ;;
        ret (maybe_convert_block_hash (use_int_block_hashes p) h :: rest)
  end.

(** The second loop, for the event: the extra keys of the cached blocks, by index
    [i] of the request's blocks [bs]. *)
Fixpoint event_keys (block_mask : option (list bool)) (block_size num_cached_blocks mm : Z)
    (bs : list ref) (idxs : list Z) : M S (list (option (list extra_key))) :=
  match idxs with
  | [] => ret []
  | i :: idxs' =>
      blk <- of_option IndexError (list_get bs i) ;;
      s <- get ;;
      if skipped s.1 block_mask blk (i - num_cached_blocks)
      then event_keys block_mask block_size num_cached_blocks mm bs idxs'
      else
        let block_start := i * block_size in
        '(ek, mm) <- on_request (generate_block_hash_extra_keys embeds_digest block_start
                                   (block_start + block_size) mm) ;;
        rest <- event_keys block_mask block_size num_cached_blocks mm bs idxs' ;;
        ret (ek :: rest)
  end.

Definition cache_full_blocks (bs : list ref) (num_cached_blocks num_full_blocks block_size
    kv_cache_group_id : Z) (block_mask : option (list bool)) : M S unit :=
  if bool_decide (num_full_blocks ≤ num_cached_blocks) then ret tt
  else
    let new_full_blocks := py_slice bs num_cached_blocks num_full_blocks in
    '(p, request) <- get ;;
    assert_ (bool_decide (num_full_blocks ≤ Z.of_nat (length (block_hashes request)))) ;;
    assert_ (match block_mask with
             | None => true
             | Some m => bool_decide (length m = length new_full_blocks) end) ;;
    hl <- of_outcome (hash_list_of (hash_block_size p) block_size (block_hashes request)) ;;
    new_block_hashes <- of_outcome (hl_from hl num_cached_blocks) ;;
    new_hashes <- on_pool (cache_loop block_mask kv_cache_group_id new_block_hashes 0 new_full_blocks) ;;
    if enable_kv_cache_events p then
      parent_block_hash <-
        (if bool_decide (num_cached_blocks = 0) then ret None
         else h <- of_outcome (hl_get hl (num_cached_blocks - 1)) ;;
              ret (Some (maybe_convert_block_hash (use_int_block_hashes p) h))) ;;
      extra_keys_list <- event_keys block_mask block_size num_cached_blocks 0 bs
                           (seqZ num_cached_blocks (num_full_blocks - num_cached_blocks)) ;;
      on_pool (emit (BlockStored new_hashes parent_block_hash
        (py_slice (all_token_ids request) (num_cached_blocks * block_size) (num_full_blocks * block_size))
        block_size (adapter_id <$> lora_request request) (lora_name <$> lora_request request)
        (match extra_keys_list with [] => None | l => Some l end) kv_cache_group_id))
    else ret tt.
End caching.
End BlockPool.
