(* ===== verification/BlockPoolProps.v ===== *)
(** * The block pool: invariant and correctness

    A block of the pool is in the free queue exactly when nothing references it,
    the prefix-cache index holds a block under a key exactly when the block
    carries that key, and the null block is neither free nor cached. *)

From S2P Require Import Prelude OrderedDict FreeQueue BlockHash BlockPool.

Open Scope Z_scope.

(** ** The index *)
Section index.
Implicit Types (m : BlockHashToBlockMap.t) (key k : bytes) (i j : Z).
Import BlockHashToBlockMap.

Definition key_has m key i : Prop :=
  match m !! key with
  | None => False
  | Some (Single r) => r = Blk i
  | Some (Many d) => od_get i d = Some (Blk i)
  end.

Definition entry_wf (e : entry) : Prop :=
  match e with
  | Single r => ∃ i, r = Blk i
  | Many d => d ≠ [] ∧ od_wf d ∧ ∀ i r, od_get i d = Some r → r = Blk i
  end.

Definition index_wf m : Prop := ∀ key e, m !! key = Some e → entry_wf e.

Context (id_of : ref → Z).

Lemma get_one_block_correct m key :
  index_wf m →
  (∃ i, get_one_block key m = Ret (Some (Blk i)) ∧ key_has m key i) ∨
  (get_one_block key m = Ret None ∧ ∀ i, ¬ key_has m key i).
Proof.
  intros Hwf. unfold get_one_block, key_has. destruct (m !! key) as [[r|d]|] eqn:He; [| |by right; eauto].
  - destruct (Hwf _ _ He) as [i ->]. left. by exists i.
  - destruct (Hwf _ _ He) as (Hne & Hod & Hd). destruct d as [|[i r] d]; [done|].
    assert (r = Blk i) as -> by (apply (Hd i); simpl; by rewrite decide_True).
    left. exists i. split; [done|]. simpl. by rewrite decide_True.
Qed.

Lemma insert_wf m key i :
  id_of (Blk i) = i → (∀ j, key_has m key j → id_of (Blk j) = j) →
  index_wf m → index_wf (insert id_of key (Blk i) m).
Proof.
  intros Hi Hm Hwf. unfold insert. destruct (m !! key) as [[r|d]|] eqn:He; intros key' e'.
  all: destruct (decide (key' = key)) as [->|Hne];
    [rewrite lookup_insert_eq; intros [= <-]|rewrite lookup_insert_ne by done; apply Hwf].
  - destruct (Hwf _ _ He) as [j ->]. rewrite Hi, (Hm j) by (unfold key_has; by rewrite He).
    assert (od_wf (od_set i (Blk i) [(j, Blk j)])) as Hod by (apply od_wf_set, NoDup_singleton).
    assert (∀ i' r', od_get i' (od_set i (Blk i) [(j, Blk j)]) = Some r' → r' = Blk i') as Hg.
    { intros i' r'. rewrite od_get_set. simpl. repeat case_decide; congruence. }
    split; [|split; [exact Hod|exact Hg]]. simpl. by case_decide.
  - destruct (Hwf _ _ He) as (Hne & Hod & Hd). rewrite Hi. split_and!.
    + destruct d as [|[??]]; [done|]. simpl. by case_decide.
    + by apply od_wf_set.
    + intros i' r'. rewrite od_get_set. case_decide; [congruence|apply Hd].
  - by exists i.
Qed.

Lemma insert_has m key i k j :
  id_of (Blk i) = i → (∀ j, key_has m key j → id_of (Blk j) = j) → index_wf m →
  key_has (insert id_of key (Blk i) m) k j ↔ (k = key ∧ j = i) ∨ key_has m k j.
Proof.
  intros Hi Hm Hwf. unfold insert. unfold key_has in Hm |- *.
  destruct (m !! key) as [[r|d]|] eqn:He; (destruct (decide (k = key)) as [->|Hne];
    [rewrite lookup_insert_eq, ?He|rewrite lookup_insert_ne by done; naive_solver]).
  - destruct (Hwf _ _ He) as [j' ->]. rewrite Hi, (Hm j') by done. rewrite od_get_set. simpl.
    repeat case_decide; naive_solver.
  - rewrite Hi, od_get_set. case_decide; naive_solver.
  - naive_solver.
Qed.

Lemma pop_correct m key i :
  id_of (Blk i) = i → index_wf m → key_has m key i →
  ∃ m', pop id_of key i m = (Some (Blk i), m') ∧ index_wf m' ∧
    ∀ k j, key_has m' k j ↔ key_has m k j ∧ ¬ (k = key ∧ j = i).
Proof.
  intros Hi Hwf Hh. unfold pop. unfold key_has in Hh. destruct (m !! key) as [[r|d]|] eqn:He; [| |done].
  - subst r. rewrite Hi, bool_decide_true by done. eexists. split; [done|]. split.
    + intros k e. destruct (decide (k = key)) as [->|]; [by rewrite lookup_delete_eq|].
      rewrite lookup_delete_ne by done. apply Hwf.
    + intros k j. unfold key_has. destruct (decide (k = key)) as [->|].
      * rewrite lookup_delete_eq, He. naive_solver.
      * rewrite lookup_delete_ne by done. naive_solver.
  - destruct (Hwf _ _ He) as (Hne & Hod & Hd). rewrite Hh.
    pose proof (λ j, od_get_del j i d Hod) as Hg.
    destruct (od_del i d) as [|x d'] eqn:Hdel.
    + eexists. split; [done|]. split.
      * intros k e. destruct (decide (k = key)) as [->|]; [by rewrite lookup_delete_eq|].
        rewrite lookup_delete_ne by done. apply Hwf.
      * intros k j. unfold key_has. destruct (decide (k = key)) as [->|].
        -- rewrite lookup_delete_eq, He. specialize (Hg j).
           split; [done|]. intros [Hj Hn]. destruct (decide (j = i)) as [->|]; [by destruct Hn|].
           rewrite Hj in Hg. done.
        -- rewrite lookup_delete_ne by done. naive_solver.
    + eexists. split; [done|]. split.
      * intros k e. destruct (decide (k = key)) as [->|].
        -- rewrite lookup_insert_eq. intros [= <-]. rewrite <-Hdel. split_and!.
           ++ by rewrite Hdel.
           ++ by apply od_wf_del.
           ++ intros j r. rewrite od_get_del by done. case_decide; [done|apply Hd].
        -- rewrite lookup_insert_ne by done. apply Hwf.
      * intros k j. unfold key_has. destruct (decide (k = key)) as [->|].
        -- rewrite lookup_insert_eq, He, Hg. case_decide; naive_solver.
        -- rewrite lookup_insert_ne by done. naive_solver.
Qed.
End index.

(** ** The pool *)
Import FreeKVCacheBlockQueue QueueProps BlockPool.
Implicit Types (p : BlockPool.t) (l : list ref) (i j : Z) (r : ref).

Definition in_pool p i : Prop := 0 ≤ i < num_gpu_blocks p.

(** [l] is the free list. [pending] are blocks that left the queue and whose
    count is still zero: none between the methods. *)
Record pool_inv p l (pending : list ref) : Prop := {
  pi_queue : queue_inv (free_block_queue p) l;
  pi_null : null_block p = Blk 0;
  pi_size : 0 < num_gpu_blocks p;
  pi_blocks : ∀ i, in_pool p i →
    is_Some (blocks (free_block_queue p) !! Blk i) ∧ is_null (obj p (Blk i)) = bool_decide (i = 0);
  pi_ids : ∀ i, block_id (obj p (Blk i)) = i ∨ ¬ in_pool p i;
  pi_free : ∀ r, r ∈ l ∨ r ∈ pending ↔ ∃ i, r = Blk i ∧ in_pool p i ∧ i ≠ 0 ∧ ref_cnt (obj p r) = 0;
  pi_disj : ∀ r, r ∈ pending → r ∉ l;
  pi_ref : ∀ i, in_pool p i → i ≠ 0 → 0 ≤ ref_cnt (obj p (Blk i));
  pi_index : index_wf (cached_block_hash_to_block p);
  pi_hash : ∀ i k, in_pool p i →
    (block_hash (obj p (Blk i)) = Some k ↔ key_has (cached_block_hash_to_block p) k i);
  pi_cached : ∀ k i, key_has (cached_block_hash_to_block p) k i → in_pool p i ∧ i ≠ 0
}.

(** Writing attributes other than the links. *)
Definition keeps_links (f : KVCacheBlock → KVCacheBlock) : Prop :=
  ∀ b, prev_free_block (f b) = prev_free_block b ∧ next_free_block (f b) = next_free_block b.

Lemma lookup_write h b f r : write b f h !!! r = if decide (r = b) then f (h !!! b) else h !!! r.
Proof.
  unfold write. destruct (decide (r = b)) as [->|]; [by rewrite lookup_total_insert_eq|].
  by rewrite lookup_total_insert_ne.
Qed.

Lemma queue_inv_write q l b f :
  keeps_links f → queue_inv q l → queue_inv (on_heap (write b f) q) l.
Proof.
  intros Hf [Hq Hn]. split; [|done]. simpl.
  assert (∀ r, nxt (write b f (blocks q)) r = nxt (blocks q) r ∧
               prv (write b f (blocks q)) r = prv (blocks q) r) as Hl.
  { intros r. unfold nxt, prv. rewrite lookup_write. destruct (decide (r = b)) as [->|]; [|done].
    by destruct (Hf (blocks q !!! b)) as [-> ->]. }
  destruct Hq as [Hc Hnd Ht Ha Ho]. split.
  - eapply lchain_ext; [done|exact Hc|..]; intros r _ _; apply Hl.
  - done.
  - by rewrite (proj1 (Hl FakeTail)).
  - intros r Hr. apply write_is_Some. by apply Ha.
  - intros i Hi. destruct (Hl (Blk i)) as [-> ->]. by apply Ho.
Qed.

Lemma keeps_links_ref f : keeps_links (λ b, set_ref_cnt (f b) b).
Proof. done. Qed.
Lemma keeps_links_hash h : keeps_links (set_hash h).
Proof. done. Qed.

Definition updated p b f : BlockPool.t :=
  with_queue (on_heap (write b f) (free_block_queue p)) p.

Lemma obj_updated p b f r : obj (updated p b f) r = if decide (r = b) then f (obj p b) else obj p r.
Proof. unfold obj, updated. simpl. apply lookup_write. Qed.

Lemma update_run p b f : update b f p = (Ret tt, updated p b f).
Proof. done. Qed.

(** Objects and links of the pool unchanged; the queue's links may differ. *)
Lemma obj_same_data p q :
  same_data (blocks (free_block_queue p)) (blocks q) →
  ∀ r, block_id (obj (with_queue q p) r) = block_id (obj p r) ∧
       ref_cnt (obj (with_queue q p) r) = ref_cnt (obj p r) ∧
       block_hash (obj (with_queue q p) r) = block_hash (obj p r) ∧
       is_null (obj (with_queue q p) r) = is_null (obj p r).
Proof. intros Hsd r. destruct (Hsd r) as (?&?&?&?&_). done. Qed.

(** What no method but the constructor changes. *)
Definition same_config p p' : Prop :=
  num_gpu_blocks p' = num_gpu_blocks p ∧ enable_caching p' = enable_caching p ∧
  hash_block_size p' = hash_block_size p ∧ null_block p' = null_block p ∧
  enable_kv_cache_events p' = enable_kv_cache_events p ∧
  use_int_block_hashes p' = use_int_block_hashes p.

Lemma same_config_trans p1 p2 p3 : same_config p1 p2 → same_config p2 p3 → same_config p1 p3.
Proof. unfold same_config. intuition congruence. Qed.

(** The attributes of block objects outside the links and the hash. *)
Definition same_counts p p' : Prop :=
  ∀ r, block_id (obj p' r) = block_id (obj p r) ∧ ref_cnt (obj p' r) = ref_cnt (obj p r) ∧
       is_null (obj p' r) = is_null (obj p r).

(** The effect of [_maybe_evict_cached_block]. *)
Record evicted p p' i : Prop := {
  ev_config : same_config p p';
  ev_counts : same_counts p p';
  ev_hash : ∀ r, block_hash (obj p' r) = if decide (r = Blk i) then None else block_hash (obj p r);
  ev_index : ∀ k j, key_has (cached_block_hash_to_block p') k j ↔
    key_has (cached_block_hash_to_block p) k j ∧ j ≠ i
}.

Lemma maybe_evict_correct p l pd i :
  pool_inv p l pd → in_pool p i →
  ∃ b p', _maybe_evict_cached_block (Blk i) p = (Ret b, p') ∧
    pool_inv p' l pd ∧ evicted p p' i ∧
    (b = true ↔ is_Some (block_hash (obj p (Blk i)))).
Proof.
  intros Hp Hi. unfold _maybe_evict_cached_block, bind, metric, modify, read, gets, get.
  set (p0 := with_metrics _ p). change (obj p0 (Blk i)) with (obj p (Blk i)).
  destruct (block_hash (obj p (Blk i))) as [h|] eqn:Hh.
  2:{ exists false, p0. split; [done|]. split; [by destruct Hp|]. split; [|by split; [|intros [? ?]]].
      split; try done.
      - intros r. destruct (decide (r = Blk i)) as [->|]; done.
      - intros k j. change (cached_block_hash_to_block p0) with (cached_block_hash_to_block p).
        split; [|tauto]. intros Hk. split; [done|]. intros ->.
        apply (pi_hash _ _ _ Hp) in Hk; [congruence|done]. }
  apply (pi_hash _ _ _ Hp) in Hh; [|done].
  assert (block_id (obj p (Blk i)) = i) as Hid by (by destruct (pi_ids _ _ _ Hp i)).
  destruct (pop_correct (id_of p0) (cached_block_hash_to_block p0) h i Hid (pi_index _ _ _ Hp) Hh)
    as (m' & Hpop & Hwf' & Hhas).
  rewrite Hid, Hpop. unfold update, on_queue, zoom, modify.
  set (p1 := with_queue _ _).
  assert (∀ r, obj p1 r = if decide (r = Blk i) then set_hash None (obj p (Blk i)) else obj p r)
    as Hobj by (intros r; apply (obj_updated (with_cache m' p0))).
  assert (evicted p p1 i) as Hev.
  { split; [done|..].
    - intros r. rewrite Hobj. destruct (decide (r = Blk i)) as [->|]; done.
    - intros r. rewrite Hobj. destruct (decide (r = Blk i)) as [->|]; done.
    - intros k j. simpl. rewrite Hhas. change (cached_block_hash_to_block p0) with
        (cached_block_hash_to_block p). split; intros [Hk Hn]; (split; [done|]); [|by intros [_ ?]].
      intros ->. apply Hn. split; [|done].
      apply (pi_hash _ _ _ Hp) in Hk; [|done]. apply (pi_hash _ _ _ Hp) in Hh; [|done]. congruence. }
  assert (pool_inv p1 l pd) as Hp1.
  { destruct Hp as [Hq ? ? Hb Hids Hf ? Hr ? Hha Hca].
    destruct Hev as [_ Hc Hh' Hx]. split; try done.
    - by apply queue_inv_write.
    - intros j Hj. destruct (Hb j Hj) as [Ha Hn]. split; [by apply write_is_Some|].
      by destruct (Hc (Blk j)) as (_ & _ & ->).
    - intros j. destruct (Hids j) as [Hj|Hj]; [left|by right]. by destruct (Hc (Blk j)) as (-> & _).
    - intros r. rewrite Hf. destruct (Hc r) as (_ & -> & _). done.
    - intros j Hj Hj0. destruct (Hc (Blk j)) as (_ & -> & _). by apply Hr.
    - intros j k Hj. rewrite Hh', Hx, <-Hha by done. destruct (decide (Blk j = Blk i)); naive_solver.
    - intros k j [Hk _]%Hx. by apply (Hca k). }
  destruct (enable_kv_cache_events p0).
  - eexists true, _. split; [done|]. split; [by destruct Hp1|]. split; [by destruct Hev|].
    split; [|done]. intros _. apply (pi_hash _ _ _ Hp) in Hh; [|done]. eauto.
  - eexists true, _. split; [done|]. split; [done|]. split; [done|].
    split; [|done]. intros _. apply (pi_hash _ _ _ Hp) in Hh; [|done]. eauto.
Qed.

(** ** Allocation *)

(** A block that leaves the pending set gets its first reference. *)
Record taken p p' (caching : bool) i : Prop := {
  tk_config : same_config p p';
  tk_null : ∀ r, is_null (obj p' r) = is_null (obj p r);
  tk_ref : ∀ r, ref_cnt (obj p' r) = if decide (r = Blk i) then 1 else ref_cnt (obj p r);
  tk_hash : ∀ r, block_hash (obj p' r) =
    if decide (r = Blk i) then (if caching then None else block_hash (obj p r))
    else block_hash (obj p r)
}.

Lemma count_first_ref p l pd i :
  pool_inv p l (Blk i :: pd) → Blk i ∉ pd →
  pool_inv (updated p (Blk i) (λ b, set_ref_cnt (ref_cnt b + 1) b)) l pd.
Proof.
  intros [Hq ? ? Hb Hids Hf Hd Hr ? Hha ?] Hni. set (p' := updated _ _ _).
  assert (∀ r, obj p' r = if decide (r = Blk i) then set_ref_cnt (ref_cnt (obj p (Blk i)) + 1) (obj p (Blk i))
    else obj p r) as Hobj
    by (intros r; exact (obj_updated p (Blk i) (λ b, set_ref_cnt (ref_cnt b + 1) b) r)).
  assert (ref_cnt (obj p (Blk i)) = 0) as H0.
  { destruct (Hf (Blk i)) as [Hf' _]. destruct Hf' as (j & [= <-] & _ & _ & H0); [set_solver|done]. }
  split; try done.
  - by apply queue_inv_write.
  - intros j Hj. destruct (Hb j Hj) as [Ha Hn]. split; [by apply write_is_Some|].
    rewrite Hobj. by destruct (decide (Blk j = Blk i)) as [[= ->]|].
  - intros j. rewrite Hobj. destruct (decide (Blk j = Blk i)) as [[= ->]|]; apply Hids.
  - intros r. rewrite Hobj. specialize (Hf r). destruct (decide (r = Blk i)) as [->|Hne].
    + simpl. rewrite H0. split; [|intros (? & _ & _ & _ & ?); lia].
      intros [Hl|?]; [|done]. exfalso. by apply (Hd (Blk i)); [set_solver|].
    + change (in_pool p') with (in_pool p). rewrite <-Hf. set_solver.
  - intros r Hr'. apply Hd. set_solver.
  - intros j Hj Hj0. rewrite Hobj. specialize (Hr j Hj Hj0).
    destruct (decide (Blk j = Blk i)) as [[= ->]|]; simpl; [lia|done].
  - intros j k Hj. rewrite Hobj. destruct (decide (Blk j = Blk i)) as [[= ->]|]; simpl; by apply Hha.
Qed.

Lemma take_block_correct p l pd i :
  pool_inv p l (Blk i :: pd) → Blk i ∉ pd → in_pool p i →
  ∃ p', take_block (enable_caching p) (Blk i) p = (Ret tt, p') ∧ pool_inv p' l pd ∧
    taken p p' (enable_caching p) i.
Proof.
  intros Hp Hni Hi. unfold take_block.
  assert (∃ p1, (if enable_caching p
      then _ <- _maybe_evict_cached_block (Blk i) ;; ret tt else ret tt) p = (Ret tt, p1) ∧
    pool_inv p1 l (Blk i :: pd) ∧ same_config p p1 ∧ same_counts p p1 ∧
    ∀ r, block_hash (obj p1 r) = if decide (r = Blk i)
      then (if enable_caching p then None else block_hash (obj p r)) else block_hash (obj p r))
    as (p1 & Hrun & Hp1 & Hcfg & Hcnt & Hhash).
  { destruct (enable_caching p).
    - destruct (maybe_evict_correct p l _ i Hp Hi) as (b & p1 & Hrun & Hp1 & [? ? ? ?] & _).
      exists p1. unfold bind. by rewrite Hrun.
    - exists p. split_and!; try done. intros r. by case_decide. }
  assert (ref_cnt (obj p1 (Blk i)) = 0) as H0.
  { destruct (pi_free _ _ _ Hp1 (Blk i)) as [Hf' _].
    destruct Hf' as (j & [= <-] & _ & _ & H0); [set_solver|done]. }
  unfold bind at 1. rewrite Hrun. unfold bind, read, gets, assert_.
  rewrite bool_decide_true by done. unfold ret, metric, modify. rewrite update_run.
  set (p2 := updated p1 (Blk i) _). set (p3 := with_metrics _ p2).
  assert (pool_inv p2 l pd) as Hp2 by by apply count_first_ref.
  assert (∀ r, obj p3 r = if decide (r = Blk i) then set_ref_cnt (ref_cnt (obj p1 (Blk i)) + 1) (obj p1 (Blk i))
    else obj p1 r) as Hobj
    by (intros r; exact (obj_updated p1 (Blk i) (λ b, set_ref_cnt (ref_cnt b + 1) b) r)).
  exists p3. split; [done|]. split; [by destruct Hp2|]. split; [done|..].
  - intros r. rewrite Hobj. destruct (Hcnt r) as (_ & _ & <-). by destruct (decide (r = Blk i)) as [->|].
  - intros r. rewrite Hobj. destruct (Hcnt r) as (_ & <- & _).
    destruct (decide (r = Blk i)) as [->|]; simpl; [by rewrite H0|done].
  - intros r. rewrite Hobj. rewrite <-Hhash. by destruct (decide (r = Blk i)) as [->|].
Qed.

Lemma same_config_in_pool p p' i : same_config p p' → in_pool p' i ↔ in_pool p i.
Proof. unfold in_pool. by intros [-> _]. Qed.

(** Blocks that leave the queue move to the pending set. *)
Lemma leave_queue p q l l1 l2 :
  pool_inv p l [] → queue_inv q l2 → (∀ r, r ∈ l ↔ r ∈ l2 ∨ r ∈ l1) → (∀ r, r ∈ l1 → r ∉ l2) →
  same_data (blocks (free_block_queue p)) (blocks q) →
  pool_inv (with_queue q p) l2 l1.
Proof.
  intros [Hq ? ? Hb Hids Hf _ Hr ? Hha ?] Hq2 Hl Hd Hsd.
  pose proof (obj_same_data p q Hsd) as Ho. split; try done.
  - intros i Hi. destruct (Hb i Hi) as [Ha Hn]. split; [by apply Hsd|].
    by destruct (Ho (Blk i)) as (_ & _ & _ & ->).
  - intros i. by destruct (Ho (Blk i)) as (-> & _).
  - intros r. destruct (Ho r) as (_ & -> & _). change (in_pool (with_queue q p)) with (in_pool p).
    rewrite <-Hf, <-Hl. set_solver.
  - intros i Hi Hi0. destruct (Ho (Blk i)) as (_ & -> & _). by apply Hr.
  - intros i k Hi. destruct (Ho (Blk i)) as (_ & _ & -> & _). by apply Hha.
Qed.

Lemma free_list_nodup p l pd : pool_inv p l pd → NoDup l.
Proof.
  intros Hp. destruct (pi_queue _ _ _ Hp) as [Hq _]. pose proof (qr_nodup _ _ Hq) as Hnd.
  unfold full in Hnd. apply NoDup_cons in Hnd as [_ Hnd]. by apply NoDup_app in Hnd as (? & _ & _).
Qed.

Lemma take_loop_correct p l bs :
  pool_inv p l bs → NoDup bs →
  ∃ p', for_each bs (take_block (enable_caching p)) p = (Ret tt, p') ∧ pool_inv p' l [] ∧
    same_config p p' ∧ (∀ r, is_null (obj p' r) = is_null (obj p r)) ∧
    (∀ r, ref_cnt (obj p' r) = if decide (r ∈ bs) then 1 else ref_cnt (obj p r)) ∧
    (∀ r, block_hash (obj p' r) =
       if decide (r ∈ bs) then (if enable_caching p then None else block_hash (obj p r))
       else block_hash (obj p r)).
Proof.
  revert p. induction bs as [|b bs IH]; intros p Hp Hnd; simpl.
  { exists p. split_and!; try done; intros r; by rewrite decide_False by set_solver. }
  apply NoDup_cons in Hnd as [Hb Hnd].
  assert (∃ i, b = Blk i ∧ in_pool p i) as (i & -> & Hi).
  { destruct (pi_free _ _ _ Hp b) as [Hf _]. destruct Hf as (i & -> & ? & _); [set_solver|eauto]. }
  destruct (take_block_correct p l bs i Hp Hb Hi) as (p1 & Hrun & Hp1 & [Hcfg Hnull Href Hhash]).
  assert (enable_caching p1 = enable_caching p) as Hec by (by destruct Hcfg as (_ & ? & _)).
  destruct (IH p1 Hp1 Hnd) as (p2 & Hrun2 & Hp2 & Hcfg2 & Hnull2 & Href2 & Hhash2).
  rewrite Hec in Hrun2, Hhash2.
  exists p2. unfold bind. rewrite Hrun. split_and!; [done|done|by eapply same_config_trans| | |].
  - intros r. by rewrite Hnull2, Hnull.
  - intros r. rewrite Href2, Href. destruct (decide (r = Blk i)) as [->|Hne].
    + rewrite (decide_False (P := Blk i ∈ bs)), (decide_True (P := Blk i ∈ Blk i :: bs)) by set_solver.
      done.
    + apply decide_ext. set_solver.
  - intros r. rewrite Hhash2, Hhash. destruct (decide (r = Blk i)) as [->|Hne].
    + rewrite (decide_False (P := Blk i ∈ bs)), (decide_True (P := Blk i ∈ Blk i :: bs)) by set_solver.
      done.
    + apply decide_ext. set_solver.
Qed.

Lemma get_new_blocks_spec p l n :
  pool_inv p l [] → 0 ≤ n →
  if decide (n ≤ Z.of_nat (length l)) then
    ∃ p', get_new_blocks n p = (Ret (take (Z.to_nat n) l), p') ∧
      pool_inv p' (drop (Z.to_nat n) l) [] ∧ same_config p p' ∧
      ∀ r, let new := r ∈ take (Z.to_nat n) l in
        ref_cnt (obj p' r) = (if decide new then 1 else ref_cnt (obj p r)) ∧
        block_hash (obj p' r) =
          (if decide (new ∧ enable_caching p = true) then None else block_hash (obj p r))
  else get_new_blocks n p = (Raise ValueError, p).
Proof.
  intros Hp Hn. destruct (pi_queue _ _ _ Hp) as [Hq Hnum].
  unfold get_new_blocks, bind, get, get_num_free_blocks. rewrite Hnum. case_decide as Hle.
  2:{ by rewrite bool_decide_true by lia. }
  rewrite bool_decide_false by lia. set (l1 := take (Z.to_nat n) l). set (l2 := drop (Z.to_nat n) l).
  assert (queue_inv (free_block_queue p) (l1 ++ l2)) as Hq' by (unfold l1, l2; by rewrite take_drop).
  destruct (popleft_n_correct _ l1 l2 Hq') as (q & Hpop & Hq2 & Hsd).
  assert (Z.of_nat (length l1) = n) as Hl1 by (unfold l1; rewrite length_take; lia).
  rewrite Hl1 in Hpop. unfold on_queue, zoom. rewrite Hpop.
  pose proof (free_list_nodup _ _ _ Hp) as Hnd0. rewrite <-(take_drop (Z.to_nat n) l) in Hnd0.
  apply NoDup_app in Hnd0 as (Hnd & Hdis & _). fold l1 l2 in Hnd, Hdis.
  assert (pool_inv (with_queue q p) l2 l1) as Hp1.
  { apply (leave_queue p q l); [done|done| |done|done]. intros r.
    rewrite <-(take_drop (Z.to_nat n) l), elem_of_app. fold l1 l2. tauto. }
  pose proof (obj_same_data p q Hsd) as Ho.
  destruct (take_loop_correct _ _ _ Hp1 Hnd) as (p2 & Hrun & Hp2 & Hcfg & _ & Href & Hhash).
  change (enable_caching (with_queue q p)) with (enable_caching p) in *. rewrite Hrun.
  exists p2. split; [done|]. split; [done|]. split; [exact Hcfg|]. intros r. cbv zeta. split.
  - rewrite Href. by destruct (Ho r) as (_ & -> & _).
  - rewrite Hhash. destruct (Ho r) as (_ & _ & -> & _).
    destruct (enable_caching p); repeat case_decide; naive_solver.
Qed.

(** C21: [get_new_blocks(n)] with at least [n] free blocks returns the first [n]
    blocks of the free list, in eviction order, each with one reference and (with
    caching on) without the hash it may have had, and touches no other block's
    count or hash; with fewer it raises [ValueError] and changes nothing. *)
Theorem get_new_blocks_correct p l n :
  pool_inv p l [] → 0 ≤ n →
  if decide (n ≤ Z.of_nat (length l)) then
    ∃ p', get_new_blocks n p = (Ret (take (Z.to_nat n) l), p') ∧
      pool_inv p' (drop (Z.to_nat n) l) [] ∧
      ∀ r, let new := r ∈ take (Z.to_nat n) l in
        ref_cnt (obj p' r) = (if decide new then 1 else ref_cnt (obj p r)) ∧
        block_hash (obj p' r) =
          (if decide (new ∧ enable_caching p = true) then None else block_hash (obj p r))
  else get_new_blocks n p = (Raise ValueError, p).
Proof.
  intros Hp Hn. pose proof (get_new_blocks_spec p l n Hp Hn) as Hs. case_decide; [|done].
  destruct Hs as (p' & Hrun & Hp' & _ & Hr). by exists p'.
Qed.

(** ** Referencing cached blocks *)

(** Only reference counts differ. *)
Definition same_cache p p' : Prop :=
  same_config p p' ∧ cached_block_hash_to_block p' = cached_block_hash_to_block p ∧
  ∀ r, is_null (obj p' r) = is_null (obj p r) ∧ block_hash (obj p' r) = block_hash (obj p r).

Lemma same_cache_refl p : same_cache p p.
Proof. done. Qed.
Lemma same_cache_trans p1 p2 p3 : same_cache p1 p2 → same_cache p2 p3 → same_cache p1 p3.
Proof.
  intros (Hc & Hi & Ho) (Hc' & Hi' & Ho'). split_and!; [by eapply same_config_trans|congruence|].
  intros r. destruct (Ho r), (Ho' r). split; congruence.
Qed.

Lemma in_free_list p l i :
  pool_inv p l [] → in_pool p i → i ≠ 0 → (Blk i ∈ l ↔ ref_cnt (obj p (Blk i)) = 0).
Proof.
  intros Hp Hi Hi0. pose proof (pi_free _ _ _ Hp (Blk i)) as Hf. split.
  - intros Hl. destruct Hf as [Hf _]. destruct Hf as (j & [= <-] & _ & _ & ?); [by left|done].
  - intros H0. destruct Hf as [_ Hf]. destruct Hf as [?|Hn]; [by exists i|done|].
    by apply not_elem_of_nil in Hn.
Qed.

(** A count that stays positive, or the null block's count, may change freely. *)
Lemma count_change p l i n :
  pool_inv p l [] → in_pool p i → (i = 0 ∨ 0 < n ∧ ref_cnt (obj p (Blk i)) ≠ 0) →
  pool_inv (updated p (Blk i) (set_ref_cnt n)) l [].
Proof.
  intros Hp Hi Hn. pose proof (in_free_list p l i Hp Hi) as Hl.
  destruct Hp as [Hq ? ? Hb Hids Hf Hd Hr ? Hha ?]. set (p' := updated _ _ _).
  assert (∀ r, obj p' r = if decide (r = Blk i) then set_ref_cnt n (obj p (Blk i)) else obj p r)
    as Hobj by (intros r; apply obj_updated).
  split; try done.
  - by apply queue_inv_write.
  - intros j Hj. destruct (Hb j Hj) as [Ha Hnl]. split; [by apply write_is_Some|].
    rewrite Hobj. by destruct (decide (Blk j = Blk i)) as [[= ->]|].
  - intros j. rewrite Hobj. destruct (decide (Blk j = Blk i)) as [[= ->]|]; apply Hids.
  - intros r. rewrite Hf. change (in_pool p') with (in_pool p). rewrite Hobj.
    destruct (decide (r = Blk i)) as [->|Hne]; [|done]. simpl.
    split; intros (j & [= <-] & Hj & Hj0 & Href); destruct Hn as [?|[? ?]]; try done; lia.
  - intros j Hj Hj0. rewrite Hobj. destruct (decide (Blk j = Blk i)) as [[= ->]|]; [|by apply Hr].
    simpl. destruct Hn as [?|[? ?]]; [done|lia].
  - intros j k Hj. rewrite Hobj. destruct (decide (Blk j = Blk i)) as [[= ->]|]; simpl; by apply Hha.
Qed.

Definition count_in (r : ref) (bs : list ref) : Z := Z.of_nat (length (filter (.= r) bs)).

(** The effect of touching one block. *)
Lemma touch_one p l i :
  pool_inv p l [] → in_pool p i →
  ∃ p', (b <- read (Blk i) ;;
    (if bool_decide (ref_cnt b = 0) && negb (is_null b) then on_queue (remove (Blk i)) else ret tt) ;;
    update (Blk i) (λ b, set_ref_cnt (ref_cnt b + 1) b) ;;
    metric (on_block_accessed (Blk i))) p = (Ret tt, p') ∧
    pool_inv p' (filter (.≠ Blk i) l) [] ∧ same_cache p p' ∧
    ∀ r, ref_cnt (obj p' r) = ref_cnt (obj p r) + (if decide (r = Blk i) then 1 else 0).
Proof.
  intros Hp Hi. destruct (pi_blocks _ _ _ Hp i Hi) as [_ Hnull].
  unfold bind at 1, read, gets. rewrite Hnull.
  assert (∀ p1 l1, pool_inv (updated p1 (Blk i) (λ b, set_ref_cnt (ref_cnt b + 1) b)) l1 [] →
    same_cache p p1 → (∀ r, ref_cnt (obj p1 r) = ref_cnt (obj p r)) →
    ∃ p', (update (Blk i) (λ b, set_ref_cnt (ref_cnt b + 1) b) ;;
      metric (on_block_accessed (Blk i))) p1 = (Ret tt, p') ∧
    pool_inv p' l1 [] ∧ same_cache p p' ∧
    ∀ r, ref_cnt (obj p' r) = ref_cnt (obj p r) + (if decide (r = Blk i) then 1 else 0)) as Hfin.
  { intros p1 l1 Hp1 (Hc & Hi1 & Ho1) Href. unfold bind. rewrite update_run. unfold metric, modify.
    eexists. split; [done|]. set (p2 := updated _ _ _) in *. set (p3 := with_metrics _ p2).
    assert (∀ r, obj p3 r = if decide (r = Blk i)
      then set_ref_cnt (ref_cnt (obj p1 (Blk i)) + 1) (obj p1 (Blk i)) else obj p1 r) as Hobj
      by (intros r; exact (obj_updated p1 (Blk i) (λ b, set_ref_cnt (ref_cnt b + 1) b) r)).
    split; [by destruct Hp1|]. split; [split; [done|split; [done|]]|].
    - intros r. rewrite Hobj. destruct (decide (r = Blk i)) as [->|]; apply Ho1.
    - intros r. rewrite Hobj. destruct (decide (r = Blk i)) as [->|]; simpl; rewrite Href; lia. }
  destruct (decide (ref_cnt (obj p (Blk i)) = 0 ∧ i ≠ 0)) as [[H0 Hi0]|Hnz].
  - rewrite bool_decide_true, bool_decide_false by done. simpl.
    assert (Blk i ∈ l) as Hl by (by apply (in_free_list p l i)).
    apply list_elem_of_split in Hl as (l1 & l2 & ->).
    pose proof (free_list_nodup _ _ _ Hp) as Hnd. rewrite filter_split by done.
    destruct (remove_correct _ l1 (Blk i) l2 (pi_queue _ _ _ Hp)) as (q & Hrm & Hq & Hsd).
    unfold bind at 1, on_queue at 1, zoom at 1. rewrite Hrm.
    pose proof (obj_same_data p q Hsd) as Ho. apply Hfin.
    + apply count_first_ref; [|set_solver].
      apply NoDup_app in Hnd as (_ & Hd & Hnd). apply NoDup_cons in Hnd as [Hx _].
      apply (leave_queue p q (l1 ++ Blk i :: l2)); [done|done|set_solver| |done].
      intros r ->%list_elem_of_singleton. specialize (Hd (Blk i)). set_solver.
    + split; [done|split; [done|]]. intros r. destruct (Ho r) as (_ & _ & -> & ->). done.
    + intros r. by destruct (Ho r) as (_ & -> & _).
  - assert (bool_decide (ref_cnt (obj p (Blk i)) = 0) && negb (bool_decide (i = 0)) = false) as ->.
    { apply andb_false_iff. rewrite negb_false_iff, bool_decide_eq_true, bool_decide_eq_false. lia. }
    assert (Blk i ∉ l) as Hl.
    { intros Hl. destruct (pi_free _ _ _ Hp (Blk i)) as [Hf _].
      destruct Hf as (j & [= <-] & ? & ? & ?); [by left|tauto]. }
    rewrite filter_all by set_solver. unfold bind at 1, ret at 1. apply Hfin; [|done|done].
    apply (count_change p l i (ref_cnt (obj p (Blk i)) + 1)); [done|done|].
    destruct (decide (i = 0)) as [|Hi0]; [by left|right].
    pose proof (pi_ref _ _ _ Hp i Hi Hi0). lia.
Qed.

(** [touch] adds one reference per occurrence to each block of the list and
    takes the blocks that were free out of the free queue, keeping the order of
    the others; hashes and the prefix-cache index are untouched. *)
Lemma touch_correct p l ids :
  pool_inv p l [] → (∀ i, i ∈ ids → in_pool p i) →
  ∃ p', touch (Blk <$> ids) p = (Ret tt, p') ∧
    pool_inv p' (filter (.∉ Blk <$> ids) l) [] ∧ same_cache p p' ∧
    ∀ r, ref_cnt (obj p' r) = ref_cnt (obj p r) + count_in r (Blk <$> ids).
Proof.
  revert p l. induction ids as [|i ids IH]; intros p l Hp Hids.
  { exists p. split_and!; [done| |done|intros r; unfold count_in; simpl; lia].
    rewrite filter_all by set_solver. done. }
  destruct (touch_one p l i Hp) as (p1 & Hrun & Hp1 & Hc1 & Href1); [set_solver|].
  destruct (IH p1 _ Hp1) as (p2 & Hrun2 & Hp2 & Hc2 & Href2).
  { intros j Hj. apply (same_config_in_pool p); [apply Hc1|set_solver]. }
  exists p2. split_and!; [| |by eapply same_cache_trans|].
  - unfold touch in *. csimpl. unfold bind at 1. rewrite Hrun. exact Hrun2.
  - rewrite list_filter_filter in Hp2. erewrite list_filter_iff; [exact Hp2|].
    intros r. simpl. set_solver.
  - intros r. rewrite Href2, Href1. unfold count_in. csimpl. rewrite filter_cons.
    destruct (decide (r = Blk i)) as [->|Hne]; [rewrite decide_True by done|rewrite decide_False by done];
      simpl; lia.
Qed.

(** ** Releasing references *)

(** The blocks of [bs] that lose their last reference. *)
Definition last_refs p (bs : list ref) : list ref :=
  filter (λ b, b ≠ Blk 0 ∧ ref_cnt (obj p b) = 1) bs.

Lemma release_one p l pd i :
  pool_inv p l pd → in_pool p i → (i ≠ 0 → 0 < ref_cnt (obj p (Blk i))) →
  pool_inv (updated p (Blk i) (λ b, set_ref_cnt (ref_cnt b - 1) b)) l (pd ++ last_refs p [Blk i]).
Proof.
  intros Hp Hi Hpos. pose proof Hp as [Hq ? ? Hb Hids Hf Hd Hr ? Hha ?]. set (p' := updated _ _ _).
  assert (∀ r, obj p' r = if decide (r = Blk i)
    then set_ref_cnt (ref_cnt (obj p (Blk i)) - 1) (obj p (Blk i)) else obj p r) as Hobj
    by (intros r; exact (obj_updated p (Blk i) (λ b, set_ref_cnt (ref_cnt b - 1) b) r)).
  assert (∀ r, r ∈ last_refs p [Blk i] ↔ r = Blk i ∧ i ≠ 0 ∧ ref_cnt (obj p (Blk i)) = 1) as Hlr.
  { intros r. unfold last_refs. rewrite list_elem_of_filter, list_elem_of_singleton.
    split; [intros [[? ?] ->]|intros (-> & ? & ?)]; split_and!; congruence. }
  assert (i ≠ 0 → Blk i ∉ l ∧ Blk i ∉ pd) as Hout.
  { intros Hi0. specialize (Hpos Hi0). specialize (Hf (Blk i)). split; intros Hin;
      destruct Hf as [Hf _]; (destruct Hf as (j & [= <-] & _ & _ & ?); [by auto|lia]). }
  split; try done.
  - by apply queue_inv_write.
  - intros j Hj. destruct (Hb j Hj) as [Ha Hn]. split; [by apply write_is_Some|].
    rewrite Hobj. by destruct (decide (Blk j = Blk i)) as [[= ->]|].
  - intros j. rewrite Hobj. destruct (decide (Blk j = Blk i)) as [[= ->]|]; apply Hids.
  - intros r. rewrite elem_of_app, Hlr. change (in_pool p') with (in_pool p). rewrite Hobj.
    specialize (Hf r). destruct (decide (r = Blk i)) as [->|Hne]; [|naive_solver].
    simpl. split.
    + intros [Hin|[Hin|(_ & ? & ?)]].
      * destruct Hf as [Hf _]. destruct Hf as (j & [= <-] & ? & Hj0 & ?); [by auto|].
        destruct (Hout Hj0). done.
      * destruct Hf as [Hf _]. destruct Hf as (j & [= <-] & ? & Hj0 & ?); [by auto|].
        destruct (Hout Hj0). done.
      * exists i. split_and!; [done..|lia].
    + intros (j & [= <-] & ? & ? & ?). right. right. split_and!; [done..|lia].
  - intros r [Hin|Hin]%elem_of_app; [by apply Hd|]. apply Hlr in Hin as (-> & Hi0 & _).
    by apply Hout.
  - intros j Hj Hj0. rewrite Hobj. destruct (decide (Blk j = Blk i)) as [[= ->]|]; [|by apply Hr].
    simpl. specialize (Hpos Hj0). lia.
  - intros j k Hj. rewrite Hobj. destruct (decide (Blk j = Blk i)) as [[= ->]|]; simpl; by apply Hha.
Qed.

(** What callers of [free_blocks] ensure: pool blocks, each but the null block
    once and referenced. *)
Record freeable p (ids : list Z) : Prop := {
  fr_pool : ∀ i, i ∈ ids → in_pool p i;
  fr_once : NoDup (filter (.≠ 0) ids);
  fr_refs : ∀ i, i ∈ ids → i ≠ 0 → 0 < ref_cnt (obj p (Blk i))
}.

Lemma release_loop p l pd ids :
  pool_inv p l pd → freeable p ids →
  ∃ p', for_each (Blk <$> ids) (λ b, update b (λ b, set_ref_cnt (ref_cnt b - 1) b)) p = (Ret tt, p') ∧
    pool_inv p' l (pd ++ last_refs p (Blk <$> ids)) ∧ same_cache p p' ∧
    ∀ r, ref_cnt (obj p' r) = ref_cnt (obj p r) - count_in r (Blk <$> ids).
Proof.
  revert p pd. induction ids as [|i ids IH]; intros p pd Hp [Hin Hnd Href].
  { exists p. split_and!; [done| |done|intros r; unfold count_in; simpl; lia].
    by rewrite app_nil_r. }
  set (p1 := updated p (Blk i) (λ b, set_ref_cnt (ref_cnt b - 1) b)).
  assert (∀ r, obj p1 r = if decide (r = Blk i)
    then set_ref_cnt (ref_cnt (obj p (Blk i)) - 1) (obj p (Blk i)) else obj p r) as Hobj
    by (intros r; exact (obj_updated p (Blk i) (λ b, set_ref_cnt (ref_cnt b - 1) b) r)).
  assert (pool_inv p1 l (pd ++ last_refs p [Blk i])) as Hp1.
  { apply release_one; [done|apply Hin; set_solver|]. intros Hi0. apply Href; [set_solver|done]. }
  assert (∀ j, j ∈ ids → j ≠ 0 → j ≠ i) as Hji.
  { intros j Hj Hj0 ->. rewrite filter_cons, decide_True in Hnd by done.
    apply NoDup_cons in Hnd as [Hnd _]. apply Hnd, list_elem_of_filter. done. }
  destruct (IH p1 _ Hp1) as (p2 & Hrun & Hp2 & Hc2 & Href2).
  { split.
    - intros j Hj. apply (Hin j). set_solver.
    - rewrite filter_cons in Hnd. case_decide; [|done]. by apply NoDup_cons in Hnd as [_ ?].
    - intros j Hj Hj0. rewrite Hobj, decide_False by (intros [= ->]; by apply (Hji i)).
      apply Href; [set_solver|done]. }
  exists p2. csimpl. unfold bind. rewrite update_run. fold p1. split_and!; [exact Hrun| | |].
  - unfold last_refs in *. rewrite <-app_assoc in Hp2. rewrite filter_cons in Hp2.
    rewrite filter_cons. rewrite filter_nil in Hp2.
    erewrite (filter_ext_in _ (λ b, b ≠ Blk 0 ∧ ref_cnt (obj p b) = 1) (Blk <$> ids)) in Hp2.
    { case_decide; [exact Hp2|by simpl in Hp2]. }
    intros r (j & -> & Hj)%list_elem_of_fmap. rewrite Hobj. destruct (decide (j = 0)) as [->|Hj0].
    + split; by intros [? _].
    + by rewrite decide_False by (intros [= ->]; by apply (Hji i)).
  - eapply same_cache_trans; [|exact Hc2]. split; [done|split; [done|]]. intros r. rewrite Hobj.
    destruct (decide (r = Blk i)) as [->|]; done.
  - intros r. rewrite Href2, Hobj. unfold count_in. rewrite filter_cons.
    destruct (decide (r = Blk i)) as [->|Hne]; [rewrite decide_True by done|rewrite decide_False by done];
      simpl; lia.
Qed.

Lemma free_blocks_spec p l ids :
  pool_inv p l [] → freeable p ids →
  ∃ p', free_blocks (Blk <$> ids) p = (Ret tt, p') ∧
    pool_inv p' (l ++ last_refs p (Blk <$> ids)) [] ∧ same_cache p p' ∧
    ∀ r, ref_cnt (obj p' r) = ref_cnt (obj p r) - count_in r (Blk <$> ids).
Proof.
  intros Hp Hfr. destruct (release_loop p l [] ids Hp Hfr) as (p1 & Hrun & Hp1 & Hc1 & Href1).
  simpl in Hp1. set (out := last_refs p (Blk <$> ids)) in *.
  assert (NoDup out) as Hnd.
  { unfold out, last_refs. pose proof (fr_once _ _ Hfr) as Hnd.
    assert (filter (λ b, b ≠ Blk 0 ∧ ref_cnt (obj p b) = 1) (Blk <$> ids) `sublist_of`
            Blk <$> filter (.≠ 0) ids) as Hsub.
    { clear. induction ids as [|i ids IH]; [done|]. csimpl. rewrite !filter_cons.
      destruct (decide (i ≠ 0)); destruct (decide (Blk i ≠ Blk 0 ∧ _)) as [[? ?]|]; csimpl.
      - by constructor.
      - by constructor.
      - exfalso. apply n. by intros ->.
      - done. }
    eapply sublist_NoDup; [|exact Hsub]. apply NoDup_fmap_2; [by intros ?? [=]|done]. }
  assert (filter (λ b, ref_cnt (obj p1 b) = 0 ∧ is_null (obj p1 b) = false) (Blk <$> ids) = out) as Hout.
  { apply filter_ext_in. intros r (i & -> & Hi)%list_elem_of_fmap.
    pose proof (fr_pool _ _ Hfr i Hi) as Hpool. destruct (pi_blocks _ _ _ Hp i Hpool) as [_ Hnull].
    destruct Hc1 as (_ & _ & Ho). destruct (Ho (Blk i)) as [-> _]. rewrite Hnull, Href1.
    rewrite bool_decide_eq_false. destruct (decide (i = 0)) as [->|Hi0].
    { split; [by intros [_ ?]|by intros [? _]]. }
    assert (count_in (Blk i) (Blk <$> ids) = 1) as ->; [|split; intros [? ?]; split; congruence || lia].
    unfold count_in. pose proof (fr_once _ _ Hfr) as Hn.
    assert (filter (.= Blk i) (Blk <$> ids) = [Blk i]) as ->; [|done].
    clear -Hi Hi0 Hn. induction ids as [|j ids IH]; [by apply not_elem_of_nil in Hi|].
    csimpl. rewrite filter_cons. rewrite filter_cons in Hn. destruct (decide (j = i)) as [->|Hne].
    - rewrite decide_True in Hn by done. apply NoDup_cons in Hn as [Hni Hn].
      rewrite decide_True by done. f_equal. apply filter_none.
      intros r (j & -> & Hj)%list_elem_of_fmap [= ->]. apply Hni, list_elem_of_filter. done.
    - rewrite decide_False by congruence. apply IH; [set_solver|].
      case_decide; [by apply NoDup_cons in Hn as [_ ?]|done]. }
  unfold free_blocks, bind at 1. rewrite Hrun. unfold bind, get, on_queue, zoom. rewrite Hout.
  destruct (append_n_correct (free_block_queue p1) l out (pi_queue _ _ _ Hp1) Hnd) as (q & Happ & Hq & Hsd).
  { intros r Hr. destruct (pi_free _ _ _ Hp1 r) as [Hf _]. destruct Hf as (i & -> & Hi & _); [by right|].
    split_and!; [by apply (pi_disj _ _ _ Hp1)|eauto|]. by apply (pi_blocks _ _ _ Hp1). }
  rewrite Happ. exists (with_queue q p1). pose proof (obj_same_data p1 q Hsd) as Ho. split_and!; [done| | |].
  - destruct Hp1 as [Hq1 ? ? Hb Hids Hf _ Hr ? Hha ?]. split; try done.
    + intros i Hi. destruct (Hb i Hi) as [Ha Hn]. split; [by apply Hsd|].
      by destruct (Ho (Blk i)) as (_ & _ & _ & ->).
    + intros i. by destruct (Ho (Blk i)) as (-> & _).
    + intros r. destruct (Ho r) as (_ & -> & _). change (in_pool (with_queue q p1)) with (in_pool p1).
      rewrite <-Hf, elem_of_app. set_solver.
    + set_solver.
    + intros i Hi Hi0. destruct (Ho (Blk i)) as (_ & -> & _). by apply Hr.
    + intros i k Hi. destruct (Ho (Blk i)) as (_ & _ & -> & _). by apply Hha.
  - eapply same_cache_trans; [exact Hc1|]. split; [done|split; [done|]]. intros r.
    by destruct (Ho r) as (_ & _ & -> & ->).
  - intros r. destruct (Ho r) as (_ & -> & _). apply Href1.
Qed.

(** C23: [free_blocks] drops one reference of each block of the list and puts
    the blocks whose last reference this was at the back of the free queue, in
    the given order, still findable by their hash; the null block never enters
    the queue. *)
Theorem free_blocks_correct p l ids :
  pool_inv p l [] → freeable p ids →
  ∃ p', free_blocks (Blk <$> ids) p = (Ret tt, p') ∧
    pool_inv p' (l ++ last_refs p (Blk <$> ids)) [] ∧ same_cache p p' ∧
    ∀ r, ref_cnt (obj p' r) = ref_cnt (obj p r) - count_in r (Blk <$> ids).
Proof. apply free_blocks_spec. Qed.
