(* ===== verification/BlockPoolCache.v ===== *)
(** * The block pool: construction, caching full blocks, lookup, eviction, reset

    The rest of [BlockPool]: the constructor establishes the invariant of
    [BlockPoolProps], the operations on the prefix-cache index preserve it. *)

From S2P Require Import Prelude OrderedDict FreeQueue BlockHash BlockPool BlockPoolProps.

Open Scope Z_scope.
Import FreeKVCacheBlockQueue QueueProps BlockPool.
Implicit Types (p : BlockPool.t) (l : list ref) (i j : Z) (r : ref).

(** ** Construction *)
Lemma fresh_heap_lookup n i :
  fresh_heap n !! Blk i = if decide (0 ≤ i < n) then Some (new_block i) else None.
Proof.
  unfold fresh_heap. case_decide as Hi.
  - apply elem_of_list_to_map.
    + rewrite <-list_fmap_compose. apply NoDup_fmap_2; [by intros ?? [=]|apply NoDup_seqZ].
    + apply list_elem_of_fmap. exists i. split; [done|]. unfold py_range. rewrite elem_of_seqZ. lia.
  - apply not_elem_of_list_to_map_1. rewrite <-list_fmap_compose.
    intros (j & [= ->] & Hj)%list_elem_of_fmap. unfold py_range in Hj. rewrite elem_of_seqZ in Hj. lia.
Qed.

Lemma fresh_heap_obj n i :
  let b := fresh_heap n !!! Blk i in
  nxt (fresh_heap n) (Blk i) = None ∧ prv (fresh_heap n) (Blk i) = None ∧ ref_cnt b = 0 ∧
  block_hash b = None ∧ is_null b = false ∧ (0 ≤ i < n → block_id b = i).
Proof.
  unfold nxt, prv. rewrite lookup_total_alt, fresh_heap_lookup.
  by destruct (decide (0 ≤ i < n)).
Qed.

Lemma pool_init_correct n ec hbs ev m ui :
  0 < n →
  ∃ p, BlockPool.init n ec hbs ev m ui = Ret p ∧ pool_inv p (Blk <$> seqZ 1 (n - 1)) [] ∧
    num_gpu_blocks p = n ∧ enable_caching p = ec ∧ hash_block_size p = hbs ∧
    enable_kv_cache_events p = ev ∧ cached_block_hash_to_block p = ∅ ∧
    ∀ i, in_pool p i → ref_cnt (obj p (Blk i)) = 0 ∧ block_hash (obj p (Blk i)) = None.
Proof.
  intros Hn. unfold BlockPool.init. rewrite bool_decide_true by done. simpl.
  pose proof (fresh_heap_obj n) as Hfr.
  destruct (queue_init_correct n (FreeKVCacheBlockQueue.mk (fresh_heap n) 0)) as (q & Hrun & Hq & Hd).
  { lia. }
  { intros i. by destruct (Hfr i) as (? & ? & _). }
  { intros i Hi. simpl. rewrite fresh_heap_lookup, decide_True by lia. eauto. }
  assert (ids n = Blk 0 :: (Blk <$> seqZ 1 (n - 1))) as Hids.
  { unfold ids, py_range. rewrite seqZ_cons by lia. csimpl. done. }
  fold (ids n). rewrite Hrun. rewrite Hids in Hq.
  destruct (popleft_correct q _ _ Hq) as (q2 & Hpop & Hq2 & Hsd). rewrite Hpop.
  eexists. split; [done|]. set (p := BlockPool.mk _ _ _ _ _ _ _ _ _ _).
  assert (∀ i, obj p (Blk i) = if decide (Blk i = Blk 0) then set_null true (blocks q2 !!! Blk 0)
    else blocks q2 !!! Blk i) as Hobj by (intros i; apply lookup_write).
  assert (∀ i, in_pool p i → block_id (obj p (Blk i)) = i ∧ ref_cnt (obj p (Blk i)) = 0 ∧
    block_hash (obj p (Blk i)) = None ∧ is_null (obj p (Blk i)) = bool_decide (i = 0)) as Hall.
  { intros i Hi. unfold in_pool in Hi. simpl in Hi. rewrite Hobj.
    destruct (Hfr i) as (_ & _ & Hr & Hh & Hnl & Hb). destruct (Hd i) as (D1 & D2 & D3 & D4).
    destruct (Hsd (Blk i)) as (E1 & E2 & E3 & E4 & _). simpl in *.
    destruct (decide (Blk i = Blk 0)) as [[= ->]|Hne]; simpl.
    - rewrite E1, E2, E3, D1, D2, D3. auto.
    - rewrite bool_decide_false by congruence. rewrite E1, E2, E3, E4, D1, D2, D3, D4. auto. }
  assert (∀ i, in_pool p i → is_Some (blocks q2 !! Blk i)) as Hal.
  { intros i Hi. apply (Hsd (Blk i)), (qr_alloc _ _ (proj1 Hq)). apply full_in.
    right. left. rewrite <-Hids. apply list_elem_of_fmap. exists i. split; [done|].
    unfold py_range. rewrite elem_of_seqZ. unfold in_pool in Hi. simpl in Hi. lia. }
  split; [|split_and!; try done; intros i Hi; by destruct (Hall i Hi) as (_ & ? & ? & _)].
  split; try done.
  - by apply queue_inv_write.
  - intros i Hi. split; [|by apply Hall]. apply write_is_Some. by apply Hal.
  - intros i. destruct (decide (in_pool p i)); [left; by apply Hall|by right].
  - intros r. split.
    + intros [(i & -> & Hi)%list_elem_of_fmap|Hr]; [|by apply not_elem_of_nil in Hr].
      rewrite elem_of_seqZ in Hi. exists i.
      assert (in_pool p i) as Hp by (unfold in_pool; simpl; lia).
      split_and!; [done|done|lia|]. by apply Hall.
    + intros (i & -> & Hi & Hi0 & _). left. apply list_elem_of_fmap. exists i. split; [done|].
      unfold in_pool in Hi. simpl in Hi. rewrite elem_of_seqZ. lia.
  - intros r Hr. by apply not_elem_of_nil in Hr.
  - intros i Hi _. destruct (Hall i Hi) as (_ & -> & _). lia.
  - intros i k Hi. destruct (Hall i Hi) as (_ & _ & -> & _). done.
Qed.

(** ** Caching full blocks *)

(** Give a block its key and index it. *)
Definition cached_at p i (key : bytes) : BlockPool.t :=
  let p1 := updated p (Blk i) (set_hash (Some key)) in
  with_cache (BlockHashToBlockMap.insert (id_of p1) key (Blk i) (cached_block_hash_to_block p1)) p1.

Lemma obj_cached_at p i key r :
  obj (cached_at p i key) r =
    if decide (r = Blk i) then set_hash (Some key) (obj p (Blk i)) else obj p r.
Proof. exact (obj_updated p (Blk i) (set_hash (Some key)) r). Qed.

Lemma cache_one p l i key :
  pool_inv p l [] → in_pool p i → i ≠ 0 → block_hash (obj p (Blk i)) = None →
  pool_inv (cached_at p i key) l [].
Proof.
  intros Hp Hi Hi0 Hnone. pose proof (obj_cached_at p i key) as Hobj.
  pose proof Hp as [Hq ? ? Hb Hids Hf ? Hr Hwf Hha Hca]. set (p' := cached_at p i key) in *.
  set (p1 := updated p (Blk i) (set_hash (Some key))).
  assert (∀ j, in_pool p j → id_of p1 (Blk j) = j) as Hid.
  { intros j Hj. unfold id_of. change (obj p1) with (obj p'). rewrite Hobj.
    destruct (Hids j) as [Hj'|]; [|done]. by destruct (decide (Blk j = Blk i)) as [[= ->]|]. }
  assert (∀ k j, key_has (cached_block_hash_to_block p') k j ↔
    (k = key ∧ j = i) ∨ key_has (cached_block_hash_to_block p) k j) as Hhas.
  { intros k j. apply insert_has; [by apply Hid| |done]. intros j' Hj'. by apply Hid, (Hca key). }
  split; try done.
  - by apply queue_inv_write.
  - intros j Hj. destruct (Hb j Hj) as [Ha Hn]. split; [by apply write_is_Some|].
    rewrite Hobj. by destruct (decide (Blk j = Blk i)) as [[= ->]|].
  - intros j. rewrite Hobj. destruct (decide (Blk j = Blk i)) as [[= ->]|]; apply Hids.
  - intros r. rewrite Hf. change (in_pool p') with (in_pool p). rewrite Hobj.
    by destruct (decide (r = Blk i)) as [->|].
  - intros j Hj Hj0. rewrite Hobj. specialize (Hr j Hj Hj0).
    by destruct (decide (Blk j = Blk i)) as [[= ->]|].
  - apply insert_wf; [by apply Hid| |done]. intros j' Hj'. by apply Hid, (Hca key).
  - intros j k Hj. rewrite Hobj, Hhas. specialize (Hha j k Hj).
    destruct (decide (Blk j = Blk i)) as [[= ->]|Hne]; simpl; [|rewrite Hha; naive_solver].
    split; [intros [= ->]; by left|]. intros [[-> _]|Hk]; [done|].
    apply Hha in Hk. congruence.
  - intros k j [[-> ->]|Hk]%Hhas; [done|]. by apply (Hca k).
Qed.

(** The block at position [k] of the list is hashed and indexed. *)
Definition chosen (mask : option (list bool)) (k i : Z) : bool :=
  bool_decide (i ≠ 0) && match mask with Some m => default true (list_get m k) | None => true end.

Lemma skipped_chosen p l pd mask k i :
  pool_inv p l pd → in_pool p i → skipped p mask (Blk i) k = negb (chosen mask k i).
Proof.
  intros Hp Hi. unfold skipped, chosen. destruct (pi_blocks _ _ _ Hp i Hi) as [_ ->].
  destruct (decide (i = 0)) as [->|]; [done|].
  rewrite bool_decide_false, bool_decide_true by done. simpl. by destruct mask.
Qed.

(** The hashes of the chosen blocks, in order. *)
Fixpoint chosen_hashes (mask : option (list bool)) (k : Z) (hs : list bytes) (xs : list Z) : list bytes :=
  match hs, xs with
  | h :: hs, i :: xs =>
      (if chosen mask k i then [h] else []) ++ chosen_hashes mask (k + 1) hs xs
  | _, _ => []
  end.

(** What the callers of [cache_full_blocks] ensure of the new full blocks: pool
    blocks, none but the null block twice, those to be cached not yet hashed. *)
Record cacheable p (mask : option (list bool)) (k : Z) (xs : list Z) : Prop := {
  cb_pool : ∀ i, i ∈ xs → in_pool p i;
  cb_once : NoDup (filter (.≠ 0) xs);
  cb_fresh : ∀ n i, xs !! n = Some i → chosen mask (k + Z.of_nat n) i = true →
    block_hash (obj p (Blk i)) = None
}.

(** Only hashes and the index differ. *)
Definition same_queue p p' : Prop :=
  same_config p p' ∧ same_counts p p' ∧ kv_event_queue p' = kv_event_queue p.

Lemma same_queue_trans p1 p2 p3 : same_queue p1 p2 → same_queue p2 p3 → same_queue p1 p3.
Proof.
  intros (Hc & Hn & He) (Hc' & Hn' & He'). split_and!; [by eapply same_config_trans| |congruence].
  intros r. destruct (Hn r) as (?&?&?), (Hn' r) as (?&?&?). split_and!; congruence.
Qed.

Lemma make_key h g : 0 ≤ g < 2 ^ 32 → ∃ k, make_block_hash_with_group_id h g = Ret k.
Proof.
  intros Hg. unfold make_block_hash_with_group_id, to_bytes4. rewrite bool_decide_true by lia. eauto.
Qed.

(** [p'] is [p] with the chosen blocks of [xs] carrying the keys of their hashes. *)
Record now_cached p p' (mask : option (list bool)) (k g : Z) (hs : list bytes) (xs : list Z) : Prop := {
  nc_same : same_queue p p';
  nc_new : ∀ n i, xs !! n = Some i → chosen mask (k + Z.of_nat n) i = true →
    ∃ h key, hs !! n = Some h ∧ make_block_hash_with_group_id h g = Ret key ∧
      block_hash (obj p' (Blk i)) = Some key;
  nc_old : ∀ r, (∀ n i, xs !! n = Some i → chosen mask (k + Z.of_nat n) i = true → r ≠ Blk i) →
    block_hash (obj p' r) = block_hash (obj p r)
}.

Lemma list_get_nth {A} (l : list A) k x : 0 ≤ k → l !! Z.to_nat k = Some x → list_get l k = Some x.
Proof.
  intros Hk Hx. rewrite list_get_lookup; [done|]. apply lookup_lt_Some in Hx. lia.
Qed.

Lemma cache_loop_correct p l mask g hs k xs :
  pool_inv p l [] → 0 ≤ g < 2 ^ 32 → 0 ≤ k → cacheable p mask k xs →
  (Z.to_nat k + length xs ≤ length hs)%nat →
  ∃ p', cache_loop mask g hs k (Blk <$> xs) p =
      (Ret (maybe_convert_block_hash (use_int_block_hashes p) <$>
              chosen_hashes mask k (drop (Z.to_nat k) hs) xs), p') ∧
    pool_inv p' l [] ∧ now_cached p p' mask k g (drop (Z.to_nat k) hs) xs.
Proof.
  revert p k. induction xs as [|i xs IH]; intros p k Hp Hg Hk [Hin Hnd Hfresh] Hlen; csimpl.
  { exists p. split; [by destruct (drop _ _)|]. split; [done|]. by split. }
  destruct (lookup_lt_is_Some_2 hs (Z.to_nat k)) as [h Hh]; [simpl in Hlen; lia|].
  rewrite (drop_S _ _ _ Hh). unfold bind at 1, get.
  rewrite (skipped_chosen p l [] mask k i Hp) by (apply Hin; set_solver).
  assert (∀ n, k + Z.of_nat (S n) = (k + 1) + Z.of_nat n) as Hsucc by lia.
  assert (S (Z.to_nat k) = Z.to_nat (k + 1)) as Hk1 by lia. rewrite Hk1.
  destruct (chosen mask k i) eqn:Hch; simpl.
  2:{ rewrite Hch. simpl. destruct (IH p (k + 1) Hp Hg) as (p' & Hrun & Hp' & [Hs Hn Ho]); [lia| |simpl in Hlen; lia|].
      { split; [intros j Hj; apply Hin; set_solver| |].
        - rewrite filter_cons in Hnd. case_decide; [|done]. by apply NoDup_cons in Hnd as [_ ?].
        - intros n j Hj. rewrite <-Hsucc. by apply (Hfresh (S n)). }
      exists p'. split; [exact Hrun|]. split; [done|]. split; [done|..].
      - intros [|n] j Hj Hc; simplify_eq/=; [by rewrite Z.add_0_r, Hch in Hc|].
        apply (Hn n j Hj). by rewrite <-Hsucc.
      - intros r Hr. apply Ho. intros n j Hj Hc. apply (Hr (S n) j Hj). by rewrite Hsucc. }
  assert (i ≠ 0) as Hi0.
  { unfold chosen in Hch. by apply andb_true_iff in Hch as [Hch%bool_decide_eq_true _]. }
  assert (in_pool p i) as Hi by (apply Hin; set_solver).
  assert (block_hash (obj p (Blk i)) = None) as Hnone.
  { apply (Hfresh 0%nat i); [done|]. by rewrite Z.add_0_r. }
  destruct (make_key h g Hg) as [key Hkey].
  unfold bind, read, gets, assert_, of_option, of_outcome, modify, ret. rewrite Hnone.
  rewrite bool_decide_true by done. rewrite (list_get_nth _ _ h) by done. rewrite Hkey, update_run.
  fold (cached_at p i key). set (p1 := cached_at p i key).
  pose proof (obj_cached_at p i key) as Hobj. fold p1 in Hobj.
  assert (∀ j, j ∈ xs → j ≠ i) as Hji.
  { intros j Hj ->. rewrite filter_cons, decide_True in Hnd by done.
    apply NoDup_cons in Hnd as [Hnd _]. apply Hnd, list_elem_of_filter. done. }
  destruct (IH p1 (k + 1)) as (p' & Hrun & Hp' & [Hs Hn Ho]); [by apply cache_one|done|lia| |simpl in Hlen; lia|].
  { split; [intros j Hj; apply (Hin j); set_solver| |].
    - rewrite filter_cons in Hnd. case_decide; [|done]. by apply NoDup_cons in Hnd as [_ ?].
    - intros n j Hj Hc. rewrite Hobj. rewrite decide_False.
      + apply (Hfresh (S n)); [done|]. by rewrite Hsucc.
      + intros [= ->]. by apply (Hji i); [eapply list_elem_of_lookup_2|]. }
  rewrite Hrun. exists p'. rewrite Hch. split; [done|]. split; [done|]. split.
  - eapply same_queue_trans; [|exact Hs]. split; [done|]. split; [|done]. intros r. rewrite Hobj.
    by destruct (decide (r = Blk i)) as [->|].
  - intros [|n] j Hj Hc; simplify_eq/=.
    + exists h, key. split; [done|]. split; [done|]. rewrite Ho, Hobj.
      * by rewrite decide_True.
      * intros n j' Hj' _ [= <-]. by apply (Hji j); [eapply list_elem_of_lookup_2|].
    + apply (Hn n j Hj). by rewrite <-Hsucc.
  - intros r Hr. rewrite Ho, Hobj.
    + rewrite decide_False; [done|]. apply (Hr 0%nat i); [done|]. by rewrite Z.add_0_r.
    + intros n j Hj Hc. apply (Hr (S n) j Hj). by rewrite Hsucc.
Qed.

Section events.
Context (embeds_digest : list Z → bytes).

(** The event has extra keys for exactly the blocks it has hashes for. *)
Lemma event_keys_correct p l mask bsz nc mm all xs hs a req :
  pool_inv p l [] → identified req → mm_idx_ok req mm → 0 ≤ a →
  (∀ n i, xs !! n = Some i → all !! (Z.to_nat a + n)%nat = Some i ∧ in_pool p i) →
  (length xs ≤ length hs)%nat →
  ∃ eks req', event_keys embeds_digest mask bsz nc mm (Blk <$> all) (seqZ a (Z.of_nat (length xs)))
      (p, req) = (Ret eks, (p, req')) ∧
    same_request req req' ∧ length eks = length (chosen_hashes mask (a - nc) hs xs).
Proof.
  intros Hp. revert mm hs a req. induction xs as [|i xs IH]; intros mm hs a req Hid Hmm Ha Hall Hlen.
  { exists [], req. split; [done|]. split; [apply same_request_refl|]. by destruct hs. }
  destruct hs as [|h hs]; [simpl in Hlen; lia|].
  rewrite seqZ_cons by (simpl; lia). replace (Z.pred (Z.of_nat (length (i :: xs)))) with (Z.of_nat (length xs))
    by (simpl; lia).
  destruct (Hall 0%nat i eq_refl) as [Hi Hpi]. rewrite Nat.add_0_r in Hi.
  assert (list_get (Blk <$> all) a = Some (Blk i)) as Hget.
  { apply list_get_nth; [done|]. by rewrite list_lookup_fmap, Hi. }
  assert (∀ n j, xs !! n = Some j → all !! (Z.to_nat (Z.succ a) + n)%nat = Some j ∧ in_pool p j) as Hall'.
  { intros n j Hj. replace (Z.to_nat (Z.succ a) + n)%nat with (Z.to_nat a + S n)%nat by lia.
    by apply (Hall (S n)). }
  simpl. unfold bind at 1, of_option. rewrite Hget. unfold ret at 1, bind at 1, get. simpl.
  rewrite (skipped_chosen p l [] _ _ i Hp Hpi).
  replace (a - nc + 1) with (Z.succ a - nc) by lia.
  destruct (chosen mask (a - nc) i); simpl.
  - destruct (extra_keys_total embeds_digest (a * bsz) (a * bsz + bsz) mm req Hid Hmm)
      as (ek & mm' & req1 & Hek & Hmm').
    pose proof (extra_keys_same embeds_digest _ _ _ _ _ _ Hek) as [c ->].
    destruct (IH mm' hs (Z.succ a) (set_embeds_cache c req)) as (eks & req' & Hrun & Hs & Hl);
      [exact Hid|exact Hmm'|lia|done|simpl in Hlen; lia|].
    unfold bind at 1, on_request, zoom. simpl. rewrite Hek. unfold bind, ret. rewrite Hrun.
    eexists _, _. split; [done|]. split; [|simpl; by rewrite Hl].
    eapply same_request_trans; [by exists c|exact Hs].
  - apply IH; [done|done|lia|done|simpl in Hlen; lia].
Qed.

Lemma slice_fmap (all : list Z) a b :
  py_slice (Blk <$> all) a b = Blk <$> py_slice all a b.
Proof. unfold py_slice. by rewrite length_fmap, fmap_take, fmap_drop. Qed.

(** C24: [cache_full_blocks] on blocks [num_cached : num_full] of a request gives
    each of them that is neither null nor masked out the key of its hash and group
    and enters it in the index, leaves every other block's hash and all reference
    counts and the free list alone, and, with events on, appends one [BlockStored]
    event with the hash of each such block and as many extra keys as hashes. *)
Theorem cache_full_blocks_correct p l req all nc nf bsz g mask hl hs :
  let new := py_slice all nc nf in
  pool_inv p l [] → 0 ≤ nc < nf → nf ≤ Z.of_nat (length all) →
  nf ≤ Z.of_nat (length (block_hashes req)) →
  match mask with None => True | Some m => length m = length new end →
  hash_list_of (hash_block_size p) bsz (block_hashes req) = Ret hl →
  hl_from hl nc = Ret hs → (length new ≤ length hs)%nat →
  0 ≤ g < 2 ^ 32 → identified req → cacheable p mask 0 new →
  ∃ p1 p' req', cache_full_blocks embeds_digest (Blk <$> all) nc nf bsz g mask (p, req) =
      (Ret tt, (p', req')) ∧
    same_request req req' ∧ pool_inv p' l [] ∧ now_cached p p1 mask 0 g hs new ∧
    if enable_kv_cache_events p then
      ∃ parent eks, p' = with_events (kv_event_queue p ++ [BlockStored
          (maybe_convert_block_hash (use_int_block_hashes p) <$> chosen_hashes mask 0 hs new) parent
          (py_slice (all_token_ids req) (nc * bsz) (nf * bsz)) bsz
          (adapter_id <$> lora_request req) (lora_name <$> lora_request req) eks g]) p1 ∧
        (parent = None ↔ nc = 0) ∧
        length (default [] eks) = length (chosen_hashes mask 0 hs new)
    else p' = p1.
Proof.
  intros new Hp Hnc Hnf Hbh Hmask Hhl Hhs Hlen Hg Hid Hcb.
  assert (Z.of_nat (length new) = nf - nc) as Hnew.
  { unfold new. rewrite py_slice_in_range by lia. rewrite length_take, length_drop. lia. }
  unfold cache_full_blocks. rewrite bool_decide_false by lia. unfold bind at 1, get.
  unfold bind at 1, assert_ at 1. rewrite bool_decide_true by done. unfold ret at 1.
  rewrite slice_fmap. fold new. unfold bind at 1, assert_ at 1. rewrite length_fmap.
  replace (match mask with None => true | Some m => bool_decide (length m = length new) end) with true
    by (destruct mask; [by rewrite bool_decide_true|done]).
  unfold ret at 1, bind at 1, of_outcome at 1. rewrite Hhl. unfold ret at 1, bind at 1, of_outcome at 1. rewrite Hhs. unfold ret at 1.
  destruct (cache_loop_correct p l mask g hs 0 new Hp Hg ltac:(done) Hcb) as (p1 & Hrun & Hp1 & Hnow).
  { simpl. lia. }
  rewrite drop_0 in Hrun, Hnow. unfold bind at 1, on_pool at 1, zoom at 1. simpl. rewrite Hrun. simpl.
  destruct (enable_kv_cache_events p) eqn:Hev.
  2:{ exists p1, p1, req. split_and!; try done. apply same_request_refl. }
  assert (∃ parent, (if bool_decide (nc = 0) then ret None
    else h <- of_outcome (hl_get hl (nc - 1)) ;;
         ret (Some (maybe_convert_block_hash (use_int_block_hashes p) h))) (p1, req)
    = (Ret parent, (p1, req)) ∧ (parent = None ↔ nc = 0)) as (parent & Hpar & Hpn).
  { case_bool_decide; [by exists None|]. destruct hl as [bh|x].
    - unfold hash_list_of in Hhl. repeat case_bool_decide; simplify_eq/=;
        try (destruct (BlockHashListWithBlockSize.init _ _ _); simplify_eq/=).
      destruct (lookup_lt_is_Some_2 (block_hashes req) (Z.to_nat (nc - 1))) as [h Hh]; [lia|].
      rewrite (list_get_nth _ _ h) by (done || lia). eexists. split; [done|]. by split.
    - simpl. eexists. split; [done|]. by split. }
  unfold bind at 1. rewrite Hpar.
  replace (nf - nc) with (Z.of_nat (length new)) by lia.
  destruct (event_keys_correct p1 l mask bsz nc 0 all new hs nc req Hp1 Hid) as (eks & req' & Hek & Hs & Hl).
  - right. lia.
  - lia.
  - intros n i Hi. split.
    + unfold new in Hi. rewrite py_slice_in_range in Hi by lia.
      apply lookup_take_Some in Hi as [Hi _]. by rewrite lookup_drop in Hi.
    + apply (same_config_in_pool p); [by destruct Hnow as [[? _] _ _]|].
      apply (cb_pool _ _ _ _ Hcb). by eapply list_elem_of_lookup_2.
  - done.
  - replace (nc - nc) with 0 in Hl by lia. unfold bind. rewrite Hek.
    unfold on_pool, zoom, emit, modify. simpl.
    destruct Hnow as [(Hcfg & Hcnt & Hevq) Hn Ho] eqn:Hnow'. rewrite Hevq.
    eexists p1, _, req'. split; [done|]. split; [done|]. split; [by destruct Hp1|]. split; [done|].
    exists parent. eexists. split; [done|]. split; [done|]. rewrite <-Hl. by destruct eks.
Qed.
End events.

(** ** Lookup, eviction and reset *)

(** [b] is a block that carries the hash [h] for the group [g]. *)
Definition carries p (h : bytes) (g : Z) (b : ref) : Prop :=
  ∃ i key, b = Blk i ∧ in_pool p i ∧ i ≠ 0 ∧ make_block_hash_with_group_id h g = Ret key ∧
    block_hash (obj p b) = Some key.

(** [get_cached_block] returns, for each group in order, a block that
    carries the hash for that group; it misses exactly when for some group no
    block of the pool carries the hash. *)
Lemma get_cached_block_correct p l h gs :
  pool_inv p l [] → (∀ g, g ∈ gs → 0 ≤ g < 2 ^ 32) →
  (∃ bs, get_cached_block h gs p = Ret (Some bs) ∧ Forall2 (carries p h) gs bs) ∨
  (get_cached_block h gs p = Ret None ∧ ∃ g, g ∈ gs ∧ ∀ b, ¬ carries p h g b).
Proof.
  intros Hp. induction gs as [|g gs IH]; intros Hgs; simpl; [left; by exists []|].
  destruct (make_key h g) as [key Hkey]; [apply Hgs; set_solver|]. rewrite Hkey.
  destruct (get_one_block_correct _ key (pi_index _ _ _ Hp)) as [(i & -> & Hh)|[-> Hn]].
  - destruct (pi_cached _ _ _ Hp _ _ Hh) as [Hi Hi0]. apply (pi_hash _ _ _ Hp) in Hh; [|done].
    destruct IH as [(bs & -> & Hbs)|[-> (g' & Hg' & Hmiss)]]; [set_solver| |].
    + left. eexists. split; [done|]. constructor; [|done]. by exists i, key.
    + right. split; [done|]. exists g'. split; [set_solver|done].
  - right. split; [done|]. exists g. split; [set_solver|].
    intros b (i & key' & -> & Hi & _ & Hk & Hb). rewrite Hkey in Hk. simplify_eq.
    apply (pi_hash _ _ _ Hp) in Hb; [|done]. by apply (Hn i).
Qed.

(** [evict_blocks] removes exactly the given blocks from the prefix cache;
    reference counts and the free list stay. An id beyond the pool raises
    [AssertionError]. *)
Theorem evict_blocks_correct p l xs :
  pool_inv p l [] → (∀ i, i ∈ xs → in_pool p i) →
  ∃ p', evict_blocks xs p = (Ret tt, p') ∧ pool_inv p' l [] ∧ same_config p p' ∧ same_counts p p' ∧
    (∀ r, block_hash (obj p' r) = if decide (r ∈ Blk <$> xs) then None else block_hash (obj p r)) ∧
    ∀ i, num_gpu_blocks p ≤ i → (evict_blocks (xs ++ [i]) p).1 = Raise AssertionError.
Proof.
  revert p. induction xs as [|x xs IH]; intros p Hp Hin.
  { exists p. split_and!; try done.
    intros i Hi. unfold evict_blocks. simpl. unfold bind, get, assert_.
    by rewrite bool_decide_false by lia. }
  destruct (maybe_evict_correct p l [] x Hp) as (b & p1 & Hrun & Hp1 & [Hcfg Hcnt Hh _] & _);
    [apply Hin; set_solver|].
  destruct (IH p1 Hp1) as (p2 & Hrun2 & Hp2 & Hcfg2 & Hcnt2 & Hh2 & Herr).
  { intros i Hi. apply (same_config_in_pool p); [done|]. apply Hin. set_solver. }
  assert (in_pool p x) as Hx by (apply Hin; set_solver). unfold in_pool in Hx.
  assert (∀ ys, evict_blocks (x :: ys) p = evict_blocks ys p1) as Hstep.
  { intros ys. unfold evict_blocks. simpl. unfold bind at 1. unfold bind at 1, get.
    unfold bind at 1, assert_. rewrite bool_decide_true by lia. unfold ret at 1, bind at 1, of_option.
    fold (ids (num_gpu_blocks p)). rewrite ids_get by lia. unfold ret at 1, bind at 1. by rewrite Hrun. }
  exists p2. rewrite Hstep. split_and!; [done|done|by eapply same_config_trans| | |].
  - intros r. destruct (Hcnt r) as (?&?&?), (Hcnt2 r) as (?&?&?). split_and!; congruence.
  - intros r. rewrite Hh2, Hh. csimpl. repeat case_decide; set_solver.
  - intros i Hi. simpl. rewrite Hstep. apply Herr. by destruct Hcfg as [-> _].
Qed.

Lemma reset_hashes p xs :
  for_each (Blk <$> xs) (λ b, update b (set_hash None)) p =
    (Ret tt, foldl (λ p i, updated p (Blk i) (set_hash None)) p xs).
Proof.
  revert p. induction xs as [|x xs IH]; intros p; [done|]. csimpl. unfold bind. rewrite update_run. apply IH.
Qed.

Lemma obj_reset xs p r :
  let p' := foldl (λ p i, updated p (Blk i) (set_hash None)) p xs in
  obj p' r = if decide (r ∈ Blk <$> xs) then set_hash None (obj p r) else obj p r.
Proof.
  revert p. induction xs as [|x xs IH]; intros p p'; [done|]. unfold p'. simpl. rewrite IH.
  pose proof (obj_updated p (Blk x) (set_hash None) r) as ->. csimpl.
  repeat case_decide; try done; set_solver.
Qed.

Lemma reset_frame xs p l :
  queue_inv (free_block_queue p) l →
  let p' := foldl (λ p i, updated p (Blk i) (set_hash None)) p xs in
  queue_inv (free_block_queue p') l ∧ same_config p p' ∧
  cached_block_hash_to_block p' = cached_block_hash_to_block p ∧
  (∀ r, is_Some (blocks (free_block_queue p) !! r) → is_Some (blocks (free_block_queue p') !! r)).
Proof.
  revert p. induction xs as [|x xs IH]; intros p Hq p'; [done|]. unfold p'. simpl.
  destruct (IH (updated p (Blk x) (set_hash None))) as (? & Hc & ? & Hal).
  { by apply queue_inv_write. }
  split_and!; try done. intros r Hr. by apply Hal, write_is_Some.
Qed.

Lemma reset_prefix_cache_spec p l :
  pool_inv p l [] →
  if decide (Z.of_nat (length l) = num_gpu_blocks p - 1) then
    ∃ p', reset_prefix_cache p = (Ret true, p') ∧ pool_inv p' l [] ∧ same_config p p' ∧ same_counts p p' ∧
      (∀ i, in_pool p i → block_hash (obj p' (Blk i)) = None) ∧
      ∀ h g gs, 0 ≤ g < 2 ^ 32 → get_cached_block h (g :: gs) p' = Ret None
  else reset_prefix_cache p = (Ret false, p).
Proof.
  intros Hp. pose proof Hp as [[Hrep Hnum] Hnull Hsize Hb Hids Hf Hd Hr Hwf Hha Hca].
  case_decide as Hall; unfold reset_prefix_cache, bind at 1, get, get_num_free_blocks; rewrite Hnum;
    [rewrite bool_decide_false by lia|by rewrite bool_decide_true by lia].
  unfold bind at 1, modify. set (p0 := with_cache BlockHashToBlockMap.init p).
  unfold bind at 1. rewrite reset_hashes. set (p1 := foldl _ p0 _).
  destruct (reset_frame (py_range (num_gpu_blocks p)) p0 l) as (Hq1 & Hcfg1 & Hidx1 & Hal1); [done|].
  fold p1 in Hq1, Hcfg1, Hidx1, Hal1.
  pose proof (obj_reset (py_range (num_gpu_blocks p)) p0) as Hobj. fold p1 in Hobj. simpl in Hobj.
  assert (same_counts p p1) as Hcnt.
  { intros r. rewrite Hobj. by case_decide. }
  assert (∀ i, in_pool p i → block_hash (obj p1 (Blk i)) = None) as Hh.
  { intros i Hi. rewrite Hobj, decide_True; [done|]. apply list_elem_of_fmap. exists i. split; [done|].
    unfold py_range. rewrite elem_of_seqZ. unfold in_pool in Hi. lia. }
  assert (∀ i, in_pool p1 i ↔ in_pool p i) as Hin by (intros i; by apply same_config_in_pool).
  assert (pool_inv p1 l []) as Hp1.
  { split; rewrite ?Hidx1; try done.
    - by destruct Hcfg1 as (_ & _ & _ & -> & _).
    - by destruct Hcfg1 as (-> & _).
    - intros i Hi%Hin. destruct (Hb i Hi) as [Ha Hn]. split; [by apply Hal1|].
      by destruct (Hcnt (Blk i)) as (_ & _ & ->).
    - intros i. destruct (Hcnt (Blk i)) as (-> & _). rewrite Hin. apply Hids.
    - intros r. rewrite Hf. destruct (Hcnt r) as (_ & -> & _). by setoid_rewrite Hin.
    - intros i Hi%Hin Hi0. destruct (Hcnt (Blk i)) as (_ & -> & _). by apply Hr.
    - intros i k Hi%Hin. by rewrite Hh by done. }
  assert (∀ p2 h g gs, cached_block_hash_to_block p2 = ∅ → 0 ≤ g < 2 ^ 32 →
    get_cached_block h (g :: gs) p2 = Ret None) as Hmiss.
  { intros p2 h g gs He Hg. simpl. destruct (make_key h g Hg) as [key ->]. by rewrite He. }
  unfold bind at 1, metric, modify. destruct (enable_kv_cache_events p);
    (eexists; split; [done|]; split_and!;
     [by destruct Hp1|exact Hcfg1|exact Hcnt|exact Hh|intros h g gs; by apply Hmiss]).
Qed.

(** [reset_prefix_cache] succeeds exactly when every block but the null
    block is free, and then no block carries a hash and every lookup misses; it
    refuses otherwise, changing nothing. *)
Theorem reset_prefix_cache_correct p l :
  pool_inv p l [] →
  if decide (Z.of_nat (length l) = num_gpu_blocks p - 1) then
    ∃ p', reset_prefix_cache p = (Ret true, p') ∧ pool_inv p' l [] ∧ same_config p p' ∧ same_counts p p' ∧
      (∀ i, in_pool p i → block_hash (obj p' (Blk i)) = None) ∧
      ∀ h g gs, 0 ≤ g < 2 ^ 32 → get_cached_block h (g :: gs) p' = Ret None
  else reset_prefix_cache p = (Ret false, p).
Proof. apply reset_prefix_cache_spec. Qed.
