(* ===== verification/BlockPoolExamples.v ===== *)
(** * The block pool's theorems on a pool of four blocks *)

From S2P Require Import Prelude OrderedDict FreeQueue BlockHash BlockPool BlockPoolProps BlockPoolCache.

Open Scope Z_scope.
Import FreeKVCacheBlockQueue QueueProps BlockPool.

Definition demo_pool : BlockPool.t :=
  match BlockPool.init 4 true 2 true (Some []) false with
  | Ret p => p
  | Raise _ => BlockPool.mk 0 true 0 (FreeKVCacheBlockQueue.mk ∅ 0) ∅ FakeHead true [] None false
  end.

(** One more reference to block 2, which was free. *)
Definition demo_touched : BlockPool.t := (touch [Blk 2] demo_pool).2.

Definition demo_key : bytes := [7; 0; 0; 0; 3].
(** Block 1 cached under the hash [7] for group 3. *)
Definition demo_cached : BlockPool.t := cached_at demo_pool 1 demo_key.

Lemma demo_pool_inv : pool_inv demo_pool [Blk 1; Blk 2; Blk 3] [].
Proof.
  destruct (pool_init_correct 4 true 2 true (Some []) false) as (p & Hp & Hinv & _); [lia|].
  unfold demo_pool. rewrite Hp. exact Hinv.
Qed.

Lemma demo_in_pool i : 0 ≤ i < 4 → in_pool demo_pool i.
Proof. intros Hi. unfold in_pool. change (num_gpu_blocks demo_pool) with 4. lia. Qed.

Lemma demo_touched_inv : pool_inv demo_touched [Blk 1; Blk 3] [].
Proof.
  destruct (touch_one demo_pool _ 2 demo_pool_inv) as (p & Hp & Hinv & _); [by apply demo_in_pool|].
  unfold demo_touched, touch. cbn [for_each]. unfold bind at 1. rewrite Hp. exact Hinv.
Qed.

Lemma demo_cached_inv : pool_inv demo_cached [Blk 1; Blk 2; Blk 3] [].
Proof.
  apply cache_one; [apply demo_pool_inv|by apply demo_in_pool|done|by vm_compute].
Qed.

Lemma get_new_blocks_correct_witness :
  (∃ p, get_new_blocks 2 demo_cached = (Ret [Blk 1; Blk 2], p) ∧ pool_inv p [Blk 3] []) ∧
  get_new_blocks 4 demo_cached = (Raise ValueError, demo_cached).
Proof.
  pose proof (get_new_blocks_correct demo_cached _ 2 demo_cached_inv ltac:(done)) as H1.
  pose proof (get_new_blocks_correct demo_cached _ 4 demo_cached_inv ltac:(done)) as H2.
  rewrite decide_True in H1 by (simpl; lia). rewrite decide_False in H2 by (simpl; lia).
  split; [|exact H2]. destruct H1 as (p & Hrun & Hp & _). exists p. split; [exact Hrun|exact Hp].
Defined.

Lemma touch_correct_witness :
  ∃ p, touch [Blk 3; Blk 2; Blk 3] demo_pool = (Ret tt, p) ∧ pool_inv p [Blk 1] [] ∧
    ref_cnt (obj p (Blk 3)) = 2.
Proof.
  destruct (touch_correct demo_pool _ [3; 2; 3] demo_pool_inv) as (p & Hrun & Hp & _ & Href).
  { intros i Hi. apply demo_in_pool. rewrite !elem_of_cons in Hi. destruct Hi as [->|[->|[->|Hi]]]; [lia..|].
    by apply not_elem_of_nil in Hi. }
  exists p. split; [exact Hrun|]. split; [exact Hp|]. rewrite Href. by vm_compute.
Defined.

Lemma demo_freeable : freeable demo_touched [2; 0].
Proof.
  split.
  - intros i Hi. apply (demo_in_pool i). rewrite !elem_of_cons in Hi. destruct Hi as [->|[->|Hi]]; [lia..|].
    by apply not_elem_of_nil in Hi.
  - apply NoDup_singleton.
  - intros i Hi Hi0. rewrite !elem_of_cons in Hi. destruct Hi as [->|[->|Hi]]; [by vm_compute|done|].
    by apply not_elem_of_nil in Hi.
Qed.

Lemma free_blocks_correct_witness :
  ∃ p, free_blocks [Blk 2; Blk 0] demo_touched = (Ret tt, p) ∧ pool_inv p [Blk 1; Blk 3; Blk 2] [].
Proof.
  destruct (free_blocks_correct demo_touched _ [2; 0] demo_touched_inv demo_freeable)
    as (p & Hrun & Hp & _). exists p. split; [exact Hrun|exact Hp].
Defined.

Definition demo_two_hashes : Request := mkRequest [1; 2; 3; 4] [[7]; [8]] [] None None None ∅.

Lemma cache_full_blocks_correct_witness :
  ∃ p r, cache_full_blocks no_embeds [Blk 1; Blk 2] 0 2 2 3 None (demo_pool, demo_two_hashes) =
      (Ret tt, (p, r)) ∧ pool_inv p [Blk 1; Blk 2; Blk 3] [] ∧
    ∃ eks, kv_event_queue p = [BlockStored [ExtBytes [7]; ExtBytes [8]] None [1; 2; 3; 4] 2 None None eks 3].
Proof.
  destruct (cache_full_blocks_correct no_embeds demo_pool _ demo_two_hashes [1; 2] 0 2 2 3 None
    (Plain [[7]; [8]]) [[7]; [8]] demo_pool_inv) as (p1 & p & r & Hrun & _ & Hp & [[_ [_ He]] _ _] & Hev).
  - lia.
  - vm_compute. discriminate.
  - vm_compute. discriminate.
  - exact I.
  - by vm_compute.
  - by vm_compute.
  - apply Nat.leb_le. by vm_compute.
  - lia.
  - intros f Hf. by apply not_elem_of_nil in Hf.
  - split.
    + intros i Hi. apply demo_in_pool. change (py_slice [1; 2] 0 2) with [1; 2] in Hi.
      rewrite !elem_of_cons in Hi. destruct Hi as [->|[->|Hi]]; [lia..|]. by apply not_elem_of_nil in Hi.
    + apply (NoDup_cons_2 1 [2]); [|apply NoDup_singleton]. by rewrite list_elem_of_singleton.
    + intros [|[|n]] i Hi _; [| |done]; injection Hi as <-; by vm_compute.
  - exists p, r. split; [exact Hrun|]. split; [exact Hp|].
    change (enable_kv_cache_events demo_pool) with true in Hev. destruct Hev as (par & eks & -> & Hpar & _).
    destruct Hpar as [_ Hpar]. rewrite Hpar by done. exists eks. by vm_compute.
Defined.

Lemma get_cached_block_correct_witness :
  (get_cached_block [7] [3] demo_cached = Ret (Some [Blk 1]) ∧ carries demo_cached [7] 3 (Blk 1)) ∧
  (get_cached_block [7] [4] demo_cached = Ret None ∧ ∀ b, ¬ carries demo_cached [7] 4 b).
Proof.
  split.
  - destruct (get_cached_block_correct demo_cached _ [7] [3] demo_cached_inv) as [(bs & Hr & Hc)|[Hr _]].
    + intros g ->%list_elem_of_singleton. done.
    + assert (get_cached_block [7] [3] demo_cached = Ret (Some [Blk 1])) as Hv by by vm_compute.
      rewrite Hv in Hr. injection Hr as <-. split; [exact Hv|]. by inversion Hc.
    + by vm_compute in Hr.
  - destruct (get_cached_block_correct demo_cached _ [7] [4] demo_cached_inv) as [(bs & Hr & _)|[Hr (g & Hg & Hm)]].
    + intros g ->%list_elem_of_singleton. done.
    + by vm_compute in Hr.
    + apply list_elem_of_singleton in Hg as ->. split; [exact Hr|exact Hm].
Defined.

Lemma evict_blocks_correct_witness :
  ∃ p, evict_blocks [1; 3] demo_cached = (Ret tt, p) ∧ pool_inv p [Blk 1; Blk 2; Blk 3] [] ∧
    block_hash (obj p (Blk 1)) = None.
Proof.
  destruct (evict_blocks_correct demo_cached _ [1; 3] demo_cached_inv) as (p & Hrun & Hp & _ & _ & Hh & _).
  { intros i Hi. apply (demo_in_pool i). rewrite !elem_of_cons in Hi. destruct Hi as [->|[->|Hi]]; [lia..|].
    by apply not_elem_of_nil in Hi. }
  exists p. split; [exact Hrun|]. split; [exact Hp|]. by rewrite Hh.
Defined.

Lemma reset_prefix_cache_correct_witness :
  (∃ p, reset_prefix_cache demo_cached = (Ret true, p) ∧ get_cached_block [7] [3] p = Ret None) ∧
  reset_prefix_cache demo_touched = (Ret false, demo_touched).
Proof.
  pose proof (reset_prefix_cache_correct demo_cached _ demo_cached_inv) as H1.
  pose proof (reset_prefix_cache_correct demo_touched _ demo_touched_inv) as H2.
  change (num_gpu_blocks demo_cached) with 4 in H1. change (num_gpu_blocks demo_touched) with 4 in H2.
  rewrite decide_True in H1 by done. rewrite decide_False in H2 by done. split; [|exact H2].
  destruct H1 as (p & Hrun & _ & _ & _ & _ & Hm). exists p. split; [exact Hrun|]. apply (Hm [7] 3 []). lia.
Defined.
