(* ===== verification/PyNum.v ===== *)
(** * Python numbers

    An [int] is unbounded; a [float] is an IEEE 754 binary64 number, computed by
    the Standard Library's [SpecFloat] at precision 53 and maximal exponent 1024.
    Mixed arithmetic converts the integer first; mixed comparison is exact for
    integers up to 2^53 in size, which the lengths and capacities compared here
    are. The lemmas bound rounding from above: what is at most the largest finite
    number does not round to infinity. *)

From Stdlib Require Import SpecFloat.
From S2P Require Import Prelude.

Open Scope Z_scope.

Notation prec := 53.
Notation emax := 1024.

Inductive pynum := PyInt (n : Z) | PyFloat (f : spec_float).

Definition float_of_Z (n : Z) : spec_float := binary_normalize prec emax n 0 false.
Definition to_float (x : pynum) : spec_float :=
  match x with PyInt n => float_of_Z n | PyFloat f => f end.

Definition num_add (x y : pynum) : pynum :=
  match x, y with
  | PyInt n, PyInt m => PyInt (n + m)
  | _, _ => PyFloat (SFadd prec emax (to_float x) (to_float y))
  end.
Definition num_sub (x y : pynum) : pynum :=
  match x, y with
  | PyInt n, PyInt m => PyInt (n - m)
  | _, _ => PyFloat (SFsub prec emax (to_float x) (to_float y))
  end.
(** [n / m], the true division of two integers *)
Definition int_truediv (n m : Z) : pynum := PyFloat (SFdiv prec emax (float_of_Z n) (float_of_Z m)).

Definition num_lt (x y : pynum) : bool :=
  match x, y with
  | PyInt n, PyInt m => bool_decide (n < m)
  | _, _ => SFltb (to_float x) (to_float y)
  end.
(** [max(x, y)] and [min(x, y)]: the first of two equal arguments. *)
Definition num_max (x y : pynum) : pynum := if num_lt x y then y else x.
Definition num_min (x y : pynum) : pynum := if num_lt y x then y else x.

(** [int(x)] truncates; infinities raise [OverflowError] and NaN [ValueError]. *)
Definition num_int (x : pynum) : outcome Z :=
  match x with
  | PyInt n => Ret n
  | PyFloat (S754_zero _) => Ret 0
  | PyFloat (S754_infinity _) => Raise OverflowError
  | PyFloat S754_nan => Raise ValueError
  | PyFloat (S754_finite s m e) =>
      Ret (cond_Zopp s (if bool_decide (0 ≤ e) then Z.pos m * 2 ^ e else Z.pos m / 2 ^ (- e)))
  end.

(** ** Shapes *)

(** Zero or positive, possibly infinite, not NaN *)
Definition nonneg_float (f : spec_float) : Prop :=
  match f with
  | S754_zero _ | S754_infinity false => True
  | S754_finite false m e => Z.pos m < 2 ^ 53 ∧ e ≤ 971
  | _ => False
  end.
Definition finite_float (f : spec_float) : Prop :=
  match f with S754_infinity _ => False | _ => nonneg_float f end.
Definition finite_num (x : pynum) : Prop :=
  match x with PyInt n => 0 ≤ n < 2 ^ 53 | PyFloat f => finite_float f end.

(** ** Rounding *)
Lemma digits2_spec m : 2 ^ (Z.pos (digits2_pos m) - 1) ≤ Z.pos m < 2 ^ Z.pos (digits2_pos m).
Proof.
  induction m as [m IH|m IH|]; simpl digits2_pos; [| |done].
  all: rewrite Pos2Z.inj_succ, <-Z.add_1_r.
  all: replace (Z.pos (digits2_pos m) + 1 - 1) with (1 + (Z.pos (digits2_pos m) - 1)) by lia.
  all: rewrite !Z.pow_add_r by lia; change (2 ^ 1) with 2; lia.
Qed.

Lemma digits2_le m k : 0 ≤ k → Z.pos m < 2 ^ k → Z.pos (digits2_pos m) ≤ k.
Proof.
  intros Hk Hm. destruct (digits2_spec m) as [Hd _].
  destruct (Z.lt_ge_cases k (Z.pos (digits2_pos m))) as [Hlt|]; [|done].
  assert (2 ^ k ≤ 2 ^ (Z.pos (digits2_pos m) - 1)) by (apply Z.pow_le_mono_r; lia). lia.
Qed.

(** [x] holds [num / den], and is exact when [num] was ([E]) and nothing was
    shifted out. *)
Definition shr_val (E : Prop) (x : shr_record) (num den : Z) : Prop :=
  shr_m x = num / den ∧ (loc_of_shr_record x = loc_Exact ↔ num mod den = 0 ∧ E).

Lemma shr_1_val E x num k :
  0 ≤ num → 0 ≤ k → shr_val E x num (2 ^ k) → shr_val E (shr_1 x) num (2 ^ (k + 1)).
Proof.
  intros Hn Hk [Hm Hl]. unfold shr_val.
  assert (0 < 2 ^ k) as Hp by (apply Z.pow_pos_nonneg; lia).
  assert (0 ≤ num / 2 ^ k) by (apply Z.div_pos; lia).
  rewrite Z.pow_add_r by lia. change (2 ^ 1) with 2.
  rewrite <-Z.div_div by lia. rewrite <-Hm in *.
  assert (num mod (2 ^ k * 2) = num mod 2 ^ k + 2 ^ k * (shr_m x mod 2)) as Hmod.
  { rewrite Hm. apply Z.rem_mul_r; lia. }
  rewrite Hmod. pose proof (Z.mod_pos_bound num (2 ^ k) Hp) as Hb.
  assert (num mod 2 ^ k + 2 ^ k * (shr_m x mod 2) = 0 ↔ num mod 2 ^ k = 0 ∧ shr_m x mod 2 = 0) as Hz.
  { pose proof (Z.mod_pos_bound (shr_m x) 2 ltac:(lia)). split; [|intros [-> ->]; lia]. intros Heq.
    assert (0 ≤ 2 ^ k * (shr_m x mod 2)) by (apply Z.mul_nonneg_nonneg; lia).
    split; [lia|]. assert (2 ^ k * (shr_m x mod 2) = 0) as [?|?]%Z.mul_eq_0 by lia; lia. }
  assert ((num mod 2 ^ k + 2 ^ k * (shr_m x mod 2) = 0 ∧ E) ↔
    loc_of_shr_record x = loc_Exact ∧ shr_m x mod 2 = 0) as -> by tauto.
  rewrite <-Z.div2_div, Zmod_odd. clear -H. destruct x as [m r s].
  destruct m as [|[p|p|]|]; [destruct r, s..|simpl in H; lia].
  all: simpl; split; [done|]; split; try done; by intros [? ?].
Qed.

Lemma iter_shr_val E x num k n :
  0 ≤ num → 0 ≤ k → shr_val E x num (2 ^ k) →
  shr_val E (SpecFloat.iter_pos shr_1 n x) num (2 ^ (k + Z.pos n)).
Proof.
  intros Hn. revert x k. induction n as [n IH|n IH|]; intros x k Hk Hx; simpl.
  - replace (k + Z.pos n~1) with (k + 1 + Z.pos n + Z.pos n) by lia.
    apply IH; [lia|]. apply IH; [lia|]. by apply shr_1_val.
  - replace (k + Z.pos n~0) with (k + Z.pos n + Z.pos n) by lia. apply IH; [lia|]. by apply IH.
  - by apply shr_1_val.
Qed.

(** Shifting to the exponent [fexp] asks for. *)
Lemma shr_fexp_val m e l :
  0 ≤ m →
  let n := Z.max 0 (fexp prec emax (Zdigits2 m + e) - e) in
  ∃ x, shr_fexp prec emax m e l = (x, e + n) ∧ shr_val (l = loc_Exact) x m (2 ^ n).
Proof.
  intros Hm n. unfold shr_fexp.
  assert (shr_val (l = loc_Exact) (shr_record_of_loc m l) m (2 ^ 0)) as H0.
  { rewrite Z.pow_0_r. split; [rewrite Z.div_1_r; by destruct l as [|[]]|].
    rewrite Z.mod_1_r. destruct l as [|[]]; simpl; intuition congruence. }
  unfold shr. destruct (fexp prec emax (Zdigits2 m + e) - e) as [|q|q] eqn:Hq.
  - exists (shr_record_of_loc m l). split; [f_equal; lia|]. by replace n with 0 by lia.
  - eexists. split; [f_equal; lia|]. replace n with (0 + Z.pos q) by lia. by apply iter_shr_val.
  - exists (shr_record_of_loc m l). split; [f_equal; lia|]. by replace n with 0 by lia.
Qed.

Lemma round_nearest_bound m l :
  0 ≤ m → 0 ≤ round_nearest_even m l ≤ m + 1 ∧ (l = loc_Exact → round_nearest_even m l = m).
Proof.
  intros Hm. destruct l as [|[]]; simpl; try destruct (Z.even m); (split; [lia|]);
    intros Hl; done || discriminate Hl.
Qed.

(** The sign of the result, and that its mantissa and exponent fit. *)
Definition rounded (s : bool) (f : spec_float) : Prop :=
  match f with
  | S754_zero s' | S754_infinity s' => s' = s
  | S754_nan => False
  | S754_finite s' m e => s' = s ∧ Z.pos m < 2 ^ 53 ∧ e ≤ 971
  end.

Lemma fexp_lower x : x - 53 ≤ fexp prec emax x ∧ -1074 ≤ fexp prec emax x ∧
  fexp prec emax x ≤ Z.max (x - 53) (-1074).
Proof. unfold fexp, emin. lia. Qed.

Lemma round_aux_rounded s m e l :
  0 ≤ m → rounded s (binary_round_aux prec emax s m e l).
Proof.
  intros Hm. unfold binary_round_aux.
  destruct (shr_fexp_val m e l Hm) as (x & -> & Hx & _).
  assert (0 ≤ shr_m x) as Hm' by (rewrite Hx; apply Z.div_pos; [lia|apply Z.pow_pos_nonneg; lia]).
  destruct (round_nearest_bound (shr_m x) (loc_of_shr_record x) Hm') as [Hr _].
  set (m1 := round_nearest_even _ _) in *. set (e1 := e + _). clearbody m1 e1.
  destruct (shr_fexp_val m1 e1 loc_Exact) as (y & -> & Hy & _); [lia|].
  set (n := Z.max 0 (fexp prec emax (Zdigits2 m1 + e1) - e1)) in *.
  assert (0 < 2 ^ n) by (apply Z.pow_pos_nonneg; lia).
  assert (0 ≤ shr_m y) by (rewrite Hy; apply Z.div_pos; lia).
  assert (shr_m y < 2 ^ 53) as Hlt.
  { rewrite Hy. apply Z.div_lt_upper_bound; [lia|]. rewrite <-Z.pow_add_r by lia.
    destruct m1 as [|q|q]; [apply Z.pow_pos_nonneg; lia| |lia].
    destruct (digits2_spec q) as [_ Hd]. eapply Z.lt_le_trans; [exact Hd|].
    apply Z.pow_le_mono_r; [lia|]. pose proof (fexp_lower (Zdigits2 (Z.pos q) + e1)). simpl in *. lia. }
  destruct (shr_m y) as [|q|q]; [done| |lia]. destruct (Z.leb_spec (e1 + n) (emax - prec)); simpl; [|done].
  split_and!; [done|done|lia].
Qed.

Lemma iter_xO_val m d : Z.pos (Pos.iter xO m d) = Z.pos m * 2 ^ Z.pos d.
Proof.
  induction d as [|d IH] using Pos.peano_ind; [simpl; lia|].
  rewrite Pos.iter_succ, Pos2Z.inj_xO, IH, Pos2Z.inj_succ, Z.pow_succ_r by lia. lia.
Qed.

Lemma digits2_unique m k : 1 ≤ k → 2 ^ (k - 1) ≤ Z.pos m < 2 ^ k → Z.pos (digits2_pos m) = k.
Proof.
  intros Hk [Hl Hu]. destruct (digits2_spec m) as [Hl' Hu'].
  assert (Z.pos (digits2_pos m) ≤ k) by (apply digits2_le; lia).
  destruct (Z.lt_ge_cases (Z.pos (digits2_pos m)) k) as [Hlt|]; [|lia].
  assert (2 ^ Z.pos (digits2_pos m) ≤ 2 ^ (k - 1)) by (apply Z.pow_le_mono_r; lia). lia.
Qed.

(** Aligning to a smaller exponent keeps the value and its magnitude. *)
Lemma shl_align_val m e f :
  ∃ m', shl_align m e f = (m', Z.min e f) ∧
    Z.pos m' = Z.pos m * 2 ^ (e - Z.min e f) ∧
    Z.pos (digits2_pos m') + Z.min e f = Z.pos (digits2_pos m) + e.
Proof.
  unfold shl_align. destruct (f - e) as [|d|d] eqn:Hd.
  - exists m. replace (Z.min e f) with e by lia. rewrite Z.sub_diag, Z.pow_0_r, Z.mul_1_r. done.
  - exists m. replace (Z.min e f) with e by lia. rewrite Z.sub_diag, Z.pow_0_r, Z.mul_1_r. done.
  - exists (Pos.iter xO m d). replace (Z.min e f) with f by lia.
    replace (e - f) with (Z.pos d) by lia. rewrite iter_xO_val. split_and!; [done|done|].
    destruct (digits2_spec m) as [Hl Hu].
    assert (Z.pos (digits2_pos (Pos.iter xO m d)) = Z.pos (digits2_pos m) + Z.pos d) as ->; [|lia].
    apply digits2_unique; [lia|]. rewrite iter_xO_val.
    replace (Z.pos (digits2_pos m) + Z.pos d - 1) with (Z.pos (digits2_pos m) - 1 + Z.pos d) by lia.
    rewrite !Z.pow_add_r by lia. assert (0 < 2 ^ Z.pos d) by (apply Z.pow_pos_nonneg; lia). nia.
Qed.

(** A number up to the largest finite one rounds to a finite number. *)
Lemma round_fits r e :
  e ≤ 971 → Z.pos r ≤ (2 ^ 53 - 1) * 2 ^ (971 - e) →
  ∃ f, binary_round prec emax false r e = f ∧ finite_float f.
Proof.
  intros He Hr. eexists. split; [done|]. unfold binary_round.
  set (v := Z.pos (digits2_pos r) + e). set (f := fexp prec emax v).
  assert (v ≤ 1024) as Hv.
  { enough (Z.pos (digits2_pos r) ≤ 53 + (971 - e)) by lia. apply digits2_le; [lia|].
    rewrite Z.pow_add_r by lia. assert (0 < 2 ^ (971 - e)) by (apply Z.pow_pos_nonneg; lia). lia. }
  pose proof (fexp_lower v) as (Hf1 & Hf2 & Hf3). fold f in Hf1, Hf2, Hf3.
  destruct (shl_align_val r e f) as (m & -> & Hm & Hdig). set (e0 := Z.min e f) in *.
  fold v in Hdig. pose proof (round_aux_rounded false (Z.pos m) e0 loc_Exact ltac:(lia)) as Hshape.
  unfold binary_round_aux in *.
  destruct (shr_fexp_val (Z.pos m) e0 loc_Exact ltac:(lia)) as (x & Hx & Hxm & Hxl).
  change (Zdigits2 (Z.pos m)) with (Z.pos (digits2_pos m)) in Hx, Hxm, Hxl. rewrite Hdig in Hx, Hxm, Hxl.
  fold f in Hx, Hxm, Hxl. replace (Z.max 0 (f - e0)) with (f - e0) in Hx, Hxm, Hxl by lia.
  replace (e0 + (f - e0)) with f in Hx by lia. rewrite Hx in *.
  assert (0 < 2 ^ (f - e0)) as Hp by (apply Z.pow_pos_nonneg; lia).
  assert (0 ≤ shr_m x) as Hx0 by (rewrite Hxm; apply Z.div_pos; lia).
  destruct (round_nearest_bound (shr_m x) (loc_of_shr_record x) Hx0) as [Hr1 Hr2].
  set (m1 := round_nearest_even _ _) in *.
  assert (shr_m x < 2 ^ 53) as Hx53.
  { rewrite Hxm. apply Z.div_lt_upper_bound; [lia|]. rewrite <-Z.pow_add_r by lia.
    destruct (digits2_spec m) as [_ Hd]. eapply Z.lt_le_trans; [exact Hd|]. apply Z.pow_le_mono_r; lia. }
  assert (m1 < 2 ^ 53 ∨ f ≤ 970) as Hm1.
  { destruct (Z.le_gt_cases f 970) as [|Hf]; [by right|left].
    assert (f = 971) as Hf' by lia.
    assert (Z.pos m ≤ (2 ^ 53 - 1) * 2 ^ (f - e0)) as Hmb.
    { rewrite Hm, Hf'. replace (971 - e0) with ((971 - e) + (e - e0)) by lia.
      rewrite (Z.pow_add_r 2 (971 - e)) by lia. assert (0 < 2 ^ (e - e0)) by (apply Z.pow_pos_nonneg; lia). nia. }
    destruct (Z.lt_ge_cases (shr_m x) (2 ^ 53 - 1)) as [|Hge]; [lia|].
    rewrite Hr2; [lia|]. apply Hxl. split; [|done].
    pose proof (Z.div_mod (Z.pos m) (2 ^ (f - e0)) ltac:(lia)) as Hdm.
    pose proof (Z.mod_pos_bound (Z.pos m) (2 ^ (f - e0)) Hp). rewrite <-Hxm in Hdm. nia. }
  destruct (shr_fexp_val m1 f loc_Exact ltac:(lia)) as (y & Hy & _). rewrite Hy in *.
  destruct (shr_m y) as [|q|q] eqn:Hq; [done| |done].
  assert (f + Z.max 0 (fexp prec emax (Zdigits2 m1 + f) - f) ≤ 971) as Hfin.
  { pose proof (fexp_lower (Zdigits2 m1 + f)) as (_ & _ & Hf').
    assert (Zdigits2 m1 ≤ 54 ∧ (m1 < 2 ^ 53 → Zdigits2 m1 ≤ 53)) as [Hd1 Hd2].
    { destruct m1 as [|m1|m1]; [simpl; lia| |lia]. simpl Zdigits2.
      split; [apply digits2_le; lia|]. intros ?. apply digits2_le; lia. }
    destruct Hm1 as [Hm1|Hm1]; [specialize (Hd2 Hm1)|]; lia. }
  rewrite (proj2 (Z.leb_le _ _)) in * by lia. simpl in *. tauto.
Qed.

(** ** Finite numbers stay finite *)
Lemma float_of_Z_finite n : 0 ≤ n < 2 ^ 53 → finite_float (float_of_Z n).
Proof.
  intros Hn. unfold float_of_Z, binary_normalize. destruct n as [|n|n]; [done| |lia].
  destruct (round_fits n 0) as (f & -> & Hf); [lia| |done].
  eapply Z.le_trans; [|apply (Z.mul_le_mono_nonneg_l 1)]; [lia|lia|].
  assert (0 < 2 ^ (971 - 0)) by (apply Z.pow_pos_nonneg; lia). lia.
Qed.

(** A positive integer below 2^53 converts exactly, in particular not to zero. *)
Lemma float_of_pos n : Z.pos n < 2 ^ 53 → ∃ m e, float_of_Z (Z.pos n) = S754_finite false m e.
Proof.
  intros Hn. unfold float_of_Z, binary_normalize, binary_round.
  assert (Z.pos (digits2_pos n) ≤ 53) as Hd by (apply digits2_le; lia). rewrite Z.add_0_r.
  set (f := fexp prec emax (Z.pos (digits2_pos n))).
  pose proof (fexp_lower (Z.pos (digits2_pos n))) as (Hf1 & Hf2 & Hf3). fold f in Hf1, Hf2, Hf3.
  destruct (shl_align_val n 0 f) as (m & -> & Hm & Hdig). replace (Z.min 0 f) with f in * by lia.
  unfold binary_round_aux.
  assert (∀ l, shr_fexp prec emax (Z.pos m) f l = (shr_record_of_loc (Z.pos m) l, f)) as Hshr.
  { intros l. unfold shr_fexp. change (Zdigits2 (Z.pos m)) with (Z.pos (digits2_pos m)).
    rewrite Hdig, Z.add_0_r. fold f. by rewrite Z.sub_diag. }
  rewrite Hshr. simpl. rewrite Hshr. simpl. rewrite (proj2 (Z.leb_le _ _)) by lia. eauto.
Qed.

Definition nonneg_num (x : pynum) : Prop :=
  match x with PyInt n => 0 ≤ n < 2 ^ 53 | PyFloat f => nonneg_float f end.

Lemma rounded_nonneg f : rounded false f → nonneg_float f.
Proof. destruct f as [|[]| |[]]; simpl; naive_solver. Qed.

Lemma finite_nonneg f : finite_float f → nonneg_float f.
Proof. by destruct f. Qed.

Lemma round_rounded s r e : rounded s (binary_round prec emax s r e).
Proof.
  unfold binary_round. destruct (shl_align _ _ _) as [m e']. by apply round_aux_rounded.
Qed.

Lemma SFadd_nonneg x y : finite_float x → nonneg_float y → nonneg_float (SFadd prec emax x y).
Proof.
  destruct x as [sx|sx| |[] mx ex], y as [sy|[]| |[] my ey]; try done.
  - by destruct sx, sy.
  - intros _ _. apply rounded_nonneg. unfold SFadd, binary_normalize. simpl.
    apply round_rounded.
Qed.

(** [max(target - delta, 0)] *)
Lemma SFsub_finite x y :
  finite_float x → nonneg_float y → finite_num (num_max (PyFloat (SFsub prec emax x y)) (PyInt 0)).
Proof.
  destruct x as [sx|sx| |[] mx ex], y as [sy|[]| |[] my ey]; try done.
  - by destruct sx, sy.
  - intros [Hm He] _. unfold SFsub. set (ez := Z.min ex ey).
    destruct (shl_align_val mx ex ez) as (m1 & -> & Hm1 & _).
    destruct (shl_align_val my ey ez) as (m2 & -> & Hm2 & _). simpl fst.
    replace (Z.min ex ez) with ez in * by lia. unfold binary_normalize, cond_Zopp.
    destruct (Z.pos m1 - Z.pos m2) as [|r|r] eqn:Hr; [done| |].
    + destruct (round_fits r ez) as (f & -> & Hf); [lia| |].
      { replace (971 - ez) with ((ex - ez) + (971 - ex)) by lia. rewrite Z.pow_add_r by lia.
        assert (0 < 2 ^ (971 - ex)) by (apply Z.pow_pos_nonneg; lia).
        assert (0 < 2 ^ (ex - ez)) by (apply Z.pow_pos_nonneg; lia).
        assert (Z.pos mx ≤ 2 ^ 53 - 1) by lia.
        assert (Z.pos r ≤ (2 ^ 53 - 1) * 2 ^ (ex - ez)) by nia.
        set (a := 2 ^ 53 - 1) in *. clearbody a. nia. }
      unfold num_max, num_lt. destruct f as [s|s| |[] m e]; try done.
    + pose proof (round_rounded true r ez) as Hro.
      destruct (binary_round prec emax true r ez) as [s|s| |s m e]; simpl in Hro; try done.
      * by subst.
      * destruct Hro as [-> _]. done.
Qed.

Lemma to_float_finite x : finite_num x → finite_float (to_float x).
Proof. destruct x; [apply float_of_Z_finite|done]. Qed.

Lemma to_float_nonneg x : nonneg_num x → nonneg_float (to_float x).
Proof. destruct x; [|done]. intros. by apply finite_nonneg, float_of_Z_finite. Qed.

Lemma dec_finite t d : finite_num t → nonneg_num d → finite_num (num_max (num_sub t d) (PyInt 0)).
Proof.
  intros Ht Hd. destruct t as [n|f], d as [m|g]; simpl num_sub.
  2-4: apply SFsub_finite; [by apply (to_float_finite (PyInt n)) || done|
    by apply (to_float_nonneg (PyInt m)) || done].
  simpl in *. unfold num_max. simpl. case_bool_decide; simpl; lia.
Qed.

Lemma inc_finite t d cap :
  finite_num t → nonneg_num d → 0 ≤ cap < 2 ^ 53 → finite_num (num_min (num_add t d) (PyInt cap)).
Proof.
  intros Ht Hd Hc. unfold num_min. destruct (num_lt (PyInt cap) (num_add t d)) eqn:Hlt; [done|].
  assert (∀ f, nonneg_float f → num_lt (PyInt cap) (PyFloat f) = false → finite_float f) as Hinf.
  { intros f Hf Hl. destruct f as [|[]| |]; try done. simpl in Hl. unfold SFltb in Hl.
    pose proof (float_of_Z_finite cap Hc) as Hcf. by destruct (float_of_Z cap). }
  destruct t as [n|f], d as [m|g]; simpl num_add in *.
  2-4: apply Hinf; [|done]; apply SFadd_nonneg; [by apply (to_float_finite (PyInt n)) || done|
    by apply (to_float_nonneg (PyInt m)) || done].
  simpl in *. rewrite bool_decide_eq_false in Hlt. lia.
Qed.

(** [max(1, n / m)] *)
Lemma delta_nonneg n m : 0 ≤ n < 2 ^ 53 → 0 < m < 2 ^ 53 → nonneg_num (num_max (PyInt 1) (int_truediv n m)).
Proof.
  intros Hn Hm. unfold num_max. destruct (num_lt _ _); [|simpl; lia]. unfold int_truediv. simpl.
  destruct m as [|m|m]; [lia| |lia]. destruct (float_of_pos m) as (mm & em & ->); [lia|].
  pose proof (float_of_Z_finite n Hn) as Hf. destruct (float_of_Z n) as [s|s| |[] mn en]; try done.
  unfold SFdiv. destruct (SFdiv_core_binary _ _ _ _ _ _) as [[q e] l] eqn:Hcore.
  apply rounded_nonneg. apply round_aux_rounded.
  unfold SFdiv_core_binary in Hcore. set (s := _ - _ - _) in Hcore.
  set (m' := match s with Z0 => _ | Zpos _ => _ | Zneg _ => _ end) in Hcore.
  assert (0 ≤ m') as Hm'.
  { subst m'. destruct s; [lia| |lia]. apply Z.shiftl_nonneg. lia. }
  pose proof (Z_div_mod m' (Z.pos mm) ltac:(lia)) as Hdm.
  destruct (Z.div_eucl m' (Z.pos mm)) as [q' r']. simplify_eq. nia.
Qed.

Lemma num_int_finite x : finite_num x → ∃ z, num_int x = Ret z ∧ 0 ≤ z.
Proof.
  destruct x as [n|[s|s| |[] m e]]; try done; intros Hx; simpl in *; eexists; (split; [done|]); try lia.
  case_bool_decide; [apply Z.mul_nonneg_nonneg; [lia|apply Z.pow_nonneg; lia]|].
  apply Z.div_pos; [lia|]. apply Z.pow_pos_nonneg; lia.
Qed.
