(* ===== verification/CachePolicy.v ===== *)
(** * Cache policies of the CPU offloading manager

    [CachePolicy] of src/vllm/v1/kv_offload/cpu/policies/base.py as a class of
    operations, with its two implementations: [LRUCachePolicy] (lru.py) and
    [ARCCachePolicy] (arc.py). The class [PolicyLaws] states what the manager
    relies on: a policy is a finite map from keys to block statuses whose [evict]
    removes idle, unprotected blocks, all or nothing.

    A [BlockStatus] object is held by exactly one dictionary entry of its policy,
    so mutating it through the reference [get] returns is [policy_mutate] at its
    key. *)

From S2P Require Import Prelude OrderedDict PyNum.

Open Scope Z_scope.

Notation OffloadKey := (list Z).

(** ** Block status *)

(** Assignment to a [ctypes.c_int32] field keeps the low 32 bits, as a signed number. *)
Definition int32 (n : Z) : Z := (n + 2 ^ 31) mod 2 ^ 32 - 2 ^ 31.
Definition int64 (n : Z) : Z := (n + 2 ^ 63) mod 2 ^ 64 - 2 ^ 63.

Record BlockStatus := mkStatus { ref_cnt : Z; block_id : Z }.

#[global] Instance block_status_eq_dec : EqDecision BlockStatus.
Proof. solve_decision. Defined.

(** [BlockStatus(block_id)]: not ready *)
Definition new_status (id : Z) : BlockStatus := mkStatus (-1) (int64 id).
Definition is_ready (b : BlockStatus) : bool := bool_decide (0 ≤ ref_cnt b).
Definition assign_ref_cnt (n : Z) (b : BlockStatus) : BlockStatus := mkStatus (int32 n) (block_id b).

(** ** The interface *)
Class CachePolicy (P : Type) := {
  policy_init : Z → P;
  policy_get : OffloadKey → P → option BlockStatus;
  policy_insert : OffloadKey → BlockStatus → P → P;
  policy_remove : OffloadKey → M P unit;
  policy_touch : list OffloadKey → P → P;
  policy_evict : Z → list OffloadKey → M P (option (list (OffloadKey * BlockStatus)));
  policy_clear : P → P;
  policy_mutate : OffloadKey → (BlockStatus → BlockStatus) → P → P
}.

(** A block that [evict] may take. *)
Definition evictable (protected : list OffloadKey) (kb : OffloadKey * BlockStatus) : Prop :=
  ref_cnt kb.2 = 0 ∧ kb.1 ∉ protected.
#[global] Instance evictable_dec protected kb : Decision (evictable protected kb).
Proof. unfold evictable. apply _. Defined.

Class PolicyLaws (P : Type) `{CachePolicy P} := {
  policy_wf : P → Prop;
  policy_map : P → gmap OffloadKey BlockStatus;
  law_get : ∀ p k, policy_wf p → policy_get k p = policy_map p !! k;
  law_init : ∀ c, 0 ≤ c < 2 ^ 53 → policy_wf (policy_init c) ∧ policy_map (policy_init c) = ∅;
  law_insert : ∀ p k b, policy_wf p → policy_map p !! k = None →
    policy_wf (policy_insert k b p) ∧ policy_map (policy_insert k b p) = <[k := b]> (policy_map p);
  law_remove : ∀ p k b, policy_wf p → policy_map p !! k = Some b →
    ∃ p', policy_remove k p = (Ret tt, p') ∧ policy_wf p' ∧ policy_map p' = delete k (policy_map p);
  law_touch : ∀ p ks, policy_wf p →
    policy_wf (policy_touch ks p) ∧ policy_map (policy_touch ks p) = policy_map p;
  law_mutate : ∀ p k f, policy_wf p →
    policy_wf (policy_mutate k f p) ∧ policy_map (policy_mutate k f p) = alter f k (policy_map p);
  law_clear : ∀ p, policy_wf p → policy_wf (policy_clear p) ∧ policy_map (policy_clear p) = ∅;
  law_evict : ∀ p n protected, policy_wf p → 0 < n →
    ∃ r p', policy_evict n protected p = (Ret r, p') ∧
      match r with
      | None => p' = p
      | Some l => policy_wf p' ∧ Z.of_nat (length l) = n ∧ NoDup l.*1 ∧
          (∀ k b, (k, b) ∈ l → policy_map p !! k = Some b ∧ evictable protected (k, b)) ∧
          ∀ k, policy_map p' !! k = if decide (k ∈ l.*1) then None else policy_map p !! k
      end
}.

(** ** LRU *)
Module LRUCachePolicy.
Record t := mk { blocks : list (OffloadKey * BlockStatus) }.

(** [cache_capacity] is not used. *)
Definition init (cache_capacity : Z) : t := mk [].
Definition get (key : OffloadKey) (p : t) : option BlockStatus := od_get key (blocks p).
Definition insert (key : OffloadKey) (block : BlockStatus) (p : t) : t := mk (od_set key block (blocks p)).
Definition remove (key : OffloadKey) : M t unit := λ p,
  if od_mem key (blocks p) then (Ret tt, mk (od_del key (blocks p))) else (Raise KeyError, p).

Definition touch_one (p : t) (key : OffloadKey) : t :=
  match od_move_to_end key (blocks p) with Some d => mk d | None => p end.
Definition touch (keys : list OffloadKey) (p : t) : t := foldl touch_one p (rev keys).

Definition clear (p : t) : t := mk [].

(** The scan over [self.blocks.items()]: it stops when [n] candidates are found;
    [found] is their number so far. *)
Fixpoint candidates (n : Z) (protected : list OffloadKey) (found : Z)
    (items : list (OffloadKey * BlockStatus)) : list (OffloadKey * BlockStatus) :=
  match items with
  | [] => []
  | kb :: items' =>
      if decide (evictable protected kb) then
        kb :: (if bool_decide (found + 1 = n) then [] else candidates n protected (found + 1) items')
      else candidates n protected found items'
  end.

Definition evict (n : Z) (protected : list OffloadKey) : M t (option (list (OffloadKey * BlockStatus))) := λ p,
  if bool_decide (n = 0) then (Ret (Some []), p)
  else
    let cs := candidates n protected 0 (blocks p) in
    if bool_decide (Z.of_nat (length cs) < n) then (Ret None, p)
    else (Ret (Some cs), mk (foldl (λ d kb, od_del kb.1 d) (blocks p) cs)).

Definition mutate (key : OffloadKey) (f : BlockStatus → BlockStatus) (p : t) : t :=
  mk (od_alter f key (blocks p)).

#[global] Instance policy : CachePolicy t := {|
  policy_init := init; policy_get := get; policy_insert := insert; policy_remove := remove;
  policy_touch := touch; policy_evict := evict; policy_clear := clear; policy_mutate := mutate
|}.
End LRUCachePolicy.

(** ** ARC *)
Module ARCCachePolicy.
Record t := mk {
  cache_capacity : Z;
  target_t1_size : pynum;
  t1 : list (OffloadKey * BlockStatus);
  t2 : list (OffloadKey * BlockStatus);
  b1 : list (OffloadKey * unit);
  b2 : list (OffloadKey * unit)
}.

(** The target starts as the float [0.0]. *)
Definition init (capacity : Z) : t := mk capacity (PyFloat (SpecFloat.S754_zero false)) [] [] [] [].

Definition with_lists l1 l2 g1 g2 (p : t) : t := mk (cache_capacity p) (target_t1_size p) l1 l2 g1 g2.
Definition with_target x (p : t) : t := mk (cache_capacity p) x (t1 p) (t2 p) (b1 p) (b2 p).

Definition get (key : OffloadKey) (p : t) : option BlockStatus :=
  match od_get key (t1 p) with Some b => Some b | None => od_get key (t2 p) end.

Definition insert (key : OffloadKey) (block : BlockStatus) (p : t) : t :=
  with_lists (od_set key block (t1 p)) (t2 p) (od_del key (b1 p)) (od_del key (b2 p)) p.

Definition remove (key : OffloadKey) : M t unit := λ p,
  if od_mem key (t1 p) then (Ret tt, with_lists (od_del key (t1 p)) (t2 p) (b1 p) (b2 p) p)
  else (Ret tt, with_lists (t1 p) (od_del key (t2 p)) (b1 p) (b2 p) p).

Definition len {A} (d : list A) : Z := Z.of_nat (length d).

Definition touch_one (p : t) (key : OffloadKey) : t :=
  match od_get key (t1 p) with
  | Some block =>
      if negb (is_ready block)
      then with_lists (od_set key block (od_del key (t1 p))) (t2 p) (b1 p) (b2 p) p
      else with_lists (od_del key (t1 p)) (od_set key block (t2 p)) (b1 p) (b2 p) p
  | None =>
      match od_move_to_end key (t2 p) with
      | Some d => with_lists (t1 p) d (b1 p) (b2 p) p
      | None =>
          match od_move_to_end key (b1 p) with
          | Some d =>
              let delta := num_max (PyInt 1) (int_truediv (len (b2 p)) (len (b1 p))) in
              let p := with_target (num_min (num_add (target_t1_size p) delta) (PyInt (cache_capacity p))) p in
              with_lists (t1 p) (t2 p) d (b2 p) p
          | None =>
              match od_move_to_end key (b2 p) with
              | Some d =>
                  let delta := num_max (PyInt 1) (int_truediv (len (b1 p)) (len (b2 p))) in
                  let p := with_target (num_max (num_sub (target_t1_size p) delta) (PyInt 0)) p in
                  with_lists (t1 p) (t2 p) (b1 p) d p
              | None => p
              end
          end
      end
  end.
Definition touch (keys : list OffloadKey) (p : t) : t := foldl touch_one p (rev keys).

Definition clear (p : t) : t := mk (cache_capacity p) (PyFloat (SpecFloat.S754_zero false)) [] [] [] [].

(** The first evictable item that is not selected yet. *)
Fixpoint first_candidate (protected already_selected : list OffloadKey)
    (items : list (OffloadKey * BlockStatus)) : option (OffloadKey * BlockStatus) :=
  match items with
  | [] => None
  | kb :: items' =>
      if decide (evictable protected kb ∧ kb.1 ∉ already_selected) then Some kb
      else first_candidate protected already_selected items'
  end.

(** One round of the selection loop: the candidate, whether it is from T1, and
    the new virtual size of T1. *)
Definition pick (p : t) (protected already_selected : list OffloadKey) (virtual_t1_size : Z)
    : outcome (option (OffloadKey * BlockStatus * bool) * Z) :=
  match num_int (target_t1_size p) with
  | Raise e => Raise e
  | Ret target =>
      match (if bool_decide (target ≤ virtual_t1_size)
             then first_candidate protected already_selected (t1 p) else None) with
      | Some kb => Ret (Some (kb, true), virtual_t1_size - 1)
      | None =>
          match first_candidate protected already_selected (t2 p) with
          | Some kb => Ret (Some (kb, false), virtual_t1_size)
          | None => Ret (None, virtual_t1_size)
          end
      end
  end.

Fixpoint select (n : nat) (p : t) (protected already_selected : list OffloadKey) (virtual_t1_size : Z)
    : outcome (option (list (OffloadKey * BlockStatus * bool))) :=
  match n with
  | O => Ret (Some [])
  | S n' =>
      match pick p protected already_selected virtual_t1_size with
      | Raise e => Raise e
      | Ret (None, _) => Ret None
      | Ret (Some c, v) =>
          match select n' p protected (c.1.1 :: already_selected) v with
          | Ret (Some cs) => Ret (Some (c :: cs))
          | r => r
          end
      end
  end.

Definition apply_one (p : t) (c : OffloadKey * BlockStatus * bool) : t :=
  let '(key, block, from_t1) := c in
  if (from_t1 : bool) then with_lists (od_del key (t1 p)) (t2 p) (od_set key tt (b1 p)) (b2 p) p
  else with_lists (t1 p) (od_del key (t2 p)) (b1 p) (od_set key tt (b2 p)) p.

(** [ghost.popitem(last=False)] [len(ghost) - cache_capacity] times *)
Definition trim (capacity : Z) (ghost : list (OffloadKey * unit)) : list (OffloadKey * unit) :=
  drop (Z.to_nat (len ghost - capacity)) ghost.

Definition evict (n : Z) (protected : list OffloadKey) : M t (option (list (OffloadKey * BlockStatus))) := λ p,
  if bool_decide (n = 0) then (Ret (Some []), p)
  else
    match select (Z.to_nat n) p protected [] (len (t1 p)) with
    | Raise e => (Raise e, p)
    | Ret None => (Ret None, p)
    | Ret (Some cs) =>
        let p := foldl apply_one p cs in
        if bool_decide (cache_capacity p < 0) then (Raise KeyError, with_lists (t1 p) (t2 p) [] (b2 p) p)
        else (Ret (Some cs.*1),
              with_lists (t1 p) (t2 p) (trim (cache_capacity p) (b1 p)) (trim (cache_capacity p) (b2 p)) p)
    end.

Definition mutate (key : OffloadKey) (f : BlockStatus → BlockStatus) (p : t) : t :=
  if od_mem key (t1 p) then with_lists (od_alter f key (t1 p)) (t2 p) (b1 p) (b2 p) p
  else with_lists (t1 p) (od_alter f key (t2 p)) (b1 p) (b2 p) p.

#[global] Instance policy : CachePolicy t := {|
  policy_init := init; policy_get := get; policy_insert := insert; policy_remove := remove;
  policy_touch := touch; policy_evict := evict; policy_clear := clear; policy_mutate := mutate
|}.
End ARCCachePolicy.
