(* ===== verification/CachePolicyProps.v ===== *)
(** * LRU and ARC satisfy the policy interface *)

From S2P Require Import Prelude OrderedDict PyNum CachePolicy.

Open Scope Z_scope.

(** ** LRU *)
Module LRUProps.
Import LRUCachePolicy.

Lemma candidates_spec n protected found items :
  0 ≤ found < n →
  let cs := candidates n protected found items in
  cs = take (Z.to_nat (n - found)) (filter (evictable protected) items).
Proof.
  revert found. induction items as [|kb items IH]; intros found Hf; simpl.
  - by rewrite filter_nil, take_nil.
  - rewrite filter_cons. case_decide; [|by apply IH].
    replace (Z.to_nat (n - found)) with (S (Z.to_nat (n - (found + 1)))) by lia. simpl. f_equal.
    case_bool_decide as Hn; [|apply IH; lia].
    replace (n - (found + 1)) with 0 by lia. done.
Qed.

(** [evict] takes the [n] oldest evictable blocks, and fails exactly when there
    are fewer. *)
Lemma lru_evict_eq n protected p :
  0 < n →
  let es := filter (evictable protected) (blocks p) in
  evict n protected p =
    if bool_decide (Z.of_nat (length es) < n) then (Ret None, p)
    else let cs := take (Z.to_nat n) es in
         (Ret (Some cs), mk (foldl (λ d kb, od_del kb.1 d) (blocks p) cs)).
Proof.
  intros Hn. unfold evict. rewrite bool_decide_false by lia. rewrite candidates_spec by lia.
  rewrite Z.sub_0_r. cbv zeta. set (es := filter _ _).
  case_bool_decide as H1; case_bool_decide as H2; rewrite length_take in H1; done || lia.
Qed.

Lemma touch_one_spec p k :
  od_wf (blocks p) → od_wf (blocks (touch_one p k)) ∧
  od_map (blocks (touch_one p k)) = od_map (blocks p).
Proof.
  intros Hp. unfold touch_one. destruct (od_move_to_end k (blocks p)) as [d|] eqn:Hd; [|done].
  apply od_move_to_end_perm in Hd. split; [by eapply od_wf_perm|by apply od_map_perm].
Qed.

Lemma lru_evict_law p n protected :
  od_wf (blocks p) → 0 < n →
  ∃ r p', evict n protected p = (Ret r, p') ∧
    match r with
    | None => p' = p
    | Some l => od_wf (blocks p') ∧ Z.of_nat (length l) = n ∧ NoDup l.*1 ∧
        (∀ k b, (k, b) ∈ l → od_map (blocks p) !! k = Some b ∧ evictable protected (k, b)) ∧
        ∀ k, od_map (blocks p') !! k = if decide (k ∈ l.*1) then None else od_map (blocks p) !! k
    end.
Proof.
  intros Hp Hn. rewrite lru_evict_eq by done. cbv zeta.
  set (es := filter _ _). case_bool_decide; [by eexists _, _|].
  eexists _, _. split; [done|]. simpl. set (cs := take _ _).
  assert (cs `sublist_of` blocks p) as Hsub.
  { etrans; [apply sublist_take|apply sublist_filter]. }
  split_and!.
  - by apply od_wf_foldl_del.
  - unfold cs. rewrite length_take. lia.
  - eapply sublist_NoDup; [exact Hp|]. by apply fmap_sublist.
  - intros k b Hkb. rewrite od_map_lookup, od_get_iff by done. split.
    + by eapply sublist_subseteq.
    + assert ((k, b) ∈ es) as He by (eapply sublist_subseteq; [apply sublist_take|done]).
      by apply list_elem_of_filter in He as [? _].
  - intros k. by rewrite !od_map_lookup, od_get_foldl_del.
Qed.

Lemma del_all_filter (d cs : list (OffloadKey * BlockStatus)) :
  od_wf d → foldl (λ d kb, od_del kb.1 d) d cs = filter (λ kb, kb.1 ∉ cs.*1) d.
Proof.
  revert d. induction cs as [|c cs IH]; intros d Hd; simpl.
  { rewrite filter_all; [done|]. intros x _. apply not_elem_of_nil. }
  rewrite IH by by apply od_wf_del.
  assert (od_del c.1 d = filter (λ kb, kb.1 ≠ c.1) d) as ->.
  { clear -Hd. unfold od_wf in Hd. induction d as [|[k b] d IH]; [done|]. simpl. csimpl in Hd.
    apply NoDup_cons in Hd as [Hk Hd]. rewrite filter_cons. simpl. destruct (decide (c.1 = k)) as [Heq|Hne].
    - rewrite decide_False by (intros Hn; by apply Hn). symmetry. apply filter_all.
      intros x Hx Hxc. apply Hk. rewrite <-Heq, <-Hxc. apply list_elem_of_fmap. eauto.
    - rewrite decide_True by congruence. f_equal. by apply IH. }
  rewrite list_filter_filter. apply list_filter_iff. intros x. csimpl. rewrite not_elem_of_cons. tauto.
Qed.

(** C32: LRU eviction of [n] blocks takes the [n] least recently used among the
    blocks that are idle and not protected, keeps the recency order of the rest,
    and fails, changing nothing, exactly when there are fewer. *)
Theorem lru_evict_correct n protected p :
  0 < n → od_wf (blocks p) →
  let es := filter (evictable protected) (blocks p) in
  let cs := take (Z.to_nat n) es in
  evict n protected p =
    if decide (n ≤ Z.of_nat (length es))
    then (Ret (Some cs), mk (filter (λ kb, kb.1 ∉ cs.*1) (blocks p)))
    else (Ret None, p).
Proof.
  intros Hn Hp es cs. rewrite lru_evict_eq by done. cbv zeta. fold es cs. rewrite del_all_filter by done.
  case_bool_decide; case_decide; done || lia.
Qed.

Lemma lru_evict_correct_witness :
  evict 1 [[3]] (mk [([3], mkStatus 0 7); ([4], mkStatus 1 8); ([5], mkStatus 0 9); ([6], mkStatus 0 2)]) =
    (Ret (Some [([5], mkStatus 0 9)]),
     mk [([3], mkStatus 0 7); ([4], mkStatus 1 8); ([6], mkStatus 0 2)]).
Proof.
  rewrite (lru_evict_correct 1); [by vm_compute|lia|].
  apply (bool_decide_unpack (NoDup _)). by vm_compute.
Defined.

Lemma lru_touch_law p ks :
  od_wf (blocks p) → od_wf (blocks (touch ks p)) ∧ od_map (blocks (touch ks p)) = od_map (blocks p).
Proof.
  unfold touch. revert p. induction (rev ks) as [|k l IH]; intros p Hp; [done|].
  simpl. destruct (touch_one_spec p k Hp) as [Hw Hm]. by destruct (IH _ Hw) as [? ->].
Qed.

#[global] Instance lru_laws : PolicyLaws LRUCachePolicy.t.
Proof.
  refine {| policy_wf := λ p, od_wf (blocks p); policy_map := λ p, od_map (blocks p) |}; simpl.
  - intros p k _. by rewrite od_map_lookup.
  - intros c _. split; [apply od_wf_nil|done].
  - intros p k b Hp _. split; [by apply od_wf_set|apply od_map_set].
  - intros p k b Hp Hk. rewrite od_map_lookup in Hk. unfold remove.
    rewrite (proj2 (od_mem_spec k (blocks p))) by by eapply od_get_Some_key.
    eexists. split; [done|]. split; [by apply od_wf_del|by apply od_map_del].
  - intros p ks. apply lru_touch_law.
  - intros p k f Hp. split; [by apply od_wf_alter|apply od_map_alter].
  - intros p _. split; [apply od_wf_nil|done].
  - apply lru_evict_law.
Defined.
End LRUProps.

(** ** ARC *)
Module ARCProps.
Import ARCCachePolicy.

(** The four lists hold distinct keys, the ghost lists fit the capacity, and the
    adaptive target is a finite non-negative number. *)
Record arc_wf (p : t) : Prop := {
  aw_t1 : od_wf (t1 p);
  aw_t2 : od_wf (t2 p);
  aw_b1 : od_wf (b1 p);
  aw_b2 : od_wf (b2 p);
  aw_disj : ∀ k, (k ∈ (t1 p).*1 → k ∉ (t2 p).*1 ∧ k ∉ (b1 p).*1 ∧ k ∉ (b2 p).*1) ∧
                 (k ∈ (t2 p).*1 → k ∉ (b1 p).*1 ∧ k ∉ (b2 p).*1) ∧
                 (k ∈ (b1 p).*1 → k ∉ (b2 p).*1);
  aw_cap : 0 ≤ cache_capacity p < 2 ^ 53;
  aw_ghost : len (b1 p) ≤ cache_capacity p ∧ len (b2 p) ≤ cache_capacity p;
  aw_target : finite_num (target_t1_size p)
}.

Definition arc_map (p : t) : gmap OffloadKey BlockStatus := od_map (t1 p ++ t2 p).

Lemma arc_map_lookup p k : arc_map p !! k = get k p.
Proof. unfold arc_map, get. by rewrite od_map_lookup, od_get_app. Qed.

Lemma arc_map_ext p p' : (∀ k, get k p' = get k p) → arc_map p' = arc_map p.
Proof. intros Hg. apply map_eq. intros k. by rewrite !arc_map_lookup. Qed.

Lemma arc_init_wf c : 0 ≤ c < 2 ^ 53 → arc_wf (init c).
Proof. intros Hc. split; try done; try apply od_wf_nil; simpl; unfold len; simpl; [set_solver|lia]. Qed.

Lemma od_del_len {V} k (d : list (OffloadKey * V)) : len (od_del k d) ≤ len d.
Proof. unfold len. pose proof (sublist_length _ _ (od_del_sublist k d)). lia. Qed.

Lemma arc_insert_wf p k b :
  arc_wf p → arc_map p !! k = None →
  arc_wf (insert k b p) ∧ arc_map (insert k b p) = <[k := b]> (arc_map p).
Proof.
  intros [W1 W2 W3 W4 Hd Hc Hg Ht] Hk. rewrite arc_map_lookup in Hk. unfold get in Hk. case_match; [done|].
  split.
  - split; simpl; try done; [by apply od_wf_set|by apply od_wf_del|by apply od_wf_del| |].
    + intros k'. specialize (Hd k'). rewrite od_set_keys, !od_del_keys_iff by done.
      apply od_get_None in Hk. destruct (decide (k' = k)) as [->|]; naive_solver.
    + pose proof (od_del_len k (b1 p)). pose proof (od_del_len k (b2 p)). lia.
  - apply map_eq. intros k'. rewrite lookup_insert, !arc_map_lookup. unfold get. simpl.
    rewrite od_get_set. repeat case_decide; naive_solver.
Qed.

Lemma arc_remove_wf p k b :
  arc_wf p → arc_map p !! k = Some b →
  ∃ p', remove k p = (Ret tt, p') ∧ arc_wf p' ∧ arc_map p' = delete k (arc_map p).
Proof.
  intros [W1 W2 W3 W4 Hd Hc Hg Ht] Hk. unfold remove.
  destruct (od_mem k (t1 p)) eqn:Hm; eexists; (split; [done|]); split.
  - split; simpl; try done; [by apply od_wf_del|]. intros k'. specialize (Hd k').
    rewrite !od_del_keys_iff by done. tauto.
  - apply map_eq. intros k'. rewrite lookup_delete, !arc_map_lookup. unfold get. simpl.
    rewrite od_get_del by done. apply od_mem_spec in Hm. case_decide; [|by rewrite decide_False by congruence].
    subst. rewrite decide_True by done. apply od_get_None. by apply Hd.
  - split; simpl; try done; [by apply od_wf_del|]. intros k'. specialize (Hd k').
    rewrite !od_del_keys_iff by done. tauto.
  - apply map_eq. intros k'. rewrite lookup_delete, !arc_map_lookup. unfold get. simpl.
    rewrite od_get_del by done. apply od_mem_false in Hm. case_decide.
    + subst. rewrite Hm. by rewrite decide_True.
    + by rewrite decide_False by congruence.
Qed.

Lemma arc_mutate_wf p k f :
  arc_wf p → arc_wf (mutate k f p) ∧ arc_map (mutate k f p) = alter f k (arc_map p).
Proof.
  intros [W1 W2 W3 W4 Hd Hc Hg Ht]. unfold mutate. destruct (od_mem k (t1 p)) eqn:Hm; split.
  - split; simpl; try done; [by apply od_wf_alter|]. intros k'. rewrite od_alter_keys. apply Hd.
  - apply map_eq. intros k'. rewrite lookup_alter, !arc_map_lookup. unfold get. simpl.
    rewrite od_get_alter. apply od_mem_spec in Hm. destruct (decide (k' = k)) as [->|].
    + rewrite (decide_True (P := k = k)) by done.
      destruct (od_get k (t1 p)) eqn:E; [done|]. by apply od_get_None in E.
    + by rewrite decide_False by congruence.
  - split; simpl; try done; [by apply od_wf_alter|]. intros k'. rewrite od_alter_keys. apply Hd.
  - apply map_eq. intros k'. rewrite lookup_alter, !arc_map_lookup. unfold get. simpl.
    rewrite od_get_alter. apply od_mem_false in Hm. destruct (decide (k' = k)) as [->|].
    + rewrite (decide_True (P := k = k)) by done. by rewrite Hm.
    + rewrite (decide_False (P := k = k')) by congruence. done.
Qed.

Lemma ghost_pos (d d' : list (OffloadKey * unit)) k : od_move_to_end k d = Some d' → 0 < len d.
Proof. unfold od_move_to_end, len. destruct d; [done|]. simpl. lia. Qed.

Lemma move_len {V} k (d d' : list (OffloadKey * V)) : od_move_to_end k d = Some d' → len d' = len d.
Proof. intros Hp%od_move_to_end_perm. unfold len. by rewrite Hp. Qed.

Lemma arc_touch_one p k : arc_wf p → arc_wf (touch_one p k) ∧ arc_map (touch_one p k) = arc_map p.
Proof.
  intros [W1 W2 W3 W4 Hd Hc Hg Ht]. unfold touch_one.
  destruct (od_get k (t1 p)) as [b|] eqn:E1.
  { pose proof (od_get_Some_key _ _ _ E1) as Hk. destruct (is_ready b) eqn:Hr; simpl; split.
    - split; simpl; try done; [by apply od_wf_del|by apply od_wf_set|].
      intros k'. specialize (Hd k'). rewrite !od_set_keys, !od_del_keys_iff by done.
      destruct (decide (k' = k)) as [->|]; naive_solver.
    - apply arc_map_ext. intros k'. unfold get. simpl. rewrite od_get_del, od_get_set by done.
      repeat case_decide; subst; [by rewrite E1|done].
    - split; simpl; try done; [by apply od_wf_set, od_wf_del|].
      intros k'. specialize (Hd k'). rewrite !od_set_keys, !od_del_keys_iff by done.
      destruct (decide (k' = k)) as [->|]; naive_solver.
    - apply arc_map_ext. intros k'. unfold get. simpl. rewrite od_get_set, od_get_del by done.
      repeat case_decide; subst; [by rewrite E1|done]. }
  destruct (od_move_to_end k (t2 p)) as [d|] eqn:E2.
  { pose proof (od_move_to_end_perm _ _ _ E2) as Hp. split.
    - split; simpl; try done; [by eapply od_wf_perm|]. intros k'. rewrite (od_move_keys _ _ _ k' E2). apply Hd.
    - apply arc_map_ext. intros k'. unfold get. simpl. by rewrite (od_get_perm _ _ _ Hp). }
  destruct (od_move_to_end k (b1 p)) as [d|] eqn:E3.
  { pose proof (od_move_to_end_perm _ _ _ E3) as Hp. split; [|done].
    pose proof (ghost_pos _ _ _ E3). pose proof (move_len _ _ _ E3).
    split; simpl; try done; [by eapply od_wf_perm| |lia|].
    - intros k'. rewrite (od_move_keys _ _ _ k' E3). apply Hd.
    - apply inc_finite; [done| |done]. apply delta_nonneg; unfold len in *; lia. }
  destruct (od_move_to_end k (b2 p)) as [d|] eqn:E4; [|done].
  pose proof (od_move_to_end_perm _ _ _ E4) as Hp. split; [|done].
  pose proof (ghost_pos _ _ _ E4). pose proof (move_len _ _ _ E4).
  split; simpl; try done; [by eapply od_wf_perm| |lia|].
  - intros k'. rewrite (od_move_keys _ _ _ k' E4). apply Hd.
  - apply dec_finite; [done|]. apply delta_nonneg; unfold len in *; lia.
Qed.

Lemma arc_touch p ks : arc_wf p → arc_wf (touch ks p) ∧ arc_map (touch ks p) = arc_map p.
Proof.
  unfold touch. revert p. induction (rev ks) as [|k l IH]; intros p Hp; [done|].
  simpl. destruct (arc_touch_one p k Hp) as [Hw <-]. by apply IH.
Qed.

(** *** Eviction *)
Lemma first_candidate_Some protected sel items kb :
  first_candidate protected sel items = Some kb →
  kb ∈ items ∧ evictable protected kb ∧ kb.1 ∉ sel.
Proof.
  induction items as [|x items IH]; simpl; [done|]. case_decide as Hx.
  - intros [= ->]. split; [set_solver|done].
  - intros H. destruct (IH H) as (? & ? & ?). split; [set_solver|done].
Qed.

Lemma first_candidate_None protected sel items :
  first_candidate protected sel items = None ↔
  ∀ kb, kb ∈ items → evictable protected kb → kb.1 ∈ sel.
Proof.
  induction items as [|x items IH]; simpl; [split; [set_solver|done]|]. case_decide as Hx.
  - split; [done|]. intros H. destruct Hx as [Hx Hn]. destruct Hn. apply H; [set_solver|done].
  - rewrite IH. split; intros H kb; [|intros; apply H; [set_solver|done]].
    intros [->|Hin]%elem_of_cons Hev; [|by apply H].
    destruct (decide (x.1 ∈ sel)); [done|]. tauto.
Qed.

(** The list a candidate is taken from. *)
Definition source (p : t) (from_t1 : bool) : list (OffloadKey * BlockStatus) :=
  if from_t1 then t1 p else t2 p.

Definition candidate_ok (p : t) (protected sel : list OffloadKey) (c : OffloadKey * BlockStatus * bool) : Prop :=
  c.1 ∈ source p c.2 ∧ evictable protected c.1 ∧ c.1.1 ∉ sel.

Lemma pick_spec p protected sel v :
  finite_num (target_t1_size p) →
  ∃ r v', pick p protected sel v = Ret (r, v') ∧
    match r with Some c => candidate_ok p protected sel c | None => True end.
Proof.
  intros Ht. unfold pick. destruct (num_int_finite _ Ht) as (z & -> & _).
  destruct (if bool_decide (z ≤ v) then first_candidate protected sel (t1 p) else None) as [kb|] eqn:E1.
  - eexists _, _. split; [done|]. case_bool_decide; [|done].
    by apply first_candidate_Some in E1.
  - destruct (first_candidate protected sel (t2 p)) as [kb|] eqn:E2; [|by eexists _, _].
    eexists _, _. split; [done|]. by apply first_candidate_Some in E2.
Qed.

Lemma select_spec n p protected sel v :
  finite_num (target_t1_size p) →
  ∃ r, select n p protected sel v = Ret r ∧
    match r with
    | None => True
    | Some cs => length cs = n ∧ NoDup cs.*1.*1 ∧ ∀ c, c ∈ cs → candidate_ok p protected sel c
    end.
Proof.
  intros Ht. revert sel v. induction n as [|n IH]; intros sel v; simpl.
  { eexists. split; [done|]. split; [done|]. split; [apply NoDup_nil_2|set_solver]. }
  destruct (pick_spec p protected sel v Ht) as ([c|] & v' & -> & Hc); [|by eexists].
  destruct (IH (c.1.1 :: sel) v') as ([cs|] & -> & Hcs); [|by eexists].
  destruct Hcs as (Hl & Hnd & Hok). eexists. split; [done|]. csimpl. split_and!; [by rewrite Hl| |].
  - apply NoDup_cons. split; [|done]. intros (x & Hx & (y & -> & Hy)%list_elem_of_fmap)%list_elem_of_fmap.
    destruct (Hok y Hy) as (_ & _ & Hn). rewrite Hx in Hn. set_solver.
  - intros c' [->|Hc']%elem_of_cons; [done|]. destruct (Hok c' Hc') as (? & ? & Hn). split_and!; [done..|].
    set_solver.
Qed.

(** The invariant without the bound on the ghost lists, which [evict] restores
    at its end. *)
Definition arc_lists (p : t) : Prop :=
  od_wf (t1 p) ∧ od_wf (t2 p) ∧ od_wf (b1 p) ∧ od_wf (b2 p) ∧
  ∀ k, (k ∈ (t1 p).*1 → k ∉ (t2 p).*1 ∧ k ∉ (b1 p).*1 ∧ k ∉ (b2 p).*1) ∧
       (k ∈ (t2 p).*1 → k ∉ (b1 p).*1 ∧ k ∉ (b2 p).*1) ∧ (k ∈ (b1 p).*1 → k ∉ (b2 p).*1).

Lemma apply_one_spec p c :
  arc_lists p → c.1 ∈ source p c.2 →
  let p' := apply_one p c in
  arc_lists p' ∧ cache_capacity p' = cache_capacity p ∧ target_t1_size p' = target_t1_size p ∧
  (∀ k, get k p' = if decide (k = c.1.1) then None else get k p) ∧
  (∀ x b, x ∈ source p b → x.1 ≠ c.1.1 → x ∈ source p' b).
Proof.
  intros (W1 & W2 & W3 & W4 & Hd) Hc. destruct c as [[k0 v0] [|]]; simpl in *.
  - assert (k0 ∈ (t1 p).*1) as Hk by (apply list_elem_of_fmap; by exists (k0, v0)). split_and!; try done.
    + split_and!; simpl; [by apply od_wf_del|done|by apply od_wf_set|done|].
      intros k. specialize (Hd k). rewrite od_set_keys, od_del_keys_iff by done.
      destruct (decide (k = k0)) as [->|]; naive_solver.
    + intros k. unfold get. simpl. rewrite od_get_del by done. case_decide; [|done]. subst.
      apply od_get_None. by apply Hd.
    + intros x [|]; simpl; [|done]. intros ? ?. by apply od_elem_del.
  - assert (k0 ∈ (t2 p).*1) as Hk by (apply list_elem_of_fmap; by exists (k0, v0)). split_and!; try done.
    + split_and!; simpl; [done|by apply od_wf_del|done|by apply od_wf_set|].
      intros k. specialize (Hd k). rewrite od_set_keys, od_del_keys_iff by done.
      destruct (decide (k = k0)) as [->|]; naive_solver.
    + intros k. unfold get. simpl. rewrite od_get_del by done. case_decide; [|done]. subst.
      assert (od_get k0 (t1 p) = None) as ->; [|done]. apply od_get_None. intros H.
      by destruct (Hd k0) as [[? _] _].
    + intros x [|]; simpl; [done|]. intros ? ?. by apply od_elem_del.
Qed.

Lemma apply_all_spec cs p :
  arc_lists p → NoDup cs.*1.*1 → (∀ c, c ∈ cs → c.1 ∈ source p c.2) →
  let p' := foldl apply_one p cs in
  arc_lists p' ∧ cache_capacity p' = cache_capacity p ∧ target_t1_size p' = target_t1_size p ∧
  ∀ k, get k p' = if decide (k ∈ cs.*1.*1) then None else get k p.
Proof.
  revert p. induction cs as [|c cs IH]; intros p Hp Hnd Hcs; simpl; [done|]. csimpl in Hnd.
  apply NoDup_cons in Hnd as [Hc Hnd].
  destruct (apply_one_spec p c Hp) as (Hp1 & Hc1 & Ht1 & Hg1 & Hin1);
    [by apply Hcs, elem_of_cons; left|].
  destruct (IH (apply_one p c) Hp1 Hnd) as (Hp2 & Hc2 & Ht2 & Hg2).
  { intros c' Hc'. apply Hin1; [by apply Hcs, elem_of_cons; right|]. intros Heq. apply Hc. rewrite <-Heq.
    apply list_elem_of_fmap. exists c'.1. split; [done|]. apply list_elem_of_fmap. by exists c'. }
  split_and!; [done|congruence|congruence|]. intros k. rewrite Hg2, Hg1. csimpl.
  destruct (decide (k ∈ cs.*1.*1)) as [Hk|Hk].
  { rewrite decide_True; [done|]. by apply elem_of_cons; right. }
  apply decide_ext. rewrite elem_of_cons. tauto.
Qed.

Lemma trim_spec c (g : list (OffloadKey * unit)) :
  0 ≤ c → len (trim c g) ≤ c ∧ ∀ k, k ∈ (trim c g).*1 → k ∈ g.*1.
Proof.
  intros Hc. unfold trim, len. split; [rewrite length_drop; lia|].
  intros k (x & -> & Hx)%list_elem_of_fmap. apply list_elem_of_fmap. exists x. split; [done|].
  by eapply sublist_subseteq; [apply sublist_drop|].
Qed.

Lemma trim_wf c g : od_wf g → od_wf (trim c g).
Proof. intros Hg. eapply sublist_NoDup; [exact Hg|]. apply fmap_sublist, sublist_drop. Qed.

Lemma arc_evict p n protected :
  arc_wf p → 0 < n →
  ∃ r p', evict n protected p = (Ret r, p') ∧
    match r with
    | None => p' = p
    | Some l => arc_wf p' ∧ Z.of_nat (length l) = n ∧ NoDup l.*1 ∧
        (∀ k b, (k, b) ∈ l → arc_map p !! k = Some b ∧ evictable protected (k, b)) ∧
        ∀ k, arc_map p' !! k = if decide (k ∈ l.*1) then None else arc_map p !! k
    end.
Proof.
  intros [W1 W2 W3 W4 Hd Hc Hg Ht] Hn. unfold evict. rewrite bool_decide_false by lia.
  destruct (select_spec (Z.to_nat n) p protected [] (len (t1 p)) Ht) as ([cs|] & -> & Hcs);
    [|by eexists _, _].
  destruct Hcs as (Hl & Hnd & Hok).
  destruct (apply_all_spec cs p) as ((V1 & V2 & V3 & V4 & Vd) & Hc' & Ht' & Hg'); [done|done|by apply Hok|].
  set (q := foldl apply_one p cs) in *. rewrite bool_decide_false by lia.
  eexists _, _. split; [done|]. simpl.
  destruct (trim_spec (cache_capacity q) (b1 q)) as [L1 K1]; [lia|].
  destruct (trim_spec (cache_capacity q) (b2 q)) as [L2 K2]; [lia|].
  split_and!.
  - split; simpl; try done; [by apply trim_wf|by apply trim_wf| |lia|by rewrite Ht'].
    intros k. specialize (Vd k). specialize (K1 k). specialize (K2 k). naive_solver.
  - rewrite length_fmap. lia.
  - done.
  - intros k b (c & Hcb & Hin)%list_elem_of_fmap. destruct (Hok c Hin) as (Hs & Hev & _).
    rewrite <-Hcb in Hs, Hev. split; [|done]. rewrite arc_map_lookup. unfold get.
    destruct c as [? [|]]; simpl in Hs.
    + by rewrite (proj2 (od_get_iff k b _ W1)).
    + rewrite (proj2 (od_get_iff k b _ W2) Hs).
      assert (od_get k (t1 p) = None) as ->; [|done]. apply od_get_None. intros Hk.
      destruct (Hd k) as [[Hn2 _] _]; [done|]. apply Hn2, list_elem_of_fmap. by exists (k, b).
  - intros k. rewrite !arc_map_lookup. apply Hg'.
Qed.

#[global] Instance arc_laws : PolicyLaws ARCCachePolicy.t.
Proof.
  refine {| policy_wf := arc_wf; policy_map := arc_map |}; simpl.
  - intros p k _. by rewrite arc_map_lookup.
  - intros c Hc. split; [by apply arc_init_wf|done].
  - apply arc_insert_wf.
  - apply arc_remove_wf.
  - intros p ks. apply arc_touch.
  - apply arc_mutate_wf.
  - intros p [W1 W2 W3 W4 Hd Hc Hg Ht]. split; [|done]. split; simpl; try done; try apply od_wf_nil.
    + set_solver.
    + unfold len. simpl. lia.
  - apply arc_evict.
Defined.
End ARCProps.
