(* ===== verification/CpuOffload.v ===== *)
(** * The CPU offloading manager

    [CPUOffloadingManager] of src/vllm/v1/kv_offload/cpu/manager.py over any
    [CachePolicy], with the key helpers and records of kv_offload/base.py. The
    request context is not read by the manager and is left out; [medium] is the
    constant "CPU". *)

From S2P Require Import Prelude OrderedDict BlockHash PyNum CachePolicy.

Open Scope Z_scope.

(** ** Keys *)
Definition make_offload_key (block_hash : list Z) (group_idx : Z) : outcome OffloadKey :=
  match to_bytes4 group_idx with Ret g => Ret (block_hash ++ g) | Raise e => Raise e end.
Definition get_offload_block_hash (key : OffloadKey) : list Z := take (length key - 4) key.
Definition get_offload_group_idx (key : OffloadKey) : Z := from_bytes (drop (length key - 4) key).

Record OffloadingEvent := mkEvent { ev_keys : list OffloadKey; ev_removed : bool }.

(** The store spec is the list of CPU block ids. *)
Record PrepareStoreOutput := mkOutput {
  keys_to_store : list OffloadKey;
  store_spec : list Z;
  evicted_keys : list OffloadKey
}.

Module CPUOffloadingManager.
Section manager.
Context {P : Type} `{CachePolicy P}.

Record t := mk {
  num_blocks : Z;
  num_allocated_blocks : Z;
  free_list : list Z;
  events : option (list OffloadingEvent);
  policy : P;
  store_threshold : Z;
  max_tracker_size : Z;
  counts : option (list (OffloadKey * Z))
}.

Definition with_pool (n : Z) (fl : list Z) (s : t) : t :=
  mk (num_blocks s) n fl (events s) (policy s) (store_threshold s) (max_tracker_size s) (counts s).
Definition with_events (e : option (list OffloadingEvent)) (s : t) : t :=
  mk (num_blocks s) (num_allocated_blocks s) (free_list s) e (policy s) (store_threshold s)
    (max_tracker_size s) (counts s).
Definition with_policy (p : P) (s : t) : t :=
  mk (num_blocks s) (num_allocated_blocks s) (free_list s) (events s) p (store_threshold s)
    (max_tracker_size s) (counts s).
Definition with_counts (c : option (list (OffloadKey * Z))) (s : t) : t :=
  mk (num_blocks s) (num_allocated_blocks s) (free_list s) (events s) (policy s) (store_threshold s)
    (max_tracker_size s) c.

Definition on_policy {A} (m : M P A) : M t A := zoom policy with_policy m.

Definition init (num_blocks : Z) (enable_events : bool) (store_threshold max_tracker_size : Z) : t :=
  mk num_blocks 0 [] (if enable_events then Some [] else None) (policy_init num_blocks)
    store_threshold max_tracker_size (if bool_decide (2 ≤ store_threshold) then Some [] else None).

Definition _get_num_free_blocks (s : t) : Z :=
  Z.of_nat (length (free_list s)) + num_blocks s - num_allocated_blocks s.

Definition alloc_fresh : M t BlockStatus :=
  s <- get ;;
  put (with_pool (num_allocated_blocks s + 1) (free_list s) s) ;;
  ret (new_status (num_allocated_blocks s)).

(** [self._free_list.pop()] *)
Definition alloc_reused : M t BlockStatus :=
  s <- get ;;
  '(id, fl) <- of_option IndexError (list_pop (free_list s)) ;;
  put (with_pool (num_allocated_blocks s) fl s) ;;
  ret (new_status id).

Definition _allocate_blocks (keys : list OffloadKey) : M t (list BlockStatus) :=
  s <- get ;;
  let n := Z.of_nat (length keys) in
  let num_fresh := Z.min n (num_blocks s - num_allocated_blocks s) in
  let num_reused := n - num_fresh in
  assert_ (bool_decide (num_reused ≤ Z.of_nat (length (free_list s)))) ;;
  fresh <- for_collect (py_range num_fresh) (λ _, alloc_fresh) ;;
  reused <- for_collect (py_range num_reused) (λ _, alloc_reused) ;;
  ret (fresh ++ reused).

Definition _free_block (block : BlockStatus) : M t unit :=
  modify (λ s, with_pool (num_allocated_blocks s) (free_list s ++ [block_id block]) s).

(** The reference tracker of [lookup]. *)
Definition track (key : OffloadKey) (max_size : Z) (c : list (OffloadKey * Z)) : list (OffloadKey * Z) :=
  match od_move_to_end key c with
  | Some c' => od_alter (λ n, n + 1) key c'
  | None =>
      let c := if bool_decide (max_size ≤ Z.of_nat (length c)) then tail c else c in
      od_set key 1 c
  end.

(** [Some true]/[Some false] for [True]/[False], [None] for "retry later" *)
Definition lookup (key : OffloadKey) : M t (option bool) :=
  s <- get ;;
  match counts s with
  | Some c =>
      (** [popitem] of an empty tracker raises [KeyError] *)
      if negb (od_mem key c) && bool_decide (max_tracker_size s ≤ 0) && bool_decide (c = [])
      then raise KeyError
      else put (with_counts (Some (track key (max_tracker_size s) c)) s)
  | None => ret tt
  end ;;
  s <- get ;;
  ret (match policy_get key (policy s) with
       | None => Some false
       | Some block => if negb (is_ready block) then None else Some true
       end).

Definition load_one (key : OffloadKey) : M t Z :=
  s <- get ;;
  match policy_get key (policy s) with
  | None => raise AssertionError
  | Some block =>
      assert_ (is_ready block) ;;
      put (with_policy (policy_mutate key (λ b, assign_ref_cnt (ref_cnt b + 1) b) (policy s)) s) ;;
      ret (block_id block)
  end.
Definition prepare_load (keys : list OffloadKey) : M t (list Z) := for_collect keys load_one.

Definition touch (keys : list OffloadKey) : M t unit :=
  modify (λ s, with_policy (policy_touch keys (policy s)) s).

Definition unload_one (key : OffloadKey) : M t unit :=
  s <- get ;;
  match policy_get key (policy s) with
  | None => raise AssertionError
  | Some block =>
      assert_ (bool_decide (0 < ref_cnt block)) ;;
      put (with_policy (policy_mutate key (λ b, assign_ref_cnt (ref_cnt b - 1) b) (policy s)) s)
  end.
Definition complete_load (keys : list OffloadKey) : M t unit := for_each keys unload_one.

(** [if keys and self.events is not None: self.events.append(...)] *)
Definition emit (keys : list OffloadKey) (removed : bool) : M t unit :=
  modify (λ s, if bool_decide (keys = []) then s
               else with_events ((λ l, l ++ [mkEvent keys removed]) <$> events s) s).

(** The keys of the input that the tracker has seen often enough. *)
Definition tracked_keys (s : t) (keys : list OffloadKey) : list OffloadKey :=
  match counts s with
  | None => keys
  | Some c => filter (λ k, store_threshold s ≤ default 0 (od_get k c)) keys
  end.

Definition insert_one (kb : OffloadKey * BlockStatus) : M t unit :=
  modify (λ s, with_policy (policy_insert kb.1 kb.2 (policy s)) s).

Definition prepare_store (keys : list OffloadKey) : M t (option PrepareStoreOutput) :=
  s <- get ;;
  let keys := tracked_keys s keys in
  let to_store := filter (λ k, policy_get k (policy s) = None) keys in
  if bool_decide (to_store = []) then ret (Some (mkOutput [] [] []))
  else
    let num_blocks_to_evict := Z.of_nat (length to_store) - _get_num_free_blocks s in
    evicted <- (if bool_decide (0 < num_blocks_to_evict)
                then on_policy (policy_evict num_blocks_to_evict keys)
                else ret (Some [])) ;;
    match evicted with
    | None => ret None
    | Some evicted =>
        for_each evicted (λ kb, _free_block kb.2) ;;
        let to_evict := evicted.*1 in
        emit to_evict true ;;
        blocks <- _allocate_blocks to_store ;;
        assert_ (bool_decide (length blocks = length to_store)) ;;
        for_each (zip to_store blocks) insert_one ;;
        ret (Some (mkOutput to_store (block_id <$> blocks) to_evict))
    end.

(** The loop of a successful [complete_store]: the keys that became ready. *)
Fixpoint mark_stored (keys : list OffloadKey) : M t (list OffloadKey) :=
  match keys with
  | [] => ret []
  | key :: keys' =>
      s <- get ;;
      match policy_get key (policy s) with
      | Some block =>
          if is_ready block then mark_stored keys'
          else
            put (with_policy (policy_mutate key (assign_ref_cnt 0) (policy s)) s) ;;
            rest <- mark_stored keys' ;;
            ret (key :: rest)
      | None => mark_stored keys'
      end
  end.

Definition drop_failed (key : OffloadKey) : M t unit :=
  s <- get ;;
  match policy_get key (policy s) with
  | Some block =>
      if is_ready block then ret tt
      else on_policy (policy_remove key) ;; _free_block block
  | None => ret tt
  end.

Definition complete_store (keys : list OffloadKey) (success : bool) : M t unit :=
  if success then stored_keys <- mark_stored keys ;; emit stored_keys false
  else for_each keys drop_failed.

Definition reset_cache : M t unit :=
  modify (λ s, with_pool 0 [] (with_policy (policy_clear (policy s)) s)).

(** The events a caller that consumes the whole iterator sees. *)
Definition take_events : M t (list OffloadingEvent) :=
  s <- get ;;
  match events s with
  | Some l => put (with_events (Some []) s) ;; ret l
  | None => ret []
  end.
End manager.
Arguments t P : clear implicits.
End CPUOffloadingManager.
