(* ===== verification/CpuOffloadProps.v ===== *)
(** * The CPU offloading manager: correctness for every cache policy

    Proved against [PolicyLaws], so for LRU and ARC alike: the free list and the
    blocks of the cached keys partition the allocated CPU blocks, whatever the
    operations do or raise. *)

From S2P Require Import Prelude OrderedDict BlockHash PyNum CachePolicy CachePolicyProps CpuOffload.

Open Scope Z_scope.

Section manager.
Import CPUOffloadingManager.
Context {P : Type} `{PolicyLaws P}.
Context (N : Z).
Implicit Types (s : t P) (k : OffloadKey) (b : BlockStatus) (m : gmap OffloadKey BlockStatus).

(** What the manager stores: the status of each key. *)
Definition stored s : gmap OffloadKey BlockStatus := policy_map (policy s).

Definition ids m : list Z := (λ kb, block_id kb.2) <$> map_to_list m.

Record off_inv s : Prop := {
  oi_wf : policy_wf (policy s);
  oi_alloc : 0 ≤ num_allocated_blocks s ≤ num_blocks s;
  oi_size : num_blocks s = N ∧ N < 2 ^ 53;
  oi_ids : free_list s ++ ids (stored s) ≡ₚ seqZ 0 (num_allocated_blocks s)
}.

Lemma ids_insert m k b : m !! k = None → ids (<[k := b]> m) ≡ₚ block_id b :: ids m.
Proof. intros Hk. unfold ids. by rewrite map_to_list_insert. Qed.

Lemma ids_delete m k b : m !! k = Some b → ids m ≡ₚ block_id b :: ids (delete k m).
Proof. intros Hk. unfold ids. by rewrite <-(map_to_list_delete m k b Hk). Qed.

Lemma ids_alter m k f : (∀ b, block_id (f b) = block_id b) → ids (alter f k m) ≡ₚ ids m.
Proof.
  intros Hf. destruct (m !! k) as [b|] eqn:Hk.
  - rewrite (ids_delete m k b Hk). rewrite (ids_delete (alter f k m) k (f b)).
    + by rewrite Hf, delete_alter_eq.
    + by rewrite lookup_alter_eq, Hk.
  - assert (alter f k m = m) as ->; [|done]. apply map_eq. intros k'.
    rewrite lookup_alter. case_decide; [|done]. subst. by rewrite Hk.
Qed.

Lemma ids_nodup s : off_inv s → NoDup (ids (stored s)).
Proof.
  intros Hs. pose proof (NoDup_seqZ 0 (num_allocated_blocks s)) as Hn.
  rewrite <-(oi_ids _ Hs) in Hn. by apply NoDup_app in Hn as (_ & _ & ?).
Qed.

(** Distinct keys have distinct blocks, and no cached block is on the free list. *)
Lemma distinct_blocks s k1 k2 b1 b2 :
  off_inv s → stored s !! k1 = Some b1 → stored s !! k2 = Some b2 →
  block_id b1 = block_id b2 → k1 = k2.
Proof.
  intros Hs H1 H2 Hb. destruct (decide (k1 = k2)) as [|Hne]; [done|]. exfalso.
  pose proof (ids_nodup s Hs) as Hnd. rewrite (ids_delete _ k1 b1 H1) in Hnd.
  apply NoDup_cons in Hnd as [Hnd _]. apply Hnd.
  rewrite (ids_delete _ k2 b2) by by rewrite lookup_delete_ne.
  rewrite Hb. apply elem_of_cons. by left.
Qed.

(** ** Frames *)
Lemma inv_mutate s k f :
  (∀ b, block_id (f b) = block_id b) → off_inv s →
  off_inv (with_policy (policy_mutate k f (policy s)) s) ∧
  stored (with_policy (policy_mutate k f (policy s)) s) = alter f k (stored s).
Proof.
  intros Hf [Hw Ha Hn Hi]. destruct (law_mutate (policy s) k f Hw) as [Hw' Hm]. split; [|exact Hm].
  split; try done. simpl. unfold stored. simpl. rewrite Hm. by rewrite ids_alter.
Qed.

Lemma inv_init ev th mx : 0 ≤ N < 2 ^ 53 → off_inv (init N ev th mx) ∧ stored (init N ev th mx) = ∅.
Proof.
  intros Hn. destruct (law_init N Hn) as [Hw Hm]. split; [|exact Hm].
  split; [done|simpl; lia|simpl; lia|]. unfold stored. simpl. by rewrite Hm.
Qed.

(** The pool side of an operation that keeps the map. *)
Definition same_pool s s' : Prop :=
  num_blocks s' = num_blocks s ∧ num_allocated_blocks s' = num_allocated_blocks s ∧
  free_list s' = free_list s ∧ policy s' = policy s.

Lemma inv_same_pool s s' : same_pool s s' → off_inv s → off_inv s'.
Proof.
  intros (Hn & Ha & Hf & Hp) [Hw Hal Hnb Hi]. split; unfold stored in *; rewrite ?Hp, ?Ha, ?Hf, ?Hn; done.
Qed.

(** ** Operations that touch one block at a time *)
Lemma keeps_lookup k : keeps off_inv (lookup k).
Proof.
  unfold lookup. apply keeps_get. intros s Hs.
  unfold bind at 1. destruct (counts s) as [c|]; [|exact Hs]. destruct (_ && _); [exact Hs|]. simpl.
  by apply (inv_same_pool s).
Qed.

Lemma keeps_load k : keeps off_inv (load_one k).
Proof.
  unfold load_one. apply keeps_get. intros s Hs. destruct (policy_get k (policy s)) as [b|]; [|done].
  unfold bind, assert_. destruct (is_ready b); [|done]. simpl. by apply inv_mutate.
Qed.

Lemma keeps_unload k : keeps off_inv (unload_one k).
Proof.
  unfold unload_one. apply keeps_get. intros s Hs. destruct (policy_get k (policy s)) as [b|]; [|done].
  unfold bind, assert_. destruct (bool_decide (0 < ref_cnt b)); [|done]. simpl. by apply inv_mutate.
Qed.

Lemma keeps_touch ks : keeps off_inv (touch ks).
Proof.
  apply keeps_modify. intros s [Hw Ha Hn Hi]. destruct (law_touch (policy s) ks Hw) as [Hw' Hm].
  split; try done. unfold stored. simpl. by rewrite Hm.
Qed.

Lemma keeps_emit ks r : keeps off_inv (emit (P := P) ks r).
Proof. apply keeps_modify. intros s Hs. case_bool_decide; [done|]. by apply (inv_same_pool s). Qed.

Lemma keeps_mark_stored ks : keeps off_inv (mark_stored ks).
Proof.
  induction ks as [|k ks IH]; [apply keeps_ret|]. simpl. apply keeps_get. intros s Hs.
  destruct (policy_get k (policy s)) as [b|]; [|by apply IH]. destruct (is_ready b); [by apply IH|].
  unfold bind at 1. simpl. apply (keeps_bind _ (mark_stored ks)); [done|intros; apply keeps_ret|].
  by apply inv_mutate.
Qed.

Lemma drop_failed_run k b s :
  off_inv s → stored s !! k = Some b → is_ready b = false →
  ∃ s', drop_failed k s = (Ret tt, s') ∧ off_inv s' ∧ stored s' = delete k (stored s).
Proof.
  intros Hs Hk Hr. pose proof Hs as [Hw Ha Hn Hi]. unfold drop_failed, bind at 1, get.
  rewrite law_get by done. unfold stored in Hk. rewrite Hk, Hr.
  destruct (law_remove (policy s) k b Hw Hk) as (p' & Hrun & Hw' & Hm).
  unfold bind, on_policy, zoom. rewrite Hrun. simpl. eexists. split; [done|]. split; [|exact Hm].
  split; [done|done|done|]. unfold stored in *. simpl. rewrite Hm, <-app_assoc. simpl.
  by rewrite <-(ids_delete _ k b Hk).
Qed.

Lemma keeps_drop_failed k : keeps off_inv (drop_failed k).
Proof.
  intros s Hs. destruct (stored s !! k) as [b|] eqn:Hk; [destruct (is_ready b) eqn:Hr|].
  - unfold drop_failed, bind at 1, get. rewrite law_get by apply Hs. unfold stored in Hk. by rewrite Hk, Hr.
  - destruct (drop_failed_run k b s Hs Hk Hr) as (s' & -> & Hs' & _). done.
  - unfold drop_failed, bind at 1, get. rewrite law_get by apply Hs. unfold stored in Hk. by rewrite Hk.
Qed.

Lemma keeps_reset : keeps off_inv (reset_cache (P := P)).
Proof.
  apply keeps_modify. intros s [Hw Ha Hn Hi]. destruct (law_clear (policy s) Hw) as [Hw' Hm].
  split; [done|simpl; lia|done|]. unfold stored. simpl. by rewrite Hm.
Qed.

(** ** Allocation *)
Lemma fresh_loop {A} (xs : list A) s :
  for_collect xs (λ _, alloc_fresh) s =
    (Ret (new_status <$> seqZ (num_allocated_blocks s) (Z.of_nat (length xs))),
     with_pool (num_allocated_blocks s + Z.of_nat (length xs)) (free_list s) s).
Proof.
  revert s. induction xs as [|x xs IH]; intros s; simpl.
  { unfold ret. f_equal. rewrite Z.add_0_r. by destruct s. }
  erewrite run_bind by done. erewrite run_bind by apply IH. unfold ret. simpl.
  rewrite (seqZ_cons _ (Z.of_nat (S (length xs)))) by lia. csimpl.
  unfold with_pool. simpl. f_equal; [do 4 f_equal; lia|]. f_equal; lia.
Qed.

Lemma reused_loop {A} (xs : list A) s rest popped :
  free_list s = rest ++ popped → length popped = length xs →
  for_collect xs (λ _, alloc_reused) s =
    (Ret (new_status <$> rev popped), with_pool (num_allocated_blocks s) rest s).
Proof.
  revert s popped. induction xs as [|x xs IH]; intros s popped Hf Hl; simpl.
  { destruct popped; [|done]. rewrite app_nil_r in Hf. subst rest. by destruct s. }
  destruct popped as [|i popped _] using rev_ind; [done|].
  rewrite length_app in Hl. simpl in Hl. rewrite rev_app_distr. csimpl.
  erewrite run_bind; cycle 1.
  { unfold alloc_reused, bind at 1, get. by rewrite Hf, app_assoc, list_pop_snoc. }
  simpl. erewrite run_bind by (apply (IH _ popped); [done|lia]). done.
Qed.

Lemma int64_small n : 0 ≤ n < 2 ^ 53 → int64 n = n.
Proof. intros Hn. unfold int64. rewrite Z.mod_small by lia. lia. Qed.

(** The blocks handed out come from the free list and from the blocks never
    used so far. *)
Lemma allocate_run s ks :
  0 ≤ num_allocated_blocks s ≤ num_blocks s →
  Z.of_nat (length ks) ≤ _get_num_free_blocks s →
  ∃ l n fl, _allocate_blocks ks s = (Ret (new_status <$> l), with_pool (num_allocated_blocks s + n) fl s) ∧
    length l = length ks ∧ 0 ≤ n ∧ num_allocated_blocks s + n ≤ num_blocks s ∧
    free_list s ++ seqZ (num_allocated_blocks s) n ≡ₚ l ++ fl.
Proof.
  intros Ha Hk. unfold _get_num_free_blocks in Hk. unfold _allocate_blocks, bind at 1, get.
  set (len := Z.of_nat (length ks)) in *. set (n := Z.min len (num_blocks s - num_allocated_blocks s)).
  assert (0 ≤ n ≤ len ∧ len - n ≤ Z.of_nat (length (free_list s))) as [Hn Hr] by lia.
  unfold bind at 1, assert_. rewrite bool_decide_true by lia. unfold ret at 1.
  erewrite run_bind by apply fresh_loop. unfold py_range. rewrite length_seqZ, Z2Nat.id by lia.
  set (c := (length (free_list s) - Z.to_nat (len - n))%nat).
  erewrite run_bind; cycle 1.
  { apply (reused_loop _ _ (take c (free_list s)) (drop c (free_list s))).
    - simpl. by rewrite take_drop.
    - rewrite length_drop, length_seqZ. lia. }
  unfold ret. rewrite <-fmap_app. eexists _, n, _. split; [done|]. split_and!; [|lia|lia|].
  - rewrite length_app, length_seqZ, length_rev, length_drop. lia.
  - rewrite <-(take_drop c (free_list s)) at 1. rewrite <-Permutation_rev. solve_Permutation.
Qed.

(** ** Eviction and insertion *)
Lemma ids_evict m m' (l : list (OffloadKey * BlockStatus)) :
  NoDup l.*1 → (∀ k b, (k, b) ∈ l → m !! k = Some b) →
  (∀ k, m' !! k = if decide (k ∈ l.*1) then None else m !! k) →
  ids m ≡ₚ ((λ kb, block_id kb.2) <$> l) ++ ids m'.
Proof.
  revert m. induction l as [|[k b] l IH]; intros m Hnd Hl Hm'; simpl.
  { assert (m' = m) as ->; [|done]. by apply map_eq. }
  csimpl in Hnd. apply NoDup_cons in Hnd as [Hk Hnd].
  rewrite (ids_delete m k b) by (apply Hl, elem_of_cons; by left). f_equiv. apply IH; [done|..].
  - intros k' b' Hin. rewrite lookup_delete_ne.
    + apply Hl, elem_of_cons. by right.
    + intros ->. apply Hk, list_elem_of_fmap. by exists (k', b').
  - intros k'. rewrite Hm', lookup_delete. csimpl.
    destruct (decide (k' ∈ l.*1)) as [Hin|Hin].
    { rewrite decide_True; [done|]. apply elem_of_cons. by right. }
    apply decide_ext. rewrite elem_of_cons. naive_solver.
Qed.

Lemma free_loop (l : list (OffloadKey * BlockStatus)) s :
  for_each l (λ kb, _free_block kb.2) s =
    (Ret tt, with_pool (num_allocated_blocks s) (free_list s ++ ((λ kb, block_id kb.2) <$> l)) s).
Proof.
  revert s. induction l as [|kb l IH]; intros s; simpl.
  { rewrite app_nil_r. by destruct s. }
  unfold bind, _free_block at 1, modify. rewrite IH. unfold with_pool. simpl. by rewrite <-app_assoc.
Qed.

Lemma insert_loop (ks : list OffloadKey) (bs : list BlockStatus) s :
  policy_wf (policy s) → NoDup ks → length bs = length ks → (∀ k, k ∈ ks → stored s !! k = None) →
  ∃ p', for_each (zip ks bs) insert_one s = (Ret tt, with_policy p' s) ∧ policy_wf p' ∧
    ids (policy_map p') ≡ₚ (block_id <$> bs) ++ ids (stored s) ∧
    (∀ i k b, ks !! i = Some k → bs !! i = Some b → policy_map p' !! k = Some b) ∧
    (∀ k, k ∉ ks → policy_map p' !! k = stored s !! k).
Proof.
  revert bs s. induction ks as [|k ks IH]; intros [|b bs] s Hw Hnd Hl Hk; try done; simpl.
  { exists (policy s). split; [by destruct s|]. split_and!; try done. }
  apply NoDup_cons in Hnd as [Hki Hnd].
  assert (policy_map (policy s) !! k = None) as Hk0 by (apply (Hk k), elem_of_cons; by left).
  destruct (law_insert (policy s) k b Hw Hk0) as [Hw1 Hm1].
  set (s1 := with_policy (policy_insert k b (policy s)) s).
  destruct (IH bs s1 Hw1 Hnd) as (p' & Hrun & Hw' & Hids & Hnew & Hold); [simpl in Hl; lia| |].
  { intros k' Hk'. unfold stored, s1. simpl. rewrite Hm1, lookup_insert_ne.
    - apply (Hk k'), elem_of_cons. by right.
    - by intros ->. }
  exists p'. unfold bind. simpl. fold s1. rewrite Hrun. split; [done|]. split; [done|].
  unfold stored, s1 in Hids, Hold. simpl in Hids, Hold. rewrite Hm1 in Hids. split_and!.
  - rewrite Hids, (ids_insert _ k b Hk0). csimpl. solve_Permutation.
  - intros [|i] k' b' Hk' Hb'; simplify_eq/=; [|by eapply Hnew].
    rewrite Hold by done. by rewrite Hm1, lookup_insert_eq.
  - intros k' Hk'. apply not_elem_of_cons in Hk' as [Hne Hk']. rewrite Hold by done.
    by rewrite Hm1, lookup_insert_ne.
Qed.

(** ** Storing *)

(** The blocks of the evicted keys go to the free list. *)
Lemma make_room s ks n :
  off_inv s →
  ∃ r s1, (if bool_decide (0 < n) then on_policy (policy_evict n ks) else ret (Some [])) s = (Ret r, s1) ∧
    match r with
    | None => s1 = s
    | Some l => ∃ s2, for_each l (λ kb, _free_block kb.2) s1 = (Ret tt, s2) ∧ off_inv s2 ∧
        NoDup l.*1 ∧ (0 < n → Z.of_nat (length l) = n) ∧
        (∀ k, k ∈ l.*1 → k ∉ ks ∧ ∃ b, stored s !! k = Some b ∧ ref_cnt b = 0) ∧
        (∀ k, stored s2 !! k = if decide (k ∈ l.*1) then None else stored s !! k) ∧
        num_blocks s2 = num_blocks s ∧ num_allocated_blocks s2 = num_allocated_blocks s ∧
        events s2 = events s ∧ counts s2 = counts s ∧
        length (free_list s2) = (length (free_list s) + length l)%nat
    end.
Proof.
  intros Hs. pose proof Hs as [Hw Ha Hn Hi]. case_bool_decide as Hpos.
  2:{ eexists _, s. split; [done|]. exists s. split_and!; try done; [apply NoDup_nil_2|].
      intros k Hk. by apply not_elem_of_nil in Hk. }
  destruct (law_evict (policy s) n ks Hw Hpos) as (r & p' & Hrun & Hr).
  unfold on_policy, zoom. rewrite Hrun. eexists _, _. split; [done|]. destruct r as [l|].
  2:{ subst p'. by destruct s. }
  destruct Hr as (Hw' & Hl & Hnd & Hin & Hm). rewrite free_loop. eexists. split; [done|].
  assert (∀ k b, (k, b) ∈ l → stored s !! k = Some b) as Hst by (intros k b Hkb; by apply Hin).
  split_and!; try done.
  - split; [done|done|done|]. unfold stored. simpl. rewrite <-app_assoc.
    by rewrite <-(ids_evict (stored s) (policy_map p') l).
  - intros k ([k' b] & -> & Hkb)%list_elem_of_fmap. destruct (Hin k' b Hkb) as [Hb [Hz Hp]]. eauto.
  - simpl. by rewrite length_app, length_fmap.
Qed.

Lemma emit_run ks r s :
  ∃ s', emit ks r s = (Ret tt, s') ∧ same_pool s s' ∧ counts s' = counts s ∧
    events s' = if decide (ks = []) then events s else (λ l, l ++ [mkEvent ks r]) <$> events s.
Proof.
  unfold emit, modify. eexists. split; [done|]. case_bool_decide; case_decide; try done.
Qed.

(** The result [r] and the new state [s'] of [prepare_store keys] in [s]. *)
Definition store_prepared s (keys : list OffloadKey) (r : option PrepareStoreOutput) s' : Prop :=
  let ks := tracked_keys s keys in
  match r with
  | None => s' = s
  | Some out =>
      keys_to_store out = filter (λ k, stored s !! k = None) ks ∧
      length (store_spec out) = length (keys_to_store out) ∧
      (∀ i k id, keys_to_store out !! i = Some k → store_spec out !! i = Some id →
         stored s' !! k = Some (mkStatus (-1) id)) ∧
      (∀ k, k ∈ evicted_keys out → k ∉ ks ∧ ∃ b, stored s !! k = Some b ∧ ref_cnt b = 0) ∧
      (∀ k, k ∉ keys_to_store out →
         stored s' !! k = if decide (k ∈ evicted_keys out) then None else stored s !! k) ∧
      events s' = (if decide (evicted_keys out = []) then events s
                   else (λ l, l ++ [mkEvent (evicted_keys out) true]) <$> events s)
  end.

Lemma prepare_store_run s keys :
  off_inv s → NoDup keys →
  ∃ r s', prepare_store keys s = (Ret r, s') ∧ off_inv s' ∧ store_prepared s keys r s'.
Proof.
  intros Hs Hnd. unfold store_prepared. set (ks := tracked_keys s keys). unfold prepare_store, bind at 1, get. fold ks.
  assert (filter (λ k, policy_get k (policy s) = None) ks = filter (λ k, stored s !! k = None) ks) as ->.
  { apply filter_ext_in. intros k _. by rewrite law_get by apply Hs. }
  set (ts := filter (λ k, stored s !! k = None) ks). case_bool_decide as Hts.
  { eexists _, s. split; [done|]. split; [done|]. simpl. split_and!; try done.
    intros k Hk. by apply not_elem_of_nil in Hk. }
  assert (NoDup ts) as Hndt.
  { apply NoDup_filter. unfold ks, tracked_keys. destruct (counts s); [by apply NoDup_filter|done]. }
  set (n := Z.of_nat (length ts) - _get_num_free_blocks s).
  destruct (make_room s ks n Hs) as (r & s1 & Hrun & Hr).
  erewrite run_bind by exact Hrun. destruct r as [l|]; [|subst s1; by eexists _, s].
  destruct Hr as (s2 & Hfree & Hs2 & Hndl & Hll & Hev & Hst2 & Hnb & Hna & Hevt & Hcnt & Hfl).
  erewrite run_bind by exact Hfree. cbv beta.
  destruct (emit_run l.*1 true s2) as (s3 & Hemit & Hsp & _ & Hev3).
  erewrite run_bind by exact Hemit. pose proof (inv_same_pool _ _ Hsp Hs2) as Hs3.
  destruct Hsp as (Enb & Ena & Efl & Epol).
  destruct (allocate_run s3 ts) as (new & c & fl & Halloc & Hlen & Hc & Hcb & Hperm).
  { apply Hs3. }
  { unfold n, _get_num_free_blocks in *. rewrite Efl, Enb, Ena, Hnb, Hna, Hfl. lia. }
  erewrite run_bind by exact Halloc. cbv beta.
  unfold bind at 1, assert_. rewrite length_fmap, bool_decide_true by done. unfold ret at 1.
  assert (stored s3 = stored s2) as Est by (unfold stored; by rewrite Epol).
  destruct (insert_loop ts (new_status <$> new) (with_pool (num_allocated_blocks s3 + c) fl s3))
    as (p' & Hins & Hw' & Hids & Hnew & Hold).
  { apply Hs3. }
  { done. }
  { by rewrite length_fmap. }
  { intros k Hk. change (stored s3 !! k = None). rewrite Est, Hst2.
    destruct (decide (k ∈ l.*1)); [done|].
    by apply list_elem_of_filter in Hk as [? _]. }
  erewrite run_bind by exact Hins. unfold ret. eexists _, _. split; [done|].
  change (stored (with_pool (num_allocated_blocks s3 + c) fl s3)) with (stored s3) in *.
  assert (∀ i, i ∈ new → int64 i = i) as Hsmall.
  { intros i Hi. apply int64_small. assert (i ∈ free_list s3 ++ seqZ (num_allocated_blocks s3) c) as Hin.
    { rewrite Hperm. apply elem_of_app. by left. }
    pose proof Hs3 as [_ Ha3 Hb3 Hi3]. apply elem_of_app in Hin as [Hin|Hin].
    - assert (i ∈ seqZ 0 (num_allocated_blocks s3)) as Hz.
      { rewrite <-Hi3. apply elem_of_app. by left. }
      rewrite elem_of_seqZ in Hz. lia.
    - rewrite elem_of_seqZ in Hin. lia. }
  assert (block_id <$> (new_status <$> new) = new) as Hbid.
  { rewrite <-list_fmap_compose. transitivity (id <$> new); [|apply list_fmap_id].
    apply list_fmap_ext. intros i x Hx. apply Hsmall. by eapply list_elem_of_lookup_2. }
  split.
  { pose proof Hs3 as [_ Ha3 Hb3 Hi3]. split; [done|simpl; lia|done|]. unfold stored at 1. simpl.
    rewrite Hids, Hbid. rewrite (seqZ_app 0 (num_allocated_blocks s3) c) by lia. rewrite <-Hi3. simpl.
    rewrite Z.add_0_l. transitivity ((new ++ fl) ++ ids (stored s3)); [solve_Permutation|].
    rewrite <-Hperm. solve_Permutation. }
  simpl. rewrite Hbid. split_and!; [done|done| |done| |].
  - intros i k id Hk Hi. assert ((new_status <$> new) !! i = Some (new_status id)) as Hb
      by by rewrite list_lookup_fmap, Hi.
    unfold stored. simpl. rewrite (Hnew i k _ Hk Hb). unfold new_status. rewrite Hsmall; [done|].
    by eapply list_elem_of_lookup_2.
  - intros k Hk. unfold stored at 1. simpl. by rewrite Hold, Est, Hst2.
  - by rewrite Hev3, Hevt.
Qed.

(** ** Every sequence of operations *)
Inductive op :=
  | OpLookup (k : OffloadKey)
  | OpPrepareLoad (ks : list OffloadKey)
  | OpTouch (ks : list OffloadKey)
  | OpCompleteLoad (ks : list OffloadKey)
  | OpPrepareStore (ks : list OffloadKey)
  | OpCompleteStore (ks : list OffloadKey) (success : bool)
  | OpResetCache
  | OpTakeEvents.

(** The state after the operation, whether it returned or raised. *)
Definition run_op s (o : op) : t P :=
  match o with
  | OpLookup k => (lookup k s).2
  | OpPrepareLoad ks => (prepare_load ks s).2
  | OpTouch ks => (touch ks s).2
  | OpCompleteLoad ks => (complete_load ks s).2
  | OpPrepareStore ks => (prepare_store ks s).2
  | OpCompleteStore ks success => (complete_store ks success s).2
  | OpResetCache => (reset_cache s).2
  | OpTakeEvents => (take_events s).2
  end.

(** No key twice in one [prepare_store]. *)
Definition op_ok (o : op) : Prop := match o with OpPrepareStore ks => NoDup ks | _ => True end.

Lemma keeps_complete_store ks success : keeps off_inv (complete_store ks success).
Proof.
  unfold complete_store. destruct success.
  - apply keeps_bind; [apply keeps_mark_stored|intros; apply keeps_emit].
  - apply keeps_for_each, keeps_drop_failed.
Qed.

Lemma run_op_inv s o : op_ok o → off_inv s → off_inv (run_op s o).
Proof.
  intros Ho Hs. destruct o; simpl.
  - by apply keeps_lookup.
  - by apply (keeps_for_collect off_inv ks load_one keeps_load).
  - by apply keeps_touch.
  - by apply (keeps_for_each off_inv ks unload_one keeps_unload).
  - by destruct (prepare_store_run s ks Hs Ho) as (r & s' & -> & ? & _).
  - by apply keeps_complete_store.
  - by apply keeps_reset.
  - unfold take_events, bind, get. destruct (events s); [|done]. by apply (inv_same_pool s).
Qed.

Lemma run_ops_inv ops s : Forall op_ok ops → off_inv s → off_inv (foldl run_op s ops).
Proof.
  revert s. induction ops as [|o ops IH]; intros s Ho Hs; [done|]. apply Forall_cons in Ho as [Ho Hops].
  simpl. apply IH; [done|]. by apply run_op_inv.
Qed.

(** Each new key has a block of the pool to itself: the blocks handed out are distinct, no
    other cached key has one of them, and none of them is free. *)
Record own_blocks (out : PrepareStoreOutput) s : Prop := {
  ob_distinct : NoDup (store_spec out);
  ob_pool id : id ∈ store_spec out → 0 ≤ id < num_allocated_blocks s ∧ id ∉ free_list s;
  ob_only i k id k' b : keys_to_store out !! i = Some k → store_spec out !! i = Some id →
    stored s !! k' = Some b → block_id b = id → k' = k
}.
Lemma stored_block_used s k b : off_inv s → stored s !! k = Some b → 0 ≤ block_id b < num_allocated_blocks s ∧ block_id b ∉ free_list s.
Proof.
  intros [_ _ _ Hi] Hk. assert (block_id b ∈ ids (stored s)) as Hb by (rewrite (ids_delete _ k b Hk); by left).
  assert (block_id b ∈ seqZ 0 (num_allocated_blocks s)) as Hz by (rewrite <-Hi; apply elem_of_app; by right).
  rewrite elem_of_seqZ in Hz. split; [lia|]. intros Hf.
  pose proof (NoDup_seqZ 0 (num_allocated_blocks s)) as Hnd. rewrite <-Hi in Hnd.
  apply NoDup_app in Hnd as (_ & Hd & _). by apply (Hd (block_id b)).
Qed.
Lemma prepared_own s keys out s' : NoDup keys → off_inv s' → store_prepared s keys (Some out) s' → own_blocks out s'.
Proof.
  intros Hnd Hs' (Hks & Hlen & Hnew & _). assert (∀ i id, store_spec out !! i = Some id →
    ∃ k, keys_to_store out !! i = Some k ∧ stored s' !! k = Some (mkStatus (-1) id)) as Hget.
  { intros i id Hi. destruct (lookup_lt_is_Some_2 (keys_to_store out) i) as [k Hk]; [rewrite <-Hlen; by eapply lookup_lt_Some|].
    exists k. split; [done|]. by eapply Hnew. }
  assert (NoDup (keys_to_store out)) as Hndk.
  { rewrite Hks. apply NoDup_filter. unfold tracked_keys. destruct (counts s); [by apply NoDup_filter|done]. }
  split.
  - apply NoDup_alt. intros i j id Hi Hj. destruct (Hget i id Hi) as (k & Hk & Hb). destruct (Hget j id Hj) as (k' & Hk' & Hb').
    assert (k = k') as -> by by eapply (distinct_blocks s'). by eapply NoDup_lookup.
  - intros id (i & Hi)%list_elem_of_lookup. destruct (Hget i id Hi) as (k & _ & Hb). by apply (stored_block_used s' k (mkStatus (-1) id)).
  - intros i k id k' b Hk Hi Hb Hid. destruct (Hget i id Hi) as (k1 & Hk1 & Hb1). simplify_eq. by eapply (distinct_blocks s').
Qed.

(** C28: after any operations, [prepare_store] of distinct keys either gives up and changes
    nothing, or returns the keys it was given that are seen often enough and not
    cached, each with a CPU block of its own that is not ready to be read yet: the blocks
    are distinct, taken from the pool and not free, and no other key has one of them. It
    evicts only blocks that no load is using and that are not among the keys seen often
    enough, reports exactly the evicted keys, and keeps every other block. *)
Theorem prepare_store_correct ev th mx ops keys :
  0 ≤ N < 2 ^ 53 → Forall op_ok ops → NoDup keys →
  let s := foldl run_op (init N ev th mx) ops in
  ∃ r s', prepare_store keys s = (Ret r, s') ∧ store_prepared s keys r s' ∧ ∀ out, r = Some out → own_blocks out s'.
Proof.
  intros Hn Hops Hk s. assert (off_inv s) as Hs by (apply run_ops_inv; [done|by apply inv_init]).
  destruct (prepare_store_run s keys Hs Hk) as (r & s' & Hrun & Hs' & Hpr). exists r, s'. split_and!; [done..|].
  intros out ->. by eapply prepared_own.
Qed.

(** C29: whatever operations run and whether they return or raise, no two cached
    keys share a CPU block, no cached block is free, and the free and the cached
    blocks together are exactly the allocated ones, at most [num_blocks]. *)
Theorem no_block_shared ev th mx ops :
  0 ≤ N < 2 ^ 53 → Forall op_ok ops →
  let s := foldl run_op (init N ev th mx) ops in
  num_blocks s = N ∧ 0 ≤ num_allocated_blocks s ≤ N ∧
  (∀ k1 k2 b1 b2, policy_get k1 (policy s) = Some b1 → policy_get k2 (policy s) = Some b2 →
     block_id b1 = block_id b2 → k1 = k2) ∧
  (∀ k b, policy_get k (policy s) = Some b → 0 ≤ block_id b < num_allocated_blocks s ∧
     block_id b ∉ free_list s) ∧
  NoDup (free_list s) ∧
  (length (free_list s) + size (stored s))%nat = Z.to_nat (num_allocated_blocks s).
Proof.
  intros Hn Hops s. assert (off_inv s) as Hs by (apply run_ops_inv; [done|by apply inv_init]).
  pose proof Hs as [Hw Ha [Hnum _] Hi].
  split_and!; [done|lia|lia| | | |].
  - intros k1 k2 b1 b2. rewrite !law_get by done. by apply distinct_blocks.
  - intros k b. rewrite law_get by done. by apply stored_block_used.
  - pose proof (NoDup_seqZ 0 (num_allocated_blocks s)) as Hnd. rewrite <-Hi in Hnd.
    by apply NoDup_app in Hnd as (? & _ & _).
  - apply Permutation_length in Hi. rewrite length_app, length_seqZ in Hi. rewrite <-Hi. f_equal.
    unfold ids. by rewrite length_fmap, length_map_to_list.
Qed.

(** ** Loading *)
Definition occurrences (k : OffloadKey) (ks : list OffloadKey) : Z := Z.of_nat (length (filter (.= k) ks)).

Lemma occurrences_cons k x ks : occurrences k (x :: ks) = (if decide (x = k) then 1 else 0) + occurrences k ks.
Proof. unfold occurrences. rewrite filter_cons. case_decide; simpl; lia. Qed.

Lemma int32_small n : - 2 ^ 31 ≤ n < 2 ^ 31 → int32 n = n.
Proof. intros Hn. unfold int32. rewrite Z.mod_small by lia. lia. Qed.

(** The reference counts with [f] added to each key's. *)
Definition counted (f : OffloadKey → Z) m : gmap OffloadKey BlockStatus :=
  map_imap (λ k b, Some (mkStatus (ref_cnt b + f k) (block_id b))) m.

Lemma counted_lookup f m k :
  counted f m !! k = (λ b, mkStatus (ref_cnt b + f k) (block_id b)) <$> m !! k.
Proof. unfold counted. rewrite map_lookup_imap. by destruct (m !! k). Qed.

Lemma prepare_load_run s ks :
  off_inv s →
  (∀ k, k ∈ ks → ∃ b, stored s !! k = Some b ∧ 0 ≤ ref_cnt b ∧ ref_cnt b + occurrences k ks < 2 ^ 31) →
  ∃ out s', prepare_load ks s = (Ret out, s') ∧ off_inv s' ∧
    Some <$> out = (λ k, block_id <$> stored s !! k) <$> ks ∧
    stored s' = counted (λ k, occurrences k ks) (stored s).
Proof.
  revert s. induction ks as [|x ks IH]; intros s Hs Hk.
  { eexists _, s. split; [done|]. split_and!; [done|done|]. apply map_eq. intros k.
    rewrite counted_lookup. unfold occurrences. simpl. destruct (stored s !! k) as [[c i]|]; simpl; [|done].
    by rewrite Z.add_0_r. }
  destruct (Hk x) as (b & Hb & Hr & Ho); [apply elem_of_cons; by left|].
  assert (0 ≤ occurrences x ks) by (unfold occurrences; lia).
  rewrite occurrences_cons, decide_True in Ho by done.
  set (f := λ b, assign_ref_cnt (ref_cnt b + 1) b).
  destruct (inv_mutate s x f) as [Hs1 Hst1]; [done|done|].
  set (s1 := with_policy (policy_mutate x f (policy s)) s) in *.
  assert (load_one x s = (Ret (block_id b), s1)) as Hload.
  { unfold load_one, bind at 1, get. rewrite law_get by apply Hs. unfold stored in Hb. rewrite Hb.
    unfold bind, assert_, is_ready. by rewrite bool_decide_true by lia. }
  assert (∀ k, stored s1 !! k = if decide (x = k) then Some (mkStatus (ref_cnt b + 1) (block_id b))
    else stored s !! k) as Hlk.
  { intros k. rewrite Hst1, lookup_alter. case_decide; [|done]. subst k. rewrite Hb. simpl.
    unfold f, assign_ref_cnt. by rewrite int32_small by lia. }
  destruct (IH s1 Hs1) as (out & s' & Hrun & Hs' & Hout & Hst').
  { intros k Hin. rewrite Hlk. destruct (Hk k) as (b' & Hb' & Hr' & Ho'); [apply elem_of_cons; by right|].
    rewrite occurrences_cons in Ho'. case_decide; subst; simplify_eq; eexists; (split; [done|]); simpl; lia. }
  exists (block_id b :: out), s'. split.
  { unfold prepare_load in *. simpl. erewrite run_bind by exact Hload. by erewrite run_bind by exact Hrun. }
  split_and!; [done| |].
  - csimpl. rewrite Hb. simpl. f_equal. rewrite Hout. apply list_fmap_ext. intros _ k _. rewrite Hlk.
    case_decide; [|done]. subst. by rewrite Hb.
  - rewrite Hst'. apply map_eq. intros k. rewrite !counted_lookup, Hlk, occurrences_cons.
    case_decide; [subst; rewrite Hb; simpl; do 2 f_equal; lia|].
    by rewrite Z.add_0_l.
Qed.

Lemma complete_load_run s ks :
  off_inv s →
  (∀ k, k ∈ ks → ∃ b, stored s !! k = Some b ∧ occurrences k ks ≤ ref_cnt b < 2 ^ 31) →
  ∃ s', complete_load ks s = (Ret tt, s') ∧ off_inv s' ∧
    stored s' = counted (λ k, - occurrences k ks) (stored s).
Proof.
  revert s. induction ks as [|x ks IH]; intros s Hs Hk.
  { exists s. split_and!; [done|done|]. apply map_eq. intros k.
    rewrite counted_lookup. unfold occurrences. simpl. destruct (stored s !! k) as [[c i]|]; simpl; [|done].
    by rewrite Z.add_0_r. }
  destruct (Hk x) as (b & Hb & Ho); [apply elem_of_cons; by left|].
  assert (0 ≤ occurrences x ks) by (unfold occurrences; lia).
  rewrite occurrences_cons, decide_True in Ho by done.
  set (f := λ b, assign_ref_cnt (ref_cnt b - 1) b).
  destruct (inv_mutate s x f) as [Hs1 Hst1]; [done|done|].
  set (s1 := with_policy (policy_mutate x f (policy s)) s) in *.
  assert (unload_one x s = (Ret tt, s1)) as Hload.
  { unfold unload_one, bind at 1, get. rewrite law_get by apply Hs. unfold stored in Hb. rewrite Hb.
    unfold bind, assert_. by rewrite bool_decide_true by lia. }
  assert (∀ k, stored s1 !! k = if decide (x = k) then Some (mkStatus (ref_cnt b - 1) (block_id b))
    else stored s !! k) as Hlk.
  { intros k. rewrite Hst1, lookup_alter. case_decide; [|done]. subst k. rewrite Hb. simpl.
    unfold f, assign_ref_cnt. by rewrite int32_small by lia. }
  destruct (IH s1 Hs1) as (s' & Hrun & Hs' & Hst').
  { intros k Hin. rewrite Hlk. destruct (Hk k) as (b' & Hb' & Ho'); [apply elem_of_cons; by right|].
    rewrite occurrences_cons in Ho'. case_decide; subst; simplify_eq; eexists; (split; [done|]); simpl; lia. }
  exists s'. split.
  { unfold complete_load in *. simpl. by erewrite run_bind by exact Hload. }
  split_and!; [done|]. rewrite Hst'. apply map_eq. intros k. rewrite !counted_lookup, Hlk, occurrences_cons.
  case_decide; [subst; rewrite Hb; simpl; do 2 f_equal; lia|]. by rewrite Z.add_0_l.
Qed.

(** C30: [prepare_load] of ready blocks returns their CPU blocks in order and pins
    them: until [complete_load] no [prepare_store] evicts one of them. The matching
    [complete_load] succeeds and restores every status, as long as the 32-bit
    counts do not overflow. *)
Theorem load_roundtrip ev th mx ops ks :
  0 ≤ N < 2 ^ 53 → Forall op_ok ops →
  let s := foldl run_op (init N ev th mx) ops in
  (∀ k, k ∈ ks → ∃ b, stored s !! k = Some b ∧ 0 ≤ ref_cnt b ∧ ref_cnt b + occurrences k ks < 2 ^ 31) →
  ∃ out s1 s2, prepare_load ks s = (Ret out, s1) ∧ complete_load ks s1 = (Ret tt, s2) ∧
    Some <$> out = (λ k, block_id <$> stored s !! k) <$> ks ∧ stored s2 = stored s ∧
    ∀ keys r s3, NoDup keys → prepare_store keys s1 = (Ret (Some r), s3) →
      ∀ k, k ∈ ks → k ∉ evicted_keys r ∧ policy_get k (policy s3) = policy_get k (policy s1).
Proof.
  intros Hn Hops s Hk. assert (off_inv s) as Hs by (apply run_ops_inv; [done|by apply inv_init]).
  destruct (prepare_load_run s ks Hs Hk) as (out & s1 & Hrun1 & Hs1 & Hout & Hst1).
  assert (∀ k, k ∈ ks → ∃ b, stored s1 !! k = Some b ∧ occurrences k ks ≤ ref_cnt b < 2 ^ 31) as Hk1.
  { intros k Hin. destruct (Hk k Hin) as (b & Hb & ? & ?). rewrite Hst1, counted_lookup, Hb. simpl.
    eexists. split; [done|]. simpl. lia. }
  destruct (complete_load_run s1 ks Hs1 Hk1) as (s2 & Hrun2 & Hs2 & Hst2).
  exists out, s1, s2. split_and!; [done|done|done| |].
  - rewrite Hst2, Hst1. apply map_eq. intros k. rewrite !counted_lookup.
    destruct (stored s !! k) as [[c i]|]; simpl; [|done]. do 2 f_equal. lia.
  - intros keys r s3 Hnd Hst k Hin. destruct (prepare_store_run s1 keys Hs1 Hnd) as (r' & s3' & Heq & Hs3 & Hspec).
    rewrite Hst in Heq. injection Heq as <- <-. destruct Hspec as (Hts & _ & _ & Hev & Hkeep & _).
    destruct (Hk1 k Hin) as (b & Hb & Hocc).
    assert (0 < occurrences k ks) as Hpos.
    { unfold occurrences. assert (k ∈ filter (.= k) ks) as Hf by by apply list_elem_of_filter.
      destruct (filter (.= k) ks); [by apply not_elem_of_nil in Hf|simpl; lia]. }
    assert (k ∉ evicted_keys r) as Hne.
    { intros He. destruct (Hev k He) as (_ & b' & Hb' & H0'). simplify_eq. lia. }
    split; [done|]. rewrite !law_get by (apply Hs3 || apply Hs1).
    change (stored s3 !! k = stored s1 !! k). rewrite Hkeep; [by rewrite decide_False|].
    rewrite Hts. intros [Hnone _]%list_elem_of_filter. congruence.
Qed.

(** ** Completing a store *)

(** [k] is being written. *)
Definition writing m k : Prop := ∃ b, m !! k = Some b ∧ is_ready b = false.
#[local] Instance writing_dec m k : Decision (writing m k).
Proof.
  unfold writing. destruct (m !! k) as [b|]; [|right; by intros (? & ? & _)].
  destruct (is_ready b) eqn:Hb; [right|left; by exists b]. intros (b' & [= <-] & ?). congruence.
Defined.

Lemma mark_stored_run ks s :
  off_inv s → NoDup ks →
  ∃ s', mark_stored ks s = (Ret (filter (writing (stored s)) ks), s') ∧ off_inv s' ∧
    (∀ k, stored s' !! k =
       if decide (k ∈ ks ∧ writing (stored s) k) then mkStatus 0 ∘ block_id <$> stored s !! k
       else stored s !! k) ∧
    events s' = events s.
Proof.
  revert s. induction ks as [|x ks IH]; intros s Hs Hnd; simpl.
  { exists s. split_and!; done. }
  apply NoDup_cons in Hnd as [Hx Hnd]. unfold bind at 1, get. rewrite law_get by apply Hs.
  change (policy_map (policy s)) with (stored s). rewrite filter_cons.
  destruct (decide (writing (stored s) x)) as [Hw|Hw].
  - destruct Hw as (b & Hb & Hr). rewrite Hb, Hr.
    destruct (inv_mutate s x (assign_ref_cnt 0)) as [Hs1 Hst1]; [done|done|].
    set (s1 := with_policy (policy_mutate x (assign_ref_cnt 0) (policy s)) s) in *.
    assert (∀ k, k ≠ x → stored s1 !! k = stored s !! k) as Hne.
    { intros k Hk. by rewrite Hst1, lookup_alter_ne. }
    destruct (IH s1 Hs1 Hnd) as (s' & Hrun & Hs' & Hst' & Hev).
    exists s'. split_and!; [|done| |done].
    + unfold bind at 1. change (put s1 s) with (Ret (A := unit) tt, s1). cbv iota.
      erewrite run_bind by exact Hrun. unfold ret. do 3 f_equal. apply filter_ext_in. intros k Hk.
      unfold writing. rewrite Hne; [done|]. by intros ->.
    + intros k. rewrite Hst'. destruct (decide (k = x)) as [->|Hk].
      * rewrite decide_False by tauto. rewrite decide_True.
        -- by rewrite Hst1, lookup_alter_eq, Hb.
        -- split; [apply elem_of_cons; by left|]. by exists b.
      * rewrite Hne by done. apply decide_ext. unfold writing. rewrite Hne, elem_of_cons by done. tauto.
  - assert (∃ s', mark_stored ks s = (Ret (filter (writing (stored s)) ks), s') ∧ off_inv s' ∧
      (∀ k, stored s' !! k = if decide (k ∈ ks ∧ writing (stored s) k)
         then mkStatus 0 ∘ block_id <$> stored s !! k else stored s !! k) ∧ events s' = events s)
      as (s' & Hrun & Hs' & Hst' & Hev) by by apply IH.
    exists s'. split_and!; [|done| |done].
    + destruct (stored s !! x) as [b|] eqn:Hb; [|done]. destruct (is_ready b) eqn:Hr; [done|].
      destruct Hw. by exists b.
    + intros k. rewrite Hst'. apply decide_ext. rewrite elem_of_cons. naive_solver.
Qed.

Lemma drop_failed_loop ks s :
  off_inv s →
  ∃ s', for_each ks drop_failed s = (Ret tt, s') ∧ off_inv s' ∧
    ∀ k, stored s' !! k = if decide (k ∈ ks ∧ writing (stored s) k) then None else stored s !! k.
Proof.
  revert s. induction ks as [|x ks IH]; intros s Hs; simpl.
  { exists s. split_and!; done. }
  assert (∃ s1, drop_failed x s = (Ret tt, s1) ∧ off_inv s1 ∧
    stored s1 = if decide (writing (stored s) x) then delete x (stored s) else stored s)
    as (s1 & Hrun1 & Hs1 & Hst1).
  { destruct (decide (writing (stored s) x)) as [(b & Hb & Hr)|Hw]; [by apply (drop_failed_run x b)|].
    exists s. split_and!; [|done|done]. unfold drop_failed, bind at 1, get. rewrite law_get by apply Hs.
    change (policy_map (policy s)) with (stored s). destruct (stored s !! x) as [b|] eqn:Hb; [|done].
    destruct (is_ready b) eqn:Hr; [done|]. destruct Hw. by exists b. }
  destruct (IH s1 Hs1) as (s' & Hrun & Hs' & Hst').
  exists s'. split_and!; [by erewrite run_bind by exact Hrun1|done|].
  intros k. rewrite Hst', Hst1. destruct (decide (writing (stored s) x)) as [Hw|Hw].
  - destruct (decide (k = x)) as [->|Hk].
    + rewrite lookup_delete_eq. rewrite (decide_True (P := x ∈ x :: ks ∧ _)).
      * by case_decide.
      * split; [apply elem_of_cons; by left|done].
    + rewrite lookup_delete_ne by done. apply decide_ext. unfold writing.
      rewrite lookup_delete_ne, elem_of_cons by done. tauto.
  - apply decide_ext. rewrite elem_of_cons. naive_solver.
Qed.

(** [complete_store] with success makes exactly the given blocks that were
    being written readable, with no reader, and reports them in one event; with
    failure it removes exactly those and returns their CPU blocks; every other
    block is unchanged. *)
Theorem complete_store_correct ev th mx ops ks success :
  0 ≤ N < 2 ^ 53 → Forall op_ok ops → NoDup ks →
  let s := foldl run_op (init N ev th mx) ops in
  ∃ s', complete_store ks success s = (Ret tt, s') ∧
    (∀ k, stored s' !! k =
       if decide (k ∈ ks ∧ writing (stored s) k)
       then (if success then mkStatus 0 ∘ block_id <$> stored s !! k else None)
       else stored s !! k) ∧
    (success = false → (length (free_list s') + size (stored s'))%nat =
                       (length (free_list s) + size (stored s))%nat) ∧
    (success = true → events s' =
       let done := filter (writing (stored s)) ks in
       if decide (done = []) then events s else (λ l, l ++ [mkEvent done false]) <$> events s).
Proof.
  intros Hn Hops Hnd s. assert (off_inv s) as Hs by (apply run_ops_inv; [done|by apply inv_init]).
  unfold complete_store. destruct success.
  - destruct (mark_stored_run ks s Hs Hnd) as (s1 & Hrun & Hs1 & Hst1 & Hev1).
    erewrite run_bind by exact Hrun. set (dn := filter (writing (stored s)) ks).
    destruct (emit_run dn false s1) as (s2 & -> & (_ & _ & _ & Hp) & _ & Hev2).
    exists s2. split_and!; [done| |done|].
    + intros k. unfold stored at 1. rewrite Hp. apply Hst1.
    + intros _. cbv zeta. by rewrite Hev2, Hev1.
  - destruct (drop_failed_loop ks s Hs) as (s1 & Hrun & Hs1 & Hst1).
    exists s1. split_and!; [done|done| |done]. intros _.
    assert (∀ s, off_inv s → (length (free_list s) + size (stored s))%nat = Z.to_nat (num_allocated_blocks s))
      as Hcount.
    { intros s0 [_ _ _ Hi]. apply Permutation_length in Hi. rewrite length_app, length_seqZ in Hi.
      rewrite <-Hi. f_equal. unfold ids. by rewrite length_fmap, length_map_to_list. }
    rewrite !Hcount by done. f_equal.
    assert (num_allocated_blocks (for_each ks drop_failed s).2 = num_allocated_blocks s) as Hna.
    { apply (keeps_for_each (λ s', num_allocated_blocks s' = num_allocated_blocks s)); [|done].
      intros k. unfold drop_failed. apply keeps_get. intros s' Hs'.
      destruct (policy_get k (policy s')) as [b|]; [|done]. destruct (is_ready b); [done|].
      unfold bind, on_policy, zoom. by destruct (policy_remove k (policy s')) as [[]]. }
    by rewrite Hrun in Hna.
Qed.
End manager.
