(* ===== verification/CpuOffloadExamples.v ===== *)
(** * The CPU offloading manager on concrete histories *)

From S2P Require Import Prelude OrderedDict BlockHash PyNum CachePolicy CachePolicyProps CpuOffload CpuOffloadProps.

Open Scope Z_scope.
Import CPUOffloadingManager.

(** Two blocks stored and readable. *)
Definition demo_history : list op :=
  [OpPrepareStore [[1]; [2]]; OpCompleteStore [[1]; [2]] true; OpTouch [[1]]].

Lemma demo_history_ok : Forall op_ok demo_history.
Proof.
  constructor; [|by repeat constructor]. apply (bool_decide_unpack (NoDup _)). by vm_compute.
Qed.

Definition demo_lru : CPUOffloadingManager.t LRUCachePolicy.t :=
  foldl run_op (init 2 true 1 0) demo_history.
Definition demo_arc : CPUOffloadingManager.t ARCCachePolicy.t :=
  foldl run_op (init 2 true 1 0) demo_history.

Lemma prepare_store_correct_witness :
  ∃ r s', prepare_store [[3]; [1]] demo_arc = (Ret (Some r), s') ∧
    store_prepared demo_arc [[3]; [1]] (Some r) s' ∧ own_blocks r s' ∧ r = mkOutput [[3]] [1] [[2]].
Proof.
  destruct (prepare_store_correct (P := ARCCachePolicy.t) 2 true 1 0 demo_history [[3]; [1]])
    as (r & s' & Hrun & Hspec & Hown).
  - lia.
  - apply demo_history_ok.
  - apply (bool_decide_unpack (NoDup _)). by vm_compute.
  - change (foldl run_op (init 2 true 1 0) demo_history) with demo_arc in *.
    assert ((prepare_store [[3]; [1]] demo_arc).1 = Ret (Some (mkOutput [[3]] [1] [[2]]))) as Hr by by vm_compute.
    rewrite Hrun in Hr. injection Hr as ->. eexists _, s'. split; [exact Hrun|]. split; [exact Hspec|]. split; [by apply Hown|done].
Defined.

Lemma no_block_shared_witness :
  num_blocks demo_lru = 2 ∧ 0 ≤ num_allocated_blocks demo_lru ≤ 2 ∧
  (length (free_list demo_lru) + size (stored demo_lru))%nat = Z.to_nat (num_allocated_blocks demo_lru).
Proof.
  destruct (no_block_shared (P := LRUCachePolicy.t) 2 true 1 0 demo_history) as (H1 & H2 & _ & _ & _ & H3).
  - lia.
  - apply demo_history_ok.
  - split; [exact H1|]. split; [exact H2|exact H3].
Defined.

Lemma load_roundtrip_witness :
  ∃ s1 s2, prepare_load [[2]; [1]; [2]] demo_lru = (Ret [1; 0; 1], s1) ∧
    complete_load [[2]; [1]; [2]] s1 = (Ret tt, s2) ∧ stored s2 = stored demo_lru.
Proof.
  destruct (load_roundtrip (P := LRUCachePolicy.t) 2 true 1 0 demo_history [[2]; [1]; [2]])
    as (out & s1 & s2 & H1 & H2 & Hout & Hst & _).
  - lia.
  - apply demo_history_ok.
  - intros k Hk. rewrite !elem_of_cons in Hk.
    destruct Hk as [->|[->|[->|Hk]]]; [..|by apply not_elem_of_nil in Hk].
    all: eexists; split; [by vm_compute|]; split; by vm_compute.
  - change (foldl run_op (init 2 true 1 0) demo_history) with demo_lru in *.
    assert ((prepare_load [[2]; [1]; [2]] demo_lru).1 = Ret [1; 0; 1]) as Hr by by vm_compute.
    rewrite H1 in Hr. injection Hr as ->. exists s1, s2. split; [exact H1|]. split; [exact H2|exact Hst].
Defined.

(** Key 3 being written. *)
Definition demo_writing : CPUOffloadingManager.t LRUCachePolicy.t :=
  foldl run_op (init 2 true 1 0) (demo_history ++ [OpPrepareStore [[3]]]).

Lemma complete_store_correct_witness :
  ∃ s', complete_store [[3]] true demo_writing = (Ret tt, s') ∧
    stored s' !! [3] = Some (mkStatus 0 1).
Proof.
  destruct (complete_store_correct (P := LRUCachePolicy.t) 2 true 1 0
    (demo_history ++ [OpPrepareStore [[3]]]) [[3]] true) as (s' & Hrun & Hst & _).
  - lia.
  - apply Forall_app. split; [apply demo_history_ok|]. repeat constructor. by apply not_elem_of_nil.
  - apply NoDup_singleton.
  - exists s'. split; [exact Hrun|]. rewrite Hst. by vm_compute.
Defined.

(** [evict] of ARC can fail although an idle, unprotected block is cached:
    below the adaptive target T1 is not searched, and T2 has none. After two ghost
    hits on a key evicted from T1 the target is two, the cache holds one idle block
    in T1, and evicting one block returns None. *)
Theorem arc_evict_incomplete :
  let p0 := ARCCachePolicy.insert [2] (mkStatus 0 1) (ARCCachePolicy.insert [1] (mkStatus 0 0) (ARCCachePolicy.init 2)) in
  let p1 := (ARCCachePolicy.evict 1 [] p0).2 in
  let p2 := ARCCachePolicy.touch [[1]; [1]] p1 in
  ARCCachePolicy.t1 p2 = [([2], mkStatus 0 1)] ∧ evictable [] ([2], mkStatus 0 1) ∧
  num_int (ARCCachePolicy.target_t1_size p2) = Ret 2 ∧
  ARCCachePolicy.evict 1 [] p2 = (Ret None, p2).
Proof.
  cbv zeta. split; [by vm_compute|]. split; [split; [done|apply not_elem_of_nil]|].
  split; by vm_compute.
Qed.

(** With a store threshold of two, [prepare_store] can evict a cached block
    that its input asked for: the protected set is built from the input after the
    keys the tracker no longer counts were dropped. Key 1 is stored, falls out of
    the two-entry tracker, and storing keys 1 and 3 evicts it. *)
Theorem stored_input_evicted :
  let store k := [OpLookup k; OpLookup k; OpPrepareStore [k]; OpCompleteStore [k] true] in
  let s := foldl run_op (init (P := LRUCachePolicy.t) 2 false 2 2)
             (store [1] ++ store [2] ++ [OpLookup [3]; OpLookup [3]]) in
  policy_get [1] (policy s) = Some (mkStatus 0 0) ∧
  ∃ s', prepare_store [[1]; [3]] s = (Ret (Some (mkOutput [[3]] [0] [[1]])), s') ∧
    policy_get [1] (policy s') = None.
Proof. cbv zeta. split; [by vm_compute|]. eexists. split; by vm_compute. Qed.
