(* ===== verification/EncoderCache.v ===== *)
(** * The encoder cache managers

    [EncoderCacheManager], [compute_mm_encoder_budget] and
    [EncoderDecoderCacheManager] of src/vllm/v1/core/encoder_cache_manager.py, and
    the scheduler's [_free_encoder_inputs] (core/sched/scheduler.py). A request is
    seen through its id, its computed tokens and its multimodal features: the hash
    that identifies the data, the number of its encoder embeddings and its place in
    the prompt. Sets of input ids are iterated in increasing order. *)

From S2P Require Import Prelude OrderedDict.

Open Scope Z_scope.

Record mm_feature := mkFeature { identifier : string; num_embeds : Z; position_offset : Z; position_length : Z }.
Record request := mkRequest { request_id : string; mm_features : list mm_feature; num_computed_tokens : Z }.

Definition feature {S} (r : request) (input_id : Z) : M S mm_feature :=
  of_option IndexError (list_get (mm_features r) input_id).

Definition get_num_encoder_embeds {S} (r : request) (input_id : Z) : M S Z :=
  assert_ (bool_decide (input_id < Z.of_nat (length (mm_features r)))) ;;
  f <- feature r input_id ;; ret (num_embeds f).

Definition input_ids (r : request) : list Z := py_range (Z.of_nat (length (mm_features r))).

Module EncoderCacheManager.
Record t := mk {
  cache_size : Z;
  num_free_slots : Z;
  num_freeable_slots : Z;
  cached : gmap string (gset string);
  freeable : list (string * Z);
  freed : list string
}.

Definition init (cache_size : Z) : t := mk cache_size cache_size cache_size ∅ [] [].
Definition reset : M t unit :=
  modify (λ s, mk (cache_size s) (cache_size s) (cache_size s) ∅ [] []).

Definition set_cached c (s : t) : t :=
  mk (cache_size s) (num_free_slots s) (num_freeable_slots s) c (freeable s) (freed s).

Definition check_and_update_cache (r : request) (input_id : Z) : M t bool :=
  f <- feature r input_id ;;
  s <- get ;;
  match cached s !! identifier f with
  | None => ret false
  | Some refs =>
      (if decide (refs = ∅) then
         n <- of_option KeyError (od_get (identifier f) (freeable s)) ;;
         put (mk (cache_size s) (num_free_slots s) (num_freeable_slots s - n) (cached s)
                (od_del (identifier f) (freeable s)) (freed s))
       else ret tt) ;;
      modify (λ s, set_cached (<[identifier f := {[ request_id r ]} ∪ refs]> (cached s)) s) ;;
      ret true
  end.

(** The [while] loop of [can_allocate], over the entries of [freeable]: [popitem]
    of an empty dictionary and [del] of an absent key raise [KeyError]. *)
Fixpoint evict_until (need : Z) (entries : list (string * Z)) : M t unit :=
  s <- get ;;
  if bool_decide (num_free_slots s < need) then
    match entries with
    | [] => raise KeyError
    | (mm_hash, n) :: entries' =>
        put (mk (cache_size s) (num_free_slots s) (num_freeable_slots s) (cached s) entries' (freed s)) ;;
        _ <- of_option KeyError (cached s !! mm_hash) ;;
        put (mk (cache_size s) (num_free_slots s + n) (num_freeable_slots s)
               (delete mm_hash (cached s)) entries' (freed s ++ [mm_hash])) ;;
        evict_until need entries'
    end
  else ret tt.

Definition can_allocate (r : request) (input_id encoder_compute_budget num_embeds_to_schedule : Z)
    : M t bool :=
  n <- get_num_encoder_embeds r input_id ;;
  if bool_decide (encoder_compute_budget < n) then ret false
  else
    s <- get ;;
    let n := n + num_embeds_to_schedule in
    if bool_decide (n ≤ num_free_slots s) then ret true
    else if bool_decide (num_freeable_slots s < n) then ret false
    else evict_until n (freeable s) ;; ret true.

Definition allocate (r : request) (input_id : Z) : M t unit :=
  f <- feature r input_id ;;
  modify (λ s, match cached s !! identifier f with
               | None => set_cached (<[identifier f := ∅]> (cached s)) s
               | Some _ => s
               end) ;;
  n <- get_num_encoder_embeds r input_id ;;
  s <- get ;;
  assert_ (bool_decide (n ≤ num_free_slots s)) ;;
  assert_ (bool_decide (n ≤ num_freeable_slots s)) ;;
  put (mk (cache_size s) (num_free_slots s - n) (num_freeable_slots s - n)
         (<[identifier f := {[ request_id r ]} ∪ default ∅ (cached s !! identifier f)]> (cached s))
         (freeable s) (freed s)).

Definition input_cached (r : request) (s : t) (i : Z) : bool :=
  match list_get (mm_features r) i with
  | Some f => bool_decide (is_Some (cached s !! identifier f))
  | None => false
  end.
Definition get_cached_input_ids (r : request) (s : t) : list Z :=
  filter (λ i, input_cached r s i = true) (input_ids r).

Definition free_encoder_input (r : request) (input_id : Z) : M t unit :=
  f <- feature r input_id ;;
  s <- get ;;
  match cached s !! identifier f with
  | None => ret tt
  | Some refs =>
      if decide (refs = ∅) then ret tt
      else
        let refs := refs ∖ {[ request_id r ]} in
        put (set_cached (<[identifier f := refs]> (cached s)) s) ;;
        if decide (refs = ∅) then
          n <- get_num_encoder_embeds r input_id ;;
          modify (λ s, mk (cache_size s) (num_free_slots s) (num_freeable_slots s + n) (cached s)
                         (od_set (identifier f) n (freeable s)) (freed s))
        else ret tt
  end.

Definition free (r : request) : M t unit :=
  s <- get ;; for_each (get_cached_input_ids r s) (free_encoder_input r).

Definition get_freed_mm_hashes : M t (list string) :=
  s <- get ;;
  put (mk (cache_size s) (num_free_slots s) (num_freeable_slots s) (cached s) (freeable s) []) ;;
  ret (freed s).
End EncoderCacheManager.

(** ** The budget *)
Record budget_config := mkBudget {
  disable_chunked_mm_input : bool;
  max_num_batched_tokens : Z;
  max_num_encoder_input_tokens : Z;
  encoder_cache_size : Z
}.

(** The second argument is the values of [mm_max_toks_per_item]. *)
Definition compute_mm_encoder_budget (c : budget_config) (mm_max_toks_per_item : list Z) : outcome (Z * Z) :=
  match mm_max_toks_per_item with
  | [] => Ret (0, 0)
  | x :: xs =>
      let max_tokens_per_mm_item := foldl Z.max x xs in
      if disable_chunked_mm_input c && bool_decide (max_num_batched_tokens c < max_tokens_per_mm_item)
      then Raise ValueError
      else Ret (Z.max (max_num_encoder_input_tokens c) max_tokens_per_mm_item,
                Z.max (encoder_cache_size c) max_tokens_per_mm_item)
  end.

(** ** Encoder-decoder models *)
Module EncoderDecoderCacheManager.
Record t := mk { cache_size : Z; num_free_slots : Z; allocated : list string; to_free : list string }.

Definition init (cache_size : Z) : t := mk cache_size cache_size [] [].
Definition reset : M t unit := modify (λ s, mk (cache_size s) (cache_size s) [] []).
Definition check_and_update_cache (r : request) (input_id : Z) : M t bool := ret false.

Definition can_allocate (r : request) (input_id encoder_compute_budget num_embeds_to_schedule : Z)
    : M t bool :=
  n <- get_num_encoder_embeds r input_id ;;
  if bool_decide (encoder_compute_budget < n) then ret false
  else s <- get ;; ret (bool_decide (n + num_embeds_to_schedule ≤ num_free_slots s)).

Definition add_slots (n : Z) : M t unit :=
  modify (λ s, mk (cache_size s) (num_free_slots s + n) (allocated s) (to_free s)).

Definition allocate (r : request) (input_id : Z) : M t unit :=
  n <- get_num_encoder_embeds r input_id ;;
  add_slots (- n) ;;
  f <- feature r input_id ;;
  modify (λ s, mk (cache_size s) (num_free_slots s) (allocated s ++ [identifier f]) (to_free s)).

Definition free_encoder_input (r : request) (input_id : Z) : M t unit :=
  n <- get_num_encoder_embeds r input_id ;; add_slots n.

Definition free (r : request) : M t unit := for_each (input_ids r) (free_encoder_input r).
Definition get_cached_input_ids (r : request) (s : t) : list Z := input_ids r.

Definition get_freed_mm_hashes : M t (list string) :=
  s <- get ;;
  put (mk (cache_size s) (num_free_slots s) [] (allocated s)) ;;
  ret (to_free s).
End EncoderDecoderCacheManager.

(** ** The scheduler's side: after a step, drop the inputs that are consumed *)
Section scheduler.
Context {S : Type} (get_cached_input_ids : request → S → list Z)
  (free_encoder_input : request → Z → M S unit) (is_encoder_decoder : bool).

Definition _free_encoder_inputs (r : request) : M S unit :=
  s <- get ;;
  for_each (get_cached_input_ids r s) (λ input_id,
    f <- feature r input_id ;;
    if is_encoder_decoder && bool_decide (0 < num_computed_tokens r) then free_encoder_input r input_id
    else if bool_decide (position_offset f + position_length f ≤ num_computed_tokens r)
    then free_encoder_input r input_id
    else ret tt).
End scheduler.
