(* ===== verification/EncoderCacheProps.v ===== *)
(** * The encoder cache: capacity accounting

    With a fixed size per hash, the free slots and the sizes of the cached
    entries add up to the cache size, and the freeable slots are the free ones
    plus those of the entries nobody references. *)

From S2P Require Import Prelude OrderedDict EncoderCache.

Open Scope Z_scope.
Import EncoderCacheManager.

Section cache.
Context (size : string → Z) (size_nonneg : ∀ h, 0 ≤ size h).
Implicit Types (s : t) (r : request) (h : string).

Definition used (m : gmap string (gset string)) : Z := total ((λ e, size e.1) <$> map_to_list m).

Lemma used_insert_new m h v : m !! h = None → used (<[h := v]> m) = size h + used m.
Proof. intros Hh. unfold used. by rewrite map_to_list_insert. Qed.

Lemma used_delete m h v : m !! h = Some v → used m = size h + used (delete h m).
Proof. intros Hh. unfold used. by rewrite <-(map_to_list_delete m h v Hh). Qed.

Lemma used_insert_old m h v w : m !! h = Some w → used (<[h := v]> m) = used m.
Proof.
  intros Hh. rewrite (used_delete m h w Hh), (used_delete _ h v) by apply lookup_insert_eq.
  by rewrite delete_insert_eq.
Qed.

Lemma used_nonneg m : 0 ≤ used m.
Proof. apply total_nonneg. intros x (e & -> & _)%list_elem_of_fmap. apply size_nonneg. Qed.

Record enc_inv s : Prop := {
  ei_free : 0 ≤ num_free_slots s;
  ei_used : num_free_slots s + used (cached s) = cache_size s;
  ei_freeable : num_freeable_slots s = num_free_slots s + total (freeable s).*2;
  ei_wf : od_wf (freeable s);
  ei_entries : ∀ h n, od_get h (freeable s) = Some n ↔ cached s !! h = Some ∅ ∧ n = size h
}.

(** The request's features have the sizes of their hashes. *)
Definition sized r : Prop := ∀ f, f ∈ mm_features r → num_embeds f = size (identifier f).

(** An input of the request. *)
Definition input r (i : Z) f : Prop := 0 ≤ i ∧ mm_features r !! Z.to_nat i = Some f.

Lemma input_get r i f : input r i f → list_get (mm_features r) i = Some f.
Proof.
  intros [Hi Hf]. rewrite list_get_lookup; [done|]. apply lookup_lt_Some in Hf. lia.
Qed.

Lemma feature_run {S} r i f (st : S) : input r i f → feature r i st = (Ret f, st).
Proof. intros Hf. unfold feature, of_option. by rewrite (input_get r i f Hf). Qed.

Lemma num_embeds_run {S} r i f (st : S) :
  sized r → input r i f → get_num_encoder_embeds r i st = (Ret (size (identifier f)), st).
Proof.
  intros Hr Hf. unfold get_num_encoder_embeds, bind at 1, assert_.
  destruct Hf as [Hi Hl]. pose proof (lookup_lt_Some _ _ _ Hl).
  rewrite bool_decide_true by lia. unfold ret at 1. erewrite run_bind by by apply (feature_run r i f).
  unfold ret. rewrite (Hr f); [done|]. by eapply list_elem_of_lookup_2.
Qed.

Lemma enc_init_inv n : 0 ≤ n → enc_inv (init n).
Proof.
  intros Hn. split; simpl; try done; try apply od_wf_nil.
  - unfold used. rewrite map_to_list_empty. simpl. lia.
  - unfold total. simpl. lia.
  - intros h m. rewrite lookup_empty. split; [done|by intros [? _]].
Qed.

Lemma freeable_total_nonneg s : enc_inv s → 0 ≤ total (freeable s).*2.
Proof.
  intros Hs. apply total_nonneg.
  intros x ([h m] & -> & Hin)%list_elem_of_fmap. apply od_elem_get in Hin; [|apply Hs].
  apply (ei_entries _ Hs) in Hin as [_ ->]. apply size_nonneg.
Qed.

Lemma freeable_keys s h : enc_inv s → h ∈ (freeable s).*1 ↔ cached s !! h = Some ∅.
Proof.
  intros Hs. split.
  - intros ([h' m] & -> & Hin)%list_elem_of_fmap. apply od_elem_get in Hin; [|apply Hs].
    by apply (ei_entries _ Hs) in Hin as [? _].
  - intros Hc. apply (od_get_Some_key _ (size h)), (ei_entries _ Hs). done.
Qed.

(** The sizes of entries listed once are part of what is used. *)
Lemma used_sub (d : list (string * Z)) m :
  od_wf d → (∀ h n, od_get h d = Some n → is_Some (m !! h) ∧ n = size h) → total d.*2 ≤ used m.
Proof.
  revert m. induction d as [|[h n] d IH]; intros m Hd Hm; [apply used_nonneg|].
  unfold od_wf in Hd. csimpl in Hd. apply NoDup_cons in Hd as [Hh Hd].
  destruct (Hm h n) as [[v Hv] ->]; [simpl; by rewrite decide_True|].
  rewrite (used_delete m h v Hv). change (total ((h, size h) :: d).*2) with (size h + total d.*2).
  assert (total d.*2 ≤ used (delete h m)); [|lia]. apply IH; [done|]. intros h' n' Hg.
  assert (h' ≠ h) as Hne by (intros ->; destruct Hh; by eapply od_get_Some_key).
  rewrite lookup_delete_ne by done. apply Hm. simpl. by rewrite decide_False.
Qed.

Lemma freeable_le s : enc_inv s → num_freeable_slots s ≤ cache_size s.
Proof.
  intros Hs. rewrite (ei_freeable _ Hs), <-(ei_used _ Hs).
  assert (total (freeable s).*2 ≤ used (cached s)); [|lia]. apply used_sub; [apply Hs|].
  intros h n [Hc ->]%(ei_entries _ Hs). by rewrite Hc.
Qed.

(** ** Eviction *)
Lemma evict_until_spec need s :
  enc_inv s → need ≤ num_freeable_slots s →
  ∃ s' old, evict_until need (freeable s) s = (Ret tt, s') ∧ enc_inv s' ∧
    need ≤ num_free_slots s' ∧ cache_size s' = cache_size s ∧ num_freeable_slots s' = num_freeable_slots s ∧
    freeable s = old ++ freeable s' ∧ freed s' = freed s ++ old.*1 ∧
    (∀ h, cached s' !! h = if decide (h ∈ old.*1) then None else cached s !! h) ∧
    (old = [] ∨ ∃ old' h n, old = old' ++ [(h, n)] ∧ num_free_slots s' - n < need).
Proof.
  remember (freeable s) as fr eqn:Hfr. revert s Hfr.
  induction fr as [|[h n] fr IH]; intros s Hfr Hs Hneed; simpl; unfold bind at 1, get.
  - pose proof (ei_freeable _ Hs) as Hf. rewrite <-Hfr in Hf. unfold total in Hf. simpl in Hf.
    rewrite bool_decide_false by lia. exists s, []. csimpl. rewrite <-Hfr, app_nil_r. split_and!; try done; try lia; try (by left).
  - case_bool_decide as Hlt.
    2:{ exists s, []. csimpl. rewrite <-Hfr, app_nil_r. split_and!; try done; try lia; try (by left). }
    destruct Hs as [H0 H1 H2 H3 H4]. rewrite <-Hfr in H2, H3, H4.
    destruct (proj1 (H4 h n)) as [Hc ->]; [simpl; by rewrite decide_True|].
    unfold bind at 1, put at 1. unfold bind at 1, of_option. rewrite Hc. unfold ret at 1.
    unfold bind at 1, put at 1.
    set (s1 := mk (cache_size s) (num_free_slots s + size h) (num_freeable_slots s)
      (delete h (cached s)) fr (freed s ++ [h])).
    unfold od_wf in H3. csimpl in H3. apply NoDup_cons in H3 as [Hh H3].
    change (total ((h, size h) :: fr).*2) with (size h + total fr.*2) in H2.
    destruct (IH s1) as (s' & old & Hrun & Hs' & Hn' & Hcs & Hfs & Hfr' & Hfd & Hlk & Hmin).
    + done.
    + split; simpl; [pose proof (size_nonneg h); lia| |lia|done|].
      * rewrite (used_delete (cached s) h ∅ Hc) in H1. lia.
      * intros h' n'. rewrite lookup_delete. specialize (H4 h' n'). simpl in H4.
        destruct (decide (h' = h)) as [->|Hne].
        -- rewrite decide_True by done. split; [|by intros [? _]]. intros Hg.
           destruct Hh. by eapply od_get_Some_key.
        -- rewrite decide_False by congruence. exact H4.
    + simpl. lia.
    + exists s', ((h, size h) :: old). csimpl. split_and!; try done.
      * by rewrite Hfr' at 1.
      * rewrite Hfd. simpl. by rewrite <-app_assoc.
      * intros h'. rewrite Hlk. simpl. rewrite lookup_delete.
        destruct (decide (h' ∈ old.*1)) as [Hin|Hin].
        { rewrite decide_True; [done|]. apply elem_of_cons. by right. }
        apply decide_ext. rewrite elem_of_cons. naive_solver.
      * right. destruct Hmin as [->|(old' & h' & n' & -> & Hlast)].
        -- exists [], h, (size h). split; [done|].
           assert (num_free_slots s' = num_free_slots s + size h) as ->; [|lia].
           pose proof (ei_freeable _ Hs') as Hf'. simpl in Hfr'. rewrite <-Hfr' in Hf'. simpl in Hfs. lia.
        -- exists ((h, size h) :: old'), h', n'. done.
Qed.

Lemma can_allocate_spec s r i f budget scheduled :
  enc_inv s → sized r → input r i f → 0 ≤ scheduled →
  let n := size (identifier f) in
  ∃ b s' old, can_allocate r i budget scheduled s = (Ret b, s') ∧ enc_inv s' ∧ cache_size s' = cache_size s ∧
    (b = true ↔ n ≤ budget ∧ n + scheduled ≤ num_freeable_slots s) ∧
    (b = false → s' = s) ∧ (b = true → n + scheduled ≤ num_free_slots s') ∧
    num_free_slots s ≤ num_free_slots s' ∧ (∀ h, cached s !! h = None → cached s' !! h = None) ∧
    freeable s = old ++ freeable s' ∧ freed s' = freed s ++ old.*1 ∧
    (∀ h refs, refs ≠ ∅ → cached s !! h = Some refs → cached s' !! h = Some refs) ∧
    (old = [] ∨ ∃ old' h m, old = old' ++ [(h, m)] ∧ num_free_slots s' - m < n + scheduled).
Proof.
  intros Hs Hr Hf Hsch n. unfold can_allocate. erewrite run_bind by by eapply num_embeds_run. fold n.
  assert (∀ b, (b = true ↔ n ≤ budget ∧ n + scheduled ≤ num_freeable_slots s) →
    (b = true → n + scheduled ≤ num_free_slots s) →
    ∃ b' s' old, ((Ret b : outcome bool), s) = (Ret b', s') ∧ enc_inv s' ∧ cache_size s' = cache_size s ∧
    (b' = true ↔ n ≤ budget ∧ n + scheduled ≤ num_freeable_slots s) ∧
    (b' = false → s' = s) ∧ (b' = true → n + scheduled ≤ num_free_slots s') ∧
    num_free_slots s ≤ num_free_slots s' ∧ (∀ h, cached s !! h = None → cached s' !! h = None) ∧
    freeable s = old ++ freeable s' ∧ freed s' = freed s ++ old.*1 ∧
    (∀ h refs, refs ≠ ∅ → cached s !! h = Some refs → cached s' !! h = Some refs) ∧
    (old = [] ∨ ∃ old' h m, old = old' ++ [(h, m)] ∧ num_free_slots s' - m < n + scheduled)) as Hno.
  { intros b Hb Hb'. exists b, s, []. csimpl. rewrite app_nil_r. split_and!; try done. by left. }
  assert (num_free_slots s ≤ num_freeable_slots s) as Hle.
  { rewrite (ei_freeable _ Hs). pose proof (freeable_total_nonneg s Hs). lia. }
  case_bool_decide; [apply Hno; [split; [done|lia]|done]|]. unfold bind at 1, get.
  case_bool_decide; [apply Hno; [split; [lia|done]|done]|].
  case_bool_decide; [apply Hno; [split; [done|lia]|done]|].
  destruct (evict_until_spec (n + scheduled) s Hs) as (s' & old & Hrun & Hs' & Hn' & Hcs & _ & Hfr & Hfd & Hlk & Hmin);
    [lia|].
  erewrite run_bind by exact Hrun. exists true, s', old. split; [done|].
  split_and!; try done; [split; [lia|done]|lia|intros h Hh; rewrite Hlk; by case_decide|].
  intros h refs Hne Hh. rewrite Hlk, decide_False; [done|].
  intros ([h' m] & -> & Hin)%list_elem_of_fmap. simpl in *.
  assert ((h', m) ∈ freeable s) as Hin' by (rewrite Hfr; apply elem_of_app; by left).
  apply od_elem_get in Hin'; [|apply Hs]. apply (ei_entries _ Hs) in Hin' as [He _]. congruence.
Qed.

(** ** The other operations *)
Lemma not_freeable s h : enc_inv s → cached s !! h ≠ Some ∅ → h ∉ (freeable s).*1.
Proof.
  intros Hs Hh. apply od_get_None. destruct (od_get h (freeable s)) as [n|] eqn:Hg; [|done].
  apply (ei_entries _ Hs) in Hg as [? _]. done.
Qed.

Lemma check_inv s r i f :
  enc_inv s → input r i f →
  ∃ b s', check_and_update_cache r i s = (Ret b, s') ∧ enc_inv s' ∧ cache_size s' = cache_size s ∧
    (b = true ↔ is_Some (cached s !! identifier f)) ∧ (b = false → s' = s) ∧
    (b = true → ∃ refs, cached s !! identifier f = Some refs ∧
       cached s' = <[identifier f := {[ request_id r ]} ∪ refs]> (cached s)) ∧ num_free_slots s' = num_free_slots s.
Proof.
  intros Hs Hf. unfold check_and_update_cache. erewrite run_bind by by apply feature_run.
  set (h := identifier f). unfold bind at 1, get.
  destruct (cached s !! h) as [refs|] eqn:Hc.
  2:{ exists false, s. split_and!; try done. }
  set (new := {[ request_id r ]} ∪ refs). assert (new ≠ ∅) as Hnew by set_solver.
  destruct Hs as [H0 H1 H2 H3 H4]. destruct (decide (refs = ∅)) as [->|Hne].
  - pose proof (proj2 (H4 h (size h)) (conj Hc eq_refl)) as Hg.
    unfold bind at 1 2 3, of_option. rewrite Hg. unfold ret at 1, put at 1, bind, modify, ret.
    eexists true, _. split; [done|]. split_and!; simpl; try done; [|by eauto].
    split; simpl; try done.
    + by rewrite (used_insert_old _ _ _ ∅).
    + rewrite (total_od_del _ _ (size h)) by done. lia.
    + by apply od_wf_del.
    + intros h' n. rewrite od_get_del by done. rewrite lookup_insert.
      destruct (decide (h' = h)) as [->|Hne].
      * rewrite decide_True by done. split; [done|]. intros [? _]. congruence.
      * rewrite decide_False by done. apply H4.
  - unfold bind, modify, ret. eexists true, _. split; [done|]. split_and!; simpl; try done; [|by eauto].
    split; simpl; try done.
    + by rewrite (used_insert_old _ _ _ refs).
    + intros h' n. rewrite H4, lookup_insert. destruct (decide (h = h')) as [<-|]; [|done].
      rewrite Hc. split; intros [? _]; congruence.
Qed.

Lemma allocate_inv s r i f :
  enc_inv s → sized r → input r i f → cached s !! identifier f = None →
  size (identifier f) ≤ num_free_slots s →
  ∃ s', allocate r i s = (Ret tt, s') ∧ enc_inv s' ∧ cache_size s' = cache_size s ∧
    cached s' = <[identifier f := {[ request_id r ]}]> (cached s) ∧ num_free_slots s' = num_free_slots s - size (identifier f).
Proof.
  intros Hs Hr Hf Hc Hn. unfold allocate. erewrite run_bind by by apply feature_run.
  pose proof (not_freeable s (identifier f) Hs ltac:(congruence)) as Hnf.
  set (h := identifier f) in *. unfold bind at 1, modify at 1. rewrite Hc.
  erewrite run_bind by by eapply num_embeds_run. fold h. unfold bind at 1, get.
  pose proof (freeable_total_nonneg s Hs). destruct Hs as [H0 H1 H2 H3 H4].
  unfold assert_. simpl. rewrite !bool_decide_true by lia. unfold bind, ret, put.
  rewrite lookup_insert_eq, insert_insert_eq. eexists. split; [done|]. simpl.
  split_and!; try done; [|f_equal; set_solver]. split; simpl; try done; [lia| |lia|].
  - rewrite used_insert_new by done. lia.
  - intros h' n. rewrite lookup_insert. destruct (decide (h = h')) as [<-|]; [|done].
    rewrite (proj2 (od_get_None _ _) Hnf). split; [done|]. intros [He _]. simplify_eq. set_solver.
Qed.

Lemma free_input_inv s r i f :
  enc_inv s → sized r → input r i f →
  ∃ s', free_encoder_input r i s = (Ret tt, s') ∧ enc_inv s' ∧ cache_size s' = cache_size s ∧
    num_free_slots s' = num_free_slots s ∧ freed s' = freed s ∧
    cached s' = alter (λ refs, refs ∖ {[ request_id r ]}) (identifier f) (cached s).
Proof.
  intros Hs Hr Hf. unfold free_encoder_input. erewrite run_bind by by apply feature_run.
  set (h := identifier f). unfold bind at 1, get.
  destruct (cached s !! h) as [refs|] eqn:Hc.
  2:{ exists s. split_and!; try done. symmetry. apply map_eq. intros h'.
      destruct (decide (h' = h)) as [->|]; [|by rewrite lookup_alter_ne].
      by rewrite lookup_alter_eq, Hc. }
  assert (alter (λ refs, refs ∖ {[ request_id r ]}) h (cached s) =
          <[h := refs ∖ {[ request_id r ]}]> (cached s)) as Halt.
  { apply map_eq. intros h'. destruct (decide (h' = h)) as [->|].
    - by rewrite lookup_alter_eq, Hc, lookup_insert_eq.
    - by rewrite lookup_alter_ne, lookup_insert_ne. }
  destruct (decide (refs = ∅)) as [->|Hne].
  { exists s. split_and!; try done. rewrite Halt. replace (∅ ∖ {[ request_id r ]}) with (∅ : gset string) by set_solver.
    symmetry. by apply insert_id. }
  pose proof (not_freeable s h Hs ltac:(congruence)) as Hnf. destruct Hs as [H0 H1 H2 H3 H4].
  unfold bind at 1, put at 1. rewrite Halt.
  set (new := refs ∖ {[ request_id r ]}). destruct (decide (new = ∅)) as [Hnew|Hnew].
  - erewrite run_bind by by eapply num_embeds_run. fold h. unfold modify.
    eexists. split; [done|]. split_and!; try done. split; simpl; try done.
    + by rewrite (used_insert_old _ _ _ refs).
    + rewrite total_od_set_new by done. lia.
    + by apply od_wf_set.
    + intros h' n. rewrite od_get_set, lookup_insert. destruct (decide (h' = h)) as [->|Hh].
      * rewrite (decide_True (P := h = h)) by done. rewrite Hnew. naive_solver.
      * rewrite (decide_False (P := h = h')) by done. apply H4.
  - unfold ret. eexists. split; [done|]. split_and!; try done. split; simpl; try done.
    + by rewrite (used_insert_old _ _ _ refs).
    + intros h' n. rewrite H4, lookup_insert. destruct (decide (h = h')) as [<-|]; [|done].
      rewrite Hc. split; intros [? _]; congruence.
Qed.

Definition drop_refs r (ids : list Z) (c : gmap string (gset string)) : gmap string (gset string) :=
  foldl (λ c i, match list_get (mm_features r) i with
                | Some f => alter (λ refs, refs ∖ {[ request_id r ]}) (identifier f) c
                | None => c end) c ids.

Lemma free_ids_inv r ids s :
  enc_inv s → sized r → (∀ i, i ∈ ids → ∃ f, input r i f) →
  ∃ s', for_each ids (free_encoder_input r) s = (Ret tt, s') ∧ enc_inv s' ∧ cache_size s' = cache_size s ∧
    num_free_slots s' = num_free_slots s ∧ freed s' = freed s ∧ cached s' = drop_refs r ids (cached s).
Proof.
  revert s. induction ids as [|i ids IH]; intros s Hs Hr Hids; [by exists s|].
  destruct (Hids i) as [f Hf]; [apply elem_of_cons; by left|].
  destruct (free_input_inv s r i f Hs Hr Hf) as (s1 & Hrun & Hs1 & E1 & E2 & E3 & E4).
  destruct (IH s1 Hs1 Hr) as (s2 & Hrun2 & Hs2 & F1 & F2 & F3 & F4).
  { intros j Hj. apply Hids, elem_of_cons. by right. }
  exists s2. cbn [for_each]. erewrite run_bind by exact Hrun. rewrite F1, F2, F3, F4, E4.
  split_and!; try done. unfold drop_refs. cbn [foldl]. by rewrite (input_get r i f Hf).
Qed.

Lemma cached_ids_input r s i : i ∈ get_cached_input_ids r s → ∃ f, input r i f.
Proof.
  unfold get_cached_input_ids, input_ids. intros [_ Hi]%list_elem_of_filter.
  unfold py_range in Hi. apply elem_of_seqZ in Hi.
  destruct (lookup_lt_is_Some_2 (mm_features r) (Z.to_nat i)) as [f Hf]; [lia|].
  exists f. split; [lia|done].
Qed.

Lemma enc_free_inv s r :
  enc_inv s → sized r →
  ∃ s', free r s = (Ret tt, s') ∧ enc_inv s' ∧ cache_size s' = cache_size s ∧
    num_free_slots s' = num_free_slots s ∧ freed s' = freed s ∧
    cached s' = drop_refs r (get_cached_input_ids r s) (cached s).
Proof.
  intros Hs Hr. unfold free, bind at 1, get. apply free_ids_inv; [done..|].
  intros i. apply cached_ids_input.
Qed.

(** ** Runs under the scheduler

    For a request it considers, the scheduler asks [check_and_update_cache] and then
    [can_allocate] about one input after the other, counting the embeddings of the inputs
    it has already picked; the picked inputs are allocated later, after calls that may
    release inputs of other requests, or never. *)
Definition pick : Type := request * Z * mm_feature.
Implicit Types (g : list pick).
Definition pick_hash (x : pick) : string := identifier x.2.
Definition picked g : Z := total ((λ x, size (pick_hash x)) <$> g).

(** Calls that need no permission: inputs exist and have the sizes of their hashes. *)
Inductive enc_op :=
  | OpCheck (r : request) (i : Z)
  | OpCanAllocate (r : request) (i budget scheduled : Z)
  | OpFreeInput (r : request) (i : Z)
  | OpFree (r : request)
  | OpReset
  | OpGetFreed.

Definition run_enc_op (o : enc_op) : M t unit :=
  match o with
  | OpCheck r i => _ <- check_and_update_cache r i ;; ret tt
  | OpCanAllocate r i b k => _ <- can_allocate r i b k ;; ret tt
  | OpFreeInput r i => free_encoder_input r i
  | OpFree r => free r
  | OpReset => reset
  | OpGetFreed => _ <- get_freed_mm_hashes ;; ret tt
  end.

Definition enc_op_ok (o : enc_op) : Prop :=
  match o with
  | OpCheck r i => ∃ f, input r i f
  | OpCanAllocate r i b k => sized r ∧ 0 ≤ k ∧ ∃ f, input r i f
  | OpFreeInput r i => sized r ∧ ∃ f, input r i f
  | OpFree r => sized r
  | OpReset | OpGetFreed => True
  end.

Inductive enc_run (n : Z) : t → list pick → Prop :=
  | er_init : enc_run n (init n) []
  | er_op s g o res s' :
      enc_run n s g → enc_op_ok o → run_enc_op o s = (res, s') → enc_run n s' g
  | er_pick s g r i f budget s1 s' :
      enc_run n s g → sized r → input r i f → identifier f ∉ pick_hash <$> g →
      check_and_update_cache r i s = (Ret false, s1) →
      can_allocate r i budget (picked g) s1 = (Ret true, s') → enc_run n s' (g ++ [(r, i, f)])
  | er_allocate s g1 r i f g2 res s' :
      enc_run n s (g1 ++ (r, i, f) :: g2) → allocate r i s = (res, s') → enc_run n s' (g1 ++ g2)
  | er_give_up s g : enc_run n s g → enc_run n s [].

(** What is picked is not cached and fits the free slots. *)
Record picks_ok s g : Prop := {
  po_hash : NoDup (pick_hash <$> g);
  po_input x : x ∈ g → sized x.1.1 ∧ input x.1.1 x.1.2 x.2 ∧ cached s !! pick_hash x = None;
  po_fit : picked g ≤ num_free_slots s
}.
Lemma picks_nil s : enc_inv s → picks_ok s [].
Proof. intros Hs. split; [constructor|by intros x ?%not_elem_of_nil|apply Hs]. Qed.
Lemma picks_mono s s' g :
  picks_ok s g → num_free_slots s ≤ num_free_slots s' → (∀ h, cached s !! h = None → cached s' !! h = None) → picks_ok s' g.
Proof. intros [H1 H2 H3] Hn Hc. split; [done| |lia]. intros x Hx. destruct (H2 x Hx) as (? & ? & ?). auto. Qed.
Lemma picked_nonneg g : 0 ≤ picked g.
Proof. apply total_nonneg. intros x (y & -> & _)%list_elem_of_fmap. apply size_nonneg. Qed.
Lemma pick_fits g s : picks_ok s g → ∀ x, x ∈ g → size (pick_hash x) ≤ num_free_slots s.
Proof.
  intros Hg x (g1 & g2 & ->)%list_elem_of_split. pose proof (po_fit _ _ Hg) as Hf. unfold picked in Hf. rewrite <-Permutation_middle in Hf.
  change (size (pick_hash x) + picked (g1 ++ g2) ≤ num_free_slots s) in Hf. pose proof (picked_nonneg (g1 ++ g2)). lia.
Qed.
Lemma picks_perm s g g' : g ≡ₚ g' → picks_ok s g → picks_ok s g'.
Proof.
  intros Hp [H1 H2 H3]. split; [by rewrite <-Hp|intros x; rewrite <-Hp; apply H2|].
  unfold picked in *. by rewrite <-Hp.
Qed.

Lemma drop_refs_absent r ids m h : m !! h = None → drop_refs r ids m !! h = None.
Proof.
  unfold drop_refs. revert m. induction ids as [|i ids IH]; intros m Hm; simpl; [done|]. apply IH.
  destruct (list_get (mm_features r) i) as [f|]; [|done]. destruct (decide (identifier f = h)) as [<-|Hne].
  - by rewrite lookup_alter_eq, Hm.
  - by rewrite lookup_alter_ne.
Qed.

Lemma run_enc_op_inv s g o :
  enc_inv s → picks_ok s g → enc_op_ok o →
  ∃ s', run_enc_op o s = (Ret tt, s') ∧ enc_inv s' ∧ cache_size s' = cache_size s ∧ picks_ok s' g.
Proof.
  intros Hs Hg. destruct o as [r i|r i b k|r i|r| |]; simpl.
  - intros [f Hf]. destruct (check_inv s r i f Hs Hf) as (x & s' & Hrun & Hs' & Hc & _ & H0 & H1 & Hn).
    exists s'. erewrite run_bind by exact Hrun. split_and!; [done..|]. destruct x; [|by rewrite H0].
    destruct (H1 eq_refl) as (refs & Hrefs & Hca). eapply picks_mono; [done|lia|]. intros h Hh. rewrite Hca, lookup_insert_ne; [done|congruence].
  - intros (Hr & Hk & f & Hf).
    destruct (can_allocate_spec s r i f b k Hs Hr Hf Hk) as (x & s' & old & Hrun & Hs' & Hc & _ & _ & _ & Hle & Habs & _).
    exists s'. erewrite run_bind by exact Hrun. split_and!; [done..|]. by eapply picks_mono.
  - intros (Hr & f & Hf). destruct (free_input_inv s r i f Hs Hr Hf) as (s' & ? & ? & ? & Hn & _ & Hca). exists s'. split_and!; [done..|].
    eapply picks_mono; [done|lia|]. intros h Hh. rewrite Hca. destruct (decide (identifier f = h)) as [<-|Hne]; [by rewrite lookup_alter_eq, Hh|by rewrite lookup_alter_ne].
  - intros Hr. destruct (enc_free_inv s r Hs Hr) as (s' & ? & ? & ? & Hn & _ & Hca). exists s'. split_and!; [done..|].
    eapply picks_mono; [done|lia|]. intros h Hh. rewrite Hca. by apply drop_refs_absent.
  - intros _. pose proof (used_nonneg (cached s)). pose proof (ei_free _ Hs). pose proof (ei_used _ Hs). eexists. split; [done|]. split_and!; [|done|].
    + apply (enc_init_inv (cache_size s)). lia.
    + eapply picks_mono; [done|simpl; lia|done].
  - intros _. eexists. split; [done|]. split_and!; [destruct Hs; by split|done|by eapply picks_mono].
Qed.

Lemma pick_inv s g r i f budget s1 s' :
  enc_inv s → picks_ok s g → sized r → input r i f → identifier f ∉ pick_hash <$> g →
  check_and_update_cache r i s = (Ret false, s1) → can_allocate r i budget (picked g) s1 = (Ret true, s') →
  enc_inv s' ∧ cache_size s' = cache_size s ∧ picks_ok s' (g ++ [(r, i, f)]).
Proof.
  intros Hs Hg Hr Hf Hnew Hck Hca. destruct (check_inv s r i f Hs Hf) as (b & s1' & Hrun & _ & _ & Hb & H0 & _). rewrite Hrun in Hck. simplify_eq.
  rewrite (H0 eq_refl) in Hca. assert (cached s !! identifier f = None) as Habs.
  { destruct (cached s !! identifier f) eqn:E; [|done]. destruct Hb as [_ Hb]. by discriminate Hb. }
  pose proof (picked_nonneg g) as Hpk.
  destruct (can_allocate_spec s r i f budget (picked g) Hs Hr Hf Hpk) as (b & s2 & old & Hrun2 & Hs2 & Hc2 & _ & _ & Hfit & Hle & Hab & _).
  rewrite Hrun2 in Hca. simplify_eq. split_and!; [done..|]. apply (picks_perm _ ((r, i, f) :: g)); [by rewrite Permutation_app_comm|].
  destruct (picks_mono _ _ _ Hg Hle Hab) as [H1 H2 H3]. split.
  - csimpl. by apply NoDup_cons.
  - intros x [->|Hx]%elem_of_cons; [|by apply H2]. split_and!; [done..|]. by apply Hab.
  - change (size (identifier f) + picked g ≤ num_free_slots s'). by apply Hfit.
Qed.

Lemma picked_allocate s g1 r i f g2 :
  enc_inv s → picks_ok s (g1 ++ (r, i, f) :: g2) →
  ∃ s', allocate r i s = (Ret tt, s') ∧ enc_inv s' ∧ cache_size s' = cache_size s ∧ picks_ok s' (g1 ++ g2).
Proof.
  intros Hs Hg%(picks_perm _ _ ((r, i, f) :: g1 ++ g2)); [|by rewrite Permutation_middle]. destruct Hg as [H1 H2 H3].
  csimpl in H1. apply NoDup_cons in H1 as [Hh H1]. change (picked ((r, i, f) :: g1 ++ g2)) with (size (identifier f) + picked (g1 ++ g2)) in H3.
  pose proof (picked_nonneg (g1 ++ g2)) as Hpk.
  destruct (H2 (r, i, f)) as (Hr & Hf & Hc); [by left|]. simpl in *.
  destruct (allocate_inv s r i f Hs Hr Hf Hc) as (s' & Hrun & Hs' & Hcs & Hca & Hn); [lia|]. exists s'. split_and!; [done..|]. split; [done| |lia].
  intros x Hx. destruct (H2 x) as (? & ? & ?); [by right|]. split_and!; [done..|]. rewrite Hca, lookup_insert_ne; [done|].
  intros He. apply Hh. change (pick_hash (r, i, f)) with (identifier f). rewrite He. by apply list_elem_of_fmap_2.
Qed.

Lemma enc_run_inv n s g : 0 ≤ n → enc_run n s g → enc_inv s ∧ cache_size s = n ∧ picks_ok s g.
Proof.
  intros Hn. induction 1 as [|s g o res s' _ (IH & Hc & Hg) Hok Hrun|s g r i f budget s1 s' _ (IH & Hc & Hg) Hr Hf Hnew Hck Hca
    |s g1 r i f g2 res s' _ (IH & Hc & Hg) Hrun|s g _ (IH & Hc & Hg)].
  - split_and!; [by apply enc_init_inv|done|]. by apply picks_nil, enc_init_inv.
  - destruct (run_enc_op_inv s g o IH Hg Hok) as (s1 & Hrun' & Hs1 & Hc1 & Hg1). rewrite Hrun' in Hrun. simplify_eq. done.
  - destruct (pick_inv s g r i f budget s1 s' IH Hg Hr Hf Hnew Hck Hca) as (? & ? & ?). split_and!; [done|congruence|done].
  - destruct (picked_allocate s g1 r i f g2 IH Hg) as (s1 & Hrun' & Hs1 & Hc1 & Hg1). rewrite Hrun' in Hrun. simplify_eq. done.
  - split_and!; [done..|]. by apply picks_nil.
Qed.

(** C35: [can_allocate] refuses exactly when the input exceeds the compute budget
    or the free and reclaimable slots together; otherwise it returns True with
    enough free slots, having evicted the oldest unreferenced entries, and no more
    of them than needed, each reported as freed. No referenced entry is touched. *)
Theorem can_allocate_correct n s g r i f budget scheduled :
  0 ≤ n → enc_run n s g → sized r → input r i f → 0 ≤ scheduled →
  let k := size (identifier f) in
  ∃ b s' old, can_allocate r i budget scheduled s = (Ret b, s') ∧
    (b = true ↔ k ≤ budget ∧ k + scheduled ≤ num_freeable_slots s) ∧
    (b = false → s' = s) ∧ (b = true → k + scheduled ≤ num_free_slots s') ∧
    freeable s = old ++ freeable s' ∧ freed s' = freed s ++ old.*1 ∧
    (∀ h refs, refs ≠ ∅ → cached s !! h = Some refs → cached s' !! h = Some refs) ∧
    (old = [] ∨ ∃ old' h m, old = old' ++ [(h, m)] ∧ num_free_slots s' - m < k + scheduled).
Proof.
  intros Hn Hs Hr Hf Hk. destruct (enc_run_inv n s g Hn Hs) as [Hinv _].
  destruct (can_allocate_spec s r i f budget scheduled Hinv Hr Hf Hk)
    as (b & s' & old & Hrun & _ & _ & H1 & H2 & H3 & _ & _ & Hrest). by exists b, s', old.
Qed.

End cache.
