(* ===== verification/EncoderCacheExamples.v ===== *)
(** * The encoder caches on concrete inputs, and the encoder-decoder manager

    Witnesses for the encoder cache theorems, and what the per-step release does to
    the slot count of [EncoderDecoderCacheManager]. *)

From S2P Require Import Prelude OrderedDict EncoderCache EncoderCacheProps.

Open Scope Z_scope.

(** ** Encoder-decoder: the release is repeated at every step *)
Section encoder_decoder.
Import EncoderDecoderCacheManager.
Implicit Types (s : t) (r : request).

Definition decode_step r : M t unit :=
  _free_encoder_inputs get_cached_input_ids free_encoder_input true r.

Definition decode_steps (k : nat) r : M t unit := for_each (seq 0 k) (λ _, decode_step r).

Lemma enc_release_run r i f s :
  input r i f → free_encoder_input r i s =
    (Ret tt, mk (cache_size s) (num_free_slots s + num_embeds f) (allocated s) (to_free s)).
Proof.
  intros [Hi Hf]. unfold free_encoder_input, get_num_encoder_embeds, bind, assert_.
  pose proof (lookup_lt_Some _ _ _ Hf). rewrite bool_decide_true by lia. unfold ret.
  by rewrite (feature_run r i f).
Qed.

Lemma decode_body r (body : Z → M t unit) ids s :
  (∀ i f s, input r i f → body i s =
     (Ret tt, mk (cache_size s) (num_free_slots s + num_embeds f) (allocated s) (to_free s))) →
  (∃ k, k ≤ length (mm_features r) ∧ ids = seqZ (Z.of_nat k) (Z.of_nat (length (mm_features r) - k)))%nat →
  for_each ids body s =
    (Ret tt, mk (cache_size s)
       (num_free_slots s + total (num_embeds <$> drop (length (mm_features r) - length ids) (mm_features r)))
       (allocated s) (to_free s)).
Proof.
  intros Hb (k & Hk & Hids). revert k Hk Hids s.
  induction ids as [|i ids IH]; intros k Hk Hids s.
  - rewrite drop_ge by (simpl; lia). destruct s. cbn [for_each]. unfold ret, total. simpl.
    by rewrite Z.add_0_r.
  - pose proof (f_equal length Hids) as Hl. rewrite length_seqZ in Hl. simpl in Hl.
    rewrite seqZ_cons in Hids by lia. injection Hids as -> Hids.
    destruct (lookup_lt_is_Some_2 (mm_features r) k) as [f Hf]; [lia|].
    cbn [for_each]. erewrite run_bind; [|apply (Hb _ f); split; [lia|by rewrite Nat2Z.id]].
    rewrite (IH (S k)); [|lia|rewrite Hids; f_equal; lia]. simpl. f_equal. f_equal.
    replace (length (mm_features r) - length ids)%nat with (S k) by lia.
    replace (length (mm_features r) - S (length ids))%nat with k by lia.
    rewrite (drop_S _ f k), fmap_cons by done.
    change (total (num_embeds f :: ?l)) with (num_embeds f + total l). lia.
Qed.

Lemma decode_step_run r s :
  0 < num_computed_tokens r →
  decode_step r s = (Ret tt, mk (cache_size s) (num_free_slots s + total (num_embeds <$> mm_features r))
                      (allocated s) (to_free s)).
Proof.
  intros Hc. unfold decode_step, _free_encoder_inputs, bind at 1, get, get_cached_input_ids, input_ids, py_range.
  rewrite (decode_body r).
  - rewrite length_seqZ, Nat2Z.id, Nat.sub_diag. done.
  - intros i f s' Hf. erewrite run_bind by by apply feature_run.
    rewrite bool_decide_true by done. by apply enc_release_run.
  - exists 0%nat. split; [lia|]. f_equal. lia.
Qed.

(** With the encoder-decoder manager every decode step of a request that has
    computed tokens returns all its encoder slots again: after [k] steps the free
    slots have grown by [k] times the request's embeddings, which were allocated
    once, so the count passes the capacity and [can_allocate] stops limiting. *)
Theorem encoder_decoder_slots_grow k r s :
  0 < num_computed_tokens r →
  ∃ s', decode_steps k r s = (Ret tt, s') ∧
    num_free_slots s' = num_free_slots s + Z.of_nat k * total (num_embeds <$> mm_features r).
Proof.
  intros Hc. unfold decode_steps. generalize 0%nat as j. revert s.
  induction k as [|k IH]; intros s j.
  - exists s. split; [done|lia].
  - cbn [seq for_each]. erewrite run_bind by by apply decode_step_run.
    edestruct IH as (s' & Hrun & Hn). exists s'. split; [exact Hrun|]. rewrite Hn. simpl. lia.
Qed.
End encoder_decoder.

(** A request with one audio input of 8 embeddings. *)
Definition whisper : request := mkRequest "r" [mkFeature "a" 8 0 8] 1.

Lemma encoder_decoder_slots_grow_witness :
  0 < num_computed_tokens whisper ∧
  (∃ s', decode_steps 3 whisper (EncoderDecoderCacheManager.mk 8 0 ["a"] []) = (Ret tt, s') ∧
    EncoderDecoderCacheManager.num_free_slots s' = 24) ∧
  24 > EncoderDecoderCacheManager.cache_size (EncoderDecoderCacheManager.mk 8 0 ["a"] []).
Proof.
  split; [done|]. split; [|done].
  apply (encoder_decoder_slots_grow 3 whisper (EncoderDecoderCacheManager.mk 8 0 ["a"] [])). done.
Defined.

(** ** A small encoder cache: 10 slots, two images of 6 and 3 embeddings *)
Definition ex_size (h : string) : Z := if decide (h = "big") then 6 else 3.
Definition ex_req (id : string) : request := mkRequest id [mkFeature "big" 6 0 6; mkFeature "small" 3 6 3] 0.
Import EncoderCacheManager.

Lemma ex_size_nonneg h : 0 ≤ ex_size h.
Proof. unfold ex_size. by case_decide. Qed.

Lemma ex_sized id : sized ex_size (ex_req id).
Proof. intros f [->|[->|[]%not_elem_of_nil]%elem_of_cons]%elem_of_cons; done. Qed.

Lemma ex_input id i f : mm_features (ex_req id) !! Z.to_nat i = Some f → 0 ≤ i → input (ex_req id) i f.
Proof. by split. Qed.

(** The big image has been allocated and its request finished. *)
Definition ex_state : t := mk 10 4 10 {[ "big" := ∅ ]} [("big", 6)] [].

Definition ex_big : mm_feature := mkFeature "big" 6 0 6.
Definition ex_small : mm_feature := mkFeature "small" 3 6 3.
Lemma ex_run : enc_run ex_size 10 ex_state [].
Proof.
  eapply (er_op _ _ _ _ (OpFreeInput (ex_req "r1") 0)).
  - eapply (er_allocate _ _ _ [] (ex_req "r1") 0 ex_big []).
    + eapply (er_pick _ _ _ [] (ex_req "r1") 0 ex_big 16); [apply er_init|apply ex_sized|by split|by apply not_elem_of_nil|reflexivity|reflexivity].
    + reflexivity.
  - split; [apply ex_sized|]. eexists. by split.
  - vm_compute. reflexivity.
Qed.
(** The scheduler has then picked the small image of a second request. *)
Lemma ex_picked : enc_run ex_size 10 ex_state [(ex_req "r2", 1, ex_small)].
Proof.
  eapply (er_pick _ _ _ [] (ex_req "r2") 1 ex_small 16); [apply ex_run|apply ex_sized|by split|by apply not_elem_of_nil|reflexivity|reflexivity].
Qed.

Lemma can_allocate_correct_witness :
  ∃ b s' old, can_allocate (ex_req "r2") 1 16 3 ex_state = (Ret b, s') ∧ b = true ∧ old = [("big", 6)] ∧
    freed s' = old.*1.
Proof.
  destruct (can_allocate_correct ex_size ex_size_nonneg 10 ex_state [] (ex_req "r2") 1 (mkFeature "small" 3 6 3) 16 3)
    as (b & s' & old & Hrun & _ & _ & _ & Hfr & Hfd & _);
    [done|apply ex_run|apply ex_sized|by split|done|].
  vm_compute in Hrun. injection Hrun as <- <-. exists true, (mk 10 10 10 ∅ [] ["big"]), [("big", 6)].
  by vm_compute.
Defined.

