(* ===== verification/CacheHit.v ===== *)
(** * Prefix-cache hits per attention type

    The [find_longest_cache_hit] class methods of
    src/vllm/v1/core/single_type_kv_cache_manager.py, which search the block pool's
    index for the longest usable prefix of a request, and the KV-cache specs that
    select them (src/vllm/v1/kv_cache_interface.py). The result has one list of
    blocks per KV-cache group. *)

From S2P Require Import Prelude OrderedDict FreeQueue BlockHash BlockPool.

Open Scope Z_scope.

(** The spec classes with the attributes the managers read. *)
Inductive KVCacheSpec :=
  | FullAttentionSpec (block_size : Z)
  | TQFullAttentionSpec (block_size : Z)
  | MLAAttentionSpec (block_size : Z)
  | HiddenStateCacheSpec (block_size : Z)
  | QuestKVCacheSpec (block_size : Z)
  | SlidingWindowSpec (block_size sliding_window : Z)
  | SlidingWindowMLASpec (block_size sliding_window : Z)
  | ChunkedLocalAttentionSpec (block_size attention_chunk_size : Z)
  | MambaSpec (block_size : Z) (mamba_cache_mode : string) (num_speculative_blocks : Z)
  | CrossAttentionSpec (block_size : Z)
  | SinkFullAttentionSpec (block_size : Z) (sink_len : option Z).

Definition spec_block_size (s : KVCacheSpec) : Z :=
  match s with
  | FullAttentionSpec b | TQFullAttentionSpec b | MLAAttentionSpec b | HiddenStateCacheSpec b
  | QuestKVCacheSpec b | SlidingWindowSpec b _ | SlidingWindowMLASpec b _
  | ChunkedLocalAttentionSpec b _ | MambaSpec b _ _ | CrossAttentionSpec b | SinkFullAttentionSpec b _ => b
  end.

Inductive manager_class :=
  | FullAttentionManager
  | SlidingWindowManager
  | ChunkedLocalAttentionManager
  | MambaManager
  | CrossAttentionManager
  | SinkFullAttentionManager.

#[global] Instance manager_class_eq_dec : EqDecision manager_class.
Proof. solve_decision. Defined.

(** [spec_manager_map], with [QuestKVCacheSpec] bound to the full-attention manager. *)
Definition spec_manager_map (s : KVCacheSpec) : manager_class :=
  match s with
  | FullAttentionSpec _ | TQFullAttentionSpec _ | MLAAttentionSpec _ | HiddenStateCacheSpec _
  | QuestKVCacheSpec _ => FullAttentionManager
  | SlidingWindowSpec _ _ | SlidingWindowMLASpec _ _ => SlidingWindowManager
  | ChunkedLocalAttentionSpec _ _ => ChunkedLocalAttentionManager
  | MambaSpec _ _ _ => MambaManager
  | CrossAttentionSpec _ => CrossAttentionManager
  | SinkFullAttentionSpec _ _ => SinkFullAttentionManager
  end.

(** [isinstance(kv_cache_spec, FullAttentionSpec | ChunkedLocalAttentionSpec)] *)
Definition full_or_chunked (s : KVCacheSpec) : bool :=
  match s with
  | FullAttentionSpec _ | TQFullAttentionSpec _ | MLAAttentionSpec _ | HiddenStateCacheSpec _
  | SinkFullAttentionSpec _ _ | ChunkedLocalAttentionSpec _ _ => true
  | _ => false
  end.

Notation hits := (list (list ref)).
Notation P := (M BlockPool.t).

(** ** Shared steps *)

(** The elements of the hash list, for [itertools.islice(block_hashes, n)]. *)
Definition islice (l : BlockPool.hash_list) (n : Z) : P (list bytes) :=
  if bool_decide (n < 0) then raise ValueError
  else
    hs <- match l with
          | BlockPool.Plain hs => ret hs
          | BlockPool.Scaled x => of_outcome (BlockHashListWithBlockSize.iter x)
          end ;;
    ret (take (Z.to_nat n) hs).

(** [block_pool.get_cached_block(...)] where an empty list is falsy *)
Definition cached_blocks (h : bytes) (gids : list Z) : P (option (list ref)) :=
  p <- get ;;
  o <- of_outcome (BlockPool.get_cached_block h gids p) ;;
  ret (match o with Some [] => None | _ => o end).

(** [for computed in computed_blocks: computed.pop()] *)
Definition pop_each (computed : hits) : P hits :=
  for_collect computed (λ c, '(_, c') <- of_option IndexError (list_pop c) ;; ret c').

(** [len(computed_blocks[0])] *)
Definition hit_len (computed : hits) : P Z :=
  c <- of_option IndexError (head computed) ;; ret (Z.of_nat (length c)).

(** [while block_size != alignment_tokens and len(...) * block_size % alignment_tokens != 0:]
    pop the last block of every group. *)
Fixpoint align_loop (fuel : nat) (block_size alignment_tokens : Z) (computed : hits) : P hits :=
  match fuel with
  | O => raise StopIteration
  | S f =>
      if bool_decide (block_size = alignment_tokens) then ret computed
      else
        n <- hit_len computed ;;
        m <- pymod (n * block_size) alignment_tokens ;;
        if bool_decide (m = 0) then ret computed
        else computed' <- pop_each computed ;; align_loop f block_size alignment_tokens computed'
  end.
Definition align_down (block_size alignment_tokens : Z) (computed : hits) : P hits :=
  align_loop (S (length (default [] (head computed)))) block_size alignment_tokens computed.

(** [if use_eagle and computed_blocks[0]: ...pop()]; whether something was popped *)
Definition eagle_pop (use_eagle : bool) (computed : hits) : P (bool * hits) :=
  if use_eagle then
    n <- hit_len computed ;;
    if bool_decide (n = 0) then ret (false, computed)
    else computed' <- pop_each computed ;; ret (true, computed')
  else ret (false, computed).

Definition append_each (computed : hits) (cached : list ref) : hits :=
  zip_with (λ c x, c ++ [x]) computed cached.

(** ** Full attention *)
Fixpoint full_loop (gids : list Z) (hs : list bytes) (computed : hits) : P hits :=
  match hs with
  | [] => ret computed
  | h :: hs' =>
      o <- cached_blocks h gids ;;
      match o with
      | Some cached => full_loop gids hs' (append_each computed cached)
      | None => ret computed
      end
  end.

Definition full_find (block_hashes : BlockPool.hash_list) (max_length : Z) (gids : list Z)
    (spec : KVCacheSpec) (use_eagle : bool) (alignment_tokens dcp pcp : Z) : P hits :=
  assert_ (full_or_chunked spec) ;;
  let block_size := if bool_decide (1 < dcp * pcp) then spec_block_size spec * (dcp * pcp)
                    else spec_block_size spec in
  max_num_blocks <- floordiv max_length block_size ;;
  hs <- islice block_hashes max_num_blocks ;;
  computed <- full_loop gids hs ((λ _, []) <$> gids) ;;
  '(_, computed) <- eagle_pop use_eagle computed ;;
  align_down block_size alignment_tokens computed.

(** ** Sliding window *)

(** [range(n - 1, -1, -1)] *)
Definition downto (n : Z) : list Z := rev (py_range n).

Fixpoint swa_loop (hl : BlockPool.hash_list) (gids : list Z) (block_size alignment_tokens : Z)
    (use_eagle : bool) (needed : Z) (idxs : list Z) (num_contiguous_blocks : Z) (computed : hits)
    : P (bool * Z * hits) :=
  match idxs with
  | [] => ret (false, num_contiguous_blocks, computed)
  | i :: idxs' =>
      h <- of_outcome (BlockPool.hl_get hl i) ;;
      o <- cached_blocks h gids ;;
      match o with
      | Some cached =>
          unaligned <- (if bool_decide (num_contiguous_blocks = 0) && bool_decide (block_size ≠ alignment_tokens)
                        then m <- pymod ((if use_eagle then i else i + 1) * block_size) alignment_tokens ;;
                             ret (bool_decide (m ≠ 0))
                        else ret false) ;;
          if unaligned : bool then
            swa_loop hl gids block_size alignment_tokens use_eagle needed idxs' num_contiguous_blocks computed
          else
            let computed := zip_with (λ c x, <[Z.to_nat i := x]> c) computed cached in
            let n := num_contiguous_blocks + 1 in
            if bool_decide (needed ≤ n) then ret (true, n, take (Z.to_nat (i + n)) <$> computed)
            else swa_loop hl gids block_size alignment_tokens use_eagle needed idxs' n computed
      | None => swa_loop hl gids block_size alignment_tokens use_eagle needed idxs' 0 computed
      end
  end.

Definition swa_find (block_hashes : BlockPool.hash_list) (max_length : Z) (gids : list Z)
    (spec : KVCacheSpec) (use_eagle : bool) (alignment_tokens dcp pcp : Z) : P hits :=
  match spec with
  | SlidingWindowSpec block_size sliding_window | SlidingWindowMLASpec block_size sliding_window =>
      assert_ (bool_decide (dcp = 1)) ;;
      assert_ (bool_decide (pcp = 1)) ;;
      needed <- cdiv (sliding_window - 1) block_size ;;
      let needed := if use_eagle then needed + 1 else needed in
      max_num_blocks <- floordiv max_length block_size ;;
      p <- get ;;
      let computed := (λ _, replicate (Z.to_nat max_num_blocks) (BlockPool.null_block p)) <$> gids in
      '(match_found, n, computed) <-
        swa_loop block_hashes gids block_size alignment_tokens use_eagle needed (downto max_num_blocks) 0 computed ;;
      computed <- (if match_found : bool then ret computed
                   else align_down block_size alignment_tokens (take (Z.to_nat n) <$> computed)) ;;
      '(popped, computed) <- eagle_pop use_eagle computed ;;
      if popped : bool then align_down block_size alignment_tokens computed else ret computed
  | _ => raise AssertionError
  end.

(** ** Chunked local attention *)
Fixpoint chunked_loop (hl : BlockPool.hash_list) (gids : list Z) (idxs : list Z) (computed : hits) : P hits :=
  match idxs with
  | [] => ret computed
  | i :: idxs' =>
      h <- of_outcome (BlockPool.hl_get hl i) ;;
      o <- cached_blocks h gids ;;
      match o with
      | Some cached => chunked_loop hl gids idxs' (append_each computed cached)
      | None => ret computed
      end
  end.

Definition chunked_find (block_hashes : BlockPool.hash_list) (max_length : Z) (gids : list Z)
    (spec : KVCacheSpec) (use_eagle : bool) (alignment_tokens dcp pcp : Z) : P hits :=
  match spec with
  | ChunkedLocalAttentionSpec block_size chunk =>
      assert_ (negb use_eagle) ;;
      assert_ (bool_decide (dcp = 1)) ;;
      assert_ (bool_decide (pcp = 1)) ;;
      assert_ (bool_decide (block_size = alignment_tokens)) ;;
      max_num_blocks <- floordiv max_length block_size ;;
      start <- (if bool_decide (0 < max_length) then q <- floordiv max_length chunk ;; ret (q * chunk)
                else ret 0) ;;
      start_block <- floordiv start block_size ;;
      p <- get ;;
      let computed := (λ _, replicate (Z.to_nat start_block) (BlockPool.null_block p)) <$> gids in
      chunked_loop block_hashes gids (seqZ start_block (max_num_blocks - start_block)) computed
  | _ => raise AssertionError
  end.

(** ** Mamba *)
Fixpoint mamba_loop (hl : BlockPool.hash_list) (gids : list Z) (block_size alignment_tokens : Z)
    (idxs : list Z) (computed : hits) : P hits :=
  match idxs with
  | [] => ret computed
  | i :: idxs' =>
      h <- of_outcome (BlockPool.hl_get hl i) ;;
      o <- cached_blocks h gids ;;
      match o with
      | Some cached =>
          unaligned <- (if bool_decide (block_size ≠ alignment_tokens)
                        then m <- pymod ((i + 1) * block_size) alignment_tokens ;; ret (bool_decide (m ≠ 0))
                        else ret false) ;;
          if unaligned : bool then mamba_loop hl gids block_size alignment_tokens idxs' computed
          else
            p <- get ;;
            ret (zip_with (λ c x, c ++ replicate (Z.to_nat i) (BlockPool.null_block p) ++ [x]) computed cached)
      | None => mamba_loop hl gids block_size alignment_tokens idxs' computed
      end
  end.

Definition mamba_find (block_hashes : BlockPool.hash_list) (max_length : Z) (gids : list Z)
    (spec : KVCacheSpec) (use_eagle : bool) (alignment_tokens dcp pcp : Z) : P hits :=
  match spec with
  | MambaSpec block_size _ _ =>
      assert_ (bool_decide (dcp = 1)) ;;
      assert_ (bool_decide (pcp = 1)) ;;
      max_num_blocks <- floordiv max_length block_size ;;
      mamba_loop block_hashes gids block_size alignment_tokens (downto max_num_blocks) ((λ _, []) <$> gids)
  | _ => raise AssertionError
  end.

(** ** Dispatch on the manager class; cross attention does not support caching. *)
Definition cross_find (spec : KVCacheSpec) : P hits :=
  match spec with CrossAttentionSpec _ => raise NotImplementedError | _ => raise AssertionError end.

Definition find_longest_cache_hit (c : manager_class) (block_hashes : BlockPool.hash_list) (max_length : Z)
    (gids : list Z) (spec : KVCacheSpec) (use_eagle : bool) (alignment_tokens dcp pcp : Z) : P hits :=
  match c with
  | FullAttentionManager | SinkFullAttentionManager =>
      full_find block_hashes max_length gids spec use_eagle alignment_tokens dcp pcp
  | SlidingWindowManager => swa_find block_hashes max_length gids spec use_eagle alignment_tokens dcp pcp
  | ChunkedLocalAttentionManager => chunked_find block_hashes max_length gids spec use_eagle alignment_tokens dcp pcp
  | MambaManager => mamba_find block_hashes max_length gids spec use_eagle alignment_tokens dcp pcp
  | CrossAttentionManager => cross_find spec
  end.
