(* ===== verification/CacheHitProps.v ===== *)
(** * Prefix-cache hits: the searches find the longest usable prefix

    Each search is compared with a declarative notion of a usable prefix length:
    aligned, within the limit, and with every block its attention type still needs
    present in the prefix cache for all groups. *)

From S2P Require Import Prelude OrderedDict FreeQueue BlockHash BlockPool BlockPoolProps BlockPoolCache CacheHit.

Open Scope Z_scope.
Import BlockPool.

(** ** The specification *)

(** The hashes of a request, one per full block. *)
Definition hash_seq (hl : hash_list) (hs : list bytes) : Prop :=
  match hl with
  | Plain hs' => hs = hs'
  | Scaled x => 0 < BlockHashListWithBlockSize.scale_factor x ∧ BlockHashListWithBlockSize.iter x = Ret hs
  end.

(** Every group has a block with this hash. *)
Definition cached_for (p : BlockPool.t) (gids : list Z) (h : bytes) : Prop :=
  ∀ g, g ∈ gids → ∃ b, carries p h g b.
Definition cached_at_idx p gids (hs : list bytes) (i : Z) : Prop :=
  ∃ h, hs !! Z.to_nat i = Some h ∧ cached_for p gids h.

Definition aligned (block_size alignment_tokens k : Z) : Prop := (k * block_size) `mod` alignment_tokens = 0.

#[global] Instance aligned_dec bs al k : Decision (aligned bs al k).
Proof. unfold aligned. apply _. Defined.

(** [k] is the greatest length satisfying [U]. *)
Definition longest (U : Z → Prop) (k : Z) : Prop := U k ∧ ∀ k', U k' → k' ≤ k.

(** The first [k] blocks can be used when the blocks from [k - window] on, and with
    EAGLE ([extra = 1]) the one after them, are cached. *)
Definition usable p gids hs block_size alignment_tokens max_length (window extra k : Z) : Prop :=
  k = 0 ∨
  0 < k ∧ aligned block_size alignment_tokens k ∧ (k + extra) * block_size ≤ max_length ∧
  ∀ i, 0 ≤ i → k - window ≤ i < k + extra → cached_at_idx p gids hs i.

(** A result: one list of [k] blocks per group. Each block is the null block or
    carries the hash at its index for the group, and from [first] on the latter. *)
Definition hit_blocks p gids (hs : list bytes) (res : hits) (first k : Z) : Prop :=
  Forall2 (λ g bs, Z.of_nat (length bs) = k ∧
    ∀ i b, bs !! i = Some b → ∃ h, hs !! i = Some h ∧
      (carries p h g b ∨ b = null_block p ∧ Z.of_nat i < first)) gids res.

(** ** One list per group as a list of rows *)
Section hits.
Context (p : BlockPool.t) (l : list ref) (gids : list Z).
Context (Hp : pool_inv p l []) (Hgids : ∀ g, g ∈ gids → 0 ≤ g < 2 ^ 32) (Hne : gids ≠ []).
Implicit Types (rows : list (list ref)) (h : bytes) (hs : list bytes).

Definition found h : option (list ref) :=
  match get_cached_block h gids p with Ret o => o | Raise _ => None end.

Lemma found_Some h bs : found h = Some bs → Forall2 (carries p h) gids bs.
Proof.
  unfold found. destruct (get_cached_block_correct p l h gids Hp Hgids) as [(bs' & -> & Hb)|[-> _]]; [|done].
  by intros [= ->].
Qed.

Lemma found_iff h : is_Some (found h) ↔ cached_for p gids h.
Proof.
  split.
  - intros [bs Hb%found_Some] g (i & Hi)%list_elem_of_lookup.
    destruct (Forall2_lookup_l _ _ _ _ _ Hb Hi) as (b & _ & Hc). by exists b.
  - intros Hc. unfold found.
    destruct (get_cached_block_correct p l h gids Hp Hgids) as [(bs & -> & _)|[-> (g & Hg & Hn)]]; [done|].
    destruct (Hc g Hg) as [b Hb]. by apply Hn in Hb.
Qed.

Lemma found_length h bs : found h = Some bs → length bs = length gids.
Proof. intros Hb%found_Some. symmetry. by eapply Forall2_length. Qed.

Lemma cached_blocks_run h : cached_blocks h gids p = (Ret (found h), p).
Proof.
  pose proof (found_length h) as Hl. unfold cached_blocks, bind, get, of_outcome, ret. revert Hl. unfold found.
  destruct (get_cached_block_correct p l h gids Hp Hgids) as [(bs & -> & _)|[-> _]]; [|done].
  intros Hl. destruct bs; [|done]. specialize (Hl [] eq_refl). by destruct gids.
Qed.

(** Row [i] has the blocks of index [i], one per group. *)
Definition cols rows : hits := (λ k, omap (.!! k) rows) <$> seq 0 (length gids).
Definition rows_ok rows : Prop := Forall (λ row, length row = length gids) rows.

Lemma omap_rows rows k : rows_ok rows → (k < length gids)%nat →
  ∀ i, omap (.!! k) rows !! i = rows !! i ≫= (.!! k).
Proof.
  intros Hr Hk. induction Hr as [|row rows Hrow Hr IH]; intros i; [done|].
  destruct (lookup_lt_is_Some_2 row k) as [b Hb]; [lia|]. csimpl. rewrite Hb.
  destruct i as [|i]; [done|]. apply IH.
Qed.

Lemma cols_lookup rows k : cols rows !! k = if decide (k < length gids)%nat then Some (omap (.!! k) rows) else None.
Proof.
  unfold cols. rewrite list_lookup_fmap. case_decide as Hk.
  - by rewrite lookup_seq_lt.
  - by rewrite lookup_seq_ge by lia.
Qed.

Lemma cols_rows_eq rows (res : hits) :
  length res = length gids → (∀ k, (k < length gids)%nat → res !! k = Some (omap (.!! k) rows)) → res = cols rows.
Proof.
  intros Hl Hk. apply list_eq. intros k. rewrite cols_lookup. case_decide; [by apply Hk|].
  apply lookup_ge_None_2. lia.
Qed.

Lemma cols_replicate n b : (λ _, replicate n b) <$> gids = cols (replicate n (replicate (length gids) b)).
Proof.
  apply cols_rows_eq; [by rewrite length_fmap|]. intros k Hk.
  destruct (lookup_lt_is_Some_2 gids k Hk) as [g Hg]. rewrite list_lookup_fmap, Hg. simpl. f_equal.
  induction n as [|n IH]; [done|]. csimpl. rewrite lookup_replicate_2 by lia. by rewrite <-IH.
Qed.

Lemma cols_zip_with (f : list ref → ref → list ref) rows rows' row :
  length row = length gids →
  (∀ k b, row !! k = Some b → f (omap (.!! k) rows) b = omap (.!! k) rows') →
  zip_with f (cols rows) row = cols rows'.
Proof.
  intros Hl Hf. apply cols_rows_eq.
  - rewrite length_zip_with. unfold cols. rewrite length_fmap, length_seq. lia.
  - intros k Hk. rewrite lookup_zip_with, cols_lookup, decide_True by done. simpl.
    destruct (lookup_lt_is_Some_2 row k) as [b Hb]; [lia|]. rewrite Hb. simpl. by rewrite (Hf k b).
Qed.

Lemma cols_snoc rows row : length row = length gids → append_each (cols rows) row = cols (rows ++ [row]).
Proof.
  intros Hl. apply cols_zip_with; [done|]. intros k b Hb. rewrite omap_app. csimpl. by rewrite Hb.
Qed.

Lemma cols_insert rows row i :
  length row = length gids → rows_ok rows → (i < length rows)%nat →
  zip_with (λ c x, <[i := x]> c) (cols rows) row = cols (<[i := row]> rows).
Proof.
  intros Hl Hr Hi. apply cols_zip_with; [done|]. intros k b Hb.
  assert (k < length gids)%nat as Hk by (apply lookup_lt_Some in Hb; lia).
  revert i Hi. induction Hr as [|r rows Hrow Hr IH]; intros i Hi; [simpl in Hi; lia|].
  destruct (lookup_lt_is_Some_2 r k) as [c Hc]; [lia|]. destruct i as [|i]; csimpl.
  - by rewrite Hb, Hc.
  - rewrite Hc. csimpl. f_equal. apply IH. simpl in Hi. lia.
Qed.

Lemma cols_take rows n : rows_ok rows → take n <$> cols rows = cols (take n rows).
Proof.
  intros Hr. apply cols_rows_eq; [unfold cols; by rewrite !length_fmap, length_seq|].
  intros k Hk. rewrite list_lookup_fmap, cols_lookup, decide_True by done. simpl. f_equal.
  revert n. induction Hr as [|row rows Hrow Hr IH]; intros n; [by destruct n|].
  destruct (lookup_lt_is_Some_2 row k) as [b Hb]; [lia|]. destruct n; [done|]. csimpl.
  rewrite Hb. csimpl. by rewrite IH.
Qed.

Lemma hit_len_cols rows (st : BlockPool.t) : rows_ok rows → hit_len (cols rows) st = (Ret (Z.of_nat (length rows)), st).
Proof.
  intros Hr. assert (0 < length gids)%nat as Hg by (destruct gids; simpl; [done|lia]).
  unfold hit_len. rewrite head_lookup, cols_lookup, decide_True by done. unfold bind, of_option, ret. do 3 f_equal.
  clear -Hr Hg. induction Hr as [|row rows Hrow Hr IH]; [done|].
  destruct row; [simpl in Hrow; lia|]. csimpl. by rewrite IH.
Qed.

Lemma pop_each_cols rows row (st : BlockPool.t) :
  length row = length gids → pop_each (cols (rows ++ [row])) st = (Ret (cols rows), st).
Proof.
  intros Hl. unfold cols. assert (∀ ks, (∀ k, k ∈ ks → (k < length gids)%nat) →
    pop_each ((λ k, omap (.!! k) (rows ++ [row])) <$> ks) st = (Ret ((λ k, omap (.!! k) rows) <$> ks), st)) as Hgen.
  { induction ks as [|k ks IH]; intros Hks; [done|]. unfold pop_each in *. csimpl.
    destruct (lookup_lt_is_Some_2 row k) as [b Hb]; [rewrite Hl; apply Hks, elem_of_cons; by left|].
    rewrite omap_app. csimpl. rewrite Hb, list_pop_snoc. unfold bind at 1 2. simpl. unfold bind at 1.
    rewrite IH; [done|]. intros k' Hk'. apply Hks, elem_of_cons. by right. }
  apply Hgen. intros k [_ Hk]%elem_of_seq. lia.
Qed.

(** ** Aligning down *)
Section align.
Context (bs al : Z) (Hbs : 0 < bs) (Hal : 0 < al).

Lemma aligned_same k : bs = al → aligned bs al k.
Proof. intros ->. unfold aligned. by apply Z.mod_mul; lia. Qed.

Lemma align_loop_cols fuel rows (st : BlockPool.t) :
  rows_ok rows → (length rows < fuel)%nat →
  ∃ k, align_loop fuel bs al (cols rows) st = (Ret (cols (take k rows)), st) ∧
    (k ≤ length rows)%nat ∧ aligned bs al (Z.of_nat k) ∧
    ∀ k', (k' ≤ length rows)%nat → aligned bs al (Z.of_nat k') → (k' ≤ k)%nat.
Proof.
  revert rows. induction fuel as [|fuel IH]; intros rows Hr Hf; [lia|]. simpl.
  assert (aligned bs al (Z.of_nat (length rows)) → ∃ k, (Ret (cols rows), st) = (Ret (cols (take k rows)), st) ∧
    (k ≤ length rows)%nat ∧ aligned bs al (Z.of_nat k) ∧
    ∀ k', (k' ≤ length rows)%nat → aligned bs al (Z.of_nat k') → (k' ≤ k)%nat) as Hstop.
  { intros Ha. exists (length rows). rewrite firstn_all. split_and!; try done. }
  case_bool_decide as Heq; [by apply Hstop, aligned_same|].
  erewrite run_bind by by apply hit_len_cols. erewrite run_bind by by apply pymod_run.
  case_bool_decide as Hm; [by apply Hstop|].
  destruct rows as [|row rows _] using rev_ind; [by destruct Hm|].
  apply Forall_app in Hr as [Hr [Hrow _]%Forall_cons].
  erewrite run_bind by by apply pop_each_cols. rewrite length_app in Hf, Hm. simpl in Hf, Hm.
  destruct (IH rows Hr) as (k & Hrun & Hk & Ha & Hmax); [lia|].
  exists k. rewrite length_app, take_app_le by done. simpl. split_and!; [done|lia|done|].
  intros k' Hk' Ha'. destruct (decide (k' = S (length rows))) as [->|].
  - destruct Hm. unfold aligned in Ha'. by replace (length rows + 1)%nat with (S (length rows)) by lia.
  - apply Hmax; [lia|done].
Qed.

Lemma align_down_cols rows (st : BlockPool.t) :
  rows_ok rows →
  ∃ k, align_down bs al (cols rows) st = (Ret (cols (take k rows)), st) ∧
    (k ≤ length rows)%nat ∧ aligned bs al (Z.of_nat k) ∧
    ∀ k', (k' ≤ length rows)%nat → aligned bs al (Z.of_nat k') → (k' ≤ k)%nat.
Proof.
  intros Hr. unfold align_down. apply align_loop_cols; [done|].
  pose proof (hit_len_cols rows st Hr) as Hl. unfold hit_len in Hl.
  destruct (head (cols rows)) as [c|]; [|done]. unfold bind, of_option, ret in Hl. simplify_eq/=. lia.
Qed.

Lemma eagle_pop_cols use_eagle rows (st : BlockPool.t) :
  rows_ok rows →
  eagle_pop use_eagle (cols rows) st =
    (Ret (use_eagle && bool_decide (rows ≠ []), cols (take (length rows - if use_eagle then 1 else 0) rows)), st).
Proof.
  intros Hr. unfold eagle_pop. destruct use_eagle; [|by rewrite Nat.sub_0_r, firstn_all].
  erewrite run_bind by by apply hit_len_cols. destruct rows as [|row rows _] using rev_ind; [done|].
  rewrite length_app. rewrite bool_decide_false by (simpl; lia).
  rewrite bool_decide_true by (by intros ?%app_eq_nil%proj2).
  apply Forall_app in Hr as [Hr [Hrow _]%Forall_cons].
  erewrite run_bind by by apply pop_each_cols. unfold ret. simpl. do 3 f_equal.
  rewrite take_app_le by lia. by rewrite firstn_all2 by lia.
Qed.
End align.

(** ** From rows to the specification *)
Lemma rows_hit_blocks hs rows first :
  rows_ok rows →
  (∀ i row, rows !! i = Some row → ∃ h, hs !! i = Some h ∧
     (found h = Some row ∨ row = replicate (length gids) (null_block p) ∧ Z.of_nat i < first)) →
  hit_blocks p gids hs (cols rows) first (Z.of_nat (length rows)).
Proof.
  intros Hr Hrows. apply Forall2_same_length_lookup_2.
  { unfold cols. by rewrite length_fmap, length_seq. }
  intros k g c Hg Hc. pose proof (lookup_lt_Some _ _ _ Hg) as Hk.
  rewrite cols_lookup, decide_True in Hc by done. injection Hc as <-. split.
  - f_equal. clear -Hr Hk. induction Hr as [|row rows Hrow Hr IH]; [done|].
    destruct (lookup_lt_is_Some_2 row k) as [b Hb]; [lia|]. csimpl. by rewrite Hb, <-IH.
  - intros i b. rewrite omap_rows by done. destruct (rows !! i) as [row|] eqn:Hi; [|done]. simpl. intros Hb.
    destruct (Hrows i row Hi) as (h & Hh & Hcase). exists h. split; [done|].
    destruct Hcase as [Hf%found_Some|[-> Hlt]].
    + left. exact (Forall2_lookup_lr _ _ _ _ _ _ Hf Hg Hb).
    + right. by apply lookup_replicate in Hb as [-> _].
Qed.

Lemma found_rows_ok hs rows :
  (∀ i row, rows !! i = Some row → ∃ h, hs !! i = Some h ∧ found h = Some row) → rows_ok rows.
Proof.
  intros Hr. apply Forall_lookup. intros i row (h & _ & Hf)%Hr. by eapply found_length.
Qed.

(** ** Full attention *)
Lemma full_loop_run hs rows :
  ∃ rows', full_loop gids hs (cols rows) p = (Ret (cols (rows ++ rows')), p) ∧
    (length rows' ≤ length hs)%nat ∧
    (∀ i row, rows' !! i = Some row → ∃ h, hs !! i = Some h ∧ found h = Some row) ∧
    (∀ h, hs !! length rows' = Some h → found h = None).
Proof.
  revert rows. induction hs as [|h hs IH]; intros rows; simpl.
  { exists []. rewrite app_nil_r. split_and!; try done. }
  erewrite run_bind by apply cached_blocks_run. destruct (found h) as [row|] eqn:Hf.
  - rewrite cols_snoc by by eapply found_length.
    destruct (IH (rows ++ [row])) as (rows' & Hrun & Hl & Hr & Hn).
    exists (row :: rows'). rewrite Hrun, <-app_assoc. split_and!; [done|simpl; lia| |done].
    intros [|i] row'; simpl; [intros [= <-]; eauto|apply Hr].
  - exists []. rewrite app_nil_r. split_and!; [done|simpl; lia|done|]. simpl. by intros h' [= <-].
Qed.

Lemma islice_run hl hs n :
  hash_seq hl hs → 0 ≤ n → islice hl n p = (Ret (take (Z.to_nat n) hs), p).
Proof.
  intros Hs Hn. unfold islice. rewrite bool_decide_false by lia.
  destruct hl as [hs'|x]; simpl in Hs; [by subst|]. destruct Hs as [_ Hx]. unfold bind, of_outcome. by rewrite Hx.
Qed.

Lemma full_find_spec hl hs max_length spec use_eagle al dcp pcp :
  let bs := if bool_decide (1 < dcp * pcp) then spec_block_size spec * (dcp * pcp) else spec_block_size spec in
  let extra := if use_eagle : bool then 1 else 0 in
  full_or_chunked spec = true → hash_seq hl hs → 0 < bs → 0 < al → 0 ≤ max_length →
  ∃ res k, full_find hl max_length gids spec use_eagle al dcp pcp p = (Ret res, p) ∧
    hit_blocks p gids hs res 0 k ∧
    longest (λ k, usable p gids hs bs al max_length k extra k) k.
Proof.
  intros bs extra Hspec Hseq Hbs Hal Hlen. unfold full_find. rewrite Hspec.
  unfold assert_. erewrite run_bind by done. fold bs. erewrite run_bind by by apply floordiv_run.
  erewrite run_bind by (apply islice_run; [done|by apply Z.div_pos]). set (m := Z.to_nat (max_length / bs)).
  change ((λ _ : Z, []) <$> gids) with ((λ _ : Z, replicate 0 (null_block p)) <$> gids). rewrite cols_replicate.
  destruct (full_loop_run (take m hs) []) as (rows & Hrun & Hl & Hr & Hn). erewrite run_bind by exact Hrun.
  assert (rows_ok rows) as Hok by by eapply found_rows_ok. simpl.
  erewrite run_bind by by apply eagle_pop_cols. set (n := (length rows - _)%nat).
  destruct (align_down_cols bs al Hbs Hal (take n rows) p) as (k & -> & Hk & Ha & Hmax); [by apply Forall_take|].
  rewrite length_take in Hk, Hmax. rewrite take_take. replace (k `min` n)%nat with k by lia.
  assert (length rows ≤ m)%nat as Hrm by (rewrite length_take in Hl; lia).
  assert (Z.of_nat m = max_length / bs) as Hm by (pose proof (Z.div_pos max_length bs); lia).
  assert (∀ i, 0 ≤ i < Z.of_nat (length rows) → cached_at_idx p gids hs i) as Hc.
  { intros i Hi. destruct (lookup_lt_is_Some_2 rows (Z.to_nat i)) as [row Hrow]; [lia|].
    destruct (Hr _ _ Hrow) as (h & [Hh _]%lookup_take_Some & Hf). exists h. split; [done|]. apply found_iff. by rewrite Hf. }
  exists (cols (take k rows)), (Z.of_nat k). split_and!; [done| |split].
  - replace (Z.of_nat k) with (Z.of_nat (length (take k rows))) by (rewrite length_take; lia).
    apply rows_hit_blocks; [by apply Forall_take|]. intros i row [Hi _]%lookup_take_Some.
    destruct (Hr i row Hi) as (h & [Hh _]%lookup_take_Some & Hf). eauto.
  - destruct (decide (k = 0%nat)) as [->|Hk0]; [by left|right].
    assert (Z.of_nat k + extra ≤ Z.of_nat (length rows)) by (subst n extra; destruct use_eagle; lia).
    split_and!; [lia|done| |intros i Hi0 Hi; apply Hc; lia].
    pose proof (Z.mul_div_le max_length bs Hbs). nia.
  - intros k' [->|(Hk0 & Ha' & Hlen' & Hc')]; [lia|].
    assert (k' + extra ≤ max_length / bs) as Hdiv by (apply Z.div_le_lower_bound; lia).
    assert (Z.to_nat (k' + extra) ≤ length rows)%nat as Hle.
    { destruct (decide (Z.to_nat (k' + extra) ≤ length rows)%nat) as [|Hgt]; [done|exfalso].
      destruct (Hc' (Z.of_nat (length rows))) as (h & Hh & Hcf); [lia|subst extra; destruct use_eagle; lia|].
      rewrite Nat2Z.id in Hh. apply found_iff in Hcf as [row Hrow].
      rewrite (Hn h) in Hrow; [done|]. apply lookup_take_Some. split; [done|lia]. }
    assert (Z.to_nat k' ≤ k)%nat; [|lia]. apply Hmax; [subst n extra; destruct use_eagle; lia|].
    by rewrite Z2Nat.id by lia.
Qed.

(** ** Sliding window *)
Lemma downto_S n : downto (Z.of_nat (S n)) = Z.of_nat n :: downto (Z.of_nat n).
Proof.
  unfold downto, py_range. replace (Z.of_nat (S n)) with (Z.of_nat n + 1) by lia.
  rewrite seqZ_app by lia. rewrite rev_app_distr. simpl. by rewrite Z.add_0_l.
Qed.

Lemma hl_get_run hl hs i h :
  hash_seq hl hs → hs !! i = Some h → hl_get hl (Z.of_nat i) = Ret h.
Proof.
  intros Hs Hi. destruct hl as [hs'|x]; simpl in *.
  - subst. rewrite list_get_lookup by lia. by rewrite Nat2Z.id, Hi.
  - destruct Hs as [Hsc Hx]. unfold BlockHashListWithBlockSize.iter, BlockHashListWithBlockSize.len in Hx.
    rewrite bool_decide_false in Hx by lia. injection Hx as <-. unfold BlockHashListWithBlockSize.getitem.
    rewrite list_lookup_fmap in Hi. destruct (py_range _ !! i) as [z|] eqn:Hz; [|done].
    apply lookup_seqZ in Hz as [-> _]. simpl in Hi. by injection Hi as <-.
Qed.

(** Row [i] holds the cached blocks of its index. *)
Definition filled hs rows (i : Z) : Prop :=
  ∃ h row, hs !! Z.to_nat i = Some h ∧ found h = Some row ∧ rows !! Z.to_nat i = Some row.
Definition rows_legal hs rows : Prop :=
  ∀ i row, rows !! i = Some row → ∃ h, hs !! i = Some h ∧
    (found h = Some row ∨ row = replicate (length gids) (null_block p)).

Lemma filled_cached hs rows i : filled hs rows i → cached_at_idx p gids hs i.
Proof. intros (h & row & Hh & Hf & _). exists h. split; [done|]. apply found_iff. by rewrite Hf. Qed.

Lemma rows_legal_ok hs rows : rows_legal hs rows → rows_ok rows.
Proof.
  intros Hl. apply Forall_lookup. intros i row Hi. destruct (Hl i row Hi) as (h & _ & [Hf| ->]).
  - by eapply found_length.
  - apply length_replicate.
Qed.

Lemma rows_legal_insert hs rows i h row :
  rows_legal hs rows → hs !! i = Some h → found h = Some row → rows_legal hs (<[i := row]> rows).
Proof.
  intros Hl Hh Hf j row' Hj. destruct (decide (j = i)) as [->|Hneq].
  - rewrite list_lookup_insert_eq in Hj; [|apply lookup_lt_Some in Hj; by rewrite length_insert in Hj].
    simplify_eq. eauto.
  - rewrite list_lookup_insert_ne in Hj by done. by apply Hl.
Qed.

Lemma rows_legal_take hs rows n : rows_legal hs rows → rows_legal hs (take n rows).
Proof. intros Hl i row [Hi _]%lookup_take_Some. by apply Hl. Qed.

Lemma filled_insert hs rows i h row j :
  hs !! i = Some h → found h = Some row → (i < length rows)%nat → 0 ≤ j →
  j = Z.of_nat i ∨ filled hs rows j → filled hs (<[i := row]> rows) j.
Proof.
  intros Hh Hf Hi Hj Hcase. destruct (decide (j = Z.of_nat i)) as [->|Hneq].
  - exists h, row. rewrite Nat2Z.id, list_lookup_insert_eq by done. done.
  - destruct Hcase as [|(h' & row' & ? & ? & ?)]; [done|]. exists h', row'.
    rewrite list_lookup_insert_ne by lia. done.
Qed.

Section swa.
Context (hl : hash_list) (hs : list bytes) (bs al : Z) (eagle : bool) (needed : Z) (m0 : nat).
Context (Hseq : hash_seq hl hs) (Hbs : 0 < bs) (Hal : 0 < al) (Hm0 : (m0 ≤ length hs)%nat).
Notation extra := (if eagle then 1 else 0).

(** A match may end at [e]: the blocks it needs before [e] are cached. *)
Definition match_end (e : Z) : Prop :=
  0 < e ≤ Z.of_nat m0 ∧ aligned bs al (e - extra) ∧
  ∀ i, 0 ≤ i → e - Z.max 1 needed ≤ i < e → cached_at_idx p gids hs i.

(** Searching the indices below [m] with a run of [n] blocks from [m] on. *)
Record searching (m : nat) (n : Z) rows : Prop := {
  se_len : length rows = m0;
  se_legal : rows_legal hs rows;
  se_run : 0 ≤ n ∧ Z.of_nat m + n ≤ Z.of_nat m0 ∧ (0 < n → n < needed);
  se_aligned : 0 < n → aligned bs al (Z.of_nat m + n - extra);
  se_filled : ∀ i, Z.of_nat m ≤ i < Z.of_nat m + n → filled hs rows i;
  se_max : ∀ e, match_end e → e ≤ Z.of_nat m + n
}.

Record matched rows (n : Z) : Prop := {
  ma_end : match_end (Z.of_nat (length rows));
  ma_legal : rows_legal hs rows;
  ma_count : needed ≤ n ∧ 1 ≤ n;
  ma_filled : ∀ i, 0 ≤ i → Z.of_nat (length rows) - n ≤ i < Z.of_nat (length rows) → filled hs rows i;
  ma_max : ∀ e, match_end e → e ≤ Z.of_nat (length rows)
}.

Lemma searching_miss m n rows h :
  searching (S m) n rows → hs !! m = Some h → found h = None → searching m 0 rows.
Proof.
  intros [Hl Hleg (Hn & Hmn & Hneed) Ha Hf Hmax] Hh Hnone. split; try done; try lia.
  intros e He. specialize (Hmax e He). destruct He as (He & _ & Hc).
  destruct (decide (e ≤ Z.of_nat m)) as [|Hgt]; [lia|exfalso].
  destruct (Hc (Z.of_nat m)) as (h' & Hh' & Hcf); [lia| |].
  - destruct (decide (0 < n)); [specialize (Hneed ltac:(done))|]; lia.
  - rewrite Nat2Z.id in Hh'. simplify_eq. apply found_iff in Hcf as [??]. congruence.
Qed.

Lemma searching_skip m rows :
  searching (S m) 0 rows → ¬ aligned bs al (Z.of_nat (S m) - extra) → searching m 0 rows.
Proof.
  intros [Hl Hleg Hn Ha Hf Hmax] Hna. split; try done; try lia.
  intros e He. specialize (Hmax e He). destruct He as (He & Hae & _).
  destruct (decide (e = Z.of_nat (S m))) as [->|]; [done|lia].
Qed.

Lemma searching_hit m n rows h row :
  searching (S m) n rows → hs !! m = Some h → found h = Some row →
  (n = 0 → aligned bs al (Z.of_nat (S m) - extra)) →
  let rows' := <[m := row]> rows in
  if decide (needed ≤ n + 1) then matched (take (Z.to_nat (Z.of_nat m + (n + 1))) rows') (n + 1)
  else searching m (n + 1) rows'.
Proof.
  intros [Hl Hleg (Hn & Hmn & Hneed) Ha Hf Hmax] Hh Hfound Hal0 rows'.
  assert (aligned bs al (Z.of_nat m + (n + 1) - extra)) as Hal'.
  { destruct (decide (n = 0)) as [->|]; [specialize (Hal0 eq_refl)|specialize (Ha ltac:(lia))].
    - by replace (Z.of_nat m + (0 + 1) - extra) with (Z.of_nat (S m) - extra) by lia.
    - by replace (Z.of_nat m + (n + 1) - extra) with (Z.of_nat (S m) + n - extra) by lia. }
  assert (rows_legal hs rows') as Hleg' by by eapply rows_legal_insert.
  assert (∀ i, Z.of_nat m ≤ i < Z.of_nat m + (n + 1) → filled hs rows' i) as Hf'.
  { intros i Hi. eapply filled_insert; [done..|lia|lia|].
    destruct (decide (i = Z.of_nat m)); [by left|right; apply Hf; lia]. }
  case_decide as Hd.
  - set (e := Z.of_nat m + (n + 1)).
    assert (length (take (Z.to_nat e) rows') = Z.to_nat e) as Hlt
      by (unfold rows'; rewrite length_take, length_insert; lia).
    split; rewrite ?Hlt, ?Z2Nat.id by lia.
    + split_and!; [lia|lia|done|]. intros i Hi0 Hi. eapply filled_cached, Hf'. lia.
    + by apply rows_legal_take.
    + lia.
    + intros i Hi0 Hi. destruct (Hf' i) as (h' & row' & ? & ? & ?); [lia|]. exists h', row'.
      split_and!; [done..|]. apply lookup_take_Some. split; [done|lia].
    + intros e' He'. specialize (Hmax e' He'). lia.
  - split; try done; try lia.
    + unfold rows'. by rewrite length_insert.
    + intros e He. specialize (Hmax e He). lia.
Qed.

Lemma not_skipped m n :
  bool_decide (n = 0) && bool_decide (bs ≠ al) && bool_decide (¬ aligned bs al (Z.of_nat (S m) - extra)) = false →
  n = 0 → aligned bs al (Z.of_nat (S m) - extra).
Proof.
  intros Hsk ->. rewrite bool_decide_true in Hsk by done. simpl in Hsk.
  destruct (decide (bs = al)) as [|Hneq]; [by apply aligned_same|].
  rewrite bool_decide_true in Hsk by done. simpl in Hsk. apply bool_decide_eq_false in Hsk.
  by apply dec_stable.
Qed.

Lemma swa_loop_run m n rows :
  (m ≤ m0)%nat → searching m n rows →
  ∃ b n' rows', swa_loop hl gids bs al eagle needed (downto (Z.of_nat m)) n (cols rows) p =
      (Ret (b, n', cols rows'), p) ∧
    if b : bool then matched rows' n' else searching 0 n' rows'.
Proof.
  revert n rows. induction m as [|m IH]; intros n rows Hm Hs; [by exists false, n, rows|].
  rewrite downto_S. cbn [swa_loop].
  destruct (lookup_lt_is_Some_2 hs m) as [h Hh]; [lia|]. unfold of_outcome at 1.
  rewrite (hl_get_run hl hs m h) by done. erewrite run_bind by done.
  erewrite run_bind by apply cached_blocks_run. destruct (found h) as [row|] eqn:Hf.
  2:{ apply IH; [lia|]. by eapply searching_miss. }
  set (skip := bool_decide (n = 0) && bool_decide (bs ≠ al) &&
                bool_decide (¬ aligned bs al (Z.of_nat (S m) - extra))).
  erewrite (run_bind _ _ p skip).
  2:{ unfold skip. destruct (bool_decide (n = 0) && bool_decide (bs ≠ al)); [|done].
      erewrite run_bind by by apply pymod_run. unfold ret. do 2 f_equal. apply bool_decide_ext.
      unfold aligned. replace (if eagle then Z.of_nat m else Z.of_nat m + 1) with (Z.of_nat (S m) - extra); [done|].
      destruct eagle; lia. }
  destruct skip eqn:Hskip.
  - apply andb_prop in Hskip as [[->%bool_decide_eq_true _]%andb_prop Hna%bool_decide_eq_true].
    apply IH; [lia|]. by apply searching_skip.
  - rewrite cols_insert; [|by eapply found_length|by eapply rows_legal_ok, se_legal|rewrite (se_len _ _ _ Hs), Nat2Z.id; lia].
    rewrite Nat2Z.id. pose proof (searching_hit m n rows h row Hs Hh Hf) as Hhit.
    destruct (decide (needed ≤ n + 1)) as [Hd|Hd].
    + rewrite bool_decide_true by done. rewrite cols_take.
      2:{ eapply rows_legal_ok, rows_legal_insert; [by apply Hs|done..]. }
      eexists true, _, _. split; [done|]. apply Hhit. intros Hn0. by apply (not_skipped m n).
    + rewrite bool_decide_false by done. apply IH; [lia|]. apply Hhit. intros Hn0. by apply (not_skipped m n).
Qed.

(** The blocks a match needs, besides the one EAGLE drops. *)
Notation window := (Z.max 1 needed - extra).

Lemma legal_hit_blocks rows (k : nat) :
  rows_legal hs rows → (k ≤ length rows)%nat →
  (∀ i, 0 ≤ i → Z.of_nat k - window ≤ i < Z.of_nat k → filled hs rows i) →
  hit_blocks p gids hs (cols (take k rows)) (Z.of_nat k - window) (Z.of_nat k).
Proof.
  intros Hleg Hk Hf.
  replace (Z.of_nat k) with (Z.of_nat (length (take k rows))) at 2 by (rewrite length_take; lia).
  apply rows_hit_blocks; [by eapply rows_legal_ok, rows_legal_take|].
  intros i row [Hi Hlt]%lookup_take_Some. destruct (Hleg i row Hi) as (h & Hh & Hcase). exists h. split; [done|].
  destruct (decide (Z.of_nat i < Z.of_nat k - window)) as [|Hge]; [naive_solver|left].
  destruct (Hf (Z.of_nat i)) as (h' & row' & Hh' & Hf' & Hr'); [lia|lia|].
  rewrite Nat2Z.id in Hh', Hr'. congruence.
Qed.

Lemma usable_match_end max_length k :
  Z.of_nat m0 = max_length / bs → usable p gids hs bs al max_length window extra k → 0 < k → match_end (k + extra).
Proof.
  intros Hmax [->|(Hk & Ha & Hle & Hc)] Hk0; [lia|].
  assert (k + extra ≤ max_length / bs) by (apply Z.div_le_lower_bound; lia).
  split_and!; [destruct eagle; lia|lia|by rewrite Z.add_simpl_r|]. intros i Hi0 Hi. apply Hc; [done|lia].
Qed.

Lemma run_usable max_length (k : nat) :
  Z.of_nat m0 = max_length / bs → aligned bs al (Z.of_nat k) → Z.of_nat k + extra ≤ Z.of_nat m0 →
  (∀ i, 0 ≤ i → Z.of_nat k - window ≤ i < Z.of_nat k + extra → cached_at_idx p gids hs i) →
  usable p gids hs bs al max_length window extra (Z.of_nat k).
Proof.
  intros Hmax Ha Hle Hc. destruct (decide (k = 0%nat)) as [->|]; [by left|right].
  split_and!; [lia|done| |done]. pose proof (Z.mul_div_le max_length bs Hbs). nia.
Qed.

(** What the trimming after the search leaves. *)
Definition swa_tail (b : bool) (n : Z) (computed : hits) : P hits :=
  computed <- (if b then ret computed else align_down bs al (take (Z.to_nat n) <$> computed)) ;;
  '(popped, computed) <- eagle_pop eagle computed ;;
  if popped : bool then align_down bs al computed else ret computed.

Definition swa_result (max_length : Z) (res : outcome hits * BlockPool.t) : Prop :=
  ∃ r k, res = (Ret r, p) ∧ hit_blocks p gids hs r (k - window) k ∧
    usable p gids hs bs al max_length window extra k ∧
    (eagle = false ∨ bs = al → ∀ k', usable p gids hs bs al max_length window extra k' → k' ≤ k).

Lemma swa_tail_matched max_length n rows :
  Z.of_nat m0 = max_length / bs → matched rows n → swa_result max_length (swa_tail true n (cols rows) p).
Proof.
  intros Hmax [(He & Ha & Hc) Hleg Hn Hf Hbest]. assert (rows_ok rows) as Hok by by eapply rows_legal_ok.
  unfold swa_tail. erewrite run_bind by done. erewrite run_bind by by apply eagle_pop_cols.
  cbv beta iota.
  set (k := (length rows - if eagle then 1 else 0)%nat).
  assert (Z.of_nat k = Z.of_nat (length rows) - extra) as Hk by (unfold k; destruct eagle; lia).
  rewrite <-Hk in Ha.
  assert ((if eagle && bool_decide (rows ≠ []) then align_down bs al (cols (take k rows)) else ret (cols (take k rows))) p
    = (Ret (cols (take k rows)), p)) as ->.
  { destruct (eagle && _); [|done].
    destruct (align_down_cols bs al Hbs Hal (take k rows) p) as (k' & -> & Hk' & _ & Hm'); [by apply Forall_take|].
    rewrite length_take in Hk', Hm'. specialize (Hm' k ltac:(lia) Ha). rewrite take_take. do 4 f_equal. lia. }
  exists (cols (take k rows)), (Z.of_nat k). split; [done|]. split; [|split].
  - apply legal_hit_blocks; [done|lia|]. intros i Hi0 Hi. apply Hf; [done|destruct eagle; lia].
  - apply run_usable; [done..|lia|]. intros i Hi0 Hi. apply Hc; [done|destruct eagle; lia].
  - intros _ k' Hu. destruct (decide (0 < k')) as [Hk0|]; [|lia].
    pose proof (Hbest _ (usable_match_end max_length k' Hmax Hu Hk0)). lia.
Qed.

Lemma swa_tail_unmatched max_length n rows :
  Z.of_nat m0 = max_length / bs → searching 0 n rows → swa_result max_length (swa_tail false n (cols rows) p).
Proof.
  intros Hmax [Hlen Hleg (Hn & Hn0 & Hneed) Ha Hf Hbest].
  assert (rows_ok rows) as Hok by by eapply rows_legal_ok.
  unfold swa_tail. rewrite cols_take by done.
  destruct (align_down_cols bs al Hbs Hal (take (Z.to_nat n) rows) p) as (k1 & Hrun & Hk1 & Ha1 & Hm1);
    [by apply Forall_take|].
  rewrite length_take in Hk1, Hm1. rewrite take_take in Hrun. replace (k1 `min` Z.to_nat n)%nat with k1 in Hrun by lia.
  erewrite run_bind by exact Hrun.
  erewrite run_bind by (apply eagle_pop_cols; by apply Forall_take). cbv beta iota.
  rewrite length_take, take_take.
  set (k2 := (k1 `min` length rows - if eagle then 1 else 0)%nat).
  replace ((k2 `min` k1)%nat) with k2 by lia.
  assert (∃ k, (if eagle && bool_decide (take k1 rows ≠ []) then align_down bs al (cols (take k2 rows))
                else ret (cols (take k2 rows))) p = (Ret (cols (take k rows)), p) ∧ (k ≤ k2)%nat ∧
     aligned bs al (Z.of_nat k) ∧ (k = 0%nat ∨ Z.of_nat k + extra ≤ Z.of_nat k1) ∧
     (eagle = false ∨ bs = al → k = k2)) as (k & Hrun2 & Hk & Hak & Hke & Hkeq).
  { destruct (eagle && _) eqn:Heb.
    - apply andb_prop in Heb as [He _]. unfold k2. rewrite He.
      destruct (align_down_cols bs al Hbs Hal (take (k1 `min` length rows - 1) rows) p) as (k & Hr & Hk & Hak & Hmk);
        [by apply Forall_take|]. rewrite length_take in Hk, Hmk. rewrite take_take in Hr.
      exists k. rewrite Hr. split_and!; [do 4 f_equal; lia|lia|done|lia|].
      intros [?|Heq]; [done|]. specialize (Hmk (k1 `min` length rows - 1)%nat ltac:(lia) ltac:(by apply aligned_same)). lia.
    - exists k2. unfold k2. destruct eagle.
      + simpl in Heb. apply bool_decide_eq_false, dec_stable, (f_equal length) in Heb. rewrite length_take in Heb.
        simpl in Heb. split_and!; [done|lia| |lia|done]. replace (Z.of_nat _) with 0 by lia. done.
      + split_and!; [done|lia| |right; lia|done]. replace (Z.of_nat _) with (Z.of_nat k1) by lia. done. }
  rewrite Hrun2. exists (cols (take k rows)), (Z.of_nat k). split; [done|].
  assert (Z.of_nat k ≤ n) as Hkn by lia. split; [|split].
  - apply legal_hit_blocks; [done|lia|]. intros i Hi0 Hi. apply Hf. lia.
  - destruct Hke as [->|Hke]; [by left|]. apply run_usable; [done..|lia|].
    intros i Hi0 Hi. eapply filled_cached, Hf. lia.
  - intros Hcase k' Hu. specialize (Hkeq Hcase). destruct (decide (0 < k')) as [Hk0|]; [|lia].
    pose proof (Hbest _ (usable_match_end max_length k' Hmax Hu Hk0)) as Hle.
    assert (aligned bs al n) as Han.
    { destruct Hcase as [He| ->]; [|by apply aligned_same]. rewrite He in *.
      specialize (Ha ltac:(lia)). by replace (Z.of_nat 0 + n - 0) with n in Ha by lia. }
    specialize (Hm1 (Z.to_nat n) ltac:(lia)). rewrite Z2Nat.id in Hm1 by lia. specialize (Hm1 Han).
    unfold k2 in Hkeq. destruct eagle; lia.
Qed.
End swa.

Lemma swa_find_spec hl hs bs sw max_length use_eagle al spec :
  let extra := if use_eagle : bool then 1 else 0 in
  let window := Z.max 1 (ceil_div (sw - 1) bs + extra) - extra in
  spec = SlidingWindowSpec bs sw ∨ spec = SlidingWindowMLASpec bs sw →
  hash_seq hl hs → 0 < bs → 0 < al → 0 ≤ max_length → max_length / bs ≤ Z.of_nat (length hs) →
  ∃ res k, swa_find hl max_length gids spec use_eagle al 1 1 p = (Ret res, p) ∧
    hit_blocks p gids hs res (k - window) k ∧
    usable p gids hs bs al max_length window extra k ∧
    (use_eagle = false ∨ bs = al → ∀ k', usable p gids hs bs al max_length window extra k' → k' ≤ k).
Proof.
  intros extra window Hspec Hseq Hbs Hal Hlen Hhs.
  pose proof (Z.div_pos max_length bs ltac:(lia) Hbs) as Hpos.
  set (m := Z.to_nat (max_length / bs)). assert (Z.of_nat m = max_length / bs) as Hm by lia.
  set (needed := ceil_div (sw - 1) bs + extra).
  assert (swa_find hl max_length gids spec use_eagle al 1 1 p =
    ('(b, n, computed) <- swa_loop hl gids bs al use_eagle needed (downto (Z.of_nat m)) 0
        (cols (replicate m (replicate (length gids) (null_block p)))) ;; swa_tail bs al use_eagle b n computed) p) as ->.
  { rewrite <-cols_replicate. unfold m. rewrite Z2Nat.id by lia.
    destruct Hspec as [-> | ->]; unfold swa_find, assert_; rewrite bool_decide_true by done;
      do 2 (erewrite run_bind by done); erewrite run_bind by (by apply cdiv_run);
      erewrite run_bind by (by apply floordiv_run); unfold bind at 1, get, needed, extra;
      destruct use_eagle; rewrite ?Z.add_0_r; done. }
  destruct (swa_loop_run hl hs bs al use_eagle needed m Hseq Hbs Hal ltac:(lia) m 0
    (replicate m (replicate (length gids) (null_block p)))) as (b & n & rows & Hrun & Hb).
  - done.
  - split; try lia.
    + apply length_replicate.
    + intros i row [-> Hi]%lookup_replicate. destruct (lookup_lt_is_Some_2 hs i) as [h Hh]; [lia|]. eauto.
    + intros e [He _]. lia.
  - erewrite run_bind by exact Hrun. destruct b.
    + refine (swa_tail_matched _ _ _ _ _ _ _ _ _ _ _ _ _ Hb); first [done|lia].
    + refine (swa_tail_unmatched _ _ _ _ _ _ _ _ _ _ _ _ _ Hb); first [done|lia].
Qed.

(** ** Mamba *)
Lemma mamba_row (m : nat) row :
  length row = length gids →
  zip_with (λ c x, c ++ replicate m (null_block p) ++ [x]) (cols []) row =
  cols (replicate m (replicate (length gids) (null_block p)) ++ [row]).
Proof.
  intros Hl. apply cols_zip_with; [done|]. intros k b Hb. rewrite omap_app. csimpl. rewrite Hb. f_equal.
  apply lookup_lt_Some in Hb. clear -Hb Hl. induction m as [|m IH]; [done|]. csimpl.
  rewrite lookup_replicate_2 by lia. by rewrite <-IH.
Qed.

Lemma mamba_loop_run hl hs bs al m :
  hash_seq hl hs → 0 < bs → 0 < al → (m ≤ length hs)%nat →
  ∃ rows, mamba_loop hl gids bs al (downto (Z.of_nat m)) (cols []) p = (Ret (cols rows), p) ∧
    rows_legal hs rows ∧ (length rows ≤ m)%nat ∧
    (rows ≠ [] → aligned bs al (Z.of_nat (length rows)) ∧ filled hs rows (Z.of_nat (length rows) - 1)) ∧
    (∀ k, 0 < k ≤ Z.of_nat m → aligned bs al k → cached_at_idx p gids hs (k - 1) → k ≤ Z.of_nat (length rows)).
Proof.
  intros Hseq Hbs Hal. induction m as [|m IH]; intros Hm; [exists []; split_and!; [done|done|done|done|lia]|].
  destruct (IH ltac:(lia)) as (rows & Hrun & Hleg & Hl & Hlast & Hmax). rewrite downto_S. cbn [mamba_loop].
  destruct (lookup_lt_is_Some_2 hs m) as [h Hh]; [lia|]. unfold of_outcome at 1.
  rewrite (hl_get_run hl hs m h) by done. erewrite run_bind by done. erewrite run_bind by apply cached_blocks_run.
  assert (¬ (aligned bs al (Z.of_nat (S m)) ∧ cached_for p gids h) →
    ∀ k, 0 < k ≤ Z.of_nat (S m) → aligned bs al k → cached_at_idx p gids hs (k - 1) → k ≤ Z.of_nat (length rows))
    as Hskip.
  { intros Hno k Hk Ha Hc. destruct (decide (k = Z.of_nat (S m))) as [->|]; [|apply Hmax; [lia|done..]].
    destruct Hno. split; [done|]. destruct Hc as (h' & Hh' & Hc).
    replace (Z.to_nat (Z.of_nat (S m) - 1)) with m in Hh' by lia. by simplify_eq. }
  destruct (found h) as [row|] eqn:Hf.
  2:{ exists rows. split_and!; [done|done|lia|done|]. apply Hskip. intros [_ Hc%found_iff].
      rewrite Hf in Hc. by destruct Hc. }
  erewrite (run_bind _ _ p (bool_decide (¬ aligned bs al (Z.of_nat (S m))))).
  2:{ case_bool_decide as Hd.
    - erewrite run_bind by by apply pymod_run. unfold ret. do 2 f_equal. apply bool_decide_ext. unfold aligned.
      by replace (Z.of_nat (S m)) with (Z.of_nat m + 1) by lia.
    - unfold ret. rewrite bool_decide_false; [done|]. intros []. apply aligned_same; try done. }
  destruct (decide (aligned bs al (Z.of_nat (S m)))) as [Ha|Ha]; [rewrite bool_decide_false by tauto|].
  2:{ rewrite bool_decide_true by done. exists rows. split_and!; [done|done|lia|done|]. apply Hskip. naive_solver. }
  unfold bind, get, ret. rewrite Nat2Z.id, mamba_row by by eapply found_length.
  eexists. split; [done|]. rewrite length_app, length_replicate. simpl.
  replace (m + 1)%nat with (S m) by lia. split_and!; [|lia| |lia].
  - intros i row' [Hi|[Hi Hr]]%lookup_app_Some.
    + apply lookup_replicate in Hi as [-> Hi]. destruct (lookup_lt_is_Some_2 hs i) as [h' Hh']; [lia|]. eauto.
    + rewrite length_replicate in Hi, Hr. apply list_lookup_singleton_Some in Hr as [Hr <-].
      replace i with m by lia. eauto.
  - intros _. split; [done|]. exists h, row.
    replace (Z.to_nat (Z.of_nat (S m) - 1)) with m by lia. split_and!; [done|done|].
    rewrite lookup_app_r by (rewrite length_replicate; lia). by rewrite length_replicate, Nat.sub_diag.
Qed.

Lemma mamba_find_spec hl hs bs mode ns max_length use_eagle al :
  hash_seq hl hs → 0 < bs → 0 < al → 0 ≤ max_length → max_length / bs ≤ Z.of_nat (length hs) →
  ∃ res k, mamba_find hl max_length gids (MambaSpec bs mode ns) use_eagle al 1 1 p = (Ret res, p) ∧
    hit_blocks p gids hs res (k - 1) k ∧
    longest (usable p gids hs bs al max_length 1 0) k.
Proof.
  intros Hseq Hbs Hal Hlen Hhs. pose proof (Z.div_pos max_length bs ltac:(lia) Hbs) as Hpos.
  unfold mamba_find, assert_. rewrite bool_decide_true by done. do 2 (erewrite run_bind by done).
  erewrite run_bind by by apply floordiv_run.
  change ((λ _ : Z, []) <$> gids) with ((λ _ : Z, replicate 0 (null_block p)) <$> gids). rewrite cols_replicate.
  destruct (mamba_loop_run hl hs bs al (Z.to_nat (max_length / bs)) Hseq Hbs Hal) as (rows & Hrun & Hleg & Hl & Hlast & Hmax);
    [lia|]. rewrite Z2Nat.id in Hrun, Hmax by lia.
  exists (cols rows), (Z.of_nat (length rows)). split_and!; [done| |split].
  - apply rows_hit_blocks; [by eapply rows_legal_ok|]. intros i row Hi.
    destruct (Hleg i row Hi) as (h & Hh & Hcase). exists h. split; [done|].
    destruct (decide (Z.of_nat i < Z.of_nat (length rows) - 1)) as [|Hge]; [naive_solver|left].
    pose proof (lookup_lt_Some _ _ _ Hi). destruct Hlast as [_ (h' & row' & Hh' & Hf' & Hr')].
    { intros ->. done. }
    replace (Z.to_nat (Z.of_nat (length rows) - 1)) with i in Hh', Hr' by lia. congruence.
  - destruct (decide (rows = [])) as [->|Hnil]; [by left|right]. destruct (Hlast Hnil) as [Ha Hfl].
    destruct rows; [done|]. split_and!; [simpl; lia|done| |].
    + pose proof (Z.mul_div_le max_length bs Hbs). nia.
    + intros i Hi0 Hi. replace i with (Z.of_nat (length (l0 :: rows)) - 1) by lia. by eapply filled_cached.
  - intros k' [->|(Hk & Ha & Hle & Hc)]; [lia|]. apply Hmax; [|done|apply Hc; lia].
    split; [done|]. apply Z.div_le_lower_bound; lia.
Qed.

(** ** Chunked local attention *)
Lemma chunked_loop_run hl hs start n rows :
  hash_seq hl hs → (start + n ≤ length hs)%nat →
  ∃ rows', chunked_loop hl gids (seqZ (Z.of_nat start) (Z.of_nat n)) (cols rows) p = (Ret (cols (rows ++ rows')), p) ∧
    (length rows' ≤ n)%nat ∧
    (∀ i row, rows' !! i = Some row → ∃ h, hs !! (start + i)%nat = Some h ∧ found h = Some row) ∧
    ((length rows' < n)%nat → ∃ h, hs !! (start + length rows')%nat = Some h ∧ found h = None).
Proof.
  intros Hseq. revert start rows. induction n as [|n IH]; intros start rows Hn.
  { exists []. rewrite app_nil_r. split_and!; try done. simpl. lia. }
  rewrite seqZ_cons by lia. replace (Z.succ (Z.of_nat start)) with (Z.of_nat (S start)) by lia.
  replace (Z.pred (Z.of_nat (S n))) with (Z.of_nat n) by lia. cbn [chunked_loop].
  destruct (lookup_lt_is_Some_2 hs start) as [h Hh]; [lia|]. unfold of_outcome at 1.
  rewrite (hl_get_run hl hs start h) by done. erewrite run_bind by done. erewrite run_bind by apply cached_blocks_run.
  destruct (found h) as [row|] eqn:Hf.
  - rewrite cols_snoc by by eapply found_length.
    destruct (IH (S start) (rows ++ [row]) ltac:(lia)) as (rows' & Hrun & Hl & Hr & Hn').
    exists (row :: rows'). rewrite Hrun, <-app_assoc. split_and!; [done|simpl; lia| |].
    + intros [|i] row' Hi; simpl in Hi.
      * simplify_eq. rewrite Nat.add_0_r. eauto.
      * replace (start + S i)%nat with (S start + i)%nat by lia. by apply Hr.
    + intros Hlt. simpl in *. replace (start + S (length rows'))%nat with (S (start + length rows'))%nat by lia.
      apply Hn'. lia.
  - exists []. rewrite app_nil_r. split_and!; [done|simpl; lia|done|]. intros _. rewrite Nat.add_0_r. eauto.
Qed.

Lemma chunked_find_spec hl hs bs chunk max_length :
  let start := max_length / chunk * chunk / bs in
  hash_seq hl hs → 0 < bs → 0 < chunk → 0 ≤ max_length → max_length / bs ≤ Z.of_nat (length hs) →
  ∃ res k, chunked_find hl max_length gids (ChunkedLocalAttentionSpec bs chunk) false bs 1 1 p = (Ret res, p) ∧
    hit_blocks p gids hs res start k ∧
    longest (λ k, k = start ∨ start < k ∧ k * bs ≤ max_length ∧
                  ∀ i, start ≤ i < k → cached_at_idx p gids hs i) k.
Proof.
  intros start Hseq Hbs Hch Hlen Hhs. pose proof (Z.div_pos max_length bs ltac:(lia) Hbs) as Hpos.
  assert (0 ≤ start ≤ max_length / bs) as Hst.
  { pose proof (Z.mul_div_le max_length chunk Hch). pose proof (Z.div_pos max_length chunk Hlen Hch). split.
    - apply Z.div_pos; nia.
    - apply Z.div_le_mono; nia. }
  unfold chunked_find, assert_. rewrite !bool_decide_true by done. do 4 (erewrite run_bind by done).
  erewrite run_bind by by apply floordiv_run.
  erewrite (run_bind _ _ p (max_length / chunk * chunk)).
  2:{ case_bool_decide; [by erewrite run_bind by by apply floordiv_run|].
      replace max_length with 0 by lia. done. }
  erewrite run_bind by by apply floordiv_run. fold start. unfold bind, get. rewrite cols_replicate.
  set (n := Z.to_nat (max_length / bs - start)). set (st := Z.to_nat start).
  replace (seqZ start (max_length / bs - start)) with (seqZ (Z.of_nat st) (Z.of_nat n)) by (f_equal; lia).
  destruct (chunked_loop_run hl hs st n (replicate st (replicate (length gids) (null_block p))) Hseq)
    as (rows & Hrun & Hl & Hr & Hn); [lia|].
  assert (∀ i, start ≤ i < start + Z.of_nat (length rows) → cached_at_idx p gids hs i) as Hc.
  { intros i Hi. destruct (lookup_lt_is_Some_2 rows (Z.to_nat i - st)) as [row Hrow]; [lia|].
    destruct (Hr _ _ Hrow) as (h & Hh & Hf). exists h. replace (st + (Z.to_nat i - st))%nat with (Z.to_nat i) in Hh by lia.
    split; [done|]. apply found_iff. by rewrite Hf. }
  eexists _, _. split; [exact Hrun|]. split.
  - apply rows_hit_blocks.
    { apply Forall_app. split; [apply Forall_replicate, length_replicate|].
      apply Forall_lookup. intros i row (h & _ & Hf)%Hr. by eapply found_length. }
    intros i row [Hi|[Hi Hrow]]%lookup_app_Some.
    + apply lookup_replicate in Hi as [-> Hi]. destruct (lookup_lt_is_Some_2 hs i) as [h Hh]; [lia|].
      exists h. split; [done|]. right. split; [done|lia].
    + rewrite length_replicate in Hi, Hrow. destruct (Hr _ _ Hrow) as (h & Hh & Hf).
      replace (st + (i - st))%nat with i in Hh by lia. eauto.
  - rewrite length_app, length_replicate. replace (Z.of_nat (st + length rows)) with (start + Z.of_nat (length rows)) by lia.
    split.
    + destruct (decide (length rows = 0%nat)) as [->|]; [left; lia|right]. split_and!; [lia| |done].
      pose proof (Z.mul_div_le max_length bs Hbs). nia.
    + intros k' [->|(Hk & Hle & Hck)]; [lia|].
      assert (k' ≤ max_length / bs) as Hdiv by (apply Z.div_le_lower_bound; lia).
      destruct (decide (k' ≤ start + Z.of_nat (length rows))) as [|Hgt]; [done|exfalso].
      destruct Hn as (h & Hh & Hf); [lia|].
      destruct (Hck (start + Z.of_nat (length rows))) as (h' & Hh' & Hcf); [lia|].
      replace (Z.to_nat (start + Z.of_nat (length rows))) with (st + length rows)%nat in Hh' by lia. simplify_eq.
      apply found_iff in Hcf as [??]. congruence.
Qed.
End hits.

(** ** The theorems *)
Section theorems.
Context (p : BlockPool.t) (l : list ref) (gids : list Z) (hl : hash_list) (hs : list bytes) (max_length : Z).

(** What every caller passes: a pool between method calls, some groups with ids of
    32 bits, the hashes of the request, and a length. *)
Definition search_ok : Prop :=
  pool_inv p l [] ∧ gids ≠ [] ∧ (∀ g, g ∈ gids → 0 ≤ g < 2 ^ 32) ∧ hash_seq hl hs ∧ 0 ≤ max_length.

(** C22: for full attention [find_longest_cache_hit] returns for every group the
    blocks of the longest prefix, within [max_length] and aligned, of which all
    blocks are cached for all groups; with EAGLE the longest whose next block is
    cached too. Every block returned carries the hash of its position for its
    group, and the pool is unchanged. *)
Theorem full_find_correct spec use_eagle al dcp pcp :
  let bs := if bool_decide (1 < dcp * pcp) then spec_block_size spec * (dcp * pcp) else spec_block_size spec in
  let extra := if use_eagle : bool then 1 else 0 in
  search_ok → full_or_chunked spec = true → 0 < bs → 0 < al →
  ∃ res k, find_longest_cache_hit FullAttentionManager hl max_length gids spec use_eagle al dcp pcp p = (Ret res, p) ∧
    hit_blocks p gids hs res 0 k ∧
    longest (λ k, usable p gids hs bs al max_length k extra k) k.
Proof. intros bs extra (Hp & Hne & Hg & Hseq & Hlen) Hspec Hbs Hal. by eapply full_find_spec. Qed.

(** C25: for sliding-window attention the search returns a prefix whose blocks
    inside the window (and with EAGLE the next one) are all cached, with null blocks
    at most before the window; without EAGLE, or when the alignment is the block
    size, it is the longest such aligned prefix. *)
Theorem swa_find_correct spec bs sw use_eagle al :
  let extra := if use_eagle : bool then 1 else 0 in
  let window := Z.max 1 (ceil_div (sw - 1) bs + extra) - extra in
  search_ok → spec = SlidingWindowSpec bs sw ∨ spec = SlidingWindowMLASpec bs sw →
  0 < bs → 0 < al → max_length / bs ≤ Z.of_nat (length hs) →
  ∃ res k, find_longest_cache_hit SlidingWindowManager hl max_length gids spec use_eagle al 1 1 p = (Ret res, p) ∧
    hit_blocks p gids hs res (k - window) k ∧
    usable p gids hs bs al max_length window extra k ∧
    (use_eagle = false ∨ bs = al → ∀ k', usable p gids hs bs al max_length window extra k' → k' ≤ k).
Proof. intros extra window (Hp & Hne & Hg & Hseq & Hlen) Hspec Hbs Hal Hhs. by eapply swa_find_spec. Qed.

(** C11: for Mamba layers, without EAGLE, the search returns the longest aligned prefix
    whose last block, the only state needed, is cached, padded with null blocks. *)
Theorem mamba_find_correct bs mode ns al :
  search_ok → 0 < bs → 0 < al → max_length / bs ≤ Z.of_nat (length hs) →
  ∃ res k, find_longest_cache_hit MambaManager hl max_length gids (MambaSpec bs mode ns) false al 1 1 p =
      (Ret res, p) ∧
    hit_blocks p gids hs res (k - 1) k ∧ longest (usable p gids hs bs al max_length 1 0) k.
Proof. intros (Hp & Hne & Hg & Hseq & Hlen) Hbs Hal Hhs. by eapply mamba_find_spec. Qed.

(** C34: for chunked local attention the blocks before the current chunk count as
    computed and are null; from there on the search returns the longest run of
    cached blocks. *)
Theorem chunked_find_correct bs chunk :
  let start := max_length / chunk * chunk / bs in
  search_ok → 0 < bs → 0 < chunk → max_length / bs ≤ Z.of_nat (length hs) →
  ∃ res k, find_longest_cache_hit ChunkedLocalAttentionManager hl max_length gids
      (ChunkedLocalAttentionSpec bs chunk) false bs 1 1 p = (Ret res, p) ∧
    hit_blocks p gids hs res start k ∧
    longest (λ k, k = start ∨ start < k ∧ k * bs ≤ max_length ∧
                  ∀ i, start ≤ i < k → cached_at_idx p gids hs i) k.
Proof. intros start (Hp & Hne & Hg & Hseq & Hlen) Hbs Hch Hhs. by eapply chunked_find_spec. Qed.
End theorems.
