(* ===== verification/SingleType.v ===== *)
(** * The single-type KV-cache managers

    [SingleTypeKVCacheManager] and its subclasses of
    src/vllm/v1/core/single_type_kv_cache_manager.py: which blocks each request
    holds in one KV-cache group, over the shared block pool. A method that a
    subclass overrides dispatches on the class of the manager. The search for cache
    hits is in CacheHit. *)

From S2P Require Import Prelude OrderedDict FreeQueue BlockHash BlockPool CacheHit.

Open Scope Z_scope.

Record t := mk {
  kv_cache_spec : KVCacheSpec;
  block_size : Z;
  enable_caching : bool;
  max_admission_blocks_per_request : option Z;
  new_block_ids : list Z;
  req_to_blocks : gmap string (list ref);
  num_cached_block : gmap string Z;
  kv_cache_group_id : Z;
  null_block : ref;
  (** the attributes of [MambaManager] *)
  cached_blocks_this_step : gset (list Z);
  last_state_block_idx : gmap string Z;
  allocated_block_reqs : gset string;
  (** of [SinkFullAttentionManager] *)
  sink_blocks : list ref
}.

Definition cls (s : t) : manager_class := spec_manager_map (kv_cache_spec s).

Definition with_blocks b (s : t) : t :=
  mk (kv_cache_spec s) (block_size s) (enable_caching s) (max_admission_blocks_per_request s) (new_block_ids s) b
     (num_cached_block s) (kv_cache_group_id s) (null_block s) (cached_blocks_this_step s)
     (last_state_block_idx s) (allocated_block_reqs s) (sink_blocks s).
Definition with_cached c (s : t) : t :=
  mk (kv_cache_spec s) (block_size s) (enable_caching s) (max_admission_blocks_per_request s) (new_block_ids s)
     (req_to_blocks s) c (kv_cache_group_id s) (null_block s) (cached_blocks_this_step s)
     (last_state_block_idx s) (allocated_block_reqs s) (sink_blocks s).
Definition with_new_ids n (s : t) : t :=
  mk (kv_cache_spec s) (block_size s) (enable_caching s) (max_admission_blocks_per_request s) n
     (req_to_blocks s) (num_cached_block s) (kv_cache_group_id s) (null_block s) (cached_blocks_this_step s)
     (last_state_block_idx s) (allocated_block_reqs s) (sink_blocks s).
Definition with_mamba step idx reqs (s : t) : t :=
  mk (kv_cache_spec s) (block_size s) (enable_caching s) (max_admission_blocks_per_request s) (new_block_ids s)
     (req_to_blocks s) (num_cached_block s) (kv_cache_group_id s) (null_block s) step idx reqs (sink_blocks s).

(** A manager and the block pool it shares. *)
Notation S := (t * BlockPool.t)%type.
Definition self : M S t := gets fst.
Definition update_self (f : t → t) : M S unit := modify (λ s, (f s.1, s.2)).
Definition on_pool {A} (m : M BlockPool.t A) : M S A := zoom snd (λ p s, (s.1, p)) m.

(** [self.req_to_blocks[request_id]]: a [defaultdict] inserts the empty list. *)
Definition blocks_of (request_id : string) : M S (list ref) :=
  s <- self ;;
  match req_to_blocks s !! request_id with
  | Some bs => ret bs
  | None => update_self (with_blocks (<[request_id := []]> (req_to_blocks s))) ;; ret []
  end.
Definition set_blocks (request_id : string) (bs : list ref) : M S unit :=
  update_self (λ s, with_blocks (<[request_id := bs]> (req_to_blocks s)) s).

(** ** Tokens outside the attention window *)
Definition get_num_skipped_tokens (num_computed_tokens : Z) : M S Z :=
  s <- self ;;
  match kv_cache_spec s with
  | SlidingWindowSpec _ w | SlidingWindowMLASpec _ w => ret (Z.max 0 (num_computed_tokens - w + 1))
  | ChunkedLocalAttentionSpec _ c => q <- floordiv num_computed_tokens c ;; ret (q * c)
  | MambaSpec _ _ _ => ret (num_computed_tokens - 1)
  | _ => ret 0
  end.

(** ** How many blocks an allocation takes *)
Definition is_evictable (p : BlockPool.t) (b : ref) : bool :=
  bool_decide (ref_cnt (BlockPool.obj p b) = 0) && negb (is_null (BlockPool.obj p b)).
Definition _get_num_evictable_blocks (p : BlockPool.t) (bs : list ref) : Z :=
  Z.of_nat (length (filter (λ b, is_evictable p b = true) bs)).

Definition base_num_blocks_to_allocate (request_id : string) (num_tokens : Z)
    (new_computed_blocks : list ref) (total_computed_tokens num_tokens_main_model : Z)
    (apply_admission_cap : bool) : M S Z :=
  s <- self ;;
  num_required_blocks <- cdiv num_tokens (block_size s) ;;
  let num_required_blocks :=
    match max_admission_blocks_per_request s with
    | Some cap => if apply_admission_cap then Z.min num_required_blocks cap else num_required_blocks
    | None => num_required_blocks
    end in
  let num_req_blocks := Z.of_nat (length (default [] (req_to_blocks s !! request_id))) in
  if bool_decide (is_Some (num_cached_block s !! request_id)) then
    assert_ (bool_decide (new_computed_blocks = [])) ;;
    ret (Z.max (num_required_blocks - num_req_blocks) 0)
  else
    num_skipped_tokens <- get_num_skipped_tokens total_computed_tokens ;;
    let num_local_computed_blocks := Z.of_nat (length new_computed_blocks) + num_req_blocks in
    num_skipped_blocks <- floordiv num_skipped_tokens (block_size s) ;;
    let num_new_blocks :=
      Z.max (num_required_blocks - Z.max num_skipped_blocks num_local_computed_blocks) 0 in
    let num_skipped_new_computed_blocks := Z.max 0 (num_skipped_blocks - num_req_blocks) in
    p <- gets snd ;;
    ret (num_new_blocks +
         _get_num_evictable_blocks p (drop (Z.to_nat num_skipped_new_computed_blocks) new_computed_blocks)).

Definition mamba_num_blocks_to_allocate (mode : string) (spec_block_size num_speculative_blocks : Z)
    (request_id : string) (num_tokens : Z) (new_computed_blocks : list ref)
    (total_computed_tokens num_tokens_main_model : Z) (apply_admission_cap : bool) : M S Z :=
  '(s, p) <- get ;;
  if match last new_computed_blocks with
     | Some b => match block_hash (BlockPool.obj p b) with
                 | Some h => bool_decide (h ∈ cached_blocks_this_step s)
                 | None => false
                 end
     | None => false
     end
  then ret (BlockPool.num_gpu_blocks p + 1)
  else if negb (String.eqb mode "align") then
    let num_tokens := if bool_decide (0 < num_speculative_blocks)
                      then num_tokens + spec_block_size * num_speculative_blocks else num_tokens in
    base_num_blocks_to_allocate request_id num_tokens new_computed_blocks total_computed_tokens
      num_tokens_main_model apply_admission_cap
  else
    n <- cdiv num_tokens_main_model (block_size s) ;;
    let num_required_blocks := n + num_speculative_blocks in
    req_blocks <- blocks_of request_id ;;
    let num_new_blocks := num_required_blocks - Z.of_nat (length new_computed_blocks)
                          - Z.of_nat (length req_blocks) in
    let num_new_blocks :=
      if bool_decide (0 < num_new_blocks)
      then if bool_decide (request_id ∈ allocated_block_reqs s) then 1 else 1 + num_speculative_blocks
      else num_new_blocks in
    ret (num_new_blocks + _get_num_evictable_blocks p new_computed_blocks).

Definition get_num_blocks_to_allocate (request_id : string) (num_tokens : Z)
    (new_computed_blocks : list ref) (total_computed_tokens num_tokens_main_model : Z)
    (apply_admission_cap : bool) : M S Z :=
  s <- self ;;
  match kv_cache_spec s with
  | MambaSpec bs mode ns =>
      mamba_num_blocks_to_allocate mode bs ns request_id num_tokens new_computed_blocks
        total_computed_tokens num_tokens_main_model apply_admission_cap
  | _ =>
      base_num_blocks_to_allocate request_id num_tokens new_computed_blocks total_computed_tokens
        num_tokens_main_model apply_admission_cap
  end.

(** [type(self.kv_cache_spec) in (FullAttentionSpec, TQFullAttentionSpec)] *)
Definition records_new_ids (spec : KVCacheSpec) : bool :=
  match spec with FullAttentionSpec _ | TQFullAttentionSpec _ => true | _ => false end.

(** [req_blocks.extend(new)], with the ids of new blocks recorded for some specs *)
Definition extend_new (request_id : string) (new_blocks : list ref) : M S unit :=
  bs <- blocks_of request_id ;;
  set_blocks request_id (bs ++ new_blocks) ;;
  '(s, p) <- get ;;
  if records_new_ids (kv_cache_spec s)
  then update_self (with_new_ids (new_block_ids s ++ (BlockPool.id_of p <$> new_blocks)))
  else ret tt.

(** ** Taking over cache hits *)
Definition base_allocate_new_computed_blocks (request_id : string) (new_computed_blocks : list ref)
    (num_local_computed_tokens num_external_computed_tokens : Z) : M S unit :=
  s <- self ;;
  if bool_decide (is_Some (num_cached_block s !! request_id))
  then assert_ (bool_decide (new_computed_blocks = []))
  else
    req_blocks <- blocks_of request_id ;;
    assert_ (bool_decide (req_blocks = [])) ;;
    let num_total_computed_tokens := num_local_computed_tokens + num_external_computed_tokens in
    num_skipped_tokens <- get_num_skipped_tokens num_total_computed_tokens ;;
    num_skipped_blocks <- floordiv num_skipped_tokens (block_size s) ;;
    let skips := bool_decide (0 < num_skipped_blocks) in
    let new_computed_blocks :=
      if skips then drop (Z.to_nat num_skipped_blocks) new_computed_blocks else new_computed_blocks in
    let num_external_computed_tokens :=
      if skips then Z.min (num_total_computed_tokens - num_skipped_tokens) num_external_computed_tokens
      else num_external_computed_tokens in
    (if enable_caching s then on_pool (BlockPool.touch new_computed_blocks)
     else assert_ (bool_decide (new_computed_blocks = []))) ;;
    let req_blocks := replicate (Z.to_nat num_skipped_blocks) (null_block s) ++ new_computed_blocks in
    set_blocks request_id req_blocks ;;
    update_self (λ s, with_cached (<[request_id := Z.of_nat (length req_blocks)]> (num_cached_block s)) s) ;;
    if bool_decide (0 < num_external_computed_tokens) then
      n <- cdiv num_total_computed_tokens (block_size s) ;;
      allocated_blocks <- on_pool (BlockPool.get_new_blocks (n - Z.of_nat (length req_blocks))) ;;
      extend_new request_id allocated_blocks
    else ret tt.

Definition allocate_new_computed_blocks (request_id : string) (new_computed_blocks : list ref)
    (num_local_computed_tokens num_external_computed_tokens : Z) : M S unit :=
  s <- self ;;
  match cls s with
  | CrossAttentionManager => assert_ (bool_decide (new_computed_blocks = []))
  | _ => base_allocate_new_computed_blocks request_id new_computed_blocks num_local_computed_tokens
           num_external_computed_tokens
  end.

(** ** Allocating new blocks *)
Definition base_allocate_new_blocks (request_id : string) (num_tokens : Z) : M S (list ref) :=
  req_blocks <- blocks_of request_id ;;
  s <- self ;;
  num_required_blocks <- cdiv num_tokens (block_size s) ;;
  let num_new_blocks := num_required_blocks - Z.of_nat (length req_blocks) in
  if bool_decide (num_new_blocks ≤ 0) then ret []
  else
    new_blocks <- on_pool (BlockPool.get_new_blocks num_new_blocks) ;;
    extend_new request_id new_blocks ;;
    ret new_blocks.

(** The loop that reuses the speculative blocks of the previous step. *)
Fixpoint reuse_loop (request_id : string) (num_skipped_blocks : Z) (idxs : list Z) : M S unit :=
  match idxs with
  | [] => ret tt
  | block_idx :: idxs' =>
      if bool_decide (block_idx < num_skipped_blocks) then
        s <- self ;;
        req_blocks <- blocks_of request_id ;;
        b <- of_option IndexError (list_get req_blocks block_idx) ;;
        req_blocks' <- of_option IndexError (list_set (req_blocks ++ [b]) block_idx (null_block s)) ;;
        set_blocks request_id req_blocks' ;;
        reuse_loop request_id num_skipped_blocks idxs'
      else ret tt
  end.

Definition mamba_align_allocate (request_id : string) (num_tokens num_speculative_blocks : Z) : M S (list ref) :=
  req_blocks <- blocks_of request_id ;;
  s <- self ;;
  n <- cdiv num_tokens (block_size s) ;;
  let num_required_blocks := n + num_speculative_blocks in
  let prev_block_len := Z.of_nat (length req_blocks) in
  if bool_decide (num_required_blocks = prev_block_len) then ret []
  else
    assert_ (bool_decide (prev_block_len < num_required_blocks)) ;;
    let blocks_allocated := bool_decide (request_id ∈ allocated_block_reqs s) in
    (if blocks_allocated then
       update_self (λ s, with_mamba (cached_blocks_this_step s)
         (<[request_id := prev_block_len - 1 - num_speculative_blocks]> (last_state_block_idx s))
         (allocated_block_reqs s) s)
     else if bool_decide (0 < prev_block_len) then
       update_self (λ s, with_mamba (cached_blocks_this_step s)
         (<[request_id := prev_block_len - 1]> (last_state_block_idx s)) (allocated_block_reqs s) s)
     else ret tt) ;;
    let num_skipped_blocks := num_required_blocks - num_speculative_blocks - 1 in
    (if bool_decide (prev_block_len < num_skipped_blocks)
     then set_blocks request_id
            (req_blocks ++ replicate (Z.to_nat (num_skipped_blocks - prev_block_len)) (null_block s))
     else ret tt) ;;
    (if blocks_allocated
     then reuse_loop request_id num_skipped_blocks
            (seqZ (prev_block_len - num_speculative_blocks) num_speculative_blocks)
     else ret tt) ;;
    req_blocks <- blocks_of request_id ;;
    let num_new_blocks := num_required_blocks - Z.of_nat (length req_blocks) in
    (if blocks_allocated then assert_ (bool_decide (num_new_blocks ≤ 1))
     else assert_ (bool_decide (num_new_blocks ≤ num_speculative_blocks + 1))) ;;
    new_blocks <- on_pool (BlockPool.get_new_blocks num_new_blocks) ;;
    set_blocks request_id (req_blocks ++ new_blocks) ;;
    update_self (λ s, with_mamba (cached_blocks_this_step s) (last_state_block_idx s)
      ({[ request_id ]} ∪ allocated_block_reqs s) s) ;;
    ret (drop (Z.to_nat prev_block_len) (req_blocks ++ new_blocks)).

Definition allocate_new_blocks (request_id : string) (num_tokens num_tokens_main_model : Z) : M S (list ref) :=
  s <- self ;;
  match kv_cache_spec s with
  | MambaSpec _ mode ns =>
      if negb (String.eqb mode "align") then
        base_allocate_new_blocks request_id
          (if bool_decide (0 < ns) then num_tokens + block_size s * ns else num_tokens)
      else mamba_align_allocate request_id num_tokens_main_model ns
  | _ => base_allocate_new_blocks request_id num_tokens
  end.

Definition take_new_block_ids : M S (list Z) :=
  s <- self ;; update_self (with_new_ids []) ;; ret (new_block_ids s).

(** ** Releasing blocks *)
Definition base_free (request_id : string) : M S unit :=
  s <- self ;;
  let req_blocks := default [] (req_to_blocks s !! request_id) in
  update_self (with_blocks (delete request_id (req_to_blocks s))) ;;
  on_pool (BlockPool.free_blocks (rev req_blocks)) ;;
  update_self (λ s, with_cached (delete request_id (num_cached_block s)) s).

Definition free (request_id : string) : M S unit :=
  s <- self ;;
  (match kv_cache_spec s with
   | MambaSpec _ mode _ =>
       if String.eqb mode "align" then
         update_self (λ s, with_mamba (cached_blocks_this_step s) (delete request_id (last_state_block_idx s))
           (allocated_block_reqs s ∖ {[ request_id ]}) s)
       else ret tt
   | _ => ret tt
   end) ;;
  base_free request_id.

(** The loop of [remove_skipped_blocks] over the indices [n - 1] down to [0]: the
    blocks taken out, and the list with null blocks in their place. *)
Fixpoint remove_loop (null : ref) (n : nat) (blocks : list ref) : list ref * list ref :=
  match n with
  | O => ([], blocks)
  | Datatypes.S i =>
      match blocks !! i with
      | Some b =>
          if bool_decide (b = null) then ([], blocks)
          else let '(removed, blocks') := remove_loop null i (<[i := null]> blocks) in (b :: removed, blocks')
      | None => ([], blocks)
      end
  end.

Definition base_remove_skipped_blocks (request_id : string) (total_computed_tokens : Z) : M S unit :=
  num_skipped_tokens <- get_num_skipped_tokens total_computed_tokens ;;
  if bool_decide (num_skipped_tokens ≤ 0) then ret tt
  else
    blocks <- blocks_of request_id ;;
    s <- self ;;
    num_skipped_blocks <- floordiv num_skipped_tokens (block_size s) ;;
    let num_skipped_blocks := Z.min num_skipped_blocks (Z.of_nat (length blocks)) in
    let '(removed_blocks, blocks) := remove_loop (null_block s) (Z.to_nat num_skipped_blocks) blocks in
    set_blocks request_id blocks ;;
    on_pool (BlockPool.free_blocks removed_blocks).

Definition remove_skipped_blocks (request_id : string) (num_computed_tokens : Z) : M S unit :=
  s <- self ;;
  match kv_cache_spec s with
  | MambaSpec _ mode ns =>
      let num_computed_tokens := Z.max 0 (num_computed_tokens - ns) in
      base_remove_skipped_blocks request_id num_computed_tokens ;;
      if String.eqb mode "align" then
        match last_state_block_idx s !! request_id with
        | None => ret tt
        | Some idx =>
            n <- cdiv num_computed_tokens (block_size s) ;;
            if bool_decide (idx < n - 1) then
              blocks <- blocks_of request_id ;;
              b <- of_option IndexError (list_get blocks idx) ;;
              if bool_decide (b ≠ null_block s) then
                on_pool (BlockPool.free_blocks [b]) ;;
                blocks' <- of_option IndexError (list_set blocks idx (null_block s)) ;;
                set_blocks request_id blocks'
              else ret tt
            else ret tt
        end
      else ret tt
  | _ => base_remove_skipped_blocks request_id num_computed_tokens
  end.

Fixpoint count_common (p : BlockPool.t) (n : Z) (bs : list ref) : Z :=
  match bs with
  | [] => 0
  | b :: bs' => if bool_decide (ref_cnt (BlockPool.obj p b) = n) then 1 + count_common p n bs' else 0
  end.
Definition get_num_common_prefix_blocks (running_request_id : string) : M S Z :=
  s <- self ;;
  match cls s with
  | FullAttentionManager | SinkFullAttentionManager =>
      blocks <- blocks_of running_request_id ;;
      '(s, p) <- get ;;
      ret (count_common p (Z.of_nat (size (req_to_blocks s))) blocks)
  | _ => ret 0
  end.

Definition new_step_starts : M S unit :=
  s <- self ;;
  match cls s with
  | MambaManager => update_self (λ s, with_mamba ∅ (last_state_block_idx s) (allocated_block_reqs s) s)
  | _ => ret tt
  end.

(** ** Caching full blocks *)
Section caching.
Context (embeds_digest : list Z → bytes).
Notation SR := (S * Request)%type.

Definition on_self {A} (m : M S A) : M SR A := zoom fst (λ s x, (s, x.2)) m.
(** The pool and the request, which [BlockPool.cache_full_blocks] works on. *)
Definition on_pool_request {A} (m : M (BlockPool.t * Request) A) : M SR A :=
  zoom (λ x, (x.1.2, x.2)) (λ y x, ((x.1.1, y.1), y.2)) m.

Definition _cache_block_mask (num_cached_blocks num_full_blocks alignment_tokens : Z) : M S (option (list bool)) :=
  s <- self ;;
  match kv_cache_spec s with
  | SlidingWindowSpec _ sliding_window | SlidingWindowMLASpec _ sliding_window =>
      assert_ (bool_decide (block_size s < alignment_tokens)) ;;
      per_segment <- floordiv alignment_tokens (block_size s) ;;
      tail <- cdiv (sliding_window - 1) (block_size s) ;;
      if bool_decide (per_segment ≤ tail) then ret None
      else
        let skip := per_segment - tail in
        mask <- for_collect (seqZ num_cached_blocks (num_full_blocks - num_cached_blocks))
                  (λ i, m <- pymod i per_segment ;; ret (bool_decide (skip ≤ m))) ;;
        ret (Some mask)
  | _ => ret None
  end.

Definition base_cache_blocks (request_id : string) (num_tokens : Z) (alignment_tokens : option Z) : M SR unit :=
  s <- on_self self ;;
  let num_cached_blocks := default 0 (num_cached_block s !! request_id) in
  num_full_blocks <- floordiv num_tokens (block_size s) ;;
  if bool_decide (num_full_blocks ≤ num_cached_blocks) then ret tt
  else
    block_mask <- match alignment_tokens with
                  | None => ret None
                  | Some a =>
                      if bool_decide (a ≤ block_size s) then ret None
                      else on_self (_cache_block_mask num_cached_blocks num_full_blocks a)
                  end ;;
    blocks <- on_self (blocks_of request_id) ;;
    on_pool_request (BlockPool.cache_full_blocks embeds_digest blocks num_cached_blocks num_full_blocks
                       (block_size s) (kv_cache_group_id s) block_mask) ;;
    on_self (update_self (λ s, with_cached (<[request_id := num_full_blocks]> (num_cached_block s)) s)).

(** The hashes of the blocks that the step has just cached. *)
Definition note_cached (b : ref) : M S unit :=
  '(s, p) <- get ;;
  if is_null (BlockPool.obj p b) then ret tt
  else
    match block_hash (BlockPool.obj p b) with
    | None => raise AssertionError
    | Some h => update_self (λ s, with_mamba ({[ h ]} ∪ cached_blocks_this_step s) (last_state_block_idx s)
                                    (allocated_block_reqs s) s)
    end.

Definition cache_blocks (request_id : string) (num_tokens : Z) (alignment_tokens : option Z) : M SR unit :=
  s <- on_self self ;;
  match cls s with
  | CrossAttentionManager => raise ValueError
  | MambaManager =>
      let before := default 0 (num_cached_block s !! request_id) in
      base_cache_blocks request_id num_tokens alignment_tokens ;;
      s <- on_self self ;;
      let after := default 0 (num_cached_block s !! request_id) in
      if bool_decide (before < after) then
        bs <- on_self (blocks_of request_id) ;;
        on_self (for_each (py_slice bs before after) note_cached)
      else ret tt
  | _ => base_cache_blocks request_id num_tokens alignment_tokens
  end.
End caching.

(** ** Construction *)

(** [max_admission_blocks_per_request] of the two specs that recycle blocks *)
Definition admission_cap (spec : KVCacheSpec) (max_num_batched_tokens max_model_len : Z) : outcome (option Z) :=
  match spec with
  | SlidingWindowSpec bs w | SlidingWindowMLASpec bs w =>
      if bool_decide (bs = 0) then Raise ZeroDivisionError
      else Ret (Some (ceil_div (Z.min (w - 1 + max_num_batched_tokens) max_model_len) bs + 1))
  | ChunkedLocalAttentionSpec bs c =>
      if bool_decide (bs = 0) then Raise ZeroDivisionError
      else Ret (Some (ceil_div (Z.min (c + max_num_batched_tokens) max_model_len) bs))
  | _ => Ret None
  end.

Definition init (spec : KVCacheSpec) (enable_caching : bool) (kv_cache_group_id dcp_world_size pcp_world_size : Z)
    (cap : option Z) : M BlockPool.t t :=
  p <- get ;;
  let bs := if bool_decide (1 < dcp_world_size * pcp_world_size)
            then spec_block_size spec * (dcp_world_size * pcp_world_size) else spec_block_size spec in
  let manager := mk spec bs enable_caching cap [] ∅ ∅ kv_cache_group_id (BlockPool.null_block p) ∅ ∅ ∅ [] in
  match spec with
  | SinkFullAttentionSpec _ sink_len =>
      match sink_len with
      | None => raise AssertionError
      | Some n =>
          assert_ (bool_decide (0 < n)) ;;
          m <- pymod n bs ;;
          assert_ (bool_decide (m = 0)) ;;
          k <- floordiv n bs ;;
          sinks <- BlockPool.on_queue (FreeKVCacheBlockQueue.popleft_n k) ;;
          ret (mk spec bs enable_caching cap [] ∅ ∅ kv_cache_group_id (BlockPool.null_block p) ∅ ∅ ∅ sinks)
      end
  | _ => ret manager
  end.

Definition get_manager_for_kv_cache_spec (spec : KVCacheSpec) (max_num_batched_tokens max_model_len : Z)
    (enable_caching : bool) (kv_cache_group_id dcp_world_size pcp_world_size : Z) : M BlockPool.t t :=
  cap <- of_outcome (admission_cap spec max_num_batched_tokens max_model_len) ;;
  init spec enable_caching kv_cache_group_id dcp_world_size pcp_world_size cap.
