(* ===== verification/SingleTypeProps.v ===== *)
(** * The single-type managers: who holds which block

    In every state a manager can reach, the reference count of a block is the
    number of places in the block lists of its requests plus the references of the
    other managers that share the pool. *)

From S2P Require Import Prelude OrderedDict FreeQueue BlockHash BlockPool BlockPoolProps BlockPoolCache CacheHit.
Import BlockPool.
From S2P Require Import SingleType.

Open Scope Z_scope.

Notation pool := BlockPool.t.
Implicit Types (s : SingleType.t) (p : pool) (l bs : list ref) (r : string) (i : Z).

(** ** Counting occurrences *)
Lemma count_in_app b bs bs' : count_in b (bs ++ bs') = count_in b bs + count_in b bs'.
Proof. unfold count_in. rewrite filter_app, length_app. lia. Qed.

Lemma count_in_perm b bs bs' : bs ≡ₚ bs' → count_in b bs = count_in b bs'.
Proof. intros Hp. unfold count_in. by rewrite Hp. Qed.

Lemma count_in_nonneg b bs : 0 ≤ count_in b bs.
Proof. unfold count_in. lia. Qed.

Lemma count_in_elem b bs : b ∈ bs → 0 < count_in b bs.
Proof.
  intros Hb. unfold count_in. assert (b ∈ filter (.= b) bs) as Hf by (by apply list_elem_of_filter).
  destruct (filter (.= b) bs); [by apply not_elem_of_nil in Hf|simpl; lia].
Qed.

Lemma count_in_notin b bs : b ∉ bs → count_in b bs = 0.
Proof. intros Hb. unfold count_in. rewrite filter_none; [done|]. by intros x Hx ->. Qed.

Lemma count_in_once b bs : b ∈ bs → NoDup bs → count_in b bs = 1.
Proof.
  intros Hb Hnd. apply list_elem_of_split in Hb as (l1 & l2 & ->).
  apply NoDup_app in Hnd as (_ & Hd & Hnd). apply NoDup_cons in Hnd as [Hx _].
  rewrite count_in_app, (count_in_notin b l1) by (intros Hb; apply (Hd b Hb), elem_of_cons; by left).
  unfold count_in. rewrite filter_cons, decide_True by done. fold (count_in b l2).
  pose proof (count_in_notin b l2 Hx). unfold count_in in *. simpl. lia.
Qed.

Lemma count_in_nulls b (n : nat) : b ≠ Blk 0 → count_in b (replicate n (Blk 0)) = 0.
Proof. intros Hb. apply count_in_notin. intros [-> _]%elem_of_replicate. done. Qed.

(** The places at which the block lists of a manager hold block [i]. *)
Definition held (m : gmap string (list ref)) i : Z :=
  total ((λ e, count_in (Blk i) e.2) <$> map_to_list m).

Lemma held_delete m r i : held (delete r m) i = held m i - count_in (Blk i) (default [] (m !! r)).
Proof.
  destruct (m !! r) as [bs|] eqn:Hr; simpl.
  - unfold held. rewrite <-(map_to_list_delete m r bs Hr). csimpl. unfold total. simpl. lia.
  - rewrite delete_id by done. unfold count_in. simpl. lia.
Qed.

Lemma held_set m r bs i : held (<[r := bs]> m) i =
  held m i - count_in (Blk i) (default [] (m !! r)) + count_in (Blk i) bs.
Proof.
  rewrite <-insert_delete_eq. unfold held at 1. rewrite map_to_list_insert by apply lookup_delete_eq.
  csimpl. pose proof (held_delete m r i) as Hd. unfold held in *. unfold total at 1. simpl.
  fold (total ((λ e, count_in (Blk i) e.2) <$> map_to_list (delete r m))). lia.
Qed.

Lemma held_nonneg m i : 0 ≤ held m i.
Proof. apply total_nonneg. intros x (e & -> & _)%list_elem_of_fmap. apply count_in_nonneg. Qed.

Lemma held_ge m r i : count_in (Blk i) (default [] (m !! r)) ≤ held m i.
Proof. pose proof (held_delete m r i). pose proof (held_nonneg (delete r m) i). lia. Qed.

(** ** Block lists *)
Definition in_lists p bs : Prop := ∀ b, b ∈ bs → ∃ i, b = Blk i ∧ in_pool p i.
Record list_ok p bs : Prop := {
  lo_pool : in_lists p bs;
  lo_once : NoDup (filter (.≠ Blk 0) bs)
}.

Lemma list_ok_ids p bs : list_ok p bs →
  ∃ ids, bs = Blk <$> ids ∧ (∀ i, i ∈ ids → in_pool p i) ∧ NoDup (filter (.≠ 0) ids).
Proof.
  intros [Hp Hn]. induction bs as [|b bs IH]; [by exists []; split_and!; [|intros ? ?%not_elem_of_nil|constructor]|].
  destruct (Hp b) as (i & -> & Hi); [apply elem_of_cons; by left|].
  destruct IH as (ids & -> & Hids & Hnd).
  - intros b Hb. apply Hp, elem_of_cons. by right.
  - rewrite filter_cons in Hn. case_decide; [by apply NoDup_cons in Hn as [_ ?]|done].
  - exists (i :: ids). split_and!; [done|by intros j [->|Hj]%elem_of_cons; [|apply Hids]|].
    rewrite filter_cons. rewrite filter_cons in Hn. destruct (decide (i ≠ 0)) as [Hi0|]; [|done].
    rewrite decide_True in Hn by congruence. apply NoDup_cons in Hn as [Hx _]. constructor; [|done].
    intros [_ Hin]%list_elem_of_filter. apply Hx, list_elem_of_filter. split; [congruence|].
    apply list_elem_of_fmap. eauto.
Qed.

Lemma count_le_1 p bs i : list_ok p bs → i ≠ 0 → count_in (Blk i) bs ≤ 1.
Proof.
  intros [_ Hn] Hi. assert (count_in (Blk i) bs = count_in (Blk i) (filter (.≠ Blk 0) bs)) as ->.
  { unfold count_in. rewrite list_filter_filter. do 2 f_equal. apply list_filter_iff. intros b. naive_solver congruence. }
  destruct (decide (Blk i ∈ filter (.≠ Blk 0) bs)); [by rewrite count_in_once|].
  rewrite count_in_notin by done. lia.
Qed.

(** ** The invariant *)
Section ownership.
Context (ext : Z → Z) (ext_nonneg : ∀ i, 0 ≤ ext i).

Record own s p l : Prop := {
  ow_pool : pool_inv p l [];
  ow_null : null_block s = Blk 0;
  ow_refs : ∀ i, in_pool p i → i ≠ 0 → ref_cnt (obj p (Blk i)) = held (req_to_blocks s) i + ext i;
  ow_lists : ∀ r bs, req_to_blocks s !! r = Some bs → list_ok p bs;
  ow_ext : ∀ i, ext i ≠ 0 → in_pool p i
}.

Definition owned (x : SingleType.t * pool) : Prop := ∃ l, own x.1 x.2 l.

Lemma own_list s p l r : own s p l → list_ok p (default [] (req_to_blocks s !! r)).
Proof.
  intros Ho. destruct (req_to_blocks s !! r) eqn:Hr; [by eapply ow_lists|]. simpl. split.
  - by intros b ?%not_elem_of_nil.
  - constructor.
Qed.

Lemma list_ok_config p p' bs : num_gpu_blocks p' = num_gpu_blocks p → list_ok p bs → list_ok p' bs.
Proof. intros Hn [Hp Hnd]. split; [|done]. intros b Hb. unfold in_pool. rewrite Hn. by apply Hp. Qed.

(** Replacing the list of one request, with the counts changed accordingly. *)
Lemma own_set s p l s' p' l' r bs :
  own s p l → req_to_blocks s' = <[r := bs]> (req_to_blocks s) → null_block s' = null_block s →
  pool_inv p' l' [] → num_gpu_blocks p' = num_gpu_blocks p → list_ok p bs →
  (∀ i, in_pool p i → i ≠ 0 → ref_cnt (obj p' (Blk i)) = ref_cnt (obj p (Blk i)) +
     count_in (Blk i) bs - count_in (Blk i) (default [] (req_to_blocks s !! r))) →
  own s' p' l'.
Proof.
  intros [Hp Hnull Hrefs Hlists Hext] Hr Hn Hp' Hnum Hbs Hcnt.
  split; [done|congruence| | |by unfold in_pool; rewrite Hnum].
  - intros i Hi Hi0. unfold in_pool in Hi. rewrite Hnum in Hi. rewrite Hr, held_set, Hcnt, Hrefs by done. lia.
  - intros r' bs'. rewrite Hr, lookup_insert. case_decide; [intros [= <-]|intros Hb].
    + by eapply list_ok_config.
    + eapply list_ok_config; [done|]. by eapply Hlists.
Qed.

(** Only attributes outside the block lists change. *)
Lemma own_same s p l s' :
  own s p l → req_to_blocks s' = req_to_blocks s → null_block s' = null_block s → own s' p l.
Proof. intros [] Hr Hn. split; [done|congruence|rewrite Hr; done|rewrite Hr; done|done]. Qed.

(** A block a request holds is referenced. *)
Lemma own_ref_pos s p l r i :
  own s p l → Blk i ∈ default [] (req_to_blocks s !! r) → in_pool p i → i ≠ 0 → 0 < ref_cnt (obj p (Blk i)).
Proof.
  intros Ho Hb Hi Hi0. rewrite (ow_refs _ _ _ Ho i Hi Hi0).
  pose proof (held_ge (req_to_blocks s) r i). pose proof (count_in_elem _ _ Hb). specialize (ext_nonneg i). lia.
Qed.

Lemma keeps_blocks_of r : keeps owned (blocks_of r).
Proof.
  intros [s p] [l Ho]. unfold blocks_of, self, bind, gets. simpl.
  destruct (req_to_blocks s !! r) eqn:Hr; [by exists l|]. exists l. simpl.
  eapply (own_set _ _ _ _ _ _ r []); [done|done|done|apply Ho|done| |].
  - split; [by intros b ?%not_elem_of_nil|constructor].
  - intros i _ _. simpl. rewrite Hr. simpl. lia.
Qed.

(** ** What each step does *)

(** Every attribute but the block lists, the recorded ids and the cached counts. *)
Definition same_attrs s s' : Prop :=
  kv_cache_spec s' = kv_cache_spec s ∧ block_size s' = block_size s ∧ enable_caching s' = enable_caching s ∧
  max_admission_blocks_per_request s' = max_admission_blocks_per_request s ∧
  kv_cache_group_id s' = kv_cache_group_id s ∧ null_block s' = null_block s ∧
  cached_blocks_this_step s' = cached_blocks_this_step s ∧ last_state_block_idx s' = last_state_block_idx s ∧
  allocated_block_reqs s' = allocated_block_reqs s ∧ sink_blocks s' = sink_blocks s.

Lemma same_attrs_trans s1 s2 s3 : same_attrs s1 s2 → same_attrs s2 s3 → same_attrs s1 s3.
Proof. unfold same_attrs. intuition congruence. Qed.

Notation list_of s r := (default [] (req_to_blocks s !! r)).

Lemma blocks_of_run s p r :
  ∃ s', blocks_of r (s, p) = (Ret (list_of s r), (s', p)) ∧
    req_to_blocks s' = <[r := list_of s r]> (req_to_blocks s) ∧ same_attrs s s' ∧
    num_cached_block s' = num_cached_block s.
Proof.
  unfold blocks_of, self, bind, gets. simpl. destruct (req_to_blocks s !! r) eqn:Hr.
  - exists s. split_and!; try done. simpl. by rewrite insert_id.
  - eexists. split; [done|]. done.
Qed.

Lemma extend_new_run s p r bs :
  ∃ s', extend_new r bs (s, p) = (Ret tt, (s', p)) ∧
    req_to_blocks s' = <[r := list_of s r ++ bs]> (req_to_blocks s) ∧ same_attrs s s' ∧
    num_cached_block s' = num_cached_block s.
Proof.
  unfold extend_new. destruct (blocks_of_run s p r) as (s1 & Hrun & Hb1 & Ha1 & Hc1).
  erewrite run_bind by exact Hrun. unfold bind at 1, set_blocks, update_self, modify, bind, get. simpl.
  assert (req_to_blocks (with_blocks (<[r:=list_of s r ++ bs]> (req_to_blocks s1)) s1) =
          <[r:=list_of s r ++ bs]> (req_to_blocks s)) as He.
  { simpl. by rewrite Hb1, insert_insert_eq. }
  destruct (records_new_ids (kv_cache_spec s1)); (eexists; split; [done|]; by split_and!).
Qed.

(** Taking [n] new blocks for a request. *)
Lemma grow_own s p l r n :
  own s p l → 0 ≤ n →
  if decide (n ≤ Z.of_nat (length l)) then
    ∃ p', on_pool (get_new_blocks n) (s, p) = (Ret (take (Z.to_nat n) l), (s, p')) ∧
      num_gpu_blocks p' = num_gpu_blocks p ∧
      ∀ s', req_to_blocks s' = <[r := list_of s r ++ take (Z.to_nat n) l]> (req_to_blocks s) →
        null_block s' = null_block s → own s' p' (drop (Z.to_nat n) l)
  else on_pool (get_new_blocks n) (s, p) = (Raise ValueError, (s, p)).
Proof.
  intros Ho Hn. pose proof (get_new_blocks_spec p l n (ow_pool _ _ _ Ho) Hn) as Hg. case_decide as Hle.
  2:{ unfold on_pool, zoom. simpl. by rewrite Hg. }
  destruct Hg as (p' & Hrun & Hp' & Hcfg & Href). set (nb := take (Z.to_nat n) l) in *. exists p'.
  assert (num_gpu_blocks p' = num_gpu_blocks p) as Hnum by apply Hcfg.
  split; [unfold on_pool, zoom; simpl; by rewrite Hrun|]. split; [done|]. intros s' Hb Hnull.
  assert (∀ b, b ∈ nb → ∃ i, b = Blk i ∧ in_pool p i ∧ i ≠ 0 ∧ ref_cnt (obj p b) = 0) as Hnb.
  { intros b Hb'. apply (pi_free _ _ _ (ow_pool _ _ _ Ho)). left.
    rewrite <-(take_drop (Z.to_nat n) l). apply elem_of_app. by left. }
  assert (NoDup nb) as Hnd.
  { pose proof (free_list_nodup _ _ _ (ow_pool _ _ _ Ho)) as Hnd. rewrite <-(take_drop (Z.to_nat n) l) in Hnd.
    by apply NoDup_app in Hnd as [? _]. }
  assert (∀ b, b ∈ nb → b ∉ list_of s r) as Hdis.
  { intros b Hb1 Hb2. destruct (Hnb b Hb1) as (i & -> & Hi & Hi0 & H0).
    pose proof (own_ref_pos s p l r i Ho Hb2 Hi Hi0). lia. }
  pose proof (own_list s p l r Ho) as [Hl1 Hl2].
  eapply (own_set _ _ _ _ _ _ r); [done|done|done|done|done| |].
  - split.
    + intros b [Hb'|Hb']%elem_of_app; [by apply Hl1|]. destruct (Hnb b Hb') as (i & -> & Hi & _). eauto.
    + rewrite filter_app. apply NoDup_app. split_and!; [done| |by apply NoDup_filter].
      intros b [_ Hb1]%list_elem_of_filter [_ Hb2]%list_elem_of_filter. by apply (Hdis b).
  - intros i Hi Hi0. rewrite count_in_app. destruct (Href (Blk i)) as [-> _].
    destruct (decide (Blk i ∈ nb)) as [Hin|Hin].
    + destruct (Hnb _ Hin) as (j & [= <-] & _ & _ & ->). rewrite (count_in_once _ nb) by done. lia.
    + rewrite (count_in_notin _ nb) by done. lia.
Qed.

Lemma grow_run s p l r n :
  own s p l → 0 ≤ n →
  if decide (n ≤ Z.of_nat (length l)) then
    ∃ s' p', on_pool (get_new_blocks n) (s, p) = (Ret (take (Z.to_nat n) l), (s, p')) ∧
      extend_new r (take (Z.to_nat n) l) (s, p') = (Ret tt, (s', p')) ∧
      own s' p' (drop (Z.to_nat n) l) ∧ num_gpu_blocks p' = num_gpu_blocks p ∧
      req_to_blocks s' = <[r := list_of s r ++ take (Z.to_nat n) l]> (req_to_blocks s) ∧ same_attrs s s' ∧
      num_cached_block s' = num_cached_block s
  else on_pool (get_new_blocks n) (s, p) = (Raise ValueError, (s, p)).
Proof.
  intros Ho Hn. pose proof (grow_own s p l r n Ho Hn) as Hg. case_decide; [|done].
  destruct Hg as (p' & Hrun & Hnum & Hown).
  destruct (extend_new_run s p' r (take (Z.to_nat n) l)) as (s' & Hext & Hb & Ha & Hc).
  exists s', p'. split_and!; try done. apply Hown; [done|apply Ha].
Qed.

Lemma on_pool_run {A} (m : M pool A) s p o p' : m p = (o, p') → on_pool m (s, p) = (o, (s, p')).
Proof. intros Hm. unfold on_pool, zoom. simpl. by rewrite Hm. Qed.

(** Dropping references of blocks a request holds. *)
Lemma release_run s p l s' r bs removed :
  own s p l → req_to_blocks s' = <[r := bs]> (req_to_blocks s) ∨ bs = [] ∧ req_to_blocks s' = delete r (req_to_blocks s) →
  null_block s' = null_block s → list_ok p bs → list_ok p removed → (∀ b, b ∈ removed → b ∈ list_of s r) →
  (∀ i, i ≠ 0 → count_in (Blk i) bs + count_in (Blk i) removed = count_in (Blk i) (list_of s r)) →
  ∃ p' l', free_blocks removed p = (Ret tt, p') ∧ own s' p' l' ∧
    num_gpu_blocks p' = num_gpu_blocks p.
Proof.
  intros Ho Hset Hnull Hbs Hrem Hsub Hcnt. destruct (list_ok_ids p removed Hrem) as (ids & -> & Hids & Hnd).
  destruct (free_blocks_spec p l ids (ow_pool _ _ _ Ho)) as (p' & Hrun & Hp' & (Hcfg & _) & Href).
  { split; [done|done|]. intros i Hi Hi0. eapply own_ref_pos; [done| |by apply Hids|done].
    apply Hsub, list_elem_of_fmap. eauto. }
  assert (num_gpu_blocks p' = num_gpu_blocks p) as Hnum by apply Hcfg.
  exists p', (l ++ last_refs p (Blk <$> ids)). split; [done|]. split; [|done].
  assert (own (with_blocks (<[r := bs]> (req_to_blocks s)) s) p' (l ++ last_refs p (Blk <$> ids))) as Ho'.
  { eapply (own_set _ _ _ _ _ _ r); [done..|]. intros i Hi Hi0. rewrite Href. specialize (Hcnt i Hi0). lia. }
  destruct Hset as [Hset|[-> Hset]]; [by eapply own_same|]. destruct Ho' as [? ? Hr Hl ?]. simpl in *. split; [done|congruence| | |done].
  - intros i Hi Hi0. rewrite Hr by done. rewrite Hset, held_set, held_delete.
    assert (count_in (Blk i) [] = 0) by done. lia.
  - intros r' bs'. rewrite Hset, lookup_delete. case_decide; [done|]. intros Hb. apply (Hl r').
    by rewrite lookup_insert_ne.
Qed.

(** ** Releasing *)
Lemma list_ok_perm p bs bs' : bs' ≡ₚ bs → list_ok p bs → list_ok p bs'.
Proof.
  intros Hp [H1 H2]. split; [|by rewrite Hp]. intros b Hb. apply H1. by rewrite <-Hp.
Qed.

Lemma keeps_base_free r : keeps (owned) (base_free r).
Proof.
  intros [s p] [l Ho]. simpl in Ho. unfold base_free, self, bind at 1, gets. simpl.
  unfold bind at 1, update_self at 1, modify. simpl.
  set (s1 := with_blocks (delete r (req_to_blocks s)) s).
  destruct (release_run s p l s1 r [] (rev (list_of s r)) Ho) as (p' & l' & Hrun & Ho' & _).
  - by right.
  - done.
  - split; [by intros b ?%not_elem_of_nil|constructor].
  - eapply list_ok_perm; [symmetry; apply Permutation_rev|by eapply own_list].
  - intros b. by rewrite <-Permutation_rev.
  - intros i _. assert (count_in (Blk i) [] = 0) as -> by done.
    rewrite (count_in_perm _ (rev _) (list_of s r)) by (symmetry; apply Permutation_rev). done.
  - erewrite run_bind by (apply on_pool_run; exact Hrun). exists l'. by eapply own_same.
Qed.

(** The loop of [remove_skipped_blocks] splits the list into what it takes out and
    what stays, with null blocks in place. *)
Lemma remove_loop_spec (n : nat) bs p :
  list_ok p bs → (n ≤ length bs)%nat → 0 < num_gpu_blocks p →
  let '(removed, bs') := remove_loop (Blk 0) n bs in
  list_ok p removed ∧ list_ok p bs' ∧ length bs' = length bs ∧ (∀ b, b ∈ removed → b ∈ bs ∧ b ≠ Blk 0) ∧
  ∀ i, i ≠ 0 → count_in (Blk i) bs' + count_in (Blk i) removed = count_in (Blk i) bs.
Proof.
  revert bs. induction n as [|n IH]; intros bs Hbs Hn Hnum; simpl.
  { split_and!; try done; [split; [by intros b ?%not_elem_of_nil|constructor]|by intros b ?%not_elem_of_nil|].
    intros i _. assert (count_in (Blk i) [] = 0) by done. lia. }
  destruct (bs !! n) as [b|] eqn:Hb; [|apply lookup_ge_None_1 in Hb; lia].
  case_bool_decide as Hnull.
  { split_and!; try done; [split; [by intros b' ?%not_elem_of_nil|constructor]|by intros b' ?%not_elem_of_nil|].
    intros i _. assert (count_in (Blk i) [] = 0) by done. lia. }
  assert (bs = take n bs ++ b :: drop (Datatypes.S n) bs) as Hsplit by (symmetry; by apply take_drop_middle).
  assert (<[n := Blk 0]> bs = take n bs ++ Blk 0 :: drop (Datatypes.S n) bs) as Hins
    by (apply insert_take_drop; by apply lookup_lt_Some in Hb).
  assert (list_ok p (<[n := Blk 0]> bs)) as Hok.
  { destruct Hbs as [Hp Hnd]. rewrite Hins. rewrite Hsplit in Hp, Hnd. split.
    - intros b' [Hb'|[->|Hb']%elem_of_cons]%elem_of_app; [apply Hp, elem_of_app; by left| |].
      + exists 0. split; [done|]. unfold in_pool. lia.
      + apply Hp, elem_of_app. right. apply elem_of_cons. by right.
    - rewrite filter_app, filter_cons, decide_False by tauto. rewrite filter_app, filter_cons, decide_True in Hnd by done.
      rewrite <-Permutation_middle in Hnd. by apply NoDup_cons in Hnd as [_ ?]. }
  specialize (IH (<[n := Blk 0]> bs) Hok). rewrite length_insert in IH. specialize (IH ltac:(lia) Hnum).
  destruct (remove_loop (Blk 0) n (<[n := Blk 0]> bs)) as [removed bs'].
  destruct IH as (Hr & Hb' & Hl & Hsub & Hcnt).
  assert (b ∉ removed) as Hbr.
  { intros Hin. destruct (Hsub b Hin) as [Hin' _]. destruct Hbs as [_ Hnd]. rewrite Hins in Hin'. rewrite Hsplit in Hnd.
    rewrite filter_app, filter_cons, decide_True in Hnd by done.
    apply elem_of_app in Hin' as [Hin'|[Hin'|Hin']%elem_of_cons]; [|done|].
    - apply NoDup_app in Hnd as (_ & Hd & _). apply (Hd b); [by apply list_elem_of_filter|].
      apply elem_of_cons. by left.
    - apply NoDup_app in Hnd as (_ & _ & Hnd). apply NoDup_cons in Hnd as [Hx _]. apply Hx.
      by apply list_elem_of_filter. }
  assert (∀ b0, b0 ∈ b :: removed → b0 ∈ bs ∧ b0 ≠ Blk 0) as Hsub'.
  { intros b0 [->|Hin]%elem_of_cons; [split; [by eapply list_elem_of_lookup_2|done]|].
    destruct (Hsub b0 Hin) as [Hin' Hne]. split; [|done]. rewrite Hins in Hin'. rewrite Hsplit.
    apply elem_of_app in Hin' as [?|[?|?]%elem_of_cons]; [apply elem_of_app; by left|done|].
    apply elem_of_app. right. apply elem_of_cons. by right. }
  split_and!; [|done|done|done|].
  - split.
    + intros b0 Hin. by apply (lo_pool _ _ Hbs), Hsub'.
    + rewrite filter_all by (intros b0 Hin; by apply Hsub'). constructor; [done|].
      rewrite <-(filter_all (.≠ Blk 0) removed); [apply Hr|]. intros b0 Hin. by apply Hsub.
  - intros i Hi. specialize (Hcnt i Hi). rewrite Hins in Hcnt. rewrite Hsplit at 1.
    rewrite !count_in_app in *. unfold count_in in *. rewrite !filter_cons in *.
    rewrite (decide_False (P := Blk 0 = Blk i)) in Hcnt by congruence.
    destruct (decide (b = Blk i)); simpl in *; lia.
Qed.

Lemma keeps_base_remove r n : keeps owned (base_remove_skipped_blocks r n).
Proof.
  unfold base_remove_skipped_blocks. apply keeps_bind.
  { intros [s p] Ho. unfold get_num_skipped_tokens, self, bind, gets. simpl.
    destruct (kv_cache_spec s); try done. unfold floordiv. by case_bool_decide. }
  intros k. case_bool_decide; [apply keeps_ret|].
  intros [s p] [l Ho]. destruct (blocks_of_run s p r) as (s1 & Hrun & Hb1 & Ha1 & _).
  erewrite run_bind by exact Hrun. unfold self, bind at 1, gets. simpl.
  assert (own s1 p l) as Ho1.
  { pose proof (keeps_blocks_of r (s, p) (ex_intro _ l Ho)) as [l1 Ho1]. rewrite Hrun in Ho1. simpl in Ho1.
    destruct Ho1 as [Hp1 ? ? ? ?]. split; [apply Ho|done..]. }
  assert (list_of s1 r = list_of s r) as Hl1 by (rewrite Hb1, lookup_insert_eq; done).
  unfold floordiv, bind at 1. case_bool_decide as Hbs; [by exists l|]. unfold ret at 1.
  rewrite (ow_null _ _ _ Ho1). set (m := Z.to_nat _).
  pose proof (remove_loop_spec m (list_of s r) p) as Hrem.
  destruct (remove_loop (Blk 0) m (list_of s r)) as [removed bs'].
  destruct Hrem as (Hr & Hb' & Hlen & Hsub & Hcnt);
    [by eapply own_list|unfold m; lia|by eapply pi_size, ow_pool|].
  unfold bind at 1, set_blocks, update_self, modify. simpl.
  edestruct (release_run s1 p l (with_blocks (<[r:=bs']> (req_to_blocks s1)) s1) r bs' removed Ho1)
    as (p' & l' & Hrel & Ho' & _); [by left|done|done|done|rewrite Hl1; intros b Hb; by apply Hsub|by rewrite Hl1|].
  rewrite (on_pool_run _ _ _ _ _ Hrel). by exists l'.
Qed.

(** ** Allocating *)
Lemma keeps_base_allocate r n : keeps owned (base_allocate_new_blocks r n).
Proof.
  intros [s p] [l Ho]. unfold base_allocate_new_blocks. destruct (blocks_of_run s p r) as (s1 & Hrun & Hb1 & Ha1 & _).
  pose proof (keeps_blocks_of r (s, p) (ex_intro _ l Ho)) as [l1 Ho1]. rewrite Hrun in Ho1. simpl in Ho1.
  erewrite run_bind by exact Hrun. unfold self, bind at 1, gets. simpl. unfold bind at 1, cdiv at 1, bind at 1, floordiv.
  case_bool_decide; [by exists l1|]. unfold ret at 1 2. case_bool_decide as Hn; [by exists l1|].
  set (k := _ - Z.of_nat _) in *.
  pose proof (grow_run s1 p l1 r k Ho1 ltac:(lia)) as Hg. case_decide.
  - destruct Hg as (s' & p' & Hg1 & Hg2 & Ho' & _). erewrite run_bind by exact Hg1. erewrite run_bind by exact Hg2.
    by eexists.
  - erewrite run_raise by exact Hg. by exists l1.
Qed.

(** Legal parameters of a spec, and the tokens it no longer needs. *)
Definition spec_ok (spec : KVCacheSpec) : Prop :=
  match spec with
  | SlidingWindowSpec _ w | SlidingWindowMLASpec _ w => 1 ≤ w
  | ChunkedLocalAttentionSpec _ c => 0 < c
  | MambaSpec _ _ ns => 0 ≤ ns
  | _ => True
  end.
Definition skipped_tokens (spec : KVCacheSpec) (n : Z) : Z :=
  match spec with
  | SlidingWindowSpec _ w | SlidingWindowMLASpec _ w => Z.max 0 (n - w + 1)
  | ChunkedLocalAttentionSpec _ c => n / c * c
  | MambaSpec _ _ _ => n - 1
  | _ => 0
  end.

Lemma skipped_run s p n :
  spec_ok (kv_cache_spec s) → get_num_skipped_tokens n (s, p) = (Ret (skipped_tokens (kv_cache_spec s) n), (s, p)).
Proof.
  intros Hs. unfold get_num_skipped_tokens, self, bind, gets. simpl. destruct (kv_cache_spec s); try done.
  simpl in Hs. by rewrite floordiv_run.
Qed.

Lemma skipped_le spec n : spec_ok spec → 0 ≤ n → skipped_tokens spec n ≤ n.
Proof.
  intros Hs Hn. destruct spec; simpl in *; try lia. pose proof (Z.mul_div_le n attention_chunk_size Hs). lia.
Qed.

(** The blocks a cache hit hands over: [local] tokens in full blocks. *)
Record hits_ok s p (new : list ref) (local external : Z) : Prop := {
  ho_list : list_ok p new;
  ho_local : local = Z.of_nat (length new) * block_size s;
  ho_external : 0 ≤ external;
  ho_caching : enable_caching s = false → new = []
}.

Section take_hits.
Context s p l r (new : list ref) (local external : Z).
Context (Ho : own s p l) (Hspec : spec_ok (kv_cache_spec s)) (Hbs : 0 < block_size s).
Context (Hhits : hits_ok s p new local external).
Context (Hnew : num_cached_block s !! r = None) (Hempty : list_of s r = []).

Notation tokens := (local + external).
Notation skipped := (skipped_tokens (kv_cache_spec s) tokens).
Notation nskip := (Z.to_nat (skipped / block_size s)).
Definition kept : list ref := drop nskip new.
Definition prefix : list ref := replicate nskip (Blk 0) ++ kept.
Definition remote : Z :=
  if bool_decide (0 < skipped / block_size s) then Z.min (tokens - skipped) external else external.
Definition want : Z :=
  if bool_decide (0 < remote) then ceil_div tokens (block_size s) - Z.of_nat (length prefix) else 0.
Definition left_free : list ref := filter (.∉ kept) l.

Lemma length_prefix : Z.of_nat (length prefix) = Z.max (skipped / block_size s) (Z.of_nat (length new)).
Proof.
  unfold prefix, kept. rewrite length_app, length_replicate, length_drop.
  destruct (decide (0 ≤ skipped / block_size s)); lia.
Qed.

Lemma tokens_nonneg : 0 ≤ tokens.
Proof. destruct Hhits. nia. Qed.

Lemma prefix_fits : Z.of_nat (length prefix) ≤ ceil_div tokens (block_size s).
Proof.
  rewrite length_prefix. pose proof tokens_nonneg as Ht. pose proof (skipped_le _ _ Hspec Ht) as Hsk.
  destruct (Z.le_gt_cases (Z.max (skipped / block_size s) (Z.of_nat (length new))) (ceil_div tokens (block_size s))) as [|Hgt]; [done|].
  pose proof (proj1 (ceil_div_spec tokens (block_size s) (ceil_div tokens (block_size s)) Hbs) ltac:(lia)) as Hc.
  pose proof (Z.mul_div_le skipped (block_size s) Hbs). destruct Hhits as [_ Hl He _]. nia.
Qed.

Lemma want_nonneg : 0 ≤ want.
Proof. unfold want. case_bool_decide; [|lia]. pose proof prefix_fits. lia. Qed.

Lemma kept_ok : list_ok p kept.
Proof.
  destruct (ho_list _ _ _ _ _ Hhits) as [H1 H2]. unfold kept. rewrite <-(take_drop nskip new) in H1, H2. split.
  - intros b Hb. apply H1, elem_of_app. by right.
  - rewrite filter_app in H2. by apply NoDup_app in H2 as (_ & _ & ?).
Qed.

Lemma prefix_ok : list_ok p prefix.
Proof.
  destruct kept_ok as [H1 H2]. unfold prefix. split.
  - intros b [[-> _]%elem_of_replicate|Hb]%elem_of_app; [|by apply H1].
    exists 0. split; [done|]. pose proof (pi_size _ _ _ (ow_pool _ _ _ Ho)). unfold in_pool. lia.
  - rewrite filter_app, filter_none; [done|]. intros b [-> _]%elem_of_replicate. tauto.
Qed.

(** Referencing the hits and recording them as the request's blocks. *)
Lemma adopt_run :
  ∃ p1, (if enable_caching s then on_pool (touch kept) else assert_ (bool_decide (kept = []))) (s, p) = (Ret tt, (s, p1)) ∧
    num_gpu_blocks p1 = num_gpu_blocks p ∧
    ∀ s', req_to_blocks s' = <[r := prefix]> (req_to_blocks s) → null_block s' = null_block s → own s' p1 left_free.
Proof.
  pose proof kept_ok as Hk. destruct (list_ok_ids p kept Hk) as (ids & Hids & Hin & Hnd).
  assert (∀ i, i ≠ 0 → count_in (Blk i) prefix = count_in (Blk i) kept) as Hcp.
  { intros i Hi. unfold prefix. rewrite count_in_app, count_in_nulls by congruence. lia. }
  destruct (enable_caching s) eqn:Hc.
  - destruct (touch_correct p l ids (ow_pool _ _ _ Ho) Hin) as (p1 & Hrun & Hp1 & (Hcfg & _) & Href).
    rewrite <-Hids in *. exists p1.
    assert (num_gpu_blocks p1 = num_gpu_blocks p) as Hnum by apply Hcfg.
    split_and!; [unfold on_pool, zoom; simpl; by rewrite Hrun|done|]. intros s' Hs' Hn'.
    eapply (own_set _ _ _ _ _ _ r prefix); [done..|apply prefix_ok|]. intros i Hi Hi0.
    rewrite Href, Hempty, Hcp by done. assert (count_in (Blk i) [] = 0) by done. lia.
  - assert (kept = []) as Hk0 by (unfold kept; rewrite (ho_caching _ _ _ _ _ Hhits Hc); apply drop_nil).
    exists p. rewrite Hk0, bool_decide_true by done. split_and!; try done. intros s' Hs' Hn'.
    unfold left_free. rewrite Hk0, filter_all by (intros b _; apply not_elem_of_nil).
    eapply (own_set _ _ _ _ _ _ r prefix); [done|done|done|apply Ho|done|apply prefix_ok|]. intros i Hi Hi0.
    rewrite Hempty, Hcp, Hk0 by done. lia.
Qed.

Lemma take_hits_run :
  if decide (want ≤ Z.of_nat (length left_free)) then
    ∃ s' p', base_allocate_new_computed_blocks r new local external (s, p) = (Ret tt, (s', p')) ∧
      own s' p' (drop (Z.to_nat want) left_free) ∧ num_gpu_blocks p' = num_gpu_blocks p ∧
      req_to_blocks s' = <[r := prefix ++ take (Z.to_nat want) left_free]> (req_to_blocks s) ∧ same_attrs s s' ∧
      num_cached_block s' = <[r := Z.of_nat (length prefix)]> (num_cached_block s)
  else ∃ s' p', base_allocate_new_computed_blocks r new local external (s, p) = (Raise ValueError, (s', p')) ∧
      own s' p' left_free.
Proof.
  unfold base_allocate_new_computed_blocks. erewrite (run_bind _ _ (s, p) s (s, p)) by done.
  rewrite Hnew, bool_decide_false by (by intros [? ?]).
  destruct (blocks_of_run s p r) as (s1 & Hrun & Hb1 & Ha1 & Hc1). erewrite run_bind by exact Hrun.
  rewrite Hempty. erewrite run_bind by done.
  assert (kv_cache_spec s1 = kv_cache_spec s) as Hsp by apply Ha1.
  erewrite run_bind by (apply skipped_run; by rewrite Hsp). rewrite Hsp.
  erewrite run_bind by by apply floordiv_run.
  assert ((if bool_decide (0 < skipped / block_size s) then drop nskip new else new) = kept) as ->.
  { unfold kept. case_bool_decide; [done|]. by replace nskip with 0%nat by lia. }
  fold remote. rewrite (ow_null _ _ _ Ho).
  destruct adopt_run as (p1 & Hadopt & Hnum & Hown).
  assert ((if enable_caching s then on_pool (touch kept) else assert_ (bool_decide (kept = []))) (s1, p) = (Ret tt, (s1, p1)))
    as Hadopt1.
  { destruct (enable_caching s); unfold on_pool, zoom, assert_ in *; simpl in *.
    - destruct (touch kept p) as [o p2]. by simplify_eq.
    - destruct (bool_decide (kept = [])); unfold ret, raise in *; by simplify_eq. }
  erewrite run_bind by exact Hadopt1. cbv zeta. fold prefix.
  do 2 (erewrite run_bind by done). cbn [fst snd]. set (s2 := with_cached _ _).
  assert (req_to_blocks s2 = <[r := prefix]> (req_to_blocks s)) as Hb2.
  { unfold s2. simpl. rewrite Hb1, insert_insert_eq. done. }
  assert (same_attrs s s2) as Ha2 by exact Ha1.
  assert (num_cached_block s2 = <[r := Z.of_nat (length prefix)]> (num_cached_block s)) as Hc2.
  { unfold s2. simpl. by rewrite Hc1. }
  assert (own s2 p1 left_free) as Ho2 by (apply Hown; [done|apply Ha2]).
  fold remote. pose proof want_nonneg as Hw. unfold want in *. destruct (bool_decide (0 < remote)) eqn:Hrem.
  - erewrite run_bind by by apply cdiv_run.
    pose proof (grow_run s2 p1 left_free r _ Ho2 Hw) as Hg. case_decide.
    + destruct Hg as (s' & p' & Hg1 & Hg2 & Ho' & Hn' & Hb' & Ha' & Hc'). exists s', p'.
      erewrite run_bind by exact Hg1. rewrite Hb2, insert_insert_eq, lookup_insert_eq in Hb'. rewrite Hg2, Hb', Hc', Hc2.
      split_and!; try done; [congruence|by eapply same_attrs_trans].
    + exists s2, p1. by erewrite run_raise by exact Hg.
  - rewrite decide_True by lia. exists s2, p1. simpl. rewrite app_nil_r. split_and!; try done.
Qed.
End take_hits.

(** ** Caching leaves the counts alone *)
Section caching.
Context (embeds_digest : list Z → bytes) (p0 : pool) (l : list ref).

Definition counted (p : pool) : Prop := pool_inv p l [] ∧ same_config p0 p ∧ same_counts p0 p.

Lemma counted_hash p i key :
  counted p → in_pool p0 i → i ≠ 0 → block_hash (obj p (Blk i)) = None → counted (cached_at p i key).
Proof.
  intros (Hp & Hc & Hn) Hi Hi0 Hh. split_and!.
  - apply cache_one; try done. unfold in_pool in *. destruct Hc as [-> _]. done.
  - done.
  - intros b. rewrite obj_cached_at. destruct (Hn b) as (?&?&?). destruct (decide (b = Blk i)) as [->|]; done.
Qed.

Lemma counted_events p e : counted p → counted (with_events e p).
Proof. intros (Hp & Hc & Hn). split_and!; [by destruct Hp|done..]. Qed.

Lemma keeps_cache_loop mask g hs k bs :
  in_lists p0 bs → keeps counted (cache_loop mask g hs k bs).
Proof.
  revert k. induction bs as [|b bs IH]; intros k Hbs; simpl; [apply keeps_ret|].
  apply keeps_get. intros p Hp. assert (keeps counted (cache_loop mask g hs (k + 1) bs)) as Hrest.
  { apply IH. intros b' Hb'. apply Hbs, elem_of_cons. by right. }
  destruct (Hbs b) as (i & -> & Hi); [apply elem_of_cons; by left|].
  destruct (skipped p mask (Blk i) k) eqn:Hsk; [by apply Hrest|].
  unfold read at 1. unfold bind at 1, gets, assert_.
  destruct (decide (block_hash (obj p (Blk i)) = None)) as [Hh|Hh];
    [rewrite bool_decide_true by done|by rewrite bool_decide_false by done].
  unfold bind at 1, ret at 1. unfold bind at 1, of_option. destruct (list_get hs k) as [h|]; [|done].
  unfold ret at 1, bind at 1, of_outcome. destruct (make_block_hash_with_group_id h g) as [key|]; [|done].
  unfold ret at 1, bind at 1. rewrite update_run. unfold bind at 1, modify.
  assert (counted (cached_at p i key)) as Hp'.
  { apply counted_hash; [done|done| |done]. intros ->. unfold skipped in Hsk.
    destruct Hp as (Hp & [Hg _] & _). destruct (pi_blocks _ _ _ Hp 0) as [_ Hnull]; [unfold in_pool; pose proof (pi_size _ _ _ Hp); lia|].
    rewrite Hnull in Hsk. done. }
  specialize (Hrest _ Hp'). unfold cached_at in Hrest. unfold bind.
  destruct (cache_loop mask g hs (k + 1) bs _) as [[?|?] ?]; done.
Qed.

Definition counted_pr (x : pool * Request) : Prop := counted x.1.

Lemma keeps_event_keys mask bsz nc mm bs idxs : keeps counted_pr (event_keys embeds_digest mask bsz nc mm bs idxs).
Proof.
  revert mm. induction idxs as [|i idxs IH]; intros mm; simpl; [apply keeps_ret|].
  apply keeps_bind; [apply keeps_of_option|]. intros b. apply keeps_get. intros x Hx.
  destruct (skipped x.1 mask b (i - nc)); [by apply IH|].
  refine (keeps_bind counted_pr _ _ _ _ x Hx).
  - by apply (keeps_zoom _ (λ _, True)).
  - intros [ek mm']. apply keeps_bind; [apply IH|]. intros rest. apply keeps_ret.
Qed.

Lemma elem_of_slice {A} (x : A) xs lo hi : x ∈ py_slice xs lo hi → x ∈ xs.
Proof.
  unfold py_slice. intros Hx. apply list_elem_of_lookup in Hx as (i & [Hx _]%lookup_take_Some).
  rewrite lookup_drop in Hx. by eapply list_elem_of_lookup_2.
Qed.

Lemma keeps_cache_full bs nc nf bsz g mask :
  in_lists p0 bs → keeps counted_pr (cache_full_blocks embeds_digest bs nc nf bsz g mask).
Proof.
  intros Hbs. unfold cache_full_blocks. case_bool_decide; [apply keeps_ret|].
  apply keeps_get. intros [p req] Hx. refine (keeps_bind counted_pr _ _ (keeps_assert _ _) _ _ Hx). intros _.
  apply keeps_bind; [apply keeps_assert|intros _]. apply keeps_bind; [apply keeps_of_outcome|intros hl].
  apply keeps_bind; [apply keeps_of_outcome|intros hs]. apply keeps_bind.
  { apply (keeps_zoom _ counted); [|done|done]. apply keeps_cache_loop. intros b Hb. by apply Hbs, (elem_of_slice _ _ nc nf). }
  intros new. destruct (enable_kv_cache_events p); [|apply keeps_ret]. apply keeps_bind.
  { case_bool_decide; [apply keeps_ret|]. apply keeps_bind; [apply keeps_of_outcome|intros h]. apply keeps_ret. }
  intros par. apply keeps_bind; [apply keeps_event_keys|intros ek].
  apply (keeps_zoom _ counted); [|done|done]. apply keeps_modify. intros p'. apply counted_events.
Qed.
End caching.
End ownership.
