(* ===== verification/SingleTypeStatic.v ===== *)
(** * The single-type managers: what no operation changes

    The spec, the block size and the caching flag of a manager and the size of the
    pool are fixed: every operation keeps them, whether it returns or raises. *)

From S2P Require Import Prelude OrderedDict FreeQueue BlockHash BlockPool CacheHit.
Import BlockPool.
From S2P Require Import SingleType.

Open Scope Z_scope.

(** ** The pool *)
Section pool.
Context (N : Z).
Definition sized (p : BlockPool.t) : Prop := num_gpu_blocks p = N.
Definition sized_r (x : BlockPool.t * Request) : Prop := sized x.1.

Lemma sized_on_queue {A} (m : M _ A) : keeps sized (on_queue m).
Proof. by apply (keeps_zoom sized (λ _, True)). Qed.
Lemma sized_on_pool {A} (m : M BlockPool.t A) : keeps sized m → keeps sized_r (BlockPool.on_pool m).
Proof. intros Hm. by apply (keeps_zoom sized_r sized). Qed.
Lemma sized_on_request {A} (m : M Request A) : keeps sized_r (on_request m).
Proof. by apply (keeps_zoom sized_r (λ _, True)). Qed.
Lemma sized_modify f : (∀ p, num_gpu_blocks (f p) = num_gpu_blocks p) → keeps sized (modify f).
Proof. intros Hf. apply keeps_modify. intros p. unfold sized. by rewrite Hf. Qed.
Hint Resolve sized_on_queue sized_on_pool sized_on_request : keeps.
Hint Extern 1 (keeps sized (modify _)) => by apply sized_modify : keeps.
Hint Extern 1 (keeps sized (metric _)) => by apply sized_modify : keeps.
Hint Extern 1 (keeps sized (emit _)) => by apply sized_modify : keeps.

Lemma sized_evict b : keeps sized (_maybe_evict_cached_block b).
Proof. unfold _maybe_evict_cached_block, read, update. keeps_auto. Qed.
Hint Resolve sized_evict : keeps.
Lemma sized_get_new n : keeps sized (get_new_blocks n).
Proof. unfold get_new_blocks, take_block, read, update. keeps_auto. Qed.
Lemma sized_touch bs : keeps sized (touch bs).
Proof. unfold touch, read, update. keeps_auto. Qed.
Lemma sized_free bs : keeps sized (free_blocks bs).
Proof. unfold free_blocks, update. keeps_auto. Qed.
Lemma sized_evict_blocks ids : keeps sized (evict_blocks ids).
Proof. unfold evict_blocks. keeps_auto. Qed.
Lemma sized_reset : keeps sized reset_prefix_cache.
Proof. unfold reset_prefix_cache, update. keeps_auto. Qed.
Lemma sized_take_events : keeps sized take_events.
Proof. unfold take_events. keeps_auto. Qed.

Lemma sized_cache_loop mask g hs i bs : keeps sized (cache_loop mask g hs i bs).
Proof. revert i. induction bs as [|b bs IH]; intros i; simpl; unfold read, update; keeps_auto. Qed.
Hint Resolve sized_cache_loop : keeps.
Context (embeds_digest : list Z → bytes).
Lemma sized_event_keys mask bs nc mm l idxs : keeps sized_r (event_keys embeds_digest mask bs nc mm l idxs).
Proof. revert mm. induction idxs as [|i idxs IH]; intros mm; simpl; keeps_auto. Qed.
Hint Resolve sized_event_keys : keeps.
Lemma sized_cache_full bs nc nf b g mask : keeps sized_r (cache_full_blocks embeds_digest bs nc nf b g mask).
Proof. unfold cache_full_blocks. keeps_auto. Qed.
End pool.
#[export] Hint Resolve sized_get_new sized_touch sized_free sized_evict_blocks sized_reset sized_take_events
  sized_cache_full : keeps.

(** ** The managers *)
Section manager.
Context (a : KVCacheSpec * Z * bool) (N : Z).
Definition attrs (s : SingleType.t) : KVCacheSpec * Z * bool := (kv_cache_spec s, block_size s, enable_caching s).
Definition fixed (x : SingleType.t * BlockPool.t) : Prop := attrs x.1 = a ∧ num_gpu_blocks x.2 = N.
Definition fixed_r (x : (SingleType.t * BlockPool.t) * Request) : Prop := fixed x.1.

Lemma fixed_update f : (∀ s, attrs (f s) = attrs s) → keeps fixed (update_self f).
Proof. intros Hf. apply keeps_modify. intros [s p]. unfold fixed. simpl. by rewrite Hf. Qed.
Lemma fixed_on_pool {A} (m : M BlockPool.t A) : keeps (sized N) m → keeps fixed (on_pool m).
Proof. intros Hm. apply (keeps_zoom fixed (sized N)); [done|by intros [s p] [? ?]|by intros [s p] p' [? ?]]. Qed.
Hint Resolve fixed_on_pool : keeps.
Hint Extern 1 (keeps fixed (update_self _)) => by apply fixed_update : keeps.

Lemma fixed_self : keeps fixed self.
Proof. apply keeps_gets. Qed.
Hint Resolve fixed_self : keeps.

Lemma fixed_blocks_of r : keeps fixed (blocks_of r).
Proof.
  intros [s p] H. unfold blocks_of, self, bind, gets. simpl. by destruct (req_to_blocks s !! r).
Qed.
Lemma fixed_set_blocks r bs : keeps fixed (set_blocks r bs).
Proof. by apply fixed_update. Qed.
Hint Resolve fixed_blocks_of fixed_set_blocks : keeps.
Lemma fixed_skipped n : keeps fixed (get_num_skipped_tokens n).
Proof. unfold get_num_skipped_tokens. keeps_auto. Qed.
Hint Resolve fixed_skipped : keeps.
Lemma fixed_num r n new tot nm cap : keeps fixed (get_num_blocks_to_allocate r n new tot nm cap).
Proof.
  unfold get_num_blocks_to_allocate, mamba_num_blocks_to_allocate, base_num_blocks_to_allocate. keeps_auto.
Qed.
Lemma fixed_extend r bs : keeps fixed (extend_new r bs).
Proof. unfold extend_new. keeps_auto. Qed.
Hint Resolve fixed_extend : keeps.
Lemma fixed_alloc_computed r new local external : keeps fixed (allocate_new_computed_blocks r new local external).
Proof. unfold allocate_new_computed_blocks, base_allocate_new_computed_blocks. keeps_auto. Qed.
Lemma fixed_reuse r n idxs : keeps fixed (reuse_loop r n idxs).
Proof. induction idxs as [|i idxs IH]; simpl; keeps_auto. Qed.
Hint Resolve fixed_reuse : keeps.
Lemma fixed_alloc_new r n nm : keeps fixed (allocate_new_blocks r n nm).
Proof. unfold allocate_new_blocks, mamba_align_allocate, base_allocate_new_blocks. keeps_auto. Qed.
Lemma fixed_take_ids : keeps fixed take_new_block_ids.
Proof. unfold take_new_block_ids. keeps_auto. Qed.
Lemma fixed_free r : keeps fixed (free r).
Proof. unfold free, base_free. keeps_auto. Qed.
Lemma fixed_remove r n : keeps fixed (remove_skipped_blocks r n).
Proof. unfold remove_skipped_blocks, base_remove_skipped_blocks. keeps_auto. Qed.
Lemma fixed_common r : keeps fixed (get_num_common_prefix_blocks r).
Proof. unfold get_num_common_prefix_blocks. keeps_auto. Qed.
Lemma fixed_new_step : keeps fixed new_step_starts.
Proof. unfold new_step_starts. keeps_auto. Qed.

Context (embeds_digest : list Z → bytes).
Lemma fixed_on_self {A} (m : M (SingleType.t * BlockPool.t) A) : keeps fixed m → keeps fixed_r (on_self m).
Proof. intros Hm. by apply (keeps_zoom fixed_r fixed). Qed.
Lemma fixed_on_pool_request {A} (m : M (BlockPool.t * Request) A) :
  keeps (sized_r N) m → keeps fixed_r (on_pool_request m).
Proof. intros Hm. apply (keeps_zoom fixed_r (sized_r N)); [done|by intros x [? ?]|by intros x y [? ?]]. Qed.
Hint Resolve fixed_on_self fixed_on_pool_request : keeps.
Lemma fixed_mask nc nf al : keeps fixed (_cache_block_mask nc nf al).
Proof. unfold _cache_block_mask. keeps_auto. Qed.
Lemma fixed_note b : keeps fixed (note_cached b).
Proof. unfold note_cached. keeps_auto. Qed.
Hint Resolve fixed_mask fixed_note : keeps.
Lemma fixed_notes bs : keeps fixed (for_each bs note_cached).
Proof. keeps_auto. Qed.
Hint Resolve fixed_notes : keeps.
Lemma fixed_cache r n al : keeps fixed_r (cache_blocks embeds_digest r n al).
Proof. unfold cache_blocks, base_cache_blocks. keeps_auto. Qed.
End manager.
