(* ===== verification/SingleTypeOwn.v ===== *)
(** * The single-type managers: ownership over every sequence of operations *)

From S2P Require Import Prelude OrderedDict FreeQueue BlockHash BlockPool BlockPoolProps BlockPoolCache CacheHit.
Import BlockPool.
From S2P Require Import SingleType SingleTypeProps.

Open Scope Z_scope.

Implicit Types (s : SingleType.t) (p : pool) (l bs : list ref) (r : string) (i : Z).
Notation list_of s r := (default [] (req_to_blocks s !! r)).

(** ** Moving blocks inside a list *)
Lemma list_ok_null p bs (n : nat) : 0 < num_gpu_blocks p → list_ok p bs → list_ok p (bs ++ replicate n (Blk 0)).
Proof.
  intros Hn [H1 H2]. split.
  - intros b [Hb|[-> _]%elem_of_replicate]%elem_of_app; [by apply H1|]. exists 0. split; [done|]. unfold in_pool. lia.
  - rewrite filter_app, (filter_none _ (replicate _ _)) by (intros b [-> _]%elem_of_replicate; tauto).
    by rewrite app_nil_r.
Qed.

Lemma move_perm (bs : list ref) (n : nat) b :
  bs !! n = Some b → <[n := Blk 0]> (bs ++ [b]) ≡ₚ bs ++ replicate 1 (Blk 0).
Proof.
  intros Hb. pose proof (lookup_lt_Some _ _ _ Hb) as Hn. rewrite insert_app_l by done.
  rewrite <-(take_drop_middle bs n b) at 2 by done. rewrite insert_take_drop by done. simpl. solve_Permutation.
Qed.

Section ops.
Context (ext : Z → Z) (ext_nonneg : ∀ i, 0 ≤ ext i) (embeds_digest : list Z → bytes).
Notation own := (own ext).
Notation owned := (owned ext).

(** A list with the same blocks, and possibly more null blocks. *)
Lemma own_reorder s p l r bs (n : nat) s' :
  own s p l → bs ≡ₚ list_of s r ++ replicate n (Blk 0) →
  req_to_blocks s' = <[r := bs]> (req_to_blocks s) → null_block s' = null_block s → own s' p l.
Proof.
  intros Ho Hp Hs' Hn. eapply (own_set _ _ _ _ _ _ _ r bs); [done..|apply Ho|done| |].
  - eapply list_ok_perm; [exact Hp|]. apply list_ok_null; [by eapply pi_size, ow_pool|by eapply own_list].
  - intros i Hi Hi0. rewrite (count_in_perm _ _ _ Hp), count_in_app, count_in_nulls by congruence. lia.
Qed.

(** ** Mamba *)
Lemma reuse_loop_run r nsk (k : nat) a s p l :
  own s p l → 0 ≤ a → a + Z.of_nat k ≤ Z.of_nat (length (list_of s r)) →
  ∃ s', reuse_loop r nsk (seqZ a (Z.of_nat k)) (s, p) = (Ret tt, (s', p)) ∧ own s' p l ∧ same_attrs s s' ∧
    Z.of_nat (length (list_of s' r)) = Z.of_nat (length (list_of s r)) + Z.max 0 (Z.min (Z.of_nat k) (nsk - a)).
Proof.
  revert s a. induction k as [|k IH]; intros s a Ho Ha Hle.
  { exists s. split_and!; [done|done|done|lia]. }
  rewrite seqZ_cons by lia. replace (Z.succ a) with (a + 1) by lia.
  replace (Z.pred (Z.of_nat (Datatypes.S k))) with (Z.of_nat k) by lia. cbn [reuse_loop].
  case_bool_decide as Hlt; [|exists s; split_and!; [done|done|done|lia]].
  erewrite (run_bind _ _ (s, p) s (s, p)) by done.
  destruct (blocks_of_run s p r) as (s1 & Hrun & Hb1 & Ha1 & _). erewrite run_bind by exact Hrun.
  destruct (lookup_lt_is_Some_2 (list_of s r) (Z.to_nat a)) as [b Hb]; [lia|].
  rewrite list_get_lookup, Hb by lia. erewrite run_bind by done.
  rewrite list_set_inb by (rewrite length_app; simpl; lia). do 2 (erewrite run_bind by done).
  set (bs' := <[Z.to_nat a:=null_block s]> (list_of s r ++ [b])).
  set (s2 := with_blocks (<[r:=bs']> (req_to_blocks s1)) s1).
  assert (req_to_blocks s2 = <[r := bs']> (req_to_blocks s)) as Hb2.
  { unfold s2. simpl. by rewrite Hb1, insert_insert_eq. }
  assert (list_of s2 r = bs') as Hl2 by (rewrite Hb2, lookup_insert_eq; done).
  assert (own s2 p l) as Ho2.
  { eapply (own_reorder s p l r bs' 1); [done| |done|apply Ha1]. unfold bs'. rewrite (ow_null _ _ _ _ Ho).
    by apply move_perm. }
  assert (length bs' = Datatypes.S (length (list_of s r))) as Hlen
    by (unfold bs'; rewrite length_insert, length_app; simpl; lia).
  destruct (IH s2 (a + 1) Ho2) as (s' & Hrun' & Ho' & Ha' & Hl'); [lia|rewrite Hl2; lia|].
  exists s'. split; [exact Hrun'|]. split; [done|]. split; [by eapply same_attrs_trans; [exact Ha1|]|].
  rewrite Hl2 in Hl'. lia.
Qed.

Lemma keeps_mamba_align r n ns s p l :
  own s p l → 0 < block_size s → 0 ≤ ns →
  (r ∈ allocated_block_reqs s → ns ≤ Z.of_nat (length (list_of s r))) →
  owned (mamba_align_allocate r n ns (s, p)).2.
Proof.
  intros Ho Hbs Hns Hall. unfold mamba_align_allocate.
  destruct (blocks_of_run s p r) as (s1 & Hrun & Hb1 & Ha1 & _). erewrite run_bind by exact Hrun.
  assert (own s1 p l) as Ho1.
  { eapply (own_reorder s p l r (list_of s r) 0); [done|by rewrite app_nil_r|done|apply Ha1]. }
  assert (list_of s1 r = list_of s r) as Hl1 by (rewrite Hb1, lookup_insert_eq; done).
  erewrite (run_bind _ _ (s1, p) s1 (s1, p)) by done.
  assert (block_size s1 = block_size s) as Hb by apply Ha1.
  erewrite run_bind by (apply cdiv_run; lia). set (req := ceil_div n (block_size s1) + ns).
  set (prev := Z.of_nat (length (list_of s r))). case_bool_decide; [by exists l|].
  unfold assert_ at 1. case_bool_decide as Hlt; [|by exists l]. erewrite run_bind by done.
  assert (allocated_block_reqs s1 = allocated_block_reqs s) as Halloc by apply Ha1.
  rewrite Halloc. set (al := bool_decide (r ∈ allocated_block_reqs s)).
  (* the index of the last state *)
  match goal with |- context [bind (if al then ?m1 else ?m2) _] =>
    assert (∃ s2, (if al then m1 else m2) (s1, p) = (Ret tt, (s2, p)) ∧ req_to_blocks s2 = req_to_blocks s1 ∧
      null_block s2 = null_block s1) as (s2 & Hrun2 & Hb2 & Hn2) end.
  { destruct al; [by eexists|]. case_bool_decide; by eexists. }
  erewrite run_bind by exact Hrun2.
  assert (own s2 p l) as Ho2 by by eapply own_same.
  assert (list_of s2 r = list_of s r) as Hl2 by (by rewrite Hb2).
  (* null blocks for the skipped ones *)
  set (nsk := req - ns - 1).
  match goal with |- context [bind (if bool_decide (prev < nsk) then ?m1 else ?m2) _] =>
    assert (∃ s3, (if bool_decide (prev < nsk) then m1 else m2) (s2, p) = (Ret tt, (s3, p)) ∧ own s3 p l ∧
      null_block s3 = null_block s2 ∧ Z.of_nat (length (list_of s3 r)) = Z.max prev nsk) as (s3 & Hrun3 & Ho3 & Hn3 & Hl3) end.
  { destruct (decide (prev < nsk)); [rewrite bool_decide_true by done|rewrite bool_decide_false by done].
    2:{ exists s2. split_and!; [done|done|done|rewrite Hl2; fold prev; lia]. }
    eexists. split; [done|]. split; [|split; [done|]].
    - eapply (own_reorder s2 p l r _ (Z.to_nat (nsk - prev))); [done| |done|done].
      rewrite Hl2, (ow_null _ _ _ _ Ho1). done.
    - simpl. rewrite lookup_insert_eq. simpl. rewrite length_app, length_replicate. fold prev. lia. }
  erewrite run_bind by exact Hrun3.
  (* reusing the speculative blocks *)
  match goal with |- context [bind (if al then ?m1 else ?m2) _] =>
    assert (∃ s4, (if al then m1 else m2) (s3, p) = (Ret tt, (s4, p)) ∧ own s4 p l ∧
      Z.of_nat (length (list_of s4 r)) < req) as (s4 & Hrun4 & Ho4 & Hl4) end.
  { destruct al eqn:Hal; [|exists s3; split_and!; [done|done|lia]].
    apply bool_decide_eq_true in Hal. specialize (Hall Hal). fold prev in Hall.
    destruct (reuse_loop_run r nsk (Z.to_nat ns) (prev - ns) s3 p l Ho3) as (s4 & Hr4 & Ho4 & _ & Hl4); [lia|lia|].
    rewrite Z2Nat.id in Hr4, Hl4 by lia. exists s4. split_and!; [done|done|]. rewrite Hl4, Hl3. lia. }
  erewrite run_bind by exact Hrun4.
  destruct (blocks_of_run s4 p r) as (s5 & Hrun5 & Hb5 & Ha5 & _). erewrite run_bind by exact Hrun5.
  assert (own s5 p l) as Ho5.
  { eapply (own_reorder s4 p l r (list_of s4 r) 0); [done|by rewrite app_nil_r|done|apply Ha5]. }
  assert (list_of s5 r = list_of s4 r) as Hl5 by (rewrite Hb5, lookup_insert_eq; done).
  set (num := req - Z.of_nat (length (list_of s4 r))).
  match goal with |- context [bind (if al then ?m1 else ?m2) _] =>
    assert ((if al then m1 else m2) (s5, p) = (Ret tt, (s5, p)) ∨ (if al then m1 else m2) (s5, p) = (Raise AssertionError, (s5, p)))
    as [Hrun6|Hrun6] end.
  { destruct al; unfold assert_; match goal with |- context [bool_decide ?P] => destruct (bool_decide P) end; by (left + right). }
  2:{ erewrite run_raise by exact Hrun6. by exists l. }
  erewrite run_bind by exact Hrun6.
  pose proof (grow_own ext ext_nonneg s5 p l r num Ho5 ltac:(lia)) as Hg. case_decide.
  - destruct Hg as (p' & Hg & Hnum & Hown). erewrite run_bind by exact Hg. do 2 (erewrite run_bind by done).
    eexists. apply Hown; [simpl; by rewrite Hl5|done].
  - erewrite run_raise by exact Hg. by exists l.
Qed.

Lemma keeps_remove r n : keeps owned (remove_skipped_blocks r n).
Proof.
  intros [s p] Hs. unfold remove_skipped_blocks. erewrite (run_bind _ _ (s, p) s (s, p)) by done.
  pose proof (keeps_base_remove ext ext_nonneg r) as Hbase. destruct (kv_cache_spec s); try by apply Hbase.
  refine (keeps_bind owned _ _ (Hbase _) _ (s, p) Hs). intros _.
  destruct (String.eqb _ _); [|apply keeps_ret]. destruct (last_state_block_idx s !! r) as [idx|]; [|apply keeps_ret].
  apply keeps_bind; [apply keeps_bind; [apply keeps_floordiv|intros q; apply keeps_ret]|intros m].
  case_bool_decide; [|apply keeps_ret].
  intros [s1 p1] [l Ho]. simpl in Ho. destruct (blocks_of_run s1 p1 r) as (s2 & Hrun & Hb2 & Ha2 & _). erewrite run_bind by exact Hrun.
  assert (own s2 p1 l) as Ho2.
  { eapply (own_reorder s1 p1 l r (list_of s1 r) 0); [done|by rewrite app_nil_r|done|apply Ha2]. }
  destruct (list_get (list_of s1 r) idx) as [b|] eqn:Hget; [|by exists l]. erewrite run_bind by done.
  case_bool_decide as Hnull; [|by exists l].
  destruct (list_get_set (list_of s1 r) idx b (null_block s)) as (k & Hk & Hset); [done|].
  assert (null_block s = Blk 0) as Hn0 by (destruct Hs as [l0 Ho0]; exact (ow_null _ _ _ _ Ho0)).
  set (bs' := <[k := null_block s]> (list_of s1 r)) in *.
  assert (list_of s2 r = list_of s1 r) as Hl2 by (rewrite Hb2, lookup_insert_eq; done).
  pose proof (own_list _ _ _ _ r Ho) as Hok.
  assert (list_ok p1 (Blk 0 :: list_of s1 r)) as Hok0.
  { eapply list_ok_perm; [|apply (list_ok_null p1 (list_of s1 r) 1); [by eapply pi_size, ow_pool|exact Hok]]. solve_Permutation. }
  assert (b :: bs' ≡ₚ Blk 0 :: list_of s1 r) as Hperm.
  { unfold bs'. rewrite Hn0, insert_take_drop by by eapply lookup_lt_Some.
    rewrite <-(take_drop_middle (list_of s1 r) k b Hk) at 3. solve_Permutation. }
  assert (list_ok p1 (b :: bs')) as Hbb by by eapply list_ok_perm.
  assert (list_ok p1 bs' ∧ list_ok p1 [b]) as [Hok' Hokb].
  { destruct Hbb as [H1 H2]. change (b :: bs') with ([b] ++ bs') in H1, H2. rewrite filter_app in H2.
    apply NoDup_app in H2 as (? & _ & ?). split; (split; [|done]); intros b' Hb'; apply H1, elem_of_app; auto. }
  edestruct (release_run ext ext_nonneg s2 p1 l (with_blocks (<[r:=bs']> (req_to_blocks s2)) s2) r bs' [b] Ho2)
    as (p' & l' & Hrel & Ho' & _); [by left|done|done|done| | |].
  - intros b' ->%list_elem_of_singleton. rewrite Hl2. by eapply list_elem_of_lookup_2.
  - intros i Hi. rewrite Hl2. pose proof (count_in_perm (Blk i) _ _ Hperm) as Hc.
    change (b :: bs') with ([b] ++ bs') in Hc. change (Blk 0 :: list_of s1 r) with (replicate 1 (Blk 0) ++ list_of s1 r) in Hc.
    rewrite !count_in_app, count_in_nulls in Hc by congruence. lia.
  - erewrite run_bind by (apply on_pool_run; exact Hrel). rewrite Hset. erewrite run_bind by done. by exists l'.
Qed.

(** ** Caching *)
Definition owned_r (x : (SingleType.t * pool) * Request) : Prop := owned x.1.

Lemma keeps_on_self {A} (m : M (SingleType.t * pool) A) : keeps owned m → keeps owned_r (on_self m).
Proof. intros Hm. by apply (keeps_zoom _ owned). Qed.

Lemma keeps_attrs f :
  (∀ s, req_to_blocks (f s) = req_to_blocks s ∧ null_block (f s) = null_block s) → keeps owned (update_self f).
Proof.
  intros Hf. apply keeps_modify. intros [s p] [l Ho]. exists l. destruct (Hf s). by eapply own_same.
Qed.

Lemma keeps_mask a b c : keeps owned (_cache_block_mask a b c).
Proof.
  unfold _cache_block_mask. apply keeps_bind; [apply keeps_gets|]. intros s.
  destruct (kv_cache_spec s); try apply keeps_ret.
  all: apply keeps_bind; [apply keeps_assert|intros _]; apply keeps_bind; [apply keeps_floordiv|intros per];
    apply keeps_bind; [apply keeps_bind; [apply keeps_floordiv|intros q; apply keeps_ret]|intros tail];
    case_bool_decide; [apply keeps_ret|]; apply keeps_bind; [|intros m; apply keeps_ret];
    apply keeps_for_collect; intros i; apply keeps_bind; [|intros m; apply keeps_ret];
    intros x Hx; unfold pymod; by destruct (bool_decide _).
Qed.

Lemma keeps_base_cache r n al : keeps owned_r (base_cache_blocks embeds_digest r n al).
Proof.
  unfold base_cache_blocks. apply keeps_bind; [apply keeps_on_self, keeps_gets|intros s].
  apply keeps_bind; [apply keeps_floordiv|intros nf]. case_bool_decide; [apply keeps_ret|]. apply keeps_bind.
  { destruct al as [a|]; [|apply keeps_ret]. case_bool_decide; [apply keeps_ret|]. apply keeps_on_self, keeps_mask. }
  intros mask. intros [[s1 p] req] [l Ho]. destruct (blocks_of_run s1 p r) as (s2 & Hrun & Hb2 & Ha2 & _).
  assert (own s2 p l) as Ho2.
  { eapply (own_reorder s1 p l r (list_of s1 r) 0); [done|by rewrite app_nil_r|done|apply Ha2]. }
  erewrite (run_bind _ _ _ (list_of s1 r) ((s2, p), req)) by (unfold on_self, zoom; simpl; by rewrite Hrun).
  assert (keeps (λ x, x.1.1 = s2 ∧ counted_pr p l (x.1.2, x.2))
    (on_pool_request (cache_full_blocks embeds_digest (list_of s1 r) (default 0 (num_cached_block s !! r)) nf
       (block_size s) (kv_cache_group_id s) mask))) as Hk.
  { apply (keeps_zoom _ (counted_pr p l)); [|by intros [[??]?] [? ?]|by intros [[??]?] [??] [? _] ?].
    apply keeps_cache_full. by eapply lo_pool, own_list. }
  specialize (Hk ((s2, p), req)). unfold bind at 1. destruct (on_pool_request _ _) as [o [[s3 p'] req']].
  destruct Hk as [Hs3 (Hp' & Hcfg & Hcnt)]; [split; [done|]; split_and!; [apply Ho|done|done]|].
  simpl in Hs3, Hp', Hcfg, Hcnt. subst s3.
  assert (own s2 p' l) as Ho3.
  { assert (num_gpu_blocks p' = num_gpu_blocks p) as Hnum by apply Hcfg. destruct Ho2 as [_ ? Hr Hl Hx].
    split; [done|done| | |by unfold in_pool; rewrite Hnum].
    - intros i Hi Hi0. destruct (Hcnt (Blk i)) as (_ & -> & _). apply Hr; [|done]. unfold in_pool in *. by rewrite <-Hnum.
    - intros r' bs Hb. eapply list_ok_config; [done|by eapply Hl]. }
  destruct o; [|by exists l]. unfold on_self, update_self, zoom, modify. simpl. exists l. by eapply own_same.
Qed.

Lemma keeps_cache r n al : keeps owned_r (cache_blocks embeds_digest r n al).
Proof.
  unfold cache_blocks. apply keeps_bind; [apply keeps_on_self, keeps_gets|intros s].
  destruct (cls s); try apply keeps_base_cache; [|apply keeps_raise].
  apply keeps_bind; [apply keeps_base_cache|intros _]. apply keeps_bind; [apply keeps_on_self, keeps_gets|intros s1].
  case_bool_decide; [|apply keeps_ret].
  apply keeps_bind; [by apply keeps_on_self, keeps_blocks_of|intros bs].
  apply keeps_on_self, keeps_for_each. intros b. unfold note_cached. apply keeps_get. intros [s2 p2] Hs.
  destruct (is_null _); [done|]. destruct (block_hash _); [|done]. by apply keeps_attrs.
Qed.

(** ** The other methods *)
Lemma keeps_free r : keeps owned (free r).
Proof.
  unfold free. apply keeps_bind; [apply keeps_gets|intros s]. apply keeps_bind; [|intros _; by apply keeps_base_free].
  destruct (kv_cache_spec s); try apply keeps_ret. destruct (String.eqb _ _); [by apply keeps_attrs|apply keeps_ret].
Qed.

Lemma keeps_skipped n : keeps owned (get_num_skipped_tokens n).
Proof.
  unfold get_num_skipped_tokens. apply keeps_bind; [apply keeps_gets|intros s].
  destruct (kv_cache_spec s); try apply keeps_ret. apply keeps_bind; [apply keeps_floordiv|intros q; apply keeps_ret].
Qed.

Lemma keeps_base_num r n new tot nm cap : keeps owned (base_num_blocks_to_allocate r n new tot nm cap).
Proof.
  unfold base_num_blocks_to_allocate. apply keeps_bind; [apply keeps_gets|intros s].
  apply keeps_bind; [apply keeps_cdiv|intros k]. destruct (bool_decide (is_Some _)).
  - apply keeps_bind; [apply keeps_assert|intros _; apply keeps_ret].
  - apply keeps_bind; [apply keeps_skipped|intros sk]. apply keeps_bind; [apply keeps_floordiv|intros q].
    apply keeps_bind; [apply keeps_gets|intros p; apply keeps_ret].
Qed.

Lemma keeps_num r n new tot nm cap : keeps owned (get_num_blocks_to_allocate r n new tot nm cap).
Proof.
  unfold get_num_blocks_to_allocate. apply keeps_bind; [apply keeps_gets|intros s].
  destruct (kv_cache_spec s); try apply keeps_base_num. unfold mamba_num_blocks_to_allocate.
  apply keeps_get. intros [s1 p1] Hs.
  match goal with |- owned ((if ?b then _ else _) _).2 => destruct b end; [done|].
  match goal with |- owned ((if ?b then _ else _) _).2 => destruct b end; [by apply keeps_base_num|].
  refine (keeps_bind owned _ _ (keeps_cdiv _ _ _) _ _ Hs). intros k.
  apply keeps_bind; [by apply keeps_blocks_of|intros bs; apply keeps_ret].
Qed.

Lemma keeps_common r : keeps owned (get_num_common_prefix_blocks r).
Proof.
  unfold get_num_common_prefix_blocks. apply keeps_bind; [apply keeps_gets|intros s].
  destruct (cls s); try apply keeps_ret.
  all: apply keeps_bind; [by apply keeps_blocks_of|intros bs]; apply keeps_get; by intros [s1 p1].
Qed.

(** ** Sequences of operations *)
Inductive st_op :=
  | OpAllocComputed (r : string) (new : list ref) (local external : Z)
  | OpAllocNew (r : string) (num_tokens num_tokens_main_model : Z)
  | OpCache (req : Request) (r : string) (num_tokens : Z) (alignment : option Z)
  | OpRemoveSkipped (r : string) (num_computed : Z)
  | OpFree (r : string)
  | OpNumToAllocate (r : string) (num_tokens : Z) (new : list ref) (total main : Z) (cap : bool)
  | OpCommonPrefix (r : string)
  | OpTakeNewIds
  | OpNewStep.

Definition run_st_op (o : st_op) : M (SingleType.t * pool) unit :=
  match o with
  | OpAllocComputed r new local external => allocate_new_computed_blocks r new local external
  | OpAllocNew r n nm => _ <- allocate_new_blocks r n nm ;; ret tt
  | OpCache req r n al => zoom (λ x, (x, req)) (λ y _, y.1) (cache_blocks embeds_digest r n al)
  | OpRemoveSkipped r n => remove_skipped_blocks r n
  | OpFree r => free r
  | OpNumToAllocate r n new tot nm cap => _ <- get_num_blocks_to_allocate r n new tot nm cap ;; ret tt
  | OpCommonPrefix r => _ <- get_num_common_prefix_blocks r ;; ret tt
  | OpTakeNewIds => _ <- take_new_block_ids ;; ret tt
  | OpNewStep => new_step_starts
  end.

(** What the callers ensure: hits are blocks of the pool, none twice, in full
    blocks; and in Mamba's align mode a request that has been allocated holds at
    least its speculative blocks. *)
Definition st_op_ok s p (o : st_op) : Prop :=
  match o with
  | OpAllocComputed r new local external =>
      spec_ok (kv_cache_spec s) ∧ 0 < block_size s ∧ hits_ok s p new local external
  | OpAllocNew r n nm =>
      match kv_cache_spec s with
      | MambaSpec _ mode ns =>
          mode = "align" → 0 < block_size s ∧ 0 ≤ ns ∧
            (r ∈ allocated_block_reqs s → ns ≤ Z.of_nat (length (list_of s r)))
      | _ => True
      end
  | _ => True
  end.

Lemma alloc_computed_owned s p r new local external :
  owned (s, p) → spec_ok (kv_cache_spec s) → 0 < block_size s → hits_ok s p new local external →
  owned (allocate_new_computed_blocks r new local external (s, p)).2.
Proof.
  intros [l Ho] Hspec Hbs Hh. simpl in Ho. unfold allocate_new_computed_blocks.
  erewrite (run_bind _ _ (s, p) s (s, p)) by done.
  assert (owned (base_allocate_new_computed_blocks r new local external (s, p)).2) as Hbase.
  { destruct (num_cached_block s !! r) as [n|] eqn:Hc.
    { unfold base_allocate_new_computed_blocks. erewrite (run_bind _ _ (s, p) s (s, p)) by done.
      rewrite Hc, bool_decide_true by done. apply keeps_assert. by exists l. }
    destruct (decide (list_of s r = [])) as [He|Hne].
    - pose proof (take_hits_run ext ext_nonneg s p l r new local external Ho Hspec Hbs Hh Hc He) as Hrun.
      destruct (decide (want s new local external ≤ _)).
      + destruct Hrun as (s' & p' & -> & Ho' & _). by eexists.
      + destruct Hrun as (s' & p' & -> & Ho'). by eexists.
    - unfold base_allocate_new_computed_blocks. erewrite (run_bind _ _ (s, p) s (s, p)) by done.
      rewrite Hc, bool_decide_false by (by intros [? ?]).
      pose proof (keeps_blocks_of ext r (s, p) (ex_intro _ l Ho)) as Hk.
      destruct (blocks_of_run s p r) as (s1 & Hrun & _). rewrite Hrun in Hk. erewrite run_bind by exact Hrun.
      erewrite run_raise; [exact Hk|]. unfold assert_. by rewrite bool_decide_false. }
  destruct (cls s); try exact Hbase. apply keeps_assert. by exists l.
Qed.

Lemma alloc_new_owned s p r n nm :
  owned (s, p) → st_op_ok s p (OpAllocNew r n nm) → owned (allocate_new_blocks r n nm (s, p)).2.
Proof.
  intros Hs Hok. unfold allocate_new_blocks. erewrite (run_bind _ _ (s, p) s (s, p)) by done. simpl in Hok.
  pose proof (keeps_base_allocate ext ext_nonneg r) as Hbase. destruct (kv_cache_spec s); try by apply Hbase.
  destruct (String.eqb mamba_cache_mode "align") eqn:Hm; simpl; [|by apply Hbase].
  apply String.eqb_eq in Hm. destruct (Hok Hm) as (? & ? & ?). destruct Hs as [l Ho]. by eapply keeps_mamba_align.
Qed.

Lemma st_op_owned s p o : owned (s, p) → st_op_ok s p o → owned (run_st_op o (s, p)).2.
Proof.
  intros Hs Hok. destruct o; simpl.
  - destruct Hok as (? & ? & ?). by apply alloc_computed_owned.
  - pose proof (alloc_new_owned s p r num_tokens num_tokens_main_model Hs Hok) as Hr.
    unfold bind. by destruct (allocate_new_blocks _ _ _ _) as [[?|?] ?].
  - apply (keeps_zoom owned owned_r); [apply keeps_cache|by intros x|by intros x y|done].
  - by apply keeps_remove.
  - by apply keeps_free.
  - apply (keeps_bind owned); [apply keeps_num|intros; apply keeps_ret|done].
  - apply (keeps_bind owned); [apply keeps_common|intros; apply keeps_ret|done].
  - exact (keeps_attrs (with_new_ids []) (λ _, conj eq_refl eq_refl) (s, p) Hs).
  - unfold new_step_starts. refine (keeps_bind owned _ _ (keeps_gets _ _) _ _ Hs). intros s1.
    destruct (cls s1); try apply keeps_ret. by apply keeps_attrs.
Qed.

(** The states of a manager on its pool, from an empty manager on a pool whose
    references are those of the other managers. *)
Inductive st_reachable : SingleType.t → pool → Prop :=
  | sr_init s p l : pool_inv p l [] → null_block s = Blk 0 → req_to_blocks s = ∅ →
      (∀ i, in_pool p i → i ≠ 0 → ref_cnt (obj p (Blk i)) = ext i) → (∀ i, ext i ≠ 0 → in_pool p i) →
      st_reachable s p
  | sr_step s p o res s' p' : st_reachable s p → st_op_ok s p o → run_st_op o (s, p) = (res, (s', p')) →
      st_reachable s' p'.

Lemma st_reachable_owned s p : st_reachable s p → owned (s, p).
Proof.
  induction 1 as [s p l Hp Hn He Hr Hx|s p o res s' p' _ IH Hok Hrun].
  - exists l. split; [done|done| | |done].
    + intros i Hi Hi0. simpl in *. rewrite Hr by done. rewrite He. unfold held. rewrite map_to_list_empty. simpl. lia.
    + intros r bs. simpl. by rewrite He, lookup_empty.
  - pose proof (st_op_owned s p o IH Hok) as Ho. by rewrite Hrun in Ho.
Qed.

(** Whatever operations a single-type manager performs, errors included, the
    pool stays well formed, the reference count of every block is exactly the number
    of places the manager's requests hold it plus the references of other managers,
    no request holds a block twice, no held block is in the free queue (so it cannot
    be handed out again), and when nothing is held or referenced elsewhere every
    block is free: nothing leaks. *)
Lemma blocks_owned_exactly s p :
  st_reachable s p →
  ∃ l, pool_inv p l [] ∧
    (∀ i, in_pool p i → i ≠ 0 → ref_cnt (obj p (Blk i)) = held (req_to_blocks s) i + ext i) ∧
    (∀ r i, Blk i ∈ list_of s r → i ≠ 0 → in_pool p i ∧ Blk i ∉ l ∧ count_in (Blk i) (list_of s r) = 1) ∧
    ((∀ i, ext i = 0) → (∀ r, list_of s r = []) →
      ∀ i, in_pool p i → i ≠ 0 → Blk i ∈ l).
Proof.
  intros [l Ho]%st_reachable_owned. simpl in Ho. exists l. split_and!; [apply Ho|apply Ho| |].
  - intros r i Hb Hi0. pose proof (own_list _ _ _ _ r Ho) as Hok.
    destruct (lo_pool _ _ Hok _ Hb) as (j & [= <-] & Hi). split; [done|].
    pose proof (own_ref_pos ext ext_nonneg s p l r i Ho Hb Hi Hi0) as Hpos. split.
    + rewrite (in_free_list p l i (ow_pool _ _ _ _ Ho) Hi Hi0). lia.
    + pose proof (count_in_elem _ _ Hb). pose proof (count_le_1 p _ i Hok Hi0). lia.
  - intros Hext Hnone i Hi Hi0. rewrite (in_free_list p l i (ow_pool _ _ _ _ Ho) Hi Hi0).
    rewrite (ow_refs _ _ _ _ Ho i Hi Hi0), Hext. unfold held.
    assert (∀ x, x ∈ ((λ e, count_in (Blk i) e.2) <$> map_to_list (req_to_blocks s)) → x = 0) as Hz.
    { intros x ([r bs] & -> & Hin%elem_of_map_to_list)%list_elem_of_fmap. specialize (Hnone r).
      rewrite Hin in Hnone. simpl in *. by rewrite Hnone. }
    rewrite Z.add_0_r. revert Hz. generalize ((λ e, count_in (Blk i) e.2) <$> map_to_list (req_to_blocks s)).
    intros xs. induction xs as [|x xs IH]; intros Hz; [done|]. unfold total in *. simpl.
    rewrite (Hz x), IH by (first [intros y Hy; apply Hz, elem_of_cons; by right|apply elem_of_cons; by left]). done.
Qed.
End ops.
