(* ===== verification/SingleTypeAdmit.v ===== *)
(** * The single-type managers: the admission check is exact

    [get_num_blocks_to_allocate] is what the scheduler compares with the number of
    free blocks before it lets a request allocate. It counts exactly the blocks that
    the two allocation methods then take out of the free queue. *)

From S2P Require Import Prelude OrderedDict FreeQueue BlockHash BlockPool BlockPoolProps BlockPoolCache CacheHit.
Import BlockPool.
From S2P Require Import SingleType SingleTypeProps SingleTypeOwn.

Open Scope Z_scope.

Implicit Types (s : SingleType.t) (p : pool) (l bs : list ref) (r : string) (i : Z).

(** Attention specs whose managers use the methods of the base class. *)
Definition attention_spec (spec : KVCacheSpec) : bool :=
  match spec with MambaSpec _ _ _ | CrossAttentionSpec _ => false | _ => true end.

Section admission.
Context (ext : Z → Z) (ext_nonneg : ∀ i, 0 ≤ ext i).
Notation own := (own ext).

Lemma num_free p l : pool_inv p l [] → get_num_free_blocks p = Z.of_nat (length l).
Proof. intros Hp. by destruct (pi_queue _ _ _ Hp). Qed.

(** The blocks that leave the free queue when the hits are referenced. *)
Lemma evictable_count p l bs :
  pool_inv p l [] → list_ok p bs →
  Z.of_nat (length (filter (.∉ bs) l)) = Z.of_nat (length l) - _get_num_evictable_blocks p bs.
Proof.
  intros Hp [Hin Hnd]. unfold _get_num_evictable_blocks.
  assert (∀ b, b ∈ bs → is_evictable p b = true ↔ b ∈ l) as Hev.
  { intros b Hb. destruct (Hin b Hb) as (i & -> & Hi). unfold is_evictable.
    destruct (pi_blocks _ _ _ Hp i Hi) as [_ ->]. rewrite andb_true_iff, bool_decide_eq_true, negb_true_iff, bool_decide_eq_false.
    destruct (decide (i = 0)) as [->|Hi0].
    - split; [by intros [_ ?]|]. intros Hl. destruct (pi_free _ _ _ Hp (Blk 0)) as [Hf _].
      destruct Hf as (j & [= <-] & _ & ? & _); [by left|done].
    - rewrite (in_free_list p l i Hp Hi Hi0). tauto. }
  assert (filter (λ b, is_evictable p b = true) bs ≡ₚ filter (.∈ bs) l) as Hperm.
  { apply NoDup_Permutation.
    - eapply sublist_NoDup; [exact Hnd|]. rewrite (filter_ext_in _ (λ b, b ∈ l ∧ b ≠ Blk 0) bs).
      + rewrite <-list_filter_filter. apply sublist_filter.
      + intros b Hb. rewrite (Hev b Hb). split; [|by intros [? _]]. intros Hl. split; [done|]. intros ->.
        destruct (pi_free _ _ _ Hp (Blk 0)) as [Hf _]. destruct Hf as (j & [= <-] & _ & ? & _); [by left|done].
    - apply NoDup_filter. by eapply free_list_nodup.
    - intros b. rewrite !list_elem_of_filter. specialize (Hev b). tauto. }
  rewrite Hperm. clear. induction l as [|b l IH]; [done|]. rewrite !filter_cons.
  destruct (decide (b ∈ bs)); [rewrite decide_False by tauto|rewrite decide_True by done]; simpl; lia.
Qed.

Lemma base_allocate_run s p l r n :
  own s p l → 0 < block_size s →
  let need := Z.max 0 (ceil_div n (block_size s) - Z.of_nat (length (list_of s r))) in
  need ≤ Z.of_nat (length l) →
  ∃ s' p' nb, base_allocate_new_blocks r n (s, p) = (Ret nb, (s', p')) ∧ own s' p' (drop (Z.to_nat need) l) ∧
    list_of s' r = list_of s r ++ take (Z.to_nat need) l.
Proof.
  intros Ho Hbs need Hle. unfold base_allocate_new_blocks.
  destruct (blocks_of_run s p r) as (s1 & Hrun & Hb1 & Ha1 & _). erewrite run_bind by exact Hrun.
  assert (own s1 p l) as Ho1.
  { eapply (own_reorder ext s p l r (list_of s r) 0); [done|by rewrite app_nil_r|done|apply Ha1]. }
  assert (list_of s1 r = list_of s r) as Hl1 by (rewrite Hb1, lookup_insert_eq; done).
  erewrite (run_bind _ _ (s1, p) s1 (s1, p)) by done.
  assert (block_size s1 = block_size s) as Hb by apply Ha1. rewrite Hb. erewrite run_bind by by apply cdiv_run.
  case_bool_decide as Hn.
  { exists s1, p, []. assert (need = 0) as -> by lia. simpl. rewrite app_nil_r. by split_and!. }
  replace (ceil_div n (block_size s) - Z.of_nat (length (list_of s r))) with need by lia.
  pose proof (grow_run ext ext_nonneg s1 p l r need Ho1 ltac:(lia)) as Hg. rewrite decide_True in Hg by done.
  destruct Hg as (s' & p' & Hg1 & Hg2 & Ho' & _ & Hb' & _). exists s', p', (take (Z.to_nat need) l).
  erewrite run_bind by exact Hg1. erewrite run_bind by exact Hg2. split_and!; [done|done|].
  rewrite Hb', lookup_insert_eq. simpl. by rewrite Hl1.
Qed.

(** What the two callers of the check guarantee of a running request and of a new one. *)
Definition request_ok s p r new local external (num_tokens : Z) : Prop :=
  match num_cached_block s !! r with
  | Some _ => new = []
  | None => list_of s r = [] ∧ hits_ok s p new local external ∧ local + external ≤ num_tokens
  end.

Lemma num_to_allocate_run s p r n new tot nm :
  spec_ok (kv_cache_spec s) → 0 < block_size s → attention_spec (kv_cache_spec s) = true →
  (is_Some (num_cached_block s !! r) → new = []) → (num_cached_block s !! r = None → list_of s r = []) →
  get_num_blocks_to_allocate r n new tot nm false (s, p) =
    (Ret (match num_cached_block s !! r with
          | Some _ => Z.max 0 (ceil_div n (block_size s) - Z.of_nat (length (list_of s r)))
          | None => let k := skipped_tokens (kv_cache_spec s) tot / block_size s in
              Z.max 0 (ceil_div n (block_size s) - Z.max k (Z.of_nat (length new))) +
              _get_num_evictable_blocks p (drop (Z.to_nat k) new)
          end), (s, p)).
Proof.
  intros Hspec Hbs Hatt Hrun Hnew. unfold get_num_blocks_to_allocate.
  erewrite (run_bind _ _ (s, p) s (s, p)) by done.
  assert (base_num_blocks_to_allocate r n new tot nm false (s, p) = (Ret (match num_cached_block s !! r with
          | Some _ => Z.max 0 (ceil_div n (block_size s) - Z.of_nat (length (list_of s r)))
          | None => let k := skipped_tokens (kv_cache_spec s) tot / block_size s in
              Z.max 0 (ceil_div n (block_size s) - Z.max k (Z.of_nat (length new))) +
              _get_num_evictable_blocks p (drop (Z.to_nat k) new)
          end), (s, p))) as Hbase; [|destruct (kv_cache_spec s); done].
  unfold base_num_blocks_to_allocate. erewrite (run_bind _ _ (s, p) s (s, p)) by done.
  erewrite run_bind by by apply cdiv_run. assert (∀ x : Z, match max_admission_blocks_per_request s with Some _ | None => x end = x) as Hcap
    by (by destruct (max_admission_blocks_per_request s)). rewrite Hcap.
  destruct (num_cached_block s !! r) as [c|] eqn:Hc.
  - rewrite bool_decide_true by done. rewrite Hrun by done. erewrite run_bind by done. unfold ret. do 2 f_equal. lia.
  - rewrite bool_decide_false by (by intros [? ?]). erewrite run_bind by by apply skipped_run.
    erewrite run_bind by by apply floordiv_run. erewrite run_bind by done. unfold ret. rewrite (Hnew eq_refl). simpl.
    do 2 f_equal. set (k := skipped_tokens _ _ / _). replace (Z.to_nat (Z.max 0 (k - Z.of_nat 0))) with (Z.to_nat k) by lia. lia.
Qed.

End admission.
