(* ===== verification/SingleTypeExamples.v ===== *)
(** * Cache hits and single-type managers on a pool of eight blocks

    Witnesses for the theorems on cache hits and on the single-type managers, and a
    hit that the sliding-window search with EAGLE does not find. *)

From S2P Require Import Prelude OrderedDict FreeQueue BlockHash BlockPool BlockPoolProps BlockPoolCache CacheHit CacheHitProps.
Import BlockPool.
From S2P Require Import SingleType SingleTypeProps SingleTypeOwn SingleTypeAdmit.

Open Scope Z_scope.

(** Blocks 1 to 5 hold the first five blocks of a prompt, for group 0. *)
Definition empty_pool : pool :=
  match BlockPool.init 8 true 4 false None false with
  | Ret p => p
  | Raise _ => BlockPool.mk 0 true 0 (FreeKVCacheBlockQueue.mk ∅ 0) ∅ FakeHead true [] None false
  end.
Definition hit_key (n : Z) : bytes := [10 + n; 0; 0; 0; 0].
Definition hit_pool : pool :=
  foldl (λ p n, cached_at p n (hit_key n)) empty_pool [1; 2; 3; 4; 5].
Definition prompt : list bytes := [[11]; [12]; [13]; [14]; [15]; [16]].

Lemma empty_pool_inv : pool_inv empty_pool (Blk <$> seqZ 1 7) [].
Proof.
  destruct (pool_init_correct 8 true 4 false None false) as (p & Hp & Hinv & _); [lia|].
  unfold empty_pool. rewrite Hp. exact Hinv.
Qed.

Lemma hit_pool_inv : pool_inv hit_pool (Blk <$> seqZ 1 7) [].
Proof.
  unfold hit_pool. cbn [foldl].
  do 5 (apply cache_one; [|by vm_compute|done|by vm_compute]). apply empty_pool_inv.
Qed.

Lemma prompt_search n : 0 ≤ n → search_ok hit_pool (Blk <$> seqZ 1 7) [0] (Plain prompt) prompt n.
Proof.
  intros Hn. split_and!; [apply hit_pool_inv|done| |done|done]. by intros g ->%list_elem_of_singleton.
Qed.

Lemma full_find_correct_witness :
  ∃ res k, find_longest_cache_hit FullAttentionManager (Plain prompt) 24 [0] (FullAttentionSpec 4) false 8 1 1 hit_pool =
      (Ret res, hit_pool) ∧ res = [[Blk 1; Blk 2; Blk 3; Blk 4]] ∧
    longest (λ k, usable hit_pool [0] prompt 4 8 24 k 0 k) k.
Proof.
  destruct (full_find_correct hit_pool _ [0] (Plain prompt) prompt 24 (FullAttentionSpec 4) false 8 1 1
    (prompt_search 24 ltac:(lia))) as (res & k & Hrun & _ & Hl); [done|done|done|].
  exists res, k. split; [exact Hrun|]. split; [|exact Hl].
  assert (find_longest_cache_hit FullAttentionManager (Plain prompt) 24 [0] (FullAttentionSpec 4) false 8 1 1 hit_pool =
    (Ret [[Blk 1; Blk 2; Blk 3; Blk 4]], hit_pool)) as Hv by by vm_compute.
  rewrite Hv in Hrun. symmetry. exact (ret_inj _ _ _ _ Hrun).
Defined.

Lemma swa_find_correct_witness :
  ∃ res k, find_longest_cache_hit SlidingWindowManager (Plain prompt) 24 [0] (SlidingWindowSpec 4 9) false 4 1 1 hit_pool =
      (Ret res, hit_pool) ∧ res = [[Blk 0; Blk 0; Blk 0; Blk 4; Blk 5]] ∧
    hit_blocks hit_pool [0] prompt res (k - 2) k.
Proof.
  destruct (swa_find_correct hit_pool _ [0] (Plain prompt) prompt 24 (SlidingWindowSpec 4 9) 4 9 false 4
    (prompt_search 24 ltac:(lia))) as (res & k & Hrun & Hh & _); [by left|done|done|by vm_compute|].
  exists res, k. split; [exact Hrun|]. split; [|exact Hh].
  assert (find_longest_cache_hit SlidingWindowManager (Plain prompt) 24 [0] (SlidingWindowSpec 4 9) false 4 1 1 hit_pool =
    (Ret [[Blk 0; Blk 0; Blk 0; Blk 4; Blk 5]], hit_pool)) as Hv by by vm_compute.
  rewrite Hv in Hrun. symmetry. exact (ret_inj _ _ _ _ Hrun).
Defined.

Lemma mamba_find_correct_witness :
  ∃ res k, find_longest_cache_hit MambaManager (Plain prompt) 24 [0] (MambaSpec 4 "align" 0) false 8 1 1 hit_pool =
      (Ret res, hit_pool) ∧ res = [[Blk 0; Blk 0; Blk 0; Blk 4]] ∧ hit_blocks hit_pool [0] prompt res (k - 1) k.
Proof.
  destruct (mamba_find_correct hit_pool _ [0] (Plain prompt) prompt 24 4 "align" 0 8
    (prompt_search 24 ltac:(lia))) as (res & k & Hrun & Hh & _); [done|done|by vm_compute|].
  exists res, k. split; [exact Hrun|]. split; [|exact Hh].
  assert (find_longest_cache_hit MambaManager (Plain prompt) 24 [0] (MambaSpec 4 "align" 0) false 8 1 1 hit_pool =
    (Ret [[Blk 0; Blk 0; Blk 0; Blk 4]], hit_pool)) as Hv by by vm_compute.
  rewrite Hv in Hrun. symmetry. exact (ret_inj _ _ _ _ Hrun).
Defined.

Lemma chunked_find_correct_witness :
  ∃ res k, find_longest_cache_hit ChunkedLocalAttentionManager (Plain prompt) 23 [0] (ChunkedLocalAttentionSpec 4 8)
      false 4 1 1 hit_pool = (Ret res, hit_pool) ∧ res = [[Blk 0; Blk 0; Blk 0; Blk 0; Blk 5]] ∧
    hit_blocks hit_pool [0] prompt res 4 k.
Proof.
  destruct (chunked_find_correct hit_pool _ [0] (Plain prompt) prompt 23 4 8
    (prompt_search 23 ltac:(lia))) as (res & k & Hrun & Hh & _); [done|done|by vm_compute|].
  exists res, k. split; [exact Hrun|]. split; [|exact Hh].
  assert (find_longest_cache_hit ChunkedLocalAttentionManager (Plain prompt) 23 [0] (ChunkedLocalAttentionSpec 4 8)
      false 4 1 1 hit_pool = (Ret [[Blk 0; Blk 0; Blk 0; Blk 0; Blk 5]], hit_pool)) as Hv by by vm_compute.
  rewrite Hv in Hrun. symmetry. exact (ret_inj _ _ _ _ Hrun).
Defined.

(** With EAGLE and an alignment above the block size, a hit that reaches the start of
    the prompt is aligned, shortened by one block and aligned again: here two blocks
    are returned although the first four, and the next one, are all cached. *)
Theorem swa_eagle_not_longest :
  find_longest_cache_hit SlidingWindowManager (Plain prompt) 20 [0] (SlidingWindowSpec 4 100) true 8 1 1 hit_pool =
    (Ret [[Blk 1; Blk 2]], hit_pool) ∧
  usable hit_pool [0] prompt 4 8 20 25 1 4.
Proof.
  split; [by vm_compute|]. right. split_and!; [lia|done|done|]. intros i Hi0 Hi.
  assert (i = 0 ∨ i = 1 ∨ i = 2 ∨ i = 3 ∨ i = 4) as [-> |[-> |[-> |[-> | ->]]]] by lia;
    eexists; (split; [by vm_compute|]);
    (apply (found_iff hit_pool _ [0] hit_pool_inv); [by intros g ->%list_elem_of_singleton|by vm_compute; eexists]).
Qed.

(** ** A manager for full attention *)
Definition no_ext (i : Z) : Z := 0.
Definition no_embeds_digest (rows : list Z) : bytes := [].
Definition full_manager : SingleType.t :=
  SingleType.mk (FullAttentionSpec 4) 4 true None [] ∅ ∅ 0 (Blk 0) ∅ ∅ ∅ [].

Lemma no_ext_nonneg i : 0 ≤ no_ext i.
Proof. done. Qed.

Lemma hit_pool_counts i : in_pool hit_pool i → i ≠ 0 → ref_cnt (obj hit_pool (Blk i)) = no_ext i.
Proof.
  intros Hi Hi0. change (0 ≤ i < 8) in Hi.
  assert (i = 1 ∨ i = 2 ∨ i = 3 ∨ i = 4 ∨ i = 5 ∨ i = 6 ∨ i = 7) as [-> |[-> |[-> |[-> |[-> |[-> | ->]]]]]] by lia; by vm_compute.
Qed.

Lemma full_manager_reachable : st_reachable no_ext no_embeds_digest full_manager hit_pool.
Proof. eapply sr_init; [apply hit_pool_inv|done|done|apply hit_pool_counts|done]. Qed.

(** Two cached blocks. *)
Lemma two_hits : hits_ok full_manager hit_pool [Blk 1; Blk 2] 8 0.
Proof.
  split; [|done|done|done]. split.
  - intros b [->|[->|[]%not_elem_of_nil]%elem_of_cons]%elem_of_cons; eexists; (split; [done|]); by vm_compute.
  - apply (NoDup_cons_2 (Blk 1) [Blk 2]); [by rewrite list_elem_of_singleton|apply NoDup_singleton].
Qed.

Lemma blocks_owned_exactly_witness :
  ∃ s p l, run_st_op no_embeds_digest (OpAllocComputed "r" [Blk 1; Blk 2] 8 0) (full_manager, hit_pool) = (Ret tt, (s, p)) ∧
    pool_inv p l [] ∧ ref_cnt (obj p (Blk 1)) = held (req_to_blocks s) 1 + no_ext 1.
Proof.
  destruct (run_st_op no_embeds_digest (OpAllocComputed "r" [Blk 1; Blk 2] 8 0) (full_manager, hit_pool))
    as [o [s p]] eqn:Hrun.
  destruct (blocks_owned_exactly no_ext no_ext_nonneg no_embeds_digest s p) as (l & Hl & Href & _).
  - eapply sr_step; [apply full_manager_reachable| |exact Hrun]. split_and!; [done|done|apply two_hits].
  - assert ((run_st_op no_embeds_digest (OpAllocComputed "r" [Blk 1; Blk 2] 8 0) (full_manager, hit_pool)).1 = Ret tt) as Ho
      by by vm_compute.
    assert (num_gpu_blocks (run_st_op no_embeds_digest (OpAllocComputed "r" [Blk 1; Blk 2] 8 0) (full_manager, hit_pool)).2.2 = 8)
      as Hn by by vm_compute.
    rewrite Hrun in Ho, Hn. simpl in Ho, Hn. subst o. exists s, p, l. split; [done|]. split; [exact Hl|].
    apply Href; [unfold in_pool; lia|done].
Defined.

