(* ===== verification/RequestQueue.v ===== *)
(** * Request queues

    [FCFSRequestQueue] and [PriorityRequestQueue] of
    src/vllm/v1/core/sched/request_queue.py and [Request.__lt__] (v1/request.py),
    over the binary heap of Python's [heapq]. A request is seen through what it is
    ordered by: the priority, the arrival time (a finite float, as the integer
    multiple of the least positive float that it is), the code points of its id and
    the identity of the object. Requests compare equal only to themselves. *)

From S2P Require Import Prelude.

Open Scope Z_scope.

(** ** heapq *)
Section heapq.
Context {A : Type} `{!Inhabited A} (lt : A → A → bool).
Local Open Scope nat_scope.

(** The loop of [_siftdown]: [newitem] moves up from [pos] past larger parents. *)
Fixpoint siftdown_loop (fuel startpos pos : nat) (newitem : A) (heap : list A) : list A :=
  match fuel with
  | O => <[pos := newitem]> heap
  | S f =>
      if bool_decide (startpos < pos) then
        let parentpos := (pos - 1) / 2 in
        let parent := heap !!! parentpos in
        if lt newitem parent then siftdown_loop f startpos parentpos newitem (<[pos := parent]> heap)
        else <[pos := newitem]> heap
      else <[pos := newitem]> heap
  end.
Definition _siftdown (heap : list A) (startpos pos : nat) : list A :=
  siftdown_loop (S pos) startpos pos (heap !!! pos) heap.

(** The loop of [_siftup]: the smaller child moves up until a leaf is reached. *)
Fixpoint siftup_loop (fuel pos : nat) (heap : list A) : list A * nat :=
  match fuel with
  | O => (heap, pos)
  | S f =>
      let childpos := 2 * pos + 1 in
      if bool_decide (childpos < length heap) then
        let rightpos := childpos + 1 in
        let childpos :=
          if bool_decide (rightpos < length heap) && negb (lt (heap !!! childpos) (heap !!! rightpos))
          then rightpos else childpos in
        siftup_loop f childpos (<[pos := heap !!! childpos]> heap)
      else (heap, pos)
  end.
Definition _siftup (heap : list A) (pos : nat) : list A :=
  let newitem := heap !!! pos in
  let '(heap, leaf) := siftup_loop (length heap) pos heap in
  _siftdown (<[leaf := newitem]> heap) pos leaf.

Definition heappush (heap : list A) (item : A) : list A := _siftdown (heap ++ [item]) 0 (length heap).

(** [None] is the [IndexError] of an empty heap. *)
Definition heappop (heap : list A) : option (A * list A) :=
  match list_pop heap with
  | None => None
  | Some (lastelt, []) => Some (lastelt, [])
  | Some (lastelt, returnitem :: rest) => Some (returnitem, _siftup (lastelt :: rest) 0)
  end.

Definition heapify (heap : list A) : list A :=
  foldl _siftup heap (rev (seq 0 (length heap / 2))).
End heapq.

(** ** Requests and their order *)
Record Request := mkRequest { priority : Z; arrival_time : Z; request_id : list Z; oid : Z }.

#[global] Instance request_inhabited : Inhabited Request := populate (mkRequest 0 0 [] 0).
#[global] Instance request_eq_dec : EqDecision Request.
Proof. solve_decision. Defined.

(** [str.__lt__]: lexicographic on code points *)
Fixpoint str_lt (a b : list Z) : bool :=
  match a, b with
  | [], [] => false
  | [], _ :: _ => true
  | _ :: _, [] => false
  | x :: a', y :: b' => if bool_decide (x = y) then str_lt a' b' else bool_decide (x < y)
  end.

(** [Request.__lt__] *)
Definition request_lt (a b : Request) : bool :=
  if bool_decide (priority a ≠ priority b) then bool_decide (priority a < priority b)
  else if bool_decide (arrival_time a ≠ arrival_time b) then bool_decide (arrival_time a < arrival_time b)
  else if bool_decide (request_id a ≠ request_id b) then str_lt (request_id a) (request_id b)
  else bool_decide (oid a < oid b).

(** [list.remove(x)]: the first element equal to [x], or [ValueError]; a request is
    equal only to itself. *)
Fixpoint list_remove (x : Request) (l : list Request) : option (list Request) :=
  match l with
  | [] => None
  | y :: l' => if bool_decide (oid y = oid x) then Some l' else cons y <$> list_remove x l'
  end.
(** [r in set(requests)] *)
Definition among (requests : list Request) (r : Request) : Prop := oid r ∈ oid <$> requests.
#[global] Instance among_dec requests r : Decision (among requests r).
Proof. unfold among. apply _. Defined.

(** ** First come, first served: a deque *)
Module FCFSRequestQueue.
Notation t := (list Request).

Definition init : t := [].
Definition add_request (r : Request) : M t unit := modify (λ q, q ++ [r]).
Definition pop_request : M t Request :=
  q <- get ;; match q with [] => raise IndexError | r :: q' => put q' ;; ret r end.
Definition peek_request : M t Request :=
  q <- get ;; match q with [] => raise IndexError | r :: _ => ret r end.
Definition prepend_request (r : Request) : M t unit := modify (cons r).
(** [extendleft] reverses *)
Definition prepend_requests (requests : list Request) : M t unit := modify (λ q, rev requests ++ q).
Definition remove_request (r : Request) : M t unit :=
  q <- get ;; q' <- of_option ValueError (list_remove r q) ;; put q'.
Definition remove_requests (requests : list Request) : M t unit :=
  modify (filter (λ r, ¬ among requests r)).
Definition len (q : t) : Z := Z.of_nat (length q).
Definition iter (q : t) : list Request := q.
End FCFSRequestQueue.

(** ** By priority: a heap *)
Module PriorityRequestQueue.
Record t := mk { heap : list Request }.

Definition init : t := mk [].
Definition add_request (r : Request) : M t unit := modify (λ q, mk (heappush request_lt (heap q) r)).
Definition pop_request : M t Request :=
  q <- get ;;
  '(r, h) <- of_option IndexError (heappop request_lt (heap q)) ;;
  put (mk h) ;; ret r.
Definition peek_request : M t Request :=
  q <- get ;; of_option IndexError (head (heap q)).
Definition prepend_request (r : Request) : M t unit := add_request r.
Definition prepend_requests (requests : list Request) : M t unit := for_each requests add_request.
Definition remove_request (r : Request) : M t unit :=
  q <- get ;;
  h <- of_option ValueError (list_remove r (heap q)) ;;
  put (mk (heapify request_lt h)).
Definition remove_requests (requests : list Request) : M t unit :=
  modify (λ q, mk (heapify request_lt (filter (λ r, ¬ among requests r) (heap q)))).
Definition len (q : t) : Z := Z.of_nat (length (heap q)).

(** The loop of [__iter__] pops a copy of the heap until it is empty. *)
Fixpoint drain (fuel : nat) (heap_copy : list Request) : list Request :=
  match fuel with
  | O => []
  | S f => match heappop request_lt heap_copy with
           | None => []
           | Some (r, h) => r :: drain f h
           end
  end.
Definition iter (q : t) : list Request := drain (S (length (heap q))) (heap q).
End PriorityRequestQueue.

(** ** Creating a queue *)
Inductive SchedulingPolicy := FCFS | PRIORITY.
Inductive request_queue := FCFSQueue (q : FCFSRequestQueue.t) | PriorityQueue (q : PriorityRequestQueue.t).
Definition create_request_queue (policy : SchedulingPolicy) : request_queue :=
  match policy with
  | PRIORITY => PriorityQueue PriorityRequestQueue.init
  | FCFS => FCFSQueue FCFSRequestQueue.init
  end.

Example heap_pops_in_order :
  PriorityRequestQueue.iter (PriorityRequestQueue.mk (heapify request_lt
    [mkRequest 2 5 [49] 1; mkRequest 0 9 [50] 2; mkRequest 2 4 [51] 3; mkRequest 0 9 [48] 4])) =
  [mkRequest 0 9 [48] 4; mkRequest 0 9 [50] 2; mkRequest 2 4 [51] 3; mkRequest 2 5 [49] 1].
Proof. by vm_compute. Qed.
