(* ===== verification/RequestQueueProps.v ===== *)
(** * Request queues: the heap is a priority queue

    The heap invariant of [heapq], and that [heappush], [heappop] and [heapify]
    establish and keep it while they only permute the items, for any strict weak order. *)

From S2P Require Import Prelude RequestQueue.

Open Scope nat_scope.

(** What a heap needs of its order: a strict weak order. *)
Class HeapOrder {A : Type} (lt : A → A → bool) : Prop := {
  lt_asym x y : lt x y = true → lt y x = false;
  le_trans x y z : lt y x = false → lt z y = false → lt z x = false
}.

Section heapq.
Context {A : Type} `{!Inhabited A} (lt : A → A → bool) `{!HeapOrder lt}.
Implicit Types (h : list A) (x y : A) (c pos start : nat).

(** [le x y] *)
Notation "x ⪯ y" := (lt y x = false) (at level 70).

Lemma le_refl x : x ⪯ x.
Proof. destruct (lt x x) eqn:E; [by rewrite (lt_asym _ _ E) in E|done]. Qed.

(** ** Positions *)
Definition parent c : nat := (c - 1) / 2.

Lemma parent_lt c : 0 < c → parent c < c.
Proof. intros. unfold parent. apply Nat.Div0.div_lt_upper_bound. lia. Qed.

Lemma parent_child c pos : 0 < c → parent c = pos ↔ c = 2 * pos + 1 ∨ c = 2 * pos + 2.
Proof.
  intros Hc. unfold parent. pose proof (Nat.div_mod (c - 1) 2 ltac:(lia)).
  pose proof (Nat.mod_upper_bound (c - 1) 2 ltac:(lia)). lia.
Qed.

(** [pos] lies in the subtree of [start]. *)
Inductive desc start : nat → Prop :=
  | desc_refl : desc start start
  | desc_child c : 0 < c → desc start (parent c) → desc start c.

Lemma desc_le start pos : desc start pos → start ≤ pos.
Proof. induction 1; [lia|]. pose proof (parent_lt c ltac:(lia)). lia. Qed.

Lemma desc_parent start pos : desc start pos → start < pos → desc start (parent pos) ∧ start ≤ parent pos.
Proof. intros Hd Hlt. destruct Hd; [lia|]. auto using desc_le. Qed.

(** ** The invariant *)

(** The item at [c] is not below its parent. *)
Definition edge h c : Prop := h !!! parent c ⪯ h !!! c.
(** The subtrees of the positions from [start] on are in order. *)
Definition heap_from start h : Prop := ∀ c, 0 < c < length h → start ≤ parent c → edge h c.
Notation is_heap := (heap_from 0).

Lemma root_least h c : is_heap h → c < length h → h !!! 0 ⪯ h !!! c.
Proof.
  intros Hh. induction c as [[|c] IH] using lt_wf_ind; intros Hc; [apply le_refl|].
  pose proof (parent_lt (S c) ltac:(lia)).
  apply (le_trans _ (h !!! parent (S c))); [apply IH; lia|apply Hh; lia].
Qed.

(** [x] written over an item that was first written over the item at [j] *)
Lemma swap_perm h i j x :
  i < length h → j < length h → i ≠ j → <[i := x]> (<[j := h !!! i]> h) ≡ₚ <[j := x]> h.
Proof.
  intros Hi Hj Hne.
  assert (<[j := h !!! i]> h = <[j := h !!! i]> (<[j := x]> h)) as -> by by rewrite list_insert_insert_eq.
  apply Permutation_insert_swap.
  - by rewrite list_lookup_insert_eq.
  - rewrite list_lookup_insert_ne by done. by apply list_lookup_lookup_total_lt.
Qed.

(** ** [_siftdown] *)
Lemma siftdown_loop_perm fuel start pos x h :
  pos < length h → siftdown_loop lt fuel start pos x h ≡ₚ <[pos := x]> h.
Proof.
  revert pos h. induction fuel as [|fuel IH]; intros pos h Hpos; cbn [siftdown_loop]; [done|].
  case_bool_decide as Hs; [|done]. fold (parent pos). pose proof (parent_lt pos ltac:(lia)).
  destruct (lt x _); [|done]. rewrite IH by (rewrite length_insert; lia). apply swap_perm; lia.
Qed.

(** With [x] at [pos], only the edge above [pos] may be wrong. *)
Record rising start pos x h : Prop := {
  ri_edges : ∀ c, 0 < c < length h → start ≤ parent c → c ≠ pos → edge (<[pos := x]> h) c;
  ri_bridge : ∀ c, 0 < c < length h → parent c = pos → start < pos → h !!! parent pos ⪯ h !!! c
}.

Lemma rising_up start pos x h :
  pos < length h → start < pos → desc start pos → rising start pos x h →
  lt x (h !!! parent pos) = true → rising start (parent pos) x (<[pos := h !!! parent pos]> h).
Proof.
  intros Hpos Hs Hd [He Hb] Hlt. destruct (desc_parent _ _ Hd Hs) as [_ Hsq].
  set (q := parent pos) in *. pose proof (parent_lt pos ltac:(lia)) as Hq. fold q in Hq.
  assert (∀ c, 0 < c < length h → start ≤ parent c → c ≠ pos → parent c ≠ pos → edge h c) as He'.
  { intros c Hc Hp H1 H2. specialize (He c Hc Hp H1). unfold edge in He |- *.
    by rewrite !list_lookup_total_insert_ne in He by done. }
  split; intros c; rewrite length_insert; intros Hc Hp; pose proof (parent_lt c ltac:(lia)).
  - intros Hcq. unfold edge. destruct (decide (c = pos)) as [->|Hcp].
    + rewrite list_lookup_total_insert_eq by (rewrite length_insert; lia).
      rewrite list_lookup_total_insert_ne, list_lookup_total_insert_eq by lia. by apply lt_asym.
    + rewrite (list_lookup_total_insert_ne _ q c) by lia. rewrite (list_lookup_total_insert_ne _ pos c) by done.
      destruct (decide (parent c = pos)) as [E|Hpp].
      * rewrite E, list_lookup_total_insert_ne, list_lookup_total_insert_eq by lia. auto.
      * destruct (decide (parent c = q)) as [E|Hpq].
        -- rewrite E, list_lookup_total_insert_eq by (rewrite length_insert; lia).
           apply (le_trans _ (h !!! q)); [by apply lt_asym|]. rewrite <- E. by apply He'.
        -- rewrite !list_lookup_total_insert_ne by done. by apply He'.
  - intros Hsq'. pose proof (parent_lt q ltac:(lia)).
    destruct (desc_parent _ _ Hd Hs) as [Hdq _]. destruct (desc_parent _ _ Hdq Hsq') as [_ Hsp]. fold q in Hsp.
    rewrite (list_lookup_total_insert_ne _ pos (parent q)) by lia.
    assert (edge h q) as Heq by (apply He'; lia). destruct (decide (c = pos)) as [->|Hcp].
    + by rewrite list_lookup_total_insert_eq.
    + rewrite list_lookup_total_insert_ne by done. apply (le_trans _ (h !!! q)); [done|].
      rewrite <- Hp. apply He'; lia.
Qed.

Lemma siftdown_loop_heap fuel start pos x h :
  pos < fuel → pos < length h → desc start pos → rising start pos x h →
  heap_from start (siftdown_loop lt fuel start pos x h).
Proof.
  revert pos h. induction fuel as [|fuel IH]; intros pos h Hf Hpos Hd Hr; [lia|]. cbn [siftdown_loop].
  case_bool_decide as Hs.
  - fold (parent pos). pose proof (parent_lt pos ltac:(lia)). destruct (desc_parent _ _ Hd Hs) as [Hdq Hsq].
    destruct (lt x (h !!! parent pos)) eqn:E.
    + apply IH; [lia|rewrite length_insert; lia|done|by apply rising_up].
    + intros c; rewrite length_insert; intros Hc Hp. destruct (decide (c = pos)) as [->|].
      * unfold edge. by rewrite list_lookup_total_insert_eq, list_lookup_total_insert_ne by lia.
      * by apply Hr.
  - intros c; rewrite length_insert; intros Hc Hp. pose proof (parent_lt c ltac:(lia)).
    apply Hr; [done|done|]. apply desc_le in Hd. lia.
Qed.

(** ** [_siftup] *)

(** All edges but those of the hole [pos] are in order, and the neighbours of the hole
    are in order with each other. *)
Record hole start pos h : Prop := {
  hl_edges : ∀ c, 0 < c < length h → start ≤ parent c → c ≠ pos → parent c ≠ pos → edge h c;
  hl_bridge : ∀ c, 0 < c < length h → parent c = pos → start < pos → h !!! parent pos ⪯ h !!! c
}.

Lemma hole_down start pos child h :
  start ≤ pos → 0 < child < length h → parent child = pos →
  (∀ c, 0 < c < length h → parent c = pos → h !!! child ⪯ h !!! c) →
  hole start pos h → hole start child (<[pos := h !!! child]> h).
Proof.
  intros Hs Hch Hpc Hmin [He Hb]. pose proof (parent_lt child ltac:(lia)).
  split; intros c; rewrite length_insert; intros Hc Hp; pose proof (parent_lt c ltac:(lia)).
  - intros H1 H2. unfold edge. destruct (decide (c = pos)) as [->|Hcp].
    + rewrite list_lookup_total_insert_eq, list_lookup_total_insert_ne by lia. apply Hb; [done..|lia].
    + rewrite (list_lookup_total_insert_ne _ pos c) by done. destruct (decide (parent c = pos)) as [E|].
      * rewrite E, list_lookup_total_insert_eq by lia. auto.
      * rewrite list_lookup_total_insert_ne by done. by apply He.
  - intros Hsc. rewrite Hpc, list_lookup_total_insert_eq, list_lookup_total_insert_ne by lia.
    rewrite <- Hp. apply He; lia.
Qed.

Lemma siftup_loop_spec fuel start pos h x :
  length h ≤ pos + fuel → pos < length h → desc start pos → hole start pos h →
  let '(h', leaf) := siftup_loop lt fuel pos h in
  length h' = length h ∧ leaf < length h ∧ length h ≤ 2 * leaf + 1 ∧ desc start leaf ∧
  hole start leaf h' ∧ <[leaf := x]> h' ≡ₚ <[pos := x]> h.
Proof.
  revert pos h. induction fuel as [|fuel IH]; intros pos h Hf Hpos Hd Hh; [lia|]. cbn [siftup_loop].
  case_bool_decide as Hc; [|repeat split; (done || lia || apply Hh)].
  set (child := if _ && _ then _ else _).
  assert ((child = 2 * pos + 1 ∨ child = 2 * pos + 2) ∧ child < length h ∧
          ∀ c, 0 < c < length h → parent c = pos → h !!! child ⪯ h !!! c) as (Hch & Hlt & Hmin).
  { subst child. case_bool_decide as Hr; simpl.
    - destruct (lt _ _) eqn:E; simpl; (split_and!; [lia..|]); intros c Hc' Hp;
        apply parent_child in Hp as [->| ->]; try lia; try apply le_refl; replace (2 * pos + 2) with (2 * pos + 1 + 1) by lia;
        auto using le_refl, lt_asym.
    - split_and!; [lia..|]. intros c Hc' Hp. apply parent_child in Hp as [->| ->]; [apply le_refl|lia|lia]. }
  assert (parent child = pos) as Hpc by (apply parent_child; lia).
  assert (desc start child) as Hdc by (constructor; [lia|by rewrite Hpc]).
  specialize (IH child (<[pos := h !!! child]> h)). rewrite length_insert in IH.
  destruct (siftup_loop _ _ _ _) as [h' leaf].
  destruct IH as (? & ? & ? & ? & ? & Hperm); [lia|lia|done|apply hole_down; auto using desc_le; lia|].
  split_and!; try done. rewrite Hperm. apply swap_perm; lia.
Qed.

Lemma _siftup_spec h pos :
  pos < length h → heap_from (S pos) h →
  heap_from pos (_siftup lt h pos) ∧ _siftup lt h pos ≡ₚ h.
Proof.
  intros Hpos Hh. unfold _siftup, _siftdown.
  pose proof (siftup_loop_spec (length h) pos pos h (h !!! pos)) as Hl.
  destruct (siftup_loop _ _ _ _) as [h' leaf]. destruct Hl as (Hlen & Hleaf & Hend & Hd & [He Hb] & Hperm);
    [lia|done|constructor|split; [|lia]; intros c Hc Hp _ Hne; apply Hh; lia|].
  rewrite list_lookup_total_insert_eq by lia. split.
  - apply siftdown_loop_heap; [lia|rewrite length_insert; lia|done|].
    split; intros c; rewrite length_insert; intros Hc Hp.
    + intros Hne. rewrite list_insert_insert_eq. unfold edge.
      assert (parent c ≠ leaf) by (intros E; apply parent_child in E; lia).
      rewrite !list_lookup_total_insert_ne by done. apply He; (done || lia).
    + apply parent_child in Hp; lia.
  - rewrite siftdown_loop_perm by (rewrite length_insert; lia). rewrite list_insert_insert_eq, Hperm.
    by rewrite list_insert_id by (apply list_lookup_lookup_total_lt; lia).
Qed.

(** ** The operations *)
Lemma heappush_spec h x : is_heap h → is_heap (heappush lt h x) ∧ heappush lt h x ≡ₚ x :: h.
Proof.
  intros Hh. unfold heappush, _siftdown. rewrite lookup_total_app_r, Nat.sub_diag by done. cbn [lookup_total list_lookup_total].
  split; [apply siftdown_loop_heap|].
  - lia.
  - rewrite length_app. simpl. lia.
  - induction (length h) as [[|n] IH] using lt_wf_ind; [constructor|].
    constructor; [lia|]. apply IH, parent_lt. lia.
  - split; intros c; rewrite length_app; simpl; intros Hc Hp.
    + intros Hne. pose proof (parent_lt c ltac:(lia)). rewrite insert_app_r_alt, Nat.sub_diag by done. simpl.
      unfold edge. rewrite !lookup_total_app_l by lia. apply Hh; lia.
    + apply parent_child in Hp; lia.
  - rewrite siftdown_loop_perm by (rewrite length_app; simpl; lia).
    rewrite insert_app_r_alt, Nat.sub_diag by done. simpl. by rewrite Permutation_app_comm.
Qed.

Lemma heap_from_app start h l : heap_from start (h ++ l) → heap_from start h.
Proof.
  intros Hh c Hc Hp. pose proof (parent_lt c ltac:(lia)). specialize (Hh c).
  unfold edge in Hh |- *. rewrite length_app, !lookup_total_app_l in Hh by lia. apply Hh; lia.
Qed.

Lemma heap_from_head x y h : is_heap (x :: h) → heap_from 1 (y :: h).
Proof.
  intros Hh c Hc Hp. specialize (Hh c Hc ltac:(lia)). unfold edge in Hh |- *.
  destruct c as [|c]; [lia|]. by destruct (parent (S c)); [lia|].
Qed.

Lemma heappop_spec h :
  is_heap h →
  match heappop lt h with
  | None => h = []
  | Some (r, h') => h ≡ₚ r :: h' ∧ is_heap h' ∧ Forall (λ y, r ⪯ y) h' ∧ head h = Some r
  end.
Proof.
  intros Hh. unfold heappop. destruct (list_pop h) as [[last l]|] eqn:E; [|by apply list_pop_None].
  apply list_pop_Some in E as ->. destruct l as [|r rest].
  { split_and!; [done| |constructor|done]. intros c Hc. simpl in Hc. lia. }
  destruct (_siftup_spec (last :: rest) 0) as [Hheap Hperm]; [simpl; lia|eapply heap_from_head, heap_from_app, Hh|].
  assert ((r :: rest) ++ [last] ≡ₚ r :: _siftup lt (last :: rest) 0) as Hp.
  { rewrite Hperm. simpl. by rewrite (Permutation_app_comm rest). }
  split_and!; [done|done| |done]. apply Forall_forall. intros y Hy.
  assert (y ∈ (r :: rest) ++ [last]) as Hin by (rewrite Hp; by right).
  apply list_elem_of_lookup_1 in Hin as [i Hi]. rewrite <- (list_lookup_total_correct _ _ _ Hi).
  change r with (((r :: rest) ++ [last]) !!! 0). apply root_least; [done|]. by eapply lookup_lt_Some.
Qed.

Lemma heapify_spec h : is_heap (heapify lt h) ∧ heapify lt h ≡ₚ h.
Proof.
  unfold heapify.
  assert (∀ n h0, n ≤ length h / 2 → heap_from n h0 → h0 ≡ₚ h →
    is_heap (foldl (_siftup lt) h0 (rev (seq 0 n))) ∧ foldl (_siftup lt) h0 (rev (seq 0 n)) ≡ₚ h) as Hl.
  { induction n as [|n IH]; intros h0 Hn Hf Hp; [done|].
    rewrite seq_S, rev_app_distr. simpl. assert (length h0 = length h) by by rewrite Hp.
    pose proof (Nat.div_mod (length h) 2 ltac:(lia)).
    destruct (_siftup_spec h0 n) as [Hf' Hp']; [lia|done|]. apply IH; [lia|done|by rewrite Hp']. }
  apply Hl; [done| |done]. intros c Hc Hp. unfold parent in Hp.
  pose proof (Nat.div_mod (length h) 2 ltac:(lia)). pose proof (Nat.mod_upper_bound (length h) 2 ltac:(lia)).
  pose proof (Nat.div_mod (c - 1) 2 ltac:(lia)). lia.
Qed.
End heapq.
