(* ===== verification/RequestQueueRefine.v ===== *)
(** * Request queues: the priority queue refines a sorted list

    [Request.__lt__] is a strict total order. Against it, [PriorityRequestQueue] behaves
    like a list kept sorted by insertion: every sequence of operations gets the same
    replies, errors included (C39). *)

From S2P Require Import Prelude RequestQueue RequestQueueProps.
From Stdlib Require Import Sorting.Sorted.

Open Scope Z_scope.

(** ** Strict total orders *)
Class StrictTotal {A} (lt : A → A → bool) : Prop := {
  st_irrefl x : lt x x = false;
  st_trans x y z : lt x y = true → lt y z = true → lt x z = true;
  st_total x y : x = y ∨ lt x y = true ∨ lt y x = true
}.

Section strict_total.
Context {A} (lt : A → A → bool) `{!StrictTotal lt}.

#[export] Instance strict_total_heap_order : HeapOrder lt.
Proof.
  assert (∀ x y, lt x y = true → lt y x = false) as Has.
  { intros x y H. destruct (lt y x) eqn:E; [|done]. pose proof (st_trans x y x H E). by rewrite st_irrefl in *. }
  split; [done|]. intros x y z Hxy Hyz.
  destruct (st_total x y) as [->|[H|H]], (st_total y z) as [->|[H'|H']]; try congruence.
  apply Has. by apply (st_trans x y z).
Qed.

Lemma le_antisym x y : lt x y = false → lt y x = false → x = y.
Proof. intros. destruct (st_total x y) as [?|[?|?]]; congruence. Qed.
End strict_total.

#[export] Instance str_lt_total : StrictTotal str_lt.
Proof.
  split.
  - intros x. induction x as [|a x IH]; simpl; [done|]. by rewrite bool_decide_true.
  - intros x. induction x as [|a x IH]; intros [|b y] [|c z]; simpl; try done.
    repeat case_bool_decide; subst; try done; try lia; eauto.
  - intros x. induction x as [|a x IH]; intros [|b y]; simpl; auto.
    destruct (decide (a = b)) as [->|Hne].
    + rewrite bool_decide_true by done. destruct (IH y) as [->|[->|H]]; auto.
    + rewrite bool_decide_false, (bool_decide_false (b = a)) by congruence. rewrite !bool_decide_eq_true. lia.
Qed.

#[export] Instance request_lt_total : StrictTotal request_lt.
Proof.
  assert (∀ P `{Decision P}, bool_decide (¬ P) = negb (bool_decide P)) as Hneg.
  { intros P ?. by do 2 case_bool_decide. }
  split; unfold request_lt.
  - intros x. repeat case_bool_decide; try done; lia.
  - intros x y z. rewrite !Hneg. repeat (case_bool_decide; simpl); try done; try lia; try congruence.
    all: intros Hxy Hyz; pose proof (st_trans _ _ _ Hxy Hyz) as Hxz; try done.
    match goal with E : request_id x = request_id z |- _ => by rewrite E, st_irrefl in Hxz end.
  - intros [p a i o] [p' a' i' o']. simpl. rewrite !Hneg.
    repeat (case_bool_decide; simpl); auto; try lia; try congruence.
    + left. f_equal; (done || lia).
    + destruct (st_total i i') as [?|[?|?]]; auto; congruence.
Qed.

(** ** Sorted lists *)

Definition request_le (a b : Request) : Prop := request_lt b a = false.
Notation sorted := (StronglySorted request_le).

(** A sorted list is determined by what it holds. *)
Lemma sorted_unique l l' : sorted l → sorted l' → l ≡ₚ l' → l = l'.
Proof.
  intros Hl. revert l'. induction Hl as [|a l Hl IH Ha]; intros l' Hl' Hp.
  { by apply Permutation_nil_l in Hp. }
  destruct Hl' as [|b l' Hl' Hb]; [by apply symmetry, Permutation_nil_cons in Hp|].
  assert (a = b) as ->.
  { rewrite Forall_forall in Ha, Hb.
    assert (a ∈ b :: l') as [Hab|Hab]%elem_of_cons by (rewrite <- Hp; left); [done|].
    assert (b ∈ a :: l) as [Hba|Hba]%elem_of_cons by (rewrite Hp; left); [done|].
    apply (le_antisym request_lt); [by apply Hb|by apply Ha]. }
  f_equal. apply IH; [done|]. by apply Permutation_cons_inv in Hp.
Qed.

(** Popping until the heap is empty sorts it. *)
Lemma drain_spec fuel h :
  (length h < fuel)%nat → heap_from request_lt 0 h →
  sorted (PriorityRequestQueue.drain fuel h) ∧ PriorityRequestQueue.drain fuel h ≡ₚ h.
Proof.
  revert h. induction fuel as [|fuel IH]; intros h Hf Hh; [lia|]. simpl.
  pose proof (heappop_spec request_lt h Hh) as Hpop.
  destruct (heappop _ h) as [[r h']|]; [|subst; by split; [constructor|]].
  destruct Hpop as (Hp & Hh' & Hr & _).
  destruct (IH h') as [Hs Hp']; [apply Permutation_length in Hp; simpl in Hp; lia|done|].
  split; [|by rewrite Hp'].
  constructor; [done|]. by rewrite Hp'.
Qed.

(** ** The reference queue *)
Module SortedQueue.
Notation t := (list Request).
Fixpoint insert (r : Request) (q : t) : t :=
  match q with
  | [] => [r]
  | y :: q' => if request_lt y r then y :: insert r q' else r :: q
  end.
Definition add_request (r : Request) : M t unit := modify (insert r).
Definition pop_request : M t Request :=
  q <- get ;; match q with [] => raise IndexError | r :: q' => put q' ;; ret r end.
Definition peek_request : M t Request := q <- get ;; of_option IndexError (head q).
Definition prepend_requests (requests : list Request) : M t unit := for_each requests add_request.
Definition remove_request (r : Request) : M t unit :=
  q <- get ;; q' <- of_option ValueError (list_remove r q) ;; put q'.
Definition remove_requests (requests : list Request) : M t unit :=
  modify (filter (λ r, ¬ among requests r)).
End SortedQueue.

Lemma insert_perm r q : SortedQueue.insert r q ≡ₚ r :: q.
Proof.
  induction q as [|y q IH]; simpl; [done|]. destruct (request_lt y r); [|done]. rewrite IH. constructor.
Qed.

Lemma insert_sorted r q : sorted q → sorted (SortedQueue.insert r q).
Proof.
  induction 1 as [|y q Hq IH Hy]; simpl; [repeat constructor|]. destruct (request_lt y r) eqn:E.
  - constructor; [done|]. rewrite insert_perm. constructor; [by apply lt_asym|done].
  - do 2 constructor; auto. eapply Forall_impl; [done|]. intros z Hz. by apply (le_trans _ y).
Qed.

(** ** Requests are objects: the identity gives the request *)
Section objects.
Context (obj : Z → Request).

Definition objects (l : list Request) : Prop := Forall (λ r, r = obj (oid r)) l.

#[local] Instance objects_perm : Proper ((≡ₚ) ==> iff) objects.
Proof. intros l l' Hl. unfold objects. by rewrite Hl. Qed.

Lemma list_remove_spec r l :
  objects (r :: l) →
  match list_remove r l with None => r ∉ l | Some l' => l ≡ₚ r :: l' ∧ sublist l' l end.
Proof.
  intros [Hr Hl]%Forall_cons. induction Hl as [|y l Hy Hl IH]; simpl; [set_solver|].
  case_bool_decide as E.
  - assert (y = r) as -> by congruence. split; [done|]. by apply sublist_cons.
  - destruct (list_remove r l) as [l'|]; simpl.
    + destruct IH as [Hp ?]. split; [rewrite Hp; constructor|by apply sublist_skip].
    + set_solver.
Qed.

Lemma sorted_sublist l l' : sublist l l' → sorted l' → sorted l.
Proof.
  induction 1 as [|x l l' Hs IH|x l l' Hs IH]; [done|..]; intros [Hl' Hx]%StronglySorted_inv; [|auto].
  constructor; [auto|]. rewrite Forall_forall in *. intros y Hy. by apply Hx, (elem_of_sublist l).
Qed.

(** ** The operations of a queue and their replies *)
Inductive op :=
  | Add (r : Request) | Pop | Peek | Prepend (r : Request) | PrependAll (rs : list Request)
  | Remove (r : Request) | RemoveAll (rs : list Request) | Len | Iter.
Inductive reply := Done | Got (r : Request) | Size (n : Z) | All (rs : list Request) | Failed (e : exn).

Definition replying {S A} (f : A → reply) (m : M S A) (s : S) : reply * S :=
  let '(o, s') := m s in (match o with Ret a => f a | Raise e => Failed e end, s').

Definition heap_op (o : op) : PriorityRequestQueue.t → reply * PriorityRequestQueue.t :=
  match o with
  | Add r => replying (λ _, Done) (PriorityRequestQueue.add_request r)
  | Pop => replying Got PriorityRequestQueue.pop_request
  | Peek => replying Got PriorityRequestQueue.peek_request
  | Prepend r => replying (λ _, Done) (PriorityRequestQueue.prepend_request r)
  | PrependAll rs => replying (λ _, Done) (PriorityRequestQueue.prepend_requests rs)
  | Remove r => replying (λ _, Done) (PriorityRequestQueue.remove_request r)
  | RemoveAll rs => replying (λ _, Done) (PriorityRequestQueue.remove_requests rs)
  | Len => replying Size (gets PriorityRequestQueue.len)
  | Iter => replying All (gets PriorityRequestQueue.iter)
  end.

Definition sorted_op (o : op) : list Request → reply * list Request :=
  match o with
  | Add r | Prepend r => replying (λ _, Done) (SortedQueue.add_request r)
  | Pop => replying Got SortedQueue.pop_request
  | Peek => replying Got SortedQueue.peek_request
  | PrependAll rs => replying (λ _, Done) (SortedQueue.prepend_requests rs)
  | Remove r => replying (λ _, Done) (SortedQueue.remove_request r)
  | RemoveAll rs => replying (λ _, Done) (SortedQueue.remove_requests rs)
  | Len => replying Size (gets (λ q, Z.of_nat (length q)))
  | Iter => replying All (gets id)
  end.

Fixpoint replies {S} (step : op → S → reply * S) (s : S) (ops : list op) : list reply :=
  match ops with [] => [] | o :: ops' => let '(r, s') := step o s in r :: replies step s' ops' end.

(** The requests that an operation hands to the queue *)
Definition op_requests (o : op) : list Request :=
  match o with
  | Add r | Prepend r | Remove r => [r]
  | PrependAll rs | RemoveAll rs => rs
  | Pop | Peek | Len | Iter => []
  end.

(** ** The simulation *)
Record sim (q : PriorityRequestQueue.t) (s : list Request) : Prop := {
  sim_heap : heap_from request_lt 0 (PriorityRequestQueue.heap q);
  sim_sorted : sorted s;
  sim_perm : PriorityRequestQueue.heap q ≡ₚ s;
  sim_objects : objects s
}.

Lemma sim_iter q s : sim q s → PriorityRequestQueue.iter q = s.
Proof.
  intros [Hh Hs Hp _]. destruct (drain_spec (S (length (PriorityRequestQueue.heap q))) (PriorityRequestQueue.heap q))
    as [Hd Hdp]; [lia|done|]. apply sorted_unique; [done|done|]. unfold PriorityRequestQueue.iter. by rewrite Hdp.
Qed.

Lemma sim_add r q s :
  objects [r] → sim q s →
  sim (PriorityRequestQueue.mk (heappush request_lt (PriorityRequestQueue.heap q) r)) (SortedQueue.insert r s).
Proof.
  intros Hr [Hh Hs Hp Ho]. destruct (heappush_spec request_lt _ r Hh) as [Hh' Hp'].
  split; simpl; [done|by apply insert_sorted|by rewrite Hp', insert_perm, Hp|].
  rewrite insert_perm. constructor; [by apply Forall_inv in Hr|done].
Qed.

Lemma sim_add_all rs q s :
  objects rs → sim q s →
  ∃ q' s', PriorityRequestQueue.prepend_requests rs q = (Ret tt, q') ∧
           SortedQueue.prepend_requests rs s = (Ret tt, s') ∧ sim q' s'.
Proof.
  revert q s. induction rs as [|r rs IH]; intros q s Hrs Hsim; [by exists q, s|].
  apply Forall_cons in Hrs as [Hr Hrs].
  destruct (IH _ _ Hrs (sim_add r q s ltac:(by constructor) Hsim)) as (q' & s' & Hq & Hs & H). by exists q', s'.
Qed.

Lemma sim_pop q s :
  sim q s → match heappop request_lt (PriorityRequestQueue.heap q), s with
            | None, [] => True
            | Some (r, h), r' :: s' => r = r' ∧ sim (PriorityRequestQueue.mk h) s'
            | _, _ => False
            end.
Proof.
  intros Hsim. pose proof (sim_iter q s Hsim) as Hi. destruct Hsim as [Hh Hs Hp Ho].
  pose proof (heappop_spec request_lt _ Hh) as Hpop. unfold PriorityRequestQueue.iter in Hi. simpl in Hi.
  destruct (heappop _ _) as [[r h]|]; subst s; [|done]. destruct Hpop as (Hp' & Hh' & _).
  split; [done|]. apply StronglySorted_inv in Hs as [Hs _]. apply Forall_cons in Ho as [_ Ho].
  split; simpl; [done|done| |done]. apply (Permutation_cons_inv (a := r)). by etrans; [symmetry|].
Qed.

Lemma sim_peek q s : sim q s → head (PriorityRequestQueue.heap q) = head s.
Proof.
  intros Hsim. pose proof (sim_pop q s Hsim) as Hpop. destruct Hsim as [Hh _ _ _].
  pose proof (heappop_spec request_lt _ Hh) as Hsp. destruct (heappop _ _) as [[r h]|], s as [|r' s]; try done.
  - by destruct Hpop as [-> _], Hsp as (_ & _ & _ & ->).
  - by rewrite Hsp.
Qed.

Lemma sim_heapify h s : sorted s → h ≡ₚ s → objects s → sim (PriorityRequestQueue.mk (heapify request_lt h)) s.
Proof. intros Hs Hp Ho. destruct (heapify_spec request_lt h) as [? Hp']. split; simpl; try done. by rewrite Hp'. Qed.

Lemma sim_remove r q s :
  objects [r] → sim q s →
  match list_remove r (PriorityRequestQueue.heap q), list_remove r s with
  | None, None => True
  | Some h, Some s' => sim (PriorityRequestQueue.mk (heapify request_lt h)) s'
  | _, _ => False
  end.
Proof.
  intros Hr [Hh Hs Hp Ho].
  apply Forall_inv in Hr. assert (objects (r :: s)) as Hrs by by constructor.
  pose proof (list_remove_spec r s Hrs) as H1. rewrite <- Hp in Hrs.
  pose proof (list_remove_spec r (PriorityRequestQueue.heap q) Hrs) as H2.
  destruct (list_remove r s) as [s'|], (list_remove r (PriorityRequestQueue.heap q)) as [h|]; try done.
  - destruct H1 as [H1 Hsub], H2 as [H2 _]. rewrite H1 in Ho. apply Forall_cons in Ho as [_ Ho].
    apply sim_heapify; [by eapply sorted_sublist| |done].
    rewrite H1, H2 in Hp. by apply Permutation_cons_inv in Hp.
  - destruct H1 as [H1 _]. apply H2. rewrite Hp, H1. by left.
  - destruct H2 as [H2 _]. apply H1. rewrite <- Hp, H2. by left.
Qed.

Lemma sim_step o q s :
  objects (op_requests o) → sim q s →
  (heap_op o q).1 = (sorted_op o s).1 ∧ sim (heap_op o q).2 (sorted_op o s).2.
Proof.
  intros Ho Hsim. destruct o as [r| | |r|rs|r|rs| |]; simpl in *;
    unfold replying, PriorityRequestQueue.pop_request, SortedQueue.pop_request, PriorityRequestQueue.peek_request,
      SortedQueue.peek_request, PriorityRequestQueue.remove_request, SortedQueue.remove_request, bind, get; simpl.
  - split; [done|by apply sim_add].
  - pose proof (sim_pop q s Hsim) as H. destruct (heappop _ _) as [[r h]|], s as [|r' s']; try done.
    destruct H as [-> H]. by split.
  - rewrite (sim_peek q s Hsim). by destruct (head s).
  - split; [done|by apply sim_add].
  - by destruct (sim_add_all rs q s Ho Hsim) as (q' & s' & -> & -> & H).
  - pose proof (sim_remove r q s Ho Hsim) as H.
    by destruct (list_remove r (PriorityRequestQueue.heap q)), (list_remove r s).
  - split; [done|]. destruct Hsim as [Hh Hs Hp Hob]. apply sim_heapify.
    + eapply sorted_sublist; [apply sublist_filter|done].
    + by rewrite Hp.
    + unfold objects in *. rewrite Forall_forall in *. intros r Hr%list_elem_of_filter. apply Hob. naive_solver.
  - unfold PriorityRequestQueue.len. by rewrite (sim_perm _ _ Hsim).
  - by rewrite (sim_iter q s Hsim).
Qed.

(** C39: the priority queue refines a sorted list: whatever sequence of operations is
    run from the empty queue, every reply (the request popped or peeked, the order of
    iteration, the size, the [IndexError] of an empty queue, the [ValueError] of an
    absent request) is the one a list kept sorted by [Request.__lt__] gives; in
    particular requests leave by (priority, arrival time, id), whatever the order they
    came in. Requests are objects: the identity determines the request. *)
Theorem priority_queue_refines_sorted ops :
  Forall (λ o, objects (op_requests o)) ops →
  replies heap_op PriorityRequestQueue.init ops = replies sorted_op [] ops.
Proof.
  assert (sim PriorityRequestQueue.init []) as Hsim by (split; simpl; try constructor; intros c Hc; simpl in Hc; lia).
  revert Hsim. generalize PriorityRequestQueue.init (@nil Request). intros q s Hsim Hops. revert q s Hsim.
  induction Hops as [|o ops Ho Hops IH]; intros q s Hsim; [done|]. simpl.
  destruct (sim_step o q s Ho Hsim) as [Hr Hs].
  destruct (heap_op o q) as [r q'], (sorted_op o s) as [r' s']. simpl in *. subst. f_equal. by apply IH.
Qed.
End objects.

Lemma priority_queue_refines_sorted_witness :
  replies heap_op PriorityRequestQueue.init
    [Pop; Add (mkRequest 2 5 [49] 1); Add (mkRequest 0 9 [50] 2); PrependAll [mkRequest 2 4 [51] 3; mkRequest 0 9 [48] 4];
     Iter; Remove (mkRequest 0 9 [50] 2); Remove (mkRequest 0 9 [50] 2); Pop; Peek; Len] =
  [Failed IndexError; Done; Done; Done;
   All [mkRequest 0 9 [48] 4; mkRequest 0 9 [50] 2; mkRequest 2 4 [51] 3; mkRequest 2 5 [49] 1];
   Done; Failed ValueError; Got (mkRequest 0 9 [48] 4); Got (mkRequest 2 4 [51] 3); Size 2].
Proof.
  rewrite (priority_queue_refines_sorted (λ i, if bool_decide (i = 1) then mkRequest 2 5 [49] 1
    else if bool_decide (i = 2) then mkRequest 0 9 [50] 2 else if bool_decide (i = 3) then mkRequest 2 4 [51] 3
    else mkRequest 0 9 [48] 4)); [by vm_compute|].
  unfold objects. simpl. repeat constructor.
Defined.
