(* ===== verification/Coordinator.v ===== *)
(** * The KV-cache coordinators

    [KVCacheCoordinator] and its three subclasses of
    src/vllm/v1/core/kv_cache_coordinator.py: one single-type manager per KV-cache
    group over one shared block pool, and the search for the longest prefix that is
    cached for all groups at once. *)

From S2P Require Import Prelude OrderedDict FreeQueue BlockHash BlockPool CacheHit.
From S2P Require SingleType.

Open Scope Z_scope.

(** ** Configuration *)

#[global] Instance KVCacheSpec_eq_dec : EqDecision KVCacheSpec.
Proof. solve_decision. Defined.

(** A group of layers: its spec, as the fields the managers read and a tag for the
    value of all other fields, and whether it has EAGLE draft layers. *)
Record KVCacheGroupSpec := mkGroup { kv_cache_spec : KVCacheSpec; other_fields : Z; is_eagle_group : bool }.
Record KVCacheConfig := mkConfig { num_blocks : Z; kv_cache_groups : list KVCacheGroupSpec }.

(** [isinstance(spec, FullAttentionSpec)] *)
Definition is_full_attention (s : KVCacheSpec) : bool :=
  match s with
  | FullAttentionSpec _ | TQFullAttentionSpec _ | MLAAttentionSpec _ | HiddenStateCacheSpec _
  | SinkFullAttentionSpec _ _ => true
  | _ => false
  end.

(** The groups with one spec: the spec, the group ids and the manager class. *)
Record attention_group := mkAttn {
  ag_spec : KVCacheSpec; ag_other : Z; ag_ids : list Z; ag_cls : manager_class
}.

(** The attributes of the subclasses *)
Inductive variant :=
  | NoPrefixCache
  | Unitary (spec : KVCacheSpec) (block_size dcp_world_size pcp_world_size : Z)
  | Hybrid (hash_block_size : Z) (attention_groups : list attention_group) (lcm_block_size : Z)
      (eagle_attn_group_indices : gset Z).

Record t := mk {
  kv_cache_config : KVCacheConfig;
  max_model_len : Z;
  enable_caching : bool;
  eagle_group_ids : gset Z;
  single_type_managers : list SingleType.t;
  block_pool : BlockPool.t;
  kind : variant
}.

Definition with_managers ms p (c : t) : t :=
  mk (kv_cache_config c) (max_model_len c) (enable_caching c) (eagle_group_ids c) ms p (kind c).

(** A method of the [i]-th manager, which works on the shared pool. *)
Definition on_manager {A} (i : Z) (m : M (SingleType.t * BlockPool.t) A) : M t A := λ c,
  match single_type_managers c !! Z.to_nat i with
  | None => (Raise IndexError, c)
  | Some s =>
      let '(o, (s', p')) := m (s, block_pool c) in
      (o, with_managers (<[Z.to_nat i := s']> (single_type_managers c)) p' c)
  end.
Definition on_block_pool {A} (m : M BlockPool.t A) : M t A :=
  zoom block_pool (λ p c, with_managers (single_type_managers c) p c) m.

(** [enumerate(self.single_type_managers)] *)
Definition manager_ids : M t (list Z) :=
  gets (λ c, py_range (Z.of_nat (length (single_type_managers c)))).
Definition is_cross (i : Z) : M t bool :=
  gets (λ c, match single_type_managers c !! Z.to_nat i with
             | Some s => bool_decide (SingleType.cls s = CrossAttentionManager)
             | None => false
             end).

(** ** Operations on all groups *)
Definition get_num_blocks_to_allocate (request_id : string) (num_tokens : Z)
    (new_computed_blocks : list (list ref)) (num_encoder_tokens total_computed_tokens num_tokens_main_model : Z)
    (apply_admission_cap : bool) : M t Z :=
  ids <- manager_ids ;;
  ns <- for_collect ids (λ i,
    cross <- is_cross i ;;
    if cross : bool then
      on_manager i (SingleType.get_num_blocks_to_allocate request_id num_encoder_tokens [] 0 num_encoder_tokens
                      apply_admission_cap)
    else
      new <- of_option IndexError (list_get new_computed_blocks i) ;;
      on_manager i (SingleType.get_num_blocks_to_allocate request_id num_tokens new total_computed_tokens
                      num_tokens_main_model apply_admission_cap)) ;;
  ret (total ns).

Definition allocate_new_computed_blocks (request_id : string) (new_computed_blocks : list (list ref))
    (num_local_computed_tokens num_external_computed_tokens : Z) : M t unit :=
  ids <- manager_ids ;;
  for_each ids (λ i,
    new <- of_option IndexError (list_get new_computed_blocks i) ;;
    on_manager i (SingleType.allocate_new_computed_blocks request_id new num_local_computed_tokens
                    num_external_computed_tokens)).

Definition allocate_new_blocks (request_id : string) (num_tokens num_tokens_main_model num_encoder_tokens : Z)
    : M t (list (list ref)) :=
  ids <- manager_ids ;;
  for_collect ids (λ i,
    cross <- is_cross i ;;
    on_manager i (SingleType.allocate_new_blocks request_id (if cross : bool then num_encoder_tokens else num_tokens)
                    num_tokens_main_model)).

Definition free (request_id : string) : M t unit :=
  ids <- manager_ids ;; for_each ids (λ i, on_manager i (SingleType.free request_id)).

Definition get_num_common_prefix_blocks (running_request_id : string) : M t (list Z) :=
  k <- gets kind ;;
  ids <- manager_ids ;;
  match k with
  | NoPrefixCache => ret ((λ _, 0) <$> ids)
  | _ => for_collect ids (λ i, on_manager i (SingleType.get_num_common_prefix_blocks running_request_id))
  end.

Definition remove_skipped_blocks (request_id : string) (total_computed_tokens : Z) : M t unit :=
  ids <- manager_ids ;;
  for_each ids (λ i, on_manager i (SingleType.remove_skipped_blocks request_id total_computed_tokens)).

Definition get_blocks (request_id : string) (c : t) : list (list ref) :=
  (λ s, default [] (SingleType.req_to_blocks s !! request_id)) <$> single_type_managers c.

Definition new_step_starts : M t unit :=
  ids <- manager_ids ;; for_each ids (λ i, on_manager i SingleType.new_step_starts).

Section caching.
Context (embeds_digest : list Z → bytes).

(** [manager.cache_blocks], which also fills the request's cache of embedding digests *)
Definition on_manager_request {A} (i : Z) (m : M ((SingleType.t * BlockPool.t) * Request) A) : M (t * Request) A := λ x,
  match single_type_managers x.1 !! Z.to_nat i with
  | None => (Raise IndexError, x)
  | Some s =>
      let '(o, ((s', p'), r')) := m ((s, block_pool x.1), x.2) in
      (o, (with_managers (<[Z.to_nat i := s']> (single_type_managers x.1)) p' x.1, r'))
  end.

Definition cache_blocks (request_id : string) (num_computed_tokens : Z) : M (t * Request) unit :=
  '(c, _) <- get ;;
  let ids := py_range (Z.of_nat (length (single_type_managers c))) in
  match kind c with
  | Hybrid _ _ lcm_block_size _ =>
      q <- floordiv num_computed_tokens lcm_block_size ;;
      for_each ids (λ i, on_manager_request i (SingleType.cache_blocks embeds_digest request_id
                           (q * lcm_block_size) (Some lcm_block_size)))
  | _ => for_each ids (λ i, on_manager_request i (SingleType.cache_blocks embeds_digest request_id
                              num_computed_tokens None))
  end.
End caching.

(** ** The longest common cache hit *)
Section hybrid.
Context (hash_block_size lcm_block_size max_cache_hit_length : Z) (eagle_attn_group_indices : gset Z)
        (block_hashes : list bytes).

(** What the search carries: the candidate length, the blocks found for each group and
    the EAGLE groups verified at this length. *)
Notation search := (Z * list (option (list ref)) * gset Z)%type.

(** [for group_id, blocks in zip(group_ids, hit_blocks): hit_blocks_by_group[group_id] = blocks] *)
Definition store_hits (ids : list Z) (hit_blocks : hits) (by_group : list (option (list ref)))
    : P (list (option (list ref))) :=
  of_option IndexError (foldl (λ acc '(g, bs), acc ← acc; list_set acc g (Some bs)) (Some by_group) (zip ids hit_blocks)).

(** One attention group accepts the candidate length or reduces it. *)
Definition hybrid_group (idx : Z) (g : attention_group) (x : search) : P search :=
  let '(curr_hit_length, by_group, eagle_verified) := x in
  let spec := ag_spec g in
  g0 <- of_option IndexError (list_get (ag_ids g) 0) ;;
  cached_blocks <- of_option IndexError (list_get by_group g0) ;;
  if is_full_attention spec && bool_decide (is_Some cached_blocks) then
    q <- floordiv curr_hit_length (spec_block_size spec) ;;
    ret (q * spec_block_size spec, by_group, eagle_verified)
  else
    let use_eagle := bool_decide (idx ∈ eagle_attn_group_indices) && bool_decide (idx ∉ eagle_verified) in
    let _max_length := if use_eagle then Z.min (curr_hit_length + spec_block_size spec) max_cache_hit_length
                       else curr_hit_length in
    hl <- of_outcome (BlockPool.hash_list_of hash_block_size (spec_block_size spec) block_hashes) ;;
    hit_blocks <- find_longest_cache_hit (ag_cls g) hl _max_length (ag_ids g) spec use_eagle lcm_block_size 1 1 ;;
    n <- hit_len hit_blocks ;;
    let _new_hit_length := n * spec_block_size spec in
    let eagle_verified :=
      if use_eagle then {[ idx ]} ∪ eagle_verified
      else if bool_decide (_new_hit_length < curr_hit_length) then ∅ else eagle_verified in
    by_group <- store_hits (ag_ids g) hit_blocks by_group ;;
    ret (_new_hit_length, by_group, eagle_verified).

Fixpoint hybrid_groups (idx : Z) (gs : list attention_group) (x : search) : P search :=
  match gs with
  | [] => ret x
  | g :: gs' => x <- hybrid_group idx g x ;; hybrid_groups (idx + 1) gs' x
  end.

(** [while True]: until no group reduces the length *)
Fixpoint hybrid_loop (fuel : nat) (simple : bool) (gs : list attention_group) (hit_length : Z)
    (by_group : list (option (list ref))) (eagle_verified : gset Z) : P (Z * list (option (list ref))) :=
  match fuel with
  | O => raise StopIteration
  | S f =>
      '(curr_hit_length, by_group, eagle_verified) <- hybrid_groups 0 gs (hit_length, by_group, eagle_verified) ;;
      if bool_decide (hit_length ≤ curr_hit_length) then ret (hit_length, by_group)
      else if simple then ret (curr_hit_length, by_group)
      else hybrid_loop f simple gs curr_hit_length by_group eagle_verified
  end.

(** [del blks[num_blocks:]] for the groups of the first attention group *)
Definition truncate_hits (ids : list Z) (num_blocks : Z) (by_group : list (option (list ref)))
    : P (list (option (list ref))) :=
  of_option IndexError
    (foldl (λ acc g, acc ← acc; o ← list_get acc g;
              match o with
              | None => Some acc
              | Some bs => list_set acc g (Some (py_slice bs 0 num_blocks))
              end) (Some by_group) ids).

Definition hybrid_find (num_groups : nat) (gs : list attention_group) : P (list (list ref) * Z) :=
  let simple := bool_decide (length gs = 2%nat) &&
                match gs with g :: _ => is_full_attention (ag_spec g) | [] => false end in
  '(hit_length, by_group) <-
    hybrid_loop (S (Z.to_nat (max_cache_hit_length + 1))) simple gs max_cache_hit_length
      (replicate num_groups None) ∅ ;;
  g <- of_option IndexError (head gs) ;;
  by_group <- (if is_full_attention (ag_spec g) then
                 q <- floordiv hit_length (spec_block_size (ag_spec g)) ;;
                 truncate_hits (ag_ids g) q by_group
               else ret by_group) ;;
  ret (default [] <$> by_group, hit_length).
End hybrid.

Definition find_longest_cache_hit (block_hashes : list bytes) (max_cache_hit_length : Z) (c : t)
    : P (list (list ref) * Z) :=
  match kind c with
  | NoPrefixCache => ret ((λ _, []) <$> single_type_managers c, 0)
  | Unitary spec block_size dcp pcp =>
      s <- of_option IndexError (head (single_type_managers c)) ;;
      hit_blocks <- CacheHit.find_longest_cache_hit (SingleType.cls s) (BlockPool.Plain block_hashes)
                      max_cache_hit_length [0] spec (bool_decide (0 ∈ eagle_group_ids c)) block_size dcp pcp ;;
      n <- hit_len hit_blocks ;;
      ret (hit_blocks, n * block_size)
  | Hybrid hash_block_size attention_groups lcm_block_size eagle_idx =>
      hybrid_find hash_block_size lcm_block_size max_cache_hit_length eagle_idx block_hashes
        (length (kv_cache_groups (kv_cache_config c))) attention_groups
  end.

(** ** Construction *)

(** [KVCacheCoordinator.__init__] *)
Definition base_init (config : KVCacheConfig) (max_model_len max_num_batched_tokens : Z)
    (use_eagle enable_caching enable_kv_cache_events : bool) (dcp_world_size pcp_world_size hash_block_size : Z)
    (metrics : option (list metrics_call)) (use_int_hashes : bool) (k : variant) : outcome t :=
  match BlockPool.init (num_blocks config) enable_caching hash_block_size enable_kv_cache_events metrics
          use_int_hashes with
  | Raise e => Raise e
  | Ret p =>
      let groups := kv_cache_groups config in
      let ids := py_range (Z.of_nat (length groups)) in
      let flagged := list_to_set (filter (λ i, is_eagle_group <$> groups !! Z.to_nat i = Some true) ids) : gset Z in
      let eagle := if use_eagle && bool_decide (flagged = ∅) then list_to_set ids else flagged in
      match for_collect (zip ids groups) (λ '(i, g),
              SingleType.get_manager_for_kv_cache_spec (kv_cache_spec g) max_num_batched_tokens max_model_len
                enable_caching i dcp_world_size pcp_world_size) p with
      | (Raise e, _) => Raise e
      | (Ret ms, p') => Ret (mk config max_model_len enable_caching eagle ms p' k)
      end
  end.

Definition with_kind (k : variant) (c : t) : t :=
  mk (kv_cache_config c) (max_model_len c) (enable_caching c) (eagle_group_ids c) (single_type_managers c)
     (block_pool c) k.

(** Adding group [i] to the attention group with its spec, or as a new one *)
Fixpoint add_to_group (i : Z) (spec : KVCacheSpec) (other : Z) (cls : manager_class) (gs : list attention_group)
    : outcome (list attention_group) :=
  match gs with
  | [] => Ret [mkAttn spec other [i] cls]
  | g :: gs' =>
      if bool_decide (ag_spec g = spec ∧ ag_other g = other) then
        if bool_decide (cls = ag_cls g) then Ret (mkAttn (ag_spec g) (ag_other g) (ag_ids g ++ [i]) (ag_cls g) :: gs')
        else Raise AssertionError
      else match add_to_group i spec other cls gs' with Ret r => Ret (g :: r) | Raise e => Raise e end
  end.

(** [HybridKVCacheCoordinator.verify_and_split_kv_cache_groups]; sorting by a Boolean
    key is a stable partition. *)
Definition verify_and_split_kv_cache_groups (hash_block_size : Z) (c : t) : outcome t :=
  let groups := kv_cache_groups (kv_cache_config c) in
  match foldl (λ acc '(i, g),
          match acc, single_type_managers c !! Z.to_nat i with
          | Raise e, _ => Raise e
          | Ret _, None => Raise IndexError
          | Ret gs, Some s => add_to_group i (kv_cache_spec g) (other_fields g) (SingleType.cls s) gs
          end) (Ret []) (zip (py_range (Z.of_nat (length groups))) groups) with
  | Raise e => Raise e
  | Ret attention_groups =>
      if negb (bool_decide (1 < length attention_groups)%nat) then Raise AssertionError
      else
        let sorted := filter (λ g, is_full_attention (ag_spec g) = true) attention_groups ++
                      filter (λ g, is_full_attention (ag_spec g) = false) attention_groups in
        let lcm := foldr Z.lcm 1 ((λ g, spec_block_size (ag_spec g)) <$> attention_groups) in
        let eagle := list_to_set (filter (λ i, Exists (.∈ eagle_group_ids c)
                                                    (from_option ag_ids [] (sorted !! Z.to_nat i)))
                                         (py_range (Z.of_nat (length sorted)))) : gset Z in
        Ret (with_kind (Hybrid hash_block_size sorted lcm eagle) c)
  end.

Section init.
Context (config : KVCacheConfig) (max_model_len max_num_batched_tokens : Z) (use_eagle : bool).
Context (enable_kv_cache_events : bool) (dcp_world_size pcp_world_size hash_block_size : Z).
Context (metrics : option (list metrics_call)) (use_int_hashes : bool).

Definition init_base (caching : bool) (k : variant) : outcome t :=
  base_init config max_model_len max_num_batched_tokens use_eagle caching enable_kv_cache_events dcp_world_size
    pcp_world_size hash_block_size metrics use_int_hashes k.

Definition init_unitary (caching : bool) : outcome t :=
  match init_base caching NoPrefixCache with
  | Raise e => Raise e
  | Ret c =>
      match kv_cache_groups config with
      | [] => Raise IndexError
      | g :: rest =>
          let bs := spec_block_size (kv_cache_spec g) in
          let bs := if bool_decide (1 < dcp_world_size) then bs * dcp_world_size else bs in
          let bs := if bool_decide (1 < pcp_world_size) then bs * pcp_world_size else bs in
          if negb (negb caching || bool_decide (hash_block_size = bs)) then Raise AssertionError
          else if negb (bool_decide (rest = [])) then Raise AssertionError
          else Ret (with_kind (Unitary (kv_cache_spec g) bs dcp_world_size pcp_world_size) c)
      end
  end.

(** [assert all(g.kv_cache_spec.block_size % hash_block_size == 0 for g in ...)] *)
Fixpoint all_divisible (gs : list KVCacheGroupSpec) : outcome unit :=
  match gs with
  | [] => Ret tt
  | g :: gs' =>
      if bool_decide (hash_block_size = 0) then Raise ZeroDivisionError
      else if bool_decide (spec_block_size (kv_cache_spec g) `mod` hash_block_size = 0) then all_divisible gs'
      else Raise AssertionError
  end.

Definition init_hybrid (caching : bool) : outcome t :=
  match init_base caching NoPrefixCache with
  | Raise e => Raise e
  | Ret c =>
      match all_divisible (kv_cache_groups config) with
      | Raise e => Raise e
      | Ret _ =>
          if negb (bool_decide (dcp_world_size = 1)) then Raise AssertionError
          else if negb (bool_decide (pcp_world_size = 1)) then Raise AssertionError
          else verify_and_split_kv_cache_groups hash_block_size c
      end
  end.

Definition get_kv_cache_coordinator (enable_caching : bool) : outcome t :=
  if negb enable_caching then init_base false NoPrefixCache
  else if bool_decide (length (kv_cache_groups config) = 1%nat) then init_unitary enable_caching
  else init_hybrid enable_caching.
End init.
