(* ===== verification/KVCacheManager.v ===== *)
(** * The KV-cache manager

    [KVCacheManager] and [KVCacheBlocks] of src/vllm/v1/core/kv_cache_manager.py: what
    the scheduler calls to find cache hits, to give a request room for its next tokens
    and to free it. *)

From S2P Require Import Prelude OrderedDict FreeQueue BlockHash BlockPool CacheHit.
From S2P Require SingleType Coordinator.

Open Scope Z_scope.

(** ** Specs in events *)
Inductive KVCacheSpecKind :=
  | FULL_ATTENTION | MLA_ATTENTION | SLIDING_WINDOW | SLIDING_WINDOW_MLA | MAMBA
  | CHUNKED_LOCAL_ATTENTION | SINK_FULL_ATTENTION | ENCODER_ONLY_ATTENTION | CROSS_ATTENTION
  | QUEST_ATTENTION | UNKNOWN.

(** The [isinstance] chain of [get_kv_cache_spec_kind] *)
Definition get_kv_cache_spec_kind (s : KVCacheSpec) : KVCacheSpecKind :=
  match s with
  | SlidingWindowMLASpec _ _ => SLIDING_WINDOW_MLA
  | MLAAttentionSpec _ | HiddenStateCacheSpec _ => MLA_ATTENTION
  | SinkFullAttentionSpec _ _ => SINK_FULL_ATTENTION
  | FullAttentionSpec _ | TQFullAttentionSpec _ => FULL_ATTENTION
  | ChunkedLocalAttentionSpec _ _ => CHUNKED_LOCAL_ATTENTION
  | SlidingWindowSpec _ _ => SLIDING_WINDOW
  | MambaSpec _ _ _ => MAMBA
  | CrossAttentionSpec _ => CROSS_ATTENTION
  | QuestKVCacheSpec _ => UNKNOWN
  end.
(** [QuestKVCacheSpec.kind()] *)
Definition quest_kind : KVCacheSpecKind := QUEST_ATTENTION.
Definition get_kv_cache_spec_sliding_window (s : KVCacheSpec) : option Z :=
  match s with SlidingWindowSpec _ w | SlidingWindowMLASpec _ w => Some w | _ => None end.

(** ** Requests, as the manager sees them *)
Record KRequest := mkKRequest {
  request_id : string;
  num_computed_tokens : Z;
  num_preemptions : Z;
  skip_reading_prefix_cache : bool;
  hashed : Request
}.
Definition num_tokens (r : KRequest) : Z := Z.of_nat (length (all_token_ids (hashed r))).
Definition with_hashed (h : Request) (r : KRequest) : KRequest :=
  mkKRequest (request_id r) (num_computed_tokens r) (num_preemptions r) (skip_reading_prefix_cache r) h.

(** ** Allocation results *)

(** The shared empty object of the manager is told apart by identity. *)
Inductive KVCacheBlocks := EmptyBlocks | Blocks (bs : list (list ref)).

(** [blocks] of a result, for a manager with [n] groups *)
Definition blocks (n : nat) (b : KVCacheBlocks) : list (list ref) :=
  match b with EmptyBlocks => replicate n [] | Blocks bs => bs end.
Definition add (n : nat) (a b : KVCacheBlocks) : KVCacheBlocks :=
  Blocks (zip_with app (blocks n a) (blocks n b)).
Definition new_empty (n : nat) (b : KVCacheBlocks) : KVCacheBlocks := Blocks ((λ _, []) <$> blocks n b).
Definition get_block_ids (p : BlockPool.t) (n : nat) (b : KVCacheBlocks) (allow_none : bool)
    : option (list (list Z)) :=
  if allow_none && bool_decide (Forall (λ g, g = []) (blocks n b)) then None
  else Some (map (map (BlockPool.id_of p)) (blocks n b)).
Definition get_unhashed_block_ids (p : BlockPool.t) (n : nat) (b : KVCacheBlocks) : outcome (list Z) :=
  match blocks n b with
  | [g] => Ret (BlockPool.id_of p <$> filter (λ x, block_hash (BlockPool.obj p x) = None) g)
  | _ => Raise AssertionError
  end.
Definition get_unhashed_block_ids_all_groups (p : BlockPool.t) (n : nat) (b : KVCacheBlocks) : list (list Z) :=
  map (λ g, BlockPool.id_of p <$> filter (λ x, block_hash (BlockPool.obj p x) = None ∧
                                               is_null (BlockPool.obj p x) = false) g) (blocks n b).

(** ** Statistics *)
Record PrefixCacheStats := mkStats {
  reset : bool; requests : Z; queries : Z; cache_hits : Z;
  preempted_requests : Z; preempted_queries : Z; preempted_hits : Z
}.
Definition new_stats : PrefixCacheStats := mkStats false 0 0 0 0 0 0.
Definition record (num_tokens num_hits : Z) (preempted : bool) (s : PrefixCacheStats) : PrefixCacheStats :=
  if preempted then
    mkStats (reset s) (requests s) (queries s) (cache_hits s) (preempted_requests s + 1)
      (preempted_queries s + num_tokens) (preempted_hits s + num_hits)
  else
    mkStats (reset s) (requests s + 1) (queries s + num_tokens) (cache_hits s + num_hits) (preempted_requests s)
      (preempted_queries s) (preempted_hits s).
Definition set_reset (s : PrefixCacheStats) : PrefixCacheStats :=
  mkStats true (requests s) (queries s) (cache_hits s) (preempted_requests s) (preempted_queries s) (preempted_hits s).

(** ** The manager *)
Record t := mk {
  max_model_len : Z;
  enable_caching : bool;
  log_stats : bool;
  prefix_cache_stats : option PrefixCacheStats;
  num_kv_cache_groups : nat;
  kv_cache_event_metadata : list (KVCacheSpecKind * option Z);
  coordinator : Coordinator.t
}.
Notation pool_of m := (Coordinator.block_pool (coordinator m)).

Definition with_coordinator (c : Coordinator.t) (m : t) : t :=
  mk (max_model_len m) (enable_caching m) (log_stats m) (prefix_cache_stats m) (num_kv_cache_groups m)
     (kv_cache_event_metadata m) c.
Definition with_stats (s : option PrefixCacheStats) (m : t) : t :=
  mk (max_model_len m) (enable_caching m) (log_stats m) s (num_kv_cache_groups m)
     (kv_cache_event_metadata m) (coordinator m).

Definition on_coordinator {A} (m : M Coordinator.t A) : M t A := zoom coordinator with_coordinator m.
Definition on_pool {A} (m : M BlockPool.t A) : M t A := on_coordinator (Coordinator.on_block_pool m).

Definition create_kv_cache_blocks (bs : list (list ref)) : KVCacheBlocks :=
  if bool_decide (Forall (λ g, g = []) bs) then EmptyBlocks else Blocks bs.

Definition make_prefix_cache_stats : M t (option PrefixCacheStats) :=
  m <- get ;;
  if negb (log_stats m) then ret None
  else modify (with_stats (Some new_stats)) ;; ret (prefix_cache_stats m).

Definition get_computed_blocks (request : KRequest) : M t (KVCacheBlocks * Z) :=
  m <- get ;;
  if negb (enable_caching m) || skip_reading_prefix_cache request then ret (EmptyBlocks, 0)
  else
    let max_cache_hit_length := num_tokens request - 1 in
    '(computed_blocks, num_new_computed_tokens) <-
      on_pool (Coordinator.find_longest_cache_hit (block_hashes (hashed request)) max_cache_hit_length
                 (coordinator m)) ;;
    (if log_stats m then
       match prefix_cache_stats m with
       | None => raise AssertionError
       | Some s => modify (with_stats (Some (record (num_tokens request) num_new_computed_tokens
                                              (bool_decide (0 < num_preemptions request)) s)))
       end
     else ret tt) ;;
    ret (create_kv_cache_blocks computed_blocks, num_new_computed_tokens).

Section slots.
Context (embeds_digest : list Z → bytes).
Notation S := (t * KRequest)%type.

Definition on_self {A} (m : M t A) : M S A := zoom fst (λ x s, (x, s.2)) m.
(** The coordinator and the request's hashing state, for [coordinator.cache_blocks] *)
Definition on_coordinator_request {A} (m : M (Coordinator.t * Request) A) : M S A :=
  zoom (λ s, (coordinator s.1, hashed s.2)) (λ y s, (with_coordinator y.1 s.1, with_hashed y.2 s.2)) m.

Definition allocate_slots (num_new_tokens num_new_computed_tokens : Z) (new_computed_blocks : option KVCacheBlocks)
    (num_lookahead_tokens num_external_computed_tokens : Z) (delay_cache_blocks : bool) (num_encoder_tokens : Z)
    (full_sequence_must_fit : bool) : M S (option KVCacheBlocks) :=
  if bool_decide (num_new_tokens = 0) && bool_decide (num_external_computed_tokens = 0) then raise ValueError
  else
    '(m, request) <- get ;;
    let given := default EmptyBlocks new_computed_blocks in
    let new_computed_block_list := blocks (num_kv_cache_groups m) given in
    let num_local_computed_tokens := num_computed_tokens request + num_new_computed_tokens in
    let total_computed_tokens :=
      Z.min (num_local_computed_tokens + num_external_computed_tokens) (max_model_len m) in
    fits <- (if full_sequence_must_fit then
               let full_num_tokens := Z.min (num_tokens request) (max_model_len m) in
               n <- on_self (on_coordinator (Coordinator.get_num_blocks_to_allocate (request_id request)
                      full_num_tokens new_computed_block_list num_encoder_tokens total_computed_tokens
                      full_num_tokens true)) ;;
               '(m, _) <- get ;;
               ret (bool_decide (n ≤ BlockPool.get_num_free_blocks (pool_of m)))
             else ret true) ;;
    if negb fits then ret None
    else
      let num_tokens_main_model := total_computed_tokens + num_new_tokens in
      let num_tokens_need_slot := Z.min (num_tokens_main_model + num_lookahead_tokens) (max_model_len m) in
      on_self (on_coordinator (Coordinator.remove_skipped_blocks (request_id request) total_computed_tokens)) ;;
      n <- on_self (on_coordinator (Coordinator.get_num_blocks_to_allocate (request_id request)
             num_tokens_need_slot new_computed_block_list num_encoder_tokens
             (num_local_computed_tokens + num_external_computed_tokens) num_tokens_main_model false)) ;;
      '(m, _) <- get ;;
      if bool_decide (BlockPool.get_num_free_blocks (pool_of m) < n) then ret None
      else
        (if negb (match given with EmptyBlocks => true | Blocks _ => false end) ||
            bool_decide (0 < num_external_computed_tokens)
         then on_self (on_coordinator (Coordinator.allocate_new_computed_blocks (request_id request)
                new_computed_block_list num_local_computed_tokens num_external_computed_tokens))
         else ret tt) ;;
        new_blocks <- on_self (on_coordinator (Coordinator.allocate_new_blocks (request_id request)
                        num_tokens_need_slot num_tokens_main_model num_encoder_tokens)) ;;
        (if negb (enable_caching m) || delay_cache_blocks then ret tt
         else
           let num_tokens_to_cache := Z.min (total_computed_tokens + num_new_tokens) (num_tokens request) in
           on_coordinator_request (Coordinator.cache_blocks embeds_digest (request_id request) num_tokens_to_cache)) ;;
        ret (Some (create_kv_cache_blocks new_blocks)).

Definition cache_blocks (num_computed_tokens : Z) : M S unit :=
  '(m, request) <- get ;;
  if enable_caching m
  then on_coordinator_request (Coordinator.cache_blocks embeds_digest (request_id request) num_computed_tokens)
  else ret tt.
End slots.

Definition free (request : KRequest) : M t unit := on_coordinator (Coordinator.free (request_id request)).
Definition remove_skipped_blocks (request_id : string) (total_computed_tokens : Z) : M t unit :=
  on_coordinator (Coordinator.remove_skipped_blocks request_id total_computed_tokens).
Definition evict_blocks (block_ids : list Z) : M t unit := on_pool (BlockPool.evict_blocks block_ids).
Definition reset_prefix_cache : M t bool :=
  done <- on_pool BlockPool.reset_prefix_cache ;;
  m <- get ;;
  if negb done then ret false
  else
    (if log_stats m then
       match prefix_cache_stats m with
       | None => raise AssertionError
       | Some s => modify (with_stats (Some (set_reset s)))
       end
     else ret tt) ;;
    ret true.
Definition get_num_common_prefix_blocks (running_request_id : string) : M t (list Z) :=
  on_coordinator (Coordinator.get_num_common_prefix_blocks running_request_id).

(** Events with the kind and window that [take_events] adds to [BlockStored] *)
Definition annotate (m : t) (e : KVCacheEvent) : KVCacheEvent * option (KVCacheSpecKind * option Z) :=
  (e, match e with
      | BlockStored _ _ _ _ _ _ _ g => if bool_decide (g < 0) then None else kv_cache_event_metadata m !! Z.to_nat g
      | _ => None
      end).
Definition take_events : M t (list (KVCacheEvent * option (KVCacheSpecKind * option Z))) :=
  events <- on_pool BlockPool.take_events ;; m <- get ;; ret (annotate m <$> events).

Definition get_blocks (request_id : string) (m : t) : KVCacheBlocks :=
  create_kv_cache_blocks (Coordinator.get_blocks request_id (coordinator m)).
Definition get_request_block_ids (request_id : string) (m : t) : list (list Z) :=
  default [] (get_block_ids (pool_of m) (num_kv_cache_groups m) (get_blocks request_id m) false).

Definition take_new_block_ids : M t (list Z) :=
  on_coordinator
    (ids <- Coordinator.manager_ids ;;
     idss <- for_collect ids (λ i, Coordinator.on_manager i SingleType.take_new_block_ids) ;;
     ret (concat idss)).
Definition new_step_starts : M t unit := on_coordinator Coordinator.new_step_starts.

(** ** Construction *)
Definition init (config : Coordinator.KVCacheConfig) (max_model_len hash_block_size : Z)
    (max_num_batched_tokens : option Z) (enable_caching use_eagle log_stats enable_kv_cache_events : bool)
    (dcp_world_size pcp_world_size : Z) (metrics : option (list metrics_call)) (use_int_hashes : bool) : outcome t :=
  match Coordinator.get_kv_cache_coordinator config max_model_len (default max_model_len max_num_batched_tokens)
          use_eagle enable_kv_cache_events dcp_world_size pcp_world_size hash_block_size metrics use_int_hashes
          enable_caching with
  | Raise e => Raise e
  | Ret c =>
      let groups := Coordinator.kv_cache_groups config in
      Ret (mk max_model_len enable_caching log_stats (if log_stats then Some new_stats else None) (length groups)
             ((λ g, (get_kv_cache_spec_kind (Coordinator.kv_cache_spec g),
                     get_kv_cache_spec_sliding_window (Coordinator.kv_cache_spec g))) <$> groups) c)
  end.
