(* ===== verification/CoordinatorOwn.v ===== *)
(** * The coordinators and the manager: who holds which block

    The composition of the single-type managers over the shared pool. Seen from one
    manager the holdings of the others are the external references of its ownership
    invariant; so each manager's operations keep the invariant of the whole, and the
    reference count of every block is the number of places in which the requests of
    all groups hold it (C12). *)

From S2P Require Import Prelude OrderedDict FreeQueue BlockHash BlockPool BlockPoolProps BlockPoolCache CacheHit.
Import BlockPool.
From S2P Require Import SingleType SingleTypeProps SingleTypeStatic SingleTypeOwn.
From S2P Require Coordinator KVCacheManager.

Open Scope Z_scope.

Notation coord := Coordinator.t.
Notation managers := Coordinator.single_type_managers.
Notation cpool := Coordinator.block_pool.
Implicit Types (s : SingleType.t) (ms : list SingleType.t) (p : pool) (l bs : list ref) (c : coord) (i : Z).

(** ** Holdings of all managers *)
Definition holdings ms i : Z := total ((λ s, held (req_to_blocks s) i) <$> ms).
Definition others ms (k : nat) i : Z := holdings (delete k ms) i.

Lemma holdings_nonneg ms i : 0 ≤ holdings ms i.
Proof. apply total_nonneg. intros x (s & -> & _)%list_elem_of_fmap. apply held_nonneg. Qed.

Lemma holdings_split ms k s i :
  ms !! k = Some s → holdings ms i = held (req_to_blocks s) i + others ms k i.
Proof.
  intros Hk. unfold others, holdings. etrans; [apply total_perm, fmap_Permutation, (delete_Permutation ms k s Hk)|done].
Qed.

Lemma others_set ms k s i : others (<[k := s]> ms) k i = others ms k i.
Proof.
  unfold others. f_equal. revert k. induction ms as [|s' ms IH]; intros [|k]; simpl; [done..|]. f_equal. apply IH.
Qed.

Lemma held_elem m i : held m i ≠ 0 → ∃ r bs, m !! r = Some bs ∧ Blk i ∈ bs.
Proof.
  intros Hne. destruct (decide (Exists (λ e, Blk i ∈ e.2) (map_to_list m))) as [He|Hno].
  { apply Exists_exists in He as ([r bs] & He & Hin). exists r, bs. split; [by apply elem_of_map_to_list|done]. }
  exfalso. apply Hne, total_zero. intros x (e & -> & He)%list_elem_of_fmap. apply count_in_notin. intros Hin.
  apply Hno, Exists_exists. eauto.
Qed.

Lemma holdings_elem ms i : holdings ms i ≠ 0 → ∃ s, s ∈ ms ∧ held (req_to_blocks s) i ≠ 0.
Proof.
  induction ms as [|s ms IH]; [done|]. unfold holdings in *. csimpl. unfold total in *. simpl. intros Hne.
  destruct (decide (held (req_to_blocks s) i = 0)) as [H0|]; [|exists s; split; [by left|done]].
  destruct IH as (s' & Hs' & Hh); [lia|]. exists s'. split; [by right|done].
Qed.

(** ** The invariant *)
Record cown c l : Prop := {
  co_pool : pool_inv (cpool c) l [];
  co_null : ∀ s, s ∈ managers c → null_block s = Blk 0;
  co_refs : ∀ i, in_pool (cpool c) i → i ≠ 0 → ref_cnt (obj (cpool c) (Blk i)) = holdings (managers c) i;
  co_lists : ∀ s r bs, s ∈ managers c → req_to_blocks s !! r = Some bs → list_ok (cpool c) bs
}.
Definition cowned c : Prop := ∃ l, cown c l.

Lemma held_in_pool c l s i : cown c l → s ∈ managers c → held (req_to_blocks s) i ≠ 0 → in_pool (cpool c) i.
Proof.
  intros Hc Hs (r & bs & Hr & Hin)%held_elem.
  destruct (lo_pool _ _ (co_lists _ _ Hc s r bs Hs Hr) _ Hin) as (j & [= ->] & ?). done.
Qed.

(** What manager [k] sees *)
Lemma cown_focus c l k s : cown c l → managers c !! k = Some s → own (others (managers c) k) s (cpool c) l.
Proof.
  intros Hc Hk. assert (s ∈ managers c) as Hs by by eapply list_elem_of_lookup_2. split.
  - apply Hc.
  - by eapply co_null.
  - intros i Hi Hi0. rewrite (co_refs _ _ Hc) by done. by apply holdings_split.
  - intros r bs Hr. by eapply co_lists.
  - intros i (s' & Hs' & Hh)%holdings_elem. eapply held_in_pool; [done| |done].
    eapply elem_of_submseteq; [done|]. apply sublist_submseteq, sublist_delete.
Qed.

(** and what its step does to the whole *)
Lemma cown_unfocus c l k s p' l' s' :
  cown c l → managers c !! k = Some s → own (others (managers c) k) s' p' l' →
  cown (Coordinator.with_managers (<[k := s']> (managers c)) p' c) l'.
Proof.
  intros Hc Hk Ho. assert (k < length (managers c))%nat as Hlt by by eapply lookup_lt_Some.
  assert (∀ s2, s2 ∈ <[k := s']> (managers c) → s2 = s' ∨ ∃ j, j ≠ k ∧ managers c !! j = Some s2) as Hcase.
  { intros s2 (j & Hj)%list_elem_of_lookup_1. destruct (decide (j = k)) as [->|Hne].
    - rewrite list_lookup_insert_eq in Hj by done. left. congruence.
    - rewrite list_lookup_insert_ne in Hj by done. right. eauto. }
  split; simpl.
  - apply Ho.
  - intros s2 [->|(j & _ & Hj)]%Hcase; [apply Ho|]. eapply co_null; [done|by eapply list_elem_of_lookup_2].
  - intros i Hi Hi0. rewrite (holdings_split _ k s' i) by by apply list_lookup_insert_eq.
    rewrite others_set. by apply Ho.
  - intros s2 r bs [->|(j & Hjk & Hj)]%Hcase Hr; [by eapply ow_lists|].
    assert (s2 ∈ managers c) as Hs2 by by eapply list_elem_of_lookup_2.
    destruct (co_lists _ _ Hc s2 r bs Hs2 Hr) as [Hin Hnd]. split; [|done].
    intros b Hb. destruct (Hin b Hb) as (i & -> & _). exists i. split; [done|].
    destruct (decide (i = 0)) as [->|Hi0].
    + unfold in_pool. pose proof (pi_size _ _ _ (ow_pool _ _ _ _ Ho)). lia.
    + apply (ow_ext _ _ _ _ Ho). unfold others.
      assert (∃ j', delete k (managers c) !! j' = Some s2) as (j' & Hj').
      { destruct (decide (j < k)%nat); [exists j; by rewrite list_lookup_delete_lt|].
        exists (j - 1)%nat. rewrite list_lookup_delete_ge by lia. by replace (Datatypes.S (j - 1)) with j by lia. }
      rewrite (holdings_split _ j' s2) by done. pose proof (holdings_nonneg (delete j' (delete k (managers c))) i).
      unfold others. pose proof (held_ge (req_to_blocks s2) r i) as Hge. rewrite Hr in Hge. simpl in Hge.
      pose proof (count_in_elem _ _ Hb). lia.
Qed.

(** ** With what does not change *)
Definition statics c : list (KVCacheSpec * Z * bool) * Z := (attrs <$> managers c, num_gpu_blocks (cpool c)).

Section kept.
Context (st : list (KVCacheSpec * Z * bool) * Z).
Definition cinv c : Prop := statics c = st ∧ cowned c.

(** A call of one manager's method keeps the invariant of the whole, when the method
    keeps the manager's under any external references. *)
Lemma on_manager_cinv {A} k (m : M (SingleType.t * pool) A) :
  (∀ ext s p, (∀ i, 0 ≤ ext i) → st.1 !! Z.to_nat k = Some (attrs s) → num_gpu_blocks p = st.2 →
     owned ext (s, p) → owned ext (m (s, p)).2) →
  (∀ a N, keeps (fixed a N) m) → keeps cinv (Coordinator.on_manager k m).
Proof.
  intros Hm Hfix c [Hst [l Hc]]. unfold Coordinator.on_manager. destruct (managers c !! Z.to_nat k) as [s|] eqn:Hk.
  2:{ split; [done|by exists l]. }
  pose proof (cown_focus c l _ s Hc Hk) as Ho.
  assert (st.1 !! Z.to_nat k = Some (attrs s) ∧ num_gpu_blocks (cpool c) = st.2) as [Hat Hsz].
  { rewrite <- Hst. simpl. by rewrite list_lookup_fmap, Hk. }
  destruct (Hm (others (managers c) (Z.to_nat k)) s (cpool c) (λ i, holdings_nonneg _ i) Hat Hsz
    (ex_intro _ l Ho)) as [l' Ho'].
  destruct (Hfix (attrs s) st.2 (s, cpool c) (conj eq_refl Hsz)) as [Ha' Hn'].
  destruct (m (s, cpool c)) as [o [s' p']]. simpl in *. split.
  - unfold statics. simpl. rewrite list_fmap_insert, Ha', Hn', list_insert_id; [by rewrite <- Hst|].
    by rewrite list_lookup_fmap, Hk.
  - exists l'. by eapply cown_unfocus.
Qed.

Definition cinv_r (x : coord * Request) : Prop := cinv x.1.

Lemma on_manager_request_cinv {A} k (m : M ((SingleType.t * pool) * Request) A) :
  (∀ ext, (∀ i, 0 ≤ ext i) → keeps (owned_r ext) m) → (∀ a N, keeps (fixed_r a N) m) →
  keeps cinv_r (Coordinator.on_manager_request k m).
Proof.
  intros Hm Hfix [c req] Hc. unfold Coordinator.on_manager_request. cbn [fst snd].
  assert (∀ x, (let '(o, y) := m (x, req) in (o, y.1)).2 = (m (x, req)).2.1) as He.
  { intros x. by destruct (m (x, req)). }
  assert (cinv (Coordinator.on_manager k (λ x, let '(o, y) := m (x, req) in (o, y.1)) c).2) as H1.
  { apply on_manager_cinv; [| |done].
    - intros ext s1 p1 He1 _ _ Ho. rewrite He. by apply (Hm ext He1 ((s1, p1), req)).
    - intros a N x Hx. rewrite He. by apply (Hfix a N (x, req)). }
  unfold Coordinator.on_manager in H1. destruct (managers c !! Z.to_nat k) as [s|]; [|done].
  by destruct (m (s, cpool c, req)) as [o [[s' p'] r']].
Qed.

(** ** The operations of the coordinator *)
Ltac manager_call own_lem fixed_lem :=
  intros; apply on_manager_cinv; intros; [by apply own_lem|apply fixed_lem].

Lemma cinv_num r n new enc tot nm cap : keeps cinv (Coordinator.get_num_blocks_to_allocate r n new enc tot nm cap).
Proof.
  unfold Coordinator.get_num_blocks_to_allocate, Coordinator.manager_ids, Coordinator.is_cross. keeps_auto.
  all: manager_call keeps_num fixed_num.
Qed.
Lemma cinv_free r : keeps cinv (Coordinator.free r).
Proof.
  unfold Coordinator.free, Coordinator.manager_ids. keeps_auto.
  all: manager_call keeps_free fixed_free.
Qed.
Lemma cinv_remove r n : keeps cinv (Coordinator.remove_skipped_blocks r n).
Proof.
  unfold Coordinator.remove_skipped_blocks, Coordinator.manager_ids. keeps_auto.
  all: manager_call keeps_remove fixed_remove.
Qed.
Lemma cinv_common r : keeps cinv (Coordinator.get_num_common_prefix_blocks r).
Proof.
  unfold Coordinator.get_num_common_prefix_blocks, Coordinator.manager_ids. keeps_auto.
  all: manager_call keeps_common fixed_common.
Qed.
Lemma cinv_new_step : keeps cinv Coordinator.new_step_starts.
Proof.
  unfold Coordinator.new_step_starts, Coordinator.manager_ids. keeps_auto.
  all: intros; apply on_manager_cinv; [intros ext s p He _ _ Ho|intros; apply fixed_new_step].
  exact (st_op_owned ext He (λ _, []) s p OpNewStep Ho I).
Qed.
Lemma cinv_take_ids : keeps cinv (ids <- Coordinator.manager_ids ;;
  idss <- for_collect ids (λ i, Coordinator.on_manager i take_new_block_ids) ;; ret (concat idss)).
Proof.
  unfold Coordinator.manager_ids. keeps_auto.
  intros; apply on_manager_cinv; [intros ext s p He _ _ Ho|intros; apply fixed_take_ids].
  exact (keeps_attrs ext (with_new_ids []) (λ _, conj eq_refl eq_refl) (s, p) Ho).
Qed.

Context (embeds_digest : list Z → bytes).
Lemma cinv_cache r n : keeps cinv_r (Coordinator.cache_blocks embeds_digest r n).
Proof.
  unfold Coordinator.cache_blocks. keeps_auto.
  all: intros; apply on_manager_request_cinv; intros; [by apply keeps_cache|apply fixed_cache].
Qed.

(** Legal parameters, without the align mode of Mamba *)
Definition legal (a : KVCacheSpec * Z * bool) : Prop :=
  spec_ok a.1.1 ∧ 0 < a.1.2 ∧ match a.1.1 with MambaSpec _ mode _ => mode ≠ "align" | _ => True end.
Context (Hlegal : Forall legal st.1).

Lemma cinv_alloc_new r n nm enc : keeps cinv (Coordinator.allocate_new_blocks r n nm enc).
Proof.
  unfold Coordinator.allocate_new_blocks, Coordinator.manager_ids, Coordinator.is_cross. keeps_auto.
  all: intros; apply on_manager_cinv; [intros ext s p He Ha _ Ho|intros; apply fixed_alloc_new].
  apply alloc_new_owned; [done|done|]. simpl. apply (Forall_lookup_1 _ _ _ _ Hlegal) in Ha as (_ & _ & Hm).
  simpl in Hm. by destruct (kv_cache_spec s).
Qed.

(** The hits handed over for each group: blocks of the pool in full blocks *)
Definition hits_given (new : list (list ref)) (local external : Z) : Prop :=
  ∀ k bs a, new !! k = Some bs → st.1 !! k = Some a →
    (∀ p, num_gpu_blocks p = st.2 → list_ok p bs) ∧ local = Z.of_nat (length bs) * a.1.2 ∧ 0 ≤ external ∧
    (a.2 = false → bs = []).

Lemma cinv_alloc_computed r new local external :
  hits_given new local external → keeps cinv (Coordinator.allocate_new_computed_blocks r new local external).
Proof.
  intros Hg c Hc. unfold Coordinator.allocate_new_computed_blocks, Coordinator.manager_ids, bind at 1, gets.
  revert Hc. apply (keeps_for_each_elem cinv). intros k Hk. apply elem_of_seqZ in Hk.
  rewrite list_get_lookup by lia. destruct (new !! Z.to_nat k) as [bs|] eqn:Hbs; [|apply keeps_raise].
  apply on_manager_cinv; [intros ext s p He Ha Hn Ho|intros; apply fixed_alloc_computed].
  destruct (Hg _ _ _ Hbs Ha) as (Hl & Hloc & Hext & Hcach).
  apply (Forall_lookup_1 _ _ _ _ Hlegal) in Ha as (Hsp & Hbsz & _). simpl in *.
  apply alloc_computed_owned; [done..|]. split; auto.
Qed.

(** ** Operations on the pool that leave the counts alone *)
Lemma on_block_pool_cinv {A} (m : M pool A) :
  (∀ p0 l, keeps (counted p0 l) m) → keeps cinv (Coordinator.on_block_pool m).
Proof.
  intros Hm c [Hst [l Hc]]. unfold Coordinator.on_block_pool, zoom.
  destruct (Hm (cpool c) l (cpool c)) as (Hp & Hcfg & Hcnt); [by split_and!; [apply Hc|..]|].
  destruct (m (cpool c)) as [o p']. simpl in *. assert (num_gpu_blocks p' = num_gpu_blocks (cpool c)) as Hn by apply Hcfg.
  split; [rewrite <- Hst; unfold statics; simpl; by rewrite Hn|]. exists l. split; simpl; [done|apply Hc| |].
  - intros i Hi Hi0. destruct (Hcnt (Blk i)) as (_ & -> & _). apply Hc; [|done]. unfold in_pool in *. by rewrite <- Hn.
  - intros s r bs Hs Hr. eapply list_ok_config; [done|by eapply co_lists].
Qed.
End kept.

Section counted.
Context (p0 : pool) (l : list ref).

Lemma counted_trans p p' :
  counted p0 l p → pool_inv p' l [] → same_config p p' → same_counts p p' → counted p0 l p'.
Proof.
  intros (_ & Hc & Hn) Hp' Hc' Hn'. split_and!; [done|by eapply same_config_trans|].
  intros r. destruct (Hn r) as (?&?&?), (Hn' r) as (?&?&?). split_and!; congruence.
Qed.

Lemma counted_evict_blocks ids : keeps (counted p0 l) (evict_blocks ids).
Proof.
  unfold evict_blocks. apply keeps_for_each. intros id. apply keeps_get. intros p Hp. unfold bind at 1, assert_.
  destruct (bool_decide _); [|done]. simpl. destruct (list_get _ id) as [b|] eqn:Hb; [|done].
  assert (b ∈ Blk <$> py_range (num_gpu_blocks p)) as (i & -> & Hi)%list_elem_of_fmap.
  { unfold list_get in Hb. destruct (py_index _ _); [|done]. by eapply list_elem_of_lookup_2. }
  apply elem_of_seqZ in Hi. destruct (maybe_evict_correct p l [] i) as (o & p' & Hrun & Hp' & Hev & _).
  { apply Hp. }
  { unfold in_pool. lia. }
  unfold bind, of_option, ret. rewrite Hrun. eapply counted_trans; [done|done|apply Hev|apply Hev].
Qed.

Lemma counted_reset : keeps (counted p0 l) reset_prefix_cache.
Proof.
  intros p Hp. pose proof (reset_prefix_cache_spec p l (proj1 Hp)) as Hr. case_decide; [|by rewrite Hr].
  destruct Hr as (p' & -> & ? & ? & ? & _). by eapply counted_trans.
Qed.

Lemma counted_take_events : keeps (counted p0 l) take_events.
Proof.
  unfold take_events. keeps_auto. apply keeps_modify. intros p. apply counted_events.
Qed.
End counted.

(** ** Searching for hits changes nothing *)
Section reading.
Context (I : pool → Prop).
Hint Resolve keeps_for_collect : keeps.

Lemma keeps_cached_blocks h gids : keeps I (cached_blocks h gids).
Proof. unfold cached_blocks. keeps_auto. Qed.
Lemma keeps_hit_len h : keeps I (hit_len h).
Proof. unfold hit_len. keeps_auto. Qed.
Lemma keeps_pop_each h : keeps I (pop_each h).
Proof. unfold pop_each. keeps_auto. Qed.
Hint Resolve keeps_cached_blocks keeps_hit_len keeps_pop_each : keeps.
Lemma keeps_align fuel bsz al h : keeps I (align_loop fuel bsz al h).
Proof. revert h. induction fuel; intros h; simpl; keeps_auto. Qed.
Lemma keeps_eagle e h : keeps I (eagle_pop e h).
Proof. unfold eagle_pop. keeps_auto. Qed.
Lemma keeps_islice hl n : keeps I (islice hl n).
Proof. unfold islice. keeps_auto. Qed.
Lemma keeps_full_loop gids hs h : keeps I (full_loop gids hs h).
Proof. revert h. induction hs; intros h; simpl; keeps_auto. Qed.
Lemma keeps_swa_loop hl gids bsz al e n idxs k h : keeps I (swa_loop hl gids bsz al e n idxs k h).
Proof. revert k h. induction idxs; intros k h; simpl; keeps_auto. Qed.
Lemma keeps_chunked_loop hl gids idxs h : keeps I (chunked_loop hl gids idxs h).
Proof. revert h. induction idxs; intros h; simpl; keeps_auto. Qed.
Lemma keeps_mamba_loop hl gids bsz al idxs h : keeps I (mamba_loop hl gids bsz al idxs h).
Proof. revert h. induction idxs; intros h; simpl; keeps_auto. Qed.
Hint Resolve keeps_align keeps_eagle keeps_islice keeps_full_loop keeps_swa_loop keeps_chunked_loop keeps_mamba_loop : keeps.
Lemma keeps_find cl hl n gids spec e al d q : keeps I (find_longest_cache_hit cl hl n gids spec e al d q).
Proof.
  unfold find_longest_cache_hit, full_find, swa_find, chunked_find, mamba_find, cross_find, align_down. keeps_auto.
Qed.
Hint Resolve keeps_find : keeps.
Lemma keeps_hybrid_groups hb lcm mx eg hs idx gs x : keeps I (Coordinator.hybrid_groups hb lcm mx eg hs idx gs x).
Proof.
  revert idx x. induction gs as [|g gs IH]; intros idx x; simpl; [apply keeps_ret|].
  apply keeps_bind; [|done]. unfold Coordinator.hybrid_group, Coordinator.store_hits. keeps_auto.
Qed.
Hint Resolve keeps_hybrid_groups : keeps.
Lemma keeps_hybrid_loop hb lcm mx eg hs fuel b gs n by_group v :
  keeps I (Coordinator.hybrid_loop hb lcm mx eg hs fuel b gs n by_group v).
Proof. revert n by_group v. induction fuel; intros n by_group v; simpl; keeps_auto. Qed.
Hint Resolve keeps_hybrid_loop : keeps.
Lemma keeps_coord_find hs n c : keeps I (Coordinator.find_longest_cache_hit hs n c).
Proof. unfold Coordinator.find_longest_cache_hit, Coordinator.hybrid_find, Coordinator.truncate_hits. keeps_auto. Qed.
End reading.
