(* ===== verification/KVCacheManagerOwn.v ===== *)
(** * The KV-cache manager: reachable states

    Whatever sequence of calls the scheduler makes, every block is referenced exactly
    as often as requests hold it, over all KV-cache groups (C12). *)

From S2P Require Import Prelude OrderedDict FreeQueue BlockHash BlockPool BlockPoolProps BlockPoolCache CacheHit.
Import BlockPool.
From S2P Require Import SingleType SingleTypeProps SingleTypeStatic SingleTypeOwn CoordinatorOwn.
From S2P Require Coordinator.
From S2P Require Import KVCacheManager.

Open Scope Z_scope.

Notation kvm := KVCacheManager.t.
Implicit Types (m : kvm) (req : KRequest) (s : SingleType.t) (p : pool) (i : Z).

(** ** Each method *)
Section methods.
Context (st : list (KVCacheSpec * Z * bool) * Z).
Definition minv m : Prop := cinv st (coordinator m).
Definition minv_r (x : kvm * KRequest) : Prop := minv x.1.

Lemma minv_on_coordinator {A} (f : M coord A) : keeps (cinv st) f → keeps minv (on_coordinator f).
Proof. intros Hf. by apply (keeps_zoom minv (cinv st)). Qed.
Lemma minv_on_pool {A} (f : M pool A) : (∀ p0 l, keeps (counted p0 l) f) → keeps minv (on_pool f).
Proof. intros Hf. by apply minv_on_coordinator, on_block_pool_cinv. Qed.
Lemma minv_on_self {A} (f : M kvm A) : keeps minv f → keeps minv_r (on_self f).
Proof. intros Hf. by apply (keeps_zoom minv_r minv). Qed.
Lemma minv_on_coordinator_request {A} (f : M (coord * Request) A) :
  keeps (cinv_r st) f → keeps minv_r (on_coordinator_request f).
Proof. intros Hf. by apply (keeps_zoom minv_r (cinv_r st)). Qed.
Lemma minv_stats x : keeps minv (modify (with_stats x)).
Proof. by apply keeps_modify. Qed.
Hint Resolve minv_on_coordinator minv_on_pool minv_on_self minv_on_coordinator_request minv_stats : keeps.
Hint Resolve cinv_num cinv_free cinv_remove cinv_common cinv_new_step cinv_take_ids cinv_cache
  counted_evict_blocks counted_reset counted_take_events keeps_coord_find : keeps.

Lemma minv_make_stats : keeps minv make_prefix_cache_stats.
Proof. unfold make_prefix_cache_stats. keeps_auto. Qed.
Lemma minv_get_computed req : keeps minv (get_computed_blocks req).
Proof. unfold get_computed_blocks. keeps_auto. Qed.
Lemma minv_free req : keeps minv (free req).
Proof. unfold free. keeps_auto. Qed.
Lemma minv_remove r n : keeps minv (remove_skipped_blocks r n).
Proof. unfold remove_skipped_blocks. keeps_auto. Qed.
Lemma minv_evict ids : keeps minv (evict_blocks ids).
Proof. unfold evict_blocks. keeps_auto. Qed.
Lemma minv_reset : keeps minv reset_prefix_cache.
Proof. unfold reset_prefix_cache. keeps_auto. Qed.
Lemma minv_common r : keeps minv (get_num_common_prefix_blocks r).
Proof. unfold get_num_common_prefix_blocks. keeps_auto. Qed.
Lemma minv_events : keeps minv take_events.
Proof. unfold take_events. keeps_auto. Qed.
Lemma minv_new_ids : keeps minv take_new_block_ids.
Proof. unfold take_new_block_ids. keeps_auto. Qed.
Lemma minv_new_step : keeps minv new_step_starts.
Proof. unfold new_step_starts. keeps_auto. Qed.

Context (embeds_digest : list Z → bytes).
Lemma minv_cache n : keeps minv_r (cache_blocks embeds_digest n).
Proof. unfold cache_blocks. keeps_auto. Qed.

Context (Hlegal : Forall legal st.1).
Hint Resolve cinv_alloc_new : keeps.

(** The hits given to [allocate_slots] are handed over when there are any or when
    external tokens are to be loaded. *)
Definition hands_over (given : option KVCacheBlocks) (external : Z) : bool :=
  negb (match default EmptyBlocks given with EmptyBlocks => true | Blocks _ => false end) || bool_decide (0 < external).
Definition slots_ok m req (given : option KVCacheBlocks) (num_new external : Z) : Prop :=
  hands_over given external = true →
  hits_given (statics (coordinator m)) (blocks (num_kv_cache_groups m) (default EmptyBlocks given))
    (num_computed_tokens req + num_new) external.

Lemma minv_allocate_slots nn nc given la external delay enc full x :
  minv_r x → slots_ok x.1 x.2 given nc external →
  minv_r (allocate_slots embeds_digest nn nc given la external delay enc full x).2.
Proof.
  destruct x as [m req]. intros Hm Hok. unfold allocate_slots. destruct (_ && _); [done|].
  unfold bind at 1, get at 1. set (lst := blocks _ _).
  assert (hands_over given external = true → keeps (cinv st) (Coordinator.allocate_new_computed_blocks (request_id req)
    lst (num_computed_tokens req + nc) external)) as Hcomp.
  { intros Hh. apply cinv_alloc_computed; [done|]. destruct Hm as [Hst _]. simpl in Hst. rewrite <- Hst. by apply Hok. }
  fold (hands_over given external). destruct (hands_over given external).
  all: match goal with |- minv_r (?K ?x).2 => cut (keeps minv_r K); [intros HK; by apply HK|] end.
  all: try specialize (Hcomp eq_refl); clear Hok Hm; keeps_auto.
  all: by apply minv_on_self, minv_on_coordinator, cinv_alloc_new.
Qed.
End methods.

(** ** Construction *)
Definition group_legal (g : Coordinator.KVCacheGroupSpec) : Prop :=
  let spec := Coordinator.kv_cache_spec g in
  spec_ok spec ∧ 0 < spec_block_size spec ∧
  match spec with MambaSpec _ mode _ => mode ≠ "align" | SinkFullAttentionSpec _ _ => False | _ => True end.

Lemma get_manager_run spec other eagle mb ml ec gid dcp pcp p :
  group_legal (Coordinator.mkGroup spec other eagle) →
  ∃ s, get_manager_for_kv_cache_spec spec mb ml ec gid dcp pcp p = (Ret s, p) ∧
    req_to_blocks s = ∅ ∧ null_block s = BlockPool.null_block p ∧ legal (attrs s).
Proof.
  intros (Hs & Hbs & Hk). simpl in *. unfold get_manager_for_kv_cache_spec.
  assert (∃ cap, admission_cap spec mb ml = Ret cap) as [cap ->].
  { unfold admission_cap. destruct spec; simpl in Hbs; rewrite ?bool_decide_false by lia; eauto. }
  unfold init, bind, get, of_outcome, ret. 
  set (bs := if bool_decide (1 < dcp * pcp) then spec_block_size spec * (dcp * pcp) else spec_block_size spec).
  assert (0 < bs) as Hb.
  { subst bs. case_bool_decide; [|done]. nia. }
  destruct spec; try done; (eexists; split; [done|]); (split_and!; [done|done|]); by split_and!.
Qed.

Lemma get_managers_run config mb ml ec dcp pcp p :
  Forall group_legal config →
  ∀ k, ∃ ms, for_collect (zip (seqZ k (Z.of_nat (length config))) config) (λ '(i, g),
      get_manager_for_kv_cache_spec (Coordinator.kv_cache_spec g) mb ml ec i dcp pcp) p = (Ret ms, p) ∧
    Forall (λ s, req_to_blocks s = ∅ ∧ null_block s = BlockPool.null_block p ∧ legal (attrs s)) ms.
Proof.
  induction 1 as [|[spec other eagle] config Hg Hc IH]; intros k; [by exists []|].
  destruct (get_manager_run spec other eagle mb ml ec k dcp pcp p Hg) as (s & Hrun & Hs).
  destruct (IH (Z.succ k)) as (ms & Hms & Hall). exists (s :: ms). split; [|by constructor].
  simpl length. rewrite seqZ_cons by lia. replace (Z.pred (Z.of_nat (Datatypes.S (length config)))) with (Z.of_nat (length config)) by lia.
  cbn [zip zip_with for_collect]. erewrite run_bind by exact Hrun. by erewrite run_bind by exact Hms.
Qed.

(** Every coordinator that the constructors return starts in the invariant. *)
Definition fresh_coordinator (c : coord) : Prop := cowned c ∧ Forall legal (statics c).1.

Lemma fresh_with_kind k c : fresh_coordinator c → fresh_coordinator (Coordinator.with_kind k c).
Proof. intros [[l []] ?]. split; [|done]. by exists l. Qed.

Section construction.
Context (config : Coordinator.KVCacheConfig) (ml mb : Z) (eagle ev : bool) (dcp pcp hbs : Z).
Context (metrics : option (list metrics_call)) (ints : bool).
Context (Hgroups : Forall group_legal (Coordinator.kv_cache_groups config)).

Lemma base_init_fresh ec k c :
  Coordinator.base_init config ml mb eagle ec ev dcp pcp hbs metrics ints k = Ret c → fresh_coordinator c.
Proof.
  unfold Coordinator.base_init. destruct (decide (0 < Coordinator.num_blocks config)) as [Hn|Hn].
  2:{ unfold BlockPool.init. by rewrite bool_decide_false by done. }
  destruct (pool_init_correct _ ec hbs ev metrics ints Hn) as (p & -> & Hp & _ & _ & _ & _ & _ & Hz).
  destruct (get_managers_run _ mb ml ec dcp pcp p Hgroups 0) as (ms & Hms & Hall). unfold py_range. rewrite Hms.
  intros [= <-]. rewrite Forall_forall in Hall. split.
  - eexists. split; simpl; [exact Hp| | |].
    + intros s Hs. destruct (Hall s Hs) as (_ & -> & _). apply Hp.
    + intros i Hi Hi0. destruct (Hz i Hi) as [-> _]. symmetry. apply total_zero.
      intros x (s & -> & Hs)%list_elem_of_fmap. destruct (Hall s Hs) as (-> & _).
      unfold held. by rewrite map_to_list_empty.
    + intros s r bs Hs. destruct (Hall s Hs) as (-> & _). by rewrite lookup_empty.
  - simpl. apply Forall_fmap, Forall_forall. intros s Hs. by apply (Hall s Hs).
Qed.

Lemma coordinator_fresh ec c :
  Coordinator.get_kv_cache_coordinator config ml mb eagle ev dcp pcp hbs metrics ints ec = Ret c → fresh_coordinator c.
Proof.
  unfold Coordinator.get_kv_cache_coordinator, Coordinator.init_unitary, Coordinator.init_hybrid,
    Coordinator.init_base, Coordinator.verify_and_split_kv_cache_groups.
  intros Hc. destruct (negb ec); [by eapply base_init_fresh|].
  pose proof (base_init_fresh ec Coordinator.NoPrefixCache) as Hb.
  destruct (Coordinator.base_init _ _ _ _ ec _ _ _ _ _ _ _) as [c0|]; [|by repeat case_match].
  specialize (Hb c0 eq_refl). repeat case_match; simplify_eq; by apply fresh_with_kind.
Qed.
End construction.

(** ** Sequences of calls *)
Inductive kv_op :=
  | OpComputed (req : KRequest)
  | OpSlots (req : KRequest) (num_new_tokens num_new_computed : Z) (given : option KVCacheBlocks)
      (lookahead external : Z) (delay : bool) (encoder : Z) (full : bool)
  | OpCacheBlocks (req : KRequest) (n : Z)
  | OpFreeRequest (req : KRequest)
  | OpRemoveSkippedBlocks (r : string) (n : Z)
  | OpEvict (ids : list Z)
  | OpReset
  | OpCommonPrefixBlocks (r : string)
  | OpTakeEvents
  | OpTakeIds
  | OpStepStarts
  | OpMakeStats.

Section reachable.
Context (embeds_digest : list Z → bytes).

(** A call for a request, with the request's own state dropped *)
Definition for_request {A} (req : KRequest) (f : M (kvm * KRequest) A) : M kvm A := zoom (λ m, (m, req)) (λ x _, x.1) f.

Definition run_kv_op (o : kv_op) (m : kvm) : kvm :=
  match o with
  | OpComputed req => (get_computed_blocks req m).2
  | OpSlots req nn nc given la external delay enc full =>
      (for_request req (allocate_slots embeds_digest nn nc given la external delay enc full) m).2
  | OpCacheBlocks req n => (for_request req (cache_blocks embeds_digest n) m).2
  | OpFreeRequest req => (free req m).2
  | OpRemoveSkippedBlocks r n => (remove_skipped_blocks r n m).2
  | OpEvict ids => (evict_blocks ids m).2
  | OpReset => (reset_prefix_cache m).2
  | OpCommonPrefixBlocks r => (get_num_common_prefix_blocks r m).2
  | OpTakeEvents => (take_events m).2
  | OpTakeIds => (take_new_block_ids m).2
  | OpStepStarts => (new_step_starts m).2
  | OpMakeStats => (make_prefix_cache_stats m).2
  end.

(** The scheduler hands over cache hits in full blocks that make up the local tokens. *)
Definition kv_op_ok (o : kv_op) m : Prop :=
  match o with
  | OpSlots req _ nc given _ external _ _ _ => slots_ok m req given nc external
  | _ => True
  end.

Inductive kv_reachable : kvm → Prop :=
  | kr_init config ml hbs mb ec eagle stats ev dcp pcp metrics ints m :
      Forall group_legal (Coordinator.kv_cache_groups config) →
      KVCacheManager.init config ml hbs mb ec eagle stats ev dcp pcp metrics ints = Ret m → kv_reachable m
  | kr_step m o : kv_reachable m → kv_op_ok o m → kv_reachable (run_kv_op o m).

Lemma kv_op_inv st o m : Forall legal st.1 → minv st m → kv_op_ok o m → minv st (run_kv_op o m).
Proof.
  intros Hl Hm Hok. destruct o; simpl.
  - by apply minv_get_computed.
  - pose proof (minv_allocate_slots st embeds_digest Hl num_new_tokens num_new_computed given lookahead external delay
      encoder full (m, req) Hm Hok) as H. unfold for_request, zoom. by destruct (allocate_slots _ _ _ _ _ _ _ _ _ _).
  - pose proof (minv_cache st embeds_digest n (m, req) Hm) as H. unfold for_request, zoom. by destruct (cache_blocks _ _ _).
  - by apply minv_free.
  - by apply minv_remove.
  - by apply minv_evict.
  - by apply minv_reset.
  - by apply minv_common.
  - by apply minv_events.
  - by apply minv_new_ids.
  - by apply minv_new_step.
  - by apply minv_make_stats.
Qed.

Lemma kv_reachable_inv m : kv_reachable m → ∃ st, Forall legal st.1 ∧ minv st m.
Proof.
  induction 1 as [config ml hbs mb ec eagle stats ev dcp pcp metrics ints m Hg Hi|m o _ (st & Hl & Hm) Hok].
  - unfold KVCacheManager.init in Hi. destruct (Coordinator.get_kv_cache_coordinator _ _ _ _ _ _ _ _ _ _ _) as [c|] eqn:Hc;
      [|done]. apply coordinator_fresh in Hc as [Hc Hl]; [|done]. simplify_eq. by exists (statics c).
  - exists st. split; [done|]. by apply kv_op_inv.
Qed.

(** C12: for a KV-cache manager whose groups are full-attention (Quest included),
    sliding-window, chunked-local, cross-attention or Mamba groups, but neither a Mamba
    group in align mode nor a group with sink blocks, and calls that hand over cache hits
    only in full blocks that make up the local tokens they stand for: after any such calls,
    errors and refused allocations included, the pool is well formed; the reference count
    of every block is exactly the number of places in which requests hold it, over all
    groups; no held block is in the free queue, so it cannot be handed out again; and when
    no request holds anything every block but the null block is free. *)
Theorem kv_blocks_owned_exactly m :
  kv_reachable m →
  let p := pool_of m in
  let ms := managers (coordinator m) in
  ∃ l, pool_inv p l [] ∧
    (∀ i, in_pool p i → i ≠ 0 → ref_cnt (obj p (Blk i)) = holdings ms i) ∧
    (∀ s r i, s ∈ ms → Blk i ∈ list_of s r → i ≠ 0 →
       in_pool p i ∧ Blk i ∉ l ∧ count_in (Blk i) (list_of s r) = 1) ∧
    ((∀ s r, s ∈ ms → list_of s r = []) → ∀ i, in_pool p i → i ≠ 0 → Blk i ∈ l).
Proof.
  intros (st & _ & _ & l & Hc)%kv_reachable_inv p ms. exists l.
  assert (∀ i, in_pool p i → i ≠ 0 → Blk i ∈ l ↔ holdings ms i = 0) as Hfree.
  { intros i Hi Hi0. rewrite (in_free_list p l i (co_pool _ _ Hc) Hi Hi0). 
    by assert (ref_cnt (obj p (Blk i)) = holdings ms i) as -> by by apply Hc. }
  split_and!; [apply Hc|apply Hc| |].
  - intros s r i Hs Hb Hi0. apply list_elem_of_lookup_1 in Hs as [k Hk].
    pose proof (cown_focus _ _ _ _ Hc Hk) as Ho. pose proof (own_list _ _ _ _ r Ho) as Hok.
    destruct (lo_pool _ _ Hok _ Hb) as (j & [= <-] & Hi). split; [done|].
    pose proof (count_in_elem _ _ Hb). pose proof (count_le_1 p _ i Hok Hi0). split; [|lia].
    rewrite Hfree, (holdings_split _ k s) by done. pose proof (held_ge (req_to_blocks s) r i).
    pose proof (holdings_nonneg (delete k ms) i). unfold others. lia.
  - intros Hnone i Hi Hi0. apply Hfree; [done..|]. destruct (decide (holdings ms i = 0)) as [|Hne]; [done|].
    apply holdings_elem in Hne as (s & Hs & (r & bs & Hr & Hin)%held_elem). specialize (Hnone s r Hs).
    rewrite Hr in Hnone. simpl in Hnone. subst. by apply not_elem_of_nil in Hin.
Qed.
End reachable.
