(* ===== verification/CoordinatorHit.v ===== *)
(** * The hybrid coordinator finds the greatest common cache hit

    [HybridKVCacheCoordinator.find_longest_cache_hit] iterates over the attention
    groups until none of them shortens the candidate. The iteration ends, and its
    result is a length at which every group has what its attention needs; without
    EAGLE it is the greatest such length (C40). *)

From S2P Require Import Prelude OrderedDict FreeQueue BlockHash BlockPool BlockPoolProps BlockPoolCache CacheHit CacheHitProps.
Import BlockPool.
From S2P Require Import Coordinator.

Open Scope Z_scope.

(** ** The hashes at a coarser block size *)
Definition view (hb bs : Z) (hs : list bytes) : list bytes :=
  match hash_list_of hb bs hs with
  | Ret (Plain l) => l
  | Ret (Scaled x) => match BlockHashListWithBlockSize.iter x with Ret l => l | Raise _ => [] end
  | Raise _ => []
  end.

Lemma view_ok hb bs hs :
  0 < hb → 0 < bs → bs `mod` hb = 0 →
  ∃ hl, hash_list_of hb bs hs = Ret hl ∧ hash_seq hl (view hb bs hs) ∧
    Z.of_nat (length (view hb bs hs)) = Z.of_nat (length hs) / (bs / hb).
Proof.
  intros Hhb Hbs Hm. unfold view, hash_list_of. case_bool_decide as E.
  { subst. eexists. split_and!; [done|done|]. by rewrite Z.div_same, Z.div_1_r by lia. }
  unfold BlockHashListWithBlockSize.init. rewrite !(bool_decide_false (hb = 0)) by lia.
  rewrite !bool_decide_false by (intros H; by apply H). eexists. split; [done|].
  assert (0 < bs / hb) as Hs.
  { apply Z.div_str_pos. apply Z.mod_divide, Z.divide_pos_le in Hm; lia. }
  unfold hash_seq, BlockHashListWithBlockSize.iter, BlockHashListWithBlockSize.len. simpl.
  rewrite bool_decide_false by lia. split_and!; [done|done|]. unfold py_range. rewrite length_fmap, length_seqZ.
  apply Z2Nat.id, Z.div_pos; lia.
Qed.

Section hybrid.
Context (p : BlockPool.t) (l : list ref) (Hp : pool_inv p l []).
Context (hb L max_length : Z) (E : gset Z) (hs : list bytes) (num_groups : nat).
Context (Hhb : 0 < hb) (HL : 0 < L) (Hmax : 0 ≤ max_length) (Hlen : max_length / hb ≤ Z.of_nat (length hs)).
Implicit Types (g : attention_group) (gs : list attention_group) (k n : Z) (res : hits).

(** ** What one attention group needs *)
Notation bsz g := (spec_block_size (ag_spec g)).
Notation view_of g := (view hb (bsz g) hs).

(** The blocks a prefix of [k] blocks must have in the cache, counted from its end *)
Definition window (spec : KVCacheSpec) k : Z :=
  match spec with
  | SlidingWindowSpec bs sw | SlidingWindowMLASpec bs sw => ceil_div (sw - 1) bs
  | MambaSpec _ _ _ => 1
  | _ => k
  end.
Definition covered g k : Prop :=
  ∀ i, 0 ≤ i → k - window (ag_spec g) k ≤ i < k → cached_at_idx p (ag_ids g) (view_of g) i.

(** The groups the coordinator is built with: full attention, sliding window or Mamba *)
Record group_ok g : Prop := {
  go_ids : ag_ids g ≠ [];
  go_range : ∀ i, i ∈ ag_ids g → 0 ≤ i < 2 ^ 32 ∧ (Z.to_nat i < num_groups)%nat;
  go_size : 0 < bsz g;
  go_hash : bsz g `mod` hb = 0;
  go_lcm : (bsz g | L);
  go_kind : match ag_spec g with
            | SlidingWindowSpec _ sw | SlidingWindowMLASpec _ sw => 2 ≤ sw ∧ ag_cls g = SlidingWindowManager
            | MambaSpec _ _ _ => ag_cls g = MambaManager
            | spec => is_full_attention spec = true ∧ (ag_cls g = FullAttentionManager ∨ ag_cls g = SinkFullAttentionManager)
            end
}.

Definition is_mamba (spec : KVCacheSpec) : bool := match spec with MambaSpec _ _ _ => true | _ => false end.

Lemma usable_covered g n w extra k :
  0 < bsz g → w = window (ag_spec g) k → 0 ≤ extra →
  usable p (ag_ids g) (view_of g) (bsz g) L n w extra k →
  0 ≤ k ∧ covered g k ∧ aligned (bsz g) L k ∧ (k = 0 ∨ (k + extra) * bsz g ≤ n).
Proof.
  intros Hbs -> Hx [->|(Hk & Ha & Hn & Hc)].
  - split_and!; [done|intros i ? ?; lia|done|by left].
  - split_and!; [lia| |done|by right]. intros i Hi Hr. apply Hc; lia.
Qed.

Lemma covered_usable g n w k :
  w = window (ag_spec g) k → 0 ≤ k → aligned (bsz g) L k → k * bsz g ≤ n → covered g k →
  usable p (ag_ids g) (view_of g) (bsz g) L n w 0 k.
Proof.
  intros -> Hk Ha Hn Hc. destruct (decide (k = 0)); [by left|]. right. split_and!; [lia|done|lia|].
  intros i Hi Hr. apply Hc; lia.
Qed.

(** One search: the longest covered aligned prefix within [n] tokens, with EAGLE one
    whose next block is within [n] too. *)
Lemma search_spec g n (eagle : bool) :
  group_ok g → 0 ≤ n ≤ max_length → (eagle = true → is_mamba (ag_spec g) = false) →
  ∃ hl res k, hash_list_of hb (bsz g) hs = Ret hl ∧
    CacheHit.find_longest_cache_hit (ag_cls g) hl n (ag_ids g) (ag_spec g) eagle L 1 1 p = (Ret res, p) ∧
    0 ≤ k ∧ hit_blocks p (ag_ids g) (view_of g) res (k - window (ag_spec g) k) k ∧ covered g k ∧
    aligned (bsz g) L k ∧ (k = 0 ∨ (k + if eagle then 1 else 0) * bsz g ≤ n) ∧
    (eagle = false → ∀ k', 0 ≤ k' → aligned (bsz g) L k' → k' * bsz g ≤ n → covered g k' → k' ≤ k).
Proof.
  intros [Hids Hrange Hbs Hhash Hlcm Hkind] Hn Heagle.
  destruct (view_ok hb (bsz g) hs Hhb Hbs Hhash) as (hl & Hhl & Hseq & Hvlen). exists hl.
  assert (n / bsz g ≤ Z.of_nat (length (view_of g))) as Hfit.
  { rewrite Hvlen. assert (bsz g = hb * (bsz g / hb)) as Hb by (pose proof (Z.div_mod (bsz g) hb); lia).
    assert (0 < bsz g / hb) by nia. rewrite Hb at 1. rewrite <- Z.div_div by lia.
    apply Z.div_le_mono; [lia|]. etrans; [|exact Hlen]. apply Z.div_le_mono; lia. }
  assert (aligned (bsz g) L 0) as Hal0 by done.
  assert (∀ i, i ∈ ag_ids g → 0 ≤ i < 2 ^ 32) as Hr32 by (intros i Hi; by apply Hrange).
  assert (∃ res k (W : Z → Z), (∀ k, W k = window (ag_spec g) k) ∧
    CacheHit.find_longest_cache_hit (ag_cls g) hl n (ag_ids g) (ag_spec g) eagle L 1 1 p = (Ret res, p) ∧
    hit_blocks p (ag_ids g) (view_of g) res (k - W k) k ∧
    usable p (ag_ids g) (view_of g) (bsz g) L n (W k) (if eagle then 1 else 0) k ∧
    (eagle = false → ∀ k', usable p (ag_ids g) (view_of g) (bsz g) L n (W k') 0 k' → k' ≤ k))
    as (res & k & W & HW & Hrun & Hhit & Hus & Hlong).
  { assert (is_full_attention (ag_spec g) = true →
      ∃ res k, full_find hl n (ag_ids g) (ag_spec g) eagle L 1 1 p = (Ret res, p) ∧
        hit_blocks p (ag_ids g) (view_of g) res 0 k ∧
        longest (λ k, usable p (ag_ids g) (view_of g) (bsz g) L n k (if eagle then 1 else 0) k) k) as Hfull.
    { intros Hf. apply (full_find_spec p l (ag_ids g) Hp Hr32 Hids hl (view_of g) n (ag_spec g) eagle L 1 1);
        [by destruct (ag_spec g)|done..|lia]. }
    assert (∀ bs sw, 2 ≤ sw → ag_spec g = SlidingWindowSpec bs sw ∨ ag_spec g = SlidingWindowMLASpec bs sw →
      ∃ res k (W : Z → Z), (∀ k, W k = window (ag_spec g) k) ∧
        swa_find hl n (ag_ids g) (ag_spec g) eagle L 1 1 p = (Ret res, p) ∧
        hit_blocks p (ag_ids g) (view_of g) res (k - W k) k ∧
        usable p (ag_ids g) (view_of g) (bsz g) L n (W k) (if eagle then 1 else 0) k ∧
        (eagle = false → ∀ k', usable p (ag_ids g) (view_of g) (bsz g) L n (W k') 0 k' → k' ≤ k)) as Hswa.
    { intros bs sw Hsw Hspec. assert (bsz g = bs) as Hb by (by destruct Hspec as [->| ->]).
      rewrite Hb in *. assert (1 ≤ ceil_div (sw - 1) bs) as Hc1.
      { pose proof (ceil_div_spec (sw - 1) bs 0 Hbs). lia. }
      assert (∀ x, 0 ≤ x → Z.max 1 (ceil_div (sw - 1) bs + x) - x = ceil_div (sw - 1) bs) as Hwin by lia.
      destruct (swa_find_spec p l (ag_ids g) Hp Hr32 Hids hl (view hb bs hs) bs sw n eagle L (ag_spec g) Hspec Hseq Hbs HL)
        as (res & k & Hrun & Hhit & Hus & Hlong); [lia|done|].
      rewrite Hwin in Hhit, Hus, Hlong by (by destruct eagle).
      exists res, k, (λ _, ceil_div (sw - 1) bs). split_and!; try done.
      - intros k1. by destruct Hspec as [->| ->].
      - intros -> k' Hk'. apply Hlong; [by left|done]. }
    destruct (ag_spec g) eqn:Hspec; try (destruct Hkind as [Hf Hcls]; destruct (Hfull Hf) as (res & k & Hrun & Hhit & Hus & Hlong);
      exists res, k, (λ k, k); rewrite Z.sub_diag; split_and!; [done|by destruct Hcls as [->| ->]|done|done|by intros ->]).
    - destruct Hkind as [Hsw Hcls]. rewrite Hcls. apply (Hswa block_size sliding_window); [done|by left].
    - destruct Hkind as [Hsw Hcls]. rewrite Hcls. apply (Hswa block_size sliding_window); [done|by right].
    - rewrite Hkind. destruct eagle; [by specialize (Heagle eq_refl)|].
      destruct (mamba_find_spec p l (ag_ids g) Hp Hr32 Hids hl (view hb block_size hs) block_size mamba_cache_mode
        num_speculative_blocks n false L) as (res & k & Hrun & Hhit & Hus & Hlong); [done..|lia|done|].
      exists res, k, (λ _, 1). by split_and!. }
  assert (0 ≤ (if eagle then 1 else 0)) as Hx by by destruct eagle.
  destruct (usable_covered g n (W k) _ k Hbs (HW k) Hx Hus) as (? & ? & ? & ?).
  exists res, k. split_and!; try done; [by rewrite <- HW|].
  intros He k' Hk' Ha Hn' Hc. apply Hlong; [done|]. by apply covered_usable.
Qed.

(** ** The table of results by group *)
Notation table := (list (option (list ref))).
Implicit Types by_group : table.

Definition stored g by_group res : Prop :=
  Forall2 (λ i bs, by_group !! Z.to_nat i = Some (Some bs)) (ag_ids g) res.

Lemma store_hits_run ids res by_group :
  NoDup ids → (∀ i, i ∈ ids → 0 ≤ i < Z.of_nat (length by_group)) → length res = length ids →
  ∃ by', store_hits ids res by_group p = (Ret by', p) ∧ length by' = length by_group ∧
    Forall2 (λ i bs, by' !! Z.to_nat i = Some (Some bs)) ids res ∧
    ∀ j, (∀ i, i ∈ ids → Z.to_nat i ≠ j) → by' !! j = by_group !! j.
Proof.
  intros Hnd Hr Hlen'. unfold store_hits. revert res by_group Hr Hlen'.
  induction Hnd as [|i ids Hi Hnd IH]; intros [|bs res] by_group Hr Hl; try done.
  { exists by_group. by split_and!. }
  cbn [zip zip_with foldl]. assert (0 ≤ i < Z.of_nat (length by_group)) as Hir by (apply Hr; by left).
  cbn. rewrite list_set_inb by done. destruct (IH res (<[Z.to_nat i := Some bs]> by_group)) as (by' & Hrun & Hl' & Hst & Hoth).
  { intros j Hj. rewrite length_insert. apply Hr. by right. }
  { simpl in Hl. lia. }
  exists by'. rewrite length_insert in Hl'. split_and!; [done|done| |].
  - constructor; [|done]. rewrite Hoth, list_lookup_insert_eq; [done|lia|].
    intros j Hj Heq. apply Hi. assert (0 ≤ j) by (apply Hr; by right). by replace i with j by lia.
  - intros j Hj. rewrite Hoth by (intros i' Hi'; apply Hj; by right). apply list_lookup_insert_ne. apply Hj. by left.
Qed.

(** The table holds a covered prefix of [k] blocks for the groups of [g]. *)
Definition done_at by_group g k : Prop :=
  0 ≤ k ∧ covered g k ∧ ∃ res, stored g by_group res ∧
    hit_blocks p (ag_ids g) (view_of g) res (k - window (ag_spec g) k) k.
Definition fresh_at by_group g : Prop := ∀ i, i ∈ ag_ids g → by_group !! Z.to_nat i = Some None.

Lemma done_at_ext by_group by' g k :
  (∀ i, i ∈ ag_ids g → by' !! Z.to_nat i = by_group !! Z.to_nat i) → done_at by_group g k → done_at by' g k.
Proof.
  intros He (Hk & Hc & res & Hst & Hh). split_and!; [done|done|]. exists res. split; [|done].
  eapply Forall2_impl_elem; [exact Hst|]. intros i bs Hi ?. by rewrite He.
Qed.

Notation full g := (is_full_attention (ag_spec g)).

(** A length at which group [g] can continue *)
Definition fits g n : Prop := (L | n) ∧ covered g (n / bsz g).

Lemma aligned_divide g k : 0 < bsz g → aligned (bsz g) L k ↔ (L | k * bsz g).
Proof. intros. unfold aligned. apply Z.mod_divide. lia. Qed.

(** ** One group *)
Record step_ok idx g curr by_group : Prop := {
  so_group : group_ok g;
  so_ids : NoDup (ag_ids g);
  so_len : length by_group = num_groups;
  so_curr : 0 ≤ curr ≤ max_length;
  so_mamba : idx ∈ E → is_mamba (ag_spec g) = false
}.

(** What a group's step leaves: [curr'] tokens, [k] blocks in the table *)
Record stepped g (curr : Z) by_group (curr' : Z) by' (k : Z) : Prop := {
  sd_len : length by' = num_groups;
  sd_curr : 0 ≤ curr' ≤ curr;
  sd_lcm : (L | curr');
  sd_done : done_at by' g k;
  sd_within : curr' ≤ k * bsz g;
  sd_exact : full g = false → k * bsz g = curr';
  sd_other : ∀ j, (∀ i, i ∈ ag_ids g → Z.to_nat i ≠ j) → by' !! j = by_group !! j;
  sd_greatest : E = ∅ → ∀ n, 0 ≤ n ≤ curr → fits g n → n ≤ curr'
}.

(** Searching *)
Lemma group_search idx g curr by_group v :
  step_ok idx g curr by_group → full g && bool_decide (is_Some (by_group !!! Z.to_nat (ag_ids g !!! 0%nat))) = false →
  ∃ curr' by' v' k, hybrid_group hb L max_length E hs idx g (curr, by_group, v) p = (Ret (curr', by', v'), p) ∧
    stepped g curr by_group curr' by' k ∧ k * bsz g = curr'.
Proof.
  intros [Hg Hnd Hl Hc Hm] Hnot. unfold hybrid_group. destruct (ag_ids g) as [|g0 ids] eqn:Hids; [by destruct (go_ids g Hg)|].
  assert (0 ≤ g0 < Z.of_nat (length by_group)) as Hg0.
  { destruct (go_range g Hg g0) as [? ?]; [rewrite Hids; by left|]. lia. }
  erewrite (run_bind _ _ p g0 p) by done.
  assert (list_get by_group g0 = Some (by_group !!! Z.to_nat g0)) as Hget.
  { rewrite list_get_lookup by lia. apply list_lookup_lookup_total_lt. lia. }
  erewrite (run_bind _ _ p (by_group !!! Z.to_nat g0) p) by (by rewrite Hget). simpl in Hnot. rewrite Hnot.
  set (eagle := bool_decide (idx ∈ E) && bool_decide (idx ∉ v)).
  assert (eagle = true → idx ∈ E) as HeE by (unfold eagle; intros [? _]%andb_prop; by apply bool_decide_eq_true in H).
  set (n := if eagle then _ else _).
  assert (0 ≤ n ≤ max_length ∧ n ≤ curr + if eagle then bsz g else 0) as [Hn Hn'].
  { pose proof (go_size g Hg). unfold n. destruct eagle; lia. }
  destruct (search_spec g n eagle Hg Hn ltac:(auto)) as (hl & res & k & Hhl & Hrun & Hk & Hhit & Hcov & Hal & Hle & Hlong).
  erewrite run_bind by (by rewrite Hhl). rewrite <- Hids. erewrite run_bind by exact Hrun.
  assert (length res = length (ag_ids g)) as Hlr by (symmetry; by eapply Forall2_length).
  assert (hit_len res p = (Ret k, p)) as Hhl'.
  { rewrite Hids in Hhit. apply Forall2_cons_inv_l in Hhit as (bs & res' & [Hbl _] & _ & ->).
    unfold hit_len, bind, of_option, ret. simpl. by rewrite Hbl. }
  erewrite run_bind by exact Hhl'. cbv zeta.
  destruct (store_hits_run (ag_ids g) res by_group) as (by' & Hst & Hlb & Hstored & Hoth); [by rewrite Hids| |done|].
  { intros i Hi. destruct (go_range g Hg i Hi). lia. }
  erewrite run_bind by exact Hst. pose proof (go_size g Hg) as Hbs.
  assert (k * bsz g ≤ curr) as Hkc by (destruct Hle as [->|Hle]; [lia|destruct eagle; lia]).
  do 3 eexists. exists k. split; [done|]. split; [|done]. split; try done.
  - by rewrite Hlb.
  - nia.
  - by apply aligned_divide.
  - split_and!; [done|done|]. by exists res.
  - intros -> n' Hn'' [Hdiv Hcov']. assert (eagle = false) as He by (destruct eagle; [by destruct (not_elem_of_empty idx (HeE eq_refl))|done]).
    assert (n = curr) as Hnc by (unfold n; by rewrite He).
    assert (bsz g | n') as [q ->] by (etrans; [by apply go_lcm|done]). rewrite Z.div_mul in Hcov' by lia.
    apply Z.mul_le_mono_nonneg_r; [lia|]. apply Hlong; [done|nia|by apply aligned_divide|lia|done].
Qed.

(** A full-attention group that has been searched before only trims the length. *)
Lemma group_trim idx g curr by_group v k :
  step_ok idx g curr by_group → full g = true → done_at by_group g k → (L | curr) → curr ≤ k * bsz g →
  hybrid_group hb L max_length E hs idx g (curr, by_group, v) p = (Ret (curr, by_group, v), p) ∧
  stepped g curr by_group curr by_group k.
Proof.
  intros [Hg Hnd Hl Hc Hm] Hf Hd HLc Hk. pose proof (go_size g Hg) as Hbs. split.
  2:{ split; try done; [lia|by rewrite Hf|by intros _ n [_ ?] _]. }
  unfold hybrid_group. destruct Hd as (_ & _ & res & Hst & _). unfold stored in Hst.
  destruct (ag_ids g) as [|g0 ids] eqn:Hids; [by destruct (go_ids g Hg)|].
  apply Forall2_cons_inv_l in Hst as (bs & res' & Hg0 & _).
  erewrite (run_bind _ _ p g0 p) by done.
  erewrite (run_bind _ _ p (Some bs) p).
  2:{ rewrite list_get_lookup, Hg0; [done|]. destruct (go_range g Hg g0); [rewrite Hids; by left|lia]. }
  rewrite Hf, bool_decide_true by eauto. cbn [andb]. cbv iota zeta. erewrite run_bind by by apply floordiv_run.
  assert (bsz g | curr) as [q ->] by (etrans; [by apply go_lcm|done]). by rewrite Z.div_mul by lia.
Qed.

(** ** One round over all groups *)

(** Before a round a group has no result yet, or one that reaches the candidate. *)
Definition ready (fresh : bool) by_group curr g : Prop :=
  if fresh then fresh_at by_group g else ∃ k, done_at by_group g k ∧ (full g = true → curr ≤ k * bsz g).

Lemma group_step fresh idx g curr by_group v :
  step_ok idx g curr by_group → ready fresh by_group curr g → (fresh = false → (L | curr)) →
  ∃ curr' by' v' k, hybrid_group hb L max_length E hs idx g (curr, by_group, v) p = (Ret (curr', by', v'), p) ∧
    stepped g curr by_group curr' by' k ∧ (fresh = true → k * bsz g = curr').
Proof.
  intros Hok Hr HLc. destruct (full g && bool_decide (is_Some (by_group !!! Z.to_nat (ag_ids g !!! 0%nat)))) eqn:Hc.
  2:{ destruct (group_search idx g curr by_group v Hok Hc) as (c' & by' & v' & k & ? & ? & ?). by exists c', by', v', k. }
  apply andb_prop in Hc as [Hf Hsome%bool_decide_eq_true]. destruct fresh.
  - destruct (ag_ids g) as [|g0 ids] eqn:Hids; [by destruct (go_ids g (so_group _ _ _ _ Hok))|].
    specialize (Hr g0). rewrite Hids in Hr. apply list_lookup_total_correct in Hr; [|by left].
    simpl in Hsome. rewrite Hr in Hsome. by destruct Hsome.
  - destruct Hr as (k & Hd & Hk). destruct (group_trim idx g curr by_group v k) as [? ?]; auto.
    by exists curr, by_group, v, k.
Qed.

Record round_ok idx gs curr by_group : Prop := {
  ro_groups : ∀ g, g ∈ gs → group_ok g;
  ro_ids : NoDup (concat (ag_ids <$> gs));
  ro_len : length by_group = num_groups;
  ro_curr : 0 ≤ curr ≤ max_length;
  ro_mamba : ∀ (j : nat) g, gs !! j = Some g → idx + Z.of_nat j ∈ E → is_mamba (ag_spec g) = false
}.

Lemma disjoint_ids g gs i g' :
  NoDup (concat (ag_ids <$> g :: gs)) → i ∈ ag_ids g → g' ∈ gs → i ∈ ag_ids g' → False.
Proof.
  csimpl. intros (_ & Hd & _)%NoDup_app Hi Hg' Hi'. apply (Hd i Hi), list_elem_of_In, in_concat. exists (ag_ids g').
  rewrite <- !list_elem_of_In. split; [apply list_elem_of_fmap; eauto|done].
Qed.

Lemma round_tail idx g gs curr by_group curr' by' k :
  round_ok idx (g :: gs) curr by_group → stepped g curr by_group curr' by' k →
  step_ok idx g curr by_group ∧ round_ok (idx + 1) gs curr' by' ∧
  ∀ g', g' ∈ gs → ∀ i, i ∈ ag_ids g' → by' !! Z.to_nat i = by_group !! Z.to_nat i.
Proof.
  intros [Hg Hnd Hl Hc Hm] [Hl' Hc' _ _ _ _ Hoth _]. split_and!.
  - split; [apply Hg; by left|by csimpl in Hnd; apply NoDup_app in Hnd as [? _]|done|done|].
    intros HE. apply (Hm 0%nat); [done|]. by rewrite Z.add_0_r.
  - split; [intros g' Hg'; apply Hg; by right|by csimpl in Hnd; apply NoDup_app in Hnd as (_ & _ & ?)|done|lia|].
    intros j g' Hj HE. apply (Hm (S j) g' Hj). by replace (idx + Z.of_nat (S j)) with (idx + 1 + Z.of_nat j) by lia.
  - intros g' Hg' i Hi. apply Hoth. intros i' Hi' Heq.
    assert (i' = i) as ->.
    { destruct (go_range g (Hg g ltac:(by left)) i' Hi') as [? _], (go_range g' (Hg g' ltac:(by right)) i Hi) as [? _]. lia. }
    by eapply disjoint_ids.
Qed.

Record round_done (fresh : bool) gs curr by_group curr' by' : Prop := {
  rd_len : length by' = num_groups;
  rd_curr : 0 ≤ curr' ≤ curr;
  rd_lcm : (gs ≠ [] ∨ (L | curr)) → (L | curr');
  rd_groups : ∀ g, g ∈ gs → ∃ k, done_at by' g k ∧ curr' ≤ k * bsz g ∧ (full g = false → k * bsz g ≤ curr) ∧
    (fresh = true → last gs = Some g → k * bsz g = curr');
  rd_other : ∀ j, (∀ g i, g ∈ gs → i ∈ ag_ids g → Z.to_nat i ≠ j) → by' !! j = by_group !! j;
  rd_greatest : E = ∅ → ∀ n, 0 ≤ n ≤ curr → (∀ g, g ∈ gs → fits g n) → n ≤ curr'
}.

Lemma round_run fresh idx gs curr by_group v :
  round_ok idx gs curr by_group → (∀ g, g ∈ gs → ready fresh by_group curr g) → (fresh = false → (L | curr)) →
  ∃ curr' by' v', hybrid_groups hb L max_length E hs idx gs (curr, by_group, v) p = (Ret (curr', by', v'), p) ∧
    round_done fresh gs curr by_group curr' by'.
Proof.
  revert idx curr by_group v. induction gs as [|g gs IH]; intros idx curr by_group v Hok Hready HLc.
  { exists curr, by_group, v. destruct Hok. split; [done|]. split; try done; [lia|by intros [?|?]|by intros ? []%elem_of_nil|].
    by intros _ n [_ ?] _. }
  cbn [hybrid_groups]. assert (step_ok idx g curr by_group) as Hso.
  { destruct Hok as [Hg Hnd Hl Hc Hm]. split; [apply Hg; by left|by csimpl in Hnd; apply NoDup_app in Hnd as [? _]|done|done|].
    intros HE. apply (Hm 0%nat); [done|]. by rewrite Z.add_0_r. }
  destruct (group_step fresh idx g curr by_group v Hso (Hready g ltac:(by left)) HLc)
    as (c1 & by1 & v1 & k1 & Hrun & Hst & Hfr). erewrite run_bind by exact Hrun.
  destruct (round_tail _ _ _ _ _ _ _ _ Hok Hst) as (_ & Hok1 & Hkeep).
  destruct Hst as [Hl1 Hc1 HL1 Hd1 Hw1 Hx1 Ho1 Hg1].
  destruct (IH (idx + 1) c1 by1 v1) as (c2 & by2 & v2 & Hrun2 & [Hl2 Hc2 HL2 Hgs2 Ho2 Hg2]); [done| |done|].
  { intros g' Hg'. specialize (Hready g' ltac:(by right)). destruct fresh; simpl in *.
    - intros i Hi. rewrite (Hkeep g') by done. by apply Hready.
    - destruct Hready as (k & Hd & Hk). exists k. split; [by eapply done_at_ext; [|done]; apply Hkeep|].
      intros Hf. specialize (Hk Hf). lia. }
  exists c2, by2, v2. split; [done|]. split.
  - done.
  - lia.
  - intros _. apply HL2. by right.
  - intros g' [->|Hg']%elem_of_cons.
    + exists k1. split_and!; [|lia|intros Hf; specialize (Hx1 Hf); lia|].
      * eapply done_at_ext; [|done]. intros i Hi. apply Ho2. intros g' i' Hg' Hi' Heq.
        assert (i' = i) as ->.
        { destruct Hok as [Hg _ _ _ _].
          destruct (go_range g' (Hg g' ltac:(by right)) i' Hi') as [? _], (go_range g (Hg g ltac:(by left)) i Hi) as [? _]. lia. }
        eapply disjoint_ids; [by apply Hok|done..].
      * intros -> Hlast. specialize (Hfr eq_refl). destruct gs as [|g2 gs].
        { simpl in Hrun2. unfold ret in Hrun2. by simplify_eq. }
        exfalso. destruct (ag_ids g) as [|i ids] eqn:Hids; [by destruct (go_ids g (so_group _ _ _ _ Hso))|].
        apply (disjoint_ids g (g2 :: gs) i g); [apply Hok|rewrite Hids; by left| |rewrite Hids; by left].
        apply last_Some_elem_of. by rewrite last_cons_cons in Hlast.
    + destruct (Hgs2 g' Hg') as (k & Hd & Hk & Hnf & Hl). exists k. split_and!; [done|done|intros Hf; specialize (Hnf Hf); lia|].
      intros Hfresh Hlast. apply Hl; [done|]. destruct gs as [|g2 gs]; [by apply not_elem_of_nil in Hg'|].
      by rewrite last_cons_cons in Hlast.
  - intros j Hj. rewrite Ho2 by (intros g' i Hg' Hi; apply (Hj g'); [by right|done]).
    apply Ho1. intros i Hi. apply (Hj g); [by left|done].
  - intros HE n Hn Hfit. apply Hg2; [done| |intros g' Hg'; apply Hfit; by right].
    split; [lia|]. apply Hg1; [done|done|]. apply Hfit. by left.
Qed.

(** ** The iteration *)
Section iteration.
Context (gs : list attention_group) (Hgs : ∀ g, g ∈ gs → group_ok g) (Hids : NoDup (concat (ag_ids <$> gs))).
Context (Hne : gs ≠ []).
Context (Hmamba : ∀ (j : nat) g, gs !! j = Some g → Z.of_nat j ∈ E → is_mamba (ag_spec g) = false).

(** A common hit of [n] tokens, in the table *)
Record found_at by_group n : Prop := {
  fa_len : length by_group = num_groups;
  fa_range : 0 ≤ n ≤ max_length;
  fa_lcm : (L | n);
  fa_groups : ∀ g, g ∈ gs → ∃ k, done_at by_group g k ∧ n ≤ k * bsz g ∧ (full g = false → k * bsz g = n);
  fa_greatest : E = ∅ → ∀ n', 0 ≤ n' ≤ max_length → (∀ g, g ∈ gs → fits g n') → n' ≤ n
}.

Lemma hybrid_loop_run fuel hit by_group v :
  (Z.to_nat hit < fuel)%nat → length by_group = num_groups → 0 ≤ hit ≤ max_length → (L | hit) →
  (∀ g, g ∈ gs → ready false by_group hit g) →
  (E = ∅ → ∀ n', 0 ≤ n' ≤ max_length → (∀ g, g ∈ gs → fits g n') → n' ≤ hit) →
  ∃ n by', hybrid_loop hb L max_length E hs fuel false gs hit by_group v p = (Ret (n, by'), p) ∧ found_at by' n.
Proof.
  revert hit by_group v. induction fuel as [|fuel IH]; intros hit by_group v Hf Hl Hhit HLh Hready Hgreat; [lia|].
  cbn [hybrid_loop].
  destruct (round_run false 0 gs hit by_group v) as (c & by' & v' & Hrun & [Hl' Hc HL' Hdone _ Hg']);
    [split; auto; intros j g; by rewrite Z.add_0_l; apply Hmamba|done|done|].
  specialize (HL' (or_introl Hne)). erewrite run_bind by exact Hrun. cbv beta iota.
  assert (E = ∅ → ∀ n', 0 ≤ n' ≤ max_length → (∀ g, g ∈ gs → fits g n') → n' ≤ c) as Hgc.
  { intros HE n' Hn' Hfit. apply Hg'; [done| |done]. specialize (Hgreat HE n' Hn' Hfit). lia. }
  case_bool_decide as Hle.
  - assert (c = hit) as -> by lia. exists hit, by'. split; [done|]. split; try done.
    intros g Hg. destruct (Hdone g Hg) as (k & Hd & Hk & Hnf & _). exists k. split_and!; [done|done|].
    intros Hfl. specialize (Hnf Hfl). lia.
  - apply IH; [lia|done|lia|done| |done]. intros g Hg. destruct (Hdone g Hg) as (k & Hd & Hk & _). by exists k.
Qed.

(** The first round, from an empty table *)
Lemma hybrid_first_run simple :
  (simple = true → ∃ g1 g2, gs = [g1; g2] ∧ full g1 = true) →
  ∃ n by', hybrid_loop hb L max_length E hs (S (Z.to_nat (max_length + 1))) simple gs max_length
      (replicate num_groups None) ∅ p = (Ret (n, by'), p) ∧ found_at by' n.
Proof.
  intros Hsimple. cbn [hybrid_loop].
  destruct (round_run true 0 gs max_length (replicate num_groups None) ∅)
    as (c & by' & v' & Hrun & [Hl' Hc HL' Hdone _ Hg']).
  { split; [done|done|by rewrite length_replicate|lia|]. intros j g. rewrite Z.add_0_l. apply Hmamba. }
  { intros g Hg i Hi. apply lookup_replicate_2. by apply (go_range g (Hgs g Hg)). }
  { done. }
  specialize (HL' (or_introl Hne)). erewrite run_bind by exact Hrun. cbv beta iota. case_bool_decide as Hle.
  - assert (c = max_length) as -> by lia. exists max_length, by'. split; [done|]. split; try done; try lia.
    intros g Hg. destruct (Hdone g Hg) as (k & Hd & Hk & Hnf & _). exists k. split_and!; [done|done|].
    intros Hfl. specialize (Hnf Hfl). lia.
  - destruct simple.
    + exists c, by'. split; [done|]. split; try done; try lia. intros g Hg.
      destruct (Hdone g Hg) as (k & Hd & Hk & _ & Hlast). exists k. split_and!; [done|done|]. intros Hfl.
      destruct (Hsimple eq_refl) as (g1 & g2 & -> & Hf1).
      apply Hlast; [done|]. apply elem_of_cons in Hg as [->|Hg]; [congruence|]. apply list_elem_of_singleton in Hg as ->. done.
    + apply hybrid_loop_run; [lia|done|lia|done| |done].
      intros g Hg. destruct (Hdone g Hg) as (k & Hd & Hk & _). by exists k.
Qed.

Lemma truncate_run ids q by_group res :
  NoDup ids → (∀ i, i ∈ ids → 0 ≤ i) → 0 ≤ q →
  Forall2 (λ i bs, by_group !! Z.to_nat i = Some (Some bs) ∧ q ≤ Z.of_nat (length bs)) ids res →
  ∃ by', truncate_hits ids q by_group p = (Ret by', p) ∧ length by' = length by_group ∧
    Forall2 (λ i bs, by' !! Z.to_nat i = Some (Some (take (Z.to_nat q) bs))) ids res ∧
    ∀ j, (∀ i, i ∈ ids → Z.to_nat i ≠ j) → by' !! j = by_group !! j.
Proof.
  intros Hnd Hpos Hq. unfold truncate_hits. revert by_group res.
  induction Hnd as [|i ids Hi Hnd IH]; intros by_group res Hst.
  { apply Forall2_nil_inv_l in Hst as ->. exists by_group. by split_and!. }
  apply Forall2_cons_inv_l in Hst as (bs & res' & [Hib Hlb] & Hst & ->). cbn [foldl].
  assert (0 ≤ i) as Hi0 by (apply Hpos; by left). cbn. rewrite list_get_lookup, Hib by done. cbn.
  assert (Z.to_nat i < length by_group)%nat as Hlt by by eapply lookup_lt_Some.
  rewrite list_set_inb by lia. rewrite py_slice_in_range by lia. rewrite Z.sub_0_r. simpl drop.
  assert (∀ j, j ∈ ids → Z.to_nat i ≠ Z.to_nat j) as Hij.
  { intros j Hj Heq. apply Hi. assert (0 ≤ j) by (apply Hpos; by right). by replace i with j by lia. }
  destruct (IH (λ j Hj, Hpos j ltac:(by right)) (<[Z.to_nat i := Some (take (Z.to_nat q) bs)]> by_group) res')
    as (by' & Hrun & Hl & Hst' & Hoth).
  { eapply Forall2_impl_elem; [exact Hst|]. intros j bs' Hj [? ?]. by rewrite list_lookup_insert_ne by auto. }
  exists by'. rewrite length_insert in Hl. split_and!; [done|done| |].
  - constructor; [|done]. rewrite Hoth by (intros j Hj; by apply not_eq_sym, Hij). by apply list_lookup_insert_eq.
  - intros j Hj. rewrite Hoth by (intros i' Hi'; apply Hj; by right). apply list_lookup_insert_ne. apply Hj. by left.
Qed.

(** ** The result *)

(** The list [bl] of group [i] makes the first [n] tokens available to [g]: every block
    has the hash of its position for the group, or is null and before the window. *)
Record makes_available g n (i : Z) (bl : list ref) : Prop := {
  ma_len : n / bsz g ≤ Z.of_nat (length bl);
  ma_blocks : ∀ j b, Z.of_nat j < n / bsz g → bl !! j = Some b → ∃ h, view_of g !! j = Some h ∧
    (carries p h i b ∨ b = null_block p ∧ Z.of_nat j < n / bsz g - window (ag_spec g) (n / bsz g))
}.

Lemma done_available by_group g k n :
  group_ok g → done_at by_group g k → (L | n) → 0 ≤ n ≤ k * bsz g → (full g = false → k * bsz g = n) →
  covered g (n / bsz g) ∧
  ∃ res, stored g by_group res ∧
    Forall2 (λ i bl, makes_available g n i bl ∧ (full g = false → Z.of_nat (length bl) = n / bsz g)) (ag_ids g) res.
Proof.
  intros Hg (Hk & Hcov & res & Hst & Hhit) HLn Hn Hx. pose proof (go_size g Hg) as Hbs.
  assert (bsz g | n) as [q ->] by (etrans; [by apply go_lcm|done]). rewrite Z.div_mul in * by lia.
  assert (q ≤ k) as Hqk by nia. assert (full g = false → q = k) as Hqx by (intros Hf; specialize (Hx Hf); nia).
  assert (full g = true → ∀ k, window (ag_spec g) k = k) as Hw by (by destruct (ag_spec g)).
  split.
  { intros i Hi Hr. destruct (full g) eqn:Hf; [|by rewrite Hqx in Hr by done; apply Hcov].
    rewrite Hw in Hr by done. apply Hcov; [done|]. rewrite Hw by done. lia. }
  exists res. split; [done|]. eapply Forall2_impl; [exact Hhit|]. intros i bl [Hl Hb]. split.
  - split; rewrite Z.div_mul by lia; [lia|]. intros j b Hj Hjb. destruct (Hb j b Hjb) as (h & Hh & Hc). exists h. split; [done|].
    destruct Hc as [?|[? Hlt]]; [by left|right]. split; [done|]. destruct (full g) eqn:Hf; [|by rewrite Hqx].
    rewrite Hw in * by done. lia.
  - intros Hf. rewrite Hqx by done. done.
Qed.

(** What the search returns: the table of lists and the number of tokens *)
Record common_hit (blocks : list (list ref)) n : Prop := {
  ch_range : 0 ≤ n ≤ max_length;
  ch_fits : ∀ g, g ∈ gs → fits g n;
  ch_blocks : ∀ g i, g ∈ gs → i ∈ ag_ids g → ∃ bl, blocks !! Z.to_nat i = Some bl ∧ makes_available g n i bl ∧
    (full g = false ∨ head gs = Some g → Z.of_nat (length bl) = n / bsz g);
  ch_greatest : E = ∅ → ∀ n', 0 ≤ n' ≤ max_length → (∀ g, g ∈ gs → fits g n') → n' ≤ n
}.

Lemma found_common by_group n :
  found_at by_group n →
  (∀ g, g ∈ gs → full g = true → head gs = Some g → ∀ i bl, i ∈ ag_ids g → by_group !! Z.to_nat i = Some (Some bl) →
     Z.of_nat (length bl) = n / bsz g) →
  common_hit (default [] <$> by_group) n.
Proof.
  intros [Hl Hr HLn Hd Hgr] Htr. split; [done| | |done].
  - intros g Hg. destruct (Hd g Hg) as (k & Hdn & Hk & Hx). split; [done|].
    by destruct (done_available by_group g k n (Hgs g Hg) Hdn HLn ltac:(lia) Hx).
  - intros g i Hg Hi. destruct (Hd g Hg) as (k & Hdn & Hk & Hx).
    destruct (done_available by_group g k n (Hgs g Hg) Hdn HLn ltac:(lia) Hx) as (_ & res & Hst & Hav).
    apply list_elem_of_lookup_1 in Hi as Hj. destruct Hj as [j Hj].
    destruct (Forall2_lookup_l _ _ _ _ _ Hst Hj) as (bl & Hbl & Hib).
    destruct (Forall2_lookup_l _ _ _ _ _ Hav Hj) as (bl' & Hbl' & Hav1 & Hlen1).
    assert (bl' = bl) as -> by congruence. exists bl. split_and!; [by rewrite list_lookup_fmap, Hib|done|].
    intros [Hf|Hh]; [by apply Hlen1|]. destruct (full g) eqn:Hf; [by eapply Htr|by apply Hlen1].
Qed.

(** Shortening the lists of the first full-attention group to the common length *)
Lemma truncate_found by_group n g gs' :
  gs = g :: gs' → full g = true → found_at by_group n →
  ∃ by', truncate_hits (ag_ids g) (n / bsz g) by_group p = (Ret by', p) ∧ found_at by' n ∧
    ∀ i bl, i ∈ ag_ids g → by' !! Z.to_nat i = Some (Some bl) → Z.of_nat (length bl) = n / bsz g.
Proof.
  intros Hg0 Hf [Hl Hr HLn Hd Hgr]. assert (g ∈ gs) as Hin by (rewrite Hg0; by left).
  pose proof (Hgs g Hin) as Hok. pose proof (go_size g Hok) as Hbs. set (q := n / bsz g).
  assert (0 ≤ q) as Hq by (apply Z.div_pos; lia).
  assert (n = q * bsz g) as Hnq.
  { unfold q. assert (bsz g | n) as [x ->] by (etrans; [by apply go_lcm|done]). by rewrite Z.div_mul by lia. }
  assert (∀ k, window (ag_spec g) k = k) as Hw by (by destruct (ag_spec g)).
  destruct (Hd g Hin) as (k & (Hk & Hcov & res & Hst & Hhit) & Hnk & _). assert (q ≤ k) as Hqk by nia.
  assert (∀ i, i ∈ ag_ids g → 0 ≤ i) as Hpos by (intros i Hi; by destruct (go_range g Hok i Hi) as [[? ?] ?]).
  assert (NoDup (ag_ids g)) as Hnd by (rewrite Hg0 in Hids; csimpl in Hids; by apply NoDup_app in Hids as [? _]).
  destruct (truncate_run (ag_ids g) q by_group res) as (by' & Hrun & Hlb & Hst' & Hoth); [done..| |].
  { apply Forall2_same_length_lookup in Hst as [Hlen' Hst], Hhit as [_ Hhit]. apply Forall2_same_length_lookup.
    split; [done|]. intros j i bl Hi Hbl. destruct (Hhit j i bl Hi Hbl) as [Hlk _]. split; [by eapply Hst|lia]. }
  exists by'. split; [done|]. split.
  - split; [by rewrite Hlb|done|done| |done]. intros g' Hg'. rewrite Hg0 in Hg'. apply elem_of_cons in Hg' as [->|Hg'].
    + exists q. split_and!; [|lia|by rewrite Hf]. split_and!; [done| |].
      { intros i Hi Hir. rewrite Hw in Hir. apply Hcov; [done|]. rewrite Hw. lia. }
      exists (take (Z.to_nat q) <$> res). split; [by apply Forall2_fmap_r|]. apply Forall2_fmap_r.
      eapply Forall2_impl; [exact Hhit|]. intros i bl [Hlk Hb]. split; [rewrite length_take; lia|].
      intros j b [Hj Hjq]%lookup_take_Some. destruct (Hb j b Hj) as (h & Hh & Hc). exists h. split; [done|].
      destruct Hc as [?|[? Hlt]]; [by left|]. rewrite Hw in Hlt. lia.
    + destruct (Hd g' ltac:(rewrite Hg0; by right)) as (k' & Hdn & Hk' & Hx'). exists k'. split_and!; [|done|done].
      eapply done_at_ext; [|done]. intros i Hi. apply Hoth. intros i' Hi' Heq.
      assert (i' = i) as ->.
      { assert (0 ≤ i) by (apply (go_range g' (Hgs g' ltac:(rewrite Hg0; by right)) i Hi)). specialize (Hpos i' Hi'). lia. }
      rewrite Hg0 in Hids. by eapply disjoint_ids.
  - intros i bl Hi Hbl. apply list_elem_of_lookup_1 in Hi as [j Hj].
    destruct (Forall2_lookup_l _ _ _ _ _ Hst' Hj) as (bl0 & Hbl0 & Hib). rewrite Hib in Hbl. simplify_eq.
    destruct (Forall2_lookup_l _ _ _ _ _ Hhit Hj) as (bl1 & Hbl1 & Hl1 & _). simplify_eq.
    rewrite length_take. lia.
Qed.

Lemma hybrid_find_run :
  ∃ blocks n, hybrid_find hb L max_length E hs num_groups gs p = (Ret (blocks, n), p) ∧ common_hit blocks n.
Proof.
  assert (∃ g gs', gs = g :: gs') as (g & gs' & Hg0) by (destruct gs; [done|eauto]).
  assert (head gs = Some g) as Hhead by by rewrite Hg0.
  unfold hybrid_find. set (simple := _ && _).
  destruct (hybrid_first_run simple) as (n & by' & Hrun & Hfound).
  { unfold simple. rewrite Hg0. intros [H2%bool_decide_eq_true Hf]%andb_prop. destruct gs' as [|g2 [|]]; try done. by exists g, g2. }
  erewrite run_bind by exact Hrun. cbv beta iota. rewrite Hhead. erewrite (run_bind _ _ p g p) by done.
  assert (0 < bsz g) as Hbs by (apply go_size, Hgs; rewrite Hg0; by left). destruct (full g) eqn:Hf.
  - destruct (truncate_found by' n g gs' Hg0 Hf Hfound) as (by2 & Hrun2 & Hfound2 & Hlen2).
    erewrite run_bind by (erewrite run_bind by (by apply floordiv_run); exact Hrun2).
    eexists _, n. split; [done|]. apply found_common; [done|].
    intros g' _ _ Hh i bl Hi Hib. rewrite Hhead in Hh. simplify_eq. by eapply Hlen2.
  - erewrite run_bind by done. eexists _, n. split; [done|]. apply found_common; [done|].
    intros g' _ Hf' Hh. rewrite Hhead in Hh. simplify_eq. congruence.
Qed.

(** C40: on a model with full-attention, sliding-window and Mamba groups (no chunked-local
    or Quest groups, windows of at least two tokens, EAGLE on no Mamba group), the search ends and
    returns a number [n] of tokens within the limit, a multiple of all block sizes, at
    which every attention group can continue: all blocks of a full-attention group, the
    blocks in the window of a sliding-window group and the last state of a Mamba group
    are cached. Every group gets a list with at least [n] tokens in which each needed
    block carries the hash of its position for the group; the lists of the sliding
    window and Mamba groups, and of the first full-attention group, have exactly [n]
    tokens. Without EAGLE no greater length would do. The pool is unchanged. *)
Theorem hybrid_hit_correct c :
  kind c = Hybrid hb gs L E → length (kv_cache_groups (kv_cache_config c)) = num_groups →
  ∃ blocks n, find_longest_cache_hit hs max_length c p = (Ret (blocks, n), p) ∧ common_hit blocks n.
Proof. intros Hk Hn. unfold find_longest_cache_hit. rewrite Hk, Hn. apply hybrid_find_run. Qed.
End iteration.
End hybrid.
