(* ===== verification/KVCacheManagerExamples.v ===== *)
(** * Concrete runs of the KV-cache manager

    Witnesses for the theorems on the coordinators and the manager, and runs in which
    the lists handed to different KV-cache groups do not fit together. *)

From S2P Require Import Prelude OrderedDict FreeQueue BlockHash BlockPool BlockPoolProps BlockPoolCache CacheHit CacheHitProps.
Import BlockPool.
From S2P Require Import SingleType SingleTypeProps SingleTypeStatic SingleTypeOwn CoordinatorOwn.
From S2P Require Coordinator CoordinatorHit SingleTypeExamples.
From S2P Require Import KVCacheManager KVCacheManagerOwn.

Open Scope Z_scope.

(** Groups of blocks of two tokens *)
Definition full_group : Coordinator.KVCacheGroupSpec := Coordinator.mkGroup (FullAttentionSpec 2) 0 false.
Definition other_full_group : Coordinator.KVCacheGroupSpec := Coordinator.mkGroup (FullAttentionSpec 2) 1 false.
Definition window_group (w : Z) : Coordinator.KVCacheGroupSpec := Coordinator.mkGroup (SlidingWindowSpec 2 w) 0 false.
Definition mamba_group : Coordinator.KVCacheGroupSpec := Coordinator.mkGroup (MambaSpec 2 "all" 0) 0 false.

(** A manager with prefix caching, and a request with [n] tokens and the hashes of its
    full blocks *)
Definition start (groups : list Coordinator.KVCacheGroupSpec) (num_blocks : Z) (eagle : bool) : outcome kvm :=
  KVCacheManager.init (Coordinator.mkConfig num_blocks groups) 64 2 None true eagle false false 1 1 None false.
Definition request (id : string) (n : Z) : KRequest :=
  mkKRequest id 0 0 false (mkRequest (seqZ 0 n) ((λ i, [i]) <$> seqZ 1 (n / 2)) [] None None None ∅).
Definition no_digest (rows : list Z) : bytes := [].

(** Computing a whole request without hits, and forgetting it: its full blocks stay in
    the prefix cache. *)
Definition compute_all (req : KRequest) : kv_op := OpSlots req (num_tokens req) 0 None 0 0 false 0 false.
Definition served (n : Z) (m : kvm) : kvm :=
  run_kv_op no_digest (OpFreeRequest (request "a" n)) (run_kv_op no_digest (compute_all (request "a" n)) m).

Definition after {A} (o : outcome kvm) (f : kvm → A) : option A := match o with Ret m => Some (f m) | Raise _ => None end.
Lemma after_run {A} (o : outcome kvm) (f : kvm → A) x : after o f = Some x → ∃ m, o = Ret m ∧ f m = x.
Proof. destruct o; [|done]. intros [= <-]. eauto. Qed.

Lemma start_reachable groups n eagle m :
  Forall group_legal groups → start groups n eagle = Ret m → kv_reachable no_digest m.
Proof. intros Hg Hm. by eapply (kr_init no_digest (Coordinator.mkConfig n groups)). Qed.

Lemma served_reachable n m : kv_reachable no_digest m → kv_reachable no_digest (served n m).
Proof. intros Hm. apply kr_step; [|done]. by apply kr_step. Qed.

Lemma full_legal : group_legal full_group.
Proof. intros. by repeat split. Qed.
Lemma other_full_legal : group_legal other_full_group.
Proof. intros. by repeat split. Qed.
Lemma window_legal w : 1 ≤ w → group_legal (window_group w).
Proof. intros. by repeat split. Qed.
Lemma mamba_legal : group_legal mamba_group.
Proof. intros. by repeat split. Qed.
Ltac legal_groups :=
  repeat first [apply List.Forall_nil | apply List.Forall_cons]; auto using full_legal, other_full_legal, mamba_legal;
  apply window_legal; lia.

(** With EAGLE on all groups the Mamba search is told to look one block further and does
    not drop the last block: the hit of 8 tokens is announced with 4 Mamba blocks but only
    3 blocks, 6 tokens, of full attention. *)
Theorem eagle_mamba_hit_too_long :
  ∃ m, kv_reachable no_digest m ∧
    (get_computed_blocks (request "b" 9) m).1 =
      Ret (Blocks [[Blk 1; Blk 2; Blk 3]; [Blk 0; Blk 0; Blk 0; Blk 9]], 8).
Proof.
  destruct (after_run (start [full_group; mamba_group] 20 true) (λ m, (get_computed_blocks (request "b" 9) (served 9 m)).1)
    (Ret (Blocks [[Blk 1; Blk 2; Blk 3]; [Blk 0; Blk 0; Blk 0; Blk 9]], 8))) as (m & Hm & Hrun); [by vm_compute|].
  exists (served 9 m). split; [|done]. eapply served_reachable, start_reachable; [|exact Hm]. legal_groups.
Qed.

(** Only the first full-attention group is cut to the common length: here the second
    one hands over 4 blocks for a hit of 3. *)
Theorem second_full_group_too_long :
  ∃ m, kv_reachable no_digest m ∧
    (get_computed_blocks (request "b" 9) m).1 =
      Ret (Blocks [[Blk 1; Blk 2; Blk 3]; [Blk 6; Blk 7; Blk 8; Blk 9]; [Blk 0; Blk 0; Blk 13]], 6).
Proof.
  set (f := λ m, run_kv_op no_digest (OpEvict [14]) (served 9 m)).
  destruct (after_run (start [full_group; other_full_group; window_group 3] 40 false) (λ m, (get_computed_blocks (request "b" 9) (f m)).1)
    (Ret (Blocks [[Blk 1; Blk 2; Blk 3]; [Blk 6; Blk 7; Blk 8; Blk 9]; [Blk 0; Blk 0; Blk 13]], 6)))
    as (m & Hm & Hrun); [by vm_compute|].
  exists (f m). split; [|done]. apply kr_step; [|done]. eapply served_reachable, start_reachable; [|exact Hm]. legal_groups.
Qed.

(** The hits of a request in full blocks of the pool can be handed over. *)
Lemma ids_ok p (ids : list Z) : Forall (λ i, 0 ≤ i < num_gpu_blocks p) ids → NoDup (filter (.≠ 0) ids) → list_ok p (Blk <$> ids).
Proof.
  intros Hr Hnd. split.
  - intros b (i & -> & Hi)%list_elem_of_fmap. exists i. split; [done|]. rewrite Forall_forall in Hr. by apply Hr.
  - assert (filter (.≠ Blk 0) (Blk <$> ids) = Blk <$> filter (.≠ 0) ids) as ->.
    { clear Hr Hnd. induction ids as [|i ids IH]; [done|]. csimpl. rewrite !filter_cons, IH.
      by destruct (decide (i ≠ 0)), (decide (Blk i ≠ Blk 0)); naive_solver. }
    apply NoDup_fmap_2; [by intros ?? [= ->]|done].
Qed.

(** Loading 6 external tokens after a hit of 16. The hits of the second group are
    touched only after the first group has taken new blocks for its external tokens, so
    the first group takes block 17, which the second group then holds as a hit: one
    block is written by both groups. *)
Definition load_hits : KVCacheBlocks := Blocks [Blk <$> seqZ 1 8; Blk <$> [0; 0; 0; 0; 14; 15; 16; 17]].
Definition load_external : kv_op := OpSlots (request "b" 24) 0 16 (Some load_hits) 0 6 true 0 false.

Theorem external_load_shares_block :
  ∃ m, kv_reachable no_digest m ∧ (get_computed_blocks (request "b" 24) m).1 = Ret (load_hits, 16) ∧
    let m' := run_kv_op no_digest load_external m in
    kv_reachable no_digest m' ∧
    Coordinator.get_blocks "b" (coordinator m') =
      [Blk <$> (seqZ 1 8 ++ [9; 18; 17]); Blk <$> [0; 0; 0; 0; 0; 0; 0; 17; 16; 15; 14]].
Proof.
  destruct (after_run (start [full_group; window_group 9] 19 false)
    (λ m, let m1 := served 17 m in
       ((get_computed_blocks (request "b" 24) m1).1,
        Coordinator.get_blocks "b" (coordinator (run_kv_op no_digest load_external m1)),
        statics (coordinator m1), num_kv_cache_groups m1)) 
    (Ret (load_hits, 16), [Blk <$> (seqZ 1 8 ++ [9; 18; 17]); Blk <$> [0; 0; 0; 0; 0; 0; 0; 17; 16; 15; 14]],
     ([(FullAttentionSpec 2, 2, true); (SlidingWindowSpec 2 9, 2, true)], 19), 2%nat)) as (m & Hm & Hrun); [by vm_compute|].
  cbv beta zeta in Hrun. apply pair_eq in Hrun as [Hrun Hgroups]. apply pair_eq in Hrun as [Hrun Hst].
  apply pair_eq in Hrun as [Hhits Hblocks].
  exists (served 17 m). assert (kv_reachable no_digest (served 17 m)) as Hr.
  { eapply served_reachable, start_reachable; [|exact Hm]. legal_groups. }
  split; [exact Hr|]. split; [exact Hhits|]. split; [|exact Hblocks]. apply kr_step; [exact Hr|]. intros _.
  unfold blocks. rewrite Hst. cbn [from_option default load_hits]. clear. intros k bs a Hbs Ha.
  assert (∀ p ids, num_gpu_blocks p = 19 → Forall (λ i, 0 ≤ i < 19) ids → NoDup (filter (.≠ 0) ids) →
    list_ok p (Blk <$> ids)) as Hl.
  { intros p ids Hn Hr Hnd. apply ids_ok; [by rewrite Hn|done]. }
  destruct k as [|[|k]]; simplify_eq/=.
  all: split_and!; [|done|done|done]; intros p Hp.
  - by apply (Hl p (seqZ 1 8)); [done|apply (bool_decide_unpack _); vm_compute|apply (bool_decide_unpack _); vm_compute].
  - by apply (Hl p [0; 0; 0; 0; 14; 15; 16; 17]); [done|apply (bool_decide_unpack _); vm_compute|apply (bool_decide_unpack _); vm_compute].
Qed.

(** ** Witnesses *)
Lemma kv_blocks_owned_exactly_witness :
  ∃ m l, pool_inv (pool_of m) l [] ∧ ref_cnt (obj (pool_of m) (Blk 1)) = holdings (managers (coordinator m)) 1 ∧
    holdings (managers (coordinator m)) 1 = 1 ∧ Blk 1 ∉ l.
Proof.
  set (f := λ m, run_kv_op no_digest (compute_all (request "a" 9)) m).
  destruct (after_run (start [full_group; window_group 3] 20 false)
    (λ m, (holdings (managers (coordinator (f m))) 1, num_gpu_blocks (pool_of (f m)),
           (λ s, list_of s "a") <$> head (managers (coordinator (f m)))))
    (1, 20, Some (Blk <$> seqZ 1 5))) as (m & Hm & Hrun); [by vm_compute|].
  cbv beta zeta in Hrun. apply pair_eq in Hrun as [Hrun Hlist]. apply pair_eq in Hrun as [Hone Hn].
  exists (f m). destruct (kv_blocks_owned_exactly no_digest (f m)) as (l & Hp & Href & Hheld & _).
  { apply kr_step; [|done]. eapply start_reachable; [|exact Hm]. legal_groups. }
  assert (in_pool (pool_of (f m)) 1) as Hin by (unfold in_pool; rewrite Hn; lia).
  exists l. split; [exact Hp|]. split; [apply Href; [exact Hin|done]|]. split; [exact Hone|].
  destruct (managers (coordinator (f m))) as [|s ms] eqn:Hms; [done|]. simpl in Hlist.
  apply (Hheld s "a" 1); [by left| |done]. injection Hlist as ->. simpl. by left.
Defined.

(** Blocks 1 to 3 hold a prompt for full attention (group 0), block 5 its third block for
    a sliding window (group 1). *)
Definition common_pool : pool :=
  foldl (λ p '(i, key), cached_at p i key) SingleTypeExamples.empty_pool
    [(1, [11; 0; 0; 0; 0]); (2, [12; 0; 0; 0; 0]); (3, [13; 0; 0; 0; 0]); (5, [13; 0; 0; 0; 1])].
Definition common_hashes : list bytes := [[11]; [12]; [13]].
Definition common_groups : list Coordinator.attention_group :=
  [Coordinator.mkAttn (FullAttentionSpec 4) 0 [0] FullAttentionManager;
   Coordinator.mkAttn (SlidingWindowSpec 4 5) 0 [1] SlidingWindowManager].
Definition common_coordinator : coord :=
  Coordinator.mk (Coordinator.mkConfig 8 [full_group; window_group 5]) 64 true ∅ [] common_pool
    (Coordinator.Hybrid 4 common_groups 4 ∅).

Lemma common_pool_inv : pool_inv common_pool (Blk <$> seqZ 1 7) [].
Proof.
  unfold common_pool. cbn [foldl].
  do 4 (apply cache_one; [|by vm_compute|done|by vm_compute]). apply SingleTypeExamples.empty_pool_inv.
Qed.

Lemma hybrid_hit_correct_witness :
  ∃ blocks n, Coordinator.find_longest_cache_hit common_hashes 12 common_coordinator common_pool =
      (Ret (blocks, n), common_pool) ∧
    CoordinatorHit.common_hit common_pool 4 4 12 ∅ common_hashes common_groups blocks n ∧
    (blocks, n) = ([[Blk 1; Blk 2; Blk 3]; [Blk 0; Blk 0; Blk 5]], 12).
Proof.
  destruct (CoordinatorHit.hybrid_hit_correct common_pool _ common_pool_inv 4 4 12 ∅ common_hashes 2)
    with (gs := common_groups) (c := common_coordinator) as (blocks & n & Hrun & Hhit).
  1-3: lia.
  - by vm_compute.
  - intros g Hg. apply elem_of_cons in Hg as [->|Hg]; [|apply list_elem_of_singleton in Hg as ->].
    all: split; [discriminate| |reflexivity|reflexivity|by exists 1|].
    1,3: intros i ->%list_elem_of_singleton; split; [lia|simpl; lia].
    + split; [reflexivity|by left].
    + split; [lia|reflexivity].
  - apply (bool_decide_unpack _). by vm_compute.
  - discriminate.
  - by intros j g Hj ?%not_elem_of_empty.
  - reflexivity.
  - reflexivity.
  - exists blocks, n. split; [exact Hrun|]. split; [exact Hhit|].
    assert (Coordinator.find_longest_cache_hit common_hashes 12 common_coordinator common_pool =
      (Ret ([[Blk 1; Blk 2; Blk 3]; [Blk 0; Blk 0; Blk 5]], 12), common_pool)) as Hv by by vm_compute.
    rewrite Hv in Hrun. symmetry. exact (ret_inj _ _ _ _ Hrun).
Defined.

(** The kind that a Quest spec reports for itself is not the kind its events carry. *)
Lemma quest_kind_unknown bs : get_kv_cache_spec_kind (QuestKVCacheSpec bs) = UNKNOWN ∧ quest_kind = QUEST_ATTENTION.
Proof. done. Qed.
