(* ===== verification/KVSpec.v ===== *)
(** * KV-cache specs and their sizes

    The spec classes of src/vllm/v1/kv_cache_interface.py with all their fields: the bytes
    of a page, the most memory a request can need, merging the specs of layers, and specs
    of one type. A dtype is a name; the size of its elements is torch's and a parameter.
    [__post_init__] runs on construction and on [dataclasses.replace]. *)

From S2P Require Import Prelude OrderedDict.

Open Scope Z_scope.

Inductive KVQuantMode := NONE | FP8_PER_TENSOR | INT8_PER_TOKEN_HEAD | FP8_PER_TOKEN_HEAD | NVFP4.
#[global] Instance quant_eq_dec : EqDecision KVQuantMode.
Proof. solve_decision. Defined.
Definition is_per_token_head (m : KVQuantMode) : bool :=
  match m with INT8_PER_TOKEN_HEAD | FP8_PER_TOKEN_HEAD => true | _ => false end.
Definition is_nvfp4 (m : KVQuantMode) : bool := match m with NVFP4 => true | _ => false end.

(** ** The classes *)

(** [AttentionSpec], and what its subclasses add *)
Record AttentionSpec := mkAttention {
  block_size : Z;
  num_kv_heads : Z;
  head_size : Z;
  dtype : Z;
  kv_quant_mode : KVQuantMode;
  page_size_padded : option Z
}.
Record full_fields := mkFull { head_size_v : Z; full_sliding_window : option Z; full_chunk_size : option Z }.
Record mla_fields := mkMLA {
  cache_dtype_str : option string;
  alignment : option Z;
  compress_ratio : Z;
  model_version : option string
}.

Inductive KVCacheSpec :=
  | FullAttentionSpec (a : AttentionSpec) (f : full_fields)
  | TQFullAttentionSpec (a : AttentionSpec) (f : full_fields) (tq_slot_size : Z)
  | MLAAttentionSpec (a : AttentionSpec) (f : full_fields) (m : mla_fields)
  | HiddenStateCacheSpec (a : AttentionSpec) (f : full_fields) (m : mla_fields)
  | SinkFullAttentionSpec (a : AttentionSpec) (f : full_fields) (sink_len : option Z)
  | ChunkedLocalAttentionSpec (a : AttentionSpec) (attention_chunk_size : Z)
  | SlidingWindowSpec (a : AttentionSpec) (sliding_window sw_head_size_v : Z)
  | SlidingWindowMLASpec (a : AttentionSpec) (sliding_window : Z) (sw_head_size_v : option Z) (m : mla_fields)
  | QuestKVCacheSpec (a : AttentionSpec) (gpu_cache_blocks_per_seq : Z)
  | EncoderOnlyAttentionSpec (a : AttentionSpec)
  | CrossAttentionSpec (a : AttentionSpec)
  | MambaSpec (mamba_block_size : Z) (shapes : list (list Z)) (dtypes : list Z) (mamba_page_size_padded : option Z)
      (mamba_type : Z) (mamba_cache_mode : string) (num_speculative_blocks : Z).

#[global] Instance attention_eq_dec : EqDecision AttentionSpec.
Proof. solve_decision. Defined.
#[global] Instance full_eq_dec : EqDecision full_fields.
Proof. solve_decision. Defined.
#[global] Instance mla_eq_dec : EqDecision mla_fields.
Proof. solve_decision. Defined.
(** The [__eq__] of a dataclass: the same class and equal fields *)
#[global] Instance spec_eq_dec : EqDecision KVCacheSpec.
Proof. solve_decision. Defined.

(** [isinstance] *)
Definition is_full (s : KVCacheSpec) : bool :=
  match s with
  | FullAttentionSpec _ _ | TQFullAttentionSpec _ _ _ | MLAAttentionSpec _ _ _ | HiddenStateCacheSpec _ _ _
  | SinkFullAttentionSpec _ _ _ => true
  | _ => false
  end.
Definition is_mla (s : KVCacheSpec) : bool :=
  match s with MLAAttentionSpec _ _ _ | HiddenStateCacheSpec _ _ _ => true | _ => false end.
Definition is_hidden (s : KVCacheSpec) : bool := match s with HiddenStateCacheSpec _ _ _ => true | _ => false end.
Definition is_swa (s : KVCacheSpec) : bool :=
  match s with SlidingWindowSpec _ _ _ | SlidingWindowMLASpec _ _ _ _ => true | _ => false end.
Definition is_swa_mla (s : KVCacheSpec) : bool := match s with SlidingWindowMLASpec _ _ _ _ => true | _ => false end.
Definition is_chunked (s : KVCacheSpec) : bool := match s with ChunkedLocalAttentionSpec _ _ => true | _ => false end.
Definition is_cross (s : KVCacheSpec) : bool := match s with CrossAttentionSpec _ => true | _ => false end.
Definition is_mamba (s : KVCacheSpec) : bool := match s with MambaSpec _ _ _ _ _ _ _ => true | _ => false end.

(** The fields of [AttentionSpec], [None] for Mamba *)
Definition attention (s : KVCacheSpec) : option AttentionSpec :=
  match s with
  | FullAttentionSpec a _ | TQFullAttentionSpec a _ _ | MLAAttentionSpec a _ _ | HiddenStateCacheSpec a _ _
  | SinkFullAttentionSpec a _ _ | ChunkedLocalAttentionSpec a _ | SlidingWindowSpec a _ _
  | SlidingWindowMLASpec a _ _ _ | QuestKVCacheSpec a _ | EncoderOnlyAttentionSpec a | CrossAttentionSpec a => Some a
  | MambaSpec _ _ _ _ _ _ _ => None
  end.
Definition with_attention (f : AttentionSpec → AttentionSpec) (s : KVCacheSpec) : KVCacheSpec :=
  match s with
  | FullAttentionSpec a x => FullAttentionSpec (f a) x
  | TQFullAttentionSpec a x t => TQFullAttentionSpec (f a) x t
  | MLAAttentionSpec a x m => MLAAttentionSpec (f a) x m
  | HiddenStateCacheSpec a x m => HiddenStateCacheSpec (f a) x m
  | SinkFullAttentionSpec a x l => SinkFullAttentionSpec (f a) x l
  | ChunkedLocalAttentionSpec a c => ChunkedLocalAttentionSpec (f a) c
  | SlidingWindowSpec a w v => SlidingWindowSpec (f a) w v
  | SlidingWindowMLASpec a w v m => SlidingWindowMLASpec (f a) w v m
  | QuestKVCacheSpec a n => QuestKVCacheSpec (f a) n
  | EncoderOnlyAttentionSpec a => EncoderOnlyAttentionSpec (f a)
  | CrossAttentionSpec a => CrossAttentionSpec (f a)
  | MambaSpec _ _ _ _ _ _ _ => s
  end.
Definition full_of (s : KVCacheSpec) : option full_fields :=
  match s with
  | FullAttentionSpec _ f | TQFullAttentionSpec _ f _ | MLAAttentionSpec _ f _ | HiddenStateCacheSpec _ f _
  | SinkFullAttentionSpec _ f _ => Some f
  | _ => None
  end.
Definition mla_of (s : KVCacheSpec) : option mla_fields :=
  match s with
  | MLAAttentionSpec _ _ m | HiddenStateCacheSpec _ _ m | SlidingWindowMLASpec _ _ _ m => Some m
  | _ => None
  end.
Definition window_of (s : KVCacheSpec) : option Z :=
  match s with SlidingWindowSpec _ w _ | SlidingWindowMLASpec _ w _ _ => Some w | _ => None end.
Definition spec_block_size (s : KVCacheSpec) : Z :=
  match s with
  | MambaSpec b _ _ _ _ _ _ => b
  | _ => match attention s with Some a => block_size a | None => 0 end
  end.

(** ** The configuration of the engine, as far as the specs and their grouping read it *)
Record VllmConfig := mkVllm {
  max_model_len : Z;
  original_max_model_len : Z;
  max_num_batched_tokens : Z;
  max_num_encoder_input_tokens : Z;
  decode_context_parallel_size : Z;
  prefill_context_parallel_size : Z;
  cfg_mamba_cache_mode : string;
  num_gpu_blocks_override : option Z;
  disable_hybrid_kv_cache_manager : bool;
  use_eagle : bool
}.
Definition with_len (n : Z) (c : VllmConfig) : VllmConfig :=
  mkVllm n (original_max_model_len c) (max_num_batched_tokens c) (max_num_encoder_input_tokens c)
    (decode_context_parallel_size c) (prefill_context_parallel_size c) (cfg_mamba_cache_mode c)
    (num_gpu_blocks_override c) (disable_hybrid_kv_cache_manager c) (use_eagle c).

Notation C := (M VllmConfig).

(** [max(l)] and [min(l)] *)
Definition py_max {S} (l : list Z) : M S Z :=
  match l with [] => raise ValueError | x :: l' => ret (foldr Z.max x l') end.
Definition py_min {S} (l : list Z) : M S Z :=
  match l with [] => raise ValueError | x :: l' => ret (foldr Z.min x l') end.
(** [round_up(x, y)] *)
Definition round_up {S} (x y : Z) : M S Z := q <- floordiv (x + y - 1) y ;; ret (q * y).
Definition nvfp4_kv_cache_full_dim (n : Z) : Z := n / 2 + n / 16.
(** [get_dtype_size(torch.float32)] *)
Definition float32_size : Z := 4.

Section sizes.
Context (get_dtype_size : Z → Z).

(** ** Pages *)
Definition full_page (a : AttentionSpec) (v : Z) : Z :=
  if is_nvfp4 (kv_quant_mode a) then
    block_size a * num_kv_heads a * (nvfp4_kv_cache_full_dim (head_size a) + nvfp4_kv_cache_full_dim v) * get_dtype_size (dtype a)
  else block_size a * num_kv_heads a * (head_size a + v) * get_dtype_size (dtype a).
Definition base_page (a : AttentionSpec) : Z :=
  if is_nvfp4 (kv_quant_mode a) then 2 * block_size a * num_kv_heads a * nvfp4_kv_cache_full_dim (head_size a) * get_dtype_size (dtype a)
  else 2 * block_size a * num_kv_heads a * head_size a * get_dtype_size (dtype a).
Definition storage_block_size (a : AttentionSpec) (m : mla_fields) : C Z := floordiv (block_size a) (compress_ratio m).

Definition real_page_size_bytes (s : KVCacheSpec) : C Z :=
  match s with
  | FullAttentionSpec a f | SinkFullAttentionSpec a f _ => ret (full_page a (head_size_v f))
  | TQFullAttentionSpec a f tq_slot_size =>
      ret (if bool_decide (0 < tq_slot_size) then block_size a * num_kv_heads a * tq_slot_size else full_page a (head_size_v f))
  | MLAAttentionSpec a _ m | HiddenStateCacheSpec a _ m =>
      if bool_decide (cache_dtype_str m = Some "fp8_ds_mla") then
        if bool_decide (model_version m = Some "deepseek_v4") then b <- storage_block_size a m ;; ret (b * 584)
        else ret (block_size a * 656)
      else b <- storage_block_size a m ;; ret (b * num_kv_heads a * head_size a * get_dtype_size (dtype a))
  | SlidingWindowSpec a _ v => ret (full_page a v)
  | SlidingWindowMLASpec a _ _ m =>
      if bool_decide (model_version m = Some "deepseek_v4") then b <- storage_block_size a m ;; ret (b * 584)
      else
        assert_ (bool_decide (model_version m = None)) ;;
        b <- storage_block_size a m ;; ret (b * num_kv_heads a * head_size a * get_dtype_size (dtype a))
  | ChunkedLocalAttentionSpec a _ | QuestKVCacheSpec a _ | EncoderOnlyAttentionSpec a | CrossAttentionSpec a => ret (base_page a)
  | MambaSpec _ _ _ _ _ _ _ => raise AttributeError
  end.

Definition padded (p : option Z) (real : Z) : C Z :=
  match p with
  | Some n => assert_ (bool_decide (real ≤ n)) ;; ret n
  | None => ret real
  end.
Definition page_size_bytes (s : KVCacheSpec) : C Z :=
  match s with
  | MambaSpec _ shapes dtypes p _ _ _ =>
      padded p (total (zip_with (λ shape d, foldr Z.mul 1 shape * get_dtype_size d) shapes dtypes))
  | _ =>
      real <- real_page_size_bytes s ;;
      a <- of_option AttributeError (attention s) ;;
      padded (page_size_padded a)
        (if is_per_token_head (kv_quant_mode a) then real + 2 * block_size a * num_kv_heads a * float32_size else real)
  end.

(** [__post_init__] of an object whose fields are all given *)
Definition set_padded (n : Z) (a : AttentionSpec) : AttentionSpec :=
  mkAttention (block_size a) (num_kv_heads a) (head_size a) (dtype a) (kv_quant_mode a) (Some n).
Definition set_block_size (n : Z) (a : AttentionSpec) : AttentionSpec :=
  mkAttention n (num_kv_heads a) (head_size a) (dtype a) (kv_quant_mode a) (page_size_padded a).
Definition _apply_alignment_padding (s : KVCacheSpec) (m : mla_fields) : C KVCacheSpec :=
  match alignment m with
  | None => ret s
  | Some al =>
      actual <- real_page_size_bytes s ;;
      padded_size <- round_up actual al ;;
      ret (if bool_decide (padded_size ≠ actual) then with_attention (set_padded padded_size) s else s)
  end.
Definition post_init (s : KVCacheSpec) : C KVCacheSpec :=
  match s with
  | MLAAttentionSpec _ _ m | HiddenStateCacheSpec _ _ m | SlidingWindowMLASpec _ _ _ m => _apply_alignment_padding s m
  | QuestKVCacheSpec _ n => if bool_decide (n ≤ 0) then raise ValueError else ret s
  | _ => ret s
  end.
(** [replace(spec, block_size=n)] *)
Definition copy_with_new_block_size (s : KVCacheSpec) (n : Z) : C KVCacheSpec :=
  match s with
  | MambaSpec _ shapes dtypes p t mode k => ret (MambaSpec n shapes dtypes p t mode k)
  | _ => post_init (with_attention (set_block_size n) s)
  end.

(** ** The memory one request can need *)
Definition max_memory_usage_bytes (s : KVCacheSpec) : C Z :=
  c <- get ;;
  let times b := p <- page_size_bytes s ;; ret (b * p) in
  match s with
  | FullAttentionSpec a _ | TQFullAttentionSpec a _ _ | MLAAttentionSpec a _ _ | HiddenStateCacheSpec a _ _
  | SinkFullAttentionSpec a _ _ =>
      let ranks := decode_context_parallel_size c * prefill_context_parallel_size c in
      n <- (if bool_decide (1 < ranks) then cdiv (max_model_len c) ranks else ret (max_model_len c)) ;;
      b <- cdiv n (block_size a) ;; times b
  | ChunkedLocalAttentionSpec a chunk =>
      b <- cdiv (Z.min (chunk + max_num_batched_tokens c) (max_model_len c)) (block_size a) ;; times b
  | SlidingWindowSpec a w _ | SlidingWindowMLASpec a w _ _ =>
      assert_ (bool_decide (decode_context_parallel_size c = 1)) ;;
      b <- cdiv (Z.min (w - 1 + max_num_batched_tokens c) (max_model_len c)) (block_size a) ;; times (b + 1)
  | MambaSpec bs _ _ _ _ _ k =>
      if bool_decide (cfg_mamba_cache_mode c = "all") then b <- cdiv (max_model_len c) bs ;; times (b + k)
      else times ((if bool_decide (cfg_mamba_cache_mode c = "align") then 2 else 1) + k)
  | QuestKVCacheSpec _ n => times n
  | EncoderOnlyAttentionSpec _ => ret 0
  | CrossAttentionSpec a => b <- cdiv (max_num_encoder_input_tokens c) (block_size a) ;; times b
  end.

(** ** Merging the specs of the layers of a group *)
Definition merge_window_sizes (window_sizes : list Z) : C (option Z) :=
  match window_sizes with [] => ret None | [w] => ret (Some w) | _ => raise ValueError end.

(** [FullAttentionSpec.merge] for the class that [mk] constructs *)
Definition full_merge (mk : AttentionSpec → full_fields → KVCacheSpec) (a0 : AttentionSpec) (f0 : full_fields)
    (specs : list KVCacheSpec) : C KVCacheSpec :=
  assert_ (forallb is_full specs) ;;
  let windows := remove_dups (omap (λ s, f ← full_of s; full_sliding_window f) specs) in
  let chunks := remove_dups (omap (λ s, f ← full_of s; full_chunk_size f) specs) in
  assert_ (negb (existsb is_mla specs)) ;;
  w <- merge_window_sizes windows ;;
  c <- merge_window_sizes chunks ;;
  assert_ (forallb (λ s, bool_decide (attention s = Some a0)) specs) ;;
  assert_ (bool_decide (w = None ∨ c = None)) ;;
  ret (mk a0 (mkFull (head_size_v f0) w c)).

(** [all(s.tq_slot_size == tq for s in specs)]; other classes have no such attribute. *)
Fixpoint same_slot_size (tq : Z) (specs : list KVCacheSpec) : C unit :=
  match specs with
  | [] => ret tt
  | TQFullAttentionSpec _ _ t :: specs' => assert_ (bool_decide (t = tq)) ;; same_slot_size tq specs'
  | _ :: _ => raise AttributeError
  end.

Definition one_value {A} `{EqDecision A} (f : KVCacheSpec → option A) (specs : list KVCacheSpec) : bool :=
  bool_decide (length (remove_dups (omap f specs)) = 1%nat).
Definition mla_merge (mk : AttentionSpec → full_fields → mla_fields → KVCacheSpec) (a0 : AttentionSpec) (m0 : mla_fields)
    (specs : list KVCacheSpec) : C KVCacheSpec :=
  assert_ (forallb is_mla specs) ;;
  assert_ (one_value (λ s, cache_dtype_str <$> mla_of s) specs && one_value (λ s, compress_ratio <$> mla_of s) specs
           && one_value (λ s, model_version <$> mla_of s) specs) ;;
  ret (mk a0 (mkFull (head_size a0) None None) (mkMLA (cache_dtype_str m0) None (compress_ratio m0) (model_version m0))).
(** [SlidingWindowMLASpec.merge] does not pass [kv_quant_mode] on. *)
Definition swa_mla_merge (a0 : AttentionSpec) (w0 : Z) (m0 : mla_fields) (specs : list KVCacheSpec) : C KVCacheSpec :=
  assert_ (forallb is_swa_mla specs) ;;
  assert_ (one_value (λ s, cache_dtype_str <$> mla_of s) specs && one_value (λ s, compress_ratio <$> mla_of s) specs
           && one_value (λ s, model_version <$> mla_of s) specs && one_value window_of specs) ;;
  ret (SlidingWindowMLASpec (mkAttention (block_size a0) (num_kv_heads a0) (head_size a0) (dtype a0) NONE (page_size_padded a0))
         w0 None (mkMLA (cache_dtype_str m0) None (compress_ratio m0) (model_version m0))).

(** [specs[0].merge(specs)] *)
Definition merge (specs : list KVCacheSpec) : C KVCacheSpec :=
  match specs with
  | [] => raise IndexError
  | FullAttentionSpec a f :: _ => full_merge FullAttentionSpec a f specs
  | TQFullAttentionSpec a f t :: _ =>
      merged <- full_merge (λ a f, TQFullAttentionSpec a f t) a f specs ;; same_slot_size t specs ;; ret merged
  | SinkFullAttentionSpec a f l :: _ => full_merge (λ a f, SinkFullAttentionSpec a f l) a f specs
  | MLAAttentionSpec a _ m :: _ => mla_merge MLAAttentionSpec a m specs
  | HiddenStateCacheSpec a _ m :: _ => mla_merge HiddenStateCacheSpec a m specs
  | SlidingWindowMLASpec a w _ m :: _ => swa_mla_merge a w m specs
  | s :: rest => assert_ (forallb (λ s', bool_decide (s' = s)) rest) ;; ret s
  end.

(** ** [UniformTypeKVCacheSpecs] *)
Definition sum_of {A} (l : list A) (f : A → C Z) : C Z := ns <- for_collect l f ;; ret (total ns).

(** The class checks go from subclasses to base classes. *)
Definition is_uniform_type (specs : list (string * KVCacheSpec)) : C bool :=
  if bool_decide (1 < length (remove_dups (spec_block_size <$> specs.*2)))%nat then ret false
  else
    one_spec <- of_option StopIteration (head specs.*2) ;;
    match one_spec with
    | SlidingWindowMLASpec _ w _ _ => ret (forallb (λ s, is_swa_mla s && bool_decide (window_of s = Some w)) specs.*2)
    | FullAttentionSpec _ _ | TQFullAttentionSpec _ _ _ | MLAAttentionSpec _ _ _ | HiddenStateCacheSpec _ _ _
    | SinkFullAttentionSpec _ _ _ => ret (forallb is_full specs.*2)
    | CrossAttentionSpec _ => ret (forallb is_cross specs.*2)
    | SlidingWindowSpec _ w _ => ret (forallb (λ s, is_swa s && bool_decide (window_of s = Some w)) specs.*2)
    | ChunkedLocalAttentionSpec _ c =>
        ret (forallb (λ s, match s with ChunkedLocalAttentionSpec _ c' => bool_decide (c' = c) | _ => false end) specs.*2)
    | MambaSpec _ _ _ _ _ _ k =>
        ret (forallb (λ s, match s with MambaSpec _ _ _ _ _ _ k' => bool_decide (k' = k) | _ => false end) specs.*2)
    | QuestKVCacheSpec _ _ | EncoderOnlyAttentionSpec _ => raise NotImplementedError
    end.

Definition get_page_sizes (specs : list (string * KVCacheSpec)) : C (list Z) :=
  ps <- for_collect specs.*2 page_size_bytes ;; ret (remove_dups ps).
(** The count of the most common page size *)
Definition get_num_layer_tuples (specs : list (string * KVCacheSpec)) : C Z :=
  ps <- for_collect specs.*2 page_size_bytes ;;
  match (λ p, Z.of_nat (length (filter (.= p) ps))) <$> ps with
  | [] => raise IndexError
  | n :: ns => ret (foldr Z.max n ns)
  end.
Definition max_memory_usage_pages (specs : list (string * KVCacheSpec)) : C Z :=
  ns <- for_collect specs.*2 (λ s, u <- max_memory_usage_bytes s ;; p <- page_size_bytes s ;; cdiv u p) ;;
  py_max ns.

(** The spec of a group: that of all its layers, or one for each of them *)
Inductive GroupSpec :=
  | OneSpec (s : KVCacheSpec)
  | UniformTypeKVCacheSpecs (uniform_block_size : Z) (kv_cache_specs : list (string * KVCacheSpec)).
Definition is_uniform (g : GroupSpec) : bool := match g with UniformTypeKVCacheSpecs _ _ => true | OneSpec _ => false end.
Definition from_specs (specs : list (string * KVCacheSpec)) : C (option GroupSpec) :=
  u <- is_uniform_type specs ;;
  if u : bool then
    s <- of_option StopIteration (head specs.*2) ;; ret (Some (UniformTypeKVCacheSpecs (spec_block_size s) specs))
  else ret None.
Definition group_page_size_bytes (g : GroupSpec) : C Z :=
  match g with
  | OneSpec s => page_size_bytes s
  | UniformTypeKVCacheSpecs _ specs => sum_of specs.*2 page_size_bytes
  end.
Definition group_max_memory_usage_bytes (g : GroupSpec) : C Z :=
  match g with
  | OneSpec s => max_memory_usage_bytes s
  | UniformTypeKVCacheSpecs _ specs => n <- max_memory_usage_pages specs ;; p <- group_page_size_bytes g ;; ret (n * p)
  end.
End sizes.
