(* ===== verification/KVConfig.v ===== *)
(** * The KV-cache configuration

    The sizing and grouping part of src/vllm/v1/core/kv_cache_utils.py: which layers share a
    block table, how many blocks the memory of each worker holds, and the longest context
    that fits. Specs are grouped by value; the configuration of the engine is the state,
    as the search for a length sets [max_model_len] and puts it back. A concurrency is the
    two numbers whose quotient it is; messages are not modelled. Sets of page sizes are
    lists without duplicates, whose order no result depends on. *)

From stdpp Require Import sorting.
From S2P Require Import Prelude OrderedDict KVSpec.

Open Scope Z_scope.

Record KVCacheTensor := mkTensor { size : Z; shared_by : list string }.
Record KVCacheGroupSpec := mkGroup { layer_names : list string; kv_cache_spec : GroupSpec; is_eagle_group : bool }.
Record KVCacheConfig := mkKVConfig {
  num_blocks : Z;
  kv_cache_tensors : list KVCacheTensor;
  kv_cache_groups : list KVCacheGroupSpec
}.
Notation specs_dict := (list (string * KVCacheSpec)).

(** [try: m finally: f] *)
Definition finally {A} (m : C A) (f : VllmConfig → VllmConfig) : C A := λ c, let '(o, c') := m c in (o, f c').

(** [d[k].append(v)] of a [defaultdict(list)] *)
Definition dict_append {K V} `{EqDecision K} (k : K) (v : V) (d : list (K * list V)) : list (K * list V) :=
  od_set k (default [] (od_get k d) ++ [v]) d.
(** [l[i::n]] *)
Definition stride {A} (i n : Z) (l : list A) : list A :=
  omap (λ p, if bool_decide (p.1 `mod` n = i) then Some p.2 else None) (zip (py_range (Z.of_nat (length l))) l).
Definition len {A} (l : list A) : Z := Z.of_nat (length l).

Section config.
Context (get_dtype_size : Z → Z).
Notation page_size_bytes := (page_size_bytes get_dtype_size).
Notation max_memory_usage_bytes := (max_memory_usage_bytes get_dtype_size).
Notation group_page_size_bytes := (group_page_size_bytes get_dtype_size).
Notation group_max_memory_usage_bytes := (group_max_memory_usage_bytes get_dtype_size).
Notation get_page_sizes := (get_page_sizes get_dtype_size).
Notation get_num_layer_tuples := (get_num_layer_tuples get_dtype_size).
Notation max_memory_usage_pages := (max_memory_usage_pages get_dtype_size).
Notation post_init := (post_init get_dtype_size).

(** ** Groups of layers *)
Definition create_kv_cache_group_specs (kv_cache_spec : specs_dict) (grouped_layer_names : list (list string))
    : C (list KVCacheGroupSpec) :=
  for_collect grouped_layer_names (λ names,
    layer_specs <- for_collect names (λ n, of_option KeyError (od_get n kv_cache_spec)) ;;
    merged <- merge layer_specs ;;
    ret (mkGroup names (OneSpec merged) false)).

Definition is_kv_cache_spec_uniform (kv_cache_spec : specs_dict) : C bool :=
  match kv_cache_spec with
  | [] => ret true
  | _ => try_except (_ <- merge kv_cache_spec.*2 ;; ret true) (λ e, bool_decide (e = AssertionError)) (λ _, ret false)
  end.
(** [is_kv_cache_spec_uniform(d) or UniformTypeKVCacheSpecs.is_uniform_type(d)] *)
Definition is_one_type (kv_cache_spec : specs_dict) : C bool :=
  u <- is_kv_cache_spec_uniform kv_cache_spec ;;
  if u : bool then ret true else is_uniform_type kv_cache_spec.

Definition get_uniform_page_size (specs : list GroupSpec) : C Z :=
  ps <- for_collect specs group_page_size_bytes ;;
  match remove_dups ps with [p] => ret p | _ => raise AssertionError end.

Definition unify_kv_cache_spec_page_size (kv_cache_spec : specs_dict) : C specs_dict :=
  ps <- for_collect kv_cache_spec.*2 page_size_bytes ;;
  if bool_decide (length (remove_dups ps) ≤ 1)%nat then ret kv_cache_spec
  else
    max_page_size <- py_max ps ;;
    for_collect kv_cache_spec (λ '(name, s),
      p <- page_size_bytes s ;;
      if bool_decide (p = max_page_size) then ret (name, s)
      else
        r <- pymod max_page_size p ;;
        (if bool_decide (r ≠ 0) then raise NotImplementedError else ret tt) ;;
        ratio <- floordiv max_page_size p ;;
        s' <- copy_with_new_block_size get_dtype_size s (spec_block_size s * ratio) ;;
        p' <- page_size_bytes s' ;;
        assert_ (bool_decide (p' = max_page_size)) ;;
        ret (name, s')).

Definition same_type_layers (kv_cache_spec : specs_dict) : list (KVCacheSpec * list string) :=
  foldl (λ d p, dict_append p.2 p.1 d) [] kv_cache_spec.
(** The layers of one type, dealt out to groups of at most [group_size] *)
Definition split_layers (group_size : Z) (layers : list string) : C (list (list string)) :=
  _ <- pymod (len layers) group_size ;;
  num_groups <- cdiv (len layers) group_size ;;
  ret ((λ i, stride i num_groups layers) <$> py_range num_groups).
(** [max < min * 1.5]; the product of a count and 1.5 is exact. *)
Definition pick_group_size (min_num_layers max_num_layers : Z) : Z :=
  if bool_decide (2 * max_num_layers < 3 * min_num_layers) then max_num_layers else min_num_layers.
Definition _get_kv_cache_groups_uniform_page_size (kv_cache_spec : specs_dict) : C (list KVCacheGroupSpec) :=
  let types := (same_type_layers kv_cache_spec).*2 in
  min_num_layers <- py_min (len <$> types) ;;
  max_num_layers <- py_max (len <$> types) ;;
  grouped <- for_collect types (split_layers (pick_group_size min_num_layers max_num_layers)) ;;
  create_kv_cache_group_specs kv_cache_spec (concat grouped).

(** With the hybrid manager disabled, windows and chunks become full attention. *)
Definition unify_spec (uniform_block_size : option Z) (s : KVCacheSpec) : C KVCacheSpec :=
  match s with
  | SlidingWindowMLASpec a _ _ m =>
      post_init (MLAAttentionSpec
        (mkAttention (default (block_size a) uniform_block_size) (num_kv_heads a) (head_size a) (dtype a) NONE (page_size_padded a))
        (mkFull (head_size a) None None) m)
  | SlidingWindowSpec a w v => ret (FullAttentionSpec a (mkFull v (Some w) None))
  | ChunkedLocalAttentionSpec a c =>
      ret (FullAttentionSpec (mkAttention (block_size a) (num_kv_heads a) (head_size a) (dtype a) NONE (page_size_padded a))
             (mkFull (head_size a) None (Some c)))
  | _ => ret s
  end.
Definition unify_hybrid_kv_cache_specs (kv_cache_spec : specs_dict) : C specs_dict :=
  u <- is_one_type kv_cache_spec ;;
  if u : bool then ret kv_cache_spec
  else
    let has_full := existsb is_full kv_cache_spec.*2 in
    uniform_block_size <- (if existsb is_swa_mla kv_cache_spec.*2 then
                             assert_ has_full ;;
                             ret (spec_block_size <$> head (filter (λ s, is_full s = true) kv_cache_spec.*2))
                           else ret None) ;;
    unified <- (if has_full && (existsb is_swa kv_cache_spec.*2 || existsb is_chunked kv_cache_spec.*2)
                then for_collect kv_cache_spec (λ '(n, s), s' <- unify_spec uniform_block_size s ;; ret (n, s'))
                else ret kv_cache_spec) ;;
    u <- is_one_type unified ;;
    if u : bool then ret unified else raise ValueError.

(** *** Layer tuples (DeepseekV4) *)
Definition group_and_unify_kv_cache_specs (kv_cache_spec : specs_dict) : C (option (list specs_dict)) :=
  if negb (existsb is_swa_mla kv_cache_spec.*2) then ret None
  else
    let mla_specs := filter (λ p, is_mla p.2 = true) kv_cache_spec in
    let grouped := foldl (λ d p, match p.2 with
                                 | SlidingWindowMLASpec a w _ _ => dict_append (block_size a, w) p d
                                 | _ => d
                                 end) [] kv_cache_spec in
    assert_ (bool_decide (mla_specs ≠ [])) ;;
    u <- from_specs mla_specs ;;
    _ <- of_option AssertionError u ;;
    for_each grouped.*2 (λ d, u <- from_specs d ;; _ <- of_option AssertionError u ;; ret tt) ;;
    ret (Some (mla_specs :: grouped.*2)).

Definition _approximate_gcd (values : list Z) (lower_bound : option Z) : C Z :=
  if bool_decide (values = []) then raise ValueError
  else if existsb (λ x, bool_decide (x ≤ 0)) values then raise ValueError
  else
    let min_d := Z.max 1 (default 1 lower_bound) in
    max_d <- py_max values ;;
    if bool_decide (max_d < min_d) then ret min_d
    else
      let pad d := total ((λ x, (d - x `mod` d) `mod` d) <$> values) in
      ret (foldl (λ '(best_d, best_pad) d,
             match best_pad with
             | None => (d, Some (pad d))
             | Some b => if bool_decide (pad d < b) || (bool_decide (pad d = b) && bool_decide (best_d < d))
                         then (d, Some (pad d)) else (best_d, best_pad)
             end) (min_d, None) (seqZ min_d (max_d + 1 - min_d))).1.

(** [zip( *lists)] *)
Fixpoint zip_all {A} (n : nat) (ls : list (list A)) : list (list A) :=
  match n with
  | O => []
  | S n => if bool_decide (Forall (λ l, l ≠ []) ls) then omap head ls :: zip_all n (tail <$> ls) else []
  end.

(** One type of windowed layers: padded to the page sizes of the full layers and dealt out *)
Definition split_layer_tuples (all_page_sizes : list Z) (num_layer_tuples : Z) (sm_specs : specs_dict) : C (list KVCacheGroupSpec) :=
  sm_page_sizes <- get_page_sizes sm_specs ;;
  m <- py_max sm_page_sizes ;;
  m' <- py_max all_page_sizes ;;
  assert_ (bool_decide (m ≤ m')) ;;
  padded <- for_collect sm_specs (λ '(name, s),
    current_size <- page_size_bytes s ;;
    candidate <- py_min (filter (λ x, current_size ≤ x) all_page_sizes) ;;
    ret (candidate, (name, if bool_decide (current_size < candidate) then with_attention (set_padded candidate) s else s))) ;;
  let layers_per_size := foldl (λ d p, dict_append p.1 p.2.1 d) [] padded in
  let specs := padded.*2 in
  num_layers_per_size <- (match remove_dups (len <$> layers_per_size.*2) with [n] => ret n | _ => raise AssertionError end) ;;
  num_tuple_groups <- cdiv num_layers_per_size num_layer_tuples ;;
  let layer_tuples := zip_all (Z.to_nat num_layers_per_size) layers_per_size.*2 in
  for_collect (py_range num_tuple_groups) (λ i,
    let names := concat (stride i num_tuple_groups layer_tuples) in
    sub <- for_collect names (λ n, s <- of_option KeyError (od_get n specs) ;; ret (n, s)) ;;
    u <- from_specs sub ;;
    g <- of_option AssertionError u ;;
    ret (mkGroup names g false)).
Definition _get_kv_cache_groups_uniform_groups (grouped_specs : list specs_dict) : C (list KVCacheGroupSpec) :=
  match grouped_specs with
  | [] => raise AssertionError
  | full_mla :: swa =>
      assert_ (forallb is_mla full_mla.*2) ;;
      full_group <- (s <- of_option StopIteration (head full_mla.*2) ;;
                     ret (mkGroup full_mla.*1 (UniformTypeKVCacheSpecs (spec_block_size s) full_mla) false)) ;;
      tuples <- for_collect grouped_specs get_num_layer_tuples ;;
      num_layer_tuples <- _approximate_gcd tuples (head tuples) ;;
      assert_ (forallb (λ d, forallb is_swa_mla d.*2) swa) ;;
      all_page_sizes <- get_page_sizes full_mla ;;
      groups <- for_collect swa (split_layer_tuples all_page_sizes num_layer_tuples) ;;
      ret (full_group :: concat groups)
  end.

(** The first group that has the layer is flagged. *)
Fixpoint flag_group (name : string) (groups : list KVCacheGroupSpec) : list KVCacheGroupSpec :=
  match groups with
  | [] => []
  | g :: gs => if bool_decide (name ∈ layer_names g) then mkGroup (layer_names g) (kv_cache_spec g) true :: gs else g :: flag_group name gs
  end.
Definition _annotate_eagle_groups_deepseek_v4 (kv_cache_spec : specs_dict) (groups : list KVCacheGroupSpec) : C (list KVCacheGroupSpec) :=
  c <- get ;;
  if negb (use_eagle c) then ret groups
  else if negb (existsb (λ s, bool_decide ((m ← mla_of s; model_version m) = Some "deepseek_v4")) kv_cache_spec.*2) then ret groups
  else last_layer <- of_option StopIteration (last kv_cache_spec.*1) ;; ret (flag_group last_layer groups).

(** *** All cases *)
Definition align_hidden (common_page : Z) (s : KVCacheSpec) : C KVCacheSpec :=
  a <- of_option AttributeError (attention s) ;;
  q <- floordiv common_page (num_kv_heads a * head_size a * get_dtype_size (dtype a)) ;;
  post_init (with_attention (λ a, set_padded common_page (set_block_size (Z.max q 1) a)) s).

Definition get_kv_cache_groups (specs : specs_dict) : C (list KVCacheGroupSpec) :=
  c <- get ;;
  specs <- (if disable_hybrid_kv_cache_manager c then unify_hybrid_kv_cache_specs specs else ret specs) ;;
  if bool_decide (specs = []) then ret []
  else
    u <- is_kv_cache_spec_uniform specs ;;
    if u : bool then create_kv_cache_group_specs specs [specs.*1]
    else
      uniform_spec <- from_specs specs ;;
      match uniform_spec with
      | Some g => ret [mkGroup specs.*1 g false]
      | None =>
          grouped_specs <- group_and_unify_kv_cache_specs specs ;;
          match grouped_specs with
          | Some gs => groups <- _get_kv_cache_groups_uniform_groups gs ;; _annotate_eagle_groups_deepseek_v4 specs groups
          | None =>
              let hidden := filter (λ p, is_hidden p.2 = true) specs in
              filtered <- unify_kv_cache_spec_page_size (filter (λ p, is_hidden p.2 = false) specs) ;;
              groups <- _get_kv_cache_groups_uniform_page_size filtered ;;
              if bool_decide (hidden = []) then ret groups
              else
                common_page <- get_uniform_page_size (kv_cache_spec <$> groups) ;;
                more <- for_collect hidden (λ '(name, s), s' <- align_hidden common_page s ;; ret (mkGroup [name] (OneSpec s') false)) ;;
                ret (groups ++ more)
          end
      end.

(** ** Memory *)
Definition all_uniform (groups : list KVCacheGroupSpec) : bool := forallb (λ g, is_uniform (kv_cache_spec g)) groups.
Definition uniform_specs (g : KVCacheGroupSpec) : specs_dict :=
  match kv_cache_spec g with UniformTypeKVCacheSpecs _ d => d | OneSpec _ => [] end.
Definition group_size_of (groups : list KVCacheGroupSpec) : C Z := py_max ((λ g, len (layer_names g)) <$> groups).

Definition _max_memory_usage_bytes_from_groups (groups : list KVCacheGroupSpec) : C Z :=
  match groups with
  | [] => ret 0
  | g :: rest =>
      if bool_decide (rest = []) && is_uniform (kv_cache_spec g) then sum_of (uniform_specs g).*2 max_memory_usage_bytes
      else if all_uniform groups then
        layer_tuple_bytes <- (ps <- get_page_sizes (uniform_specs g) ;; ret (total ps)) ;;
        tuples <- for_collect groups (λ g, get_num_layer_tuples (uniform_specs g)) ;;
        num_layer_tuples <- py_max tuples ;;
        sum_of groups (λ g, n <- max_memory_usage_pages (uniform_specs g) ;; ret (num_layer_tuples * n * layer_tuple_bytes))
      else
        group_size <- group_size_of groups ;;
        page_size <- get_uniform_page_size (kv_cache_spec <$> groups) ;;
        blocks_needed <- sum_of groups (λ g, u <- group_max_memory_usage_bytes (kv_cache_spec g) ;; cdiv u page_size) ;;
        ret (group_size * page_size * blocks_needed)
  end.

(** [while left <= right: ...] *)
Fixpoint length_search (fuel : nat) (fits : Z → C bool) (left right result : Z) : C Z :=
  if bool_decide (right < left) then ret result
  else match fuel with
  | O => raise RuntimeError
  | S fuel =>
      let mid := (left + right) / 2 in
      b <- fits mid ;;
      if b : bool then length_search fuel fits (mid + 1) right mid else length_search fuel fits left (mid - 1) result
  end.
Definition estimate_length (usage : C Z) (available_memory : Z) : C Z :=
  c <- get ;;
  let original_max := max_model_len c in
  let fits n := modify (with_len n) ;; u <- usage ;; ret (bool_decide (u ≤ available_memory)) in
  finally
    (b <- fits 1 ;;
     if b : bool then length_search (Z.to_nat original_max) fits 1 original_max 1 else ret 0)
    (with_len original_max).
Definition estimate_max_model_len (kv_cache_spec : specs_dict) (available_memory : Z) : C Z :=
  estimate_length (sum_of kv_cache_spec.*2 max_memory_usage_bytes) available_memory.
Definition _estimate_max_model_len_from_groups (groups : list KVCacheGroupSpec) (available_memory : Z) : C Z :=
  estimate_length (_max_memory_usage_bytes_from_groups groups) available_memory.

Definition _check_enough_kv_cache_memory (available_memory : Z) (get_needed_memory : C Z) (estimate : Z → C Z) : C unit :=
  if bool_decide (available_memory ≤ 0) then raise ValueError
  else
    needed <- get_needed_memory ;;
    if bool_decide (available_memory < needed) then _ <- estimate available_memory ;; raise ValueError else ret tt.
Definition check_enough_kv_cache_memory (kv_cache_spec : specs_dict) (available_memory : Z) : C unit :=
  if bool_decide (kv_cache_spec = []) then ret tt
  else _check_enough_kv_cache_memory available_memory (sum_of kv_cache_spec.*2 max_memory_usage_bytes)
         (estimate_max_model_len kv_cache_spec).

(** ** Blocks and tensors *)
Definition may_override_num_blocks (n : Z) : C Z := c <- get ;; ret (default n (num_gpu_blocks_override c)).
Definition get_num_blocks (num_layers available_memory page_size : Z) : C Z :=
  q <- floordiv available_memory page_size ;;
  q <- floordiv q num_layers ;;
  may_override_num_blocks (Z.max q 0).

Definition _pool_bytes_per_block (groups : list KVCacheGroupSpec) : C Z :=
  match groups with
  | [] => raise IndexError
  | g :: rest =>
      if bool_decide (rest = []) && is_uniform (kv_cache_spec g) then group_page_size_bytes (kv_cache_spec g)
      else if all_uniform groups then
        ps <- get_page_sizes (uniform_specs g) ;;
        tuples <- for_collect groups (λ g, get_num_layer_tuples (uniform_specs g)) ;;
        n <- py_max tuples ;; ret (total ps * n)
      else group_size <- group_size_of groups ;; p <- get_uniform_page_size (kv_cache_spec <$> groups) ;; ret (p * group_size)
  end.

Definition bucket_layers (g : KVCacheGroupSpec) : C (list (Z * list string)) :=
  ps <- for_collect (layer_names g) (λ n,
    s <- of_option KeyError (od_get n (uniform_specs g)) ;; p <- page_size_bytes s ;; ret (p, n)) ;;
  ret (foldl (λ d p, dict_append p.1 p.2 d) [] ps).
Definition _get_kv_cache_config_deepseek_v4 (groups : list KVCacheGroupSpec) (available_memory : Z) : C (Z * list KVCacheTensor) :=
  full <- of_option IndexError (head groups) ;;
  assert_ (is_uniform (kv_cache_spec full)) ;;
  page_sizes <- get_page_sizes (uniform_specs full) ;;
  let page_sizes := merge_sort Z.le page_sizes in
  bucketed <- for_collect groups (λ g, assert_ (is_uniform (kv_cache_spec g)) ;; bucket_layers g) ;;
  num_layer_tuples <- py_max (concat ((λ b, len <$> b.*2) <$> bucketed)) ;;
  n <- floordiv available_memory (total page_sizes * num_layer_tuples) ;;
  n <- may_override_num_blocks n ;;
  ret (n, tuple_idx ← py_range num_layer_tuples; ps ← page_sizes;
          [mkTensor (ps * n) (omap (λ b, bucket ← od_get ps b; bucket !! Z.to_nat tuple_idx) bucketed)]).

Definition layers_at (groups : list KVCacheGroupSpec) (i : Z) : list string := omap (λ g, layer_names g !! Z.to_nat i) groups.
Definition get_kv_cache_config_from_groups (groups : list KVCacheGroupSpec) (available_memory : Z) : C KVCacheConfig :=
  match groups with
  | [] => ret (mkKVConfig 1 [] groups)
  | g :: rest =>
      '(n, tensors) <-
        (if bool_decide (rest = []) && is_uniform (kv_cache_spec g) then
           p <- group_page_size_bytes (kv_cache_spec g) ;;
           n <- floordiv available_memory p ;;
           n <- may_override_num_blocks n ;;
           tensors <- for_collect (layer_names g) (λ name,
             s <- of_option KeyError (od_get name (uniform_specs g)) ;; p <- page_size_bytes s ;; ret (mkTensor (p * n) [name])) ;;
           ret (n, tensors)
         else if all_uniform groups then _get_kv_cache_config_deepseek_v4 groups available_memory
         else
           group_size <- group_size_of groups ;;
           page_size <- get_uniform_page_size (kv_cache_spec <$> groups) ;;
           assert_ (bool_decide (0 < group_size)) ;;
           n <- get_num_blocks group_size available_memory page_size ;;
           ret (n, (λ i, mkTensor (page_size * n) (layers_at groups i)) <$> py_range group_size)) ;;
      ret (mkKVConfig n tensors groups)
  end.

(** ** The configuration of all workers *)
Definition _project_kv_cache_groups_to_worker (groups : list KVCacheGroupSpec) (worker_spec : specs_dict) : C (list KVCacheGroupSpec) :=
  for_collect groups (λ g,
    let names := filter (λ n, n ∈ worker_spec.*1) (layer_names g) in
    spec <- (match kv_cache_spec g with
             | UniformTypeKVCacheSpecs bs d =>
                 if bool_decide (names = []) then ret (kv_cache_spec g)
                 else d' <- for_collect names (λ n, s <- of_option KeyError (od_get n d) ;; ret (n, s)) ;;
                      ret (UniformTypeKVCacheSpecs bs d')
             | OneSpec _ => ret (kv_cache_spec g)
             end) ;;
    ret (mkGroup names spec (is_eagle_group g && negb (bool_decide (names = []))))).

Definition _auto_fit_max_model_len (workers : list (list KVCacheGroupSpec)) (available_memory : list Z) : C unit :=
  c <- get ;;
  let original_max := max_model_len c in
  if forallb (λ gs, bool_decide (gs = [])) workers then ret tt
  else
    _ <- of_option IndexError (head available_memory) ;;
    ls <- for_collect (filter (λ p, p.1 ≠ []) (zip workers available_memory)) (λ '(gs, mem), _estimate_max_model_len_from_groups gs mem) ;;
    let auto_fit_max := foldr Z.min original_max ls in
    if bool_decide (auto_fit_max ≤ 0) then raise ValueError
    else if bool_decide (original_max ≤ auto_fit_max) then ret tt else modify (with_len auto_fit_max).

(** The specs of all layers; workers that share a layer must agree on it. *)
Definition merge_worker_specs (kv_cache_specs : list specs_dict) : C specs_dict :=
  (fix loop (l : specs_dict) (merged : specs_dict) : C specs_dict :=
     match l with
     | [] => ret merged
     | (n, s) :: l =>
         match od_get n merged with
         | None => loop l (od_set n s merged)
         | Some s' => assert_ (bool_decide (s' = s)) ;; loop l merged
         end
     end) (concat kv_cache_specs) [].

Definition adjust_memory (override : option Z) (workers : list (list KVCacheGroupSpec)) (available_memory : list Z) : C (list Z) :=
  match override with
  | None => ret available_memory
  | Some n => for_collect (zip workers available_memory) (λ '(gs, mem),
      if bool_decide (gs = []) then ret mem
      else b <- _pool_bytes_per_block gs ;; _ <- floordiv mem b ;; ret (n * b))
  end.

(** The quotient of the two is the concurrency. *)
Definition get_max_concurrency_for_kv_cache_config (config : KVCacheConfig) : C (Z * Z) :=
  n <- group_size_of (kv_cache_groups config) ;;
  u <- sum_of (kv_cache_groups config) (λ g, group_max_memory_usage_bytes (kv_cache_spec g)) ;;
  g <- of_option IndexError (head (kv_cache_groups config)) ;;
  p <- group_page_size_bytes (kv_cache_spec g) ;;
  b <- cdiv (n * u) (p * n) ;;
  if bool_decide (b = 0) then raise ZeroDivisionError else ret (num_blocks config, b).

Definition shrink_tensor (old new : Z) (t : KVCacheTensor) : C KVCacheTensor :=
  r <- pymod (size t) old ;;
  assert_ (bool_decide (r = 0)) ;;
  q <- floordiv (size t) old ;;
  ret (mkTensor (q * new) (shared_by t)).
Definition shrink_config (min_num_blocks : Z) (config : KVCacheConfig) : C KVCacheConfig :=
  tensors <- for_collect (kv_cache_tensors config) (shrink_tensor (num_blocks config) min_num_blocks) ;;
  let config' := mkKVConfig min_num_blocks tensors (kv_cache_groups config) in
  (if bool_decide (kv_cache_groups config = []) then ret tt
   else _ <- get_max_concurrency_for_kv_cache_config config' ;; ret tt) ;;
  ret config'.

Definition get_kv_cache_configs (kv_cache_specs : list specs_dict) (available_memory : list Z) : C (list KVCacheConfig) :=
  merged <- merge_worker_specs kv_cache_specs ;;
  groups <- get_kv_cache_groups merged ;;
  workers <- for_collect kv_cache_specs (_project_kv_cache_groups_to_worker groups) ;;
  c <- get ;;
  available_memory <- adjust_memory (num_gpu_blocks_override c) workers available_memory ;;
  (if bool_decide (original_max_model_len c = -1) then _auto_fit_max_model_len workers available_memory else ret tt) ;;
  for_each (zip workers available_memory) (λ '(gs, mem),
    if bool_decide (gs = []) then ret tt
    else _check_enough_kv_cache_memory mem (_max_memory_usage_bytes_from_groups gs) (_estimate_max_model_len_from_groups gs)) ;;
  configs <- for_collect (zip (zip workers kv_cache_specs) available_memory) (λ '(gs, specs, mem),
    assert_ (bool_decide (total ((λ g, len (layer_names g)) <$> gs) = len specs)) ;;
    get_kv_cache_config_from_groups gs mem) ;;
  min_num_blocks <- py_min (num_blocks <$> configs) ;;
  for_collect configs (shrink_config min_num_blocks).

(** What the scheduler is given *)
Definition generate_scheduler_kv_cache_config (configs : list KVCacheConfig) : C KVCacheConfig :=
  c <- of_option IndexError (head configs) ;;
  assert_ (forallb (λ c', bool_decide (num_blocks c' = num_blocks c)) configs) ;;
  groups <- for_collect (kv_cache_groups c) (λ g,
    match kv_cache_spec g with
    | OneSpec _ => ret g
    | UniformTypeKVCacheSpecs _ d =>
        s <- of_option StopIteration (head d.*2) ;; ret (mkGroup (layer_names g) (OneSpec s) (is_eagle_group g))
    end) ;;
  ret (mkKVConfig (num_blocks c) (kv_cache_tensors c) groups).
End config.
