(* ===== verification/KVConfigProps.v ===== *)
(** * The KV-cache configuration: sizes

    The memory a request can need grows with the context; so the binary search finds the
    longest context that fits, and leaves the configuration as it was. *)

From S2P Require Import Prelude OrderedDict KVSpec KVConfig.

Open Scope Z_scope.

Lemma ceil_div_mono a a' b : 0 < b → a ≤ a' → ceil_div a b ≤ ceil_div a' b.
Proof. intros Hb Ha. apply ceil_div_spec; [done|]. pose proof (proj1 (ceil_div_spec a' b (ceil_div a' b) Hb)). lia. Qed.
Lemma ceil_div_mul n b : 0 < b → ceil_div (n * b) b = n.
Proof.
  intros Hb. apply Z.le_antisymm; [by apply ceil_div_spec|].
  pose proof (proj1 (ceil_div_spec (n * b) b (ceil_div (n * b) b) Hb) ltac:(lia)). nia.
Qed.
Lemma foldr_max_mono {A} (f g : A → Z) (x : A) (l : list A) :
  (∀ y, y = x ∨ y ∈ l → f y ≤ g y) → foldr Z.max (f x) (f <$> l) ≤ foldr Z.max (g x) (g <$> l).
Proof.
  intros H. induction l as [|y l IH]; [simpl; apply H; by left|]. rewrite !fmap_cons. cbn [foldr].
  assert (f y ≤ g y) by (apply H; right; by left). assert (foldr Z.max (f x) (f <$> l) ≤ foldr Z.max (g x) (g <$> l)); [|lia].
  apply IH. intros z [->|Hz]; apply H; [by left|]. right. by right.
Qed.
Lemma total_mono {A} (f g : A → Z) (l : list A) : (∀ y, y ∈ l → f y ≤ g y) → total (f <$> l) ≤ total (g <$> l).
Proof.
  induction l as [|y l IH]; intros H; [done|]. rewrite !fmap_cons. unfold total in *. cbn [foldr].
  assert (f y ≤ g y) by (apply H; by left). assert (foldr Z.add 0 (f <$> l) ≤ foldr Z.add 0 (g <$> l)); [|lia].
  apply IH. intros z Hz. apply H. by right.
Qed.

(** A comprehension without effects *)
Lemma for_collect_pure {S A B} (l : list A) (body : A → M S B) (f : A → B) s :
  (∀ x, x ∈ l → body x s = (Ret (f x), s)) → for_collect l body s = (Ret (f <$> l), s).
Proof.
  induction l as [|x l IH]; intros H; [done|]. simpl. unfold bind. rewrite H by by left. rewrite IH; [done|].
  intros y Hy. apply H. by right.
Qed.

Section sizes.
Context (get_dtype_size : Z → Z).
Notation page_size_bytes := (page_size_bytes get_dtype_size).
Notation max_memory_usage_bytes := (max_memory_usage_bytes get_dtype_size).
Implicit Types (c : VllmConfig) (s : KVCacheSpec) (g : KVCacheGroupSpec) (gs : list KVCacheGroupSpec) (d : specs_dict) (p n : Z).

(** ** One layer *)

(** A spec whose pages have [p] bytes *)
Record has_page s p : Prop := {
  hp_pos : 0 < p;
  hp_block : 0 < spec_block_size s;
  hp_run c : page_size_bytes s c = (Ret p, c)
}.
(** Sliding windows are not split over decode ranks. *)
Definition spec_usable c s : Prop := is_swa s = true → decode_context_parallel_size c = 1.

(** The blocks one request can hold *)
Definition request_pages c s : Z :=
  match s with
  | FullAttentionSpec a _ | TQFullAttentionSpec a _ _ | MLAAttentionSpec a _ _ | HiddenStateCacheSpec a _ _
  | SinkFullAttentionSpec a _ _ =>
      let ranks := decode_context_parallel_size c * prefill_context_parallel_size c in
      ceil_div (if bool_decide (1 < ranks) then ceil_div (max_model_len c) ranks else max_model_len c) (block_size a)
  | ChunkedLocalAttentionSpec a chunk => ceil_div (Z.min (chunk + max_num_batched_tokens c) (max_model_len c)) (block_size a)
  | SlidingWindowSpec a w _ | SlidingWindowMLASpec a w _ _ =>
      ceil_div (Z.min (w - 1 + max_num_batched_tokens c) (max_model_len c)) (block_size a) + 1
  | MambaSpec bs _ _ _ _ _ k =>
      if bool_decide (cfg_mamba_cache_mode c = "all") then ceil_div (max_model_len c) bs + k
      else (if bool_decide (cfg_mamba_cache_mode c = "align") then 2 else 1) + k
  | QuestKVCacheSpec _ n => n
  | EncoderOnlyAttentionSpec _ => 0
  | CrossAttentionSpec a => ceil_div (max_num_encoder_input_tokens c) (block_size a)
  end.

Lemma max_memory_run c s p : has_page s p → spec_usable c s → max_memory_usage_bytes s c = (Ret (request_pages c s * p), c).
Proof.
  intros [Hp Hb Hrun] Hu. assert (bool_decide (- spec_block_size s = 0) = false) as Hz by (apply bool_decide_eq_false; lia).
  unfold KVSpec.max_memory_usage_bytes, cdiv, floordiv, raise, bind, get.
  destruct s; cbn [spec_block_size attention] in Hz; unfold spec_usable in Hu; cbn [is_swa] in Hu; cbn [request_pages];
    rewrite ?Hz; unfold ret; rewrite ?Hrun; try done.
  all: try (unfold assert_; rewrite bool_decide_true by (by apply Hu); unfold ret; by rewrite Hrun).
  all: clear Hz; case_bool_decide as Hr; cbn beta; rewrite ?bool_decide_false by lia; cbn beta iota; by rewrite Hrun.

Qed.

Lemma request_pages_mono c s n m : 0 < spec_block_size s → n ≤ m → request_pages (with_len n c) s ≤ request_pages (with_len m c) s.
Proof.
  intros Hb Hn. destruct s; simpl in *; try lia; try case_bool_decide; try lia; try apply Z.add_le_mono_r;
    (apply ceil_div_mono; [lia|]); try lia; apply ceil_div_mono; lia.
Qed.

(** ** All layers *)
Notation usage := (_max_memory_usage_bytes_from_groups get_dtype_size).
Notation group_page := (group_page_size_bytes get_dtype_size).

Definition layer_ok c s : Prop := ∃ p, has_page s p ∧ spec_usable c s.
Definition layers_of (x : GroupSpec) : list KVCacheSpec :=
  match x with OneSpec s => [s] | UniformTypeKVCacheSpecs _ d => d.*2 end.
(** Groups as [get_kv_cache_groups] makes them: pages of every layer are known; groups
    that are not all of the per-layer kind have one page size. *)
Record groups_ok c gs : Prop := {
  go_layers g s : g ∈ gs → s ∈ layers_of (kv_cache_spec g) → layer_ok c s;
  go_some g : g ∈ gs → layers_of (kv_cache_spec g) ≠ [];
  go_page : all_uniform gs = false → ∃ p, 0 < p ∧ ∀ g c', g ∈ gs → group_page (kv_cache_spec g) c' = (Ret p, c')
}.

(** What a program computes from the context length *)
Definition computes c (m : C Z) (f : Z → Z) : Prop :=
  (∀ n n', n ≤ n' → f n ≤ f n') ∧ ∀ n, m (with_len n c) = (Ret (f n), with_len n c).

Lemma computes_layer c s : layer_ok c s → ∃ f, computes c (max_memory_usage_bytes s) f.
Proof.
  intros (p & Hp & Hu). exists (λ n, request_pages (with_len n c) s * p). split.
  - intros n n' Hn. apply Z.mul_le_mono_nonneg_r; [pose proof (hp_pos _ _ Hp); lia|]. apply request_pages_mono; [apply Hp|done].
  - intros n. by apply max_memory_run.
Qed.
Lemma computes_collect {A} c (l : list A) (body : A → C Z) :
  (∀ x, x ∈ l → ∃ f, computes c (body x) f) →
  ∃ fs : list (Z → Z), length fs = length l ∧ (∀ f n n', f ∈ fs → n ≤ n' → f n ≤ f n') ∧
    ∀ n, for_collect l body (with_len n c) = (Ret ((λ f : Z → Z, f n) <$> fs), with_len n c).
Proof.
  induction l as [|x l IH]; intros H; [exists []; split_and!; [done|set_solver|done]|]. destruct IH as (fs & Hlen & Hm & Hrun); [intros y Hy; apply H; by right|].
  destruct (H x) as (f & Hf & Hfr); [by left|]. exists (f :: fs). split_and!.
  - simpl. by rewrite Hlen.
  - intros f' n n' [->|Hf']%elem_of_cons Hn; [by apply Hf|by apply (Hm f')].
  - intros n. simpl. unfold bind. by rewrite Hfr, Hrun.
Qed.
Lemma computes_sum {A} c (l : list A) (body : A → C Z) :
  (∀ x, x ∈ l → ∃ f, computes c (body x) f) → ∃ f, computes c (sum_of l body) f.
Proof.
  intros H. destruct (computes_collect c l body H) as (fs & _ & Hm & Hrun). exists (λ n, total ((λ f : Z → Z, f n) <$> fs)). split.
  - intros n n' Hn. apply total_mono. intros f Hf. by apply Hm.
  - intros n. unfold sum_of, bind. by rewrite Hrun.
Qed.
Lemma computes_max {A} c (l : list A) (body : A → C Z) :
  l ≠ [] → (∀ x, x ∈ l → ∃ f, computes c (body x) f) → ∃ f, computes c (ns <- for_collect l body ;; py_max ns) f.
Proof.
  intros Hne H. destruct (computes_collect c l body H) as ([|f fs] & Hlen & Hm & Hrun); [by destruct l|].
  exists (λ n, foldr Z.max (f n) ((λ f : Z → Z, f n) <$> fs)). split.
  - intros n n' Hn. apply (foldr_max_mono (λ f : Z → Z, f n) (λ f : Z → Z, f n')). intros f' Hf'. apply Hm; [|done].
    destruct Hf' as [->|]; [by left|by right].
  - intros n. unfold bind. by rewrite Hrun.
Qed.
(** A factor that does not depend on the length *)
Lemma computes_scale c (m : C Z) (k : C Z) b f :
  computes c m f → 0 ≤ b → (∀ n, k (with_len n c) = (Ret b, with_len n c)) → computes c (x <- m ;; y <- k ;; ret (x * y)) (λ n, f n * b).
Proof.
  intros [Hm Hr] Hb Hk. split.
  - intros n n' Hn. apply Z.mul_le_mono_nonneg_r; [done|]. by apply Hm.
  - intros n. unfold bind. by rewrite Hr, Hk.
Qed.

Lemma computes_ext c (m m' : C Z) f : computes c m f → (∀ n, m' (with_len n c) = m (with_len n c)) → computes c m' f.
Proof. intros [Hm Hr] He. split; [done|]. intros n. by rewrite He. Qed.

(** *** Page sizes do not depend on the length. *)
Lemma pages_run c d : (∀ s, s ∈ d.*2 → layer_ok c s) →
  ∃ ps, length ps = length d ∧ Forall (λ p, 0 < p) ps ∧ ∀ c', for_collect d.*2 page_size_bytes c' = (Ret ps, c').
Proof.
  induction d as [|[x s] d IH]; intros H; [by exists []|]. destruct IH as (ps & Hlen & Hpos & Hrun); [intros s' Hs'; apply H; by right|].
  destruct (H s) as (p & Hp & _); [by left|]. exists (p :: ps). split_and!; [simpl; by rewrite Hlen|by constructor; [apply Hp|]|].
  intros c'. simpl. unfold bind. by rewrite (hp_run _ _ Hp), Hrun.
Qed.
Lemma page_sizes_run c d : (∀ s, s ∈ d.*2 → layer_ok c s) →
  ∃ ps, 0 ≤ total ps ∧ ∀ c', get_page_sizes get_dtype_size d c' = (Ret ps, c').
Proof.
  intros H. destruct (pages_run c d H) as (ps & _ & Hpos & Hrun). exists (remove_dups ps). split.
  - apply total_nonneg. intros x Hx. rewrite elem_of_remove_dups in Hx. rewrite Forall_forall in Hpos. specialize (Hpos x Hx). lia.
  - intros c'. unfold get_page_sizes, bind. by rewrite Hrun.
Qed.
Lemma foldr_max_ge (x : Z) l : x ≤ foldr Z.max x l.
Proof. induction l; simpl; lia. Qed.
Lemma layer_tuples_run c d : d ≠ [] → (∀ s, s ∈ d.*2 → layer_ok c s) →
  ∃ n, 0 ≤ n ∧ ∀ c', get_num_layer_tuples get_dtype_size d c' = (Ret n, c').
Proof.
  intros Hne H. destruct (pages_run c d H) as ([|p ps] & Hlen & Hpos & Hrun); [by destruct d|]. eexists. split.
  2: { intros c'. unfold get_num_layer_tuples, bind. rewrite Hrun. rewrite fmap_cons. reflexivity. }
  etrans; [|apply foldr_max_ge]. lia.
Qed.
Lemma max_pages_computes c d : d ≠ [] → (∀ s, s ∈ d.*2 → layer_ok c s) → ∃ f, computes c (max_memory_usage_pages get_dtype_size d) f.
Proof.
  intros Hne H. apply computes_max; [by destruct d|]. intros s Hs. destruct (H s Hs) as (p & Hp & Hu).
  exists (λ n, request_pages (with_len n c) s). split; [intros n n' Hn; apply request_pages_mono; [apply Hp|done]|].
  intros n. unfold bind. rewrite (max_memory_run _ s p) by done. rewrite (hp_run _ _ Hp). rewrite cdiv_run by apply Hp.
  by rewrite ceil_div_mul by apply Hp.
Qed.

(** *** The three layouts *)
Lemma group_usage_computes c g p : (∀ s, s ∈ layers_of (kv_cache_spec g) → layer_ok c s) → layers_of (kv_cache_spec g) ≠ [] → 0 < p →
  (∀ c', group_page (kv_cache_spec g) c' = (Ret p, c')) →
  ∃ f, computes c (u <- group_max_memory_usage_bytes get_dtype_size (kv_cache_spec g) ;; cdiv u p) f.
Proof.
  intros Hl Hne Hp Hpage. destruct (kv_cache_spec g) as [s|bs d]; simpl in Hl, Hne.
  - destruct (computes_layer c s) as (f & Hf & Hr); [apply Hl; by left|]. exists (λ n, ceil_div (f n) p). split.
    + intros n n' Hn. apply ceil_div_mono; [done|]. by apply Hf.
    + intros n. unfold bind. cbn [group_max_memory_usage_bytes]. rewrite Hr. by apply cdiv_run.
  - destruct (max_pages_computes c d) as (f & Hf & Hr); [by destruct d|done|]. exists f. split; [done|]. intros n. unfold bind.
    cbn [group_max_memory_usage_bytes]. unfold bind. rewrite Hr, Hpage. cbn. rewrite cdiv_run by done. by rewrite ceil_div_mul.
Qed.
Lemma uniform_page_run gs p : gs ≠ [] → (∀ g c', g ∈ gs → group_page (kv_cache_spec g) c' = (Ret p, c')) →
  ∀ c', get_uniform_page_size get_dtype_size (kv_cache_spec <$> gs) c' = (Ret p, c').
Proof.
  intros Hne H c'. unfold get_uniform_page_size, bind. rewrite (for_collect_pure _ _ (λ _, p)).
  - assert (remove_dups ((λ _, p) <$> (kv_cache_spec <$> gs)) = [p]) as ->; [|done].
    clear H. induction gs as [|g gs IH]; [done|]. rewrite !fmap_cons. simpl. destruct gs as [|g' gs]; [done|].
    destruct (decide_rel _ _ _) as [|Hn]; [by apply IH|]. destruct Hn. rewrite !fmap_cons. by left.
  - intros x (g & -> & Hg)%list_elem_of_fmap. by apply H.
Qed.
Lemma group_size_run gs : gs ≠ [] → ∃ n, 0 ≤ n ∧ (∀ c', group_size_of gs c' = (Ret n, c')) ∧ (∀ g, g ∈ gs → len (layer_names g) ≤ n) ∧
  ∃ g, g ∈ gs ∧ n = len (layer_names g).
Proof.
  destruct gs as [|g gs]; [done|]. intros _. unfold group_size_of. rewrite fmap_cons. cbn [py_max].
  exists (foldr Z.max (len (layer_names g)) ((λ g, len (layer_names g)) <$> gs)).
  induction gs as [|g' gs (H0 & Hr & Hall & g0 & Hg0 & He)]; cbn [fmap list_fmap foldr].
  - split_and!; [unfold len; lia|done|intros g' ->%list_elem_of_singleton; lia|]. exists g. split; [by left|done].
  - split_and!; [lia|done| |].
    + intros x [->|[->|Hx]%elem_of_cons]%elem_of_cons; [|lia|].
      * specialize (Hall g ltac:(by left)). lia.
      * specialize (Hall x ltac:(by right)). lia.
    + destruct (Z.max_spec (len (layer_names g')) (foldr Z.max (len (layer_names g)) ((λ g, len (layer_names g)) <$> gs))) as [[_ Hm]|[_ Hm]].
      * exists g0. split; [|exact (eq_trans Hm He)]. apply elem_of_cons in Hg0 as [->|Hg0]; [by left|]. right. by right.
      * exists g'. split; [right; by left|exact Hm].
Qed.

Lemma usage_computes c gs : groups_ok c gs → ∃ f, computes c (usage gs) f.
Proof.
  intros [Hl Hne Hpage]. destruct gs as [|g rest]; [by exists (λ _, 0)|]. unfold _max_memory_usage_bytes_from_groups.
  assert (∀ x, x ∈ g :: rest → is_uniform (kv_cache_spec x) = true → layers_of (kv_cache_spec x) = (uniform_specs x).*2) as Hlu.
  { intros x _. unfold uniform_specs. by destruct (kv_cache_spec x). }
  destruct (bool_decide (rest = []) && is_uniform (kv_cache_spec g)) eqn:H1.
  { apply andb_true_iff in H1 as [_ Hu]. apply computes_sum. intros s Hs. apply computes_layer, (Hl g); [by left|].
    by rewrite Hlu by (by left || done). }
  destruct (all_uniform (g :: rest)) eqn:H2.
  - assert (∀ x, x ∈ g :: rest → (∀ s, s ∈ (uniform_specs x).*2 → layer_ok c s) ∧ uniform_specs x ≠ []) as Hx.
    { intros x Hx. unfold all_uniform in H2. rewrite forallb_forall in H2. specialize (H2 x). rewrite <-list_elem_of_In in H2.
      rewrite <-(Hlu x) by auto. split; [intros s Hs; by apply (Hl x)|]. specialize (Hne x Hx). rewrite (Hlu x) in Hne by auto.
      by intros E; rewrite E in Hne. }
    destruct (page_sizes_run c (uniform_specs g)) as (ps & Hps & Hpr); [apply Hx; by left|].
    assert (∃ ts, length ts = length (g :: rest) ∧ Forall (λ t, 0 ≤ t) ts ∧
      ∀ c', for_collect (g :: rest) (λ g, get_num_layer_tuples get_dtype_size (uniform_specs g)) c' = (Ret ts, c')) as ([|t ts] & Hlen & Hts & Htr).
    { clear -Hx. induction (g :: rest) as [|x l IH]; [by exists []|]. destruct IH as (ts & Hlen & Hts & Htr); [intros y Hy; apply Hx; by right|].
      destruct (Hx x) as [Hok Hn]; [by left|]. destruct (layer_tuples_run c (uniform_specs x) Hn Hok) as (n & Hn0 & Hnr).
      exists (n :: ts). split_and!; [simpl; by rewrite Hlen|by constructor|]. intros c'. simpl. unfold bind. by rewrite Hnr, Htr. }
    { done. }
    set (k := foldr Z.max t ts). assert (0 ≤ k) as Hk. { etrans; [|apply foldr_max_ge]. by inversion Hts. }
    destruct (computes_sum c (g :: rest) (λ g, n <- max_memory_usage_pages get_dtype_size (uniform_specs g) ;; ret (k * n * total ps))) as (f & Hf & Hfr).
    { intros x Hin. destruct (Hx x Hin) as [Hok Hn]. destruct (max_pages_computes c (uniform_specs x) Hn Hok) as (f & Hf & Hfr).
      exists (λ n, k * f n * total ps). split.
      - intros n n' Hnn. apply Z.mul_le_mono_nonneg_r; [done|]. apply Z.mul_le_mono_nonneg_l; [done|]. by apply Hf.
      - intros n. unfold bind. by rewrite Hfr. }
    exists f. split; [done|]. intros n. rewrite <-Hfr. unfold bind. rewrite Hpr. cbn [ret]. unfold ret at 1. rewrite Htr. done.
  - destruct (Hpage eq_refl) as (p & Hp & Hpr). destruct (group_size_run (g :: rest)) as (k & Hk & Hkr & _); [done|].
    destruct (computes_sum c (g :: rest) (λ g, u <- group_max_memory_usage_bytes get_dtype_size (kv_cache_spec g) ;; cdiv u p)) as (f & Hf & Hfr).
    { intros x Hx. apply (group_usage_computes c x p); auto. intros s Hs. by apply (Hl x). }
    exists (λ n, k * p * f n). split; [intros n n' Hn; apply Z.mul_le_mono_nonneg_l; [nia|]; by apply Hf|].
    intros n. unfold bind at 1. rewrite Hkr. unfold bind at 1. rewrite (uniform_page_run _ p) by done. unfold bind at 1. by rewrite Hfr.
Qed.

(** ** The longest context that fits *)
Lemma length_search_run c (fits : Z → C bool) (b : Z → bool) fuel left right result k top :
  (∀ m j, fits m (with_len j c) = (Ret (b m), with_len m c)) → (∀ m n, m ≤ n → b n = true → b m = true) →
  right - left < Z.of_nat fuel → 1 ≤ left ≤ right + 1 → right ≤ top → 1 ≤ top → result = Z.max 1 (left - 1) → b result = true →
  (∀ m, right < m ≤ top → b m = false) →
  ∃ n j, length_search fuel fits left right result (with_len k c) = (Ret n, with_len j c) ∧ 1 ≤ n ≤ top ∧
    ∀ m, 1 ≤ m ≤ top → b m = true ↔ m ≤ n.
Proof.
  intros Hfits Hanti. revert left right result k. induction fuel as [|fuel IH]; intros left right result k Hf Hl Hr Ht -> Hb Hhi; simpl.
  all: case_bool_decide as Hd; [|try lia].
  1,2: exists (Z.max 1 (left - 1)), k; assert (left ≠ 1 ∨ right ≠ 0) as Hlr by (destruct (decide (left = 1 ∧ right = 0)) as [[-> ->]|]; [|lia];
         specialize (Hhi 1 ltac:(lia)); change (Z.max 1 (1 - 1)) with 1 in Hb; congruence);
       split_and!; [done|lia|lia|intros m Hm; split; [intros Hbm; destruct (decide (m ≤ right)); [lia|]; rewrite Hhi in Hbm; [done|lia]|
         intros Hle; by eapply Hanti]].
  pose proof (Z.div_mod (left + right) 2 ltac:(lia)) as Hm. pose proof (Z.mod_pos_bound (left + right) 2 ltac:(lia)) as Hm'.
  set (mid := (left + right) / 2) in *. unfold bind. rewrite Hfits. destruct (b mid) eqn:Hmid.
  - apply IH; try lia; try done.
  - apply IH; try lia; try done. intros m Hm2. destruct (decide (right < m)); [apply Hhi; lia|].
    destruct (b m) eqn:Hbm; [|done]. exfalso. assert (b mid = true); [|congruence]. eapply Hanti; [|exact Hbm]. lia.
Qed.

Lemma estimate_run c (m : C Z) f available : computes c m f → 1 ≤ max_model_len c →
  ∃ n, estimate_length m available c = (Ret n, c) ∧ 0 ≤ n ≤ max_model_len c ∧
    ∀ k, 1 ≤ k ≤ max_model_len c → f k ≤ available ↔ k ≤ n.
Proof.
  intros [Hf Hr] Hlen. unfold estimate_length, finally, bind at 1, get. cbv zeta beta iota.
  set (fits := λ n, modify (with_len n) ;; u <- m ;; ret (bool_decide (u ≤ available))).
  assert (∀ k j, fits k (with_len j c) = (Ret (bool_decide (f k ≤ available)), with_len k c)) as Hfits.
  { intros k j. unfold fits, bind, modify. change (with_len k (with_len j c)) with (with_len k c). by rewrite Hr. }
  assert (∀ j, with_len (max_model_len c) (with_len j c) = c) as Hback by (intros j; by destruct c).
  assert (fits 1 c = (Ret (bool_decide (f 1 ≤ available)), with_len 1 c)) as H0
    by (rewrite <-(Hfits 1 (max_model_len c)); by destruct c).
  change (modify (with_len 1) ;; u <- m ;; ret (bool_decide (u ≤ available))) with (fits 1). unfold bind. rewrite H0.
  case_bool_decide as H1.
  - destruct (length_search_run c fits (λ k, bool_decide (f k ≤ available)) (Z.to_nat (max_model_len c)) 1 (max_model_len c) 1 1 (max_model_len c))
      as (n & j & Hrun & Hn & Hiff); try done; try lia.
    + intros k n Hkn. rewrite !bool_decide_eq_true. specialize (Hf k n Hkn). lia.
    + by rewrite bool_decide_eq_true.
    + exists n. rewrite Hrun, Hback. split_and!; [done|lia|lia|]. intros k Hk. by rewrite <-Hiff, bool_decide_eq_true.
  - exists 0. unfold ret. rewrite Hback. split_and!; [done|lia|lia|]. intros k Hk. split; [|lia]. intros Hfk. destruct H1.
    specialize (Hf 1 k). lia.
Qed.

(** The memory needed at a context length fits. *)
Definition fits_in gs c available k : Prop := ∃ u, usage gs (with_len k c) = (Ret u, with_len k c) ∧ u ≤ available.

Lemma fits_computes c gs f available k : computes c (usage gs) f → fits_in gs c available k ↔ f k ≤ available.
Proof. intros [_ Hr]. unfold fits_in. rewrite Hr. split; [by intros (u & [= ->] & ?)|]. intros. by eexists. Qed.

Lemma estimate_from_groups_run c gs available : groups_ok c gs → 1 ≤ max_model_len c →
  ∃ n, _estimate_max_model_len_from_groups get_dtype_size gs available c = (Ret n, c) ∧ 0 ≤ n ≤ max_model_len c ∧
    ∀ k, 1 ≤ k ≤ max_model_len c → fits_in gs c available k ↔ k ≤ n.
Proof.
  intros Hok Hlen. destruct (usage_computes c gs Hok) as (f & Hf). destruct (estimate_run c _ f available Hf Hlen) as (n & Hrun & Hn & Hiff).
  exists n. split_and!; [exact Hrun|lia|lia|]. intros k Hk. rewrite (fits_computes _ _ f) by done. by apply Hiff.
Qed.

(** C20: [_estimate_max_model_len_from_groups] returns, with the configuration as it was,
    the longest context that fits: of the lengths up to [max_model_len], exactly those up
    to the result have a memory need within what is available, and the result is 0 when
    not even one token fits. The search does not run out of fuel. *)
Theorem estimate_max_model_len_correct c gs available : groups_ok c gs → 1 ≤ max_model_len c →
  ∃ n, _estimate_max_model_len_from_groups get_dtype_size gs available c = (Ret n, c) ∧ 0 ≤ n ≤ max_model_len c ∧
    ∀ k, 1 ≤ k ≤ max_model_len c → fits_in gs c available k ↔ k ≤ n.
Proof. apply estimate_from_groups_run. Qed.
End sizes.
