(* ===== verification/KVConfigGroups.v ===== *)
(** * The KV-cache configuration: groups of layers

    Hybrid models: the layers of each type are dealt out to groups of nearly equal size. No
    layer is lost or doubled, and the layers of a group have one spec. *)

From S2P Require Import Prelude OrderedDict KVSpec KVConfig KVConfigProps.

Open Scope Z_scope.

(** ** Dealing out a list *)
Lemma elem_of_concat {A} (x : A) ls : x ∈ concat ls ↔ ∃ l, x ∈ l ∧ l ∈ ls.
Proof.
  rewrite list_elem_of_In, in_concat. setoid_rewrite list_elem_of_In. naive_solver.
Qed.
Lemma concat_app_perm {A B} (f g : B → list A) (l : list B) :
  concat ((λ i, f i ++ g i) <$> l) ≡ₚ concat (f <$> l) ++ concat (g <$> l).
Proof. induction l as [|x l IH]; [done|]. rewrite !fmap_cons. simpl. rewrite IH. solve_Permutation. Qed.
Lemma concat_pick {A} (k : Z) (x : A) (l : list Z) :
  NoDup l → k ∈ l → concat ((λ i, if bool_decide (k = i) then [x] else []) <$> l) = [x].
Proof.
  induction 1 as [|y l Hy Hnd IH]; [by intros ?%elem_of_nil|]. rewrite fmap_cons. simpl. intros Hk. case_bool_decide as He; simpl.
  - subst y. f_equal. clear IH Hnd Hk. induction l as [|z l IH]; [done|]. rewrite fmap_cons. simpl.
    rewrite bool_decide_false by (intros ->; apply Hy; by left). apply IH. intros Hk. apply Hy. by right.
  - apply IH. apply elem_of_cons in Hk as [|]; done.
Qed.

Lemma deal_perm {A} (n : Z) (L : list (Z * A)) : 0 < n →
  concat ((λ i, omap (λ p, if bool_decide (p.1 `mod` n = i) then Some p.2 else None) L) <$> py_range n) ≡ₚ L.*2.
Proof.
  intros Hn. induction L as [|[k x] L IH]; simpl.
  - unfold py_range. induction (seqZ 0 n) as [|y l IHl]; [done|]. by rewrite fmap_cons.
  - trans (concat ((λ i, (if bool_decide (k `mod` n = i) then [x] else []) ++
      omap (λ p : Z * A, if bool_decide (p.1 `mod` n = i) then Some p.2 else None) L) <$> py_range n)).
    { apply reflexive_eq. f_equal. apply list_fmap_ext. intros _ i _. simpl. by case_bool_decide. }
    rewrite concat_app_perm, IH, concat_pick; [done|apply NoDup_seqZ|]. apply elem_of_seqZ. pose proof (Z.mod_pos_bound k n Hn). lia.
Qed.
Lemma stride_perm {A} (n : Z) (l : list A) : 0 < n → concat ((λ i, stride i n l) <$> py_range n) ≡ₚ l.
Proof.
  intros Hn. unfold stride. rewrite deal_perm by done. rewrite snd_zip; [done|]. unfold py_range. rewrite length_seqZ. lia.
Qed.

(** In a window of [n] numbers at most one has a given remainder. *)
Lemma residue_window n i a m : 0 < n → m ≤ n → Z.of_nat (length (filter (λ j, j `mod` n = i) (seqZ a m))) ≤ 1.
Proof.
  intros Hn Hm. pose proof (NoDup_filter (λ j, j `mod` n = i) (seqZ a m) (NoDup_seqZ a m)) as Hnd.
  assert (∀ x y, x ∈ filter (λ j, j `mod` n = i) (seqZ a m) → y ∈ filter (λ j, j `mod` n = i) (seqZ a m) → x = y) as Heq.
  { intros x y [Hx Hx']%list_elem_of_filter [Hy Hy']%list_elem_of_filter. apply elem_of_seqZ in Hx', Hy'.
    pose proof (Z.div_mod x n ltac:(lia)). pose proof (Z.div_mod y n ltac:(lia)).
    destruct (Z.lt_trichotomy (x / n) (y / n)) as [?|[?|?]]; nia. }
  destruct (filter _ _) as [|x [|y l]]; simpl; [lia..|]. exfalso. assert (x = y) as -> by (apply Heq; [by left|right; by left]).
  apply NoDup_cons in Hnd as [Hnd _]. apply Hnd. by left.
Qed.
Lemma residue_count n i (m : nat) : 0 < n → Z.of_nat (length (filter (λ j, j `mod` n = i) (seqZ 0 (Z.of_nat m)))) ≤ ceil_div (Z.of_nat m) n.
Proof.
  intros Hn. induction m as [m IH] using (well_founded_induction lt_wf).
  destruct (decide (Z.of_nat m ≤ n)) as [Hle|Hgt].
  - destruct (decide (m = 0%nat)) as [->|Hm]; [unfold ceil_div; simpl; rewrite Z.div_0_l by lia; lia|].
    pose proof (residue_window n i 0 (Z.of_nat m) Hn Hle). pose proof (proj1 (ceil_div_spec (Z.of_nat m) n (ceil_div (Z.of_nat m) n) Hn) ltac:(lia)). nia.
  - assert (seqZ 0 (Z.of_nat m) = seqZ 0 (Z.of_nat (m - Z.to_nat n)) ++ seqZ (Z.of_nat m - n) n) as ->.
    { replace (Z.of_nat m) with (Z.of_nat (m - Z.to_nat n) + n) at 1 by lia. rewrite seqZ_app by lia. do 2 f_equal. lia. }
    rewrite filter_app, length_app. specialize (IH (m - Z.to_nat n)%nat ltac:(lia)). pose proof (residue_window n i (Z.of_nat m - n) n Hn ltac:(lia)).
    assert (ceil_div (Z.of_nat (m - Z.to_nat n)) n + 1 ≤ ceil_div (Z.of_nat m) n); [|lia].
    assert (ceil_div (Z.of_nat (m - Z.to_nat n)) n ≤ ceil_div (Z.of_nat m) n - 1); [|lia]. apply ceil_div_spec; [done|].
    pose proof (proj1 (ceil_div_spec (Z.of_nat m) n (ceil_div (Z.of_nat m) n) Hn) ltac:(lia)). nia.
Qed.

Lemma stride_lookup {A} i n (l : list A) (x : A) : x ∈ stride i n l ↔ ∃ k, l !! k = Some x ∧ Z.of_nat k `mod` n = i.
Proof.
  unfold stride. rewrite list_elem_of_omap. split.
  - intros ([j y] & Hj & Hsel). simpl in Hsel. case_bool_decide; simplify_eq. apply list_elem_of_lookup in Hj as (k & Hk).
    apply lookup_zip_with_Some in Hk as (a & b & [= -> ->] & Ha & Hb). apply lookup_seqZ in Ha as [-> _]. exists k. split; [done|]. by rewrite Z.add_0_l.
  - intros (k & Hk & Hm). exists (Z.of_nat k, x). split; [|simpl; by rewrite bool_decide_true]. apply list_elem_of_lookup. exists k.
    apply lookup_zip_with_Some. exists (Z.of_nat k), x. split_and!; [done| |done]. apply lookup_seqZ. pose proof (lookup_lt_Some _ _ _ Hk). lia.
Qed.
Lemma stride_length {A} i n (l : list A) : 0 < n → len (stride i n l) ≤ ceil_div (len l) n.
Proof.
  intros Hn. etrans; [|apply (residue_count n i (length l) Hn)]. unfold len, stride, py_range.
  assert (∀ (L : list Z), Z.of_nat (length (omap (λ p : Z * A, if bool_decide (p.1 `mod` n = i) then Some p.2 else None) (zip L l))) ≤
    Z.of_nat (length (filter (λ j, j `mod` n = i) L))) as H; [|apply H].
  induction l as [|x l IH]; intros [|j L]; simpl; try lia. rewrite filter_cons. case_bool_decide; simpl.
  - rewrite decide_True by done. cbn [length]. specialize (IH L). rewrite !Nat2Z.inj_succ. by apply Zsucc_le_compat.
  - rewrite decide_False by done. apply IH.
Qed.

Section groups.
Implicit Types (c : VllmConfig) (s : KVCacheSpec) (g : KVCacheGroupSpec) (d : specs_dict).

(** ** Layers of one type *)
Definition layers_with s d : list string := (filter (λ p, p.2 = s) d).*1.
Record types_ok d (types : list (KVCacheSpec * list string)) : Prop := {
  ty_all : concat types.*2 ≡ₚ d.*1;
  ty_wf : od_wf types;
  ty_layers s : default [] (od_get s types) = layers_with s d;
  ty_some s names : (s, names) ∈ types → names ≠ []
}.

Lemma dict_append_perm {K V} `{EqDecision K} (k : K) (v : V) (l : list (K * list V)) : concat (dict_append k v l).*2 ≡ₚ v :: concat l.*2.
Proof.
  unfold dict_append. induction l as [|[k' x] l IH]; simpl; [done|]. case_decide; simpl.
  - rewrite <-app_assoc. simpl. by rewrite <-Permutation_middle.
  - rewrite IH. by rewrite <-Permutation_middle.
Qed.
Lemma same_type_run d : types_ok d (same_type_layers d).
Proof.
  unfold same_type_layers. induction d as [|[n s] d [Hp Hwf Hl Hs]] using rev_ind; [split; [done|constructor|done|by intros ?? ?%elem_of_nil]|].
  rewrite foldl_app. simpl. set (ts := foldl _ _ d) in *. split.
  - rewrite dict_append_perm, Hp, fmap_app. simpl. by rewrite Permutation_app_comm.
  - by apply od_wf_set.
  - intros s'. unfold dict_append. rewrite od_get_set. unfold layers_with in *. rewrite filter_app, fmap_app, <-Hl.
    rewrite filter_cons, filter_nil. simpl. destruct (decide (s' = s)) as [->|Hne]; [by rewrite decide_True|].
    rewrite decide_False by congruence. simpl. by rewrite app_nil_r.
  - intros s' names Hin. apply od_get_iff in Hin; [|by apply od_wf_set]. unfold dict_append in Hin. rewrite od_get_set in Hin.
    case_decide; simplify_eq; [by destruct (default [] _)|]. by apply (Hs s'), od_get_iff.
Qed.
Lemma type_layers d types s names : types_ok d types → (s, names) ∈ types → names = layers_with s d ∧ names ≠ [] ∧ ∀ n, n ∈ names → (n, s) ∈ d.
Proof.
  intros [_ Hwf Hl Hs] Hin. pose proof (Hl s) as Hls. rewrite (proj2 (od_get_iff s names types Hwf) Hin) in Hls. simpl in Hls.
  split_and!; [done|by eapply Hs|]. intros n Hn. rewrite Hls in Hn. apply list_elem_of_fmap in Hn as ([n' s'] & -> & [Hsn Hd]%list_elem_of_filter).
  simpl in *. by subst.
Qed.

(** ** Specs that merge to themselves: all but those in MLA format *)
Definition merges_plainly s : bool := negb (is_mla s || is_swa_mla s).
(** A full-attention layer has a window or a chunk, not both. *)
Definition spec_merge_ok s : Prop :=
  merges_plainly s = true ∧ ∀ f, full_of s = Some f → full_sliding_window f = None ∨ full_chunk_size f = None.

Lemma forallb_const {A} (f : A → bool) l : (∀ x, x ∈ l → f x = true) → forallb f l = true.
Proof. intros H. apply forallb_forall. intros x Hx. apply H. by apply list_elem_of_In. Qed.
Lemma dups_const {A} `{EqDecision A} (x : A) (k : nat) : remove_dups (replicate (Datatypes.S k) x) = [x].
Proof.
  induction k as [|k IH]; [done|]. change (replicate (Datatypes.S (Datatypes.S k)) x) with (x :: replicate (Datatypes.S k) x).
  cbn [remove_dups]. destruct (decide_rel _ _ _) as [|Hn]; [done|]. destruct Hn. simpl. by left.
Qed.
Lemma omap_replicate {A B} (f : A → option B) k x : omap f (replicate k x) = match f x with Some y => replicate k y | None => [] end.
Proof. induction k as [|k IH]; simpl; [by destruct (f x)|]. unfold omap in IH. rewrite IH. by destruct (f x). Qed.
Lemma merge_windows_const (o : option Z) k c :
  merge_window_sizes (remove_dups (match o with Some w => replicate (Datatypes.S k) w | None => [] end)) c = (Ret o, c).
Proof. destruct o as [w|]; [by rewrite dups_const|done]. Qed.

Lemma full_merge_const mk s a f k c : attention s = Some a → full_of s = Some f → is_full s = true → is_mla s = false →
  (full_sliding_window f = None ∨ full_chunk_size f = None) → full_merge mk a f (replicate (Datatypes.S k) s) c = (Ret (mk a f), c).
Proof.
  intros Ha Hf Hfull Hm Hor. unfold full_merge, bind, assert_.
  rewrite forallb_const by (intros x Hx; apply elem_of_replicate in Hx as [-> _]; done). unfold ret.
  assert (existsb is_mla (replicate (Datatypes.S k) s) = false) as ->.
  { induction (Datatypes.S k) as [|n IH]; [done|]. simpl. by rewrite Hm. }
  cbn [negb]. rewrite !omap_replicate, Hf. cbn [mbind option_bind]. rewrite !merge_windows_const.
  rewrite forallb_const by (intros x Hx; apply elem_of_replicate in Hx as [-> _]; by apply bool_decide_eq_true).
  rewrite bool_decide_true by done. by destruct f.
Qed.
Lemma merge_const s k c : spec_merge_ok s → merge (replicate (Datatypes.S k) s) c = (Ret s, c).
Proof.
  intros [Hp Hw]. destruct s; simpl in Hp; try done; simpl; try (rewrite forallb_const; [done|];
    intros x Hx; apply elem_of_replicate in Hx as [-> _]; by apply bool_decide_eq_true).
  all: unfold bind; change (?x :: replicate k ?x) with (replicate (Datatypes.S k) x).
  all: erewrite (full_merge_const _ _ _ _ k) by (reflexivity || by apply Hw); try done.
  assert (∀ n, same_slot_size tq_slot_size (replicate n (TQFullAttentionSpec a f tq_slot_size)) c = (Ret tt, c)) as Hs.
  { intros n. induction n as [|n IH]; [done|]. simpl. unfold bind, assert_. rewrite bool_decide_true by done. apply IH. }
  unfold assert_. rewrite bool_decide_true by done. unfold ret at 1. by rewrite Hs.
Qed.

(** ** The groups of a hybrid model *)
Lemma split_layers_run size (layers : list string) c : 0 < size → layers ≠ [] →
  ∃ gs, split_layers size layers c = (Ret gs, c) ∧ concat gs ≡ₚ layers ∧ ∀ x, x ∈ gs → x ≠ [] ∧ len x ≤ size ∧ ∀ n, n ∈ x → n ∈ layers.
Proof.
  intros Hs Hne. unfold split_layers, bind. rewrite pymod_run by done. rewrite cdiv_run by done. set (k := ceil_div (len layers) size).
  assert (0 < len layers) as Hlen by (destruct layers; [done|unfold len; simpl; lia]).
  pose proof (proj1 (ceil_div_spec (len layers) size k Hs) ltac:(lia)) as Hk. assert (0 < k) as Hk0 by nia.
  assert (k ≤ len layers) as Hkl. { apply ceil_div_spec; [done|]. nia. }
  eexists. split; [done|]. split; [by apply stride_perm|]. intros g (i & -> & Hi)%list_elem_of_fmap. apply elem_of_seqZ in Hi. split_and!.
  - intros He. destruct (lookup_lt_is_Some_2 layers (Z.to_nat i)) as [x Hx]; [unfold len in *; lia|].
    assert (x ∈ stride i k layers) as Hin; [|rewrite He in Hin; by apply elem_of_nil in Hin].
    apply stride_lookup. exists (Z.to_nat i). split; [done|]. rewrite Z2Nat.id by lia. apply Z.mod_small. lia.
  - etrans; [by apply stride_length|]. apply ceil_div_spec; [done|]. lia.
  - intros n (j & Hj & _)%stride_lookup. by apply list_elem_of_lookup_2 in Hj.
Qed.
Lemma for_collect_run {A B} (l : list A) (body : A → C B) (R : A → B → Prop) c :
  (∀ x, x ∈ l → ∃ b, body x c = (Ret b, c) ∧ R x b) → ∃ bs, for_collect l body c = (Ret bs, c) ∧ Forall2 R l bs.
Proof.
  induction l as [|x l IH]; intros H; [by exists []|]. destruct IH as (bs & Hrun & Hall); [intros y Hy; apply H; by right|].
  destruct (H x) as (b & Hb & HR); [by left|]. exists (b :: bs). split; [|by constructor]. simpl. unfold bind. by rewrite Hb, Hrun.
Qed.
Lemma create_groups_run d names c : od_wf d → (∀ x, x ∈ names → x ≠ [] ∧ ∃ s, spec_merge_ok s ∧ ∀ n, n ∈ x → (n, s) ∈ d) →
  ∃ gs, create_kv_cache_group_specs d names c = (Ret gs, c) ∧
    Forall2 (λ ns g, layer_names g = ns ∧ is_eagle_group g = false ∧ ∃ s, kv_cache_spec g = OneSpec s ∧ ∀ n, n ∈ ns → (n, s) ∈ d) names gs.
Proof.
  intros Hwf H. apply for_collect_run. intros ns Hns. destruct (H ns Hns) as (Hne & s & Hs & Hin).
  eexists. unfold bind. rewrite (for_collect_pure _ _ (λ _, s)).
  2: { intros x Hx. unfold of_option. by rewrite (proj2 (od_get_iff _ _ _ Hwf) (Hin x Hx)). }
  assert ((λ _, s) <$> ns = replicate (length ns) s) as -> by (clear; induction ns as [|x ns IH]; [done|]; rewrite fmap_cons, IH; done).
  destruct ns as [|n ns]; [done|]. cbn [length]. rewrite merge_const by done. split; [done|]. split_and!; [done..|]. by exists s.
Qed.

Lemma foldr_max_elem (x : Z) l : foldr Z.max x l ∈ x :: l.
Proof.
  induction l as [|y l IH]; simpl; [by left|]. destruct (Z.max_spec y (foldr Z.max x l)) as [[_ ->]|[_ ->]]; [|right; by left].
  apply elem_of_cons in IH as [->|IH]; [by left|]. right. by right.
Qed.
Lemma foldr_min_elem (x : Z) l : foldr Z.min x l ∈ x :: l.
Proof.
  induction l as [|y l IH]; simpl; [by left|]. destruct (Z.min_spec y (foldr Z.min x l)) as [[_ ->]|[_ ->]]; [right; by left|].
  apply elem_of_cons in IH as [->|IH]; [by left|]. right. by right.
Qed.
Lemma split_concat {A} (l : list (list A)) (ks : list (list (list A))) :
  Forall2 (λ x k, concat k ≡ₚ x) l ks → concat (concat ks) ≡ₚ concat l.
Proof. induction 1 as [|x k l ks Hk Hl IH]; simpl; [done|]. by rewrite concat_app, Hk, IH. Qed.

Lemma uniform_page_groups_run d c : od_wf d → d ≠ [] → (∀ n s, (n, s) ∈ d → spec_merge_ok s) →
  ∃ gs size, _get_kv_cache_groups_uniform_page_size d c = (Ret gs, c) ∧
    concat (layer_names <$> gs) ≡ₚ d.*1 ∧
    (∃ s, size = len (layers_with s d)) ∧
    ∀ g, g ∈ gs → 0 < len (layer_names g) ≤ size ∧ is_eagle_group g = false ∧
      ∃ s, kv_cache_spec g = OneSpec s ∧ ∀ n, n ∈ layer_names g → (n, s) ∈ d.
Proof.
  intros Hwf Hne Hok. pose proof (same_type_run d) as Hty. set (types := same_type_layers d) in *.
  unfold _get_kv_cache_groups_uniform_page_size. fold types.
  destruct (len <$> types.*2) as [|x l] eqn:Hlens.
  { pose proof (ty_all _ _ Hty) as Hp. apply fmap_nil_inv in Hlens. rewrite Hlens in Hp. simpl in Hp. apply Permutation_nil_l in Hp.
    by destruct d. }
  set (size := pick_group_size (foldr Z.min x l) (foldr Z.max x l)).
  assert (size ∈ x :: l) as Hsize. { unfold size, pick_group_size. case_bool_decide; [apply foldr_max_elem|apply foldr_min_elem]. }
  rewrite <-Hlens in Hsize. apply list_elem_of_fmap in Hsize as (names0 & Hsize & ([s0 names0'] & -> & Hin0)%list_elem_of_fmap).
  simpl in Hsize. destruct (type_layers _ _ _ _ Hty Hin0) as (Hn0 & Hne0 & _).
  assert (0 < size) as Hpos by (rewrite Hsize; destruct names0'; [done|unfold len; simpl; lia]).
  destruct (for_collect_run types.*2 (split_layers size) (λ ns gs, concat gs ≡ₚ ns ∧ ∀ y, y ∈ gs → y ≠ [] ∧ len y ≤ size ∧ ∀ n, n ∈ y → n ∈ ns) c)
    as (grouped & Hrun & Hall).
  { intros ns ([s ns'] & -> & Hin)%list_elem_of_fmap. destruct (type_layers _ _ _ _ Hty Hin) as (_ & Hns & _). by apply split_layers_run. }
  assert (∀ y, y ∈ concat grouped → y ≠ [] ∧ len y ≤ size ∧ ∃ s, (∀ n, n ∈ y → (n, s) ∈ d)) as Hy.
  { intros y (ys & Hy & Hys)%elem_of_concat. apply list_elem_of_lookup in Hys as (i & Hi).
    destruct (Forall2_lookup_r _ _ _ _ _ Hall Hi) as (ns & Hns & _ & Hg). destruct (Hg y Hy) as (? & ? & Hsub). split_and!; [done..|].
    apply list_elem_of_lookup_2, list_elem_of_fmap in Hns as ([s ns'] & -> & Hin). exists s. intros n Hn.
    destruct (type_layers _ _ _ _ Hty Hin) as (_ & _ & Hd). by apply Hd, Hsub. }
  destruct (create_groups_run d (concat grouped) c Hwf) as (gs & Hgs & Hgall).
  { intros y Hin. destruct (Hy y Hin) as (? & _ & s & Hs). split; [done|]. exists s. split; [|done]. destruct y as [|n y]; [done|].
    apply (Hok n). apply Hs. by left. }
  exists gs, size. split; [unfold bind; cbn [py_min py_max]; unfold ret; fold size; by rewrite Hrun|]. split_and!.
  - assert (layer_names <$> gs = concat grouped) as ->.
    { clear -Hgall. induction Hgall as [|ns g l gs (Hn & _) _ IH]; [done|]. by rewrite fmap_cons, Hn, IH. }
    rewrite split_concat; [apply Hty|]. eapply Forall2_impl; [exact Hall|]. by intros ?? [].
  - exists s0. by rewrite Hsize, Hn0.
  - intros g Hg. apply list_elem_of_lookup in Hg as (i & Hi). destruct (Forall2_lookup_r _ _ _ _ _ Hgall Hi) as (ns & Hns & <- & He & s & Hs & Hd).
    apply list_elem_of_lookup_2 in Hns. destruct (Hy _ Hns) as (Hnn & Hle & _). split_and!; [destruct (layer_names g); [done|unfold len; simpl; lia]|done|done|].
    by exists s.
Qed.

(** C27: [_get_kv_cache_groups_uniform_page_size] partitions the layers: every layer is in
    exactly one group, no group is empty or larger than the number of layers of one of the
    types, and the layers of a group all have the spec that the group carries. *)
Theorem layer_groups_correct d c : od_wf d → d ≠ [] → (∀ n s, (n, s) ∈ d → spec_merge_ok s) →
  ∃ gs size, _get_kv_cache_groups_uniform_page_size d c = (Ret gs, c) ∧
    concat (layer_names <$> gs) ≡ₚ d.*1 ∧
    (∃ s, size = len (layers_with s d)) ∧
    ∀ g, g ∈ gs → 0 < len (layer_names g) ≤ size ∧ is_eagle_group g = false ∧
      ∃ s, kv_cache_spec g = OneSpec s ∧ ∀ n, n ∈ layer_names g → (n, s) ∈ d.
Proof. apply uniform_page_groups_run. Qed.
End groups.
