(* ===== verification/KVConfigWorkers.v ===== *)
(** * The KV-cache configuration: blocks and tensors of the workers

    Over the groups of a model whose pages have one size: the memory test, the tensors of a
    worker, and the configuration of all workers. Every worker gets the same number of
    blocks, enough for one request of the longest context, in tensors that fit its memory
    and give every layer of it exactly one place. *)

From S2P Require Import Prelude OrderedDict KVSpec KVConfig KVConfigProps KVConfigGroups.

Open Scope Z_scope.

(** ** Columns of a list of lists *)
Lemma concat_lookups {A} (l : list A) n : len l ≤ n → concat ((λ i, option_list (l !! Z.to_nat i)) <$> py_range n) = l.
Proof.
  intros Hn. unfold py_range. replace n with (len l + (n - len l)) by lia. unfold len in *. rewrite seqZ_app by lia. rewrite fmap_app, concat_app.
  assert (concat ((λ i, option_list (l !! Z.to_nat i)) <$> seqZ (0 + Z.of_nat (length l)) (n - Z.of_nat (length l))) = []) as ->.
  { apply concat_nil_Forall, Forall_fmap, Forall_forall. intros i Hi%elem_of_seqZ. simpl. by rewrite lookup_ge_None_2 by lia. }
  rewrite app_nil_r. clear. induction l as [|x l IH] using rev_ind; [done|]. rewrite length_app. simpl.
  rewrite Nat2Z.inj_add, seqZ_app, fmap_app, concat_app by lia. simpl. rewrite app_nil_r. f_equal.
  - rewrite <-IH at 2. f_equal. apply list_fmap_ext. intros j i Hi%lookup_seqZ. simpl. by rewrite lookup_app_l by lia.
  - replace (Z.to_nat (Z.of_nat 0 + (0 + Z.of_nat (length l)))) with (length l) by lia. by rewrite list_lookup_middle.
Qed.
Lemma layers_at_perm gs n : (∀ g, g ∈ gs → len (layer_names g) ≤ n) → concat (layers_at gs <$> py_range n) ≡ₚ concat (layer_names <$> gs).
Proof.
  induction gs as [|g gs IH]; intros Hn.
  - unfold layers_at. simpl. clear. induction (py_range n) as [|i l IH]; [done|]. by rewrite fmap_cons.
  - trans (concat ((λ i, option_list (layer_names g !! Z.to_nat i) ++ layers_at gs i) <$> py_range n)).
    { apply reflexive_eq. f_equal. apply list_fmap_ext. intros _ i _. unfold layers_at. simpl. by destruct (layer_names g !! Z.to_nat i). }
    rewrite concat_app_perm, IH by (intros; apply Hn; by right). rewrite fmap_cons. simpl. by rewrite concat_lookups by (apply Hn; by left).
Qed.

Section workers.
Context (get_dtype_size : Z → Z).
Implicit Types (c : VllmConfig) (s : KVCacheSpec) (g : KVCacheGroupSpec) (gs : list KVCacheGroupSpec) (d w : specs_dict) (p n mem : Z).
Notation has_page := (has_page get_dtype_size).
Notation usage := (_max_memory_usage_bytes_from_groups get_dtype_size).

(** ** Groups whose layers have pages of [p] bytes *)
Definition group_ok c p g : Prop := ∃ s, kv_cache_spec g = OneSpec s ∧ has_page s p ∧ spec_usable c s.
Definition group_pages c g : Z := match kv_cache_spec g with OneSpec s => request_pages c s | _ => 0 end.
(** The blocks of one request, over all groups *)
Definition pages_needed c gs : Z := total (group_pages c <$> gs).

Lemma group_ok_page c p g c' : group_ok c p g → group_page_size_bytes get_dtype_size (kv_cache_spec g) c' = (Ret p, c').
Proof. intros (s & -> & Hp & _). apply Hp. Qed.
Lemma group_ok_usage c p g : group_ok c p g → group_max_memory_usage_bytes get_dtype_size (kv_cache_spec g) c = (Ret (group_pages c g * p), c).
Proof. intros (s & Hs & Hp & Hu). unfold group_pages. rewrite Hs. by apply max_memory_run. Qed.
Lemma groups_not_uniform c p g gs : group_ok c p g → all_uniform (g :: gs) = false.
Proof. intros (s & Hs & _). unfold all_uniform. simpl. by rewrite Hs. Qed.
Lemma group_ok_pos c p g : group_ok c p g → 0 < p.
Proof. intros (s & _ & Hp & _). apply Hp. Qed.

Lemma one_page_groups c p gs : gs ≠ [] → (∀ g, g ∈ gs → group_ok c p g) → groups_ok get_dtype_size c gs.
Proof.
  intros Hne Hok. split.
  - intros g s Hg Hs. destruct (Hok g Hg) as (s' & Hs' & Hp & Hu). rewrite Hs' in Hs. apply list_elem_of_singleton in Hs as ->. by exists p.
  - intros g Hg. destruct (Hok g Hg) as (s' & -> & _). done.
  - intros _. destruct gs as [|g gs]; [done|]. exists p. split; [apply (group_ok_pos c p g), Hok; by left|].
    intros g' c' Hg. by apply (group_ok_page c), Hok.
Qed.

(** The groups and the size of the largest of them *)
Record sized c p gs n : Prop := {
  sd_ok g : g ∈ gs → group_ok c p g;
  sd_pos : 0 < n;
  sd_max g : g ∈ gs → len (layer_names g) ≤ n;
  sd_some : ∃ g, g ∈ gs ∧ n = len (layer_names g)
}.
Lemma sized_ne c p gs n : sized c p gs n → gs ≠ [].
Proof. intros [_ _ _ (g & Hg & _)] ->. by apply elem_of_nil in Hg. Qed.
Lemma sized_page c p gs n : sized c p gs n → 0 < p.
Proof. intros H. destruct H as [Hok _ _ (g & Hg & _)]. by eapply group_ok_pos, Hok. Qed.
Lemma sized_run c p gs n c' : sized c p gs n → group_size_of gs c' = (Ret n, c').
Proof.
  intros H. destruct (group_size_run gs (sized_ne _ _ _ _ H)) as (k & _ & Hr & Hk & g & Hg & ->). destruct H as [_ _ Hm (g' & Hg' & ->)].
  rewrite Hr. pose proof (Hk _ Hg'). pose proof (Hm _ Hg). do 2 f_equal. lia.
Qed.
Lemma sized_sum c p gs n (f : KVCacheGroupSpec → C Z) (k : KVCacheGroupSpec → Z) : sized c p gs n →
  (∀ g, group_ok c p g → f g c = (Ret (k g), c)) → sum_of gs f c = (Ret (total (k <$> gs)), c).
Proof. intros Hs Hf. unfold sum_of, bind. rewrite (for_collect_pure _ _ k); [done|]. intros g Hg. by apply Hf, Hs. Qed.

Lemma usage_run c p gs n : sized c p gs n → usage gs c = (Ret (n * p * pages_needed c gs), c).
Proof.
  intros H. pose proof (sized_ne _ _ _ _ H) as Hne. pose proof (sized_page _ _ _ _ H) as Hp. unfold _max_memory_usage_bytes_from_groups.
  destruct gs as [|g gs]; [done|]. assert (group_ok c p g) as Hg by (apply H; by left). rewrite (groups_not_uniform c p) by done.
  destruct Hg as (s & Hs & _). rewrite Hs. cbn [is_uniform]. rewrite andb_false_r. unfold bind at 1. rewrite (sized_run c p _ n) by done.
  unfold bind at 1. rewrite (uniform_page_run _ _ p) by (done || intros g' c' Hg'; by apply (group_ok_page c), H).
  unfold bind at 1. rewrite (sized_sum c p _ n _ (group_pages c)); [done|done|].
  intros g' Hg'. unfold bind. rewrite (group_ok_usage c p) by done. rewrite cdiv_run by done. by rewrite ceil_div_mul.
Qed.

(** ** The memory test *)
Definition enough c p gs n mem : bool := bool_decide (0 < mem ∧ n * p * pages_needed c gs ≤ mem).
Lemma check_run c p gs n mem : sized c p gs n → 1 ≤ max_model_len c →
  _check_enough_kv_cache_memory mem (usage gs) (_estimate_max_model_len_from_groups get_dtype_size gs) c =
    if enough c p gs n mem then (Ret tt, c) else (Raise ValueError, c).
Proof.
  intros H Hlen. unfold _check_enough_kv_cache_memory, enough. case_bool_decide as H1; [by rewrite bool_decide_false by lia|].
  unfold bind at 1. rewrite (usage_run c p gs n) by done. case_bool_decide as H2; [|by rewrite bool_decide_true by lia].
  rewrite bool_decide_false by lia. pose proof (one_page_groups c p gs (sized_ne _ _ _ _ H) (sd_ok _ _ _ _ H)) as Hg.
  destruct (estimate_from_groups_run get_dtype_size c gs mem Hg Hlen) as (k & Hk & _). unfold bind. by rewrite Hk.
Qed.

(** ** One worker *)
Definition blocks_of p n mem : Z := Z.max (mem / p / n) 0.
Definition tensors_of p gs n blocks : list KVCacheTensor := (λ i, mkTensor (p * blocks) (layers_at gs i)) <$> py_range n.

Lemma config_run c p gs n mem : sized c p gs n → num_gpu_blocks_override c = None →
  get_kv_cache_config_from_groups get_dtype_size gs mem c = (Ret (mkKVConfig (blocks_of p n mem) (tensors_of p gs n (blocks_of p n mem)) gs), c).
Proof.
  intros H Ho. pose proof (sized_ne _ _ _ _ H) as Hne. pose proof (sized_page _ _ _ _ H) as Hp. unfold get_kv_cache_config_from_groups.
  destruct gs as [|g gs]; [done|]. assert (group_ok c p g) as Hg by (apply H; by left). rewrite (groups_not_uniform c p) by done.
  destruct Hg as (s & Hs & _). rewrite Hs. cbn [is_uniform]. rewrite andb_false_r. unfold bind at 1 2. rewrite (sized_run c p _ n) by done.
  unfold bind at 1. rewrite (uniform_page_run _ _ p) by (done || intros g' c' Hg'; by apply (group_ok_page c), H).
  unfold assert_. rewrite bool_decide_true by apply H. unfold ret at 1, bind at 1. unfold get_num_blocks, may_override_num_blocks, bind, get, ret.
  rewrite floordiv_run by done. rewrite floordiv_run by apply H. by rewrite Ho.
Qed.
Lemma blocks_enough c p gs n mem : sized c p gs n → enough c p gs n mem = true → pages_needed c gs ≤ blocks_of p n mem.
Proof.
  intros H [Hm Hle]%bool_decide_eq_true. pose proof (sized_page _ _ _ _ H) as Hp. pose proof (sd_pos _ _ _ _ H) as Hn. unfold blocks_of.
  assert (pages_needed c gs ≤ mem / p / n); [|lia]. apply Z.div_le_lower_bound; [done|]. apply Z.div_le_lower_bound; [done|]. nia.
Qed.
Lemma blocks_fit p n mem : 0 < p → 0 < n → 0 ≤ mem → n * p * blocks_of p n mem ≤ mem.
Proof.
  intros Hp Hn Hm. unfold blocks_of. pose proof (Z.mul_div_le mem p Hp). pose proof (Z.mul_div_le (mem / p) n Hn).
  pose proof (Z.div_pos mem p Hm Hp). pose proof (Z.div_pos (mem / p) n ltac:(lia) Hn). rewrite Z.max_l by lia. nia.
Qed.
Lemma tensors_total p gs n blocks : 0 < n → total (size <$> tensors_of p gs n blocks) = n * p * blocks.
Proof.
  intros Hn. unfold tensors_of, py_range. rewrite <-list_fmap_compose. assert (∀ l : list Z, total ((size ∘ λ i, mkTensor (p * blocks) (layers_at gs i)) <$> l) =
    Z.of_nat (length l) * (p * blocks)) as ->; [|rewrite length_seqZ; nia].
  intros l. induction l as [|x l IH]; [done|]. rewrite fmap_cons. unfold total in *. cbn [foldr length]. rewrite IH. simpl. lia.
Qed.
Lemma tensors_layers p gs n blocks : (∀ g, g ∈ gs → len (layer_names g) ≤ n) →
  concat (shared_by <$> tensors_of p gs n blocks) ≡ₚ concat (layer_names <$> gs).
Proof.
  intros Hn. rewrite <-(layers_at_perm gs n) by done. unfold tensors_of. rewrite <-list_fmap_compose. done.
Qed.

Lemma tensors_sizes p gs n blocks x : x ∈ tensors_of p gs n blocks → size x = p * blocks.
Proof. intros (i & -> & _)%list_elem_of_fmap. done. Qed.

(** ** Projection to a worker *)
Definition project w g : KVCacheGroupSpec :=
  let names := filter (λ x, x ∈ w.*1) (layer_names g) in
  mkGroup names (kv_cache_spec g) (is_eagle_group g && negb (bool_decide (names = []))).
Lemma project_run c p gs w c' : (∀ g, g ∈ gs → group_ok c p g) → _project_kv_cache_groups_to_worker gs w c' = (Ret (project w <$> gs), c').
Proof.
  intros Hok. apply for_collect_pure. intros g Hg. destruct (Hok g Hg) as (s & Hs & _). unfold project, bind. by rewrite Hs.
Qed.
Lemma project_names w gs : od_wf w → NoDup (concat (layer_names <$> gs)) → (∀ x, x ∈ w.*1 → x ∈ concat (layer_names <$> gs)) →
  concat (layer_names <$> (project w <$> gs)) ≡ₚ w.*1.
Proof.
  intros Hw Hnd Hin. assert (concat (layer_names <$> (project w <$> gs)) = filter (λ x, x ∈ w.*1) (concat (layer_names <$> gs))) as ->.
  { clear. induction gs as [|g gs IH]; [done|]. rewrite !fmap_cons. cbn [concat]. by rewrite filter_app, IH. }
  apply NoDup_Permutation; [by apply NoDup_filter|done|]. intros x. rewrite list_elem_of_filter. naive_solver.
Qed.
Lemma project_pages c w gs : pages_needed c (project w <$> gs) = pages_needed c gs.
Proof. unfold pages_needed. by rewrite <-list_fmap_compose. Qed.

(** The largest group of a worker *)
Definition size_on w gs : Z := foldr Z.max 0 ((λ g, len (layer_names (project w g))) <$> gs).
Lemma size_on_ge w gs g : g ∈ gs → len (layer_names (project w g)) ≤ size_on w gs.
Proof. unfold size_on. induction 1 as [g gs|g g' gs Hg IH]; rewrite fmap_cons; cbn [foldr]; lia. Qed.
Lemma size_on_elem w gs : 0 < size_on w gs → ∃ g, g ∈ gs ∧ size_on w gs = len (layer_names (project w g)).
Proof.
  unfold size_on. induction gs as [|g gs IH]; [simpl; lia|]. rewrite fmap_cons. cbn [foldr]. intros H.
  destruct (Z.max_spec (len (layer_names (project w g))) (foldr Z.max 0 ((λ g, len (layer_names (project w g))) <$> gs))) as [[_ He]|[_ He]]; rewrite He in *.
  - destruct (IH H) as (g' & Hg' & Hs). exists g'. split; [by right|done].
  - exists g. split; [by left|done].
Qed.
Lemma project_sized c p gs w : (∀ g, g ∈ gs → group_ok c p g) → w ≠ [] → (∀ x, x ∈ w.*1 → x ∈ concat (layer_names <$> gs)) →
  sized c p (project w <$> gs) (size_on w gs).
Proof.
  intros Hok Hne Hin. assert (0 < size_on w gs) as Hpos.
  { destruct w as [|[x s] w]; [done|]. destruct (proj1 (elem_of_concat _ _) (Hin x ltac:(by left))) as (l & Hx & (g & -> & Hg)%list_elem_of_fmap).
    pose proof (size_on_ge ((x, s) :: w) gs g Hg) as Hge. assert (x ∈ layer_names (project ((x, s) :: w) g)) as Hp.
    { apply list_elem_of_filter. split; [by left|done]. }
    destruct (layer_names (project _ g)); [by apply elem_of_nil in Hp|]. unfold len in Hge. simpl in Hge. lia. }
  split; [|done| |].
  - intros g (g0 & -> & Hg)%list_elem_of_fmap. apply (Hok g0 Hg).
  - intros g (g0 & -> & Hg)%list_elem_of_fmap. by apply size_on_ge.
  - destruct (size_on_elem w gs Hpos) as (g & Hg & He). exists (project w g). split; [by apply list_elem_of_fmap_2|done].
Qed.

(** ** The layers of all workers *)
Lemma merge_worker_inv ws c d : merge_worker_specs ws c = (Ret d, c) → od_wf d ∧ ∀ x, x ∈ d.*1 ↔ x ∈ (concat ws).*1.
Proof.
  unfold merge_worker_specs. set (loop := fix loop (l merged : specs_dict) : C specs_dict := _).
  enough (∀ l merged, od_wf merged → loop l merged c = (Ret d, c) → od_wf d ∧ ∀ x, x ∈ d.*1 ↔ x ∈ merged.*1 ∨ x ∈ l.*1) as H.
  { intros Hr. destruct (H (concat ws) [] ltac:(constructor) Hr) as [Hd Hx]. split; [done|]. intros x. rewrite Hx. set_solver. }
  intros l. induction l as [|[n s] l IH]; intros merged Hm; simpl.
  - intros [= <-]. split; [done|]. set_solver.
  - destruct (od_get n merged) as [s'|] eqn:Hg.
    + unfold bind, assert_. case_bool_decide; [|done]. intros Hr. destruct (IH merged Hm Hr) as [Hd Hx]. split; [done|]. intros x. rewrite Hx, elem_of_cons.
      apply od_get_Some_key in Hg. naive_solver.
    + intros Hr. destruct (IH _ (od_wf_set n s merged Hm) Hr) as [Hd Hx]. split; [done|]. intros x. rewrite Hx.
      rewrite od_set_keys_new by by apply od_get_None. rewrite fmap_app, elem_of_app. simpl. set_solver.
Qed.

(** ** All workers *)
Lemma for_each_test {A} (l : list A) (body : A → C unit) (ok : A → bool) c :
  (∀ x, x ∈ l → body x c = if ok x then (Ret tt, c) else (Raise ValueError, c)) →
  for_each l body c = if forallb ok l then (Ret tt, c) else (Raise ValueError, c).
Proof.
  induction l as [|x l IH]; intros H; [done|]. simpl. unfold bind. rewrite H by by left. destruct (ok x); [|done]. simpl.
  apply IH. intros y Hy. apply H. by right.
Qed.
Lemma foldr_min_le (x y : Z) l : y ∈ x :: l → foldr Z.min x l ≤ y.
Proof. induction l as [|z l IH]; simpl; [by intros ->%list_elem_of_singleton|]. intros [->|[->|Hy]%elem_of_cons]%elem_of_cons; [|lia|].
  - specialize (IH ltac:(by left)). lia.
  - specialize (IH ltac:(by right)). lia.
Qed.

Definition worker_config p gs blocks (x : specs_dict * Z) : KVCacheConfig :=
  mkKVConfig blocks (tensors_of p (project x.1 <$> gs) (size_on x.1 gs) blocks) (project x.1 <$> gs).
Lemma shrink_run c p gs n old new : sized c p gs n → 0 < old → 0 < pages_needed c gs →
  shrink_config get_dtype_size new (mkKVConfig old (tensors_of p gs n old) gs) c = (Ret (mkKVConfig new (tensors_of p gs n new) gs), c).
Proof.
  intros H Hold Hpages. pose proof (sized_page _ _ _ _ H) as Hp. pose proof (sd_pos _ _ _ _ H) as Hn. unfold shrink_config. cbn [kv_cache_tensors num_blocks kv_cache_groups].
  unfold bind at 1. rewrite (for_collect_pure _ _ (λ t, mkTensor (p * new) (shared_by t))).
  2: { intros x Hx%tensors_sizes. unfold shrink_tensor, bind, assert_. rewrite Hx, pymod_run by done. cbn beta iota.
       rewrite Z.mod_mul by lia. rewrite bool_decide_true by done. unfold ret at 1. rewrite floordiv_run by done. by rewrite Z.div_mul by lia. }
  assert ((λ t, mkTensor (p * new) (shared_by t)) <$> tensors_of p gs n old = tensors_of p gs n new) as ->.
  { unfold tensors_of. by rewrite <-list_fmap_compose. }
  rewrite bool_decide_false by by eapply sized_ne. unfold bind at 1 2, get_max_concurrency_for_kv_cache_config. cbn [kv_cache_groups num_blocks].
  unfold bind at 1. rewrite (sized_run c p _ n) by done. unfold bind at 1.
  rewrite (sized_sum c p _ n _ (λ g, group_pages c g * p)) by (done || intros g Hg; by apply group_ok_usage).
  destruct gs as [|g gs]; [by apply sized_ne in H|]. unfold bind at 1. cbn [head]. unfold of_option, ret at 1. unfold bind at 1.
  rewrite (group_ok_page c p) by (apply H; by left). unfold bind at 1.
  assert (total ((λ g, group_pages c g * p) <$> g :: gs) = pages_needed c (g :: gs) * p) as ->.
  { clear. unfold pages_needed. induction (g :: gs) as [|x l IH]; [done|]. rewrite !fmap_cons. unfold total in *. cbn [foldr]. rewrite IH. lia. }
  rewrite cdiv_run by nia. replace (n * (pages_needed c (g :: gs) * p)) with (pages_needed c (g :: gs) * (p * n)) by lia.
  rewrite ceil_div_mul by nia. by rewrite bool_decide_false by lia.
Qed.

(** Groups of pages of [p] bytes that cover the layers of the workers *)
Record placed c p gs (ws : list specs_dict) (mems : list Z) : Prop := {
  pl_merged : ∃ d, merge_worker_specs ws c = (Ret d, c) ∧ get_kv_cache_groups get_dtype_size d c = (Ret gs, c) ∧
    concat (layer_names <$> gs) ≡ₚ d.*1;
  pl_groups g : g ∈ gs → group_ok c p g;
  pl_workers w : w ∈ ws → w ≠ [] ∧ od_wf w;
  pl_some : ws ≠ [] ∧ length mems = length ws;
  pl_plain : num_gpu_blocks_override c = None ∧ original_max_model_len c ≠ -1 ∧ 1 ≤ max_model_len c;
  pl_pages : 0 < pages_needed c gs
}.
(** The memory of every worker holds one request of the longest context. *)
Definition all_enough c p gs (ws : list specs_dict) (mems : list Z) : bool :=
  forallb (λ x, enough c p gs (size_on x.1 gs) x.2) (zip ws mems).

Lemma zip_proj {A B D} (f : A → B) (l : list A) (k : list D) : zip (f <$> l) k = (λ x, (f x.1, x.2)) <$> zip l k.
Proof. revert k. induction l as [|x l IH]; intros [|y k]; [done..|]. rewrite fmap_cons. simpl. by rewrite IH. Qed.
Lemma zip_proj2 {A B D} (f : A → B) (l : list A) (k : list D) : zip (zip (f <$> l) l) k = (λ x, (f x.1, x.1, x.2)) <$> zip l k.
Proof. revert k. induction l as [|x l IH]; intros [|y k]; [done..|]. rewrite fmap_cons. simpl. by rewrite IH. Qed.
Lemma total_len (gs : list KVCacheGroupSpec) : total ((λ g, len (layer_names g)) <$> gs) = len (concat (layer_names <$> gs)).
Proof.
  induction gs as [|g gs IH]; [done|]. rewrite !fmap_cons. unfold total, len in *. cbn [foldr concat]. rewrite IH, length_app. lia.
Qed.

Lemma placed_sized c p gs ws mems w : placed c p gs ws mems → w ∈ ws →
  sized c p (project w <$> gs) (size_on w gs) ∧ concat (layer_names <$> (project w <$> gs)) ≡ₚ w.*1.
Proof.
  intros [(d & Hd & _ & Hp) Hg Hw _ _ _] Hin. destruct (merge_worker_inv ws c d Hd) as [Hwf Hx]. destruct (Hw w Hin) as [Hne Hww].
  assert (∀ x, x ∈ w.*1 → x ∈ concat (layer_names <$> gs)) as Hall.
  { intros x (y & -> & Hy)%list_elem_of_fmap. rewrite Hp. apply Hx, list_elem_of_fmap_2. apply elem_of_concat. by exists w. }
  split; [by apply project_sized|]. apply project_names; [done| |done]. rewrite Hp. apply Hwf.
Qed.

(** The loops over the workers *)
Lemma zip_fst {A B} (l : list A) (k : list B) x : x ∈ zip l k → x.1 ∈ l.
Proof.
  intros (i & Hi)%list_elem_of_lookup. destruct x as [a b]. apply lookup_zip_with_Some in Hi as (a' & b' & [= -> ->] & Ha & _).
  by eapply list_elem_of_lookup_2.
Qed.
Lemma check_workers_run c p gs ws mems : placed c p gs ws mems →
  for_each (zip ((λ w, project w <$> gs) <$> ws) mems) (λ '(gs, mem),
    if bool_decide (gs = []) then ret tt
    else _check_enough_kv_cache_memory mem (usage gs) (_estimate_max_model_len_from_groups get_dtype_size gs)) c =
  if all_enough c p gs ws mems then (Ret tt, c) else (Raise ValueError, c).
Proof.
  intros H. rewrite zip_proj. unfold all_enough. assert (∀ x, x ∈ zip ws mems → x.1 ∈ ws) as Hin by (intros x; apply zip_fst).
  induction (zip ws mems) as [|[w m] l IH]; [done|]. destruct (placed_sized _ _ _ _ _ w H) as [Hs _]; [by apply (Hin (w, m)); left|].
  rewrite fmap_cons. cbn [fst snd for_each forallb]. unfold bind at 1. rewrite bool_decide_false by by eapply sized_ne.
  rewrite (check_run c p _ (size_on w gs)) by (done || apply H). unfold enough at 1 2. rewrite project_pages. case_bool_decide; [|done].
  rewrite andb_true_l. apply IH. intros x Hx. apply Hin. by right.
Qed.
Definition full_config p gs (x : specs_dict * Z) : KVCacheConfig := worker_config p gs (blocks_of p (size_on x.1 gs) x.2) x.
Lemma config_workers_run c p gs ws mems : placed c p gs ws mems →
  for_collect (zip (zip ((λ w, project w <$> gs) <$> ws) ws) mems) (λ '(gs, specs, mem),
    assert_ (bool_decide (total ((λ g, len (layer_names g)) <$> gs) = len specs)) ;;
    get_kv_cache_config_from_groups get_dtype_size gs mem) c = (Ret (full_config p gs <$> zip ws mems), c).
Proof.
  intros H. rewrite zip_proj2. rewrite (for_collect_pure _ _ (λ y, full_config p gs (y.1.2, y.2))).
  - by rewrite <-list_fmap_compose.
  - intros y ([w m] & -> & Hx)%list_elem_of_fmap. cbn [fst snd]. destruct (placed_sized _ _ _ _ _ w H (zip_fst _ _ _ Hx)) as [Hs Hp].
    unfold bind, assert_. rewrite total_len, bool_decide_true. 2: { unfold len. by rewrite Hp, length_fmap. }
    unfold ret. rewrite (config_run c p _ (size_on w gs)) by (done || apply H). done.
Qed.
Lemma shrink_workers_run c p gs ws mems n : placed c p gs ws mems → all_enough c p gs ws mems = true →
  for_collect (full_config p gs <$> zip ws mems) (shrink_config get_dtype_size n) c = (Ret (worker_config p gs n <$> zip ws mems), c).
Proof.
  intros H He. unfold all_enough in He. assert (∀ x, x ∈ zip ws mems → x.1 ∈ ws) as Hin by (intros x; apply zip_fst).
  induction (zip ws mems) as [|[w m] l IH]; [done|]. apply andb_true_iff in He as [He1 He2].
  destruct (placed_sized _ _ _ _ _ w H) as [Hs _]; [by apply (Hin (w, m)); left|]. rewrite !fmap_cons. cbn [for_collect]. unfold bind.
  pose proof (pl_pages _ _ _ _ _ H) as Hpages. cbn [fst snd] in He1.
  assert (enough c p (project w <$> gs) (size_on w gs) m = true) as He by (unfold enough; by rewrite project_pages).
  apply blocks_enough in He; [|done]. rewrite project_pages in He. unfold full_config at 1, worker_config at 1. cbn [fst snd].
  rewrite (shrink_run c p) by (done || lia || by rewrite project_pages). rewrite IH; [done|done|]. intros x Hx. apply Hin. by right.
Qed.

Lemma configs_run c p gs ws mems : placed c p gs ws mems →
  if all_enough c p gs ws mems then
    ∃ n, get_kv_cache_configs get_dtype_size ws mems c = (Ret (worker_config p gs n <$> zip ws mems), c) ∧ pages_needed c gs ≤ n ∧
      ∀ x, x ∈ zip ws mems → n ≤ blocks_of p (size_on x.1 gs) x.2
  else get_kv_cache_configs get_dtype_size ws mems c = (Raise ValueError, c).
Proof.
  intros H. pose proof H as [(d & Hd & Hgs & _) Hg Hw [Hsome Hlen] (Ho & Horig & Hmax) Hpages].
  assert (get_kv_cache_configs get_dtype_size ws mems c = if all_enough c p gs ws mems then
    (min_num_blocks <- py_min (num_blocks <$> (full_config p gs <$> zip ws mems)) ;;
     for_collect (full_config p gs <$> zip ws mems) (shrink_config get_dtype_size min_num_blocks)) c else (Raise ValueError, c)) as Hrun.
  { unfold get_kv_cache_configs. unfold bind at 1. rewrite Hd. unfold bind at 1. rewrite Hgs. unfold bind at 1.
    rewrite (for_collect_pure _ _ (λ w, project w <$> gs)) by (intros w _; by eapply project_run).
    unfold bind at 1, get at 1. rewrite Ho. unfold bind at 1, adjust_memory, ret at 1. rewrite bool_decide_false by done.
    unfold bind at 1, ret at 1. unfold bind at 1. rewrite (check_workers_run c p) by done. destruct (all_enough _ _ _ _ _); [|done].
    unfold bind at 1. by rewrite (config_workers_run c p) by done. }
  rewrite Hrun. destruct (all_enough c p gs ws mems) eqn:He; [|done].
  assert (∀ x, x ∈ zip ws mems → pages_needed c gs ≤ blocks_of p (size_on x.1 gs) x.2) as Hall.
  { intros [w m] Hx. destruct (placed_sized _ _ _ _ _ w H (zip_fst _ _ _ Hx)) as [Hs _]. rewrite <-(project_pages c w). cbn [fst snd].
    apply (blocks_enough c p); [done|]. unfold enough. rewrite project_pages. unfold all_enough in He. rewrite forallb_forall in He.
    by apply list_elem_of_In, He in Hx. }
  assert (num_blocks <$> (full_config p gs <$> zip ws mems) = (λ x, blocks_of p (size_on x.1 gs) x.2) <$> zip ws mems) as ->.
  { by rewrite <-list_fmap_compose. }
  pose proof (shrink_workers_run c p gs ws mems) as Hsh. destruct (zip ws mems) as [|x l] eqn:Hz.
  { destruct ws, mems; done. }
  set (f := λ x : specs_dict * Z, blocks_of p (size_on x.1 gs) x.2) in *. exists (foldr Z.min (f x) (f <$> l)). split_and!.
  - unfold bind. rewrite fmap_cons. cbn [py_min]. unfold ret at 1. by apply Hsh.
  - assert (foldr Z.min (f x) (f <$> l) ∈ f x :: (f <$> l)) as Hm by apply foldr_min_elem. rewrite <-fmap_cons in Hm.
    apply list_elem_of_fmap in Hm as (y & -> & Hy). by apply Hall.
  - intros y Hy. apply (foldr_min_le (f x) (f y)). rewrite <-fmap_cons. by apply list_elem_of_fmap_2.
Qed.

(** ** From the layers of the workers to their configurations *)

(** Layers with pages of [p] bytes and at least one block per request: all of one spec, or
    of types that no single group can hold *)
Record layers_ok c p d : Prop := {
  lo_layer (x : string) s : (x, s) ∈ d → has_page s p ∧ spec_usable c s ∧ spec_merge_ok s ∧ 0 < request_pages c s;
  lo_kind : (∃ s, ∀ (x : string) s', (x, s') ∈ d → s' = s) ∨
    (is_kv_cache_spec_uniform d c = (Ret false, c) ∧ is_uniform_type d c = (Ret false, c));
  lo_hybrid : disable_hybrid_kv_cache_manager c = false
}.
Lemma elem_of_snd {A B} (y : B) (l : list (A * B)) : y ∈ l.*2 → ∃ x, (x, y) ∈ l.
Proof. intros ([x y'] & -> & H)%list_elem_of_fmap. by exists x. Qed.
Lemma one_group_run d s c : od_wf d → d ≠ [] → (∀ (x : string) s', (x, s') ∈ d → s' = s) → spec_merge_ok s → disable_hybrid_kv_cache_manager c = false →
  get_kv_cache_groups get_dtype_size d c = (Ret [mkGroup d.*1 (OneSpec s) false], c).
Proof.
  intros Hwf Hne Hs Hok Hh. unfold get_kv_cache_groups, bind at 1, get at 1. rewrite Hh. unfold bind at 1, ret at 1. rewrite bool_decide_false by done.
  assert (d.*2 = replicate (length d) s) as Hrep.
  { clear -Hs. induction d as [|[n s'] d IH]; [done|]. rewrite fmap_cons. cbn [length replicate]. rewrite IH by (intros n0 s0 Hin; apply (Hs n0); by right).
    f_equal. apply (Hs n). by left. }
  assert (is_kv_cache_spec_uniform d c = (Ret true, c)) as Hu.
  { unfold is_kv_cache_spec_uniform. rewrite Hrep. destruct d; [done|]. unfold try_except, bind. cbn [length]. by rewrite merge_const. }
  unfold bind at 1. rewrite Hu. destruct (create_groups_run d [d.*1] c Hwf) as (gs & Hrun & Hall).
  { intros x ->%list_elem_of_singleton. split; [by destruct d|]. exists s. split; [done|]. intros n ([n' s'] & -> & Hin)%list_elem_of_fmap.
    by rewrite <-(Hs _ _ Hin). }
  rewrite Hrun. destruct d as [|[n s'] d]; [done|]. apply Forall2_cons_inv_l in Hall as ([ns k e] & gs' & (Hn & He & s0 & Hk & Hd) & ->%Forall2_nil_inv_l & ->).
  simpl in Hn, He, Hk. subst. assert (s0 = s) as ->; [|done]. apply (Hs n), Hd. by left.
Qed.
Lemma hybrid_groups_run d c p : layers_ok c p d → is_kv_cache_spec_uniform d c = (Ret false, c) → is_uniform_type d c = (Ret false, c) → d ≠ [] →
  get_kv_cache_groups get_dtype_size d c = _get_kv_cache_groups_uniform_page_size d c.
Proof.
  intros [Hl _ Hh] Hu Ht Hne. assert (∀ s, s ∈ d.*2 → merges_plainly s = true ∧ has_page s p) as Hs.
  { intros s (n & Hin)%elem_of_snd. destruct (Hl n s Hin) as (? & _ & (? & _) & _). done. }
  unfold get_kv_cache_groups, bind at 1, get at 1. rewrite Hh. unfold bind at 1, ret at 1. rewrite bool_decide_false by done.
  unfold bind at 1. rewrite Hu. unfold bind at 1, from_specs, bind at 1. rewrite Ht. unfold ret at 1. unfold bind at 1, group_and_unify_kv_cache_specs.
  assert (existsb is_swa_mla d.*2 = false) as ->.
  { apply not_true_iff_false. intros (s & Hin & Hx)%existsb_exists. destruct (Hs s) as [Hm _]; [by apply list_elem_of_In|].
    unfold merges_plainly in Hm. rewrite Hx, orb_true_r in Hm. done. }
  cbn [negb]. unfold ret at 1. assert (∀ q, q ∈ d → is_hidden q.2 = false) as Hhid.
  { intros q Hq. destruct (Hs q.2) as [Hm _]; [by apply list_elem_of_fmap_2|]. by destruct q.2. }
  assert (filter (λ q, is_hidden q.2 = false) d = d) as -> by (by apply filter_all).
  assert (filter (λ q, is_hidden q.2 = true) d = []) as ->.
  { apply filter_none. intros q Hq. by rewrite (Hhid q Hq). }
  unfold bind at 1, unify_kv_cache_spec_page_size, bind at 1. rewrite (for_collect_pure _ _ (λ _, p)) by (intros s Hin; apply (Hs s Hin)).
  rewrite bool_decide_true; [|].
  - unfold ret at 1, bind at 1. destruct (_get_kv_cache_groups_uniform_page_size d c) as [[]]; done.
  - assert ((λ _, p) <$> d.*2 = replicate (length d) p) as -> by (clear; induction d as [|x d IH]; [done|]; rewrite !fmap_cons, IH; done).
    destruct d; [done|]. cbn [length]. rewrite dups_const. simpl. lia.
Qed.
Lemma layers_groups_run c p d : od_wf d → d ≠ [] → layers_ok c p d →
  ∃ gs, get_kv_cache_groups get_dtype_size d c = (Ret gs, c) ∧ concat (layer_names <$> gs) ≡ₚ d.*1 ∧
    ∀ g, g ∈ gs → layer_names g ≠ [] ∧ ∃ s, kv_cache_spec g = OneSpec s ∧ ∀ x, x ∈ layer_names g → (x, s) ∈ d.
Proof.
  intros Hwf Hne Hl. destruct (lo_kind _ _ _ Hl) as [(s & Hs)|[Hu Ht]].
  - exists [mkGroup d.*1 (OneSpec s) false]. split_and!.
    + apply one_group_run; [done..| |apply Hl]. destruct d as [|[n s'] d]; [done|]. assert ((n, s') ∈ (n, s') :: d) as Hin by by left.
      rewrite <-(Hs n s' Hin). by apply (lo_layer _ _ _ Hl n).
    + simpl. by rewrite app_nil_r.
    + intros g ->%list_elem_of_singleton. split; [by destruct d|]. exists s. split; [done|]. simpl. intros x ([x' s'] & -> & Hin)%list_elem_of_fmap.
      by rewrite <-(Hs _ _ Hin).
  - rewrite (hybrid_groups_run d c p) by done. destruct (uniform_page_groups_run d c) as (gs & size & Hrun & Hp & _ & Hg); [done|done| |].
    { intros n s Hin. by apply (lo_layer _ _ _ Hl n). }
    exists gs. split_and!; [done|done|]. intros g Hin. destruct (Hg g Hin) as (Hlen & _ & ?). split; [|done]. intros Hnil. rewrite Hnil in Hlen. by destruct Hlen.
Qed.

(** A model that is spread over workers *)
Record deployment c p d (ws : list specs_dict) (mems : list Z) : Prop := {
  dp_merged : merge_worker_specs ws c = (Ret d, c);
  dp_layers : layers_ok c p d;
  dp_workers w : w ∈ ws → w ≠ [] ∧ od_wf w;
  dp_some : ws ≠ [] ∧ length mems = length ws;
  dp_plain : num_gpu_blocks_override c = None ∧ original_max_model_len c ≠ -1 ∧ 1 ≤ max_model_len c
}.
Lemma total_pos {A} (f : A → Z) (l : list A) : l ≠ [] → (∀ x, x ∈ l → 0 < f x) → 0 < total (f <$> l).
Proof.
  intros Hne H. destruct l as [|x l]; [done|]. clear Hne. rewrite fmap_cons. unfold total. cbn [foldr].
  assert (0 < f x) by (apply H; by left). assert (0 ≤ foldr Z.add 0 (f <$> l)); [|lia].
  assert (∀ y, y ∈ l → 0 < f y) as Hl by (intros y Hy; apply H; by right). clear H. induction l as [|y l IH]; [done|].
  rewrite fmap_cons. cbn [foldr]. assert (0 < f y) by (apply Hl; by left). assert (0 ≤ foldr Z.add 0 (f <$> l)); [|lia].
  apply IH. intros z Hz. apply Hl. by right.
Qed.
Lemma deployment_placed c p d ws mems gs : deployment c p d ws mems → get_kv_cache_groups get_dtype_size d c = (Ret gs, c) →
  concat (layer_names <$> gs) ≡ₚ d.*1 →
  (∀ g, g ∈ gs → layer_names g ≠ [] ∧ ∃ s, kv_cache_spec g = OneSpec s ∧ ∀ x, x ∈ layer_names g → (x, s) ∈ d) → d ≠ [] → placed c p gs ws mems.
Proof.
  intros [Hd Hl Hw Hs Hc] Hgs Hp Hg Hne. assert (∀ g, g ∈ gs → group_ok c p g ∧ 0 < group_pages c g) as Hok.
  { intros g Hin. destruct (Hg g Hin) as (Hn & s & Hk & Hx). destruct (layer_names g) as [|x l]; [done|].
    destruct (lo_layer _ _ _ Hl x s) as (? & ? & _ & Hpages); [apply Hx; by left|]. split; [by exists s|]. unfold group_pages. by rewrite Hk. }
  split; [by exists d|by apply Hok|done..|]. apply total_pos; [|by apply Hok]. intros ->. simpl in Hp. apply Permutation_nil_l in Hp. by destruct d.
Qed.

(** One configuration of a worker: [n] blocks, every layer in exactly one tensor, every
    tensor as large as [n] pages, within the memory *)
Record config_fits p n (x : specs_dict * Z) (config : KVCacheConfig) : Prop := {
  cf_blocks : num_blocks config = n;
  cf_layers : concat (shared_by <$> kv_cache_tensors config) ≡ₚ x.1.*1;
  cf_sizes t : t ∈ kv_cache_tensors config → size t = p * n;
  cf_memory : total (size <$> kv_cache_tensors config) ≤ x.2
}.
Lemma worker_config_fits c p gs ws mems n x : placed c p gs ws mems → x ∈ zip ws mems → enough c p gs (size_on x.1 gs) x.2 = true →
  n ≤ blocks_of p (size_on x.1 gs) x.2 → config_fits p n x (worker_config p gs n x).
Proof.
  intros H Hx [Hm _]%bool_decide_eq_true Hn. destruct (placed_sized _ _ _ _ _ _ H (zip_fst _ _ _ Hx)) as [Hs Hp].
  pose proof (sized_page _ _ _ _ Hs). pose proof (sd_pos _ _ _ _ Hs). split; [done| | |]; unfold worker_config; cbn [kv_cache_tensors].
  - rewrite tensors_layers by apply Hs. done.
  - apply tensors_sizes.
  - rewrite tensors_total by done. etrans; [|by apply (blocks_fit p (size_on x.1 gs) x.2); try lia]. apply Z.mul_le_mono_nonneg_l; [nia|done].
Qed.

(** The scheduler gets the configuration of the first worker. *)
Lemma scheduler_config_run c p gs ws mems n : placed c p gs ws mems →
  ∃ w mem, head (zip ws mems) = Some (w, mem) ∧
    generate_scheduler_kv_cache_config (worker_config p gs n <$> zip ws mems) c = (Ret (worker_config p gs n (w, mem)), c).
Proof.
  intros [_ Hg _ [Hsome Hlen] _ _]. destruct ws as [|w ws], mems as [|mem mems]; [done..|]. exists w, mem. split; [done|].
  cbn [zip zip_with]. rewrite fmap_cons. unfold generate_scheduler_kv_cache_config, of_option. cbn [head]. unfold ret at 1, bind at 1, assert_, bind at 1.
  rewrite forallb_const.
  2: { intros k Hk. apply bool_decide_eq_true. rewrite <-fmap_cons in Hk. apply list_elem_of_fmap in Hk as (x & -> & _). done. }
  unfold ret at 1, bind. rewrite (for_collect_pure _ _ id), list_fmap_id; [done|].
  intros g (g0 & -> & Hin)%list_elem_of_fmap. destruct (Hg g0 Hin) as (s & Hs & _). cbn [project kv_cache_spec]. by rewrite Hs.
Qed.

Lemma deployment_run c p d ws mems : deployment c p d ws mems →
  ∃ gs, get_kv_cache_groups get_dtype_size d c = (Ret gs, c) ∧ concat (layer_names <$> gs) ≡ₚ d.*1 ∧
    if all_enough c p gs ws mems then
      ∃ n configs, get_kv_cache_configs get_dtype_size ws mems c = (Ret configs, c) ∧ pages_needed c gs ≤ n ∧
        Forall2 (config_fits p n) (zip ws mems) configs ∧
        ∃ sched, generate_scheduler_kv_cache_config configs c = (Ret sched, c) ∧ num_blocks sched = n ∧ head configs = Some sched
    else get_kv_cache_configs get_dtype_size ws mems c = (Raise ValueError, c).
Proof.
  intros H. pose proof H as [Hd Hl Hw [Hsome _] _]. destruct (merge_worker_inv ws c d Hd) as [Hwf Hx]. assert (d ≠ []) as Hne.
  { intros ->. destruct ws as [|w ws]; [done|]. destruct (Hw w) as [Hwn _]; [by left|]. destruct w as [|[n s] w]; [done|].
    apply (elem_of_nil n). apply Hx. by left. }
  destruct (layers_groups_run c p d Hwf Hne Hl) as (gs & Hgs & Hp & Hg). pose proof (deployment_placed _ _ _ _ _ _ H Hgs Hp Hg Hne) as Hpl.
  exists gs. split_and!; [done..|]. pose proof (configs_run c p gs ws mems Hpl) as Hrun. destruct (all_enough c p gs ws mems) eqn:He; [|done].
  destruct Hrun as (n & Hrun & Hn & Hb). exists n, (worker_config p gs n <$> zip ws mems). split_and!; [done..| |].
  2: { destruct (scheduler_config_run c p gs ws mems n Hpl) as (w & mem & Hh & Hsch). exists (worker_config p gs n (w, mem)). split_and!; [done..|].
       by rewrite head_lookup, list_lookup_fmap, <-head_lookup, Hh. }
  apply Forall2_fmap_r, Forall_Forall2_diag, Forall_forall. intros x Hin. eapply worker_config_fits; [done..| |by apply Hb].
  unfold all_enough in He. rewrite forallb_forall in He. by apply He, list_elem_of_In.
Qed.

(** C17: [get_kv_cache_configs] for layers of one page size (no MLA formats, no sliding
    window under decode context parallelism) that are all of one spec or of types no single
    group can hold, with the hybrid manager enabled, no override of the
    number of blocks and no automatic context length: the groups are those of
    [get_kv_cache_groups] and hold every layer exactly once. If the memory of every worker
    holds what [max_memory_usage_bytes] of the specs counts for one request of
    [max_model_len] tokens, all workers get the same number of blocks, at least the blocks
    so counted over all groups (the null block is not among them, and a Quest layer counts
    its GPU budget only); every layer of a worker lies in exactly one of its tensors, every
    tensor has the size of that many pages, the tensors fit the worker's memory, and
    [generate_scheduler_kv_cache_config] gives the scheduler the same number of blocks.
    Otherwise a [ValueError] is raised. *)
Theorem kv_cache_configs_correct c p d ws mems : deployment c p d ws mems →
  ∃ gs, get_kv_cache_groups get_dtype_size d c = (Ret gs, c) ∧ concat (layer_names <$> gs) ≡ₚ d.*1 ∧
    if all_enough c p gs ws mems then
      ∃ n configs, get_kv_cache_configs get_dtype_size ws mems c = (Ret configs, c) ∧ pages_needed c gs ≤ n ∧
        Forall2 (config_fits p n) (zip ws mems) configs ∧
        ∃ sched, generate_scheduler_kv_cache_config configs c = (Ret sched, c) ∧ num_blocks sched = n ∧ head configs = Some sched
    else get_kv_cache_configs get_dtype_size ws mems c = (Raise ValueError, c).
Proof. apply deployment_run. Qed.
End workers.
