(* ===== verification/KVConfigExamples.v ===== *)
(** * The KV-cache configuration on concrete models

    A hybrid model on two workers, for which the theorems are applied, and runs that show
    where the sizing and the merging of specs do not do what they mean to. *)

From S2P Require Import Prelude OrderedDict KVSpec KVConfig KVConfigProps KVConfigGroups KVConfigWorkers.

Open Scope Z_scope.

(** A dtype is given by the bytes of its elements. *)
Definition sz (d : Z) : Z := d.
Definition heads : AttentionSpec := mkAttention 16 1 8 2 NONE None.
Definition full (v : Z) : KVCacheSpec := FullAttentionSpec heads (mkFull v None None).
Definition window (w : Z) : KVCacheSpec := SlidingWindowSpec heads w 8.
Definition quest : KVCacheSpec := QuestKVCacheSpec heads 3.
Definition conf : VllmConfig := mkVllm 100 100 64 0 1 1 "none" None false false.

(** ** A hybrid model on two workers *)
Definition worker0 : specs_dict := [("l0", full 8); ("l1", window 32); ("l2", window 32)].
Definition worker1 : specs_dict := [("l3", full 8); ("l4", window 32)].
Definition model : specs_dict := worker0 ++ worker1.

Lemma model_wf : od_wf model.
Proof. apply (bool_decide_unpack _). vm_compute. exact I. Qed.
Lemma page_of (s : KVCacheSpec) (w : Z) : s = full 8 ∨ s = window w → has_page sz s 512.
Proof. intros [-> | ->]; (split; [done|done|intros c; reflexivity]). Qed.
Lemma model_layers n s : (n, s) ∈ model → s = full 8 ∨ s = window 32.
Proof. intros H. unfold model, worker0, worker1 in H. simpl in H. repeat (apply elem_of_cons in H as [[= -> ->]|H]; [tauto|]). by apply elem_of_nil in H. Qed.
Lemma model_merge n s : (n, s) ∈ model → spec_merge_ok s.
Proof. intros [-> | ->]%model_layers; (split; [done|]); intros f [= <-]; by left. Qed.
Lemma model_layers_ok : layers_ok sz conf 512 model.
Proof.
  split; [|right; split; vm_compute; reflexivity|done]. intros n s H. pose proof (model_merge n s H) as Hm. apply model_layers in H.
  split_and!; [by eapply page_of| |done|]; destruct H as [-> | ->]; done.
Qed.
Lemma model_deployment mems : length mems = 2%nat → deployment sz conf 512 model [worker0; worker1] mems.
Proof.
  intros Hl. split; [vm_compute; reflexivity|apply model_layers_ok| |done|done].
  intros w [->|[->|[]%elem_of_nil]%elem_of_cons]%elem_of_cons; (split; [done|]); apply (bool_decide_unpack _); vm_compute; exact I.
Qed.

Definition model_groups : list KVCacheGroupSpec :=
  [mkGroup ["l0"; "l3"] (OneSpec (full 8)) false; mkGroup ["l1"; "l4"] (OneSpec (window 32)) false; mkGroup ["l2"] (OneSpec (window 32)) false].
Lemma model_groups_run : get_kv_cache_groups sz model conf = (Ret model_groups, conf).
Proof. vm_compute. reflexivity. Qed.
Lemma model_enough : all_enough conf 512 model_groups [worker0; worker1] [40000; 18000] = true.
Proof. vm_compute. reflexivity. Qed.
Lemma model_short : all_enough conf 512 model_groups [worker0; worker1] [40000; 10000] = false.
Proof. vm_compute. reflexivity. Qed.
Lemma model_pages : pages_needed conf model_groups = 21.
Proof. vm_compute. reflexivity. Qed.
(** The second worker's memory holds 35 blocks, so all workers get 35; a request needs 21. *)
Example model_blocks : match (get_kv_cache_configs sz [worker0; worker1] [40000; 18000] conf).1 with
  | Ret configs => num_blocks <$> configs = [35; 35] ∧
      concat (kv_cache_tensors <$> configs) = [mkTensor 17920 ["l0"; "l1"; "l2"]; mkTensor 17920 ["l3"; "l4"]]
  | _ => False
  end.
Proof. vm_compute. split; reflexivity. Qed.

Lemma kv_cache_configs_correct_witness : (∃ n configs, get_kv_cache_configs sz [worker0; worker1] [40000; 18000] conf = (Ret configs, conf) ∧ 21 ≤ n ∧
    Forall2 (config_fits 512 n) [(worker0, 40000); (worker1, 18000)] configs) ∧
  get_kv_cache_configs sz [worker0; worker1] [40000; 10000] conf = (Raise ValueError, conf).
Proof.
  split.
  - destruct (kv_cache_configs_correct sz conf 512 model [worker0; worker1] [40000; 18000] (model_deployment [40000; 18000] eq_refl)) as (gs & Hgs & _ & Hrun).
    rewrite model_groups_run in Hgs. injection Hgs as <-. rewrite model_enough, model_pages in Hrun. destruct Hrun as (n & configs & Hr & Hn & Hf & _).
    exists n, configs. split; [exact Hr|split; [exact Hn|exact Hf]].
  - destruct (kv_cache_configs_correct sz conf 512 model [worker0; worker1] [40000; 10000] (model_deployment [40000; 10000] eq_refl)) as (gs & Hgs & _ & Hrun).
    rewrite model_groups_run in Hgs. injection Hgs as <-. rewrite model_short in Hrun. exact Hrun.
Defined.

Lemma layer_groups_correct_witness : ∃ gs size, _get_kv_cache_groups_uniform_page_size model conf = (Ret gs, conf) ∧
  concat (layer_names <$> gs) ≡ₚ model.*1 ∧ ∀ g, g ∈ gs → 0 < len (layer_names g) ≤ size.
Proof.
  destruct (layer_groups_correct model conf model_wf ltac:(done) model_merge) as (gs & size & Hr & Hp & _ & Hg).
  exists gs, size. split; [exact Hr|split; [exact Hp|]]. intros g Hin. destruct (Hg g Hin) as (H & _). exact H.
Defined.

Lemma model_groups_ok : groups_ok sz conf model_groups.
Proof.
  apply (one_page_groups sz conf 512); [done|]. intros g H. unfold model_groups in H.
  repeat (apply elem_of_cons in H as [->|H]; [eexists; split; [reflexivity|]; split; [apply (page_of _ 32); tauto|done]|]). by apply elem_of_nil in H.
Qed.
(** Two layers per group, 15000 bytes: 14 pages, which hold 64 tokens in each group. *)
Lemma estimate_max_model_len_correct_witness : ∃ n, _estimate_max_model_len_from_groups sz model_groups 15000 conf = (Ret n, conf) ∧
  0 ≤ n ≤ 100 ∧ ∀ k, 1 ≤ k ≤ 100 → fits_in sz model_groups conf 15000 k ↔ k ≤ n.
Proof. exact (estimate_max_model_len_correct sz conf model_groups 15000 model_groups_ok ltac:(vm_compute; discriminate)). Defined.
Example model_length : _estimate_max_model_len_from_groups sz model_groups 15000 conf = (Ret 64, conf).
Proof. vm_compute. reflexivity. Qed.

(** ** Runs that do not do what they mean to *)

Definition blocks_and_tensors (r : outcome (list KVCacheConfig) * VllmConfig) : option (list (Z * list KVCacheTensor)) :=
  match r.1 with Ret configs => Some ((λ c, (num_blocks c, kv_cache_tensors c)) <$> configs) | _ => None end.
(** Layers whose value heads differ in size merge, as [merge] compares the fields of
    [AttentionSpec] only; the tensor of the second layer has pages of 512 bytes where the
    layer's own spec says 768. *)
Example value_heads_merged :
  blocks_and_tensors (get_kv_cache_configs sz [[("a", full 8); ("b", full 16)]] [20000] conf) =
    Some [(19, [mkTensor (19 * 512) ["a"]; mkTensor (19 * 512) ["b"]])] ∧
  page_size_bytes sz (full 16) conf = (Ret 768, conf).
Proof. vm_compute. split; reflexivity. Qed.
(** A first layer of the Quest kind and another of full attention: the type test knows no
    such spec, so start-up stops; in the other order the layers are told apart. *)
Example quest_first :
  (get_kv_cache_configs sz [[("a", quest); ("b", full 8)]] [20000] conf).1 = Raise NotImplementedError ∧
  is_Some (blocks_and_tensors (get_kv_cache_configs sz [[("a", full 8); ("b", quest)]] [20000] conf)).
Proof. vm_compute. split; [reflexivity|eexists; reflexivity]. Qed.
(** The start-up test counts the GPU budget of one Quest request, 3 blocks or 48 tokens,
    so a configuration for 100 tokens passes with a pool of 3 blocks. *)
Example quest_under_provisioned :
  blocks_and_tensors (get_kv_cache_configs sz [[("a", quest)]] [1536] conf) = Some [(3, [mkTensor 1536 ["a"]])].
Proof. vm_compute. reflexivity. Qed.
(** Automatic fitting gives a context of 48 tokens to a pool of 3 blocks of 16, of which the
    null block is one. *)
Definition auto : VllmConfig := mkVllm 100 (-1) 64 0 1 1 "none" None false false.
Example null_block_not_counted :
  let r := get_kv_cache_configs sz [[("a", full 8)]] [1536] auto in
  blocks_and_tensors r = Some [(3, [mkTensor 1536 ["a"]])] ∧ max_model_len r.2 = 48.
Proof. vm_compute. split; reflexivity. Qed.
(** Two full-attention windows: the test for a uniform model raises instead of answering. *)
Example two_windows_raise :
  (is_kv_cache_spec_uniform [("a", FullAttentionSpec heads (mkFull 8 (Some 32) None)); ("b", FullAttentionSpec heads (mkFull 8 (Some 64) None))] conf).1 =
  Raise ValueError.
Proof. vm_compute. reflexivity. Qed.
(** A chunked layer loses its quantisation when it becomes full attention, a window layer
    does not; so the page size changes. *)
Example chunked_loses_quant :
  let a := mkAttention 16 1 8 1 INT8_PER_TOKEN_HEAD None in
  match (unify_spec sz None (ChunkedLocalAttentionSpec a 32) conf).1, (unify_spec sz None (SlidingWindowSpec a 32 8) conf).1 with
  | Ret s, Ret s' => kv_quant_mode <$> attention s = Some NONE ∧ kv_quant_mode <$> attention s' = Some INT8_PER_TOKEN_HEAD
  | _, _ => False
  end.
Proof. vm_compute. split; reflexivity. Qed.
