(* ===== verification/Raises.v ===== *)
(** * Programs that may raise what the components they call raise

    [wpx F m s Q]: run from [s], [m] either returns and [Q] holds of the result and the
    state, or raises an exception of [F]. With [F] empty it is [wp]. The scheduler is
    verified for every [F]: it adds no exception to those of the managers it calls. *)

From S2P Require Import Prelude.

Definition wpx {S A} (F : exn → Prop) (m : M S A) (s : S) (Q : A → S → Prop) : Prop :=
  match m s with (Ret a, s') => Q a s' | (Raise e, _) => F e end.

Section rules.
Context {S : Type} (F : exn → Prop).
Implicit Types (s : S).

Lemma wpx_ret {A} (a : A) s (Q : A → S → Prop) : Q a s → wpx F (ret a) s Q.
Proof. done. Qed.
Lemma wpx_bind {A B} (m : M S A) (k : A → M S B) s Q :
  wpx F m s (λ a s', wpx F (k a) s' Q) → wpx F (bind m k) s Q.
Proof. unfold wpx, bind. by destruct (m s) as [[a|e] s']. Qed.
Lemma wpx_get s (Q : S → S → Prop) : Q s s → wpx F get s Q.
Proof. done. Qed.
Lemma wpx_gets {A} (f : S → A) s (Q : A → S → Prop) : Q (f s) s → wpx F (gets f) s Q.
Proof. done. Qed.
Lemma wpx_modify (f : S → S) s (Q : unit → S → Prop) : Q tt (f s) → wpx F (modify f) s Q.
Proof. done. Qed.
Lemma wpx_assert (b : bool) s (Q : unit → S → Prop) : b = true → Q tt s → wpx F (assert_ b) s Q.
Proof. by intros ->. Qed.
Lemma wpx_of_option {A} e (o : option A) a s (Q : A → S → Prop) : o = Some a → Q a s → wpx F (of_option e o) s Q.
Proof. by intros ->. Qed.
Lemma wpx_of_outcome {A} (o : outcome A) a s (Q : A → S → Prop) : o = Ret a → Q a s → wpx F (of_outcome o) s Q.
Proof. by intros ->. Qed.
Lemma wpx_mono {A} (m : M S A) s (Q Q' : A → S → Prop) :
  wpx F m s Q → (∀ a s', Q a s' → Q' a s') → wpx F m s Q'.
Proof. unfold wpx. destruct (m s) as [[a|e] s']; naive_solver. Qed.
Lemma wpx_zoom {T A} (proj : S → T) upd (m : M T A) s (Q : A → S → Prop) :
  wpx F m (proj s) (λ a t, Q a (upd t s)) → wpx F (zoom proj upd m) s Q.
Proof. unfold wpx, zoom. by destruct (m (proj s)) as [[a|e] t]. Qed.
Lemma wpx_run {A} (m : M S A) s (Q : A → S → Prop) a s' : m s = (Ret a, s') → Q a s' → wpx F m s Q.
Proof. unfold wpx. by intros ->. Qed.
Lemma wpx_wp {A} (m : M S A) s (Q : A → S → Prop) : wp m s Q → wpx F m s Q.
Proof. unfold wp, wpx. by destruct (m s) as [[a|e] s']. Qed.

(** Loops: an invariant of the elements done, in the order of the list *)
Lemma wpx_for_each {A} (xs : list A) (body : A → M S unit) s (I : list A → S → Prop) (Q : unit → S → Prop) :
  I [] s →
  (∀ done x todo s, xs = done ++ x :: todo → I done s → wpx F (body x) s (λ _ s', I (done ++ [x]) s')) →
  (∀ s, I xs s → Q tt s) →
  wpx F (for_each xs body) s Q.
Proof.
  intros H0 Hstep Hfin.
  enough (∀ todo done s, xs = done ++ todo → I done s → wpx F (for_each todo body) s Q) as H by by apply (H xs []).
  clear s H0. intros todo. induction todo as [|x todo IH]; intros done s -> Hs; simpl.
  - apply Hfin. by rewrite app_nil_r.
  - apply wpx_bind. eapply wpx_mono; [by eapply Hstep|].
    intros [] s' Hs'. apply (IH (done ++ [x])); [by rewrite <-app_assoc|done].
Qed.
(** A comprehension that reads or changes the state within an invariant *)
Lemma wpx_for_collect {A B} (xs : list A) (body : A → M S B) s (I : S → Prop) (R : A → B → Prop) (Q : list B → S → Prop) :
  I s →
  (∀ x s, x ∈ xs → I s → wpx F (body x) s (λ b s', I s' ∧ R x b)) →
  (∀ bs s, I s → Forall2 R xs bs → Q bs s) →
  wpx F (for_collect xs body) s Q.
Proof.
  intros Hs Hstep. revert s Hs Q. induction xs as [|x xs IH]; intros s Hs Q HQ; simpl; [by apply HQ|].
  apply wpx_bind. eapply wpx_mono; [apply Hstep; [by left|done]|]. intros b s' [Hs' Hb].
  apply wpx_bind. apply IH; [intros; apply Hstep; [by right|done]|done|].
  intros bs s'' Hs'' Hbs. apply HQ; [done|by constructor].
Qed.
End rules.

(** One primitive step; calls and branches are left to the proof. *)
Ltac wpx_step :=
  lazymatch goal with
  | |- wpx _ (bind _ _) _ _ => apply wpx_bind
  | |- wpx _ (ret _) _ _ => apply wpx_ret
  | |- wpx _ get _ _ => apply wpx_get
  | |- wpx _ (gets _) _ _ => apply wpx_gets
  | |- wpx _ (modify _) _ _ => apply wpx_modify
  | |- wpx _ (zoom _ _ _) _ _ => apply wpx_zoom
  end; cbv beta.
Ltac wpx_steps := repeat wpx_step.
