(* ===== verification/SchedQueue.v ===== *)
(** * The scheduler's queues, of either policy

    [RequestQueue] of src/vllm/v1/core/sched/request_queue.py as the scheduler uses it,
    and what it relies on: up to the order, a queue is the multiset of its requests;
    [peek] and [pop] give the same one. *)

From S2P Require Import Prelude RequestQueue RequestQueueProps RequestQueueRefine.

Open Scope Z_scope.

(** ** Queues of either policy *)
Definition q_items (q : request_queue) : list Request :=
  match q with FCFSQueue l => l | PriorityQueue h => PriorityRequestQueue.heap h end.
Definition q_nonempty (q : request_queue) : bool := bool_decide (q_items q ≠ []).
Definition on_queue {A} (f : M FCFSRequestQueue.t A) (p : M PriorityRequestQueue.t A) : M request_queue A := λ q,
  match q with
  | FCFSQueue l => let '(o, l') := f l in (o, FCFSQueue l')
  | PriorityQueue h => let '(o, h') := p h in (o, PriorityQueue h')
  end.
Definition q_add (r : Request) : M request_queue unit :=
  on_queue (FCFSRequestQueue.add_request r) (PriorityRequestQueue.add_request r).
Definition q_pop : M request_queue Request := on_queue FCFSRequestQueue.pop_request PriorityRequestQueue.pop_request.
Definition q_peek : M request_queue Request := on_queue FCFSRequestQueue.peek_request PriorityRequestQueue.peek_request.
Definition q_prepend (r : Request) : M request_queue unit :=
  on_queue (FCFSRequestQueue.prepend_request r) (PriorityRequestQueue.prepend_request r).
Definition q_prepend_requests (l : list Request) : M request_queue unit :=
  on_queue (FCFSRequestQueue.prepend_requests l) (PriorityRequestQueue.prepend_requests l).
Definition q_remove_requests (l : list Request) : M request_queue unit :=
  on_queue (FCFSRequestQueue.remove_requests l) (PriorityRequestQueue.remove_requests l).
Definition q_iter (q : request_queue) : list Request :=
  match q with FCFSQueue l => FCFSRequestQueue.iter l | PriorityQueue h => PriorityRequestQueue.iter h end.
(** A mutation of a request shows in the queues that hold the object. *)
Definition q_rekey (r : Request) (q : request_queue) : request_queue :=
  let f x := if bool_decide (oid x = oid r) then r else x in
  match q with
  | FCFSQueue l => FCFSQueue (f <$> l)
  | PriorityQueue h => PriorityQueue (PriorityRequestQueue.mk (f <$> PriorityRequestQueue.heap h))
  end.


(** ** What the queues promise *)
Definition q_wf (p : SchedulingPolicy) (q : request_queue) : Prop :=
  match q, p with
  | FCFSQueue _, FCFS => True
  | PriorityQueue h, PRIORITY => heap_from request_lt 0 (PriorityRequestQueue.heap h)
  | _, _ => False
  end.
Notation queue_oids q := (oid <$> q_items q).

Section specs.
Context (p : SchedulingPolicy).
Implicit Types (q : request_queue) (r k : Request).

Lemma q_wf_create : q_wf p (create_request_queue p) ∧ q_items (create_request_queue p) = [].
Proof. destruct p; simpl; split; try done. all: intros c Hc; simpl in Hc; lia. Qed.

Lemma q_add_run r q : q_wf p q → ∃ q', q_add r q = (Ret tt, q') ∧ q_wf p q' ∧ q_items q' ≡ₚ r :: q_items q.
Proof.
  destruct q as [l|[h]], p; simpl; try done; intros Hq.
  - eexists. split_and!; [done..|]. simpl. by rewrite Permutation_app_comm.
  - destruct (heappush_spec request_lt h r Hq). by eexists.
Qed.

Lemma q_prepend_run r q : q_wf p q → ∃ q', q_prepend r q = (Ret tt, q') ∧ q_wf p q' ∧ q_items q' ≡ₚ r :: q_items q.
Proof.
  destruct q as [l|[h]], p; simpl; try done; intros Hq; [by eexists|].
  destruct (heappush_spec request_lt h r Hq). by eexists.
Qed.

Lemma q_peek_run q : q_wf p q → q_nonempty q = true → ∃ k, q_peek q = (Ret k, q) ∧ head (q_items q) = Some k.
Proof.
  unfold q_nonempty. rewrite bool_decide_eq_true. destruct q as [[|k l]|[[|k h]]], p; simpl; try done; by exists k.
Qed.

Lemma q_pop_run q k : q_wf p q → head (q_items q) = Some k →
  ∃ q', q_pop q = (Ret k, q') ∧ q_wf p q' ∧ q_items q ≡ₚ k :: q_items q'.
Proof.
  destruct q as [l|[h]], p; simpl; try done; intros Hq Hk.
  - destruct l as [|k' l]; simplify_eq. simpl in *; simplify_eq. by exists (FCFSQueue l).
  - unfold PriorityRequestQueue.pop_request, bind, get. simpl. pose proof (heappop_spec request_lt h Hq) as Hpop.
    destruct (heappop request_lt h) as [[r h']|]; [|by rewrite Hpop in Hk].
    destruct Hpop as (Hp & Hh & _ & Hr). rewrite Hr in Hk. simplify_eq. by eexists.
Qed.

Lemma prepend_all_run l h :
  heap_from request_lt 0 (PriorityRequestQueue.heap h) →
  ∃ h', PriorityRequestQueue.prepend_requests l h = (Ret tt, h') ∧
    heap_from request_lt 0 (PriorityRequestQueue.heap h') ∧ PriorityRequestQueue.heap h' ≡ₚ l ++ PriorityRequestQueue.heap h.
Proof.
  revert h. induction l as [|r l IH]; intros [h] Hh; [by exists (PriorityRequestQueue.mk h)|].
  destruct (heappush_spec request_lt h r Hh) as [Hh' Hp].
  destruct (IH (PriorityRequestQueue.mk (heappush request_lt h r)) Hh') as (h' & Hrun & ? & Hp').
  exists h'. split_and!; [done..|]. simpl in *. by rewrite Hp', Hp, Permutation_middle.
Qed.

Lemma q_prepend_requests_run l q : q_wf p q →
  ∃ q', q_prepend_requests l q = (Ret tt, q') ∧ q_wf p q' ∧ q_items q' ≡ₚ l ++ q_items q.
Proof.
  destruct q as [q|h], p; simpl; try done; intros Hq.
  - eexists. split_and!; [done..|]. simpl. by rewrite <- Permutation_rev.
  - destruct (prepend_all_run l h Hq) as (h' & Hrun & ? & ?). exists (PriorityQueue h'). unfold q_prepend_requests, on_queue. by rewrite Hrun.
Qed.

Lemma q_iter_perm q : q_wf p q → q_iter q ≡ₚ q_items q.
Proof.
  destruct q as [q|[h]], p; simpl; try done. intros Hq.
  by destruct (drain_spec (S (length h)) h) as [_ ?]; [lia|done|].
Qed.

(** Those that stay are still served in the order they had. *)
Lemma q_remove_requests_run l q : q_wf p q →
  ∃ q', q_remove_requests l q = (Ret tt, q') ∧ q_wf p q' ∧ q_items q' ≡ₚ filter (λ r, ¬ among l r) (q_items q) ∧
    q_iter q' = filter (λ r, ¬ among l r) (q_iter q).
Proof.
  destruct q as [q|[h]], p; simpl; try done; intros Hq; eexists; (split; [done|]); [done|]. simpl.
  set (h' := filter _ h). destruct (heapify_spec request_lt h') as [Hh Hp]. split_and!; [done..|].
  unfold PriorityRequestQueue.iter. simpl. destruct (drain_spec (S (length h)) h) as [Hs1 Hp1]; [lia|done|].
  destruct (drain_spec (S (length (heapify request_lt h'))) (heapify request_lt h')) as [Hs2 Hp2]; [lia|done|].
  apply sorted_unique; [done|eapply sorted_sublist; [apply sublist_filter|exact Hs1]|]. rewrite Hp2, Hp. unfold h'. by rewrite Hp1.
Qed.

Lemma q_nonempty_false q : q_nonempty q = false ↔ q_items q = [].
Proof. unfold q_nonempty. rewrite bool_decide_eq_false. destruct (q_items q); naive_solver. Qed.
End specs.
