(* ===== verification/SchedRequest.v ===== *)
(** * Requests as the scheduler sees them

    [Request], [RequestStatus] and [StreamingUpdate] of src/vllm/v1/request.py, the
    placeholder ranges of src/vllm/multimodal/inputs.py, and the stop conditions of
    core/sched/utils.py. The scheduler shares request objects between its dictionary and
    its queues: an object is its identity [oid] and its fields are in a heap. Events,
    traces and log-probabilities are not modelled. *)

From S2P Require Import Prelude OrderedDict BlockHash.
From S2P Require RequestQueue EncoderCache KVCacheManager.

Open Scope Z_scope.

Inductive RequestStatus :=
  | WAITING
  | WAITING_FOR_STRUCTURED_OUTPUT_GRAMMAR
  | WAITING_FOR_REMOTE_KVS
  | WAITING_FOR_STREAMING_REQ
  | RUNNING
  | PREEMPTED
  | FINISHED_STOPPED
  | FINISHED_LENGTH_CAPPED
  | FINISHED_ABORTED
  | FINISHED_IGNORED
  | FINISHED_ERROR
  | FINISHED_REPETITION.
#[global] Instance status_eq_dec : EqDecision RequestStatus.
Proof. solve_decision. Defined.

(** [status > RequestStatus.PREEMPTED] *)
Definition is_finished (s : RequestStatus) : bool :=
  match s with
  | FINISHED_STOPPED | FINISHED_LENGTH_CAPPED | FINISHED_ABORTED | FINISHED_IGNORED | FINISHED_ERROR
  | FINISHED_REPETITION => true
  | _ => false
  end.
Definition _is_blocked_waiting_status (s : RequestStatus) : bool :=
  match s with
  | WAITING_FOR_STRUCTURED_OUTPUT_GRAMMAR | WAITING_FOR_REMOTE_KVS | WAITING_FOR_STREAMING_REQ => true
  | _ => false
  end.

(** ** Multimodal placeholders *)
Record MMFeature := mkMM {
  mm_identifier : string;
  mm_offset : Z;
  mm_length : Z;
  is_embed : option (list bool)
}.
(** [is_embed.cumsum(dim=0).tolist()] *)
Fixpoint cumsum (acc : Z) (l : list bool) : list Z :=
  match l with
  | [] => []
  | b :: l' => let acc := if b : bool then acc + 1 else acc in acc :: cumsum acc l'
  end.
Definition embeds_cumsum (f : MMFeature) : option (list Z) := cumsum 0 <$> is_embed f.
Definition get_num_embeds (f : MMFeature) : Z :=
  match embeds_cumsum f with None => mm_length f | Some c => default 0 (last c) end.
Definition get_embeds_indices_in_range (f : MMFeature) (start_idx end_idx : Z) : outcome (Z * Z) :=
  match embeds_cumsum f with
  | None => Ret (start_idx, end_idx)
  | Some c =>
      match (if bool_decide (0 < start_idx) then list_get c (start_idx - 1) else Some 0),
            (if bool_decide (0 < end_idx) then list_get c (end_idx - 1) else Some 0) with
      | Some a, Some b => Ret (a, b)
      | _, _ => Raise IndexError
      end
  end.

(** ** Requests *)
Record RepetitionDetectionParams := mkRepetition { max_pattern_size : Z; min_pattern_size : Z; min_count : Z }.
(** What is read of [SamplingParams] *)
Record SamplingParams := mkSampling {
  min_tokens : Z;
  eos_token_id : option Z;
  stop_token_ids : list Z;
  repetition_detection : option RepetitionDetectionParams
}.

Record StreamingUpdate := mkUpdate {
  up_mm_features : list MMFeature;
  up_prompt_token_ids : option (list Z);
  up_max_tokens : Z;
  up_arrival_time : Z;
  up_sampling_params : option SamplingParams
}.

(** Fields that never change *)
Record ReqInfo := mkInfo {
  request_id : string;
  client_index : Z;
  priority : Z;
  pooling_params : bool;
  lora_int_id : option Z;
  use_structured_output : bool;
  skip_reading_prefix_cache : bool;
  max_tokens : Z
}.

(** [prompt_token_ids] is present or not: its tokens are the first of [all_token_ids]. *)
Record SRequest := mkReq {
  info : ReqInfo;
  status : RequestStatus;
  arrival_time : Z;
  sampling_params : option SamplingParams;
  hashed : Request;
  has_prompt_token_ids : bool;
  num_prompt_tokens : Z;
  output_token_ids : list Z;
  mm_features : list MMFeature;
  num_output_placeholders : Z;
  async_tokens_to_discard : Z;
  spec_token_ids : list Z;
  num_computed_tokens : Z;
  is_prefill_chunk : bool;
  num_preemptions : Z;
  prefill_stats : bool;
  has_grammar : bool;
  resumable : bool;
  streaming_queue : option (list (option StreamingUpdate))
}.

Definition num_tokens (r : SRequest) : Z := Z.of_nat (length (all_token_ids (hashed r))).
Definition num_tokens_with_spec (r : SRequest) : Z := num_tokens r + Z.of_nat (length (spec_token_ids r)).
Definition num_output_tokens (r : SRequest) : Z := Z.of_nat (length (output_token_ids r)).
Definition has_encoder_inputs (r : SRequest) : bool := bool_decide (mm_features r ≠ []).

Definition set_status x r := mkReq (info r) x (arrival_time r) (sampling_params r) (hashed r) (has_prompt_token_ids r)
  (num_prompt_tokens r) (output_token_ids r) (mm_features r) (num_output_placeholders r) (async_tokens_to_discard r)
  (spec_token_ids r) (num_computed_tokens r) (is_prefill_chunk r) (num_preemptions r) (prefill_stats r) (has_grammar r)
  (resumable r) (streaming_queue r).
Definition set_hashed x r := mkReq (info r) (status r) (arrival_time r) (sampling_params r) x (has_prompt_token_ids r)
  (num_prompt_tokens r) (output_token_ids r) (mm_features r) (num_output_placeholders r) (async_tokens_to_discard r)
  (spec_token_ids r) (num_computed_tokens r) (is_prefill_chunk r) (num_preemptions r) (prefill_stats r) (has_grammar r)
  (resumable r) (streaming_queue r).
Definition set_output x r := mkReq (info r) (status r) (arrival_time r) (sampling_params r) (hashed r) (has_prompt_token_ids r)
  (num_prompt_tokens r) x (mm_features r) (num_output_placeholders r) (async_tokens_to_discard r)
  (spec_token_ids r) (num_computed_tokens r) (is_prefill_chunk r) (num_preemptions r) (prefill_stats r) (has_grammar r)
  (resumable r) (streaming_queue r).
Definition set_placeholders x r := mkReq (info r) (status r) (arrival_time r) (sampling_params r) (hashed r) (has_prompt_token_ids r)
  (num_prompt_tokens r) (output_token_ids r) (mm_features r) x (async_tokens_to_discard r)
  (spec_token_ids r) (num_computed_tokens r) (is_prefill_chunk r) (num_preemptions r) (prefill_stats r) (has_grammar r)
  (resumable r) (streaming_queue r).
Definition set_discard x r := mkReq (info r) (status r) (arrival_time r) (sampling_params r) (hashed r) (has_prompt_token_ids r)
  (num_prompt_tokens r) (output_token_ids r) (mm_features r) (num_output_placeholders r) x
  (spec_token_ids r) (num_computed_tokens r) (is_prefill_chunk r) (num_preemptions r) (prefill_stats r) (has_grammar r)
  (resumable r) (streaming_queue r).
Definition set_spec x r := mkReq (info r) (status r) (arrival_time r) (sampling_params r) (hashed r) (has_prompt_token_ids r)
  (num_prompt_tokens r) (output_token_ids r) (mm_features r) (num_output_placeholders r) (async_tokens_to_discard r)
  x (num_computed_tokens r) (is_prefill_chunk r) (num_preemptions r) (prefill_stats r) (has_grammar r)
  (resumable r) (streaming_queue r).
Definition set_computed x r := mkReq (info r) (status r) (arrival_time r) (sampling_params r) (hashed r) (has_prompt_token_ids r)
  (num_prompt_tokens r) (output_token_ids r) (mm_features r) (num_output_placeholders r) (async_tokens_to_discard r)
  (spec_token_ids r) x (is_prefill_chunk r) (num_preemptions r) (prefill_stats r) (has_grammar r)
  (resumable r) (streaming_queue r).
Definition set_prefill_chunk x r := mkReq (info r) (status r) (arrival_time r) (sampling_params r) (hashed r) (has_prompt_token_ids r)
  (num_prompt_tokens r) (output_token_ids r) (mm_features r) (num_output_placeholders r) (async_tokens_to_discard r)
  (spec_token_ids r) (num_computed_tokens r) x (num_preemptions r) (prefill_stats r) (has_grammar r)
  (resumable r) (streaming_queue r).
Definition set_preemptions x r := mkReq (info r) (status r) (arrival_time r) (sampling_params r) (hashed r) (has_prompt_token_ids r)
  (num_prompt_tokens r) (output_token_ids r) (mm_features r) (num_output_placeholders r) (async_tokens_to_discard r)
  (spec_token_ids r) (num_computed_tokens r) (is_prefill_chunk r) x (prefill_stats r) (has_grammar r)
  (resumable r) (streaming_queue r).
Definition set_resumable x r := mkReq (info r) (status r) (arrival_time r) (sampling_params r) (hashed r) (has_prompt_token_ids r)
  (num_prompt_tokens r) (output_token_ids r) (mm_features r) (num_output_placeholders r) (async_tokens_to_discard r)
  (spec_token_ids r) (num_computed_tokens r) (is_prefill_chunk r) (num_preemptions r) (prefill_stats r) (has_grammar r)
  x (streaming_queue r).
Definition set_streaming x r := mkReq (info r) (status r) (arrival_time r) (sampling_params r) (hashed r) (has_prompt_token_ids r)
  (num_prompt_tokens r) (output_token_ids r) (mm_features r) (num_output_placeholders r) (async_tokens_to_discard r)
  (spec_token_ids r) (num_computed_tokens r) (is_prefill_chunk r) (num_preemptions r) (prefill_stats r) (has_grammar r)
  (resumable r) x.
(** [take_prefill_stats] *)
Definition drop_prefill_stats r := mkReq (info r) (status r) (arrival_time r) (sampling_params r) (hashed r) (has_prompt_token_ids r)
  (num_prompt_tokens r) (output_token_ids r) (mm_features r) (num_output_placeholders r) (async_tokens_to_discard r)
  (spec_token_ids r) (num_computed_tokens r) (is_prefill_chunk r) (num_preemptions r) false (has_grammar r)
  (resumable r) (streaming_queue r).

(** [StreamingUpdate.from_request] *)
Definition update_from_request (r : SRequest) : option StreamingUpdate :=
  if negb (resumable r) then None
  else Some (mkUpdate (mm_features r)
               (if has_prompt_token_ids r then Some (take (Z.to_nat (num_prompt_tokens r)) (all_token_ids (hashed r))) else None)
               (max_tokens (info r)) (arrival_time r) (sampling_params r)).

(** ** The request in the other components *)

(** [id(self)] is [oid]; the queues compare the code points of ids. *)
Fixpoint code_points (s : string) : list Z :=
  match s with EmptyString => [] | String c s' => Z.of_nat (Ascii.nat_of_ascii c) :: code_points s' end.
Definition queue_key (oid : Z) (r : SRequest) : RequestQueue.Request :=
  RequestQueue.mkRequest (priority (info r)) (arrival_time r) (code_points (request_id (info r))) oid.
Definition kv_request (r : SRequest) : KVCacheManager.KRequest :=
  KVCacheManager.mkKRequest (request_id (info r)) (num_computed_tokens r) (num_preemptions r)
    (skip_reading_prefix_cache (info r)) (hashed r).
Definition encoder_feature (f : MMFeature) : EncoderCache.mm_feature :=
  EncoderCache.mkFeature (mm_identifier f) (get_num_embeds f) (mm_offset f) (mm_length f).
Definition encoder_request (r : SRequest) : EncoderCache.request :=
  EncoderCache.mkRequest (request_id (info r)) (encoder_feature <$> mm_features r) (num_computed_tokens r).

(** ** Stopping (core/sched/utils.py) *)

(** The two loops of [_has_repeating_pattern]; Python indexes from the end. *)
Fixpoint same_back (token_ids : list Z) (pattern_len n target : Z) (ms : list Z) : outcome bool :=
  match ms with
  | [] => Ret true
  | m :: ms' =>
      match list_get token_ids (- (pattern_len * m + n)) with
      | None => Raise IndexError
      | Some x => if bool_decide (x ≠ target) then Ret false else same_back token_ids pattern_len n target ms'
      end
  end.
Fixpoint pattern_loop (token_ids : list Z) (pattern_len repetition_min_count : Z) (ns : list Z) : outcome bool :=
  match ns with
  | [] => Ret true
  | n :: ns' =>
      match list_get token_ids (- n) with
      | None => Raise IndexError
      | Some target_token =>
          match same_back token_ids pattern_len n target_token (seqZ 1 (repetition_min_count - 1)) with
          | Ret true => pattern_loop token_ids pattern_len repetition_min_count ns'
          | o => o
          end
      end
  end.
Definition _has_repeating_pattern (token_ids : list Z) (pattern_len repetition_min_count : Z) : outcome bool :=
  pattern_loop token_ids pattern_len repetition_min_count (seqZ 1 pattern_len).

Fixpoint repetition_loop (token_ids : list Z) (count : Z) (lens : list Z) : outcome bool :=
  match lens with
  | [] => Ret false
  | pattern_len :: lens' =>
      if bool_decide (Z.of_nat (length token_ids) < pattern_len * count) then Ret false
      else match _has_repeating_pattern token_ids pattern_len count with
           | Ret false => repetition_loop token_ids count lens'
           | o => o
           end
  end.
Definition check_sequence_repetition (token_ids : list Z) (p : RepetitionDetectionParams) : outcome bool :=
  let lo := if bool_decide (min_pattern_size p ≤ 0) then 1 else min_pattern_size p in
  if bool_decide (max_pattern_size p ≤ 0) || bool_decide (min_count p < 2) || bool_decide (max_pattern_size p < lo)
  then Ret false
  else repetition_loop token_ids (min_count p) (seqZ lo (max_pattern_size p + 1 - lo)).

(** [check_stop]: the new status when the request stops *)
Definition check_stop (r : SRequest) (max_model_len : Z) : outcome (option RequestStatus) :=
  if pooling_params (info r) then Raise AssertionError
  else match sampling_params r with
  | None => Raise AssertionError
  | Some sp =>
      if bool_decide (num_output_tokens r < min_tokens sp) then Ret None
      else match last (output_token_ids r) with
      | None => Raise IndexError
      | Some last_token_id =>
          if bool_decide (Some last_token_id = eos_token_id sp) then Ret (Some FINISHED_STOPPED)
          else if bool_decide (last_token_id ∈ stop_token_ids sp) then Ret (Some FINISHED_STOPPED)
          else if bool_decide (max_model_len ≤ num_tokens r) || bool_decide (max_tokens (info r) ≤ num_output_tokens r)
          then Ret (Some FINISHED_LENGTH_CAPPED)
          else match repetition_detection sp with
               | None => Ret None
               | Some p =>
                   match check_sequence_repetition (output_token_ids r) p with
                   | Raise e => Raise e
                   | Ret true => Ret (Some FINISHED_REPETITION)
                   | Ret false => Ret None
                   end
               end
      end
  end.
