(* ===== verification/SchedStop.v ===== *)
(** * When a request stops

    [check_sequence_repetition] and [check_stop] of src/vllm/v1/core/sched/utils.py. The
    index arithmetic from the end of the tokens finds exactly the texts that end in
    repetitions of one pattern, and never leaves the list. *)

From S2P Require Import Prelude FreeQueue BlockHash SchedRequest.

Open Scope Z_scope.

(** ** Repetitions *)
Section repetition.
Implicit Types (l w : list Z) (p c : Z).

(** The last tokens are [c] copies of one text of [p] tokens. *)
Definition ends_repeating l p c : Prop :=
  ∃ pre w, Z.of_nat (length w) = p ∧ l = pre ++ mjoin (replicate (Z.to_nat c) w).

Lemma to_nat_index (p m n : Z) : 0 ≤ p → 0 ≤ m → 0 ≤ n → Z.to_nat (p * m + n) = (Z.to_nat p * Z.to_nat m + Z.to_nat n)%nat.
Proof. intros. rewrite Z2Nat.inj_add, Z2Nat.inj_mul; nia. Qed.

(** Read from the end: position [n] of each copy agrees. *)
Definition agree l p (m n : Z) : Prop := reverse l !! Z.to_nat (p * m + n) = reverse l !! Z.to_nat n.

Lemma mjoin_replicate_snoc w (c : nat) : mjoin (replicate c w) ++ w = w ++ mjoin (replicate c w).
Proof. induction c as [|c IH]; simpl; [by rewrite app_nil_r|]. by rewrite <- app_assoc, IH. Qed.
Lemma reverse_mjoin w (c : nat) : reverse (mjoin (replicate c w)) = mjoin (replicate c (reverse w)).
Proof. induction c as [|c IH]; simpl; [done|]. by rewrite reverse_app, IH, mjoin_replicate_snoc. Qed.
Lemma length_mjoin_replicate w (c : nat) : length (mjoin (replicate c w)) = (c * length w)%nat.
Proof. induction c as [|c IH]; simpl; [done|]. by rewrite length_app, IH. Qed.

Lemma copies_lookup w (l : list Z) (c : nat) :
  (∀ m n : nat, (m < c)%nat → (n < length w)%nat → l !! (length w * m + n)%nat = w !! n) ↔
  ∃ rest, l = mjoin (replicate c w) ++ rest.
Proof.
  split.
  - revert l. induction c as [|c IH]; intros l Hl; [by exists l|]. simpl.
    assert (take (length w) l = w) as Htake.
    { apply list_eq. intros i. destruct (decide (i < length w)%nat) as [Hi|Hi].
      - rewrite lookup_take_lt by done. rewrite <- (Hl 0%nat i) by lia. f_equal. lia.
      - rewrite lookup_take_ge by lia. symmetry. apply lookup_ge_None. lia. }
    destruct (IH (drop (length w) l)) as [rest Hrest].
    { intros m n Hm Hn. rewrite lookup_drop. rewrite <- (Hl (S m) n) by lia. f_equal. lia. }
    exists rest. rewrite <- app_assoc, <- Hrest. rewrite <- (take_drop (length w) l) at 1. by rewrite Htake.
  - intros [rest ->] m n Hm Hn. revert m Hm. induction c as [|c IH]; intros m Hm; [lia|]. simpl. rewrite <- app_assoc.
    destruct m as [|m].
    + by rewrite lookup_app_l by lia; f_equal; lia.
    + rewrite lookup_app_r by lia. rewrite <- (IH m) by lia. f_equal. lia.
Qed.

Lemma ends_repeating_agree l p c : 0 < p → 2 ≤ c → p * c ≤ Z.of_nat (length l) →
  ends_repeating l p c ↔ ∀ m n, 1 ≤ m < c → 0 ≤ n < p → agree l p m n.
Proof.
  intros Hp Hc Hlen. split.
  - intros (pre & w & Hw & ->) m n Hm Hn. unfold agree. rewrite reverse_app, reverse_mjoin.
    pose proof (proj2 (copies_lookup (reverse w) _ (Z.to_nat c)) (ex_intro _ (reverse pre) eq_refl)) as Hl.
    rewrite length_reverse in Hl. pose proof (Hl (Z.to_nat m) (Z.to_nat n) ltac:(lia) ltac:(lia)) as H1.
    pose proof (Hl 0%nat (Z.to_nat n) ltac:(lia) ltac:(lia)) as H2. rewrite <- H2 in H1.
    transitivity ((mjoin (replicate (Z.to_nat c) (reverse w)) ++ reverse pre) !! (length w * Z.to_nat m + Z.to_nat n)%nat); [f_equal; rewrite to_nat_index by lia; f_equal; f_equal; lia|].
    rewrite H1. f_equal. lia.
  - intros Hag. set (w := take (Z.to_nat p) (reverse l)).
    assert (length w = Z.to_nat p) as Hw by (unfold w; rewrite length_take, length_reverse; nia).
    destruct (proj1 (copies_lookup w (reverse l) (Z.to_nat c))) as [rest Hrest].
    { intros m n Hm Hn. rewrite Hw in *. unfold w. rewrite lookup_take_lt by lia. destruct m as [|m]; [f_equal; lia|].
      pose proof (Hag (Z.of_nat (S m)) (Z.of_nat n) ltac:(lia) ltac:(lia)) as Ha. unfold agree in Ha. rewrite Nat2Z.id, to_nat_index, !Nat2Z.id in Ha by lia. by rewrite <- Ha. }
    exists (reverse rest), (reverse w). split; [rewrite length_reverse; lia|].
    rewrite <- (reverse_involutive l), Hrest, reverse_app. by rewrite reverse_mjoin.
Qed.

(** ** The loops *)
Lemma get_back l n : 0 ≤ n < Z.of_nat (length l) → ∃ x, list_get l (- (n + 1)) = Some x ∧ reverse l !! Z.to_nat n = Some x.
Proof.
  intros Hn. unfold list_get, py_index. rewrite bool_decide_false, bool_decide_true by lia. simpl.
  rewrite reverse_lookup by lia. replace (length l - Datatypes.S (Z.to_nat n))%nat with (Z.to_nat (Z.of_nat (length l) + - (n + 1))) by lia.
  destruct (lookup_lt_is_Some_2 l (Z.to_nat (Z.of_nat (length l) + - (n + 1)))) as [x Hx]; [lia|]. by exists x.
Qed.

Lemma same_back_run l p n x ms : 0 < p → 1 ≤ n ≤ p → reverse l !! Z.to_nat (n - 1) = Some x →
  (∀ m, m ∈ ms → 1 ≤ m ∧ p * m + n ≤ Z.of_nat (length l)) →
  ∃ b, same_back l p n x ms = Ret b ∧ (b = true ↔ ∀ m, m ∈ ms → agree l p m (n - 1)).
Proof.
  intros Hp Hn Hx. induction ms as [|m ms IH]; intros Hms; simpl; [exists true; set_solver|].
  destruct (Hms m) as [Hm Hlen]; [by left|]. destruct (get_back l (p * m + (n - 1))) as (y & Hy & Hry); [nia|].
  replace (- (p * m + n)) with (- (p * m + (n - 1) + 1)) by lia. rewrite Hy.
  assert (agree l p m (n - 1) ↔ y = x) as Hag by (unfold agree; rewrite Hry, Hx; naive_solver).
  case_bool_decide as Hyx; [exists false; set_solver|]. destruct IH as (b & Hb & Hiff); [set_solver|].
  exists b. split; [done|]. rewrite Hiff. setoid_rewrite elem_of_cons. naive_solver.
Qed.

Lemma pattern_loop_run l p c ns : 0 < p → 2 ≤ c → p * c ≤ Z.of_nat (length l) → (∀ n, n ∈ ns → 1 ≤ n ≤ p) →
  ∃ b, pattern_loop l p c ns = Ret b ∧ (b = true ↔ ∀ m n, 1 ≤ m < c → n ∈ ns → agree l p m (n - 1)).
Proof.
  intros Hp Hc Hlen. induction ns as [|n ns IH]; intros Hns; simpl; [exists true; set_solver|].
  destruct (get_back l (n - 1)) as (x & Hx & Hrx); [specialize (Hns n ltac:(by left)); nia|]. rewrite Z.sub_add in Hx. rewrite Hx.
  destruct (same_back_run l p n x (seqZ 1 (c - 1))) as (b & Hb & Hiff); [done|apply Hns; by left|done|..].
  { intros m Hm%elem_of_seqZ. specialize (Hns n ltac:(by left)). nia. }
  rewrite Hb. setoid_rewrite elem_of_seqZ in Hiff. destruct IH as (b' & Hb' & Hiff'); [set_solver|]. destruct b.
  - exists b'. split; [done|]. rewrite Hiff'. split; [|set_solver]. intros H m y Hm [->|Hy]%elem_of_cons; [|by apply H].
    apply Hiff; [done|lia].
  - exists false. split; [done|]. split; [done|]. intros H. apply Hiff. intros m Hm. apply H; [lia|by left].
Qed.

Lemma has_repeating_pattern_run l p c : 0 < p → 2 ≤ c → p * c ≤ Z.of_nat (length l) →
  ∃ b, _has_repeating_pattern l p c = Ret b ∧ (b = true ↔ ends_repeating l p c).
Proof.
  intros Hp Hc Hlen. destruct (pattern_loop_run l p c (seqZ 1 p)) as (b & Hb & Hiff); [done..|intros n Hn%elem_of_seqZ; lia|].
  exists b. split; [done|]. rewrite Hiff, ends_repeating_agree by done. setoid_rewrite elem_of_seqZ. split.
  - intros H m n Hm Hn. replace n with (n + 1 - 1) by lia. apply H; lia.
  - intros H m n Hm Hn. apply H; lia.
Qed.

Lemma repetition_loop_run l c lens lo : 0 < lo → 2 ≤ c → lens = seqZ lo (Z.of_nat (length lens)) →
  ∃ b, repetition_loop l c lens = Ret b ∧ (b = true ↔ ∃ p, p ∈ lens ∧ ends_repeating l p c).
Proof.
  intros Hlo Hc. revert lo Hlo. induction lens as [|p lens IH]; intros lo Hlo Hl; simpl; [exists false; set_solver|].
  rewrite seqZ_cons in Hl by (simpl; lia). injection Hl as -> Hl. replace (Z.pred _) with (Z.of_nat (length lens)) in Hl by (simpl; lia).
  case_bool_decide as Hlen.
  - exists false. split; [done|]. split; [done|]. intros (p & Hp & pre & w & Hw & ->). exfalso.
    assert (lo ≤ p) as Hle. { apply elem_of_cons in Hp as [->|Hp]; [lia|]. rewrite Hl in Hp. apply elem_of_seqZ in Hp. lia. }
    rewrite length_app, length_mjoin_replicate in Hlen. nia.
  - destruct (has_repeating_pattern_run l lo c) as (b & -> & Hb); [lia..|].
    destruct (IH (Z.succ lo)) as (b' & Hb' & Hiff); [lia|done|]. destruct b.
    + exists true. split; [done|]. split; [|done]. intros _. exists lo. split; [by left|by apply Hb].
    + exists b'. split; [done|]. rewrite Hiff. setoid_rewrite elem_of_cons. split; [naive_solver|].
      intros (p & [->|Hp] & He); [|by exists p]. by apply Hb in He.
Qed.

Lemma check_sequence_repetition_run (l : list Z) (params : RepetitionDetectionParams) :
  ∃ b, check_sequence_repetition l params = Ret b ∧
    (b = true ↔ 2 ≤ min_count params ∧
       ∃ p, Z.max 1 (min_pattern_size params) ≤ p ≤ max_pattern_size params ∧ ends_repeating l p (min_count params)).
Proof.
  unfold check_sequence_repetition. cbv zeta.
  replace (if bool_decide (min_pattern_size params ≤ 0) then 1 else min_pattern_size params) with (Z.max 1 (min_pattern_size params)) by (case_bool_decide; lia).
  set (lo := Z.max 1 (min_pattern_size params)). destruct (_ || _) eqn:He.
  - exists false. split; [done|]. split; [done|]. intros (Hc & p & Hp & _). exfalso.
    rewrite !orb_true_iff, !bool_decide_eq_true in He. lia.
  - rewrite !orb_false_iff, !bool_decide_eq_false in He.
    destruct (repetition_loop_run l (min_count params) (seqZ lo (max_pattern_size params + 1 - lo)) lo) as (b & Hb & Hiff); [lia..| |].
    { rewrite length_seqZ. f_equal. lia. }
    exists b. split; [done|]. rewrite Hiff. setoid_rewrite elem_of_seqZ. split.
    + intros (p & Hp & Hrep). split; [lia|]. exists p. split; [lia|done].
    + intros (_ & p & Hp & Hrep). exists p. split; [lia|done].
Qed.
(** C37: the repetition detector answers for every list of tokens and every parameters,
    without leaving the list: [true] exactly when the tokens end in [min_count] copies of
    one text whose length is within the configured sizes. *)
Theorem check_sequence_repetition_correct (l : list Z) (params : RepetitionDetectionParams) :
  ∃ b, check_sequence_repetition l params = Ret b ∧
    (b = true ↔ 2 ≤ min_count params ∧
       ∃ p, Z.max 1 (min_pattern_size params) ≤ p ≤ max_pattern_size params ∧ ends_repeating l p (min_count params)).
Proof. apply check_sequence_repetition_run. Qed.
End repetition.

(** ** [check_stop] *)

(** The rules, for a request with [out] as its outputs and [len] tokens in all. *)
Section rules.
Context (sp : SamplingParams) (max_model_len max_toks len : Z) (out : list Z).

Definition stop_token : Prop := ∃ x, last out = Some x ∧ (eos_token_id sp = Some x ∨ x ∈ stop_token_ids sp).
Definition at_length_limit : Prop := max_model_len ≤ len ∨ max_toks ≤ Z.of_nat (length out).
Definition repeats : Prop := ∃ params p, repetition_detection sp = Some params ∧ 2 ≤ min_count params ∧
  Z.max 1 (min_pattern_size params) ≤ p ≤ max_pattern_size params ∧ ends_repeating out p (min_count params).

(** Nothing stops a request before its minimum of output tokens; then a stop token does,
    then a length limit, then a repetition. *)
Inductive stop_verdict : option RequestStatus → Prop :=
  | verdict_early : Z.of_nat (length out) < min_tokens sp → stop_verdict None
  | verdict_stopped : min_tokens sp ≤ Z.of_nat (length out) → stop_token → stop_verdict (Some FINISHED_STOPPED)
  | verdict_capped : min_tokens sp ≤ Z.of_nat (length out) → ¬ stop_token → at_length_limit → stop_verdict (Some FINISHED_LENGTH_CAPPED)
  | verdict_repeats : min_tokens sp ≤ Z.of_nat (length out) → ¬ stop_token → ¬ at_length_limit → repeats → stop_verdict (Some FINISHED_REPETITION)
  | verdict_on : min_tokens sp ≤ Z.of_nat (length out) → ¬ stop_token → ¬ at_length_limit → ¬ repeats → stop_verdict None.

Lemma verdict_unique res res' : stop_verdict res → stop_verdict res' → res = res'.
Proof. intros H H'. destruct H; inversion H'; subst; try done; exfalso; first [lia|tauto]. Qed.
Lemma verdict_finished st : stop_verdict (Some st) → is_finished st = true.
Proof. by inversion 1. Qed.
Lemma verdict_none : stop_verdict None → Z.of_nat (length out) < min_tokens sp ∨ len < max_model_len ∧ Z.of_nat (length out) < max_toks.
Proof. inversion 1; unfold at_length_limit in *; [by left|right; lia]. Qed.
End rules.

(** [check_stop] answers, and by these rules. *)
Lemma check_stop_run r n sp :
  pooling_params (info r) = false → sampling_params r = Some sp → output_token_ids r ≠ [] →
  ∃ res, check_stop r n = Ret res ∧ stop_verdict sp n (max_tokens (info r)) (num_tokens r) (output_token_ids r) res.
Proof.
  intros Hp Hs Hne. unfold check_stop, num_output_tokens. rewrite Hp, Hs. case_bool_decide as Hmin; [exists None; split; [done|by constructor]|].
  destruct (last (output_token_ids r)) as [x|] eqn:Hl; [|by apply last_None in Hl]. apply Z.nlt_ge in Hmin.
  case_bool_decide as Heos; [eexists; split; [done|]; apply verdict_stopped; [done|]; exists x; auto|].
  case_bool_decide as Hst; [eexists; split; [done|]; apply verdict_stopped; [done|]; exists x; auto|].
  assert (¬ stop_token sp (output_token_ids r)) as Hno by (intros (y & Hy & Ht); rewrite Hl in Hy; simplify_eq; destruct Ht; auto).
  destruct (_ || _) eqn:Hlim.
  { rewrite orb_true_iff, !bool_decide_eq_true in Hlim. eexists. split; [done|]. by apply verdict_capped. }
  rewrite orb_false_iff, !bool_decide_eq_false in Hlim.
  assert (¬ at_length_limit n (max_tokens (info r)) (num_tokens r) (output_token_ids r)) as Hnl by (unfold at_length_limit; lia).
  destruct (repetition_detection sp) as [params|] eqn:Hrep.
  - destruct (check_sequence_repetition_run (output_token_ids r) params) as (b & -> & Hb). destruct b; (eexists; split; [done|]).
    + apply verdict_repeats; [done..|]. destruct (proj1 Hb eq_refl) as (H2 & q & Hq & He). by exists params, q.
    + apply verdict_on; [done..|]. intros (params' & q & Hp' & H2 & Hq & He). rewrite Hrep in Hp'. simplify_eq. by assert (false = true) by (apply Hb; eauto).
  - eexists. split; [done|]. apply verdict_on; [done..|]. intros (params' & q & Hp' & _). congruence.
Qed.
