(* ===== verification/Scheduler.v ===== *)
(** * The scheduler

    [Scheduler] of src/vllm/v1/core/sched/scheduler.py and [AsyncScheduler] of
    core/sched/async_scheduler.py, over the interfaces of the KV-cache manager and of the
    encoder cache manager. Request objects are references into a heap; queues hold what
    they are ordered by (RequestQueue). A KV connector is an object behind an interface;
    the encoder connector is a predicate, its notifications are not modelled. Structured
    output, block hashing and the digests of embeddings are parameters. Routed experts,
    log-probabilities, events, statistics and logging are not modelled; of the output the
    ids and numbers are. *)

From S2P Require Import Prelude OrderedDict FreeQueue BlockHash RequestQueue SchedQueue SchedRequest.
From S2P Require EncoderCache Coordinator KVCacheManager.
Notation KRequest := KVCacheManager.KRequest.
Notation KVCacheBlocks := KVCacheManager.KVCacheBlocks.
Notation request_id r := (SchedRequest.request_id (info r)).

Open Scope Z_scope.

(** ** What the scheduler calls *)
Class KVManager (K : Type) := {
  kv_new_step_starts : M K unit;
  kv_get_computed_blocks : KRequest → M K (KVCacheBlocks * Z);
  kv_allocate_slots : Z → Z → option KVCacheBlocks → Z → Z → bool → Z → bool → M (K * KRequest) (option KVCacheBlocks);
  kv_cache_blocks : Z → M (K * KRequest) unit;
  kv_free : KRequest → M K unit;
  kv_remove_skipped_blocks : string → Z → M K unit;
  kv_evict_blocks : list Z → M K unit;
  kv_reset_prefix_cache : M K bool;
  kv_get_num_common_prefix_blocks : string → M K (list Z);
  kv_take_new_block_ids : M K (list Z);
  kv_get_blocks : string → K → KVCacheBlocks;
  kv_block_ids : K → KVCacheBlocks → list (list Z)
}.

Class EncoderManager (E : Type) := {
  enc_check_and_update_cache : EncoderCache.request → Z → M E bool;
  enc_can_allocate : EncoderCache.request → Z → Z → Z → M E bool;
  enc_allocate : EncoderCache.request → Z → M E unit;
  enc_free : EncoderCache.request → M E unit;
  enc_free_encoder_input : EncoderCache.request → Z → M E unit;
  enc_get_cached_input_ids : EncoderCache.request → E → list Z;
  enc_get_freed_mm_hashes : M E (list string);
  enc_reset : M E unit
}.

Record Connector (C : Type) := mkConnector {
  get_num_new_matched_tokens : SRequest → Z → M C (option Z * bool);
  update_state_after_alloc : SRequest → KVCacheBlocks → Z → M C unit;
  on_new_request : SRequest → M C unit;
  request_finished : SRequest → list Z → M C bool;
  request_finished_all_groups : SRequest → list (list Z) → M C bool;
  update_connector_output : list string → list string → M C unit;
  build_connector_meta : M C unit;
  reset_cache : M C (option bool);
  supports_hma : bool
}.
Arguments get_num_new_matched_tokens {C}.
Arguments update_state_after_alloc {C}.
Arguments on_new_request {C}.
Arguments request_finished {C}.
Arguments request_finished_all_groups {C}.
Arguments update_connector_output {C}.
Arguments build_connector_meta {C}.
Arguments reset_cache {C}.
Arguments supports_hma {C}.

(** The modelled managers *)
#[global] Instance kv_cache_manager (embeds_digest : list Z → bytes) : KVManager KVCacheManager.t := {|
  kv_new_step_starts := KVCacheManager.new_step_starts;
  kv_get_computed_blocks := KVCacheManager.get_computed_blocks;
  kv_allocate_slots := KVCacheManager.allocate_slots embeds_digest;
  kv_cache_blocks := KVCacheManager.cache_blocks embeds_digest;
  kv_free := KVCacheManager.free;
  kv_remove_skipped_blocks := KVCacheManager.remove_skipped_blocks;
  kv_evict_blocks := KVCacheManager.evict_blocks;
  kv_reset_prefix_cache := KVCacheManager.reset_prefix_cache;
  kv_get_num_common_prefix_blocks := KVCacheManager.get_num_common_prefix_blocks;
  kv_take_new_block_ids := KVCacheManager.take_new_block_ids;
  kv_get_blocks := KVCacheManager.get_blocks;
  kv_block_ids m b := default [] (KVCacheManager.get_block_ids (Coordinator.block_pool (KVCacheManager.coordinator m))
                                    (KVCacheManager.num_kv_cache_groups m) b false)
|}.
#[global] Instance encoder_cache_manager : EncoderManager EncoderCache.EncoderCacheManager.t := {|
  enc_check_and_update_cache := EncoderCache.EncoderCacheManager.check_and_update_cache;
  enc_can_allocate := EncoderCache.EncoderCacheManager.can_allocate;
  enc_allocate := EncoderCache.EncoderCacheManager.allocate;
  enc_free := EncoderCache.EncoderCacheManager.free;
  enc_free_encoder_input := EncoderCache.EncoderCacheManager.free_encoder_input;
  enc_get_cached_input_ids := EncoderCache.EncoderCacheManager.get_cached_input_ids;
  enc_get_freed_mm_hashes := EncoderCache.EncoderCacheManager.get_freed_mm_hashes;
  enc_reset := EncoderCache.EncoderCacheManager.reset
|}.
#[global] Instance encoder_decoder_cache_manager : EncoderManager EncoderCache.EncoderDecoderCacheManager.t := {|
  enc_check_and_update_cache := EncoderCache.EncoderDecoderCacheManager.check_and_update_cache;
  enc_can_allocate := EncoderCache.EncoderDecoderCacheManager.can_allocate;
  enc_allocate := EncoderCache.EncoderDecoderCacheManager.allocate;
  enc_free := EncoderCache.EncoderDecoderCacheManager.free;
  enc_free_encoder_input := EncoderCache.EncoderDecoderCacheManager.free_encoder_input;
  enc_get_cached_input_ids := EncoderCache.EncoderDecoderCacheManager.get_cached_input_ids;
  enc_get_freed_mm_hashes := EncoderCache.EncoderDecoderCacheManager.get_freed_mm_hashes;
  enc_reset := EncoderCache.EncoderDecoderCacheManager.reset
|}.

(** ** State *)
Inductive PauseState := UNPAUSED | PAUSED_NEW | PAUSED_ALL.
#[global] Instance pause_eq_dec : EqDecision PauseState.
Proof. solve_decision. Defined.

Record config := mkConfig {
  max_num_running_reqs : Z;
  max_num_scheduled_tokens : Z;
  max_model_len : Z;
  long_prefill_token_threshold : Z;
  enable_chunked_prefill : bool;
  disable_chunked_mm_input : bool;
  policy : SchedulingPolicy;
  use_eagle : bool;
  num_spec_tokens : Z;
  num_lookahead_tokens : Z;
  max_loras : option Z;
  max_num_encoder_input_tokens : Z;
  is_encoder_decoder : bool;
  need_mamba_block_aligned_split : bool;
  cache_block_size : Z;
  sched_block_size : Z;
  scheduler_reserve_full_isl : bool;
  needs_kv_cache_zeroing : bool;
  num_kv_cache_groups : nat;
  recompute_kv_load_failures : bool;
  use_v2_model_runner : bool;
  use_pp : bool;
  async_scheduling : bool
}.

Record t (K E C : Type) := mk {
  cfg : config;
  kv : K;
  encoder : E;
  connector : C;
  objs : gmap Z SRequest;
  requests : list (string * Z);
  waiting : request_queue;
  skipped_waiting : request_queue;
  running : list Z;
  finished_req_ids : gset string;
  finished_req_ids_dict : option (gmap Z (gset string));
  num_waiting_for_streaming_input : Z;
  finished_recving_kv_req_ids : gset string;
  failed_recving_kv_req_ids : gset string;
  prev_step_scheduled_req_ids : gset string;
  pause_state : PauseState
}.
Arguments mk {K E C}.
Arguments cfg {K E C}.
Arguments kv {K E C}.
Arguments encoder {K E C}.
Arguments connector {K E C}.
Arguments objs {K E C}.
Arguments requests {K E C}.
Arguments waiting {K E C}.
Arguments skipped_waiting {K E C}.
Arguments running {K E C}.
Arguments finished_req_ids {K E C}.
Arguments finished_req_ids_dict {K E C}.
Arguments num_waiting_for_streaming_input {K E C}.
Arguments finished_recving_kv_req_ids {K E C}.
Arguments failed_recving_kv_req_ids {K E C}.
Arguments prev_step_scheduled_req_ids {K E C}.
Arguments pause_state {K E C}.

(** The state that [__init__] leaves, over the managers it has made *)
Definition new_scheduler {K E C} (c : config) (kv_cache_manager : K) (encoder_cache_manager : E) (connector : C)
    (include_finished_set : bool) : t K E C :=
  mk c kv_cache_manager encoder_cache_manager connector ∅ [] (create_request_queue (policy c)) (create_request_queue (policy c)) []
    ∅ (if include_finished_set then Some ∅ else None) 0 ∅ ∅ ∅ UNPAUSED.

Section ops.
Context {K E C : Type} `{!KVManager K} `{!EncoderManager E}.
Notation S := (t K E C).
Implicit Types (s : S) (o : Z) (r : SRequest).

(** ** State access *)
Definition with_kv x s : S := mk (cfg s) x (encoder s) (connector s) (objs s) (requests s) (waiting s) (skipped_waiting s) (running s) (finished_req_ids s) (finished_req_ids_dict s) (num_waiting_for_streaming_input s) (finished_recving_kv_req_ids s) (failed_recving_kv_req_ids s) (prev_step_scheduled_req_ids s) (pause_state s).
Definition with_encoder x s : S := mk (cfg s) (kv s) x (connector s) (objs s) (requests s) (waiting s) (skipped_waiting s) (running s) (finished_req_ids s) (finished_req_ids_dict s) (num_waiting_for_streaming_input s) (finished_recving_kv_req_ids s) (failed_recving_kv_req_ids s) (prev_step_scheduled_req_ids s) (pause_state s).
Definition with_connector x s : S := mk (cfg s) (kv s) (encoder s) x (objs s) (requests s) (waiting s) (skipped_waiting s) (running s) (finished_req_ids s) (finished_req_ids_dict s) (num_waiting_for_streaming_input s) (finished_recving_kv_req_ids s) (failed_recving_kv_req_ids s) (prev_step_scheduled_req_ids s) (pause_state s).
Definition with_objs x s : S := mk (cfg s) (kv s) (encoder s) (connector s) x (requests s) (waiting s) (skipped_waiting s) (running s) (finished_req_ids s) (finished_req_ids_dict s) (num_waiting_for_streaming_input s) (finished_recving_kv_req_ids s) (failed_recving_kv_req_ids s) (prev_step_scheduled_req_ids s) (pause_state s).
Definition with_requests x s : S := mk (cfg s) (kv s) (encoder s) (connector s) (objs s) x (waiting s) (skipped_waiting s) (running s) (finished_req_ids s) (finished_req_ids_dict s) (num_waiting_for_streaming_input s) (finished_recving_kv_req_ids s) (failed_recving_kv_req_ids s) (prev_step_scheduled_req_ids s) (pause_state s).
Definition with_waiting x s : S := mk (cfg s) (kv s) (encoder s) (connector s) (objs s) (requests s) x (skipped_waiting s) (running s) (finished_req_ids s) (finished_req_ids_dict s) (num_waiting_for_streaming_input s) (finished_recving_kv_req_ids s) (failed_recving_kv_req_ids s) (prev_step_scheduled_req_ids s) (pause_state s).
Definition with_skipped x s : S := mk (cfg s) (kv s) (encoder s) (connector s) (objs s) (requests s) (waiting s) x (running s) (finished_req_ids s) (finished_req_ids_dict s) (num_waiting_for_streaming_input s) (finished_recving_kv_req_ids s) (failed_recving_kv_req_ids s) (prev_step_scheduled_req_ids s) (pause_state s).
Definition with_running x s : S := mk (cfg s) (kv s) (encoder s) (connector s) (objs s) (requests s) (waiting s) (skipped_waiting s) x (finished_req_ids s) (finished_req_ids_dict s) (num_waiting_for_streaming_input s) (finished_recving_kv_req_ids s) (failed_recving_kv_req_ids s) (prev_step_scheduled_req_ids s) (pause_state s).
Definition with_finished x s : S := mk (cfg s) (kv s) (encoder s) (connector s) (objs s) (requests s) (waiting s) (skipped_waiting s) (running s) x (finished_req_ids_dict s) (num_waiting_for_streaming_input s) (finished_recving_kv_req_ids s) (failed_recving_kv_req_ids s) (prev_step_scheduled_req_ids s) (pause_state s).
Definition with_finished_dict x s : S := mk (cfg s) (kv s) (encoder s) (connector s) (objs s) (requests s) (waiting s) (skipped_waiting s) (running s) (finished_req_ids s) x (num_waiting_for_streaming_input s) (finished_recving_kv_req_ids s) (failed_recving_kv_req_ids s) (prev_step_scheduled_req_ids s) (pause_state s).
Definition with_num_streaming x s : S := mk (cfg s) (kv s) (encoder s) (connector s) (objs s) (requests s) (waiting s) (skipped_waiting s) (running s) (finished_req_ids s) (finished_req_ids_dict s) x (finished_recving_kv_req_ids s) (failed_recving_kv_req_ids s) (prev_step_scheduled_req_ids s) (pause_state s).
Definition with_recved x s : S := mk (cfg s) (kv s) (encoder s) (connector s) (objs s) (requests s) (waiting s) (skipped_waiting s) (running s) (finished_req_ids s) (finished_req_ids_dict s) (num_waiting_for_streaming_input s) x (failed_recving_kv_req_ids s) (prev_step_scheduled_req_ids s) (pause_state s).
Definition with_failed x s : S := mk (cfg s) (kv s) (encoder s) (connector s) (objs s) (requests s) (waiting s) (skipped_waiting s) (running s) (finished_req_ids s) (finished_req_ids_dict s) (num_waiting_for_streaming_input s) (finished_recving_kv_req_ids s) x (prev_step_scheduled_req_ids s) (pause_state s).
Definition with_prev x s : S := mk (cfg s) (kv s) (encoder s) (connector s) (objs s) (requests s) (waiting s) (skipped_waiting s) (running s) (finished_req_ids s) (finished_req_ids_dict s) (num_waiting_for_streaming_input s) (finished_recving_kv_req_ids s) (failed_recving_kv_req_ids s) x (pause_state s).
Definition with_pause x s : S := mk (cfg s) (kv s) (encoder s) (connector s) (objs s) (requests s) (waiting s) (skipped_waiting s) (running s) (finished_req_ids s) (finished_req_ids_dict s) (num_waiting_for_streaming_input s) (finished_recving_kv_req_ids s) (failed_recving_kv_req_ids s) (prev_step_scheduled_req_ids s) x.

(** The fields of an object, and a mutation of it *)
Definition obj o : M S SRequest := s <- get ;; of_option AttributeError (objs s !! o).
Definition mutate o (f : SRequest → SRequest) : M S unit :=
  r <- obj o ;; modify (λ s, with_objs (<[o := f r]> (objs s)) s).
Definition lookup_request (id : string) s : option Z := od_get id (requests s).

(** Calls on the managers; [allocate_slots] and [cache_blocks] also touch the request. *)
Definition on_kv {A} (m : M K A) : M S A := zoom kv with_kv m.
Definition on_encoder {A} (m : M E A) : M S A := zoom encoder with_encoder m.
Definition on_connector {A} (m : M C A) : M S A := zoom connector with_connector m.
Definition on_kv_request {A} o (m : M (K * KRequest) A) : M S A := λ s,
  match objs s !! o with
  | None => (Raise AttributeError, s)
  | Some r =>
      let '(res, (x, k)) := m (kv s, kv_request r) in
      (res, with_objs (<[o := set_hashed (KVCacheManager.hashed k) r]> (objs s)) (with_kv x s))
  end.

(** The two waiting queues *)
Inductive which_queue := Waiting | SkippedWaiting.
Definition queue_of (w : which_queue) s : request_queue :=
  match w with Waiting => waiting s | SkippedWaiting => skipped_waiting s end.
Definition on_which {A} (w : which_queue) (m : M request_queue A) : M S A :=
  match w with
  | Waiting => zoom waiting with_waiting m
  | SkippedWaiting => zoom skipped_waiting with_skipped m
  end.
Definition key_of o : M S Request := r <- obj o ;; ret (queue_key o r).

Definition _enqueue_waiting_request o : M S unit :=
  r <- obj o ;;
  on_which (if _is_blocked_waiting_status (status r) then SkippedWaiting else Waiting) (q_add (queue_key o r)).

Definition _select_waiting_queue_for_scheduling : M S (option which_queue) :=
  s <- get ;;
  match policy (cfg s) with
  | FCFS => ret (if q_nonempty (skipped_waiting s) then Some SkippedWaiting
                 else if q_nonempty (waiting s) then Some Waiting else None)
  | PRIORITY =>
      if q_nonempty (waiting s) && q_nonempty (skipped_waiting s) then
        waiting_req <- on_which Waiting q_peek ;;
        skipped_req <- on_which SkippedWaiting q_peek ;;
        ret (Some (if request_lt waiting_req skipped_req then Waiting else SkippedWaiting))
      else ret (if q_nonempty (waiting s) then Some Waiting
                else if q_nonempty (skipped_waiting s) then Some SkippedWaiting else None)
  end.

Definition _preempt_request o : M S unit :=
  r <- obj o ;;
  assert_ (bool_decide (status r = RUNNING)) ;;
  on_kv (kv_free (kv_request r)) ;;
  on_encoder (enc_free (encoder_request r)) ;;
  mutate o (set_status PREEMPTED) ;;
  mutate o (set_computed 0) ;;
  mutate o (set_spec []) ;;
  mutate o (λ r, set_preemptions (num_preemptions r + 1) r) ;;
  k <- key_of o ;;
  on_which Waiting (q_prepend k).

Definition _mamba_block_aligned_split r (num_new_tokens num_new_local_computed_tokens num_external_computed_tokens : Z)
    : M S Z :=
  assert_ (bool_decide (num_external_computed_tokens = 0)) ;;
  let computed := num_computed_tokens r + num_new_local_computed_tokens + num_external_computed_tokens in
  if bool_decide (computed < Z.max (num_prompt_tokens r) (num_tokens r - 1)) then
    s <- get ;;
    let block_size := cache_block_size (cfg s) in
    rem <- pymod (num_tokens r) block_size ;;
    let last_cache_position := num_tokens r - rem in
    let last_cache_position :=
      if use_eagle (cfg s) then Z.max (last_cache_position - block_size) 0 else last_cache_position in
    let after_sched := computed + num_new_tokens in
    if bool_decide (after_sched < last_cache_position) then
      q <- floordiv num_new_tokens block_size ;; ret (q * block_size)
    else if bool_decide (computed < last_cache_position < after_sched) then ret (last_cache_position - computed)
    else ret num_new_tokens
  else ret num_new_tokens.

(** ** Encoder inputs of a step *)
Context (ec_has_cache_item : option (string → bool)).

(** The local variables of the loop *)
Record enc_acc := mkEncAcc {
  ea_inputs : list Z;
  ea_new_tokens : Z;
  ea_budget : Z;
  ea_external : list Z;
  ea_hashes : gset string;
  ea_embeds : Z
}.

Fixpoint encoder_loop r (num_computed shift : Z) (feats : list (Z * MMFeature)) (acc : enc_acc) : M S enc_acc :=
  match feats with
  | [] => ret acc
  | (i, f) :: feats' =>
      s <- get ;;
      let num_new_tokens := ea_new_tokens acc in
      let start_pos := mm_offset f in
      let num_encoder_tokens := mm_length f in
      let next := encoder_loop r num_computed shift feats' in
      let stop n := ret (mkEncAcc (ea_inputs acc) n (ea_budget acc) (ea_external acc) (ea_hashes acc) (ea_embeds acc)) in
      if bool_decide (num_computed + num_new_tokens + shift ≤ start_pos) then ret acc
      else if is_encoder_decoder (cfg s) && bool_decide (0 < num_computed) then
        assert_ (bool_decide (start_pos = 0)) ;; next acc
      else if bool_decide (start_pos + num_encoder_tokens ≤ num_computed) then next acc
      else
        skip <- (if is_encoder_decoder (cfg s) then ret false
                 else if bool_decide (mm_identifier f ∈ ea_hashes acc) then ret true
                 else on_encoder (enc_check_and_update_cache (encoder_request r) i)) ;;
        if skip : bool then next acc
        else if disable_chunked_mm_input (cfg s) && bool_decide (num_computed < start_pos) &&
                bool_decide (num_computed + num_new_tokens < start_pos + num_encoder_tokens)
        then stop (Z.max 0 (start_pos - (num_computed + shift)))
        else
          ok <- on_encoder (enc_can_allocate (encoder_request r) i (ea_budget acc) (ea_embeds acc)) ;;
          if negb ok then
            stop (if bool_decide (num_computed + shift < start_pos) then start_pos - (num_computed + shift) else 0)
          else
            let start_idx_rel := Z.max 0 (num_computed - start_pos) in
            let end_idx_rel := Z.min num_encoder_tokens (num_computed + num_new_tokens - start_pos) in
            '(curr_start, curr_end) <- of_outcome (get_embeds_indices_in_range f start_idx_rel end_idx_rel) ;;
            if bool_decide (curr_end - curr_start = 0) then next acc
            else
              let n := get_num_embeds f in
              let hashes := {[ mm_identifier f ]} ∪ ea_hashes acc in
              if match ec_has_cache_item with None => false | Some has => has (mm_identifier f) end then
                next (mkEncAcc (ea_inputs acc) num_new_tokens (ea_budget acc) (ea_external acc ++ [i]) hashes
                        (ea_embeds acc + n))
              else
                next (mkEncAcc (ea_inputs acc ++ [i]) num_new_tokens (ea_budget acc - n) (ea_external acc) hashes
                        (ea_embeds acc + n))
  end.

Definition _try_schedule_encoder_inputs r (num_computed num_new_tokens encoder_compute_budget shift : Z)
    : M S (list Z * Z * Z * list Z) :=
  if bool_decide (num_new_tokens = 0) || negb (has_encoder_inputs r)
  then ret ([], num_new_tokens, encoder_compute_budget, [])
  else
    acc <- encoder_loop r num_computed shift
             (zip (py_range (Z.of_nat (length (mm_features r)))) (mm_features r))
             (mkEncAcc [] num_new_tokens encoder_compute_budget [] ∅ 0) ;;
    ret (ea_inputs acc, ea_new_tokens acc, ea_budget acc, ea_external acc).

Definition sum_embeds r (inputs : list Z) : M S Z :=
  ns <- for_collect inputs (EncoderCache.get_num_encoder_embeds (encoder_request r)) ;; ret (foldr Z.add 0 ns).

(** ** The local variables of [schedule] *)
Record step := mkStep {
  scheduled_new_reqs : list Z;
  scheduled_resumed_reqs : list Z;
  scheduled_running_reqs : list Z;
  preempted_reqs : list Z;
  req_to_new_blocks : list (string * KVCacheBlocks);
  num_scheduled_tokens : list (string * Z);
  token_budget : Z;
  scheduled_encoder_inputs : list (string * list Z);
  encoder_compute_budget : Z;
  scheduled_spec_decode_tokens : list (string * list Z)
}.
Notation ST := (S * step)%type.
Implicit Types (v : step).
Definition on_self {A} (m : M S A) : M ST A := zoom fst (λ x y, (x, y.2)) m.
Definition local (f : step → step) : M ST unit := modify (λ y, (y.1, f y.2)).
Definition locals : M ST step := gets snd.

Definition add_preempted o v := mkStep (scheduled_new_reqs v) (scheduled_resumed_reqs v) (scheduled_running_reqs v)
  (preempted_reqs v ++ [o]) (req_to_new_blocks v) (num_scheduled_tokens v) (token_budget v) (scheduled_encoder_inputs v)
  (encoder_compute_budget v) (scheduled_spec_decode_tokens v).

(** [max(self.running, key=lambda r: (r.priority, r.arrival_time))]: the first maximum *)
Definition key_lt (a b : Z * Z) : bool := bool_decide (a.1 < b.1 ∨ a.1 = b.1 ∧ a.2 < b.2).
Definition max_by (key : Z → option (Z * Z)) (l : list Z) : option Z :=
  match l with
  | [] => None
  | x :: l' => Some (foldl (λ m y, match key m, key y with
                                   | Some a, Some b => if key_lt a b then y else m
                                   | _, _ => m
                                   end) x l')
  end.
(** [l.remove(x)] *)
Fixpoint remove_oid (x : Z) (l : list Z) : option (list Z) :=
  match l with [] => None | y :: l' => if bool_decide (y = x) then Some l' else cons y <$> remove_oid x l' end.

(** Undoing the schedule of a running request that gives way *)
Definition unschedule o : M ST unit :=
  r <- on_self (obj o) ;;
  let id := request_id r in
  v <- locals ;;
  running_reqs <- of_option ValueError (remove_oid o (scheduled_running_reqs v)) ;;
  n <- of_option KeyError (od_get id (num_scheduled_tokens v)) ;;
  _ <- of_option KeyError (od_get id (req_to_new_blocks v)) ;;
  restored <- on_self (sum_embeds r (default [] (od_get id (scheduled_encoder_inputs v)))) ;;
  local (λ v, mkStep (scheduled_new_reqs v) (scheduled_resumed_reqs v) running_reqs (preempted_reqs v)
    (od_del id (req_to_new_blocks v)) (od_del id (num_scheduled_tokens v)) (token_budget v + n)
    (od_del id (scheduled_encoder_inputs v)) (encoder_compute_budget v + restored)
    (od_del id (scheduled_spec_decode_tokens v))).

(** The request to preempt, with the index of the loop *)
Definition pick_victim (req_index : Z) : M ST (Z * Z) :=
  '(s, v) <- get ;;
  match policy (cfg s) with
  | PRIORITY =>
      p <- of_option ValueError (max_by (λ o, (λ r, (priority (info r), arrival_time r)) <$> objs s !! o) (running s)) ;;
      rest <- of_option ValueError (remove_oid p (running s)) ;;
      on_self (modify (with_running rest)) ;;
      if bool_decide (p ∈ scheduled_running_reqs v) then unschedule p ;; ret (p, req_index - 1) else ret (p, req_index)
  | FCFS =>
      '(p, rest) <- of_option IndexError (list_pop (running s)) ;;
      on_self (modify (with_running rest)) ;; ret (p, req_index)
  end.

(** [while True: allocate_slots, or preempt]; every round but the last preempts one request. *)
Fixpoint allocate_loop (fuel : nat) o (num_new_tokens req_index : Z) : M ST (option KVCacheBlocks * Z) :=
  match fuel with
  | O => raise RuntimeError
  | Datatypes.S fuel =>
      '(s, _) <- get ;;
      new_blocks <- on_self (on_kv_request o (kv_allocate_slots num_new_tokens 0 None (num_lookahead_tokens (cfg s)) 0 false 0 false)) ;;
      match new_blocks with
      | Some b => ret (Some b, req_index)
      | None =>
          '(p, req_index) <- pick_victim req_index ;;
          on_self (_preempt_request p) ;;
          local (add_preempted p) ;;
          if bool_decide (p = o) then ret (None, req_index) else allocate_loop fuel o num_new_tokens req_index
      end
  end.

(** Bookkeeping of a request that is scheduled again *)
Definition schedule_running o (num_new_tokens : Z) (new_blocks : KVCacheBlocks) : M ST unit :=
  r <- on_self (obj o) ;;
  let id := request_id r in
  let n_spec := num_new_tokens + num_computed_tokens r - num_tokens r - num_output_placeholders r in
  local (λ v, mkStep (scheduled_new_reqs v) (scheduled_resumed_reqs v) (scheduled_running_reqs v ++ [o]) (preempted_reqs v)
    (od_set id new_blocks (req_to_new_blocks v)) (od_set id num_new_tokens (num_scheduled_tokens v))
    (token_budget v - num_new_tokens) (scheduled_encoder_inputs v) (encoder_compute_budget v)
    (if bool_decide (spec_token_ids r ≠ []) && bool_decide (0 < n_spec)
     then od_set id (take (Z.to_nat n_spec) (spec_token_ids r)) (scheduled_spec_decode_tokens v)
     else scheduled_spec_decode_tokens v)) ;;
  on_self (mutate o (set_spec [])).

(** Allocating the encoder inputs of a scheduled request *)
Definition schedule_encoder o (inputs external : list Z) (new_budget : Z) : M ST unit :=
  r <- on_self (obj o) ;;
  (if bool_decide (inputs ≠ []) then
     local (λ v, mkStep (scheduled_new_reqs v) (scheduled_resumed_reqs v) (scheduled_running_reqs v) (preempted_reqs v)
       (req_to_new_blocks v) (num_scheduled_tokens v) (token_budget v)
       (od_set (request_id r) inputs (scheduled_encoder_inputs v)) new_budget (scheduled_spec_decode_tokens v)) ;;
     for_each inputs (λ i, on_self (on_encoder (enc_allocate (encoder_request r) i)))
   else ret tt) ;;
  for_each external (λ i, on_self (on_encoder (enc_allocate (encoder_request r) i))).

(** The number of tokens of a running request, before the encoder is asked *)
Definition running_tokens (c : config) r (budget : Z) : Z :=
  let n := num_tokens_with_spec r + num_output_placeholders r - num_computed_tokens r in
  let n := if bool_decide (0 < long_prefill_token_threshold c < n) then long_prefill_token_threshold c else n in
  Z.min (Z.min n budget) (max_model_len c - 1 - num_computed_tokens r).
(** The previous step has certainly reached [max_tokens]. *)
Definition reaches_max_tokens r : bool :=
  bool_decide (0 < num_output_placeholders r) &&
  bool_decide (num_prompt_tokens r + max_tokens (info r) ≤ num_computed_tokens r + 2 - num_output_placeholders r).

Fixpoint running_loop (fuel : nat) (req_index : Z) : M ST unit :=
  '(s, v) <- get ;;
  if negb (bool_decide (req_index < Z.of_nat (length (running s))) && bool_decide (0 < token_budget v)) then ret tt
  else match fuel with
  | O => raise RuntimeError
  | Datatypes.S fuel =>
      o <- of_option IndexError (list_get (running s) req_index) ;;
      r <- on_self (obj o) ;;
      if reaches_max_tokens r then running_loop fuel (req_index + 1)
      else
        let num_new_tokens := running_tokens (cfg s) r (token_budget v) in
        '(inputs, num_new_tokens, new_budget, external) <-
          (if has_encoder_inputs r
           then on_self (_try_schedule_encoder_inputs r (num_computed_tokens r) num_new_tokens (encoder_compute_budget v)
                           (if use_eagle (cfg s) then 1 else 0))
           else ret ([], num_new_tokens, encoder_compute_budget v, [])) ;;
        num_new_tokens <- (if need_mamba_block_aligned_split (cfg s)
                           then on_self (_mamba_block_aligned_split r num_new_tokens 0 0) else ret num_new_tokens) ;;
        if bool_decide (num_new_tokens = 0) then running_loop fuel (req_index + 1)
        else
          '(new_blocks, req_index) <- allocate_loop (Datatypes.S (length (running s))) o num_new_tokens req_index ;;
          match new_blocks with
          | None => ret tt
          | Some b =>
              schedule_running o num_new_tokens b ;;
              schedule_encoder o inputs external new_budget ;;
              running_loop fuel (req_index + 1)
          end
  end.

(** ** Blocked requests *)
Context (conn : option (Connector C)).

Definition _update_waiting_for_remote_kv o : M S unit :=
  assert_ (bool_decide (is_Some conn)) ;;
  r <- obj o ;;
  let id := request_id r in
  s <- get ;;
  (if bool_decide (id ∈ failed_recving_kv_req_ids s) then
     (if bool_decide (num_computed_tokens r ≠ 0) then on_kv_request o (kv_cache_blocks (num_computed_tokens r))
      else on_kv (kv_free (kv_request r))) ;;
     modify (λ s, with_failed (failed_recving_kv_req_ids s ∖ {[ id ]}) s)
   else
     on_kv_request o (kv_cache_blocks (num_computed_tokens r)) ;;
     if bool_decide (num_computed_tokens r = num_tokens r) then mutate o (set_computed (num_tokens r - 1)) else ret tt) ;;
  s <- get ;;
  if bool_decide (id ∈ finished_recving_kv_req_ids s)
  then modify (λ s, with_recved (finished_recving_kv_req_ids s ∖ {[ id ]}) s) else raise KeyError.

Definition _try_promote_blocked_waiting_request o : M S bool :=
  r <- obj o ;;
  s <- get ;;
  match status r with
  | WAITING_FOR_REMOTE_KVS =>
      if bool_decide (request_id r ∈ finished_recving_kv_req_ids s) then
        _update_waiting_for_remote_kv o ;;
        mutate o (set_status (if bool_decide (num_preemptions r = 0) then WAITING else PREEMPTED)) ;; ret true
      else ret false
  | WAITING_FOR_STRUCTURED_OUTPUT_GRAMMAR =>
      if use_structured_output (info r) && has_grammar r then mutate o (set_status WAITING) ;; ret true else ret false
  | WAITING_FOR_STREAMING_REQ =>
      assert_ (match streaming_queue r with None | Some [] => true | Some _ => false end) ;; ret false
  | _ => raise AssertionError
  end.

(** ** Waiting requests *)

(** Tokens found locally and by the connector: blocks, local, external and total, and
    whether the connector loads asynchronously; [None] when it cannot say yet. *)
Definition computed_tokens o : M S (option (KVCacheBlocks * Z * Z * Z * bool)) :=
  r <- obj o ;;
  if bool_decide (num_computed_tokens r = 0) then
    '(new_computed_blocks, num_local) <- on_kv (kv_get_computed_blocks (kv_request r)) ;;
    ext <- (match conn with
            | None => ret (Some (0, false))
            | Some c => '(ext_tokens, load_kv_async) <- on_connector (get_num_new_matched_tokens c r num_local) ;;
                        ret ((λ n, (n, load_kv_async)) <$> ext_tokens)
            end) ;;
    match ext with
    | None => ret None
    | Some (num_external, load_kv_async) =>
        let num_computed := num_local + num_external in
        assert_ (bool_decide (num_computed ≤ num_tokens r)) ;;
        assert_ (negb (prefill_stats r) || bool_decide (num_computed ≤ num_prompt_tokens r)) ;;
        ret (Some (new_computed_blocks, num_local, num_external, num_computed, load_kv_async))
    end
  else ret (Some (KVCacheManager.EmptyBlocks, 0, 0, num_computed_tokens r, false)).

(** The tokens of a waiting request and its encoder inputs; [None] ends the loop. *)
Definition waiting_tokens r v (num_computed : Z) : M ST (option (list Z * Z * Z * list Z)) :=
  '(s, _) <- get ;;
  let n := num_tokens r - num_computed in
  let threshold := long_prefill_token_threshold (cfg s) in
  let n := if bool_decide (0 < threshold < n) then threshold else n in
  if negb (enable_chunked_prefill (cfg s)) && bool_decide (token_budget v < n) then ret None
  else
    let n := Z.min n (token_budget v) in
    assert_ (bool_decide (0 < n)) ;;
    if has_encoder_inputs r then
      '(inputs, n, new_budget, external) <-
        on_self (_try_schedule_encoder_inputs r num_computed n (encoder_compute_budget v) (if use_eagle (cfg s) then 1 else 0)) ;;
      if bool_decide (n = 0) then ret None else ret (Some (inputs, n, new_budget, external))
    else ret (Some ([], n, encoder_compute_budget v, [])).

(** Bookkeeping of a request that leaves the waiting queues *)
Definition schedule_waiting o (num_new_tokens num_computed : Z) : M ST unit :=
  on_self (modify (λ s, with_running (running s ++ [o]) s)) ;;
  r <- on_self (obj o) ;;
  let id := request_id r in
  (match status r with
   | WAITING => local (λ v, mkStep (scheduled_new_reqs v ++ [o]) (scheduled_resumed_reqs v) (scheduled_running_reqs v)
       (preempted_reqs v) (req_to_new_blocks v) (num_scheduled_tokens v) (token_budget v) (scheduled_encoder_inputs v)
       (encoder_compute_budget v) (scheduled_spec_decode_tokens v))
   | PREEMPTED => local (λ v, mkStep (scheduled_new_reqs v) (scheduled_resumed_reqs v ++ [o]) (scheduled_running_reqs v)
       (preempted_reqs v) (req_to_new_blocks v) (num_scheduled_tokens v) (token_budget v) (scheduled_encoder_inputs v)
       (encoder_compute_budget v) (scheduled_spec_decode_tokens v))
   | _ => raise RuntimeError
   end) ;;
  blocks <- on_self (gets (λ s, kv_get_blocks id (kv s))) ;;
  local (λ v, mkStep (scheduled_new_reqs v) (scheduled_resumed_reqs v) (scheduled_running_reqs v) (preempted_reqs v)
    (od_set id blocks (req_to_new_blocks v)) (od_set id num_new_tokens (num_scheduled_tokens v))
    (token_budget v - num_new_tokens) (scheduled_encoder_inputs v) (encoder_compute_budget v)
    (scheduled_spec_decode_tokens v)) ;;
  on_self (mutate o (set_status RUNNING)) ;;
  on_self (mutate o (set_computed num_computed)).

(** The verdict on the head of a queue *)
Inductive verdict := Stop | Skip | LoadAsync | Scheduled (lora : option Z).

Definition try_waiting (w : which_queue) (scheduled_loras : gset Z) o : M ST verdict :=
  r <- on_self (obj o) ;;
  promoted <- (if _is_blocked_waiting_status (status r) then on_self (_try_promote_blocked_waiting_request o) else ret true) ;;
  if negb promoted then ret Skip
  else
    '(s, v) <- get ;;
    if match max_loras (cfg s), lora_int_id (info r) with
       | Some m, Some l => bool_decide (Z.of_nat (size scheduled_loras) = m) && bool_decide (l ∉ scheduled_loras)
       | _, _ => false
       end then ret Skip
    else
      c <- on_self (computed_tokens o) ;;
      match c with
      | None => ret Skip
      | Some (new_computed_blocks, num_local, num_external, num_computed, load_kv_async) =>
          r <- on_self (obj o) ;;
          tokens <- (if load_kv_async : bool then
                       assert_ (bool_decide (0 < num_external)) ;; ret (Some ([], 0, encoder_compute_budget v, []))
                     else waiting_tokens r v num_computed) ;;
          match tokens with
          | None => ret Stop
          | Some (inputs, num_new_tokens, new_budget, external) =>
              split <- (if need_mamba_block_aligned_split (cfg s) then
                          n <- on_self (_mamba_block_aligned_split r num_new_tokens num_local num_external) ;;
                          ret (if bool_decide (n = 0) then None else Some n)
                        else ret (Some num_new_tokens)) ;;
              match split with
              | None => ret Stop
              | Some num_new_tokens =>
                  let lookahead := if bool_decide (num_computed_tokens r = 0) then 0 else num_lookahead_tokens (cfg s) in
                  num_encoder_tokens <- (if is_encoder_decoder (cfg s) && has_encoder_inputs r then on_self (sum_embeds r inputs) else ret 0) ;;
                  new_blocks <- on_self (on_kv_request o (kv_allocate_slots num_new_tokens num_local (Some new_computed_blocks)
                                  lookahead num_external load_kv_async num_encoder_tokens (scheduler_reserve_full_isl (cfg s)))) ;;
                  match new_blocks with
                  | None =>
                      (if has_encoder_inputs r then on_self (on_encoder (enc_free (encoder_request r))) else ret tt) ;;
                      ret Stop
                  | Some _ =>
                      (match conn with
                       | None => ret tt
                       | Some c =>
                           r <- on_self (obj o) ;;
                           blocks <- on_self (gets (λ s, kv_get_blocks (request_id r) (kv s))) ;;
                           on_self (on_connector (update_state_after_alloc c r blocks num_external))
                       end) ;;
                      _ <- on_self (on_which w q_pop) ;;
                      if load_kv_async : bool then
                        on_self (mutate o (set_status WAITING_FOR_REMOTE_KVS)) ;;
                        on_self (mutate o (set_computed num_computed)) ;;
                        ret LoadAsync
                      else
                        schedule_waiting o num_new_tokens num_computed ;;
                        schedule_encoder o inputs external new_budget ;;
                        ret (Scheduled (lora_int_id (info r)))
                  end
              end
          end
      end.

Fixpoint waiting_loop (fuel : nat) (scheduled_loras : gset Z) (step_skipped_waiting : request_queue) : M ST request_queue :=
  '(s, v) <- get ;;
  if negb ((q_nonempty (waiting s) || q_nonempty (skipped_waiting s)) && bool_decide (0 < token_budget v))
  then ret step_skipped_waiting
  else if bool_decide (Z.of_nat (length (running s)) = max_num_running_reqs (cfg s)) then ret step_skipped_waiting
  else match fuel with
  | O => raise RuntimeError
  | Datatypes.S fuel =>
      w <- on_self _select_waiting_queue_for_scheduling ;;
      w <- of_option AssertionError w ;;
      k <- on_self (on_which w q_peek) ;;
      x <- try_waiting w scheduled_loras (oid k) ;;
      let skip :=
        k <- on_self (key_of (oid k)) ;;
        let '(_, q) := q_prepend k step_skipped_waiting in
        waiting_loop fuel scheduled_loras q in
      match x with
      | Stop => ret step_skipped_waiting
      | Skip => _ <- on_self (on_which w q_pop) ;; skip
      | LoadAsync => skip
      | Scheduled lora =>
          waiting_loop fuel (match max_loras (cfg s), lora with Some _, Some l => {[ l ]} ∪ scheduled_loras | _, _ => scheduled_loras end)
            step_skipped_waiting
      end
  end.

(** ** The output of a step *)
Record CachedRequest := mkCached {
  cr_id : string;
  cr_resumed : bool;
  cr_new_token_ids : option (list Z);
  cr_all_token_ids : option (list Z);
  cr_new_block_ids : option (list (list Z));
  cr_num_computed_tokens : Z;
  cr_num_output_tokens : Z
}.
(** [NewRequestData.from_request]: what depends on the step; prompt, features and parameters
    are the request's own. *)
Record NewRequest := mkNew {
  nr_id : string;
  nr_block_ids : list (list Z);
  nr_num_computed_tokens : Z;
  nr_prefill_token_ids : option (list Z)
}.
Record SchedulerOutput := mkOutput {
  out_new_reqs : list NewRequest;
  out_cached_reqs : list CachedRequest;
  out_num_scheduled_tokens : list (string * Z);
  out_total_num_scheduled_tokens : Z;
  out_spec_decode_tokens : list (string * list Z);
  out_encoder_inputs : list (string * list Z);
  out_num_common_prefix_blocks : list Z;
  out_preempted_req_ids : list string;
  out_finished_req_ids : gset string;
  out_free_encoder_mm_hashes : list string;
  out_new_block_ids_to_zero : list Z
}.

(** [get_block_ids(allow_none=True)] *)
Definition block_ids_or_none (x : K) (b : KVCacheBlocks) : option (list (list Z)) :=
  if bool_decide (Forall (λ g, g = []) (kv_block_ids x b)) then None else Some (kv_block_ids x b).

Definition _make_cached_request_data v (running_reqs resumed_reqs : list Z) : M S (list CachedRequest) :=
  for_collect (((λ o, (false, o)) <$> running_reqs) ++ ((λ o, (true, o)) <$> resumed_reqs)) (λ '(resumed, o),
    r <- obj o ;;
    s <- get ;;
    let id := request_id r in
    new_token_ids <- (if use_pp (cfg s) && negb (async_scheduling (cfg s)) then
                        n <- of_option KeyError (od_get id (num_scheduled_tokens v)) ;;
                        let n := n - Z.of_nat (length (default [] (od_get id (scheduled_spec_decode_tokens v)))) in
                        ret (Some (py_slice (all_token_ids (hashed r)) (num_computed_tokens r) (num_computed_tokens r + n)))
                      else ret None) ;;
    let scheduled_in_prev_step := bool_decide (id ∈ prev_step_scheduled_req_ids s) in
    (if resumed : bool then assert_ (negb scheduled_in_prev_step) else ret tt) ;;
    blocks <- of_option KeyError (od_get id (req_to_new_blocks v)) ;;
    ret (mkCached id resumed new_token_ids
           (if scheduled_in_prev_step then None else Some (all_token_ids (hashed r)))
           (block_ids_or_none (kv s) blocks) (num_computed_tokens r)
           (num_output_tokens r + num_output_placeholders r))).

Definition _update_after_schedule (out : SchedulerOutput) : M S unit :=
  for_each (out_num_scheduled_tokens out) (λ '(id, n),
    s <- get ;;
    o <- of_option KeyError (lookup_request id s) ;;
    mutate o (λ r, set_computed (num_computed_tokens r + n) r) ;;
    mutate o (λ r, set_prefill_chunk (bool_decide (num_computed_tokens r < num_tokens r + num_output_placeholders r)) r)) ;;
  modify (with_finished ∅).

(** [AsyncScheduler._update_after_schedule] *)
Definition async_update_after_schedule (out : SchedulerOutput) : M S unit :=
  _update_after_schedule out ;;
  for_each (out_num_scheduled_tokens out) (λ '(id, _),
    s <- get ;;
    o <- of_option KeyError (lookup_request id s) ;;
    r <- obj o ;;
    if is_prefill_chunk r then ret tt
    else
      let cur_num_spec_tokens := Z.of_nat (length (default [] (od_get id (out_spec_decode_tokens out)))) in
      mutate o (λ r, set_placeholders (num_output_placeholders r + 1 + cur_num_spec_tokens) r) ;;
      mutate o (set_spec (replicate (Z.to_nat (num_spec_tokens (cfg s))) (-1)))).

(** ** [schedule] *)
Definition with_locals {A} v (m : M ST A) : M S (A * step) := λ s,
  let '(o, (s', v')) := m (s, v) in (match o with Ret a => Ret (a, v') | Raise e => Raise e end, s').

Definition running_loras : M ST (gset Z) :=
  '(s, v) <- get ;;
  match max_loras (cfg s) with
  | None => ret ∅
  | Some m =>
      rs <- for_collect (scheduled_running_reqs v) (λ o, on_self (obj o)) ;;
      let loras := list_to_set (omap (λ r, l ← lora_int_id (info r); if bool_decide (0 < l) then Some l else None) rs) in
      assert_ (bool_decide (Z.of_nat (size loras) ≤ m)) ;; ret loras
  end.

Definition schedule_step : M ST unit :=
  '(s, _) <- get ;;
  running_loop (length (running s)) 0 ;;
  loras <- running_loras ;;
  '(s, v) <- get ;;
  if bool_decide (preempted_reqs v = []) && bool_decide (pause_state s = UNPAUSED) then
    skipped <- waiting_loop (length (q_items (waiting s)) + length (q_items (skipped_waiting s))) loras
                 (create_request_queue (policy (cfg s))) ;;
    if q_nonempty skipped then on_self (on_which SkippedWaiting (q_prepend_requests (q_iter skipped))) else ret tt
  else ret tt.

(** The constraints the code asserts *)
Definition check_limits : M ST Z :=
  '(s, v) <- get ;;
  let total := foldr Z.add 0 (num_scheduled_tokens v).*2 in
  assert_ (bool_decide (total ≤ max_num_scheduled_tokens (cfg s))) ;;
  assert_ (bool_decide (0 ≤ token_budget v)) ;;
  assert_ (bool_decide (Z.of_nat (length (running s)) ≤ max_num_running_reqs (cfg s))) ;;
  assert_ (bool_decide (length (scheduled_new_reqs v) + length (scheduled_resumed_reqs v) + length (scheduled_running_reqs v)
                        ≤ length (running s)))%nat ;;
  ret total.

Definition request_ids (l : list Z) : M S (list string) := for_collect l (λ o, r <- obj o ;; ret (request_id r)).

Definition make_output v (total : Z) : M S SchedulerOutput :=
  s <- get ;;
  common <- (match running s with
             | [] => ret (replicate (num_kv_cache_groups (cfg s)) 0)
             | o :: _ => r <- obj o ;; on_kv (kv_get_num_common_prefix_blocks (request_id r))
             end) ;;
  let '(new_reqs, resumed_reqs) :=
    if use_v2_model_runner (cfg s) then (scheduled_new_reqs v ++ scheduled_resumed_reqs v, [])
    else (scheduled_new_reqs v, scheduled_resumed_reqs v) in
  new_data <- for_collect new_reqs (λ o,
    r <- obj o ;; s <- get ;;
    blocks <- of_option KeyError (od_get (request_id r) (req_to_new_blocks v)) ;;
    ret (mkNew (request_id r) (kv_block_ids (kv s) blocks) (num_computed_tokens r)
           (if use_v2_model_runner (cfg s) then Some (all_token_ids (hashed r)) else None))) ;;
  cached <- _make_cached_request_data v (scheduled_running_reqs v) resumed_reqs ;;
  modify (with_prev (list_to_set (num_scheduled_tokens v).*1)) ;;
  to_zero <- (if needs_kv_cache_zeroing (cfg s) then on_kv kv_take_new_block_ids else ret []) ;;
  preempted <- request_ids (preempted_reqs v) ;;
  freed <- on_encoder enc_get_freed_mm_hashes ;;
  s <- get ;;
  ret (mkOutput new_data cached (num_scheduled_tokens v) total (scheduled_spec_decode_tokens v) (scheduled_encoder_inputs v)
         common preempted (finished_req_ids s) freed to_zero).

Definition schedule : M S SchedulerOutput :=
  s <- get ;;
  let budget := if bool_decide (pause_state s = PAUSED_ALL) then 0 else max_num_scheduled_tokens (cfg s) in
  on_kv kv_new_step_starts ;;
  '(total, v) <- with_locals (mkStep [] [] [] [] [] [] budget [] (max_num_encoder_input_tokens (cfg s)) [])
                   (schedule_step ;; check_limits) ;;
  out <- make_output v total ;;
  (match conn with None => ret tt | Some c => on_connector (build_connector_meta c) end) ;;
  (if async_scheduling (cfg s) then async_update_after_schedule out else _update_after_schedule out) ;;
  ret out.

(** ** Finishing requests *)
Definition _connector_finished r : M S bool :=
  match conn with
  | None => ret false
  | Some c =>
      on_kv (kv_remove_skipped_blocks (request_id r) (num_computed_tokens r)) ;;
      s <- get ;;
      let block_ids := kv_block_ids (kv s) (kv_get_blocks (request_id r) (kv s)) in
      if negb (supports_hma c) then
        assert_ (bool_decide (num_kv_cache_groups (cfg s) = 1%nat)) ;;
        ids <- of_option IndexError (head block_ids) ;;
        on_connector (request_finished c r ids)
      else on_connector (request_finished_all_groups c r block_ids)
  end.

Definition _free_blocks o : M S unit :=
  r <- obj o ;;
  assert_ (is_finished (status r)) ;;
  on_kv (kv_free (kv_request r)) ;;
  s <- get ;;
  _ <- of_option KeyError (lookup_request (request_id r) s) ;;
  modify (λ s, with_requests (od_del (request_id r) (requests s)) s).

Definition _free_request o (delay_free_blocks : bool) : M S unit :=
  r <- obj o ;;
  assert_ (is_finished (status r)) ;;
  delay <- _connector_finished r ;;
  on_encoder (enc_free (encoder_request r)) ;;
  modify (λ s, with_finished ({[ request_id r ]} ∪ finished_req_ids s) s) ;;
  modify (λ s, with_finished_dict
    ((λ d, <[client_index (info r) := {[ request_id r ]} ∪ default ∅ (d !! client_index (info r))]> d) <$> finished_req_ids_dict s) s) ;;
  if delay_free_blocks || delay then ret tt else _free_blocks o.

(** [remove_all]: one item is removed at its first occurrence, several everywhere. *)
Definition remove_all (l items : list Z) : list Z :=
  match items with
  | [] => l
  | [x] => default l (remove_oid x l)
  | _ => filter (λ x, x ∉ items) l
  end.

(** [None] stands for all requests. A set of ids is iterated in the given order. *)
Definition finish_requests (request_ids : option (list string)) (finished_status : RequestStatus) : M S (list (string * Z)) :=
  assert_ (is_finished finished_status) ;;
  s <- get ;;
  let ids := match request_ids with Some l => remove_dups l | None => (requests s).*1 end in
  valid <- for_collect ids (λ id,
    match lookup_request id s with
    | None => ret None
    | Some o => r <- obj o ;; ret (if is_finished (status r) then None else Some (o, r))
    end) ;;
  let valid := omap id valid in
  let to_run := (filter (λ x, status x.2 = RUNNING) valid).*1 in
  let to_wait := filter (λ x, status x.2 ≠ RUNNING) valid in
  let streaming := length (filter (λ x, status x.2 = WAITING_FOR_STREAMING_REQ) valid) in
  modify (λ s, with_num_streaming (num_waiting_for_streaming_input s - Z.of_nat streaming) s) ;;
  modify (λ s, with_running (remove_all (running s) to_run) s) ;;
  (if bool_decide (to_wait ≠ []) then
     let keys := (λ x, queue_key x.1 x.2) <$> to_wait in
     on_which Waiting (q_remove_requests keys) ;; on_which SkippedWaiting (q_remove_requests keys)
   else ret tt) ;;
  for_each valid (λ '(o, _),
    r <- obj o ;;
    s <- get ;;
    delay <- (if bool_decide (status r = WAITING_FOR_REMOTE_KVS) then
                let id := request_id r in
                modify (λ s, with_recved (finished_recving_kv_req_ids s ∖ {[ id ]}) s) ;;
                modify (λ s, with_failed (failed_recving_kv_req_ids s ∖ {[ id ]}) s) ;;
                ret (bool_decide (id ∉ finished_recving_kv_req_ids s))
              else ret false) ;;
    mutate o (set_status finished_status) ;;
    _free_request o delay) ;;
  ret ((λ x, (request_id x.2, client_index (info x.2))) <$> valid).

(** ** Adding requests *)
Context (block_hasher : BlockHash.Request → list bytes).

Definition update_block_hashes (h : BlockHash.Request) : BlockHash.Request :=
  set_block_hashes (block_hashes h ++ block_hasher h) h.
Definition hash_feature (f : MMFeature) : MultiModalFeature :=
  mkFeature (Some (mm_identifier f)) (mkRange (mm_offset f) (mm_length f)).
Definition shift_feature (base : Z) (f : MMFeature) : MMFeature :=
  mkMM (mm_identifier f) (mm_offset f + base) (mm_length f) (is_embed f).

(** The prompt of the session: what was prompt, the kept outputs and the new input. *)
Definition session_update (u : StreamingUpdate) r : SRequest :=
  let kept := py_slice (all_token_ids (hashed r)) 0 (num_computed_tokens r) in
  let feats := shift_feature (Z.of_nat (length kept)) <$> up_mm_features u in
  let new_ids := default [] (up_prompt_token_ids u) in
  let old := hashed r in
  let h := BlockHash.mkRequest (kept ++ new_ids) (block_hashes old) (BlockHash.mm_features old ++ (hash_feature <$> feats))
             (lora_request old) (cache_salt old) (prompt_embeds old) (prompt_embeds_per_block_hashes old) in
  let kept_output := py_slice (all_token_ids old) (num_prompt_tokens r) (num_computed_tokens r) in
  mkReq (info r) WAITING (up_arrival_time u) (up_sampling_params u) (update_block_hashes h) (has_prompt_token_ids r)
    (num_prompt_tokens r + Z.of_nat (length kept_output) + Z.of_nat (length new_ids)) [] (mm_features r ++ feats)
    (num_output_placeholders r) (async_tokens_to_discard r) (spec_token_ids r) (num_computed_tokens r)
    (is_prefill_chunk r) (num_preemptions r) (prefill_stats r) (has_grammar r) (resumable r) (streaming_queue r).

Definition _update_request_as_session o (u : StreamingUpdate) : M S unit :=
  mutate o (λ r, set_output [] (set_hashed (set_tokens (py_slice (all_token_ids (hashed r)) 0 (num_computed_tokens r)) (hashed r)) r)) ;;
  r <- obj o ;;
  assert_ (has_prompt_token_ids r) ;;
  (if bool_decide (status r = WAITING_FOR_STREAMING_REQ)
   then modify (λ s, with_num_streaming (num_waiting_for_streaming_input s - 1) s) else ret tt) ;;
  mutate o (session_update u) ;;
  k <- key_of o ;;
  modify (λ s, with_waiting (q_rekey k (waiting s)) s) ;;
  modify (λ s, with_skipped (q_rekey k (skipped_waiting s)) s).

Definition add_request o : M S unit :=
  r <- obj o ;;
  s <- get ;;
  match lookup_request (request_id r) s with
  | Some existing =>
      e <- obj existing ;;
      let update := update_from_request r in
      if bool_decide (status e ≠ WAITING_FOR_STREAMING_REQ) then
        q <- of_option AssertionError (streaming_queue e) ;;
        mutate existing (set_streaming (Some (q ++ [update])))
      else match update with
           | Some u => _update_request_as_session existing u
           | None => _ <- finish_requests (Some [request_id r]) FINISHED_ABORTED ;; ret tt
           end
  | None =>
      (if resumable r then mutate o (set_streaming (Some [])) else ret tt) ;;
      _enqueue_waiting_request o ;;
      modify (λ s, with_requests (od_set (request_id r) o (requests s)) s) ;;
      match conn with None => ret tt | Some c => r <- obj o ;; on_connector (on_new_request c r) end
  end.

(** ** What comes back from the model runner *)
Record KVConnectorOutput := mkKVOut {
  invalid_block_ids : list Z;
  finished_recving : list string;
  finished_sending : list string
}.
Record ModelRunnerOutput := mkRunnerOut {
  req_id_to_index : list (string * Z);
  sampled_token_ids : list (list Z);
  pooler_output : list bool;
  kv_connector_output : option KVConnectorOutput
}.
(** An [EngineCoreOutput]: the client, the request, its tokens and the status it stopped with *)
Record EngineCoreOutput := mkEngineOut {
  eo_client : Z;
  eo_id : string;
  eo_new_token_ids : list Z;
  eo_finish : option RequestStatus
}.

(** [append_output_token_ids] *)
Definition append_output_token_id (x : Z) r : SRequest :=
  set_output (output_token_ids r ++ [x])
    (set_hashed (update_block_hashes (set_tokens (all_token_ids (hashed r) ++ [x]) (hashed r))) r).

Fixpoint append_tokens o (new_token_ids : list Z) : M S (list Z * bool) :=
  match new_token_ids with
  | [] => ret ([], false)
  | x :: l =>
      mutate o (append_output_token_id x) ;;
      r <- obj o ;;
      s <- get ;;
      stop <- of_outcome (check_stop r (max_model_len (cfg s))) ;;
      match stop with
      | Some st => mutate o (set_status st) ;; ret ([x], true)
      | None => '(l, stopped) <- append_tokens o l ;; ret (x :: l, stopped)
      end
  end.
Definition _update_request_with_output o (new_token_ids : list Z) : M S (list Z * bool) := append_tokens o new_token_ids.

(** [AsyncScheduler._update_request_with_output] *)
Definition async_update_request_with_output o (new_token_ids : list Z) : M S (list Z * bool) :=
  r <- obj o ;;
  if bool_decide (0 < async_tokens_to_discard r) then
    mutate o (set_discard (async_tokens_to_discard r - 1)) ;; ret ([], false)
  else
    let status_before_update := status r in
    '(l, stopped) <- _update_request_with_output o new_token_ids ;;
    mutate o (λ r, set_placeholders (num_output_placeholders r - Z.of_nat (length l)) r) ;;
    r <- obj o ;;
    assert_ (bool_decide (0 ≤ num_output_placeholders r)) ;;
    (if bool_decide (status_before_update = RUNNING)
     then on_kv_request o (kv_cache_blocks (num_computed_tokens r - num_output_placeholders r)) else ret tt) ;;
    ret (l, stopped).

(** Whether the request is finished for good *)
Definition _handle_stopped_request o : M S bool :=
  r <- obj o ;;
  if negb (resumable r) then ret true
  else match streaming_queue r with
       | Some (None :: q) => mutate o (set_streaming (Some q)) ;; ret true
       | Some (Some u :: q) =>
           mutate o (set_streaming (Some q)) ;; _update_request_as_session o u ;; _enqueue_waiting_request o ;; ret false
       | _ =>
           mutate o (set_status WAITING_FOR_STREAMING_REQ) ;;
           modify (λ s, with_num_streaming (num_waiting_for_streaming_input s + 1) s) ;;
           _enqueue_waiting_request o ;; ret false
       end.

Definition _free_encoder_inputs o : M S unit :=
  r <- obj o ;;
  s <- get ;;
  on_encoder (EncoderCache._free_encoder_inputs enc_get_cached_input_ids enc_free_encoder_input
                (is_encoder_decoder (cfg s)) (encoder_request r)).

(** ** Failed and finished transfers *)

(** One request: the blocks that may hold external tokens are scanned. *)
Fixpoint scan_invalid (invalid : gset Z) (block_size : Z) (idx_blocks : list (Z * Z)) (marked : gset Z)
    (first : option Z) (affected : bool) : gset Z * option Z * bool :=
  match idx_blocks with
  | [] => (marked, first, affected)
  | (idx, b) :: l =>
      if bool_decide (b ∉ invalid) then scan_invalid invalid block_size l marked first affected
      else if bool_decide (b ∈ marked) then scan_invalid invalid block_size l marked first true
      else scan_invalid invalid block_size l ({[ b ]} ∪ marked) (match first with None => Some idx | Some _ => first end) true
  end.

Definition _update_requests_with_invalid_blocks (reqs : list Z) (invalid : gset Z) (scheduled : list (string * Z))
    (evict_blocks : bool) : M S (list string * list Z) :=
  (fix loop (reqs : list Z) (marked : gset Z) : M S (list string * list Z) :=
     match reqs with
     | [] => ret ([], [])
     | o :: reqs =>
         r <- obj o ;;
         s <- get ;;
         block_ids <- (match kv_block_ids (kv s) (kv_get_blocks (request_id r) (kv s)) with
                       | [ids] => ret ids
                       | _ => raise ValueError
                       end) ;;
         let computed := num_computed_tokens r - default 0 (od_get (request_id r) scheduled) in
         n <- floordiv (computed + sched_block_size (cfg s) - 1) (sched_block_size (cfg s)) ;;
         let '(marked, first, affected) :=
           scan_invalid invalid (sched_block_size (cfg s)) (zip (py_range n) block_ids) marked None false in
         (match first with
          | Some idx => mutate o (set_computed (idx * sched_block_size (cfg s)))
          | None => if affected : bool then mutate o (set_computed computed) else ret tt
          end) ;;
         '(ids, evicted) <- loop reqs marked ;;
         ret ((if affected : bool then [request_id r] else []) ++ ids,
              (match first with Some idx => if evict_blocks then drop (Z.to_nat idx) block_ids else [] | None => [] end) ++ evicted)
     end) reqs ∅.

Definition _handle_invalid_blocks (invalid : list Z) (scheduled : list (string * Z)) : M S (list string) :=
  s <- get ;;
  let invalid := list_to_set invalid in
  loading <- for_collect (q_iter (skipped_waiting s)) (λ k, r <- obj (oid k) ;; ret (oid k, r)) ;;
  '(async_failed, _) <- _update_requests_with_invalid_blocks
     (filter (λ x, status x.2 = WAITING_FOR_REMOTE_KVS) loading).*1 invalid scheduled false ;;
  '(sync_failed, to_evict) <- _update_requests_with_invalid_blocks (running s) invalid scheduled true ;;
  if bool_decide (async_failed = [] ∧ sync_failed = []) then ret []
  else
    (if bool_decide (to_evict ≠ []) && negb (recompute_kv_load_failures (cfg s)) then on_kv (kv_evict_blocks to_evict) else ret tt) ;;
    if negb (recompute_kv_load_failures (cfg s)) then ret (async_failed ++ sync_failed)
    else
      modify (λ s, with_failed (list_to_set async_failed ∪ failed_recving_kv_req_ids s) s) ;;
      ret sync_failed.

Definition _update_from_kv_xfer_finished (out : KVConnectorOutput) : M S unit :=
  (match conn with None => ret tt | Some c => on_connector (update_connector_output c (finished_recving out) (finished_sending out)) end) ;;
  for_each (finished_recving out) (λ id,
    s <- get ;;
    o <- of_option AssertionError (lookup_request id s) ;;
    r <- obj o ;;
    if bool_decide (status r = WAITING_FOR_REMOTE_KVS)
    then modify (λ s, with_recved ({[ id ]} ∪ finished_recving_kv_req_ids s) s)
    else assert_ (is_finished (status r)) ;; _free_blocks o) ;;
  for_each (finished_sending out) (λ id,
    s <- get ;;
    o <- of_option AssertionError (lookup_request id s) ;;
    _free_blocks o).

(** ** [update_from_output] *)

(** Structured output: whether a request is constrained now, and whether its grammar
    accepts tokens or which of a draft it accepts, after the tokens of the request *)
Context (should_advance : SRequest → bool) (accept_tokens : SRequest → list Z → bool)
        (validate_tokens : SRequest → list Z → list Z).

(** Draft tokens the model did not accept are taken back. *)
Definition reject_draft (num_rejected : Z) r : SRequest :=
  let r := if bool_decide (0 < num_computed_tokens r) then set_computed (num_computed_tokens r - num_rejected) r else r in
  if bool_decide (0 < num_output_placeholders r) then set_placeholders (num_output_placeholders r - num_rejected) r else r.

(** New tokens are appended, or a pooled request stops: the tokens kept and whether it stopped. *)
Definition take_output o (new_token_ids : list Z) (pooled : bool) : M S (list Z * bool) :=
  s <- get ;;
  r <- obj o ;;
  '(new_token_ids, stopped) <-
    (if bool_decide (new_token_ids ≠ []) then
       if async_scheduling (cfg s) then async_update_request_with_output o new_token_ids
       else _update_request_with_output o new_token_ids
     else if pooling_params (info r) && pooled then mutate o (set_status FINISHED_STOPPED) ;; ret ([], true)
     else ret ([], false)) ;;
  r <- obj o ;;
  if bool_decide (new_token_ids ≠ []) && should_advance r then
    assert_ (use_structured_output (info r)) ;;
    assert_ (has_grammar r) ;;
    if accept_tokens r new_token_ids then ret (new_token_ids, stopped)
    else
      mutate o (set_status FINISHED_ERROR) ;;
      mutate o (set_resumable false) ;;
      ret (new_token_ids, true)
  else ret (new_token_ids, stopped).

(** What one request's iteration contributes: an output, and the set it is added to *)
Record update_acc := mkUpdateAcc {
  ua_outputs : list EngineCoreOutput;
  ua_stopped_running : list Z;
  ua_stopped_preempted : list Z
}.

Definition update_request (sched : SchedulerOutput) (out : ModelRunnerOutput) (id : string) o (acc : update_acc) : M S update_acc :=
  req_index <- of_option KeyError (od_get id (req_id_to_index out)) ;;
  generated <- (if bool_decide (sampled_token_ids out ≠ []) then of_option IndexError (list_get (sampled_token_ids out) req_index)
                else ret []) ;;
  let spec := default [] (od_get id (out_spec_decode_tokens sched)) in
  (if bool_decide (spec ≠ []) && bool_decide (generated ≠ [])
   then mutate o (reject_draft (Z.of_nat (length spec) - (Z.of_nat (length generated) - 1))) else ret tt) ;;
  r <- obj o ;;
  (if has_encoder_inputs r then _free_encoder_inputs o else ret tt) ;;
  pooled <- (if bool_decide (pooler_output out ≠ []) then of_option IndexError (list_get (pooler_output out) req_index)
             else ret false) ;;
  let status_before_stop := status r in
  '(new_token_ids, stopped) <- take_output o generated pooled ;;
  r <- obj o ;;
  acc <- (if stopped : bool then
            finished <- _handle_stopped_request o ;;
            (if finished : bool then _free_request o false else ret tt) ;;
            ret (if bool_decide (status_before_stop = RUNNING)
                 then mkUpdateAcc (ua_outputs acc) (ua_stopped_running acc ++ [o]) (ua_stopped_preempted acc)
                 else mkUpdateAcc (ua_outputs acc) (ua_stopped_running acc) (ua_stopped_preempted acc ++ [o]))
          else ret acc) ;;
  if bool_decide (new_token_ids ≠ []) || pooled || stopped then
    mutate o drop_prefill_stats ;;
    ret (mkUpdateAcc (ua_outputs acc ++ [mkEngineOut (client_index (info r)) id new_token_ids
                                           (if stopped then Some (status r) else None)])
           (ua_stopped_running acc) (ua_stopped_preempted acc))
  else ret acc.

Fixpoint update_requests (sched : SchedulerOutput) (out : ModelRunnerOutput) (failed : list string)
    (l : list (string * Z)) (acc : update_acc) : M S update_acc :=
  match l with
  | [] => ret acc
  | (id, n) :: l =>
      assert_ (bool_decide (0 < n)) ;;
      s <- get ;;
      if bool_decide (id ∈ failed) then update_requests sched out failed l acc
      else match lookup_request id s with
           | None => update_requests sched out failed l acc
           | Some o =>
               r <- obj o ;;
               if is_finished (status r) then update_requests sched out failed l acc
               else acc <- update_request sched out id o acc ;; update_requests sched out failed l acc
           end
  end.

(** The outputs and the ids of the requests that finished since the last outputs, by client *)
Definition update_from_output (sched : SchedulerOutput) (out : ModelRunnerOutput)
    : M S (list EngineCoreOutput * gmap Z (gset string)) :=
  failed <- (match kv_connector_output out with
             | Some c => if bool_decide (invalid_block_ids c ≠ [])
                         then _handle_invalid_blocks (invalid_block_ids c) (out_num_scheduled_tokens sched) else ret []
             | None => ret []
             end) ;;
  acc <- update_requests sched out failed (out_num_scheduled_tokens sched) (mkUpdateAcc [] [] []) ;;
  (if bool_decide (ua_stopped_running acc ≠ [])
   then modify (λ s, with_running (remove_all (running s) (ua_stopped_running acc)) s) else ret tt) ;;
  (if bool_decide (ua_stopped_preempted acc ≠ []) then
     keys <- for_collect (ua_stopped_preempted acc) key_of ;;
     on_which Waiting (q_remove_requests keys)
   else ret tt) ;;
  s <- get ;;
  errors <- (if bool_decide (failed ≠ []) && negb (recompute_kv_load_failures (cfg s)) then
               os <- for_collect failed (λ id, of_option KeyError (lookup_request id s)) ;;
               _ <- finish_requests (Some failed) FINISHED_ERROR ;;
               for_collect os (λ o, r <- obj o ;;
                 ret (mkEngineOut (client_index (info r)) (request_id r) [] (if is_finished (status r) then Some (status r) else None)))
             else ret []) ;;
  (match kv_connector_output out with Some c => _update_from_kv_xfer_finished c | None => ret tt end) ;;
  s <- get ;;
  let finished := default ∅ (finished_req_ids_dict s) in
  modify (λ s, with_finished_dict ((λ _, ∅) <$> finished_req_ids_dict s) s) ;;
  ret (ua_outputs acc ++ errors, finished).

(** ** Draft tokens *)
Definition update_draft_token_ids (drafts : list (string * list Z)) : M S unit :=
  for_each drafts (λ '(id, spec),
    s <- get ;;
    match lookup_request id s with
    | None => ret tt
    | Some o =>
        r <- obj o ;;
        if is_finished (status r) then ret tt
        else if is_prefill_chunk r then
          if bool_decide (spec_token_ids r ≠ []) then mutate o (set_spec []) else ret tt
        else
          spec <- (if should_advance r then
                     if use_structured_output (info r) && has_grammar r then ret (validate_tokens r spec) else raise AttributeError
                   else ret spec) ;;
          mutate o (set_spec spec)
    end).

(** The scheduled drafts with the real tokens, and how many of them are padding *)
Definition update_draft_token_ids_in_output (drafts : list (string * list Z)) (sched : SchedulerOutput)
    : M S (list (string * list Z) * list (string * Z)) :=
  (fix loop (drafts : list (string * list Z)) (spec_tokens : list (string * list Z)) (invalid : list (string * Z)) :=
     match drafts with
     | [] => ret (spec_tokens, invalid)
     | (id, spec) :: drafts =>
         s <- get ;;
         match lookup_request id s with
         | None => loop drafts spec_tokens invalid
         | Some o =>
             r <- obj o ;;
             if is_finished (status r) then loop drafts spec_tokens invalid
             else
               let n := length (default [] (od_get id spec_tokens)) in
               if bool_decide (n = 0%nat) then loop drafts spec_tokens invalid
               else
                 let spec := take n spec in
                 spec <- (if should_advance r then
                            assert_ (use_structured_output (info r) && has_grammar r) ;; ret (validate_tokens r spec)
                          else ret spec) ;;
                 let num_invalid := Z.of_nat n - Z.of_nat (length spec) in
                 loop drafts (od_set id (spec ++ replicate (Z.to_nat num_invalid) (-1)) spec_tokens)
                   (if bool_decide (num_invalid ≠ 0) then od_set id num_invalid invalid else invalid)
         end
     end) drafts (out_spec_decode_tokens sched) [].

(** ** Counts and resets *)
Definition get_request_counts s : Z * Z :=
  (Z.of_nat (length (running s)),
   Z.of_nat (length (q_items (waiting s))) + Z.of_nat (length (q_items (skipped_waiting s)))).

Definition set_pause_state (p : PauseState) : M S unit := modify (with_pause p).

Definition get_num_unfinished_requests s : Z :=
  match pause_state s with
  | PAUSED_ALL => 0
  | PAUSED_NEW => Z.of_nat (length (running s))
  | UNPAUSED => (get_request_counts s).2 - num_waiting_for_streaming_input s + Z.of_nat (length (running s))
  end.

Definition has_finished_requests s : bool :=
  if bool_decide (finished_req_ids s ≠ ∅) then true
  else match conn with
       | None => false
       | Some _ => bool_decide ((get_request_counts s).2 + (get_request_counts s).1 < Z.of_nat (length (requests s)))
       end.

(** [while self.running: ...] *)
Fixpoint preempt_all (fuel : nat) : M S unit :=
  s <- get ;;
  match list_pop (running s), fuel with
  | None, _ => ret tt
  | Some _, O => raise RuntimeError
  | Some (o, rest), Datatypes.S fuel =>
      modify (with_running rest) ;;
      _preempt_request o ;;
      mutate o (λ r, set_discard (num_output_placeholders r) r) ;;
      mutate o (set_placeholders 0) ;;
      preempt_all fuel
  end.

Definition reset_connector_cache : M S bool :=
  match conn with
  | None => ret true
  | Some c => b <- on_connector (reset_cache c) ;; ret (match b with Some false => false | _ => true end)
  end.

Definition reset_prefix_cache (reset_running_requests reset_connector : bool) : M S bool :=
  s <- get ;;
  (if reset_running_requests then
     preempt_all (length (running s)) ;; modify (with_prev ∅)
   else ret tt) ;;
  reset_successful <- on_kv kv_reset_prefix_cache ;;
  (if reset_running_requests && negb reset_successful then raise RuntimeError else ret tt) ;;
  if reset_connector then b <- reset_connector_cache ;; ret (b && reset_successful) else ret reset_successful.

Definition reset_encoder_cache : M S unit := on_encoder enc_reset.
End ops.
