(* ===== verification/SchedulerInv.v ===== *)
(** * The scheduler: interfaces and invariant

    What the scheduler relies on of the managers it calls ([KVLaws], [EncoderLaws]), and
    the invariant of its queues: every request of the dictionary is in exactly one of the
    running list and the two waiting queues, with the status and the number of computed
    tokens that go with it. *)

From S2P Require Import Prelude OrderedDict FreeQueue BlockHash RequestQueue SchedQueue SchedRequest Raises Scheduler.
From S2P Require EncoderCache KVCacheManager.

Open Scope Z_scope.

(** ** Interfaces *)

(** [kv_inv live x]: the manager is consistent and only the requests [live] hold blocks:
    the scheduler keeps them to the running ones.
    [kv_hit]: blocks found for a request, which [allocate_slots] may be given. *)
Class KVLaws (F : exn → Prop) (K : Type) `{!KVManager K} := {
  kv_inv : gset string → K → Prop;
  kv_hit : K → KRequest → KVCacheBlocks → Z → Prop;
  kv_inv_mono live live' x : live ⊆ live' → kv_inv live x → kv_inv live' x;
  kvl_step live x : kv_inv live x → wpx F kv_new_step_starts x (λ _ x', kv_inv live x');
  kvl_computed live x req :
    kv_inv live x → 0 < KVCacheManager.num_tokens req →
    wpx F (kv_get_computed_blocks req) x (λ p x',
      kv_inv live x' ∧ kv_hit x' req p.1 p.2 ∧ 0 ≤ p.2 < KVCacheManager.num_tokens req);
  kvl_allocate_running live x req n lookahead :
    kv_inv live x → KVCacheManager.request_id req ∈ live → 0 < n →
    wpx F (kv_allocate_slots n 0 None lookahead 0 false 0 false) (x, req) (λ _ y,
      kv_inv live y.1 ∧ all_token_ids (KVCacheManager.hashed y.2) = all_token_ids (KVCacheManager.hashed req));
  kvl_allocate_waiting live x req b hit n lookahead encoder full :
    kv_inv live x → KVCacheManager.request_id req ∉ live → kv_hit x req b hit → KVCacheManager.num_computed_tokens req = 0 →
    0 < n →
    wpx F (kv_allocate_slots n hit (Some b) lookahead 0 false encoder full) (x, req) (λ res y,
      kv_inv (match res with Some _ => {[ KVCacheManager.request_id req ]} ∪ live | None => live end) y.1 ∧
      all_token_ids (KVCacheManager.hashed y.2) = all_token_ids (KVCacheManager.hashed req));
  kvl_cache live x req n :
    kv_inv live x → KVCacheManager.request_id req ∈ live →
    wpx F (kv_cache_blocks n) (x, req) (λ _ y,
      kv_inv live y.1 ∧ all_token_ids (KVCacheManager.hashed y.2) = all_token_ids (KVCacheManager.hashed req));
  kvl_free live x req :
    kv_inv live x → wpx F (kv_free req) x (λ _ x', kv_inv (live ∖ {[ KVCacheManager.request_id req ]}) x');
  kvl_common live x id : kv_inv live x → wpx F (kv_get_num_common_prefix_blocks id) x (λ _ x', kv_inv live x');
  kvl_take live x : kv_inv live x → wpx F kv_take_new_block_ids x (λ _ x', kv_inv live x');
  kvl_reset live x : kv_inv live x → wpx F kv_reset_prefix_cache x (λ b x', kv_inv live x' ∧ (live = ∅ → b = true))
}.

(** [enc_ok]: the features a request may have *)
Class EncoderLaws (F : exn → Prop) (E : Type) `{!EncoderManager E} := {
  enc_inv : E → Prop;
  enc_ok : list MMFeature → Prop;
  encl_check x r i : enc_inv x → enc_ok (mm_features r) → 0 ≤ i < Z.of_nat (length (mm_features r)) →
    wpx F (enc_check_and_update_cache (encoder_request r) i) x (λ _ x', enc_inv x');
  encl_can x r i b n : enc_inv x → enc_ok (mm_features r) → 0 ≤ i < Z.of_nat (length (mm_features r)) →
    wpx F (enc_can_allocate (encoder_request r) i b n) x (λ _ x', enc_inv x');
  encl_allocate x r i : enc_inv x → enc_ok (mm_features r) → 0 ≤ i < Z.of_nat (length (mm_features r)) →
    wpx F (enc_allocate (encoder_request r) i) x (λ _ x', enc_inv x');
  encl_free x r : enc_inv x → enc_ok (mm_features r) → wpx F (enc_free (encoder_request r)) x (λ _ x', enc_inv x');
  encl_free_input x r i : enc_inv x → enc_ok (mm_features r) → 0 ≤ i < Z.of_nat (length (mm_features r)) →
    wpx F (enc_free_encoder_input (encoder_request r) i) x (λ _ x', enc_inv x');
  encl_cached x r i : enc_inv x → i ∈ enc_get_cached_input_ids (encoder_request r) x → 0 ≤ i < Z.of_nat (length (mm_features r));
  encl_freed x : enc_inv x → wpx F enc_get_freed_mm_hashes x (λ _ x', enc_inv x');
  encl_reset x : enc_inv x → wpx F enc_reset x (λ _ x', enc_inv x')
}.

(** ** Requests *)

(** The mask of a feature has its length; the input of an encoder-decoder model comes first. *)
Definition feature_ok (c : config) (f : MMFeature) : Prop :=
  (∀ l, is_embed f = Some l → Z.of_nat (length l) = mm_length f) ∧ (is_encoder_decoder c = true → mm_offset f = 0).

(** A text or multimodal request that is not a streaming session, shorter than the
    context, and whose minimum of output tokens fits into the context *)
Record req_ok (enc_ok : list MMFeature → Prop) (c : config) (r : SRequest) : Prop := {
  rq_tokens : 0 < num_tokens r < max_model_len c;
  rq_split : num_tokens r = num_prompt_tokens r + num_output_tokens r;
  rq_fresh : prefill_stats r = true → output_token_ids r = [];
  rq_placeholders : 0 ≤ num_output_placeholders r;
  rq_sync : async_scheduling c = false → num_output_placeholders r = 0;
  rq_features : Forall (feature_ok c) (mm_features r);
  rq_encoder : enc_ok (mm_features r);
  rq_single : resumable r = false;
  rq_live : is_finished (status r) = false;
  rq_sampling : pooling_params (info r) = false →
    ∃ sp, sampling_params r = Some sp ∧ num_prompt_tokens r + min_tokens sp ≤ max_model_len c
}.

(** [k]: tokens scheduled beyond the ones the request has, to be taken back if rejected *)
Record running_ok (c : config) (k : Z) (r : SRequest) : Prop := {
  ro_status : status r = RUNNING;
  ro_nonneg : 0 ≤ k ≤ num_computed_tokens r;
  ro_len : num_computed_tokens r < max_model_len c;
  ro_computed : num_computed_tokens r ≤ num_tokens r + num_output_placeholders r + k
}.
Definition waiting_ok (r : SRequest) : Prop :=
  (status r = WAITING ∨ status r = PREEMPTED) ∧ num_computed_tokens r = 0.
Definition skipped_ok (r : SRequest) : Prop :=
  (status r = WAITING ∨ status r = WAITING_FOR_STRUCTURED_OUTPUT_GRAMMAR) ∧ num_computed_tokens r = 0.

(** The configurations the theorems are about: no LoRA limit (see the findings) *)
Record cfg_ok (c : config) : Prop := {
  co_budget : 0 ≤ max_num_scheduled_tokens c;
  co_block : need_mamba_block_aligned_split c = true → 0 < cache_block_size c;
  co_loras : max_loras c = None
}.

Section inv.
Context {K E C : Type} (F : exn → Prop) `{!KVManager K} `{!EncoderManager E}.
Context `{!KVLaws F K} `{!EncoderLaws F E}.
Notation S := (t K E C).
Implicit Types (s : S) (o : Z) (r : SRequest) (X P : list Z) (k : string → Z) (q : request_queue).

Definition name s o : string := match objs s !! o with Some r => request_id r | None => EmptyString end.
(** The requests that may hold blocks *)
Definition live_ids s : gset string := list_to_set (name s <$> running s).
Definition parts s X : list Z :=
  running s ++ queue_oids (waiting s) ++ queue_oids (skipped_waiting s) ++ X.
Definition holds s (Φ : SRequest → Prop) o : Prop := ∃ r, objs s !! o = Some r ∧ Φ r.
Definition keyed s (x : Request) : Prop := holds s (λ r, x = queue_key (oid x) r) (oid x).

(** [k]: speculative tokens in flight; [X]: requests set aside in this step; [P]: requests
    preempted in this step *)
Record inv k X P s : Prop := {
  inv_cfg : cfg_ok (cfg s);
  inv_ids : NoDup (requests s).*1;
  inv_objs : Forall (λ p, holds s (λ r, request_id r = p.1 ∧ req_ok (enc_ok (F := F)) (cfg s) r) p.2) (requests s);
  inv_parts : (requests s).*2 ≡ₚ parts s X;
  inv_running : Forall (λ o, holds s (running_ok (cfg s) (k (name s o))) o) (running s);
  inv_waiting : Forall (λ x, keyed s x ∧ holds s waiting_ok (oid x)) (q_items (waiting s));
  inv_skipped : Forall (λ x, keyed s x ∧ holds s skipped_ok (oid x)) (q_items (skipped_waiting s));
  inv_extra : Forall (holds s skipped_ok) X;
  inv_wf : q_wf (policy (cfg s)) (waiting s) ∧ q_wf (policy (cfg s)) (skipped_waiting s);
  inv_prev : Forall (λ o, holds s (λ r, status r = PREEMPTED) o →
                          name s o ∉ prev_step_scheduled_req_ids s ∨ o ∈ P) (queue_oids (waiting s));
  inv_cap : Z.of_nat (length (running s)) ≤ max_num_running_reqs (cfg s);
  inv_kv : kv_inv (F := F) (live_ids s) (kv s);
  inv_enc : enc_inv (F := F) (encoder s)
}.

(** ** Looking up *)
Lemma inv_obj k X P s o : inv k X P s → o ∈ parts s X →
  ∃ r, objs s !! o = Some r ∧ name s o = request_id r ∧ req_ok (enc_ok (F := F)) (cfg s) r ∧ (request_id r, o) ∈ requests s.
Proof.
  intros Hi Ho. rewrite <- (inv_parts _ _ _ _ Hi) in Ho. apply list_elem_of_fmap in Ho as ([id o'] & -> & Hin).
  pose proof (inv_objs _ _ _ _ Hi) as Hall. rewrite Forall_forall in Hall. destruct (Hall _ Hin) as (r & Hr & Hid & Hok).
  simpl in *. exists r. unfold name. rewrite Hr. by subst.
Qed.
Lemma inv_nodup k X P s : inv k X P s → NoDup (parts s X).
Proof.
  intros Hi. rewrite <- (inv_parts _ _ _ _ Hi).
  pose proof (inv_ids _ _ _ _ Hi) as Hnd. pose proof (inv_objs _ _ _ _ Hi) as Hall. clear Hi.
  induction (requests s) as [|[id o] l IH]; [constructor|]. csimpl in *.
  apply NoDup_cons in Hnd as [Hid Hnd]. apply Forall_cons in Hall as [(r & Hr & Hn & _) Hall]. constructor; [|by apply IH].
  intros ([id' o'] & Heq & Hin)%list_elem_of_fmap. simpl in *. subst o'. rewrite Forall_forall in Hall.
  destruct (Hall _ Hin) as (r' & Hr' & Hn' & _). simpl in *. simplify_eq. apply Hid. by apply (list_elem_of_fmap_2 fst) in Hin.
Qed.
Lemma inv_name_inj k X P s o o' : inv k X P s → o ∈ parts s X → o' ∈ parts s X → name s o = name s o' → o = o'.
Proof.
  intros Hi Ho Ho' Hn. destruct (inv_obj _ _ _ _ _ Hi Ho) as (r & Hr & Hnr & _ & Hin).
  destruct (inv_obj _ _ _ _ _ Hi Ho') as (r' & Hr' & Hnr' & _ & Hin').
  apply (od_elem_get _ _ _ (inv_ids _ _ _ _ Hi)) in Hin. apply (od_elem_get _ _ _ (inv_ids _ _ _ _ Hi)) in Hin'. congruence.
Qed.
Lemma inv_run_obj k X P s o : inv k X P s → o ∈ running s →
  ∃ r, objs s !! o = Some r ∧ name s o = request_id r ∧ req_ok (enc_ok (F := F)) (cfg s) r ∧
       running_ok (cfg s) (k (request_id r)) r ∧ od_get (request_id r) (requests s) = Some o.
Proof.
  intros Hi Ho. destruct (inv_obj _ _ _ _ o Hi) as (r & Hr & Hn & Hok & Hin); [unfold parts; set_solver|].
  pose proof (inv_running _ _ _ _ Hi) as Hrun. rewrite Forall_forall in Hrun. destruct (Hrun _ Ho) as (r' & Hr' & Hok').
  simplify_eq. rewrite Hn in Hok'. exists r. split_and!; [done..|]. apply od_elem_get; [apply Hi|done].
Qed.

(** ** Changes that keep the invariant *)
Lemma inv_with_kv k X P s x : inv k X P s → kv_inv (F := F) (live_ids s) x → inv k X P (with_kv x s).
Proof. by intros [] Hx; split. Qed.
Lemma inv_with_encoder k X P s e : inv k X P s → enc_inv (F := F) e → inv k X P (with_encoder e s).
Proof. by intros [] Hx; split. Qed.

(** An object replaced by one with the same id, priority and arrival time *)
Definition same_key r r' : Prop := info r' = info r ∧ arrival_time r' = arrival_time r.
Definition put_obj o r s : S := with_objs (<[o := r]> (objs s)) s.

Lemma holds_put s o r (Φ : SRequest → Prop) x : (x = o → Φ r) → (x ≠ o → holds s Φ x) → holds (put_obj o r s) Φ x.
Proof.
  intros Heq Hne. unfold holds, put_obj. simpl. destruct (decide (x = o)) as [->|Hx].
  - exists r. rewrite lookup_insert_eq. auto.
  - destruct (Hne Hx) as (r' & ? & ?). exists r'. by rewrite lookup_insert_ne by done.
Qed.
Lemma name_put s o r r' x : objs s !! o = Some r → same_key r r' → name (put_obj o r' s) x = name s x.
Proof.
  intros Hr [Hi _]. unfold name, put_obj. simpl. destruct (decide (x = o)) as [->|Hx].
  - by rewrite lookup_insert_eq, Hr, Hi.
  - by rewrite lookup_insert_ne by done.
Qed.
Lemma live_put s o r r' : objs s !! o = Some r → same_key r r' → live_ids (put_obj o r' s) = live_ids s.
Proof. intros Hr Hk. unfold live_ids. f_equal. apply list_fmap_ext. intros i x _. by apply (name_put s o r). Qed.
Lemma keyed_put s o r r' x : objs s !! o = Some r → same_key r r' → keyed s x → keyed (put_obj o r' s) x.
Proof.
  intros Hr Hk Hx. apply holds_put; [|done]. intros Ho. destruct Hx as (r0 & Hr0 & Hx). rewrite Ho in Hr0. simplify_eq.
  destruct Hk as [Hi Ha]. rewrite Hx. unfold queue_key. simpl. by rewrite Hi, Ha.
Qed.

(** One object changes and moves; every other request stays where it is. *)
Lemma inv_move k k' X X' P P' s s' o r r' :
  inv k X P s → objs s !! o = Some r → same_key r r' →
  objs s' = <[o := r']> (objs s) → cfg s' = cfg s → requests s' = requests s →
  prev_step_scheduled_req_ids s' = prev_step_scheduled_req_ids s → (∀ x, x ∈ P → x ∈ P') →
  parts s' X' ≡ₚ parts s X →
  (req_ok (enc_ok (F := F)) (cfg s) r → req_ok (enc_ok (F := F)) (cfg s) r') →
  (∀ x, x ∈ running s' → x ≠ o ∧ x ∈ running s ∧ k' (name s x) = k (name s x) ∨ x = o ∧ running_ok (cfg s) (k' (request_id r)) r') →
  (∀ x, x ∈ q_items (waiting s') → oid x ≠ o ∧ x ∈ q_items (waiting s) ∨
     x = queue_key o r' ∧ waiting_ok r' ∧
     (status r' = PREEMPTED → o ∈ P' ∨ status r = PREEMPTED ∧ o ∈ queue_oids (waiting s))) →
  (∀ x, x ∈ q_items (skipped_waiting s') → oid x ≠ o ∧ x ∈ q_items (skipped_waiting s) ∨ x = queue_key o r' ∧ skipped_ok r') →
  (∀ x, x ∈ X' → x ≠ o ∧ x ∈ X ∨ x = o ∧ skipped_ok r') →
  q_wf (policy (cfg s)) (waiting s') ∧ q_wf (policy (cfg s)) (skipped_waiting s') →
  Z.of_nat (length (running s')) ≤ max_num_running_reqs (cfg s) →
  kv_inv (F := F) (live_ids s') (kv s') → enc_inv (F := F) (encoder s') →
  inv k' X' P' s'.
Proof.
  intros [Hc Hids Hobjs Hp Hrun Hw Hs Hex Hqwf Hprev Hcap Hkv Henc] Hr Hkey Ho' Hc' Hq' Hpr' HP Hparts Hreq R W Sk Y Hwf Hcap' Hkv' Henc'.
  assert (∀ Φ x, (x = o → Φ r') → (x ≠ o → holds s Φ x) → holds s' Φ x) as Hh.
  { intros Φ x H1 H2. destruct (holds_put s o r' Φ x H1 H2) as (rx & Hrx & HΦ). exists rx. by rewrite Ho'. }
  assert (∀ x, name s' x = name s x) as Hname.
  { intros x. rewrite <- (name_put s o r r' x) by done. unfold name. by rewrite Ho'. }
  assert (∀ x, keyed s x → oid x ≠ o → keyed s' x) as Hkeyed by (intros x Hx Hne; apply Hh; [done|by intros]).
  assert (objs s' !! o = Some r') as Hro by by rewrite Ho', lookup_insert_eq.
  assert (keyed s' (queue_key o r')) as Hko by (exists r'; by split).
  rewrite Forall_forall in Hobjs. rewrite Forall_forall in Hrun. rewrite Forall_forall in Hw. rewrite Forall_forall in Hs.
  rewrite Forall_forall in Hex. rewrite Forall_forall in Hprev. split; rewrite ?Hc', ?Hq'; try done.
  - apply Forall_forall. intros [id x] Hin. destruct (Hobjs _ Hin) as (rx & Hrx & Hid & Hok). simpl in *. apply Hh.
    + intros ->. simplify_eq. split; [by destruct Hkey as [-> _]|auto].
    + intros _. by exists rx.
  - by rewrite Hp.
  - apply Forall_forall. intros x Hx. rewrite ?Hc', Hname. destruct (R x Hx) as [(Hne & Hx' & ->)|[-> Hro']]; apply Hh; try done; [auto|].
    intros _. unfold name. by rewrite Hr.
  - apply Forall_forall. intros x Hx. destruct (W x Hx) as [[Hne Hx']|(-> & Hwr & _)].
    + destruct (Hw x Hx'). split; [auto|by apply Hh].
    + split; [done|]. by exists r'.
  - apply Forall_forall. intros x Hx. destruct (Sk x Hx) as [[Hne Hx']|(-> & Hwr)].
    + destruct (Hs x Hx'). split; [auto|by apply Hh].
    + split; [done|]. by exists r'.
  - apply Forall_forall. intros x Hx. destruct (Y x Hx) as [[Hne Hx']|[-> ?]]; apply Hh; try done. auto.
  - apply Forall_forall. intros x (y & -> & Hy)%list_elem_of_fmap (ry & Hry & Hst). rewrite Hname, Hpr'.
    destruct (W y Hy) as [[Hne Hy']|(-> & _ & Hpre)].
    + destruct (Hprev (oid y)) as [?|?]; [by apply list_elem_of_fmap_2| |by left|right; auto].
      exists ry. by rewrite Ho', lookup_insert_ne in Hry.
    + simpl in *. rewrite Hro in Hry. simplify_eq. destruct (Hpre Hst) as [?|[Hst' Hin]]; [by right|].
      destruct (Hprev o Hin) as [?|?]; [by exists r|by left|right; auto].
Qed.

Lemma inv_put k X P s o r r' :
  inv k X P s → objs s !! o = Some r → same_key r r' →
  (req_ok (enc_ok (F := F)) (cfg s) r → req_ok (enc_ok (F := F)) (cfg s) r') →
  (o ∈ running s → running_ok (cfg s) (k (request_id r)) r') →
  (o ∈ queue_oids (waiting s) → waiting_ok r' ∧ (status r' = PREEMPTED → status r = PREEMPTED)) →
  (o ∈ queue_oids (skipped_waiting s) ++ X → skipped_ok r') →
  inv k X P (put_obj o r' s).
Proof.
  intros Hi Hr Hk Hreq Hrun Hwait Hskip.
  assert (∀ x, keyed s x → oid x = o → x = queue_key o r') as Hkey.
  { intros x (rx & Hrx & ->) <-. simpl in *. simplify_eq. destruct Hk as [Hinf Ha]. unfold queue_key. by rewrite Hinf, Ha. }
  pose proof (inv_waiting _ _ _ _ Hi) as Hw. pose proof (inv_skipped _ _ _ _ Hi) as Hs.
  rewrite Forall_forall in Hw. rewrite Forall_forall in Hs.
  eapply (inv_move k k X X P P s _ o r r'); try done; try apply Hi; [..|rewrite (live_put s o r); [apply Hi|done..]].
  - intros x Hx. destruct (decide (x = o)) as [->|]; [right|left]; auto.
  - intros x Hx. destruct (decide (oid x = o)) as [Heq|]; [right|by left]. apply (list_elem_of_fmap_2 oid) in Hx as Hin. rewrite Heq in Hin.
    destruct (Hwait Hin). split_and!; [apply Hkey; [by apply Hw|done]|done|]. intros Hp. right. auto.
  - intros x Hx. destruct (decide (oid x = o)) as [Heq|]; [right|by left]. apply (list_elem_of_fmap_2 oid) in Hx as Hin. rewrite Heq in Hin.
    split; [apply Hkey; [by apply Hs|done]|]. apply Hskip, elem_of_app. by left.
  - intros x Hx. destruct (decide (x = o)) as [->|]; [right|by left]. split; [done|]. apply Hskip, elem_of_app. by right.
Qed.

(** Where a request is, it is nowhere else. *)
Lemma inv_running_only k X P s o : inv k X P s → o ∈ running s →
  o ∉ queue_oids (waiting s) ∧ o ∉ queue_oids (skipped_waiting s) ++ X.
Proof. intros Hi Ho. pose proof (inv_nodup _ _ _ _ Hi) as (_ & Hd & _)%NoDup_app. specialize (Hd o Ho). set_solver. Qed.

Lemma inv_put_running k X P s o r r' :
  inv k X P s → o ∈ running s → objs s !! o = Some r → same_key r r' →
  (req_ok (enc_ok (F := F)) (cfg s) r → req_ok (enc_ok (F := F)) (cfg s) r') → running_ok (cfg s) (k (request_id r)) r' →
  inv k X P (put_obj o r' s).
Proof.
  intros Hi Ho Hr Hk Hreq Hrun. destruct (inv_running_only _ _ _ _ _ Hi Ho) as [Hw Hs]. by eapply inv_put.
Qed.

(** A running request advances, its tokens in flight with it. *)
Lemma inv_advance k k' X P s o r r' :
  inv k X P s → o ∈ running s → objs s !! o = Some r → same_key r r' →
  (req_ok (enc_ok (F := F)) (cfg s) r → req_ok (enc_ok (F := F)) (cfg s) r') → running_ok (cfg s) (k' (request_id r)) r' →
  (∀ id, id ≠ request_id r → k' id = k id) →
  inv k' X P (put_obj o r' s).
Proof.
  intros Hi Ho Hr Hk Hreq Hrun Hk'. destruct (inv_running_only _ _ _ _ _ Hi Ho) as [Hw Hs].
  eapply (inv_move k k' X X P P s _ o r r'); try done; try apply Hi; [..|rewrite (live_put s o r); [apply Hi|done..]].
  - intros x Hx. destruct (decide (x = o)) as [->|Hne]; [by right|left]. split_and!; [done..|]. apply Hk'. intros Hn.
    apply Hne, (inv_name_inj _ _ _ _ _ _ Hi); [unfold parts; set_solver..|]. rewrite Hn. unfold name. by rewrite Hr.
  - intros x Hx. left. split; [|done]. intros Heq. apply Hw. rewrite <- Heq. by apply list_elem_of_fmap_2.
  - intros x Hx. left. split; [|done]. intros Heq. apply Hs, elem_of_app. left. rewrite <- Heq. by apply list_elem_of_fmap_2.
  - intros x Hx. left. split; [|done]. intros ->. apply Hs, elem_of_app. by right.
Qed.

(** ** Runs of the accessors *)
Lemma wpx_obj s o r (Q : SRequest → S → Prop) : objs s !! o = Some r → Q r s → wpx F (obj o) s Q.
Proof. intros Hr HQ. unfold obj. wpx_steps. by apply (wpx_of_option _ _ _ r). Qed.
Lemma wpx_mutate s o f r (Q : unit → S → Prop) : objs s !! o = Some r → Q tt (put_obj o (f r) s) → wpx F (mutate o f) s Q.
Proof. intros Hr HQ. unfold mutate. wpx_steps. by apply (wpx_obj _ _ r). Qed.
Lemma wpx_key s o r (Q : Request → S → Prop) : objs s !! o = Some r → Q (queue_key o r) s → wpx F (key_of o) s Q.
Proof. intros Hr HQ. unfold key_of. wpx_steps. by apply (wpx_obj _ _ r). Qed.
Lemma wpx_on_kv {A} (m : M K A) s (R : A → K → Prop) (Q : A → S → Prop) :
  wpx F m (kv s) R → (∀ a x, R a x → Q a (with_kv x s)) → wpx F (on_kv m) s Q.
Proof. intros Hm HQ. apply wpx_zoom. by eapply wpx_mono. Qed.
Lemma wpx_on_encoder {A} (m : M E A) s (R : A → E → Prop) (Q : A → S → Prop) :
  wpx F m (encoder s) R → (∀ a x, R a x → Q a (with_encoder x s)) → wpx F (on_encoder m) s Q.
Proof. intros Hm HQ. apply wpx_zoom. by eapply wpx_mono. Qed.

(** [allocate_slots] and [cache_blocks] change the hashing state of the request only. *)
Lemma wpx_on_kv_request {A} (m : M (K * KRequest) A) s o r (R : A → K * KRequest → Prop) (Q : A → S → Prop) :
  objs s !! o = Some r → wpx F m (kv s, kv_request r) R →
  (∀ a x req, R a (x, req) → Q a (put_obj o (set_hashed (KVCacheManager.hashed req) r) (with_kv x s))) →
  wpx F (on_kv_request o m) s Q.
Proof.
  intros Hr Hm HQ. unfold wpx, on_kv_request in *. rewrite Hr. destruct (m _) as [[a|e] [x req]]; [|done]. by apply HQ.
Qed.
End inv.
