(* ===== verification/SchedulerPreempt.v ===== *)
(** * The scheduler: preemption and the parts of a step

    Preempting a request, the encoder inputs of a step and the block-aligned split keep
    the invariant; the numbers of tokens they return are within the ones asked for. *)

From S2P Require Import Prelude OrderedDict FreeQueue BlockHash RequestQueue SchedQueue SchedRequest Raises Scheduler.
From S2P Require Import SchedulerInv.
From S2P Require EncoderCache KVCacheManager.

Open Scope Z_scope.

Section parts.
Context {K E C : Type} (F : exn → Prop) `{!KVManager K} `{!EncoderManager E}.
Context `{!KVLaws F K} `{!EncoderLaws F E}.
Notation S := (t K E C).
Notation inv := (inv F).
Implicit Types (s : S) (o p : Z) (r : SRequest) (X P : list Z) (k : string → Z) (q : request_queue).

(** What a step leaves as it is *)
Definition same_req r r' : Prop :=
  same_key r r' ∧ all_token_ids (hashed r') = all_token_ids (hashed r) ∧ output_token_ids r' = output_token_ids r ∧
  num_output_placeholders r' = num_output_placeholders r.
Record kept s s' : Prop := {
  kept_cfg : cfg s' = cfg s;
  kept_requests : requests s' = requests s;
  kept_prev : prev_step_scheduled_req_ids s' = prev_step_scheduled_req_ids s;
  kept_pause : pause_state s' = pause_state s;
  kept_objs o r : objs s !! o = Some r → ∃ r', objs s' !! o = Some r' ∧ same_req r r'
}.
Lemma same_req_refl r : same_req r r.
Proof. by repeat split. Qed.
Lemma kept_refl s : kept s s.
Proof. split; [done..|]. intros o r Hr. by exists r. Qed.
Lemma kept_trans s1 s2 s3 : kept s1 s2 → kept s2 s3 → kept s1 s3.
Proof.
  intros [H1 H2 H3 H4 H5] [G1 G2 G3 G4 G5]. split; [congruence..|]. intros o r Hr.
  destruct (H5 o r Hr) as (r' & Hr' & [[??] (?&?&?)]). destruct (G5 o r' Hr') as (r'' & Hr'' & [[??] (?&?&?)]).
  exists r''. split; [done|]. repeat split; congruence.
Qed.
Lemma kept_put s o r r' : objs s !! o = Some r → same_req r r' → kept s (put_obj o r' s).
Proof.
  intros Hr Hs. split; [done..|]. intros x rx Hx. unfold put_obj. simpl. destruct (decide (x = o)) as [->|].
  - simplify_eq. exists r'. by rewrite lookup_insert_eq.
  - exists rx. by rewrite lookup_insert_ne by done.
Qed.
Lemma kept_name s s' X k P o : kept s s' → inv k X P s → o ∈ parts s X → name s' o = name s o.
Proof.
  intros Hk Hi Ho. destruct (inv_obj _ _ _ _ _ _ Hi Ho) as (r & Hr & Hn & _). destruct (kept_objs _ _ Hk _ _ Hr) as (r' & Hr' & [[Hi' _] _]).
  rewrite Hn. unfold name. by rewrite Hr', Hi'.
Qed.

(** The tokens of every request stay. *)
Definition tokens_as s s' : Prop := ∀ o r, objs s !! o = Some r →
  ∃ r', objs s' !! o = Some r' ∧ info r' = info r ∧ all_token_ids (hashed r') = all_token_ids (hashed r).
Lemma tokens_as_refl s : tokens_as s s.
Proof. intros o r Hr. by exists r. Qed.
Lemma tokens_as_objs s s' : objs s' = objs s → tokens_as s s'.
Proof. intros Ho o r Hr. exists r. by rewrite Ho. Qed.
Lemma tokens_as_trans s1 s2 s3 : tokens_as s1 s2 → tokens_as s2 s3 → tokens_as s1 s3.
Proof.
  intros H12 H23 o r Hr. destruct (H12 o r Hr) as (r' & Hr' & Hi & Ht). destruct (H23 o r' Hr') as (r'' & Hr'' & Hi' & Ht').
  exists r''. split_and!; congruence.
Qed.
Lemma tokens_as_put s o r r' : objs s !! o = Some r → info r' = info r → all_token_ids (hashed r') = all_token_ids (hashed r) → tokens_as s (put_obj o r' s).
Proof.
  intros Hr Hi Ht x rx Hx. unfold put_obj. simpl. destruct (decide (x = o)) as [->|].
  - simplify_eq. exists r'. by rewrite lookup_insert_eq.
  - exists rx. by rewrite lookup_insert_ne by done.
Qed.
Lemma kept_tokens s s' : kept s s' → tokens_as s s'.
Proof. intros Hk o r Hr. destruct (kept_objs _ _ Hk _ _ Hr) as (r' & Hr' & [[Hi _] (Ht & _)]). by exists r'. Qed.

Lemma put_put s o r r' : put_obj o r' (put_obj o r s) = put_obj o r' s.
Proof. unfold put_obj, with_objs. simpl. by rewrite insert_insert_eq. Qed.
Lemma lookup_put s o r : objs (put_obj o r s) !! o = Some r.
Proof. apply lookup_insert_eq. Qed.
Lemma lookup_put_ne s o r x : x ≠ o → objs (put_obj o r s) !! x = objs s !! x.
Proof. intros. by apply lookup_insert_ne. Qed.
Lemma num_tokens_eq r r' : all_token_ids (hashed r') = all_token_ids (hashed r) → num_tokens r' = num_tokens r.
Proof. unfold num_tokens. by intros ->. Qed.

(** ** Preemption *)
Definition preempted r : SRequest :=
  set_preemptions (num_preemptions r + 1) (set_spec [] (set_computed 0 (set_status PREEMPTED r))).

Lemma inv_preempt k X P s p l1 l2 r q x e :
  inv k X P s → running s = l1 ++ p :: l2 → objs s !! p = Some r →
  q_wf (policy (cfg s)) q → q_items q ≡ₚ queue_key p (preempted r) :: q_items (waiting s) →
  kv_inv (F := F) (live_ids s ∖ {[ request_id r ]}) x → enc_inv (F := F) e →
  inv k X (p :: P) (with_waiting q (put_obj p (preempted r) (with_encoder e (with_kv x (with_running (l1 ++ l2) s))))).
Proof.
  intros Hi Hrun Hr Hwf Hq Hx He.
  assert (p ∈ running s) as Hp by (rewrite Hrun; set_solver). destruct (inv_running_only _ _ _ _ _ _ Hi Hp) as [Hpw Hps].
  assert (p ∉ l1 ++ l2) as Hpr.
  { pose proof (inv_nodup _ _ _ _ _ Hi) as Hnd. unfold parts in Hnd. rewrite Hrun in Hnd. apply NoDup_app in Hnd as (Hd1 & _).
    rewrite <- Permutation_middle in Hd1. by apply NoDup_cons in Hd1 as [? _]. }
  eapply (inv_move F k k X X P (p :: P) s _ p r (preempted r)); try done; cbn.
  - intros x0. by right.
  - unfold parts. cbn. rewrite Hrun, Hq. csimpl. solve_Permutation.
  - by intros []; split.
  - intros y Hy. left. rewrite Hrun. set_solver.
  - intros y. rewrite Hq. intros [->|Hy]%elem_of_cons; [right|left].
    + split_and!; [done|by split; [right|]|]. intros _. left. by left.
    + split; [|done]. intros Hy'. apply Hpw. rewrite <- Hy'. by apply list_elem_of_fmap_2.
  - intros y Hy. left. split; [|done]. intros Hy'. apply Hps, elem_of_app. left. rewrite <- Hy'. by apply list_elem_of_fmap_2.
  - intros y Hy. left. split; [|done]. intros ->. apply Hps, elem_of_app. by right.
  - split; [done|]. apply Hi.
  - pose proof (inv_cap _ _ _ _ _ Hi) as Hcap. rewrite Hrun in Hcap. rewrite length_app in *. simpl in *. lia.
  - eapply kv_inv_mono; [|exact Hx]. intros id [Hid Hne]%elem_of_difference. unfold live_ids in *. rewrite elem_of_list_to_set in *.
    apply list_elem_of_fmap in Hid as (y & -> & Hy). rewrite Hrun in Hy. apply list_elem_of_fmap. exists y. split.
    + symmetry. apply (name_put s p r); [done|by split].
    + apply elem_of_app in Hy as [?|[->|?]%elem_of_cons]; [set_solver| |set_solver]. destruct Hne. unfold name. rewrite Hr. set_solver.
Qed.

Lemma preempt_run k X P s p l1 l2 :
  inv k X P s → running s = l1 ++ p :: l2 →
  wpx F (_preempt_request p) (with_running (l1 ++ l2) s) (λ _ s', inv k X (p :: P) s' ∧ kept s s' ∧
    running s' = l1 ++ l2 ∧ (∀ o, o ≠ p → objs s' !! o = objs s !! o) ∧ skipped_waiting s' = skipped_waiting s ∧
    (∀ o, o = p ∨ o ∈ queue_oids (waiting s) → o ∈ queue_oids (waiting s'))).
Proof.
  intros Hi Hrun. assert (p ∈ running s) as Hp by (rewrite Hrun; set_solver).
  destruct (inv_run_obj _ _ _ _ _ _ Hi Hp) as (r & Hr & Hn & Hok & Hro & Hget).
  unfold _preempt_request. wpx_step. apply (wpx_obj _ _ _ r); [done|].
  wpx_step. apply wpx_assert; [apply bool_decide_eq_true, Hro|].
  wpx_step. eapply wpx_on_kv; [apply kvl_free; apply Hi|]. intros [] x Hx. cbn in Hx.
  wpx_step. eapply wpx_on_encoder; [apply encl_free; [apply Hi|apply Hok]|]. intros [] e He.
  wpx_step. apply (wpx_mutate _ _ _ _ r); [done|].
  do 3 (wpx_step; eapply wpx_mutate; [apply lookup_put|]; rewrite put_put).
  wpx_step. eapply wpx_key; [apply lookup_put|]. apply wpx_zoom. cbn -[queue_key].
  destruct (q_prepend_run (policy (cfg s)) (queue_key p (preempted r)) (waiting s)) as (q & Hq & Hwf & Hperm); [apply Hi|].
  eapply wpx_run; [exact Hq|]. split_and!.
  - by eapply inv_preempt.
  - split; try done. intros y ry Hy. destruct (decide (y = p)) as [->|Hne].
    + simplify_eq. exists (preempted r). cbn. by rewrite lookup_insert_eq.
    + exists ry. cbn. by rewrite lookup_insert_ne.
  - done.
  - intros o Ho. cbn. by rewrite lookup_insert_ne.
  - done.
  - intros o Ho. cbn. rewrite Hperm. csimpl. set_solver.
Qed.

(** ** Encoder inputs *)
Definition in_range r (i : Z) : Prop := 0 ≤ i < Z.of_nat (length (mm_features r)).

Lemma length_cumsum acc l : length (cumsum acc l) = length l.
Proof. revert acc. induction l as [|b l IH]; intros acc; simpl; [done|]. by rewrite IH. Qed.

Lemma embeds_in_range c f a b : feature_ok c f → a ≤ Z.max 0 (mm_length f) → b ≤ mm_length f →
  ∃ ab, get_embeds_indices_in_range f a b = Ret ab.
Proof.
  intros [Hf _] Ha Hb. unfold get_embeds_indices_in_range, embeds_cumsum. destruct (is_embed f) as [l|]; simpl; [|by eexists].
  specialize (Hf l eq_refl).
  assert (∀ i, i ≤ mm_length f → ∃ x, (if bool_decide (0 < i) then list_get (cumsum 0 l) (i - 1) else Some 0) = Some x) as Hg.
  { intros i Hi. case_bool_decide; [|by eexists]. rewrite list_get_lookup by lia. apply lookup_lt_is_Some_2. rewrite length_cumsum. lia. }
  destruct (Hg a ltac:(lia)) as [x ->], (Hg b Hb) as [y ->]. by eexists.
Qed.

Lemma with_encoder_self s : with_encoder (encoder s) s = s.
Proof. by destruct s. Qed.

Context (ec : option (string → bool)).

Section encoder_inputs.
Context (s0 : S) (r : SRequest) (nc shift n : Z).
Context (Hok : enc_ok (F := F) (mm_features r)).

(** The encoder manager changes and nothing else; no more tokens than asked for. *)
Definition enc_result (acc : enc_acc) s : Prop :=
  (∃ e, s = with_encoder e s0 ∧ enc_inv (F := F) e) ∧ 0 ≤ ea_new_tokens acc ≤ n ∧
  Forall (in_range r) (ea_inputs acc ++ ea_external acc).

Lemma enc_result_intro acc e :
  enc_inv (F := F) e → 0 ≤ ea_new_tokens acc ≤ n → Forall (in_range r) (ea_inputs acc ++ ea_external acc) →
  enc_result acc (with_encoder e s0).
Proof. intros He Hn Hin. split; [by exists e|done]. Qed.

Lemma encoder_loop_run feats acc s :
  Forall (λ x, in_range r x.1 ∧ feature_ok (cfg s0) x.2) feats → enc_result acc s →
  wpx F (encoder_loop ec r nc shift feats acc) s enc_result.
Proof.
  revert acc s. induction feats as [|[i f] feats IH]; intros acc s Hf Hacc; [done|].
  apply Forall_cons in Hf as [[Hi Hfo] Hf]. simpl in Hi, Hfo. cbn [encoder_loop]. wpx_steps.
  pose proof Hacc as ((e & -> & He) & Hn & Hin). change (cfg (with_encoder e s0)) with (cfg s0).
  case_bool_decide as Hbr; [by apply wpx_ret|].
  destruct (is_encoder_decoder (cfg s0) && _) eqn:Hed.
  { apply andb_true_iff in Hed as [Hed _]. wpx_step. apply wpx_assert; [|by apply IH]. apply bool_decide_eq_true. by apply Hfo. }
  clear Hed. case_bool_decide as Hend; [by apply IH|]. apply wpx_bind.
  apply (wpx_mono _ _ _ (λ _ s', ∃ e', s' = with_encoder e' s0 ∧ enc_inv (F := F) e')).
  { destruct (is_encoder_decoder _); [by apply wpx_ret; eauto|]. case_bool_decide; [by apply wpx_ret; eauto|].
    eapply wpx_on_encoder; [by apply encl_check|]. intros b e' He'. by exists e'. }
  clear e He Hacc. intros skip s (e & -> & He).
  destruct skip; [by apply IH, enc_result_intro|]. destruct (_ && _ && _); [apply wpx_ret, enc_result_intro; simpl; done || lia|].
  apply wpx_bind. eapply wpx_on_encoder; [by apply encl_can|]. intros b e' He'. cbv beta.
  change (with_encoder e' (with_encoder e s0)) with (with_encoder e' s0).
  destruct b; simpl negb; cbv iota.
  2:{ apply wpx_ret, enc_result_intro; simpl; [done|case_bool_decide; lia|done]. }
  destruct (embeds_in_range (cfg s0) f (Z.max 0 (nc - mm_offset f))
              (Z.min (mm_length f) (nc + ea_new_tokens acc - mm_offset f)) Hfo) as [[a z] Hp]; [lia..|].
  apply wpx_bind. eapply wpx_of_outcome; [exact Hp|]. cbv beta iota.
  case_bool_decide; [by apply IH, enc_result_intro|].
  destruct (match ec with Some has => has (mm_identifier f) | None => false end); apply IH, enc_result_intro; try done;
    simpl; rewrite ?Forall_app in *; rewrite Forall_singleton; naive_solver.
Qed.
End encoder_inputs.

Lemma schedule_encoder_inputs_run k X P s o r nc n budget shift :
  inv k X P s → o ∈ parts s X → objs s !! o = Some r → 0 ≤ n →
  wpx F (_try_schedule_encoder_inputs ec r nc n budget shift) s (λ '(inputs, n', _, external) s',
    (∃ e, s' = with_encoder e s ∧ enc_inv (F := F) e) ∧ 0 ≤ n' ≤ n ∧ Forall (in_range r) (inputs ++ external)).
Proof.
  intros Hi Ho Hr Hn. destruct (inv_obj _ _ _ _ _ _ Hi Ho) as (r' & Hr' & _ & Hok & _). simplify_eq.
  assert (∃ e, s = with_encoder e s ∧ enc_inv (F := F) e) as Hself.
  { exists (encoder s). rewrite with_encoder_self. split; [done|apply Hi]. }
  unfold _try_schedule_encoder_inputs. destruct (_ || _); [apply wpx_ret; split_and!; [done|lia|lia|done]|].
  wpx_step. eapply wpx_mono; [apply (encoder_loop_run s r nc shift n)|].
  - apply Hok.
  - apply Forall_forall. intros [i f] Hin. simpl. apply list_elem_of_lookup_1 in Hin as [j [Hi' Hf']%lookup_zip_Some].
    apply list_elem_of_lookup_2 in Hi', Hf'.
    apply elem_of_seqZ in Hi'. pose proof (rq_features _ _ _ Hok) as Hfs. rewrite Forall_forall in Hfs. split; [unfold in_range; lia|auto].
  - by split_and!.
  - intros acc s' (He & Hn' & Hin). by apply wpx_ret.
Qed.

Lemma sum_embeds_run s r inputs (Q : Z → S → Prop) : Forall (in_range r) inputs → (∀ z, Q z s) → wpx F (sum_embeds r inputs) s Q.
Proof.
  intros Hin HQ. unfold sum_embeds. wpx_step. apply (wpx_for_collect _ _ _ _ (λ s', s' = s) (λ _ _, True)); [done| |].
  - intros i s' Hi ->. rewrite Forall_forall in Hin. specialize (Hin i Hi). unfold in_range in Hin.
    unfold EncoderCache.get_num_encoder_embeds, EncoderCache.feature. wpx_step.
    apply wpx_assert; [apply bool_decide_eq_true; simpl; rewrite length_fmap; lia|]. wpx_step.
    destruct (lookup_lt_is_Some_2 (EncoderCache.mm_features (encoder_request r)) (Z.to_nat i)) as [f Hf].
    { simpl. rewrite length_fmap. lia. }
    eapply wpx_of_option; [rewrite list_get_lookup by lia; exact Hf|]. by apply wpx_ret.
  - intros bs s' -> _. by apply wpx_ret.
Qed.

(** ** The split at block boundaries *)
Lemma mamba_split_run s r n local (Q : Z → S → Prop) :
  0 < cache_block_size (cfg s) → 0 ≤ n → (∀ n', 0 ≤ n' ≤ n → Q n' s) → wpx F (_mamba_block_aligned_split r n local 0) s Q.
Proof.
  intros Hbs Hn HQ. unfold _mamba_block_aligned_split. wpx_step. apply wpx_assert; [done|].
  case_bool_decide; [|apply wpx_ret, HQ; lia]. wpx_steps.
  eapply wpx_run; [by apply pymod_run|]. case_bool_decide.
  - wpx_step. eapply wpx_run; [by apply floordiv_run|]. apply wpx_ret, HQ.
    pose proof (Z.mul_div_le n (cache_block_size (cfg s)) Hbs). pose proof (Z.div_pos n (cache_block_size (cfg s)) Hn Hbs). nia.
  - case_bool_decide; apply wpx_ret, HQ; lia.
Qed.
End parts.
