(* ===== verification/SchedulerStep.v ===== *)
(** * The scheduler: the local variables of a step

    What [schedule] has decided so far: every scheduled request is running, has a positive
    number of tokens that fit into its sequence, and its tokens are paid from the budget. *)

From S2P Require Import Prelude OrderedDict FreeQueue BlockHash RequestQueue SchedQueue SchedRequest Raises Scheduler.
From S2P Require Import SchedulerInv SchedulerPreempt.
From S2P Require EncoderCache KVCacheManager.

Open Scope Z_scope.

Section step.
Context {K E C : Type} (F : exn → Prop) `{!KVManager K} `{!EncoderManager E}.
Context `{!KVLaws F K} `{!EncoderLaws F E}.
Notation S := (t K E C).
Notation inv := (inv F).
Implicit Types (s : S) (o p : Z) (r : SRequest) (X P run : list Z) (k : string → Z) (v : step) (id : string).

Definition sch v : list Z := scheduled_running_reqs v ++ scheduled_new_reqs v ++ scheduled_resumed_reqs v.
Definition spec_of v id : list Z := default [] (od_get id (scheduled_spec_decode_tokens v)).
Definition inputs_of v id : list Z := default [] (od_get id (scheduled_encoder_inputs v)).

(** [n] tokens, [l] of them speculative: within the context and the tokens of the request *)
Definition fits (c : config) r (n : Z) (l : list Z) : Prop :=
  0 < n ∧ 0 ≤ num_computed_tokens r ∧ num_computed_tokens r + n < max_model_len c ∧
  num_computed_tokens r + n ≤ num_tokens r + num_output_placeholders r + Z.of_nat (length l) ∧
  Z.of_nat (length l) ≤ num_computed_tokens r + n.

Definition entry s v o : Prop :=
  ∃ r n, objs s !! o = Some r ∧ od_get (request_id r) (num_scheduled_tokens v) = Some n ∧
    is_Some (od_get (request_id r) (req_to_new_blocks v)) ∧
    fits (cfg s) r n (spec_of v (request_id r)) ∧ Forall (in_range r) (inputs_of v (request_id r)).

Record vinv (b0 : Z) run s v : Prop := {
  v_nodup : NoDup (sch v);
  v_sub o : o ∈ sch v → o ∈ run;
  v_entry o : o ∈ sch v → entry s v o;
  v_names : (num_scheduled_tokens v).*1 ≡ₚ name s <$> sch v;
  v_wf : od_wf (num_scheduled_tokens v) ∧ od_wf (req_to_new_blocks v) ∧ od_wf (scheduled_spec_decode_tokens v) ∧
         od_wf (scheduled_encoder_inputs v);
  v_keys id : id ∈ (scheduled_spec_decode_tokens v).*1 ∨ id ∈ (scheduled_encoder_inputs v).*1 →
              id ∈ (num_scheduled_tokens v).*1;
  v_budget : 0 ≤ token_budget v ∧ token_budget v + total (num_scheduled_tokens v).*2 = b0
}.

(** ** The state changes elsewhere *)
Lemma vinv_state b0 run run' s s' v :
  vinv b0 run s v → cfg s' = cfg s → (∀ o, o ∈ sch v → o ∈ run' ∧ objs s' !! o = objs s !! o) → vinv b0 run' s' v.
Proof.
  intros [Hnd Hsub He Hn Hwf Hk Hb] Hc Hs. split; try done.
  - intros o Ho. by apply Hs.
  - intros o Ho. destruct (He o Ho) as (r & n & Hr & Hrest). exists r, n. destruct (Hs o Ho) as [_ ->]. by rewrite Hc.
  - rewrite Hn. apply Permutation_refl'. apply list_fmap_ext. intros i o Ho%list_elem_of_lookup_2. unfold name.
    by destruct (Hs o Ho) as [_ ->].
Qed.

(** ** Scheduling one more *)
Lemma fresh_name b0 s v o X P k :
  inv k X P s → vinv b0 (running s) s v → o ∈ parts s X → o ∉ sch v → name s o ∉ (num_scheduled_tokens v).*1.
Proof.
  intros Hi Hv Ho Hs. rewrite (v_names _ _ _ _ Hv). intros (o' & Hn & Ho')%list_elem_of_fmap.
  apply (inv_name_inj _ _ _ _ _ _ o' Hi) in Hn; [|done|]; [by subst|]. apply (v_sub _ _ _ _ Hv) in Ho'. unfold parts. set_solver.
Qed.

Lemma vinv_schedule b0 run s v v' o r n l :
  vinv b0 run s v → objs s !! o = Some r → o ∈ run → o ∉ sch v → request_id r ∉ (num_scheduled_tokens v).*1 →
  fits (cfg s) r n l → n ≤ token_budget v →
  sch v' ≡ₚ o :: sch v → num_scheduled_tokens v' = od_set (request_id r) n (num_scheduled_tokens v) →
  (∃ b, req_to_new_blocks v' = od_set (request_id r) b (req_to_new_blocks v)) → token_budget v' = token_budget v - n →
  scheduled_encoder_inputs v' = scheduled_encoder_inputs v →
  scheduled_spec_decode_tokens v' = match l with [] => scheduled_spec_decode_tokens v
                                    | _ => od_set (request_id r) l (scheduled_spec_decode_tokens v) end →
  vinv b0 run s v'.
Proof.
  intros [Hnd Hsub He Hn Hwf Hk Hb] Hr Ho Hs Hfresh Hfit Hle Hsch Hnum [b Hblk] Hbud Henc Hspec.
  destruct Hwf as (Hw1 & Hw2 & Hw3 & Hw4). set (id := request_id r) in *.
  assert (∀ x nx, od_get x (num_scheduled_tokens v) = Some nx → x ≠ id) as Hne.
  { intros x nx Hnx ->. by apply Hfresh, (od_get_Some_key _ nx). }
  assert (spec_of v' id = l) as Hspec1.
  { unfold spec_of. rewrite Hspec. destruct l as [|x l]; [|by rewrite od_get_set_eq].
    rewrite (proj2 (od_get_None _ _)); [done|]. intros Hin. apply Hfresh, Hk. by left. }
  assert (∀ x, x ≠ id → spec_of v' x = spec_of v x) as Hspec2.
  { intros x Hx. unfold spec_of. rewrite Hspec. destruct l; [done|]. by rewrite od_get_set_ne. }
  split.
  - rewrite Hsch. by constructor.
  - intros x. rewrite Hsch. set_solver.
  - intros x. rewrite Hsch. intros [->|Hx]%elem_of_cons.
    + exists r, n. fold id. rewrite Hnum, Hblk, !od_get_set_eq, Hspec1. split_and!; try done.
      unfold inputs_of. rewrite Henc, (proj2 (od_get_None _ _)); [done|]. intros Hin. apply Hfresh, Hk. by right.
    + destruct (He x Hx) as (rx & nx & Hrx & Hnx & Hbx & Hfx & Hix). pose proof (Hne _ _ Hnx). exists rx, nx. rewrite Hnum, Hblk, !od_get_set_ne, Hspec2 by done. unfold inputs_of in *. by rewrite Henc.
  - rewrite Hnum, Hsch, od_set_keys_new by done. rewrite fmap_app. csimpl. rewrite Hn, Permutation_app_comm. simpl.
    unfold name at 2. by rewrite Hr.
  - rewrite Hnum, Hblk, Henc, Hspec. split_and!; try by apply od_wf_set. destruct l; [done|by apply od_wf_set]. done.
  - intros x. rewrite Hnum, Henc, Hspec, od_set_keys. intros [Hx|Hx]; [|right; apply Hk; by right].
    destruct l; [right; apply Hk; by left|]. apply od_set_keys in Hx as [->|Hx]; [by left|right; apply Hk; by left].
  - rewrite Hbud, Hnum, total_od_set_new by done. lia.
Qed.

(** ** Taking a scheduled request back *)
Lemma vinv_unschedule b0 run run' s v v' p r n l1 l2 :
  vinv b0 run s v → objs s !! p = Some r → scheduled_running_reqs v = l1 ++ p :: l2 →
  (∀ o o', o ∈ run → o' ∈ run → name s o = name s o' → o = o') → (∀ o, o ∈ run → o ≠ p → o ∈ run') →
  od_get (request_id r) (num_scheduled_tokens v) = Some n →
  scheduled_running_reqs v' = l1 ++ l2 → scheduled_new_reqs v' = scheduled_new_reqs v →
  scheduled_resumed_reqs v' = scheduled_resumed_reqs v →
  num_scheduled_tokens v' = od_del (request_id r) (num_scheduled_tokens v) →
  req_to_new_blocks v' = od_del (request_id r) (req_to_new_blocks v) → token_budget v' = token_budget v + n →
  scheduled_encoder_inputs v' = od_del (request_id r) (scheduled_encoder_inputs v) →
  scheduled_spec_decode_tokens v' = od_del (request_id r) (scheduled_spec_decode_tokens v) →
  vinv b0 run' s v' ∧ sch v ≡ₚ p :: sch v'.
Proof.
  intros [Hnd Hsub He Hn Hwf Hk Hb] Hr Hrun Hinj Hrest Hget H1 H2 H3 Hnum Hblk Hbud Henc Hspec.
  destruct Hwf as (Hw1 & Hw2 & Hw3 & Hw4). set (id := request_id r) in *.
  assert (sch v ≡ₚ p :: sch v') as Hsch by (unfold sch; rewrite Hrun, H1, H2, H3; solve_Permutation).
  rewrite Hsch in Hnd. apply NoDup_cons in Hnd as [Hp Hnd].
  assert (name s p = id) as Hnp by (unfold name; by rewrite Hr).
  assert (∀ x, x ∈ sch v' → x ∈ sch v ∧ x ≠ p) as Hother.
  { intros x Hx. split; [rewrite Hsch; by right|by intros ->]. }
  assert (∀ x rx, x ∈ sch v' → objs s !! x = Some rx → request_id rx ≠ id) as Hne.
  { intros x rx Hx Hrx Heq. destruct (Hother x Hx) as [Hxs Hxp]. apply Hxp, Hinj; [by apply Hsub|apply Hsub; rewrite Hsch; by left|].
    unfold name. rewrite Hrx, Hr. done. }
  split; [|done]. split.
  - done.
  - intros x Hx. destruct (Hother x Hx). apply Hrest; [by apply Hsub|done].
  - intros x Hx. destruct (He x) as (rx & nx & Hrx & Hnx & Hbx & Hfx & Hix); [by apply Hother|]. pose proof (Hne x rx Hx Hrx) as Hid.
    exists rx, nx. unfold spec_of, inputs_of in *. rewrite Hnum, Hblk, Hspec, Henc, !od_get_del, !decide_False by done. done.
  - rewrite Hnum. rewrite Hsch in Hn. csimpl in Hn. rewrite Hnp in Hn.
    pose proof (od_del_perm _ _ _ Hget) as Hperm. apply (fmap_Permutation fst) in Hperm. csimpl in Hperm. rewrite Hperm in Hn.
    by apply Permutation_cons_inv in Hn.
  - rewrite Hnum, Hblk, Hspec, Henc. split_and!; by apply od_wf_del.
  - intros x. rewrite Hnum, Hspec, Henc, !od_del_keys_iff by done. naive_solver.
  - rewrite Hbud, Hnum, (total_od_del _ _ _ Hget). destruct Hb as [Hb1 Hb2].
    destruct (He p) as (rp & m & Hrp & Hm & _ & (Hpos & _) & _); [rewrite Hsch; by left|]. simplify_eq. lia.
Qed.

(** ** Changes of a scheduled request *)
Lemma vinv_put b0 run s v o r r' :
  vinv b0 run s v → objs s !! o = Some r → same_key r r' → num_computed_tokens r' = num_computed_tokens r →
  num_tokens r' = num_tokens r → num_output_placeholders r' = num_output_placeholders r → mm_features r' = mm_features r →
  vinv b0 run (put_obj o r' s) v.
Proof.
  intros [Hnd Hsub He Hn Hwf Hk Hb] Hr Hkey Hc Ht Hp Hm. split; try done.
  - intros x Hx. destruct (He x Hx) as (rx & n & Hrx & Hn' & Hbx & Hfit & Hin). destruct (decide (x = o)) as [->|Hne].
    + simplify_eq. exists r', n. rewrite lookup_put. destruct Hkey as [Hi _]. rewrite Hi. split_and!; try done.
      * unfold fits in *. by rewrite Hc, Ht, Hp.
      * unfold in_range in *. by rewrite Hm.
    + exists rx, n. by rewrite lookup_put_ne.
  - rewrite Hn. apply Permutation_refl', list_fmap_ext. intros i x _. symmetry. by eapply name_put.
Qed.

(** What a step over the encoder inputs leaves alone *)
Definition same_lists v v' : Prop :=
  scheduled_new_reqs v' = scheduled_new_reqs v ∧ scheduled_resumed_reqs v' = scheduled_resumed_reqs v ∧
  scheduled_running_reqs v' = scheduled_running_reqs v ∧ preempted_reqs v' = preempted_reqs v ∧
  token_budget v' = token_budget v ∧ num_scheduled_tokens v' = num_scheduled_tokens v.

Lemma vinv_inputs b0 run s v o r inputs nb :
  vinv b0 run s v → o ∈ sch v → objs s !! o = Some r → Forall (in_range r) inputs →
  vinv b0 run s (mkStep (scheduled_new_reqs v) (scheduled_resumed_reqs v) (scheduled_running_reqs v) (preempted_reqs v)
       (req_to_new_blocks v) (num_scheduled_tokens v) (token_budget v)
       (od_set (request_id r) inputs (scheduled_encoder_inputs v)) nb (scheduled_spec_decode_tokens v)).
Proof.
  intros [Hnd Hsub He Hn (Hw1 & Hw2 & Hw3 & Hw4) Hk Hb] Ho Hr Hin. split; try done.
  - intros x Hx. change (x ∈ sch v) in Hx. destruct (He x Hx) as (rx & n & Hrx & Hn' & Hbx & Hfit & Hix).
    exists rx, n. split_and!; try done. unfold inputs_of. simpl. rewrite od_get_set. case_decide as Hid; [|done]. simpl.
    assert (x = o) as ->; [|by simplify_eq]. 
    assert (NoDup (name s <$> sch v)) as Hnames by (rewrite <- Hn; exact Hw1).
    apply list_elem_of_lookup_1 in Hx as [i Hx], Ho as [j Ho].
    assert (i = j) as ->; [|congruence]. eapply NoDup_lookup; [exact Hnames|rewrite list_lookup_fmap, Hx; done|].
    rewrite list_lookup_fmap, Ho. simpl. unfold name. by rewrite Hrx, Hr, Hid.
  - split_and!; try done. by apply od_wf_set.
  - intros id. simpl. rewrite od_set_keys. intros [?|[->|?]]; [apply Hk; by left| |apply Hk; by right].
    destruct (He o Ho) as (r' & n & Hr' & Hn' & _). simplify_eq. by eapply od_get_Some_key.
Qed.

Lemma allocate_inputs_run s v r inputs :
  enc_inv (F := F) (encoder s) → enc_ok (F := F) (mm_features r) → Forall (in_range r) inputs →
  wpx F (for_each inputs (λ i, on_self (on_encoder (enc_allocate (encoder_request r) i)))) (s, v) (λ _ y,
    ∃ e, y = (with_encoder e s, v) ∧ enc_inv (F := F) e).
Proof.
  intros He Hok Hin. apply (wpx_for_each _ _ _ _ (λ _ y, ∃ e, y = (with_encoder e s, v) ∧ enc_inv (F := F) e)); [|..|done].
  - exists (encoder s). by rewrite with_encoder_self.
  - intros done i todo y Hsplit (e & -> & He'). unfold on_self. wpx_step. cbn [fst].
    eapply wpx_on_encoder; [apply encl_allocate; [done|done|]|].
    + rewrite Forall_forall in Hin. apply Hin. rewrite Hsplit. set_solver.
    + intros u e' He''. by exists e'.
Qed.

Lemma schedule_encoder_run b0 run s v o r inputs external nb :
  enc_inv (F := F) (encoder s) → enc_ok (F := F) (mm_features r) → vinv b0 run s v → o ∈ sch v → objs s !! o = Some r →
  Forall (in_range r) (inputs ++ external) →
  wpx F (schedule_encoder o inputs external nb) (s, v) (λ _ y,
    (∃ e, y.1 = with_encoder e s ∧ enc_inv (F := F) e) ∧ vinv b0 run s y.2 ∧ same_lists v y.2).
Proof.
  intros He Hok Hv Ho Hr [Hin Hex]%Forall_app. unfold schedule_encoder. wpx_step. unfold on_self at 1. wpx_step.
  apply (wpx_obj _ _ _ r); [done|]. cbn [fst snd]. wpx_step.
  apply (wpx_mono _ _ _ (λ _ y, (∃ e, y.1 = with_encoder e s ∧ enc_inv (F := F) e) ∧ vinv b0 run s y.2 ∧ same_lists v y.2)).
  - case_bool_decide.
    + wpx_step. apply wpx_modify. cbn [fst snd]. eapply wpx_mono; [by apply allocate_inputs_run|].
      cbv beta. intros _ y (e & -> & He'). cbn [fst snd]. split_and!; [by exists e|by eapply vinv_inputs|done].
    + apply wpx_ret. cbn [fst snd]. split_and!; [|done|done]. exists (encoder s). by rewrite with_encoder_self.
  - intros _ [s1 v1]. cbn [fst snd]. intros ((e & -> & He1) & Hv1 & Hl1).
    eapply wpx_mono; [by apply allocate_inputs_run|]. cbv beta. intros _ y (e' & -> & He'). cbn [fst snd].
    split_and!; [by exists e'|done|done].
Qed.
End step.
