(* ===== verification/SchedulerRun.v ===== *)
(** * The scheduler: the loop over the running requests

    [running_loop] terminates, keeps the invariant, and schedules only running requests,
    whatever the allocations that fail make it preempt, under both policies. *)

From S2P Require Import Prelude OrderedDict FreeQueue BlockHash RequestQueue SchedQueue SchedRequest Raises Scheduler.
From S2P Require Import SchedulerInv SchedulerPreempt SchedulerStep.
From S2P Require EncoderCache KVCacheManager.

Open Scope Z_scope.

(** ** Lists *)
Lemma remove_oid_split x l : x ∈ l → ∃ l1 l2, l = l1 ++ x :: l2 ∧ remove_oid x l = Some (l1 ++ l2).
Proof.
  induction l as [|y l IH]; [by intros ?%elem_of_nil|]. simpl. case_bool_decide as Hy; [subst; by exists [], l|].
  intros [->|Hx]%elem_of_cons; [done|]. destruct (IH Hx) as (l1 & l2 & -> & ->). by exists (y :: l1), l2.
Qed.
Lemma max_by_elem key l : l ≠ [] → ∃ p, max_by key l = Some p ∧ p ∈ l.
Proof.
  destruct l as [|x l]; [done|]. intros _. simpl. eexists. split; [done|].
  assert (∀ m, foldl (λ m y, match key m, key y with Some a, Some b => if key_lt a b then y else m | _, _ => m end) m l ∈ m :: l) as H;
    [|apply H].
  induction l as [|y l IH]; intros m; simpl; [by left|]. 
  match goal with |- foldl _ ?m' l ∈ _ => specialize (IH m'); assert (m' = m ∨ m' = y) as Hm by (repeat case_match; auto) end.
  apply elem_of_cons in IH as [->|?]; [|set_solver]. destruct Hm as [->| ->]; set_solver.
Qed.
(** An element that is not removed moves to the left by at most one place. *)
Lemma take_remove {A} (x p : A) n l1 l2 : x ∈ take n (l1 ++ p :: l2) → x ≠ p → x ∈ take n (l1 ++ l2).
Proof.
  rewrite !take_app, !elem_of_app. intros [?|Hx] Hne; [by left|]. right.
  destruct (n - length l1)%nat as [|m] eqn:E; [by apply elem_of_nil in Hx|]. simpl in Hx.
  apply elem_of_cons in Hx as [?|Hx]; [done|]. eapply elem_of_take in Hx as (i & Hi & Hlt).
  apply elem_of_take. exists i. split; [done|lia].
Qed.
Lemma take_remove_before {A} (x p : A) n l1 l2 :
  (length l1 < n)%nat → x ∈ take n (l1 ++ p :: l2) → x ≠ p → x ∈ take (n - 1) (l1 ++ l2).
Proof.
  intros Hn. rewrite !take_app, !elem_of_app, !(take_ge l1) by lia. intros [?|Hx] Hne; [by left|]. right.
  replace (n - length l1)%nat with (Datatypes.S (n - 1 - length l1)) in Hx by lia. simpl in Hx.
  by apply elem_of_cons in Hx as [?|Hx].
Qed.

Section running.
Context {K E C : Type} (F : exn → Prop) `{!KVManager K} `{!EncoderManager E}.
Context `{!KVLaws F K} `{!EncoderLaws F E}.
Context (ec : option (string → bool)).
Notation S := (t K E C).
Notation inv := (inv F (λ _, 0)).
Implicit Types (s : S) (o p i : Z) (r : SRequest) (X P run : list Z) (v : step) (id : string).

(** The requests scheduled so far stand before the index of the loop. *)
Definition before i run v : Prop := ∀ o, o ∈ scheduled_running_reqs v → o ∈ take (Z.to_nat i) run.
Definition only_running v : Prop := scheduled_new_reqs v = [] ∧ scheduled_resumed_reqs v = [].
(** The request under consideration is at the index or, after a preemption, before it. *)
Definition at_index (c : config) i run o : Prop :=
  o ∈ take (Z.to_nat (i + 1)) run ∧ (policy c = FCFS → run !! Z.to_nat i = Some o).

(** State of the loops *)
Record linv b0 i s v : Prop := {
  li_inv : inv [] (preempted_reqs v) s;
  li_v : vinv b0 (running s) s v;
  li_only : only_running v;
  li_before : before i (running s) v;
  li_preempted o : o ∈ preempted_reqs v → o ∈ queue_oids (waiting s);
  li_index : 0 ≤ i
}.

Lemma inv_P X P P' s : (∀ o, o ∈ P → o ∈ P') → inv X P s → inv X P' s.
Proof.
  intros HP []. split; try done. eapply Forall_impl; [done|]. intros o Ho Hst. destruct (Ho Hst); [by left|right; auto].
Qed.

(** ** The victim *)
Lemma unschedule_run b0 s v p i l1 l2 :
  linv b0 i s v → running s = l1 ++ p :: l2 → p ∈ scheduled_running_reqs v →
  wpx F (unschedule p) (with_running (l1 ++ l2) s, v) (λ _ y, y.1 = with_running (l1 ++ l2) s ∧
    vinv b0 (l1 ++ l2) s y.2 ∧ only_running y.2 ∧ preempted_reqs y.2 = preempted_reqs v ∧
    (∀ o, o ∈ scheduled_running_reqs y.2 → o ∈ scheduled_running_reqs v ∧ o ≠ p) ∧ token_budget v ≤ token_budget y.2).
Proof.
  intros [Hi Hv [Hnew Hres] Hb Hpq Hidx] Hrun Hp. destruct (inv_run_obj _ _ _ _ _ p Hi) as (r & Hr & Hn & Hok & _).
  { rewrite Hrun. set_solver. }
  assert (p ∈ sch v) as Hps by (unfold sch; set_solver).
  destruct (v_entry _ _ _ _ Hv p Hps) as (r' & n & Hr' & Hget & [b Hblk] & Hfit & Hin). simplify_eq.
  destruct (remove_oid_split _ _ Hp) as (m1 & m2 & Hsr & Hrem).
  unfold unschedule. wpx_step. unfold on_self. wpx_step. apply (wpx_obj _ _ _ r); [done|]. cbn [fst snd].
  wpx_step. apply wpx_gets. cbn [snd]. wpx_step. eapply wpx_of_option; [exact Hrem|].
  wpx_step. eapply wpx_of_option; [exact Hget|]. wpx_step. eapply wpx_of_option; [exact Hblk|].
  wpx_step. apply wpx_zoom. apply sum_embeds_run; [exact Hin|]. intros z. apply wpx_modify. cbn [fst snd].
  match goal with |- _ ∧ vinv _ _ _ ?v' ∧ _ => destruct (vinv_unschedule b0 (running s) (l1 ++ l2) s v v' p r n m1 m2) as [Hv' Hsch] end;
    try done.
  - intros x y Hx Hy. apply (inv_name_inj F (λ _, 0) [] (preempted_reqs v)); [done|unfold parts; set_solver..].
  - rewrite Hrun. set_solver.
  - split_and!; [done|done|done|done| |].
    + intros x Hx. cbn in Hx. assert (NoDup (m1 ++ p :: m2)) as Hnd.
      { pose proof (v_nodup _ _ _ _ Hv) as Hnd. unfold sch in Hnd. rewrite Hsr in Hnd. by apply NoDup_app in Hnd as (? & _). }
      rewrite <- Permutation_middle in Hnd. apply NoDup_cons in Hnd as [Hnd _]. rewrite Hsr. split; [set_solver|by intros ->].
    + cbn. destruct Hfit as [? _]. lia.
Qed.

(** What is known of the request that is being given room *)
Definition waiting_for_room (c : config) i s v o r : Prop :=
  at_index c i (running s) o ∧ o ∉ sch v ∧ objs s !! o = Some r.

Lemma pick_victim_run b0 s v i o r :
  linv b0 i s v → waiting_for_room (cfg s) i s v o r →
  wpx F (pick_victim i) (s, v) (λ x y, ∃ l1 l2,
    running s = l1 ++ x.1 :: l2 ∧ y.1 = with_running (l1 ++ l2) s ∧ vinv b0 (l1 ++ l2) s y.2 ∧ only_running y.2 ∧
    preempted_reqs y.2 = preempted_reqs v ∧ before x.2 (l1 ++ l2) y.2 ∧ 0 ≤ x.2 ∧ x.1 ∉ sch y.2 ∧
    (x.1 ≠ o → at_index (cfg s) x.2 (l1 ++ l2) o ∧ o ∉ sch y.2) ∧ token_budget v ≤ token_budget y.2 ∧
    Z.of_nat (length (l1 ++ l2)) - x.2 ≤ Z.of_nat (length (running s)) - i).
Proof.
  intros Hl ([Hat Hfcfs] & Hos & Hr). pose proof Hl as [Hi Hv [Hnew Hres] Hb Hpq Hidx]. unfold pick_victim. wpx_steps.
  assert (NoDup (running s)) as Hnd. { pose proof (inv_nodup _ _ _ _ _ Hi) as Hnd. by apply NoDup_app in Hnd as (? & _). }
  assert (∀ v', only_running v' → sch v' = scheduled_running_reqs v') as Hsch.
  { intros v' [H1 H2]. unfold sch. by rewrite H1, H2, !app_nil_r. }
  destruct (policy (cfg s)) eqn:Hpol.
  - destruct (list_pop (running s)) as [[p rest]|] eqn:Hpop.
    2:{ apply list_pop_None in Hpop. rewrite Hpop, take_nil in Hat. by apply elem_of_nil in Hat. }
    wpx_step. eapply wpx_of_option; [done|]. cbv beta iota. apply list_pop_Some in Hpop. wpx_step. unfold on_self. wpx_steps.
    cbn [fst snd]. exists rest, []. rewrite !app_nil_r, Hpop in *. specialize (Hfcfs eq_refl).
    assert (p ∉ rest) as Hpr by (apply NoDup_app in Hnd as (_ & Hd & _); intros Hin; specialize (Hd _ Hin); set_solver).
    assert (p ∉ scheduled_running_reqs v) as Hps.
    { intros Hin%Hb. apply elem_of_take in Hin as (j & Hj & Hlt). apply lookup_lt_Some in Hfcfs. rewrite length_app in Hfcfs. simpl in Hfcfs.
      rewrite lookup_app_l in Hj by lia. by apply Hpr, (list_elem_of_lookup_2 _ j). }
    split_and!; try done.
    + eapply vinv_state; [exact Hv|done|]. intros x Hx. split; [|done]. pose proof (v_sub _ _ _ _ Hv x Hx) as Hxr.
      rewrite Hsch in Hx by done. apply elem_of_app in Hxr as [?|Hxp%list_elem_of_singleton]; [done|by subst].
    + intros x Hx. pose proof (take_remove x p (Z.to_nat i) rest [] (Hb x Hx)) as H. rewrite app_nil_r in H. apply H. by intros ->.
    + by rewrite Hsch.
    + intros Hpo. assert (rest !! Z.to_nat i = Some o) as Ho.
      { apply lookup_snoc_Some in Hfcfs as [[_ ?]|[_ ?]]; done. }
      split; [|done]. split; [|done]. apply elem_of_take. exists (Z.to_nat i). split; [done|lia].
    + rewrite length_app. simpl. lia.
  - destruct (max_by_elem (λ o, (λ r, (priority (info r), arrival_time r)) <$> objs s !! o) (running s)) as (p & Hmax & Hp).
    { intros Hnil. rewrite Hnil, take_nil in Hat. by apply elem_of_nil in Hat. }
    wpx_step. eapply wpx_of_option; [exact Hmax|]. destruct (remove_oid_split _ _ Hp) as (l1 & l2 & Hrun & Hrem).
    wpx_step. eapply wpx_of_option; [exact Hrem|]. wpx_step. unfold on_self. wpx_steps. cbn [fst snd].
    assert (Z.of_nat (length (running s)) = Z.of_nat (length (l1 ++ l2)) + 1) as Hlen by (rewrite Hrun, !length_app; simpl; lia).
    case_bool_decide as Hps.
    + wpx_step. eapply wpx_mono; [by eapply unschedule_run|]. cbv beta. intros _ [s1 v1]. cbn [fst snd].
      intros (-> & Hv1 & Hon & Hpre & Hsr & Hbud). apply wpx_ret. exists l1, l2. cbn [fst snd]. pose proof (Hb p Hps) as Hpb. rewrite Hrun in Hpb.
      assert (length l1 < Z.to_nat i)%nat as Hl1.
      { apply elem_of_take in Hpb as (j & Hj & Hlt). rewrite Hrun in Hnd.
        assert (j = length l1) as ->; [|done]. eapply NoDup_lookup; [exact Hnd|exact Hj|]. by rewrite lookup_app_r, Nat.sub_diag by lia. }
      split_and!; try done.
      * intros x Hx. destruct (Hsr x Hx) as [Hxs Hxp]. apply Hb in Hxs. rewrite Hrun in Hxs.
        replace (Z.to_nat (i - 1)) with (Z.to_nat i - 1)%nat by lia. by eapply take_remove_before.
      * lia.
      * rewrite Hsch by done. intros Hin. by apply Hsr in Hin as [_ ?].
      * intros Hpo. split.
        -- split; [|congruence]. rewrite Hrun in Hat. replace (Z.to_nat (i - 1 + 1)) with (Z.to_nat (i + 1) - 1)%nat by lia.
           eapply take_remove_before; [|exact Hat|congruence]. lia.
        -- rewrite Hsch by done. intros Hin%Hsr. apply Hos. rewrite Hsch by done. by destruct Hin.
      * lia.
    + apply wpx_ret. exists l1, l2. cbn [fst snd]. split_and!; try done.
      * eapply vinv_state; [exact Hv|done|]. intros x Hx. split; [|done]. pose proof (v_sub _ _ _ _ Hv x Hx) as Hxr.
        rewrite Hsch in Hx by done. rewrite Hrun in Hxr. apply elem_of_app in Hxr as [?|[->|?]%elem_of_cons]; set_solver.
      * intros x Hx. pose proof (Hb x Hx) as Hxs. rewrite Hrun in Hxs. eapply take_remove; [exact Hxs|]. by intros ->.
      * by rewrite Hsch.
      * intros Hpo. split; [|done]. split; [|congruence]. rewrite Hrun in Hat. eapply take_remove; [exact Hat|congruence].
      * lia.
Qed.

(** ** Making room *)

(** Only the hashing state of the request changed. *)
Definition rehashed r r' : Prop := ∃ h, r' = set_hashed h r ∧ all_token_ids h = all_token_ids (hashed r).
Lemma rehashed_same r r' : rehashed r r' → same_req r r'.
Proof. by intros (h & -> & Hh). Qed.
Lemma rehashed_refl r : rehashed r r.
Proof. exists (hashed r). by destruct r. Qed.
Lemma rehashed_trans r1 r2 r3 : rehashed r1 r2 → rehashed r2 r3 → rehashed r1 r3.
Proof. intros (h & -> & Hh) (h' & -> & Hh'). exists h'. split; [done|]. by rewrite Hh'. Qed.
Lemma rehashed_ok ok c r r' : rehashed r r' → req_ok ok c r → req_ok ok c r'.
Proof.
  intros (h & -> & Hh) []. split; try done; unfold num_tokens in *; simpl; by rewrite Hh.
Qed.
Lemma rehashed_running c k r r' : rehashed r r' → running_ok c k r → running_ok c k r'.
Proof. intros (h & -> & Hh) []. split; try done. unfold num_tokens in *; simpl; by rewrite Hh. Qed.

Lemma running_live s o r : o ∈ running s → objs s !! o = Some r → request_id r ∈ live_ids s.
Proof.
  intros Ho Hr. unfold live_ids. apply elem_of_list_to_set, list_elem_of_fmap. exists o. unfold name. by rewrite Hr.
Qed.

Lemma linv_rehash b0 i s v o r r' x :
  linv b0 i s v → waiting_for_room (cfg s) i s v o r → rehashed r r' → kv_inv (F := F) (live_ids s) x →
  let s' := put_obj o r' (with_kv x s) in
  linv b0 i s' v ∧ waiting_for_room (cfg s) i s' v o r' ∧ kept s s' ∧ running s' = running s.
Proof.
  intros [Hi Hv Hon Hb Hpq Hidx] (Hat & Hos & Hr) Hre Hx s'.
  assert (o ∈ running s) as Ho by (destruct Hat as [Hin _]; by apply elem_of_take in Hin as (j & ?%list_elem_of_lookup_2 & _)).
  destruct (inv_run_obj _ _ _ _ _ _ Hi Ho) as (r0 & Hr0 & _ & Hok & Hro & _). simplify_eq.
  split_and!; [split; try done| | |done].
  - eapply (inv_put_running F _ _ _ (with_kv x s)); [by apply inv_with_kv|done|exact Hr|by apply rehashed_same| |].
    + by apply rehashed_ok.
    + by eapply rehashed_running.
  - eapply vinv_state; [exact Hv|done|]. intros y Hy. split; [by apply (v_sub _ _ _ _ Hv)|].
    apply (lookup_put_ne (with_kv x s)). by intros ->.
  - split_and!; [done|done|]. apply (lookup_put (with_kv x s)).
  - eapply kept_trans; [|by eapply (kept_put (with_kv x s)), rehashed_same]. split; try done. intros y ry Hy. exists ry. split; [done|apply same_req_refl].
Qed.

Lemma allocate_loop_run fuel b0 s v i o r n :
  linv b0 i s v → waiting_for_room (cfg s) i s v o r → 0 < n → (length (running s) < fuel)%nat →
  wpx F (allocate_loop fuel o n i) (s, v) (λ x y, linv b0 x.2 y.1 y.2 ∧ kept s y.1 ∧
    Z.of_nat (length (running y.1)) - x.2 ≤ Z.of_nat (length (running s)) - i ∧ token_budget v ≤ token_budget y.2 ∧
    (is_Some x.1 → ∃ r', waiting_for_room (cfg s) x.2 y.1 y.2 o r' ∧ rehashed r r')).
Proof.
  revert s v i r. induction fuel as [|fuel IH]; intros s v i r Hl Hw Hn Hfuel; [lia|].
  cbn [allocate_loop]. wpx_steps. unfold on_self at 1. wpx_steps. cbn [fst snd].
  assert (o ∈ running s) as Ho by (destruct Hw as ([Hin _] & _); by apply elem_of_take in Hin as (j & ?%list_elem_of_lookup_2 & _)).
  pose proof Hw as (_ & _ & Hr).
  eapply (wpx_on_kv_request F _ s o r); [done| |].
  { apply (kvl_allocate_running (F := F) (live_ids s)); [apply Hl| |done]. by apply (running_live s o). }
  intros b x req [Hx Htok]. cbn [fst snd] in Hx, Htok.
  assert (rehashed r (set_hashed (KVCacheManager.hashed req) r)) as Hre by by eexists.
  destruct (linv_rehash b0 i s v o r _ x Hl Hw Hre Hx) as (Hl1 & Hw1 & Hk1 & Hrun1). cbn zeta in *. clear Htok Hx.
  revert Hl1 Hw1 Hk1 Hrun1. generalize (put_obj o (set_hashed (KVCacheManager.hashed req) r) (with_kv x s)).
  intros s1 Hl1 Hw1 Hk1 Hrun1. rewrite <- (kept_cfg _ _ Hk1) in Hw1.
  destruct b as [b|]; cbv iota beta.
  { apply wpx_ret. cbn [fst snd]. split_and!; try done; [by rewrite Hrun1|]. intros _. rewrite (kept_cfg _ _ Hk1) in Hw1. by eexists. }
  wpx_step. eapply wpx_mono; [by eapply pick_victim_run|]. cbv beta. intros [p i'] [s2 v2]. cbn [fst snd].
  intros (l1 & l2 & Hrun & -> & Hv2 & Hon2 & Hpre2 & Hb2 & Hidx2 & Hps2 & Hat2 & Hbud2 & Hlen2).
  wpx_step. unfold on_self. wpx_step. cbn [fst snd]. eapply wpx_mono; [eapply preempt_run; [apply Hl1|exact Hrun]|].
  cbv beta. intros _ s3 (Hi3 & Hk3 & Hrun3 & Hobj3 & _ & Hq3). wpx_step. apply wpx_modify. cbn [fst snd].
  assert (linv b0 i' s3 (add_preempted p v2)) as Hl3.
  { split; [| |done| | |done].
    - eapply inv_P; [|exact Hi3]. cbn. rewrite Hpre2. set_solver.
    - assert (vinv b0 (running s3) s3 v2) as []; [|by split].
      apply (vinv_state b0 (l1 ++ l2) _ s1 s3 v2); [done|apply Hk3|]. intros y Hy. rewrite Hrun3. split; [by apply (v_sub _ _ _ _ Hv2)|]. apply Hobj3. by intros ->.
    - by rewrite Hrun3.
    - intros y. cbn. rewrite Hpre2. intros [Hy|Hy%list_elem_of_singleton]%elem_of_app; apply Hq3; [right|by left].
      by apply (li_preempted _ _ _ _ Hl1). }
  assert (kept s s3) as Hk by by eapply kept_trans.
  case_bool_decide as Hpo; [|].
  - apply wpx_ret. cbn [fst snd]. rewrite Hrun3. split_and!; try done. rewrite <- Hrun1. lia.
  - destruct (Hat2 Hpo) as [Hat3 Hos3]. eapply wpx_mono; [eapply (IH s3 _ _ (set_hashed (KVCacheManager.hashed req) r)); try done|].
    + split_and!; [by rewrite (kept_cfg _ _ Hk3), Hrun3|done|]. rewrite Hobj3 by done. apply Hw1.
    + rewrite Hrun3. rewrite <- Hrun1, Hrun in Hfuel. rewrite length_app in *. simpl in *. lia.
    + cbv beta. intros [b i2] [s4 v4]. cbn [fst snd]. intros (Hl4 & Hk4 & Hlen4 & Hbud4 & Hsome). split_and!; try done.
      * by eapply kept_trans.
      * rewrite Hrun3 in Hlen4. rewrite <- Hrun1. lia.
      * cbn in Hbud4. lia.
      * intros Hb. destruct (Hsome Hb) as (r' & Hw' & Hre'). exists r'. rewrite (kept_cfg _ _ Hk) in Hw'. split; [done|].
        by eapply rehashed_trans.
Qed.

(** ** Scheduling the request *)
Lemma linv_next b0 i s v : linv b0 i s v → linv b0 (i + 1) s v.
Proof.
  intros [Hi Hv Hon Hb Hpq Hidx]. split; try done; [|lia]. intros o Ho. apply Hb in Ho.
  apply elem_of_take in Ho as (j & Hj & Hlt). apply elem_of_take. exists j. split; [done|lia].
Qed.

Lemma running_tokens_bounds c r b :
  running_ok c 0 r → 0 < b →
  let n := running_tokens c r b in
  0 ≤ n ≤ b ∧ num_computed_tokens r + n < max_model_len c ∧
  num_computed_tokens r + n ≤ num_tokens_with_spec r + num_output_placeholders r.
Proof.
  intros [_ Hk Hl Hc] Hb. cbn zeta. unfold running_tokens, num_tokens_with_spec. case_bool_decide; lia.
Qed.

Lemma schedule_running_run b0 i s v o r n b :
  linv b0 i s v → waiting_for_room (cfg s) i s v o r → 0 < n ≤ token_budget v → num_computed_tokens r + n < max_model_len (cfg s) →
  num_computed_tokens r + n ≤ num_tokens_with_spec r + num_output_placeholders r →
  wpx F (schedule_running o n b) (s, v) (λ _ y, y.1 = put_obj o (set_spec [] r) s ∧
    linv b0 (i + 1) y.1 y.2 ∧ o ∈ sch y.2).
Proof.
  intros [Hi Hv [Hnew Hres] Hb Hpq Hidx] ([Hin Hf] & Hos & Hr) Hn Hlen Htok.
  assert (o ∈ running s) as Ho by by apply elem_of_take in Hin as (j & ?%list_elem_of_lookup_2 & _).
  destruct (inv_run_obj _ _ _ _ _ _ Hi Ho) as (r0 & Hr0 & Hname & Hok & Hro & _). simplify_eq.
  unfold schedule_running. wpx_step. unfold on_self at 1. wpx_step. apply (wpx_obj _ _ _ r); [done|]. cbn [fst snd].
  wpx_step. apply wpx_modify. cbn [fst snd]. unfold on_self. wpx_step. apply (wpx_mutate _ _ _ _ r); [done|]. cbn [fst snd].
  set (d := n + num_computed_tokens r - num_tokens r - num_output_placeholders r).
  remember (if bool_decide (spec_token_ids r ≠ []) && bool_decide (0 < d) then take (Z.to_nat d) (spec_token_ids r) else []) as l eqn:El.
  match goal with |- _ ∧ linv _ _ _ ?v' ∧ _ => assert (vinv b0 (running s) s v') as Hv' end.
  { assert (request_id r ∉ (num_scheduled_tokens v).*1) as Hfresh.
    { rewrite <- Hname. eapply fresh_name; [done..| |done]. unfold parts. set_solver. }
    assert (d ≤ Z.of_nat (length (spec_token_ids r))) as Hd by (unfold d, num_tokens_with_spec in *; lia).
    assert (d ≤ 0 ∧ l = [] ∨ 0 < d ∧ Z.of_nat (length l) = d) as Hl.
    { rewrite El. destruct (decide (0 < d)) as [Hp|Hp].
      - right. split; [done|]. rewrite (bool_decide_true (0 < d)), bool_decide_true; [|by intros Hnil; rewrite Hnil in *; simpl in *; lia|done].
        simpl. rewrite length_take. lia.
      - left. rewrite (bool_decide_false (0 < d)), andb_false_r by done. split; [lia|done]. }
    eapply (vinv_schedule b0 (running s) s v _ o r n l); try done; cbn; try done.
    - destruct Hro. unfold fits. destruct Hl as [[Hl ->]|[Hl Hll]]; [simpl|rewrite Hll]; unfold d in *; lia.
    - lia.
    - unfold sch. cbn. solve_Permutation.
    - by eexists.
    - fold d. rewrite El. rewrite El in Hl. destruct (_ && _) eqn:Ec; [|done].
      apply andb_true_iff in Ec as [_ Hd0%bool_decide_eq_true]. destruct Hl as [[? _]|[_ Hll]]; [lia|].
      destruct (take (Z.to_nat d) _) eqn:Et; [simpl in Hll; lia|done]. }
  split_and!; [done| |unfold sch; cbn; set_solver]. split; cbn [running preempted_reqs]; try done; [..|lia].
  - eapply inv_put_running; [exact Hi|done..| |].
    + intros []. by split.
    + destruct Hro. by split.
  - eapply vinv_put; [exact Hv'|done..].
  - intros x Hx. cbn in Hx. apply elem_of_app in Hx as [Hx%Hb|Hx%list_elem_of_singleton]; [|by subst].
    apply elem_of_take in Hx as (j & Hj & Hlt). apply elem_of_take. exists j. split; [done|lia].
Qed.

Lemma linv_encoder b0 i s v e : linv b0 i s v → enc_inv (F := F) e → linv b0 i (with_encoder e s) v.
Proof.
  intros [Hi Hv Hon Hb Hpq Hidx] He. split; try done; [by apply inv_with_encoder|]. eapply vinv_state; [exact Hv|done|].
  intros x Hx. split; [by apply (v_sub _ _ _ _ Hv)|done].
Qed.
Lemma linv_lists b0 i s v v' : linv b0 i s v → vinv b0 (running s) s v' → same_lists v v' → linv b0 i s v'.
Proof.
  intros [Hi Hv [H1 H2] Hb Hpq Hidx] Hv' (E1 & E2 & E3 & E4 & _). split; try done.
  - by rewrite E4.
  - split; congruence.
  - unfold before. by rewrite E3.
  - by rewrite E4.
Qed.
Lemma kept_encoder s e : kept s (with_encoder e s).
Proof. split; try done. intros o r Hr. exists r. split; [done|apply same_req_refl]. Qed.

(** The tokens of a running request, its encoder inputs asked for *)
Lemma running_inputs_run b0 i s v o r :
  linv b0 i s v → o ∈ running s → objs s !! o = Some r → 0 < token_budget v →
  wpx F (if has_encoder_inputs r
         then on_self (_try_schedule_encoder_inputs ec r (num_computed_tokens r) (running_tokens (cfg s) r (token_budget v))
                         (encoder_compute_budget v) (if use_eagle (cfg s) then 1 else 0))
         else ret ([], running_tokens (cfg s) r (token_budget v), encoder_compute_budget v, [])) (s, v)
    (λ x y, (∃ e, y = (with_encoder e s, v) ∧ enc_inv (F := F) e) ∧ 0 ≤ x.1.1.2 ≤ running_tokens (cfg s) r (token_budget v) ∧
      Forall (in_range r) (x.1.1.1 ++ x.2)).
Proof.
  intros Hl Ho Hr Hb. pose proof (li_inv _ _ _ _ Hl) as Hi. destruct (inv_run_obj _ _ _ _ _ _ Hi Ho) as (r0 & Hr0 & _ & Hok & Hro & _).
  simplify_eq. destruct (running_tokens_bounds (cfg s) r (token_budget v) Hro Hb) as (Hn & _).
  destruct (has_encoder_inputs r).
  - unfold on_self. wpx_step. cbn [fst]. eapply wpx_mono.
    { apply (schedule_encoder_inputs_run F ec (λ _, 0) [] (preempted_reqs v) s o); [done|unfold parts; set_solver|done|lia]. }
    intros [[[inputs n] nb] ext] s' ((e & -> & He) & Hn' & Hin). cbn. split_and!; try done || lia. by exists e.
  - apply wpx_ret. cbn. split_and!; try done || lia. exists (encoder s). rewrite with_encoder_self. split; [done|apply Hi].
Qed.

Lemma mamba_run c s v r n :
  cfg s = c → cfg_ok c → 0 ≤ n →
  wpx F (if need_mamba_block_aligned_split c then on_self (_mamba_block_aligned_split r n 0 0) else ret n) (s, v)
    (λ n' y, y = (s, v) ∧ 0 ≤ n' ≤ n).
Proof.
  intros <- Hc Hn. destruct (need_mamba_block_aligned_split (cfg s)) eqn:Em; [|apply wpx_ret; split; [done|lia]].
  unfold on_self. wpx_step. apply mamba_split_run; [by apply Hc|done|]. intros n' Hn'. done.
Qed.

(** ** The loop *)
Lemma running_loop_run fuel b0 i s v :
  linv b0 i s v → Z.of_nat (length (running s)) ≤ Z.of_nat fuel + i →
  wpx F (running_loop ec fuel i) (s, v) (λ _ y, kept s y.1 ∧ ∃ j, linv b0 j y.1 y.2).
Proof.
  revert i s v. induction fuel as [|fuel IH]; intros i s v Hl Hfuel; cbn [running_loop]; wpx_steps.
  { destruct (negb _) eqn:Ec; [apply wpx_ret; split; [apply kept_refl|by exists i]|].
    apply negb_false_iff, andb_true_iff in Ec as [?%bool_decide_eq_true _]. lia. }
  destruct (negb _) eqn:Ec; [apply wpx_ret; split; [apply kept_refl|by exists i]|].
  apply negb_false_iff, andb_true_iff in Ec as [Hlt%bool_decide_eq_true Hbud%bool_decide_eq_true].
  pose proof (li_index _ _ _ _ Hl) as Hidx. destruct (lookup_lt_is_Some_2 (running s) (Z.to_nat i)) as [o Ho]; [lia|].
  wpx_step. eapply wpx_of_option; [rewrite list_get_lookup by done; exact Ho|].
  pose proof (list_elem_of_lookup_2 _ _ _ Ho) as Hor.
  destruct (inv_run_obj _ _ _ _ _ _ (li_inv _ _ _ _ Hl) Hor) as (r & Hr & _ & Hok & Hro & _).
  wpx_step. unfold on_self at 1. wpx_step. apply (wpx_obj _ _ _ r); [done|]. cbn [fst snd].
  destruct (reaches_max_tokens r); [by apply IH; [apply linv_next|lia]|].
  destruct (running_tokens_bounds (cfg s) r (token_budget v) Hro Hbud) as (Hn & Hlen & Htok).
  wpx_step. eapply wpx_mono; [by eapply running_inputs_run|]. cbv beta.
  intros [[[inputs n] nb] ext] y ((e & -> & He) & Hn' & Hin). cbn [fst snd] in Hn', Hin. cbv iota beta.
  apply (linv_encoder _ _ _ _ e) in Hl as Hl1; [|done].
  wpx_step. eapply wpx_mono; [apply (mamba_run (cfg s)); [done|apply Hl1|lia]|]. cbv beta. intros n2 y (-> & Hn2).
  case_bool_decide as Hz.
  { eapply wpx_mono; [apply IH; [by apply linv_next|cbn; lia]|]. cbv beta. intros _ y [Hk Hj]. split; [|done].
    eapply kept_trans; [apply kept_encoder|done]. }
  assert (waiting_for_room (cfg s) i (with_encoder e s) v o r) as Hw.
  { split_and!; [split; [apply elem_of_take; exists (Z.to_nat i); split; [done|lia]|done]| |done].
    intros Hs. pose proof Hl as [_ _ [H1 H2] Hb _ _]. unfold sch in Hs. rewrite H1, H2, !app_nil_r in Hs. apply Hb in Hs.
    apply elem_of_take in Hs as (j & Hj & Hjlt). pose proof (inv_nodup _ _ _ _ _ (li_inv _ _ _ _ Hl)) as Hnd.
    apply NoDup_app in Hnd as (Hnd & _). pose proof (NoDup_lookup _ _ _ _ Hnd Ho Hj). lia. }
  wpx_step. eapply wpx_mono; [eapply (allocate_loop_run _ b0 (with_encoder e s) v i o r n2); [done|exact Hw|lia|cbn; lia]|].
  cbv beta. intros [b i'] [s3 v3]. cbn [fst snd]. intros (Hl3 & Hk3 & Hlen3 & Hbud3 & Hsome). cbv iota beta.
  assert (kept s s3) as Hk by (eapply kept_trans; [apply kept_encoder|exact Hk3]).
  destruct b as [b|]; [|apply wpx_ret; split; [done|by exists i']].
  destruct Hsome as (r3 & Hw3 & Hre); [done|]. pose proof Hre as (h & -> & Hh).
  change (cfg (with_encoder e s)) with (cfg s) in Hw3. rewrite <- (kept_cfg _ _ Hk) in Hw3.
  wpx_step. eapply wpx_mono; [eapply schedule_running_run; [exact Hl3|exact Hw3|lia|..]|].
  { rewrite (kept_cfg _ _ Hk). cbn. lia. }
  { unfold num_tokens_with_spec, num_tokens in *. cbn. rewrite Hh. lia. }
  cbv beta. intros _ [s4 v4]. cbn [fst snd]. intros (Hs4 & Hl4 & Ho4).
  assert (objs s4 !! o = Some (set_spec [] (set_hashed h r))) as Hr4 by (subst s4; apply lookup_put).
  wpx_step. eapply wpx_mono; [eapply schedule_encoder_run; [apply Hl4| |apply Hl4|exact Ho4|exact Hr4|exact Hin]|].
  { apply Hok. }
  cbv beta. intros _ [s5 v5]. cbn [fst snd]. intros ((e5 & -> & He5) & Hv5 & Hsl).
  assert (linv b0 (i' + 1) (with_encoder e5 s4) v5) as Hl5 by (apply linv_encoder; [by eapply linv_lists|done]).
  assert (kept s (with_encoder e5 s4)) as Hk5.
  { eapply kept_trans; [exact Hk|]. eapply kept_trans; [|apply kept_encoder]. subst s4. eapply kept_put; [apply Hw3|done]. }
  eapply wpx_mono; [apply IH; [exact Hl5|]|].
  - subst s4. cbn in *. lia.
  - cbv beta. intros _ y [Hky Hj]. split; [by eapply kept_trans|done].
Qed.
End running.
