(* ===== verification/SchedulerWait.v ===== *)
(** * The scheduler: the loop over the waiting requests

    [waiting_loop] terminates and moves requests from the waiting queues to the running
    list, or sets them aside, without losing any. *)

From S2P Require Import Prelude OrderedDict FreeQueue BlockHash RequestQueue SchedQueue SchedRequest Raises Scheduler.
From S2P Require Import SchedulerInv SchedulerPreempt SchedulerStep SchedulerRun.
From S2P Require EncoderCache KVCacheManager.

Open Scope Z_scope.

Section waiting.
Context {K E C : Type} (F : exn → Prop) `{!KVManager K} `{!EncoderManager E}.
Context `{!KVLaws F K} `{!EncoderLaws F E}.
Context (ec : option (string → bool)).
Notation S := (t K E C).
Notation inv := (inv F (λ _, 0)).
Notation no_connector := (@None (Connector C)).
Implicit Types (s : S) (o p i : Z) (r : SRequest) (X P run : list Z) (v : step) (id : string) (k : Request) (w : which_queue).

Definition with_queue w (q : request_queue) s : S :=
  match w with Waiting => with_waiting q s | SkippedWaiting => with_skipped q s end.

(** The head of a queue, when it may be scheduled *)
Record ready w k s r : Prop := {
  re_head : head (q_items (queue_of w s)) = Some k;
  re_obj : objs s !! oid k = Some r;
  re_status : status r = WAITING ∨ status r = PREEMPTED ∧ w = Waiting;
  re_computed : num_computed_tokens r = 0
}.

Lemma head_queued X P w k s : inv X P s → head (q_items (queue_of w s)) = Some k →
  oid k ∈ queue_oids (queue_of w s) ∧ oid k ∈ parts s X ∧ oid k ∉ running s ∧ keyed s k.
Proof.
  intros Hi Hh. assert (k ∈ q_items (queue_of w s)) as Hk by (destruct (q_items _); [done|simpl in Hh; simplify_eq; by left]).
  pose proof (list_elem_of_fmap_2 oid _ _ Hk) as Ho.
  pose proof (inv_nodup _ _ _ _ _ Hi) as (_ & Hd & _)%NoDup_app.
  pose proof (inv_waiting _ _ _ _ _ Hi) as Hw. pose proof (inv_skipped _ _ _ _ _ Hi) as Hs. rewrite Forall_forall in Hw, Hs.
  split_and!; [done| | |].
  - unfold parts. destruct w; set_solver.
  - intros Hr. apply (Hd _ Hr). destruct w; set_solver.
  - destruct w; [by apply Hw|by apply Hs].
Qed.

(** ** Moving the head to the running list *)
Definition start_state w (q : request_queue) x k r' s : S :=
  put_obj (oid k) r' (with_running (running s ++ [oid k]) (with_queue w q (with_kv x s))).

Lemma start_names w q x k r r' s : objs s !! oid k = Some r → same_key r r' → ∀ o, name (start_state w q x k r' s) o = name s o.
Proof.
  intros Hr Hk o. unfold start_state. rewrite (name_put _ (oid k) r); [|by destruct w|done]. unfold name. by destruct w.
Qed.

Lemma inv_start X w k q s r r' x :
  inv X [] s → head (q_items (queue_of w s)) = Some k → objs s !! oid k = Some r →
  q_wf (policy (cfg s)) q → q_items (queue_of w s) ≡ₚ k :: q_items q →
  same_key r r' → (req_ok (enc_ok (F := F)) (cfg s) r → req_ok (enc_ok (F := F)) (cfg s) r') → running_ok (cfg s) 0 r' →
  kv_inv (F := F) ({[ request_id r ]} ∪ live_ids s) x → Z.of_nat (length (running s)) + 1 ≤ max_num_running_reqs (cfg s) →
  inv X [] (start_state w q x k r' s).
Proof.
  intros Hi Hhead Hr Hwf Hq Hkey Hreq Hrun Hx Hcap. destruct (head_queued _ _ _ _ _ Hi Hhead) as (Hoq & Hop & Hor & _).
  pose proof (inv_nodup _ _ _ _ _ Hi) as Hnd. unfold parts in Hnd.
  assert (parts (start_state w q x k r' s) X ≡ₚ parts s X) as Hparts.
  { unfold parts. destruct w; cbn in *; rewrite Hq; csimpl; solve_Permutation. }
  assert (∀ y, y ∈ queue_oids (waiting (with_queue w q s)) ++ queue_oids (skipped_waiting (with_queue w q s)) ++ X → y ≠ oid k) as Hne.
  { intros y Hy ->. destruct w; cbn in *; rewrite Hq in Hnd; csimpl in Hnd.
    - apply NoDup_app in Hnd as (_ & _ & [Hd _]%NoDup_cons). set_solver.
    - rewrite <- Permutation_middle in Hnd. apply NoDup_app in Hnd as (_ & _ & [Hd _]%NoDup_cons). set_solver. }
  destruct (inv_wf _ _ _ _ _ Hi) as [Hq1 Hq2].
  assert (kv_inv (F := F) (live_ids (start_state w q x k r' s)) x) as Hkv.
  { eapply kv_inv_mono; [|exact Hx]. intros id. unfold live_ids.
    replace (running (start_state w q x k r' s)) with (running s ++ [oid k]) by by destruct w.
    assert (name (start_state w q x k r' s) <$> running s ++ [oid k] = name s <$> running s ++ [oid k]) as ->
      by (apply list_fmap_ext; intros i y _; by apply (start_names _ _ _ _ r)).
    rewrite fmap_app. assert (name s (oid k) = request_id r) as Hn by (unfold name; by rewrite Hr). csimpl. rewrite Hn. set_solver. }
  eapply (inv_move F _ (λ _, 0) X X [] [] s _ (oid k) r r'); try done; destruct w; cbn [with_queue queue_of] in *; cbn; try apply Hi; try done.
  all: try (intros y [Hy|Hy%list_elem_of_singleton]%elem_of_app; [left; split; [by intros ->|done]|by right]).
  all: try (intros y Hy; left; split; [apply Hne|first [done|rewrite Hq; by right]];
            rewrite ?elem_of_app; (done || (by right; right) || (apply (list_elem_of_fmap_2 oid) in Hy; by auto))).
  all: rewrite length_app; simpl; lia.
Qed.

(** ** State of the loop *)
Record wstate b0 X s v : Prop := {
  ws_inv : inv X [] s;
  ws_v : vinv b0 (running s) s v;
  ws_pre : preempted_reqs v = [];
  ws_resumed o : o ∈ scheduled_resumed_reqs v → name s o ∉ prev_step_scheduled_req_ids s
}.

Lemma wstate_kv b0 X s v x : wstate b0 X s v → kv_inv (F := F) (live_ids s) x → wstate b0 X (with_kv x s) v.
Proof.
  intros [Hi Hv Hp Hr] Hx. split; [by apply inv_with_kv| |done|done].
  eapply vinv_state; [exact Hv|done|]. intros o Ho. split; [by apply (v_sub _ _ _ _ Hv)|done].
Qed.
Lemma wstate_encoder b0 X s v e : wstate b0 X s v → enc_inv (F := F) e → wstate b0 X (with_encoder e s) v.
Proof.
  intros [Hi Hv Hp Hr] He. split; [by apply inv_with_encoder| |done|done].
  eapply vinv_state; [exact Hv|done|]. intros o Ho. split; [by apply (v_sub _ _ _ _ Hv)|done].
Qed.
Lemma wstate_put b0 X s v o r r' :
  wstate b0 X s v → inv X [] (put_obj o r' s) → o ∉ running s → objs s !! o = Some r → same_key r r' →
  wstate b0 X (put_obj o r' s) v.
Proof.
  intros [Hi Hv Hp Hr] Hi' Ho Hobj Hk. split; [done| |done|].
  - eapply vinv_state; [exact Hv|done|]. intros x Hx. pose proof (v_sub _ _ _ _ Hv x Hx). split; [done|].
    apply lookup_put_ne. by intros ->.
  - intros x Hx. rewrite (name_put s o r r') by done. by apply Hr.
Qed.
Lemma kept_kv s x : kept s (with_kv x s).
Proof. split; try done. intros o r Hr. exists r. split; [done|apply same_req_refl]. Qed.

(** ** Promotion *)
Lemma promote_run b0 X w k s v r :
  wstate b0 X s v → head (q_items (queue_of w s)) = Some k → objs s !! oid k = Some r →
  wpx F (if _is_blocked_waiting_status (status r) then on_self (_try_promote_blocked_waiting_request no_connector (oid k))
         else ret true) (s, v) (λ b y, y.2 = v ∧
    if b then kept s y.1 ∧ wstate b0 X y.1 v ∧ running y.1 = running s ∧ queue_of Waiting y.1 = queue_of Waiting s ∧
              queue_of SkippedWaiting y.1 = queue_of SkippedWaiting s ∧ ∃ r', ready w k y.1 r' ∧ info r' = info r
    else y.1 = s ∧ w = SkippedWaiting).
Proof.
  intros Hs Hh Hr. pose proof (ws_inv _ _ _ _ Hs) as Hi. destruct (head_queued _ _ _ _ _ Hi Hh) as (Hoq & Hop & Hor & _).
  assert (k ∈ q_items (queue_of w s)) as Hk by (destruct (q_items _); [done|simpl in Hh; simplify_eq; by left]).
  pose proof (inv_waiting _ _ _ _ _ Hi) as Hw. pose proof (inv_skipped _ _ _ _ _ Hi) as Hsk.
  rewrite Forall_forall in Hw. rewrite Forall_forall in Hsk.
  assert (num_computed_tokens r = 0 ∧ (status r = WAITING ∨ status r = PREEMPTED ∧ w = Waiting ∨
    status r = WAITING_FOR_STRUCTURED_OUTPUT_GRAMMAR ∧ w = SkippedWaiting)) as [Hc Hst].
  { destruct w; [destruct (Hw k Hk) as (_ & r' & Hr' & [Hst Hc])|destruct (Hsk k Hk) as (_ & r' & Hr' & [Hst Hc])];
      simplify_eq; naive_solver. }
  assert (status r = WAITING ∨ status r = PREEMPTED ∧ w = Waiting → _is_blocked_waiting_status (status r) = false) as Hnb.
  { by intros [->|[-> _]]. }
  destruct (decide (status r = WAITING_FOR_STRUCTURED_OUTPUT_GRAMMAR)) as [Hg|Hg].
  - assert (w = SkippedWaiting) as -> by naive_solver congruence. rewrite Hg. cbn [_is_blocked_waiting_status].
    unfold on_self. wpx_step. unfold _try_promote_blocked_waiting_request. wpx_step. apply (wpx_obj _ _ _ r); [done|]. wpx_steps. rewrite Hg.
    destruct (_ && _); [|by apply wpx_ret].
    wpx_step. apply (wpx_mutate _ _ _ _ r); [done|]. apply wpx_ret. cbn [fst snd]. split; [done|].
    assert (inv X [] (put_obj (oid k) (set_status WAITING r) s)) as Hi'.
    { eapply inv_put; try done.
      - by intros []; split.
      - intros Hin. pose proof (inv_nodup _ _ _ _ _ Hi) as (_ & _ & (_ & Hd & _)%NoDup_app)%NoDup_app. destruct (Hd _ Hin). set_solver.
      - intros _. by split; [left|]. }
    split_and!; try done; [by eapply kept_put|by eapply wstate_put|].
    exists (set_status WAITING r). split; [|done]. split; [done|apply lookup_put|by left|done].
  - assert (status r = WAITING ∨ status r = PREEMPTED ∧ w = Waiting) as Hst' by naive_solver. rewrite Hnb by done.
    apply wpx_ret. cbn [fst snd]. split; [done|]. split_and!; try done; [apply kept_refl|]. exists r. by split.
Qed.

(** ** Tokens found and tokens to compute *)
Lemma computed_tokens_run b0 X w k s v r :
  wstate b0 X s v → ready w k s r →
  wpx F (computed_tokens no_connector (oid k)) s (λ c s', ∃ x b n, s' = with_kv x s ∧ c = Some (b, n, 0, n, false) ∧
    kv_inv (F := F) (live_ids s) x ∧ kv_hit (F := F) x (kv_request r) b n ∧ 0 ≤ n < num_tokens r).
Proof.
  intros Hs [Hh Hr Hst Hc]. pose proof (ws_inv _ _ _ _ Hs) as Hi. destruct (head_queued _ _ _ _ _ Hi Hh) as (_ & Hop & _).
  destruct (inv_obj _ _ _ _ _ _ Hi Hop) as (r' & Hr' & _ & Hok & _). simplify_eq.
  unfold computed_tokens. wpx_step. apply (wpx_obj _ _ _ r); [done|]. rewrite bool_decide_true by done.
  wpx_step. eapply wpx_on_kv; [apply kvl_computed; [apply Hi|apply Hok]|]. cbv beta. intros [b n] x (Hx & Hhit & Hn). cbn in Hx, Hhit, Hn. cbv iota beta.
  wpx_step. apply wpx_ret. cbv iota. replace (n + 0) with n by lia. 
  change (KVCacheManager.num_tokens (kv_request r)) with (num_tokens r) in Hn.
  wpx_step. apply wpx_assert; [apply bool_decide_eq_true; lia|]. wpx_step. apply wpx_assert.
  { destruct (prefill_stats r) eqn:Ep; [|done]. simpl. apply bool_decide_eq_true. pose proof (rq_fresh _ _ _ Hok Ep) as Hout.
    pose proof (rq_split _ _ _ Hok). unfold num_output_tokens in *. rewrite Hout in *. simpl in *. lia. }
  apply wpx_ret. exists x, b, n. split_and!; try done; lia.
Qed.

Lemma waiting_tokens_run b0 X w k s v r nc :
  wstate b0 X s v → ready w k s r → 0 ≤ nc < num_tokens r → 0 < token_budget v →
  wpx F (waiting_tokens ec r v nc) (s, v) (λ x y, (∃ e, y = (with_encoder e s, v) ∧ enc_inv (F := F) e) ∧
    match x with None => True | Some (inputs, n, nb, ext) =>
      0 < n ≤ token_budget v ∧ nc + n ≤ num_tokens r ∧ Forall (in_range r) (inputs ++ ext) end).
Proof.
  intros Hs [Hh Hr Hst Hc] Hnc Hb. pose proof (ws_inv _ _ _ _ Hs) as Hi. destruct (head_queued _ _ _ _ _ Hi Hh) as (_ & Hop & _).
  assert (∃ e, (s, v) = (with_encoder e s, v) ∧ enc_inv (F := F) e) as Hself.
  { exists (encoder s). rewrite with_encoder_self. split; [done|apply Hi]. }
  unfold waiting_tokens. wpx_steps.
  set (n0 := if bool_decide (0 < long_prefill_token_threshold (cfg s) < num_tokens r - nc) then _ else _).
  assert (0 < n0 ≤ num_tokens r - nc) as Hn0 by (unfold n0; case_bool_decide; lia).
  destruct (_ && _); [by apply wpx_ret|]. wpx_step. apply wpx_assert; [apply bool_decide_eq_true; lia|].
  destruct (has_encoder_inputs r); [|apply wpx_ret; split; [done|]; split_and!; [lia..|done]].
  wpx_step. unfold on_self. wpx_step. cbn [fst]. eapply wpx_mono.
  { apply (schedule_encoder_inputs_run F ec (λ _, 0) X [] s (oid k) r); [done..|]. lia. }
  intros [[[inputs n] nb] ext] s' ((e & -> & He) & Hn & Hin). cbv iota beta. cbn [snd].
  case_bool_decide; apply wpx_ret; (split; [by exists e|]); [done|]. split_and!; [lia..|done].
Qed.

Lemma waiting_split_run s v r n local :
  cfg_ok (cfg s) → 0 < n →
  wpx F (if need_mamba_block_aligned_split (cfg s) then
           n <- on_self (_mamba_block_aligned_split r n local 0) ;; ret (if bool_decide (n = 0) then None else Some n)
         else ret (Some n)) (s, v) (λ x y, y = (s, v) ∧ ∀ n', x = Some n' → 0 < n' ≤ n).
Proof.
  intros Hc Hn. destruct (need_mamba_block_aligned_split (cfg s)) eqn:Em; [|apply wpx_ret; split; [done|]; intros ? [= <-]; lia].
  wpx_step. unfold on_self. wpx_step. apply mamba_split_run; [by apply Hc|lia|]. intros n' Hn'. apply wpx_ret. split; [done|].
  case_bool_decide; [done|]. intros ? [= <-]. lia.
Qed.

(** ** Starting a request *)
Definition started (nc : Z) r : SRequest := set_computed nc (set_status RUNNING r).

Lemma pop_run pol w k s (Q : Request → S → Prop) :
  q_wf pol (queue_of w s) → head (q_items (queue_of w s)) = Some k →
  (∀ q, q_wf pol q → q_items (queue_of w s) ≡ₚ k :: q_items q → Q k (with_queue w q s)) →
  wpx F (on_which w q_pop) s Q.
Proof.
  intros Hw Hh HQ. destruct (q_pop_run pol (queue_of w s) k) as (q & Hq & Hwf & Hperm); [done|done|].
  destruct w; cbn in *; apply wpx_zoom; (eapply wpx_run; [exact Hq|]); by apply HQ.
Qed.

(** Room has been found: [r3] is the request with its new hashing state. *)
Lemma schedule_waiting_run b0 X w k s v r r3 q n nc x :
  wstate b0 X s v → ready w k s r → q_wf (policy (cfg s)) q → q_items (queue_of w s) ≡ₚ k :: q_items q → rehashed r r3 →
  kv_inv (F := F) ({[ request_id r ]} ∪ live_ids s) x →
  0 < n ≤ token_budget v → 0 ≤ nc → nc + n ≤ num_tokens r → Z.of_nat (length (running s)) + 1 ≤ max_num_running_reqs (cfg s) →
  wpx F (schedule_waiting (oid k) n nc) (with_queue w q (put_obj (oid k) r3 (with_kv x s)), v) (λ _ y,
    y.1 = start_state w q x k (started nc r3) s ∧ wstate b0 X y.1 y.2 ∧ oid k ∈ sch y.2).
Proof.
  intros Hs [Hh Hr Hst Hc] Hwf Hq Hre Hx Hn Hnc Hfit Hcap. pose proof (ws_inv _ _ _ _ Hs) as Hi.
  destruct (head_queued _ _ _ _ _ Hi Hh) as (Hoq & Hop & Hor & _).
  destruct (inv_obj _ _ _ _ _ _ Hi Hop) as (r' & Hr' & Hname & Hok & _). simplify_eq.
  apply (rehashed_ok _ _ _ _ Hre) in Hok as Hok3. destruct Hre as (h & -> & Htok). set (r3 := set_hashed h r) in *.
  set (o := oid k) in *. set (s' := start_state w q x k (started nc r3) s).
  set (s0 := with_running (running s ++ [o]) (with_queue w q (put_obj o r3 (with_kv x s)))).
  assert (put_obj o (started nc r3) s0 = s') as Hs'.
  { unfold s', start_state, s0. fold o. destruct w; unfold put_obj, with_objs; cbn; by rewrite insert_insert_eq. }
  assert (objs s0 !! o = Some r3) as Hr0 by (destruct w; apply lookup_put).
  assert (cfg s' = cfg s ∧ running s' = running s ++ [o] ∧ prev_step_scheduled_req_ids s' = prev_step_scheduled_req_ids s) as (Hcfg & Hrun & Hprev)
    by by destruct w.
  assert (objs s' !! o = Some (started nc r3)) as Hro by (rewrite <- Hs'; apply lookup_put).
  assert (∀ y, y ≠ o → objs s' !! y = objs s !! y) as Hobjs.
  { intros y Hy. unfold s', start_state. rewrite lookup_put_ne by done. by destruct w. }
  assert (same_key r (started nc r3)) as Hkey by done.
  assert (fits (cfg s') (started nc r3) n []) as Hfits.
  { pose proof (rq_tokens _ _ _ Hok3). pose proof (rq_placeholders _ _ _ Hok3). rewrite Hcfg. unfold fits, num_tokens in *. cbn in *.
    rewrite Htok in *. lia. }
  assert (inv X [] s') as Hi'.
  { apply (inv_start X w k q s r); try done; [by intros _; destruct Hok3; split|]. rewrite Hcfg in Hfits. destruct Hfits as (? & ? & ? & ? & ?).
    split; cbn in *; try done; lia. }
  assert (o ∉ sch v) as Hos by (intros Hin; by apply Hor, (v_sub _ _ _ _ (ws_v _ _ _ _ Hs))).
  assert (∀ y, name s' y = name s y) as Hnames by (intros y; by apply (start_names _ _ _ _ r)).
  assert (vinv b0 (running s') s' v) as Hv.
  { eapply vinv_state; [apply (ws_v _ _ _ _ Hs)|done|]. intros y Hy. rewrite Hrun. split; [pose proof (v_sub _ _ _ _ (ws_v _ _ _ _ Hs) y Hy); set_solver|].
    apply Hobjs. by intros ->. }
  assert (request_id r ∉ (num_scheduled_tokens v).*1) as Hfresh.
  { rewrite <- Hname. eapply fresh_name; [exact Hi|apply Hs|done|done]. }
  assert (∀ v', sch v' ≡ₚ o :: sch v → num_scheduled_tokens v' = od_set (request_id r) n (num_scheduled_tokens v) →
    (∃ b, req_to_new_blocks v' = od_set (request_id r) b (req_to_new_blocks v)) → token_budget v' = token_budget v - n →
    scheduled_encoder_inputs v' = scheduled_encoder_inputs v → scheduled_spec_decode_tokens v' = scheduled_spec_decode_tokens v →
    vinv b0 (running s') s' v') as Hv'.
  { intros v' H1 H2 H3 H4 H5 H6. eapply (vinv_schedule b0 _ _ v v' o (started nc r3) n []); try done; [rewrite Hrun; set_solver|lia]. }
  unfold schedule_waiting. wpx_step. unfold on_self at 1. wpx_steps. cbn [fst snd].
  replace (with_running (running (with_queue w q (put_obj o r3 (with_kv x s))) ++ [o]) (with_queue w q (put_obj o r3 (with_kv x s)))) with s0
    by by destruct w.
  unfold on_self at 1. wpx_step. apply (wpx_obj _ _ _ r3); [done|]. cbn [fst snd]. change (status r3) with (status r).
  wpx_step. destruct Hst as [Hst|[Hst ->]]; rewrite Hst; apply wpx_modify; cbn [fst snd].
  all: wpx_step; unfold on_self at 1; wpx_step; apply wpx_gets; cbn [fst snd].
  all: wpx_step; apply wpx_modify; cbn [fst snd].
  all: wpx_step; unfold on_self at 1; wpx_step; apply (wpx_mutate _ _ _ _ r3); [done|]; cbn [fst snd].
  all: unfold on_self; wpx_step; eapply wpx_mutate; [apply lookup_put|]; cbn [fst snd]; rewrite put_put.
  all: fold (started nc r3); rewrite Hs'.
  all: split; [done|]; (split; [|unfold sch; cbn; set_solver]); split; [exact Hi'| |apply Hs|].
  1,3: apply Hv'; try done; [unfold sch; cbn; solve_Permutation|by eexists].
  - intros y Hy. rewrite Hnames, Hprev. by apply (ws_resumed _ _ _ _ Hs).
  - intros y Hy. rewrite Hnames, Hprev. cbn in Hy.
    apply elem_of_app in Hy as [Hy|Hy%list_elem_of_singleton]; [by apply (ws_resumed _ _ _ _ Hs)|]. subst y.
    pose proof (inv_prev _ _ _ _ _ Hi) as Hpv. rewrite Forall_forall in Hpv. destruct (Hpv o Hoq) as [?|?%elem_of_nil]; [by exists r|done|done].
Qed.

(** ** One request *)
Definition queued s : nat := length (q_items (waiting s)) + length (q_items (skipped_waiting s)).

Lemma wstate_rehash b0 X w k s v r r3 x :
  wstate b0 X s v → ready w k s r → rehashed r r3 → kv_inv (F := F) (live_ids s) x → wstate b0 X (put_obj (oid k) r3 (with_kv x s)) v.
Proof.
  intros Hs [Hh Hr Hst Hc] Hre Hx. pose proof (ws_inv _ _ _ _ Hs) as Hi. destruct (head_queued _ _ _ _ _ Hi Hh) as (Hoq & Hop & Hor & _).
  pose proof (rehashed_same _ _ Hre) as Hsame. assert (status r3 = status r ∧ num_computed_tokens r3 = num_computed_tokens r) as [Hst3 Hc3]
    by by destruct Hre as (h & -> & _).
  apply (wstate_put _ _ (with_kv x s) _ _ r); [by apply wstate_kv| |done|done|apply Hsame].
  eapply (inv_put F _ X [] (with_kv x s)); [by apply inv_with_kv|exact Hr|apply Hsame|by apply rehashed_ok|done|..]; cbn.
  - pose proof (inv_waiting _ _ _ _ _ Hi) as Hw. rewrite Forall_forall in Hw. intros (y & Hy & Hyin)%list_elem_of_fmap.
    destruct (Hw y Hyin) as (_ & ry & Hry & Hwy). rewrite <- Hy in Hry. simplify_eq. unfold waiting_ok. by rewrite Hst3, Hc3.
  - unfold skipped_ok. rewrite Hst3, Hc3. intros [(y & Hy & Hyin)%list_elem_of_fmap|Ho]%elem_of_app.
    + pose proof (inv_skipped _ _ _ _ _ Hi) as Hsk. rewrite Forall_forall in Hsk. destruct (Hsk y Hyin) as (_ & ry & Hry & Hwy).
      rewrite <- Hy in Hry. by simplify_eq.
    + pose proof (inv_extra _ _ _ _ _ Hi) as Hex. rewrite Forall_forall in Hex. destruct (Hex _ Ho) as (ry & Hry & Hwy). by simplify_eq.
Qed.
Lemma kept_start w q x k r r3 nc s :
  objs s !! oid k = Some r → rehashed r r3 → kept s (start_state w q x k (started nc r3) s).
Proof.
  intros Hr Hre. assert (same_req r (started nc r3)) as Hsame by by destruct Hre as (h & -> & Hh).
  eapply kept_trans; [|eapply (kept_put (with_running (running s ++ [oid k]) (with_queue w q (with_kv x s))) _ r); [by destruct w|done]].
  destruct w; split; try done; intros y ry Hy; exists ry; (split; [done|apply same_req_refl]).
Qed.

(** After the tokens are known: room is asked for, and the request starts or the loop ends. *)
Definition verdict_ok b0 X s (x : verdict) (y : S * step) : Prop :=
  kept s y.1 ∧ wstate b0 X y.1 y.2 ∧
  match x with
  | Stop => True
  | Scheduled _ => queued s = Datatypes.S (queued y.1)
  | _ => False
  end.

Lemma queued_pop w k q s : q_items (queue_of w s) ≡ₚ k :: q_items q → queued s = Datatypes.S (queued (with_queue w q s)).
Proof. intros Hp%Permutation_length. unfold queued. destruct w; simpl in *; lia. Qed.

Lemma start_run b0 X w k s v r b nc n la nenc nb inputs ext :
  wstate b0 X s v → ready w k s r → kv_hit (F := F) (kv s) (kv_request r) b nc → 0 ≤ nc → 0 < n ≤ token_budget v →
  nc + n ≤ num_tokens r → Forall (in_range r) (inputs ++ ext) → Z.of_nat (length (running s)) + 1 ≤ max_num_running_reqs (cfg s) →
  wpx F (new_blocks <- on_self (on_kv_request (oid k) (kv_allocate_slots n nc (Some b) la 0 false nenc
                                  (scheduler_reserve_full_isl (cfg s)))) ;;
         match new_blocks with
         | None => (if has_encoder_inputs r then on_self (on_encoder (enc_free (encoder_request r))) else ret tt) ;; ret Stop
         | Some _ =>
             ret tt ;;
             _ <- on_self (on_which w q_pop) ;;
             schedule_waiting (oid k) n nc ;; schedule_encoder (oid k) inputs ext nb ;; ret (Scheduled (lora_int_id (info r)))
         end) (s, v) (verdict_ok b0 X s).
Proof.
  intros Hs Hre Hhit Hnc Hn Hfit Hin Hcap. pose proof (ws_inv _ _ _ _ Hs) as Hi. pose proof Hre as [Hh Hr Hst Hc].
  destruct (head_queued _ _ _ _ _ Hi Hh) as (Hoq & Hop & Hor & _).
  destruct (inv_obj _ _ _ _ _ _ Hi Hop) as (r' & Hr' & _ & Hok & _). simplify_eq.
  wpx_step. unfold on_self at 1. wpx_step. cbn [fst snd].
  eapply (wpx_on_kv_request F _ s (oid k) r); [done| |].
  { apply (kvl_allocate_waiting (F := F) (live_ids s)); [apply Hi| |done|done|lia].
    unfold live_ids. rewrite elem_of_list_to_set. intros (y & Hy & Hyr)%list_elem_of_fmap. apply Hor.
    rewrite (inv_name_inj _ _ _ _ s (oid k) y Hi); [done|done|unfold parts; set_solver|]. unfold name at 1. by rewrite Hr. }
  intros res x req [Hx Htok]. cbn [fst snd] in Hx, Htok. set (r3 := set_hashed (KVCacheManager.hashed req) r).
  assert (rehashed r r3) as Hre3 by by eexists. pose proof (rehashed_same _ _ Hre3) as Hsame.
  set (s3 := put_obj (oid k) r3 (with_kv x s)).
  destruct res as [res|]; cbv iota beta.
  2:{ assert (wstate b0 X s3 v) as Hs3 by by eapply wstate_rehash.
      assert (kept s s3) as Hk3 by (eapply kept_trans; [apply (kept_kv s x)|by eapply kept_put]).
      wpx_step. apply (wpx_mono _ _ _ (λ _ y, ∃ e, y = (with_encoder e s3, v) ∧ enc_inv (F := F) e)).
      - destruct (has_encoder_inputs r).
        + unfold on_self. wpx_step. cbn [fst]. eapply wpx_on_encoder; [apply encl_free; [apply Hs|apply Hok]|]. intros u e He. by exists e.
        + apply wpx_ret. exists (encoder s3). rewrite with_encoder_self. split; [done|apply Hs3].
      - intros _ y (e & -> & He). apply wpx_ret. split_and!; cbn [fst snd]; [|by apply wstate_encoder|done].
        eapply kept_trans; [exact Hk3|apply kept_encoder]. }
  wpx_steps. unfold on_self at 1. wpx_steps. cbn [fst]. apply (pop_run (policy (cfg s)) w k s3).
  { destruct (inv_wf _ _ _ _ _ Hi). by destruct w. }
  { by destruct w. }
  intros q Hwf Hperm. cbn [snd].
  wpx_step. eapply wpx_mono; [apply (schedule_waiting_run b0 X w k s v r r3 q n nc x); try done; by destruct w|].
  cbv beta. intros _ [s4 v4]. cbn [fst snd]. intros (Hs4 & Hw4 & Ho4).
  assert (objs s4 !! oid k = Some (started nc r3)) as Hr4 by (subst s4; apply lookup_put).
  wpx_step. eapply wpx_mono.
  { eapply (schedule_encoder_run F b0 (running s4) s4 v4 (oid k) (started nc r3)); [apply Hw4|apply Hok|apply Hw4|exact Ho4|exact Hr4|exact Hin]. }
  cbv beta. intros _ [s5 v5]. cbn [fst snd]. intros ((e5 & -> & He5) & Hv5 & (E1 & E2 & E3 & E4 & E5 & E6)).
  apply wpx_ret. split_and!; cbn [fst snd].
  - eapply kept_trans; [|apply kept_encoder]. subst s4. by eapply kept_start.
  - destruct Hw4 as [Hi4 Hvv4 Hp4 Hres4]. apply wstate_encoder; [|done]. split; [done|done|by rewrite E4|]. rewrite E2. done.
  - rewrite (queued_pop w k q s) by by destruct w. subst s4. by destruct w.
Qed.

Lemma try_waiting_run b0 X w k s v loras :
  wstate b0 X s v → head (q_items (queue_of w s)) = Some k → 0 < token_budget v →
  Z.of_nat (length (running s)) + 1 ≤ max_num_running_reqs (cfg s) →
  wpx F (try_waiting ec no_connector w loras (oid k)) (s, v) (λ x y,
    x = Skip ∧ y = (s, v) ∧ w = SkippedWaiting ∨ verdict_ok b0 X s x y).
Proof.
  intros Hs Hh Hb Hcap. pose proof (ws_inv _ _ _ _ Hs) as Hi. destruct (head_queued _ _ _ _ _ Hi Hh) as (_ & Hop & _).
  destruct (inv_obj _ _ _ _ _ _ Hi Hop) as (r & Hr & _ & Hok & _).
  unfold try_waiting. wpx_step. unfold on_self at 1. wpx_step. apply (wpx_obj _ _ _ r); [done|]. cbn [fst snd].
  wpx_step. eapply wpx_mono; [by eapply promote_run|]. cbv beta. intros [] [s1 v1]; cbn [fst snd]; [|intros (-> & -> & ->); by left].
  intros (-> & Hk1 & Hs1 & Hrun1 & Hq1 & Hq2 & r1 & Hre1 & Hinfo). cbn [negb]. wpx_steps.
  rewrite (co_loras _ (inv_cfg _ _ _ _ _ (ws_inv _ _ _ _ Hs1))). cbv iota.
  assert (queued s1 = queued s) as Hqd by (unfold queued; simpl in Hq1, Hq2; by rewrite Hq1, Hq2).
  wpx_step. unfold on_self at 1. wpx_step. cbn [fst]. eapply wpx_mono; [by eapply computed_tokens_run|]. cbv beta.
  intros c s2 (x & b & nc & -> & -> & Hx & Hhit & Hnc). cbn [snd]. cbv iota beta.
  apply (wstate_kv _ _ _ _ x) in Hs1 as Hs2; [|done]. assert (ready w k (with_kv x s1) r1) as Hre2 by (destruct Hre1; split; by destruct w).
  wpx_step. unfold on_self at 1. wpx_step. apply (wpx_obj _ _ _ r1); [apply Hre1|]. cbn [fst snd].
  wpx_step. eapply wpx_mono; [eapply waiting_tokens_run; [exact Hs2|exact Hre2|lia|done]|]. cbv beta.
  intros tok y ((e & -> & He) & Htok).
  apply (wstate_encoder _ _ _ _ e) in Hs2 as Hs3; [|done]. set (s3 := with_encoder e (with_kv x s1)) in *.
  assert (ready w k s3 r1) as Hre3 by (destruct Hre1; split; by destruct w).
  assert (kept s s3) as Hk3. { eapply kept_trans; [exact Hk1|]. eapply kept_trans; [apply (kept_kv s1 x)|apply kept_encoder]. }
  destruct tok as [[[[inputs n] nb] ext]|]; cbv iota beta; [|apply wpx_ret; right; by split_and!].
  destruct Htok as (Hn & Hfit & Hin).
  wpx_step. eapply wpx_mono; [apply (waiting_split_run s3); [apply (ws_inv _ _ _ _ Hs3)|lia]|]. cbv beta.
  intros sp y (-> & Hsp). destruct sp as [n'|]; cbv iota; [|apply wpx_ret; right; by split_and!]. specialize (Hsp n' eq_refl).
  wpx_step. apply (wpx_mono _ _ _ (λ _ y, y = (s3, v))).
  { destruct (_ && _); [|done]. unfold on_self. wpx_step. apply sum_embeds_run; [|done]. by apply Forall_app in Hin as [? _]. }
  cbv beta. intros nenc y ->. change (cfg s1) with (cfg s3). eapply wpx_mono.
  { eapply (start_run b0 X w k s3 v r1 b nc n'); try done; try lia. cbn. rewrite Hrun1. pose proof (kept_cfg _ _ Hk1) as Hc. cbn. rewrite Hc. done. }
  intros xv y (Hky & Hwy & Hxv). right. split_and!; [by eapply kept_trans|done|]. destruct xv; try done.
  change (queued s3) with (queued s1) in Hxv. by rewrite <- Hqd.
Qed.

(** ** The loop *)
Lemma keyed_kept s s' k : kept s s' → keyed s k → keyed s' k.
Proof.
  intros Hk (r & Hr & Hkey). destruct (kept_objs _ _ Hk _ _ Hr) as (r' & Hr' & [[Hinf Ha] _]). exists r'. split; [done|].
  rewrite Hkey. unfold queue_key. simpl. by rewrite Hinf, Ha.
Qed.

Lemma select_run X s (Q : option which_queue → S → Prop) :
  inv X [] s → q_nonempty (waiting s) || q_nonempty (skipped_waiting s) = true →
  (∀ w, q_nonempty (queue_of w s) = true → Q (Some w) s) → wpx F _select_waiting_queue_for_scheduling s Q.
Proof.
  intros Hi Hne HQ. destruct (inv_wf _ _ _ _ _ Hi) as [Hw Hsk]. unfold _select_waiting_queue_for_scheduling. wpx_steps.
  pose proof (HQ Waiting) as HQw. pose proof (HQ SkippedWaiting) as HQs. cbn in HQw, HQs.
  destruct (policy (cfg s)) eqn:Hp.
  - apply wpx_ret. destruct (q_nonempty (skipped_waiting s)); [by apply HQs|]. rewrite orb_false_r in Hne. rewrite Hne. by apply HQw.
  - destruct (q_nonempty (waiting s)) eqn:Ew, (q_nonempty (skipped_waiting s)) eqn:Es; try done; cbn [andb];
      [|apply wpx_ret; by apply HQw|apply wpx_ret; by apply HQs].
    destruct (q_peek_run PRIORITY (waiting s)) as (k1 & Hk1 & _); [done..|].
    destruct (q_peek_run PRIORITY (skipped_waiting s)) as (k2 & Hk2 & _); [done..|].
    wpx_step. apply wpx_zoom. eapply wpx_run; [exact Hk1|]. wpx_step. apply wpx_zoom. eapply wpx_run; [exact Hk2|].
    apply wpx_ret. cbn. replace (with_skipped _ _) with s by by destruct s. destruct (request_lt _ _); [by apply HQw|by apply HQs].
Qed.

Lemma peek_run X w s (Q : Request → S → Prop) :
  inv X [] s → q_nonempty (queue_of w s) = true → (∀ k, head (q_items (queue_of w s)) = Some k → Q k s) →
  wpx F (on_which w q_peek) s Q.
Proof.
  intros Hi Hne HQ. destruct (inv_wf _ _ _ _ _ Hi) as [Hw Hsk].
  destruct (q_peek_run (policy (cfg s)) (queue_of w s)) as (k & Hk & Hh); [by destruct w|done|].
  destruct w; cbn in *; apply wpx_zoom; (eapply wpx_run; [exact Hk|]); [replace (with_waiting _ _) with s by by destruct s|
    replace (with_skipped _ _) with s by by destruct s]; by apply HQ.
Qed.

(** A request set aside goes from its queue to the queue of this step. *)
Lemma wstate_skip b0 q q1 q2 k s v :
  wstate b0 (queue_oids q) s v → head (q_items (skipped_waiting s)) = Some k → q_wf (policy (cfg s)) q1 →
  q_items (skipped_waiting s) ≡ₚ k :: q_items q1 → q_items q2 ≡ₚ k :: q_items q →
  wstate b0 (queue_oids q2) (with_skipped q1 s) v.
Proof.
  intros [Hi Hv Hp Hres] Hh Hwf Hq1 Hq2. destruct (head_queued _ _ SkippedWaiting _ _ Hi Hh) as (Hoq & Hop & Hor & (r & Hr & Hkey)).
  split; [|eapply vinv_state; [exact Hv|done|]; intros x Hx; split; [by apply (v_sub _ _ _ _ Hv)|done]|done|done].
  pose proof (inv_nodup _ _ _ _ _ Hi) as Hnd. unfold parts in Hnd. rewrite Hq1 in Hnd. csimpl in Hnd. rewrite <- Permutation_middle in Hnd.
  apply NoDup_app in Hnd as (_ & _ & [Hnk _]%NoDup_cons).
  pose proof (inv_skipped _ _ _ _ _ Hi) as Hsk. rewrite Hq1 in Hsk. apply Forall_cons in Hsk as [(_ & r0 & Hr0 & Hok) _]. simplify_eq.
  destruct (inv_wf _ _ _ _ _ Hi).
  eapply (inv_move F _ (λ _, 0) _ (queue_oids q2) [] [] s (with_skipped q1 s) (oid k) r r); try done; try apply Hi.
  - simpl. by rewrite insert_id.
  - unfold parts. simpl. rewrite Hq1, Hq2. csimpl. solve_Permutation.
  - intros x Hx. left. split; [by intros ->|done].
  - intros x Hx. left. split; [|done]. intros Heq. apply Hnk. rewrite <- Heq. apply (list_elem_of_fmap_2 oid) in Hx. set_solver.
  - intros x Hx. left. simpl in *. split; [|rewrite Hq1; by right]. intros Heq. apply Hnk. rewrite <- Heq. apply (list_elem_of_fmap_2 oid) in Hx. set_solver.
  - intros x. rewrite Hq2. csimpl. intros [->|Hx]%elem_of_cons; [by right|left]. split; [|done]. intros ->. apply Hnk. set_solver.
Qed.

Record loop_ok b0 (q : request_queue) s v : Prop := {
  lo_state : wstate b0 (queue_oids q) s v;
  lo_wf : q_wf (policy (cfg s)) q;
  lo_keyed : Forall (keyed s) (q_items q)
}.

Lemma waiting_loop_run fuel loras b0 q s v :
  loop_ok b0 q s v → (queued s ≤ fuel)%nat →
  wpx F (waiting_loop ec no_connector fuel loras q) (s, v) (λ q' y, kept s y.1 ∧ loop_ok b0 q' y.1 y.2).
Proof.
  revert loras q s v. induction fuel as [|fuel IH]; intros loras q s v Hl Hf; cbn [waiting_loop]; wpx_steps.
  all: destruct (negb _) eqn:Ec; [apply wpx_ret; split; [apply kept_refl|done]|].
  all: apply negb_false_iff, andb_true_iff in Ec as [Hne Hbud%bool_decide_eq_true].
  all: case_bool_decide as Hmax; [apply wpx_ret; split; [apply kept_refl|done]|].
  { unfold queued in Hf. apply orb_true_iff in Hne as [H|H]; unfold q_nonempty in H; apply bool_decide_eq_true in H;
      [destruct (q_items (waiting s))|destruct (q_items (skipped_waiting s))]; simpl in *; done || lia. }
  pose proof Hl as [Hs Hwf Hkeyed]. pose proof (ws_inv _ _ _ _ Hs) as Hi. pose proof (inv_cap _ _ _ _ _ Hi) as Hcap.
  wpx_step. unfold on_self at 1. wpx_step. cbn [fst]. apply (select_run (queue_oids q)); [done..|]. intros w Hw. cbn [snd].
  wpx_step. apply wpx_of_option with (a := w); [done|]. wpx_step. unfold on_self at 1. wpx_step. cbn [fst].
  apply (peek_run (queue_oids q)); [done..|]. intros k Hk. cbn [snd].
  wpx_step. eapply wpx_mono; [eapply try_waiting_run; [exact Hs|exact Hk|done|lia]|]. cbv beta.
  intros x [s1 v1] [(-> & [= -> ->] & ->)|(Hk1 & Hs1 & Hx)]; cbn [fst snd] in *.
  - wpx_step. unfold on_self at 1. wpx_step. cbn [fst]. apply (pop_run (policy (cfg s)) SkippedWaiting k s); [apply Hi|done|].
    intros q1 Hwf1 Hq1. cbn [snd with_queue]. wpx_step. unfold on_self at 1. wpx_step. cbn [fst].
    destruct (head_queued _ _ _ _ _ Hi Hk) as (_ & _ & _ & (r & Hr & Hkey)). apply (wpx_key _ _ _ r); [done|]. cbn [snd]. rewrite <- Hkey.
    destruct (q_prepend_run _ k q Hwf) as (q2 & Hq2 & Hwf2 & Hperm2). rewrite Hq2. cbn [with_queue].
    eapply wpx_mono; [apply IH|].
    + split; [by eapply wstate_skip|done|]. rewrite Hperm2. constructor; [by exists r|done].
    + pose proof (queued_pop SkippedWaiting k q1 s Hq1). cbn in *. lia.
    + cbv beta. intros q' y [Hky Hly]. split; [|done]. eapply kept_trans; [|exact Hky].
      split; try done. intros x rx Hx. exists rx. split; [done|apply same_req_refl].
  - assert (loop_ok b0 q s1 v1) as Hl1.
    { split; [done|by rewrite (kept_cfg _ _ Hk1)|]. eapply Forall_impl; [done|]. intros y Hy. by eapply keyed_kept. }
    destruct x; try done. eapply wpx_mono; [apply IH; [done|lia]|].
    cbv beta. intros q' y [Hky Hly]. split; [by eapply kept_trans|done].
Qed.
End waiting.
