(* ===== verification/SchedulerSchedule.v ===== *)
(** * The scheduler: a whole step

    [schedule] from a consistent state: it returns, stays within the limits the code
    asserts, schedules distinct running requests with positive numbers of tokens, loses no
    request and leaves a consistent state. *)

From S2P Require Import Prelude OrderedDict FreeQueue BlockHash RequestQueue SchedQueue SchedRequest Raises Scheduler.
From S2P Require Import SchedulerInv SchedulerPreempt SchedulerStep SchedulerRun SchedulerWait.
From S2P Require EncoderCache KVCacheManager.

Open Scope Z_scope.

Section schedule.
Context {K E C : Type} (F : exn → Prop) `{!KVManager K} `{!EncoderManager E}.
Context `{!KVLaws F K} `{!EncoderLaws F E}.
Context (ec : option (string → bool)).
Notation S := (t K E C).
Notation inv := (inv F).
Notation no_connector := (@None (Connector C)).
Implicit Types (s : S) (o p i : Z) (r : SRequest) (X P run : list Z) (v : step) (id : string) (k : string → Z).

Definition idle : string → Z := λ _, 0.

(** ** The two loops *)
Record step_done b0 s0 s v : Prop := {
  sd_kept : kept s0 s;
  sd_inv : inv idle [] (preempted_reqs v) s;
  sd_v : vinv b0 (running s) s v;
  sd_preempted o : o ∈ preempted_reqs v → o ∈ queue_oids (waiting s);
  sd_resumed o : o ∈ scheduled_resumed_reqs v → name s o ∉ prev_step_scheduled_req_ids s;
  sd_paused : pause_state s0 ≠ UNPAUSED → scheduled_new_reqs v = [] ∧ scheduled_resumed_reqs v = []
}.

Lemma loop_start s v b0 j : linv F b0 j s v → preempted_reqs v = [] →
  loop_ok F b0 (create_request_queue (policy (cfg s))) s v.
Proof.
  intros [Hi Hv [Hn Hr] _ _ _] Hp. rewrite Hp in Hi. destruct (q_wf_create (policy (cfg s))) as [Hwf Hnil].
  split; [|done|by rewrite Hnil]. rewrite Hnil. split; [done..|]. rewrite Hr. by intros o ?%elem_of_nil.
Qed.

Lemma loop_end b0 q s v :
  loop_ok F b0 q s v →
  wpx F (if q_nonempty q then on_self (on_which SkippedWaiting (q_prepend_requests (q_iter q))) else ret tt) (s, v)
    (λ _ y, y.2 = v ∧ kept s y.1 ∧ inv idle [] [] y.1 ∧ vinv b0 (running y.1) y.1 v ∧ running y.1 = running s ∧
            objs y.1 = objs s ∧ prev_step_scheduled_req_ids y.1 = prev_step_scheduled_req_ids s).
Proof.
  intros [[Hi Hv Hp Hr] Hwf Hkey]. destruct (q_nonempty q) eqn:Hne.
  - destruct (inv_wf _ _ _ _ _ Hi) as [Hw Hsk].
    destruct (q_prepend_requests_run _ (q_iter q) (skipped_waiting s) Hsk) as (q' & Hq' & Hwf' & Hperm).
    unfold on_self. wpx_step. cbn [fst]. apply wpx_zoom. eapply wpx_run; [exact Hq'|]. cbn [fst snd].
    rewrite (q_iter_perm _ _ Hwf) in Hperm. split_and!; try done.
    + split; try done. intros o r Ho. exists r. split; [done|apply same_req_refl].
    + destruct Hi as [Hc Hids Hobjs Hparts Hrun Hwait Hskip Hex Hqwf Hprev Hcap Hkv Henc]. split; try done; cbn.
      * rewrite Hparts. unfold parts. cbn. rewrite Hperm. rewrite fmap_app. solve_Permutation.
      * rewrite Hperm. apply Forall_app. split; [|done]. rewrite Forall_forall in Hkey. rewrite Forall_forall in Hex. apply Forall_forall.
        intros x Hx. split; [by apply Hkey|]. by apply Hex, list_elem_of_fmap_2.
    + eapply vinv_state; [exact Hv|done|]. intros x Hx. split; [by apply (v_sub _ _ _ _ Hv)|done].
  - apply q_nonempty_false in Hne. rewrite Hne in Hi. apply wpx_ret. split_and!; try done. apply kept_refl.
Qed.

Lemma schedule_step_run b0 s v :
  linv F b0 0 s v → preempted_reqs v = [] →
  wpx F (schedule_step ec no_connector) (s, v) (λ _ y, step_done b0 s y.1 y.2).
Proof.
  intros Hl Hp0. unfold schedule_step. wpx_steps. eapply wpx_mono; [apply (running_loop_run F ec _ b0); [done|lia]|]. cbv beta.
  intros _ [s1 v1] [Hk1 (j & Hl1)]. cbn [fst snd] in *. wpx_step.
  unfold running_loras. wpx_steps. rewrite (co_loras _ (inv_cfg _ _ _ _ _ (li_inv _ _ _ _ _ Hl1))). apply wpx_ret. wpx_steps.
  pose proof (li_only _ _ _ _ _ Hl1) as [Hnew Hres].
  destruct (bool_decide (preempted_reqs v1 = []) && bool_decide (pause_state s1 = UNPAUSED)) eqn:Ec.
  2:{ apply wpx_ret. cbn [fst snd]. destruct Hl1 as [Hi1 Hv1 _ _ Hpq _]. split; try done. rewrite Hres. by intros o ?%elem_of_nil. }
  apply andb_true_iff in Ec as [Hpre%bool_decide_eq_true Hpause%bool_decide_eq_true].
  pose proof (loop_start _ _ _ _ Hl1 Hpre) as Hlo.
  wpx_step. eapply wpx_mono; [apply (waiting_loop_run F ec _ _ b0); [exact Hlo|unfold queued; lia]|]. cbv beta.
  intros q [s2 v2] [Hk2 Hlo2]. cbn [fst snd] in *. eapply wpx_mono; [by apply loop_end|]. cbv beta.
  intros _ [s3 v3]. cbn [fst snd]. intros (-> & Hk3 & Hi3 & Hv3 & Hrun3 & Hobj3 & Hprev3).
  pose proof (lo_state _ _ _ _ _ Hlo2) as [Hi2 Hv2 Hpre2 Hres2]. split.
  - eapply kept_trans; [exact Hk1|]. by eapply kept_trans.
  - by rewrite Hpre2.
  - done.
  - rewrite Hpre2. by intros o ?%elem_of_nil.
  - intros o Ho. unfold name. rewrite Hobj3, Hprev3. by apply Hres2.
  - intros Hne. destruct Hne. rewrite <- Hpause. symmetry. apply Hk1.
Qed.

(** ** The constraints the code asserts *)
Lemma check_limits_run b0 s v (Q : Z → S * step → Prop) :
  inv idle [] (preempted_reqs v) s → vinv b0 (running s) s v → b0 ≤ max_num_scheduled_tokens (cfg s) →
  Q (total (num_scheduled_tokens v).*2) (s, v) → wpx F check_limits (s, v) Q.
Proof.
  intros Hi Hv Hb HQ. destruct (v_budget _ _ _ _ Hv) as [Hb1 Hb2]. unfold check_limits. wpx_steps. unfold total in *.
  apply wpx_assert; [apply bool_decide_eq_true; lia|]. wpx_step. apply wpx_assert; [by apply bool_decide_eq_true|].
  wpx_step. apply wpx_assert; [apply bool_decide_eq_true, Hi|]. wpx_step. apply wpx_assert; [|by apply wpx_ret].
  apply bool_decide_eq_true. assert (length (sch v) ≤ length (running s))%nat as Hlen.
  { apply submseteq_length, NoDup_submseteq; [apply Hv|]. intros o. apply (v_sub _ _ _ _ Hv). }
  unfold sch in Hlen. rewrite !length_app in Hlen. lia.
Qed.

Lemma wpx_with_locals {A} v (m : M (S * step) A) s (Q : A * step → S → Prop) :
  wpx F m (s, v) (λ a y, Q (a, y.2) y.1) → wpx F (with_locals v m) s Q.
Proof. unfold wpx, with_locals. by destruct (m (s, v)) as [[a|e] [s' v']]. Qed.

(** ** The output *)
Lemma entry_blocks s v b0 o r :
  vinv b0 (running s) s v → o ∈ sch v → objs s !! o = Some r → ∃ b, od_get (request_id r) (req_to_new_blocks v) = Some b.
Proof. intros Hv Ho Hr. destruct (v_entry _ _ _ _ Hv o Ho) as (r' & n & Hr' & _ & [b Hb] & _). simplify_eq. eauto. Qed.

(** What the workers are told of a request they know *)
Definition cached_ok s v (c : CachedRequest) : Prop :=
  ∃ o r, o ∈ sch v ∧ objs s !! o = Some r ∧ cr_id c = request_id r ∧ cr_num_computed_tokens c = num_computed_tokens r.

Lemma cached_data_run b0 s v running_reqs resumed_reqs (Q : list CachedRequest → S → Prop) :
  vinv b0 (running s) s v → (∀ o, o ∈ running_reqs ++ resumed_reqs → o ∈ sch v) →
  (∀ o, o ∈ resumed_reqs → name s o ∉ prev_step_scheduled_req_ids s) → (∀ l, Forall (cached_ok s v) l → Q l s) →
  wpx F (_make_cached_request_data v running_reqs resumed_reqs) s Q.
Proof.
  intros Hv Hsub Hres HQ. unfold _make_cached_request_data. apply (wpx_for_collect _ _ _ _ (λ s', s' = s) (λ _ c, cached_ok s v c)); [done| |].
  2:{ intros bs ? -> Hall. apply HQ. clear -Hall. by induction Hall; constructor. }
  intros [resumed o] s' Hin ->. assert (o ∈ sch v ∧ (resumed = true → name s o ∉ prev_step_scheduled_req_ids s)) as [Ho Hpr].
  { apply elem_of_app in Hin as [(x & [= -> ->] & Hx)%list_elem_of_fmap|(x & [= -> ->] & Hx)%list_elem_of_fmap];
      (split; [apply Hsub, elem_of_app; auto|]); [done|auto]. }
  destruct (v_entry _ _ _ _ Hv o Ho) as (r & n & Hr & Hn & [b Hb] & _).
  wpx_step. apply (wpx_obj _ _ _ r); [done|]. wpx_steps.
  apply (wpx_mono _ _ _ (λ _ s', s' = s)).
  { destruct (_ && _); [|done]. wpx_step. by apply (wpx_of_option _ _ _ n). }
  intros nt s' ->. wpx_step. apply (wpx_mono _ _ _ (λ _ s', s' = s)).
  { destruct resumed; [|done]. apply wpx_assert; [|done]. apply negb_true_iff, bool_decide_eq_false.
    specialize (Hpr eq_refl). unfold name in Hpr. by rewrite Hr in Hpr. }
  intros _ s' ->. wpx_step. apply (wpx_of_option _ _ _ b); [done|]. apply wpx_ret. split; [done|]. by exists o, r.
Qed.

Lemma sch_running b0 s v o : vinv b0 (running s) s v → o ∈ sch v → o ∈ running s.
Proof. intros Hv. by apply (v_sub _ _ _ _ Hv). Qed.

Lemma inv_with_prev b0 s v :
  inv idle [] (preempted_reqs v) s → vinv b0 (running s) s v →
  inv idle [] [] (with_prev (list_to_set (num_scheduled_tokens v).*1) s).
Proof.
  intros Hi Hv. pose proof (inv_nodup _ _ _ _ _ Hi) as (_ & Hd & _)%NoDup_app.
  pose proof Hi as [Hc Hids Hobjs Hparts Hrun Hwait Hskip Hex Hqwf Hprev Hcap Hkv Henc]. split; try done. cbn.
  apply Forall_forall. intros o Ho _. left. rewrite elem_of_list_to_set. intros Hin.
  change (name (with_prev _ s) o) with (name s o) in Hin. rewrite (v_names _ _ _ _ Hv) in Hin. apply list_elem_of_fmap in Hin as (o' & Hn & Ho').
  pose proof (sch_running b0 s v o' Hv Ho') as Hr'.
  apply (inv_name_inj _ _ _ _ s o o' Hi) in Hn; [|unfold parts; set_solver..]. subst o'.
  apply (Hd o Hr'). set_solver.
Qed.

(** Only the managers and the ids of the previous step change. *)
Record unmoved s s' : Prop := {
  um_cfg : cfg s' = cfg s;
  um_objs : objs s' = objs s;
  um_requests : requests s' = requests s;
  um_running : running s' = running s;
  um_waiting : waiting s' = waiting s;
  um_pause : pause_state s' = pause_state s
}.

(** A request told to the workers for the first time *)
Definition new_ok s v (x : NewRequest) : Prop :=
  ∃ o r, o ∈ sch v ∧ objs s !! o = Some r ∧ nr_id x = request_id r ∧ nr_num_computed_tokens x = num_computed_tokens r.

(** What the output says *)
Record output_of v (s : S) (out : SchedulerOutput) : Prop := {
  oo_tokens : out_num_scheduled_tokens out = num_scheduled_tokens v;
  oo_total : out_total_num_scheduled_tokens out = total (num_scheduled_tokens v).*2;
  oo_spec : out_spec_decode_tokens out = scheduled_spec_decode_tokens v;
  oo_cached : Forall (cached_ok s v) (out_cached_reqs out);
  oo_fresh : Forall (new_ok s v) (out_new_reqs out);
  oo_preempted : out_preempted_req_ids out = name s <$> preempted_reqs v;
  oo_new : scheduled_new_reqs v = [] → scheduled_resumed_reqs v = [] → out_new_reqs out = []
}.

Lemma request_ids_run s l (Q : list string → S → Prop) :
  (∀ o, o ∈ l → is_Some (objs s !! o)) → Q (name s <$> l) s → wpx F (request_ids l) s Q.
Proof.
  intros Hl HQ. unfold request_ids. apply (wpx_for_collect _ _ _ _ (λ s', s' = s) (λ o id, id = name s o)); [done|..].
  - intros o s' Ho ->. destruct (Hl o Ho) as [r Hr]. wpx_step. apply (wpx_obj _ _ _ r); [done|]. apply wpx_ret. split; [done|].
    unfold name. by rewrite Hr.
  - intros ids s' -> Hall. replace ids with (name s <$> l); [done|]. clear -Hall. induction Hall as [|o id l ids -> _ IH]; csimpl; [done|by rewrite IH].
Qed.

Lemma make_output_run b0 s0 s v :
  step_done b0 s0 s v →
  wpx F (make_output v (total (num_scheduled_tokens v).*2)) s (λ out s', inv idle [] [] s' ∧ vinv b0 (running s') s' v ∧
    unmoved s s' ∧ output_of v s out).
Proof.
  intros [Hk Hi Hv Hpre Hres Hpause]. unfold make_output. wpx_steps.
  apply (wpx_mono _ _ _ (λ _ s', ∃ x, s' = with_kv x s ∧ kv_inv (F := F) (live_ids s) x)).
  { destruct (running s) as [|o l] eqn:Hrun.
    - apply wpx_ret. exists (kv s). split; [by destruct s|apply Hi].
    - destruct (inv_run_obj _ _ _ _ _ o Hi) as (r & Hr & _); [rewrite Hrun; by left|].
      wpx_step. apply (wpx_obj _ _ _ r); [done|]. eapply wpx_on_kv; [apply kvl_common, Hi|]. intros l' x Hx. by exists x. }
  intros common s1 (x & -> & Hx).
  set (lists := if use_v2_model_runner (cfg s) then _ else _).
  destruct lists as [new_reqs resumed_reqs] eqn:El.
  assert (∀ o, o ∈ new_reqs ++ resumed_reqs → o ∈ sch v) as Hsub.
  { unfold lists, sch in *. destruct (use_v2_model_runner _); simplify_eq; set_solver. }
  assert (∀ o, o ∈ resumed_reqs → o ∈ scheduled_resumed_reqs v) as Hsubr.
  { unfold lists in *. destruct (use_v2_model_runner _); simplify_eq; set_solver. }
  assert (scheduled_new_reqs v = [] → scheduled_resumed_reqs v = [] → new_reqs = []) as Hnew.
  { intros H1 H2. unfold lists in *. destruct (use_v2_model_runner _); simplify_eq; rewrite H1, ?H2; done. }
  clear El lists. set (s1 := with_kv x s) in *.
  assert (inv idle [] (preempted_reqs v) s1) as Hi1 by by apply inv_with_kv.
  assert (vinv b0 (running s1) s1 v) as Hv1.
  { eapply vinv_state; [exact Hv|done|]. intros o Ho. split; [by apply (v_sub _ _ _ _ Hv)|done]. }
  wpx_step. apply (wpx_for_collect _ _ _ _ (λ s', s' = s1) (λ _ x, new_ok s v x)); [done| |].
  { intros o s' Ho ->. assert (o ∈ sch v) as Hos by (apply Hsub, elem_of_app; by left).
    destruct (v_entry _ _ _ _ Hv1 o Hos) as (r & n & Hr & _ & [b Hb] & _).
    wpx_step. apply (wpx_obj _ _ _ r); [done|]. wpx_steps. apply (wpx_of_option _ _ _ b); [done|]. apply wpx_ret. split; [done|]. by exists o, r. }
  intros new_data s' -> Hnd. wpx_step. apply (cached_data_run b0); [done| | |].
  { intros o [Ho|Ho]%elem_of_app; [unfold sch; set_solver|apply Hsub, elem_of_app; by right]. }
  { intros o Ho. apply Hres, Hsubr, Ho. }
  intros cached Hcached. wpx_step. apply wpx_modify.
  pose proof (inv_with_prev b0 s1 v Hi1 Hv1) as Hi2. set (s2 := with_prev _ s1) in *.
  wpx_step. apply (wpx_mono _ _ _ (λ _ s', ∃ y, s' = with_kv y s2 ∧ kv_inv (F := F) (live_ids s2) y)).
  { destruct (needs_kv_cache_zeroing _).
    - eapply wpx_on_kv; [apply kvl_take, Hi2|]. intros l y Hy. by exists y.
    - apply wpx_ret. exists (kv s2). split; [done|apply Hi2]. }
  intros to_zero s3 (y & -> & Hy). wpx_step. apply request_ids_run.
  { intros o Ho%Hpre. destruct (inv_obj _ _ _ _ _ o Hi) as (r & Hr & _); [unfold parts; set_solver|]. cbn. by rewrite Hr. }
  wpx_step. eapply wpx_on_encoder; [apply encl_freed, Hi|]. intros freed e He. wpx_steps. split_and!.
  - by apply (inv_with_encoder F _ _ _ (with_kv y s2)), He; apply inv_with_kv.
  - eapply vinv_state; [exact Hv|done|]. intros o Ho. split; [by apply (v_sub _ _ _ _ Hv)|done].
  - done.
  - split; try done.
    + cbn. clear -Hnd. induction Hnd; by constructor.
    + intros H1 H2. cbn. rewrite (Hnew H1 H2) in Hnd. by apply Forall2_nil_inv_l in Hnd.
Qed.

(** ** After the step *)

(** The request once [n] tokens are scheduled *)
Definition advanced (n : Z) r : SRequest :=
  set_prefill_chunk (bool_decide (num_computed_tokens r + n < num_tokens r + num_output_placeholders r))
    (set_computed (num_computed_tokens r + n) r).
Definition spec_len (d : list (string * list Z)) id : Z := Z.of_nat (length (default [] (od_get id d))).
(** Speculative tokens in flight of the requests of [L] *)
Definition in_flight (L : list (string * Z)) (d : list (string * list Z)) id : Z :=
  if bool_decide (id ∈ L.*1) then spec_len d id else 0.

Record advancing s (L : list (string * Z)) (d : list (string * list Z)) s' : Prop := {
  ad_inv : inv (in_flight L d) [] [] s';
  ad_cfg : cfg s' = cfg s;
  ad_requests : requests s' = requests s;
  ad_running : running s' = running s;
  ad_waiting : waiting s' = waiting s;
  ad_objs o r : objs s !! o = Some r →
    objs s' !! o = Some (if decide (o ∈ running s)
                         then match od_get (request_id r) L with Some n => advanced n r | None => r end else r)
}.

(** An entry of the output belongs to one running request. *)
Lemma entry_of b0 s v id n :
  inv idle [] [] s → vinv b0 (running s) s v → (id, n) ∈ num_scheduled_tokens v →
  ∃ o r, o ∈ running s ∧ o ∈ sch v ∧ objs s !! o = Some r ∧ request_id r = id ∧ od_get id (requests s) = Some o ∧
    req_ok (enc_ok (F := F)) (cfg s) r ∧ running_ok (cfg s) 0 r ∧ fits (cfg s) r n (spec_of v id).
Proof.
  intros Hi Hv Hin. assert (id ∈ (num_scheduled_tokens v).*1) as Hid by by apply (list_elem_of_fmap_2 fst) in Hin.
  rewrite (v_names _ _ _ _ Hv) in Hid. apply list_elem_of_fmap in Hid as (o & -> & Ho). pose proof (v_sub _ _ _ _ Hv o Ho) as Hor.
  destruct (inv_run_obj _ _ _ _ _ _ Hi Hor) as (r & Hr & Hn & Hok & Hro & Hget).
  destruct (v_entry _ _ _ _ Hv o Ho) as (r' & n' & Hr' & Hn' & _ & Hfit & _). simplify_eq.
  apply od_elem_get in Hin; [|apply Hv]. rewrite Hn in *. simplify_eq. exists o, r. by split_and!.
Qed.

Lemma advancing_step b0 s v L id n s' :
  inv idle [] [] s → vinv b0 (running s) s v → (id, n) ∈ num_scheduled_tokens v → id ∉ L.*1 →
  advancing s L (scheduled_spec_decode_tokens v) s' →
  ∃ o r, od_get id (requests s') = Some o ∧ objs s' !! o = Some r ∧
    advancing s (L ++ [(id, n)]) (scheduled_spec_decode_tokens v) (put_obj o (advanced n r) s').
Proof.
  intros Hi Hv Hin Hid [Ai Ac Aq Ar Aw Ao]. destruct (entry_of _ _ _ _ _ Hi Hv Hin) as (o & r & Ho & Hos & Hr & Hn & Hget & Hok & Hro & Hfit).
  specialize (Ao) as Ao'. specialize (Ao o r Hr). rewrite decide_True, Hn, (proj2 (od_get_None _ _) Hid) in Ao by done.
  exists o, r. rewrite Aq. split_and!; [done|done|].
  assert (∀ x, x ≠ id → od_get x (L ++ [(id, n)]) = od_get x L) as Hother.
  { intros x Hx. rewrite od_get_app. simpl. rewrite decide_False by done. by destruct (od_get x L). }
  split; try done.
  - eapply inv_advance; [exact Ai|by rewrite Ar|done|done| | |].
    + by intros []; split.
    + rewrite Ac, Hn. unfold in_flight. rewrite bool_decide_true by (rewrite fmap_app; set_solver). destruct Hfit as (H1 & H2 & H3 & H4 & H5).
      unfold spec_of, spec_len in *. split; cbn; try apply Hro; unfold num_tokens in *; cbn; lia.
    + intros x Hx. unfold in_flight. rewrite Hn in Hx. erewrite bool_decide_ext; [done|]. rewrite fmap_app. csimpl. set_solver.
  - intros x rx Hx. destruct (decide (x = o)) as [->|Hne].
    + simplify_eq. rewrite lookup_put, decide_True by done. rewrite od_get_app, (proj2 (od_get_None _ _) Hid). simpl. by rewrite decide_True.
    + rewrite lookup_put_ne, (Ao' x rx Hx) by done. case_decide as Hxr; [|done]. rewrite Hother; [done|]. intros Heq. apply Hne.
      apply (inv_name_inj _ _ _ _ s _ _ Hi); [unfold parts; set_solver..|]. unfold name. by rewrite Hx, Hr, Heq, Hn.
Qed.

Lemma update_after_run b0 s v out :
  inv idle [] [] s → vinv b0 (running s) s v → output_of v s out →
  wpx F (_update_after_schedule out) s (λ _ s', advancing s (num_scheduled_tokens v) (scheduled_spec_decode_tokens v) s' ∧
    finished_req_ids s' = ∅).
Proof.
  intros Hi Hv Hout. unfold _update_after_schedule. rewrite (oo_tokens _ _ _ Hout). wpx_step.
  apply (wpx_for_each _ _ _ _ (λ L s', advancing s L (scheduled_spec_decode_tokens v) s')).
  - split; try done. intros o r Hr. rewrite Hr. by case_decide.
  - intros L [id n] todo s' Hsplit Had. pose proof (v_wf _ _ _ _ Hv) as (Hwf & _). unfold od_wf in Hwf. rewrite Hsplit, fmap_app in Hwf. csimpl in Hwf.
    destruct (advancing_step b0 s v L id n s' Hi Hv) as (o & r & Hget & Hr & Had'); [rewrite Hsplit; set_solver| |done|].
    { apply NoDup_app in Hwf as (_ & Hd & _). intros Hin. destruct (Hd _ Hin). by left. }
    wpx_steps. apply (wpx_of_option _ _ _ o); [done|]. wpx_step. apply (wpx_mutate _ _ _ _ r); [done|].
    eapply wpx_mutate; [apply lookup_put|]. by rewrite put_put.
  - intros s' Had. apply wpx_modify. split; [|done]. destruct Had as [Ai Ac Aq Ar Aw Ao]. split; try done. by destruct Ai; split.
Qed.

(** ** The asynchronous scheduler books the tokens in flight as placeholders. *)
Definition booked (num_spec : Z) (d : list (string * list Z)) r : SRequest :=
  if is_prefill_chunk r then r
  else set_spec (replicate (Z.to_nat num_spec) (-1))
         (set_placeholders (num_output_placeholders r + 1 + spec_len d (request_id r)) r).
Definition unbooked (L D : list (string * Z)) (d : list (string * list Z)) id : Z :=
  if bool_decide (id ∈ D.*1) then 0 else in_flight L d id.

Record booking s1 (L D : list (string * Z)) (d : list (string * list Z)) s' : Prop := {
  bk_inv : inv (unbooked L D d) [] [] s';
  bk_cfg : cfg s' = cfg s1;
  bk_requests : requests s' = requests s1;
  bk_running : running s' = running s1;
  bk_waiting : waiting s' = waiting s1;
  bk_finished : finished_req_ids s' = finished_req_ids s1;
  bk_objs o r : objs s1 !! o = Some r →
    objs s' !! o = Some (if decide (o ∈ running s1)
                         then if bool_decide (request_id r ∈ D.*1) then booked (num_spec_tokens (cfg s1)) d r else r else r)
}.

Lemma booking_step b0 s v s1 D id n s' :
  async_scheduling (cfg s) = true → inv idle [] [] s → vinv b0 (running s) s v → (id, n) ∈ num_scheduled_tokens v → id ∉ D.*1 →
  advancing s (num_scheduled_tokens v) (scheduled_spec_decode_tokens v) s1 →
  booking s1 (num_scheduled_tokens v) D (scheduled_spec_decode_tokens v) s' →
  ∃ o r, od_get id (requests s') = Some o ∧ objs s' !! o = Some r ∧ request_id r = id ∧
    booking s1 (num_scheduled_tokens v) (D ++ [(id, n)]) (scheduled_spec_decode_tokens v)
      (put_obj o (booked (num_spec_tokens (cfg s1)) (scheduled_spec_decode_tokens v) r) s').
Proof.
  intros Hasync Hi Hv Hin Hid Had [Bi Bc Bq Br Bw Bf Bo]. destruct (entry_of _ _ _ _ _ Hi Hv Hin) as (o & r0 & Ho & Hos & Hr0 & Hn & Hget & Hok & Hro & Hfit).
  pose proof (ad_objs _ _ _ _ Had o r0 Hr0) as Hr1. rewrite decide_True, Hn in Hr1 by done.
  rewrite (od_elem_get _ _ _ (proj1 (v_wf _ _ _ _ Hv)) Hin) in Hr1.
  pose proof (Bo _ _ Hr1) as Hr. rewrite (ad_running _ _ _ _ Had), decide_True in Hr by done.
  cbn [advanced info set_prefill_chunk set_computed] in Hr. rewrite Hn, bool_decide_false in Hr by done.
  exists o, (advanced n r0). rewrite Bq, (ad_requests _ _ _ _ Had). split_and!; [done..|].
  set (r1 := advanced n r0) in *. set (d := scheduled_spec_decode_tokens v) in *. set (L := num_scheduled_tokens v) in *.
  assert (same_key r1 (booked (num_spec_tokens (cfg s1)) d r1)) as Hkey by (unfold booked; by destruct (is_prefill_chunk r1)).
  split; try done.
  - eapply (inv_advance F (unbooked L D d)); [exact Bi|by rewrite Br, (ad_running _ _ _ _ Had)|exact Hr|exact Hkey| | |].
    + intros []. unfold booked. destruct (is_prefill_chunk r1); split; try done; cbn in *.
      * unfold spec_len. lia.
      * rewrite Bc, (ad_cfg _ _ _ _ Had). congruence.
    + unfold unbooked. rewrite bool_decide_true by (rewrite fmap_app; cbn; set_solver).
      destruct Hfit as (H1 & H2 & H3 & H4 & H5). rewrite Bc, (ad_cfg _ _ _ _ Had).
      assert (request_id r1 = id) as Hid1 by done. unfold booked. destruct (is_prefill_chunk r1) eqn:Ep.
      * unfold r1, advanced in Ep. cbn in Ep. apply bool_decide_eq_true in Ep. split; cbn; try apply Hro; unfold num_tokens in *; cbn; lia.
      * rewrite Hid1. unfold spec_of, spec_len in *. fold d in H4. split; cbn; try apply Hro; unfold num_tokens in *; cbn; lia.
    + intros x Hx. change (request_id r1) with (request_id r0) in Hx. rewrite Hn in Hx. unfold unbooked. erewrite bool_decide_ext; [done|].
      rewrite fmap_app. csimpl. set_solver.
  - intros x rx Hx. destruct (decide (x = o)) as [->|Hne].
    + rewrite Hr1 in Hx. simplify_eq. rewrite lookup_put, decide_True by (by rewrite (ad_running _ _ _ _ Had)).
      rewrite bool_decide_true; [done|]. rewrite fmap_app. csimpl. change (request_id (advanced n r0)) with (request_id r0). set_solver.
    + rewrite lookup_put_ne, (Bo x rx Hx) by done. case_decide as Hxr; [|done]. rewrite (ad_running _ _ _ _ Had) in Hxr.
      erewrite bool_decide_ext; [done|]. rewrite fmap_app. csimpl. split; [set_solver|]. intros [?|Heq%list_elem_of_singleton]%elem_of_app; [done|].
      destruct Hne. destruct (inv_run_obj _ _ _ _ _ x Hi Hxr) as (rx0 & Hrx0 & Hnx & _). pose proof (ad_objs _ _ _ _ Had x rx0 Hrx0) as Hrx1.
      assert (request_id rx = request_id rx0) as Hrid by (rewrite Hx in Hrx1; simplify_eq; rewrite decide_True by done; by destruct (od_get _ L)).
      apply (inv_name_inj _ _ _ _ s _ _ Hi); [unfold parts; set_solver..|]. rewrite Hnx. unfold name. rewrite Hr0. congruence.
Qed.

Lemma async_update_after_run b0 s v out :
  async_scheduling (cfg s) = true → inv idle [] [] s → vinv b0 (running s) s v → output_of v s out →
  wpx F (async_update_after_schedule out) s (λ _ s', ∃ s1,
    advancing s (num_scheduled_tokens v) (scheduled_spec_decode_tokens v) s1 ∧
    booking s1 (num_scheduled_tokens v) (num_scheduled_tokens v) (scheduled_spec_decode_tokens v) s' ∧ finished_req_ids s' = ∅).
Proof.
  intros Hasync Hi Hv Hout. unfold async_update_after_schedule. wpx_step. eapply wpx_mono; [by eapply update_after_run|]. cbv beta.
  intros _ s1 [Had Hfin]. rewrite (oo_tokens _ _ _ Hout), (oo_spec _ _ _ Hout).
  apply (wpx_for_each _ _ _ _ (λ D s', booking s1 (num_scheduled_tokens v) D (scheduled_spec_decode_tokens v) s')).
  - destruct Had as [Ai _ _ _ _ _]. split; try done. intros o r Hr. rewrite Hr. by case_decide.
  - intros D [id n] todo s' Hsplit Hb. pose proof (v_wf _ _ _ _ Hv) as (Hwf & _). unfold od_wf in Hwf. rewrite Hsplit, fmap_app in Hwf. csimpl in Hwf.
    destruct (booking_step b0 s v s1 D id n s' Hasync Hi Hv) as (o & r & Hget & Hr & Hid & Hb'); [rewrite Hsplit; set_solver| |done|done|].
    { apply NoDup_app in Hwf as (_ & Hd & _). intros Hin. destruct (Hd _ Hin). by left. }
    wpx_steps. apply (wpx_of_option _ _ _ o); [done|]. wpx_step. apply (wpx_obj _ _ _ r); [done|]. unfold booked in Hb'.
    destruct (is_prefill_chunk r).
    + apply wpx_ret. replace (put_obj o r s') with s' in Hb'; [done|]. unfold put_obj. rewrite insert_id by done. by destruct s'.
    + wpx_step. apply (wpx_mutate _ _ _ _ r); [done|]. eapply wpx_mutate; [apply lookup_put|]. rewrite put_put.
      rewrite <- (bk_cfg _ _ _ _ _ Hb) in Hb'. unfold spec_len in Hb'. by rewrite Hid in Hb'.
  - intros s' Hb. exists s1. split_and!; try done. by rewrite (bk_finished _ _ _ _ _ Hb).
Qed.

(** ** The theorem *)

(** Tokens that the next [update_from_output] may take back *)
Definition pending (c : config) (out : SchedulerOutput) id : Z :=
  if async_scheduling c then 0 else in_flight (out_num_scheduled_tokens out) (out_spec_decode_tokens out) id.

(** The output describes the new state. *)
Record output_ok s (out : SchedulerOutput) s' : Prop := {
  ok_ids : NoDup (out_num_scheduled_tokens out).*1;
  ok_total : out_total_num_scheduled_tokens out = total (out_num_scheduled_tokens out).*2 ∧
             out_total_num_scheduled_tokens out ≤ max_num_scheduled_tokens (cfg s);
  ok_entry id n : (id, n) ∈ out_num_scheduled_tokens out →
    0 < n ∧ ∃ o, od_get id (requests s') = Some o ∧ o ∈ running s';
  ok_cached c : c ∈ out_cached_reqs out → ∃ o r n, od_get (cr_id c) (requests s') = Some o ∧ objs s' !! o = Some r ∧
    od_get (cr_id c) (out_num_scheduled_tokens out) = Some n ∧ num_computed_tokens r = cr_num_computed_tokens c + n;
  ok_new x : x ∈ out_new_reqs out → ∃ o r n, od_get (nr_id x) (requests s') = Some o ∧ objs s' !! o = Some r ∧
    od_get (nr_id x) (out_num_scheduled_tokens out) = Some n ∧ num_computed_tokens r = nr_num_computed_tokens x + n;
  ok_preempted id : id ∈ out_preempted_req_ids out → ∃ o, od_get id (requests s') = Some o ∧ o ∈ queue_oids (waiting s');
  ok_tokens : tokens_as s s';
  ok_paused : pause_state s ≠ UNPAUSED → out_new_reqs out = [];
  ok_paused_all : pause_state s = PAUSED_ALL → out_num_scheduled_tokens out = []
}.

Lemma total_positive (d : list (string * Z)) : (∀ x n, (x, n) ∈ d → 0 < n) → total d.*2 ≤ 0 → d = [].
Proof.
  destruct d as [|[x n] d]; [done|]. intros Hpos Ht. exfalso. change (total ((x, n) :: d).*2) with (n + total d.*2) in Ht.
  assert (0 ≤ total d.*2); [|specialize (Hpos x n ltac:(by left)); lia]. apply total_nonneg.
  intros y ([z m] & -> & Hm)%list_elem_of_fmap. specialize (Hpos z m ltac:(by right)). simpl. lia.
Qed.

Lemma output_describes b0 s0 s1 s2 s' v out (L := num_scheduled_tokens v) :
  step_done b0 s0 s1 v → inv idle [] [] s2 → vinv b0 (running s2) s2 v → unmoved s1 s2 → output_of v s1 out →
  b0 = (if bool_decide (pause_state s0 = PAUSED_ALL) then 0 else max_num_scheduled_tokens (cfg s0)) → cfg_ok (cfg s0) →
  requests s' = requests s2 → running s' = running s2 → waiting s' = waiting s2 →
  (∀ o r n, o ∈ sch v → objs s2 !! o = Some r → od_get (request_id r) L = Some n →
     ∃ r', objs s' !! o = Some r' ∧ num_computed_tokens r' = num_computed_tokens r + n) →
  tokens_as s2 s' → output_ok s0 out s'.
Proof.
  intros Hd Hi Hv Hum Hout Hb Hcfg Hq Hr Hw Hobj Htok. destruct (v_budget _ _ _ _ Hv) as [Hb1 Hb2]. pose proof (co_budget _ Hcfg) as Hmax.
  assert (∀ o r, o ∈ sch v → objs s1 !! o = Some r → ∃ o' r' n, od_get (request_id r) (requests s') = Some o' ∧ objs s' !! o' = Some r' ∧
    od_get (request_id r) L = Some n ∧ num_computed_tokens r' = num_computed_tokens r + n) as Htold.
  { intros o r Ho Hro. rewrite <- (um_objs _ _ Hum) in Hro. destruct (v_entry _ _ _ _ Hv o Ho) as (r' & n & Hr' & Hn & _). simplify_eq.
    destruct (Hobj o r n Ho Hro Hn) as (r' & Hr'' & Hc'). destruct (inv_run_obj _ _ _ _ _ o Hi) as (r2 & Hr2 & _ & _ & _ & Hget); [by apply (v_sub _ _ _ _ Hv)|].
    simplify_eq. exists o, r', n. rewrite Hq. by split_and!. }
  split; rewrite ?(oo_tokens _ _ _ Hout), ?(oo_total _ _ _ Hout).
  - apply Hv.
  - split; [done|]. subst b0. case_bool_decide; lia.
  - intros id n Hin. destruct (entry_of _ _ _ _ _ Hi Hv Hin) as (o & r & Ho & _ & _ & _ & Hget & _ & _ & Hfit & _).
    split; [done|]. exists o. by rewrite Hq, Hr.
  - intros c Hc. pose proof (oo_cached _ _ _ Hout) as Hall. rewrite Forall_forall in Hall.
    destruct (Hall c Hc) as (o & r & Ho & Hro & -> & ->). by eapply Htold.
  - intros x Hx. pose proof (oo_fresh _ _ _ Hout) as Hall. rewrite Forall_forall in Hall.
    destruct (Hall x Hx) as (o & r & Ho & Hro & -> & ->). by eapply Htold.
  - rewrite (oo_preempted _ _ _ Hout). intros id (o & -> & Ho)%list_elem_of_fmap. exists o.
    apply (sd_preempted _ _ _ _ Hd) in Ho. rewrite Hq, Hw, (um_waiting _ _ Hum), (um_requests _ _ Hum). split; [|done].
    destruct (inv_obj _ _ _ _ _ o (sd_inv _ _ _ _ Hd)) as (r & _ & -> & _ & Hin); [unfold parts; set_solver|].
    apply od_elem_get; [apply (sd_inv _ _ _ _ Hd)|done].
  - eapply tokens_as_trans; [apply kept_tokens, (sd_kept _ _ _ _ Hd)|]. eapply tokens_as_trans; [apply tokens_as_objs, (um_objs _ _ Hum)|done].
  - intros Hp. destruct (sd_paused _ _ _ _ Hd Hp). by apply (oo_new _ _ _ Hout).
  - intros Hp. apply total_positive; [|subst b0; rewrite bool_decide_true in Hb2 by done; lia].
    intros id n Hin. destruct (entry_of _ _ _ _ _ Hi Hv Hin) as (o & r & _ & _ & _ & _ & _ & _ & _ & Hfit & _). done.
Qed.

Lemma output_ok_ext s0 s out s' : cfg s0 = cfg s → pause_state s0 = pause_state s → objs s0 = objs s → output_ok s0 out s' → output_ok s out s'.
Proof. intros Hc Hp Ho []. unfold tokens_as in *. rewrite Hc, Hp, Ho in *. by split. Qed.

Lemma advancing_tokens s L d s' : advancing s L d s' → tokens_as s s'.
Proof. intros Ha o r Hr. eexists. split; [apply (ad_objs _ _ _ _ Ha _ _ Hr)|]. by repeat case_match. Qed.
Lemma booking_tokens s L D d s' : booking s L D d s' → tokens_as s s'.
Proof. intros Hb o r Hr. eexists. split; [apply (bk_objs _ _ _ _ _ Hb _ _ Hr)|]. unfold booked. by repeat case_match. Qed.

Lemma vinv_start b0 s eb : 0 ≤ b0 → vinv b0 (running s) s (mkStep [] [] [] [] [] [] b0 [] eb []).
Proof.
  intros Hb. split.
  - constructor.
  - by intros o ?%elem_of_nil.
  - by intros o ?%elem_of_nil.
  - done.
  - split_and!; constructor.
  - by intros id [?%elem_of_nil|?%elem_of_nil].
  - cbn. lia.
Qed.

Lemma schedule_run s :
  inv idle [] [] s →
  wpx F (schedule ec no_connector) s (λ out s',
    inv (pending (cfg s) out) [] [] s' ∧ cfg s' = cfg s ∧ requests s' = requests s ∧ finished_req_ids s' = ∅ ∧ output_ok s out s').
Proof.
  intros Hi. unfold schedule. wpx_steps. eapply wpx_on_kv; [apply kvl_step, Hi|]. intros u x Hx.
  set (b0 := if bool_decide (pause_state s = PAUSED_ALL) then 0 else max_num_scheduled_tokens (cfg s)).
  pose proof (inv_cfg _ _ _ _ _ Hi) as Hcfg. pose proof (co_budget _ Hcfg) as Hmax.
  assert (0 ≤ b0 ≤ max_num_scheduled_tokens (cfg s)) as Hb by (unfold b0; case_bool_decide; lia).
  set (s0 := with_kv x s). assert (inv idle [] [] s0) as Hi0 by by apply inv_with_kv.
  assert (linv F b0 0 s0 (mkStep [] [] [] [] [] [] b0 [] (max_num_encoder_input_tokens (cfg s)) [])) as Hl0.
  { split; [done|apply vinv_start, Hb|done|by intros o ?%elem_of_nil|by intros o ?%elem_of_nil|done]. }
  wpx_step. apply wpx_with_locals. wpx_step. eapply wpx_mono; [by eapply schedule_step_run|]. cbv beta.
  intros _ [s1 v] Hd. cbn [fst snd] in Hd. apply (check_limits_run b0); [apply Hd|apply Hd| |].
  { rewrite (kept_cfg _ _ (sd_kept _ _ _ _ Hd)). apply Hb. }
  cbn [fst snd]. wpx_step. eapply wpx_mono; [by eapply make_output_run|]. cbv beta.
  intros out s2 (Hi2 & Hv2 & Hum & Hout). wpx_steps.
  assert (cfg s2 = cfg s ∧ requests s2 = requests s) as [Hc2 Hq2].
  { rewrite (um_cfg _ _ Hum), (um_requests _ _ Hum), (kept_cfg _ _ (sd_kept _ _ _ _ Hd)), (kept_requests _ _ (sd_kept _ _ _ _ Hd)). done. }
  assert (output_of v s2 out) as Hout2.
  { destruct Hout as [H1 H2 H3 H4 H4' H5 H6]. split; try done.
    - unfold cached_ok. by rewrite (um_objs _ _ Hum).
    - unfold new_ok. by rewrite (um_objs _ _ Hum).
    - rewrite H5. apply list_fmap_ext. intros i o _. unfold name. by rewrite (um_objs _ _ Hum). }
  pose proof (output_describes b0 s0 s1 s2) as Hok. unfold pending.
  assert (∀ s', output_ok s0 out s' → output_ok s out s') as Hext by (intros s'; by apply output_ok_ext).
  destruct (async_scheduling (cfg s)) eqn:Ea.
  - eapply wpx_mono; [eapply async_update_after_run; [by rewrite Hc2|done..]|]. cbv beta. intros _ s' (s3 & Had & Hbk & Hf). apply wpx_ret.
    pose proof (tokens_as_trans _ _ _ (advancing_tokens _ _ _ _ Had) (booking_tokens _ _ _ _ _ Hbk)) as Htok.
    destruct Had as [Ai Ac Aq Ar Aw Ao], Hbk as [Bi Bc Bq Br Bw Bf Bo]. split_and!; [|congruence|congruence|done|].
    + destruct Bi as [H1 H2 H3 H4 H5 H6 H7 H8 H9 H10 H11 H12 H13]. split; try done. eapply Forall_impl; [exact H5|]. intros o (r & Hr & Hrun).
      exists r. split; [done|]. unfold unbooked, in_flight in Hrun. by destruct (bool_decide (name s' o ∈ _)).
    + apply Hext, (Hok s' v out); try done; [congruence..|]. intros o r n Ho Hr Hn. pose proof (Ao o r Hr) as Hr3.
      rewrite decide_True, Hn in Hr3 by by apply (v_sub _ _ _ _ Hv2). pose proof (Bo _ _ Hr3) as Hr4. eexists. split; [exact Hr4|].
      unfold booked. by repeat case_match.
  - eapply wpx_mono; [by eapply update_after_run|]. cbv beta. intros _ s' [Had Hf]. apply wpx_ret.
    pose proof (advancing_tokens _ _ _ _ Had) as Htok. destruct Had as [Ai Ac Aq Ar Aw Ao].
    rewrite (oo_tokens _ _ _ Hout), (oo_spec _ _ _ Hout). split_and!; [done|congruence|congruence|done|].
    apply Hext, (Hok s' v out); try done; [congruence..|]. intros o r n Ho Hr Hn. pose proof (Ao o r Hr) as Hr3.
    rewrite decide_True, Hn in Hr3 by by apply (v_sub _ _ _ _ Hv2). by eexists.
Qed.

(** C10: [schedule], sync or async, without a KV connector, without a LoRA limit and for
    requests that are no streaming sessions and whose minimum of output tokens fits the
    context, under both policies, with preemption, encoder inputs, speculative tokens and
    structured output, whatever the KV-cache manager and the encoder cache answer within the
    laws of [SchedulerInv]: it
    terminates and raises nothing but what the managers raise (no assertion of the scheduler
    fails, no running request is lost in the middle of the loops); every request of the
    dictionary is still in exactly one of the three queues, with the status that goes with
    it; the scheduled ids are distinct, belong to running requests and get a positive number
    of tokens, at most [max_num_scheduled_tokens] altogether, and none when everything is
    paused; no new request is reported when new requests are paused; at most
    [max_num_running_reqs] requests run; what the workers are told of the computed tokens
    of a new or a known request, plus the tokens scheduled, is what the scheduler records;
    preempted requests are back in the waiting queue. *)
Theorem schedule_correct s :
  inv idle [] [] s →
  wpx F (schedule ec no_connector) s (λ out s',
    inv (pending (cfg s) out) [] [] s' ∧ cfg s' = cfg s ∧ requests s' = requests s ∧ finished_req_ids s' = ∅ ∧ output_ok s out s').
Proof. apply schedule_run. Qed.
End schedule.
