(* ===== verification/SchedulerLife.v ===== *)
(** * The scheduler: requests come and go

    [add_request], [finish_requests] and [reset_prefix_cache] keep the invariant. *)

From S2P Require Import Prelude OrderedDict FreeQueue BlockHash RequestQueue SchedQueue SchedRequest Raises Scheduler.
From S2P Require Import SchedulerInv SchedulerPreempt SchedulerRun SchedulerSchedule.
From S2P Require EncoderCache KVCacheManager.

Open Scope Z_scope.

Section life.
Context {K E C : Type} (F : exn → Prop) `{!KVManager K} `{!EncoderManager E}.
Context `{!KVLaws F K} `{!EncoderLaws F E}.
Notation S := (t K E C).
Notation inv := (inv F).
Notation no_connector := (@None (Connector C)).
Implicit Types (s : S) (o : Z) (r : SRequest) (Y : list Z) (id : string) (k : string → Z).

(** ** Requests leave *)
Lemma filter_fmap_oid Y (l : list Request) : filter (.∉ Y) (oid <$> l) = oid <$> filter (λ x, oid x ∉ Y) l.
Proof. induction l as [|x l IH]; [done|]. csimpl. rewrite !filter_cons. repeat case_decide; csimpl; congruence. Qed.

(** Fewer requests, each where it was *)
Lemma inv_restrict k s s' Y :
  inv k [] [] s → cfg s' = cfg s → prev_step_scheduled_req_ids s' = prev_step_scheduled_req_ids s →
  requests s' `sublist_of` requests s → (∀ p, p ∈ requests s → p ∈ requests s' ↔ p.2 ∉ Y) →
  running s' = filter (.∉ Y) (running s) →
  q_items (waiting s') ≡ₚ filter (λ x, oid x ∉ Y) (q_items (waiting s)) →
  q_items (skipped_waiting s') ≡ₚ filter (λ x, oid x ∉ Y) (q_items (skipped_waiting s)) →
  (∀ o, o ∉ Y → objs s' !! o = objs s !! o) →
  q_wf (policy (cfg s)) (waiting s') ∧ q_wf (policy (cfg s)) (skipped_waiting s') →
  kv_inv (F := F) (live_ids s') (kv s') → enc_inv (F := F) (encoder s') → inv k [] [] s'.
Proof.
  intros Hi Hc Hp Hsub Hmem Hrun Hw Hs Hobj Hwf Hkv Henc. pose proof (inv_nodup _ _ _ _ _ Hi) as Hnd.
  assert (∀ Φ o, o ∉ Y → holds s Φ o → holds s' Φ o) as Hh by (intros Φ o Ho (r & Hr & HΦ); exists r; by rewrite Hobj).
  assert (∀ o, o ∉ Y → name s' o = name s o) as Hname by (intros o Ho; unfold name; by rewrite Hobj).
  assert (∀ q q', q_items q' ≡ₚ filter (λ x, oid x ∉ Y) (q_items q) → queue_oids q' ≡ₚ filter (.∉ Y) (queue_oids q)) as Hoids.
  { intros q q' ->. by rewrite filter_fmap_oid. }
  destruct Hi as [Hcfg Hids Hobjs Hparts Hrunning Hwait Hskip Hex Hqwf Hprev Hcap Hkv0 Henc0].
  split; rewrite ?Hc, ?Hp; try done.
  - eapply sublist_NoDup; [exact Hids|]. by apply fmap_sublist.
  - apply Forall_forall. intros p Hin. assert (p ∈ requests s) as Hin0 by by eapply elem_of_sublist.
    apply Hh; [by apply Hmem|]. rewrite Forall_forall in Hobjs. by apply Hobjs.
  - unfold parts in *. rewrite Hrun, (Hoids _ _ Hw), (Hoids _ _ Hs), app_nil_r. rewrite app_nil_r in Hparts, Hnd.
    rewrite <- !filter_app, <- Hparts. apply NoDup_Permutation.
    + eapply sublist_NoDup; [|by apply fmap_sublist]. by rewrite Hparts.
    + apply NoDup_filter. by rewrite Hparts.
    + intros o. rewrite list_elem_of_filter, !list_elem_of_fmap. split.
      * intros (p & -> & Hin). assert (p ∈ requests s) as Hin0 by by eapply elem_of_sublist. split; [by apply Hmem|by exists p].
      * intros [Ho (p & -> & Hin)]. exists p. split; [done|]. by apply Hmem.
  - rewrite Hrun. apply Forall_forall. intros o [Ho Hin]%list_elem_of_filter. rewrite ?Hc, Hname by done. apply Hh; [done|].
    rewrite Forall_forall in Hrunning. by apply Hrunning.
  - rewrite Hw. apply Forall_forall. intros x [Hx Hin]%list_elem_of_filter. rewrite Forall_forall in Hwait. destruct (Hwait x Hin). by split; apply Hh.
  - rewrite Hs. apply Forall_forall. intros x [Hx Hin]%list_elem_of_filter. rewrite Forall_forall in Hskip. destruct (Hskip x Hin). by split; apply Hh.
  - rewrite (Hoids _ _ Hw). apply Forall_forall. intros o [Ho Hin]%list_elem_of_filter (r & Hr & Hst). rewrite Hname by done.
    rewrite Forall_forall in Hprev. apply Hprev; [done|]. exists r. by rewrite <- Hobj.
  - rewrite Hrun. pose proof (length_filter (.∉ Y) (running s)). lia.
Qed.

Lemma wpx_eqn {T A} (m : M T A) (x : T) (Q : A → T → Prop) : wpx F m x Q → wpx F m x (λ a x', m x = (Ret a, x') ∧ Q a x').
Proof. unfold wpx. by destruct (m x) as [[a|e] x']. Qed.

Lemma free_request_run s o r live :
  objs s !! o = Some r → is_finished (status r) = true → od_get (request_id r) (requests s) = Some o →
  kv_inv (F := F) live (kv s) → enc_inv (F := F) (encoder s) → enc_ok (F := F) (mm_features r) →
  wpx F (_free_request no_connector o false) s (λ _ s', ∃ x e d,
    s' = with_requests (od_del (request_id r) (requests s)) (with_kv x (with_finished_dict d
           (with_finished ({[ request_id r ]} ∪ finished_req_ids s) (with_encoder e s)))) ∧
    kv_inv (F := F) (live ∖ {[ request_id r ]}) x ∧ enc_inv (F := F) e ∧
    enc_free (encoder_request r) (encoder s) = (Ret tt, e) ∧ kv_free (kv_request r) (kv s) = (Ret tt, x)).
Proof.
  intros Hr Hfin Hget Hkv Henc Hok. unfold _free_request. wpx_step. apply (wpx_obj _ _ _ r); [done|].
  wpx_step. apply wpx_assert; [done|]. unfold _connector_finished. wpx_steps.
  eapply wpx_on_encoder; [apply wpx_eqn; by apply encl_free|]. intros [] e [Hee He].
  wpx_steps. cbn [orb]. unfold _free_blocks. wpx_step. apply (wpx_obj _ _ _ r); [done|]. wpx_step. apply wpx_assert; [done|].
  wpx_step. eapply wpx_on_kv; [apply wpx_eqn; by apply kvl_free|]. intros [] x [Hxe Hx]. wpx_steps. eapply wpx_of_option; [exact Hget|].
  wpx_steps. by eexists x, e, _.
Qed.

(** ** [finish_requests] *)
Definition found s id : option (Z * SRequest) := o ← od_get id (requests s); r ← objs s !! o; Some (o, r).

Lemma status_place k s o r : inv k [] [] s → objs s !! o = Some r → o ∈ (requests s).*2 →
  (status r = RUNNING ↔ o ∈ running s) ∧ status r ≠ WAITING_FOR_REMOTE_KVS ∧ status r ≠ WAITING_FOR_STREAMING_REQ.
Proof.
  intros Hi Hr Ho. rewrite (inv_parts _ _ _ _ _ Hi) in Ho. unfold parts in Ho. rewrite app_nil_r in Ho.
  destruct (decide (o ∈ running s)) as [Hrun|Hrun].
  - destruct (inv_run_obj _ _ _ _ _ _ Hi Hrun) as (r' & Hr' & _ & _ & [Hst _ _ _] & _). simplify_eq. by rewrite Hst.
  - assert (status r = WAITING ∨ status r = PREEMPTED ∨ status r = WAITING_FOR_STRUCTURED_OUTPUT_GRAMMAR) as Hst.
    { apply elem_of_app in Ho as [?|[(x & -> & Hx)%list_elem_of_fmap|(x & -> & Hx)%list_elem_of_fmap]%elem_of_app]; [done|..].
      - pose proof (inv_waiting _ _ _ _ _ Hi) as Hw. rewrite Forall_forall in Hw. destruct (Hw x Hx) as (_ & r' & Hr' & [Hst _]). simplify_eq. naive_solver.
      - pose proof (inv_skipped _ _ _ _ _ Hi) as Hw. rewrite Forall_forall in Hw. destruct (Hw x Hx) as (_ & r' & Hr' & [Hst _]). simplify_eq. naive_solver. }
    destruct Hst as [-> | [-> | ->]]; done.
Qed.

Lemma found_spec k s id o r : inv k [] [] s → found s id = Some (o, r) →
  objs s !! o = Some r ∧ od_get id (requests s) = Some o ∧ request_id r = id ∧ req_ok (enc_ok (F := F)) (cfg s) r ∧ o ∈ (requests s).*2.
Proof.
  intros Hi Hf. unfold found in Hf. destruct (od_get id (requests s)) as [o'|] eqn:Hget; [|done]. simpl in Hf.
  destruct (objs s !! o') as [r'|] eqn:Hr; simplify_eq/=. pose proof (od_get_elem _ _ _ Hget) as Hin.
  pose proof (inv_objs _ _ _ _ _ Hi) as Hall. rewrite Forall_forall in Hall. destruct (Hall _ Hin) as (r' & Hr' & Hid & Hok). simplify_eq/=.
  split_and!; try done. by apply (list_elem_of_fmap_2 snd) in Hin.
Qed.

(** The requests that are looked up, in order *)
Lemma lookup_all_run k s ids (Q : list (option (Z * SRequest)) → S → Prop) :
  inv k [] [] s → Q (found s <$> ids) s →
  wpx F (for_collect ids (λ id, match lookup_request id s with
    | None => ret None
    | Some o => r <- obj o ;; ret (if is_finished (status r) then None else Some (o, r)) end)) s Q.
Proof.
  intros Hi HQ. apply (wpx_for_collect _ _ _ _ (λ s', s' = s) (λ id x, x = found s id)); [done|..].
  - intros id s' _ ->. unfold lookup_request, found. destruct (od_get id (requests s)) as [o|] eqn:Hget; [|done]. simpl.
    pose proof (inv_objs _ _ _ _ _ Hi) as Hall. rewrite Forall_forall in Hall.
    destruct (Hall _ (od_get_elem _ _ _ Hget)) as (r & Hr & _ & Hok). simpl in *. rewrite Hr. simpl.
    wpx_step. apply (wpx_obj _ _ _ r); [done|]. apply wpx_ret. by rewrite (rq_live _ _ _ Hok).
  - intros l s' -> Hall. replace l with (found s <$> ids); [done|]. clear -Hall. induction Hall as [|id x ids l -> _ IH]; csimpl; [done|by rewrite IH].
Qed.

Lemma remove_all_filter (l items : list Z) : NoDup l → remove_all l items = filter (.∉ items) l.
Proof.
  intros Hnd. unfold remove_all. destruct items as [|x [|y items]]; [|..|done].
  - symmetry. apply filter_all. intros y _. apply not_elem_of_nil.
  - destruct (decide (x ∈ l)) as [Hx|Hx].
    + destruct (remove_oid_split _ _ Hx) as (l1 & l2 & -> & ->). simpl.
      apply NoDup_app in Hnd as (_ & Hd & [Hx2 _]%NoDup_cons). rewrite filter_app, filter_cons_False by set_solver.
      rewrite !filter_all; [done|..]; intros y Hy ->%list_elem_of_singleton; [done|]. apply (Hd x Hy). by left.
    + assert (remove_oid x l = None) as ->.
      { clear -Hx. induction l as [|y l IH]; [done|]. apply not_elem_of_cons in Hx as [Hy Hl]. simpl. rewrite bool_decide_false by congruence. by rewrite IH. }
      symmetry. apply filter_all. intros y Hy ->%list_elem_of_singleton. done.
Qed.

(** The requests named, each once *)
Definition targets s (ids : option (list string)) : list string :=
  match ids with Some l => remove_dups l | None => (requests s).*1 end.
Definition doomed s ids : list (Z * SRequest) := omap (found s) (targets s ids).

Lemma doomed_elem k s ids o r : inv k [] [] s → (o, r) ∈ doomed s ids →
  objs s !! o = Some r ∧ od_get (request_id r) (requests s) = Some o ∧ req_ok (enc_ok (F := F)) (cfg s) r ∧
  request_id r ∈ targets s ids ∧ o ∈ (requests s).*2.
Proof.
  intros Hi (id & Hid & Hf)%list_elem_of_omap. destruct (found_spec _ _ _ _ _ Hi Hf) as (Hr & Hget & <- & Hok & Ho). by split_and!.
Qed.
Lemma doomed_nodup k s ids : inv k [] [] s → NoDup (doomed s ids).*1.
Proof.
  intros Hi. assert (NoDup (targets s ids)) as Hnd by (destruct ids; [apply NoDup_remove_dups|apply Hi]).
  unfold doomed. induction (targets s ids) as [|id l IH]; [constructor|]. apply NoDup_cons in Hnd as [Hid Hnd]. csimpl.
  destruct (found s id) as [[o r]|] eqn:Hf; [|auto]. csimpl. constructor; [|auto].
  intros ([o' r'] & -> & (id' & Hin & Hf')%list_elem_of_omap)%list_elem_of_fmap. simpl in *.
  destruct (found_spec _ _ _ _ _ Hi Hf) as (Hr & _ & <- & _), (found_spec _ _ _ _ _ Hi Hf') as (Hr' & _ & <- & _). simplify_eq. done.
Qed.
Lemma doomed_iff k s ids p : inv k [] [] s → p ∈ requests s → p.2 ∈ (doomed s ids).*1 ↔ p.1 ∈ targets s ids.
Proof.
  intros Hi Hp. destruct p as [id o]. simpl. assert (od_get id (requests s) = Some o) as Hget by (apply od_elem_get; [apply Hi|done]). split.
  - intros ([o' r] & -> & Hin)%list_elem_of_fmap. destruct (doomed_elem _ _ _ _ _ Hi Hin) as (Hr & _ & _ & Hid & _).
    pose proof (inv_objs _ _ _ _ _ Hi) as Hall. rewrite Forall_forall in Hall. destruct (Hall _ Hp) as (r' & Hr' & Hn & _). simpl in *. by simplify_eq.
  - intros Hid. pose proof (inv_objs _ _ _ _ _ Hi) as Hall. rewrite Forall_forall in Hall. destruct (Hall _ Hp) as (r & Hr & _ & _). simpl in *.
    apply list_elem_of_fmap. exists (o, r). split; [done|]. apply list_elem_of_omap. exists id. unfold found. rewrite Hget. simpl. by rewrite Hr.
Qed.

(** They leave the queues... *)
Lemma doomed_running k s ids : inv k [] [] s →
  remove_all (running s) (filter (λ x, status x.2 = RUNNING) (doomed s ids)).*1 = filter (.∉ (doomed s ids).*1) (running s).
Proof.
  intros Hi. pose proof (inv_nodup _ _ _ _ _ Hi) as (Hnd & _)%NoDup_app. rewrite remove_all_filter by done.
  apply filter_ext_in. intros o Ho. apply not_iff_compat. rewrite !list_elem_of_fmap. split.
  - intros (x & -> & [_ Hx]%list_elem_of_filter). by exists x.
  - intros ([o' r] & -> & Hx). exists (o', r). split; [done|]. apply list_elem_of_filter. split; [|done]. simpl in *.
    destruct (inv_run_obj _ _ _ _ _ _ Hi Ho) as (r' & Hr' & _ & _ & [Hst _ _ _] & _).
    destruct (doomed_elem _ _ _ _ _ Hi Hx) as (Hr & _). by simplify_eq.
Qed.

Lemma doomed_waiting k s ids q l : inv k [] [] s → q = waiting s ∨ q = skipped_waiting s → l ≡ₚ q_items q →
  filter (λ x, ¬ among ((λ x, queue_key x.1 x.2) <$> filter (λ x, status x.2 ≠ RUNNING) (doomed s ids)) x) l
  = filter (λ x, oid x ∉ (doomed s ids).*1) l.
Proof.
  intros Hi Hq Hl. apply filter_ext_in. intros x Hx. rewrite Hl in Hx. apply not_iff_compat. unfold among. rewrite <- list_fmap_compose, !list_elem_of_fmap. split.
  - intros (y & Hy & [_ Hin]%list_elem_of_filter). by exists y.
  - intros (y & Hy & Hin). exists y. split; [done|]. apply list_elem_of_filter. split; [|done]. destruct y as [o r]. simpl in *.
    destruct (doomed_elem _ _ _ _ _ Hi Hin) as (Hr & _ & _ & _ & Ho). intros Hst.
    destruct (status_place _ _ _ _ Hi Hr Ho) as [[Hrun _] _]. destruct (inv_running_only _ _ _ _ _ _ Hi (Hrun Hst)) as [Hnw Hns].
    apply (list_elem_of_fmap_2 oid) in Hx. rewrite app_nil_r in Hns. rewrite Hy in Hx. by destruct Hq; subst q.
Qed.
(** ... and are freed one after the other. *)
Notation names l := ((λ x : Z * SRequest, request_id x.2) <$> l).
Record freeing (live : gset string) s0 (l : list (Z * SRequest)) s : Prop := {
  fr_cfg : cfg s = cfg s0;
  fr_prev : prev_step_scheduled_req_ids s = prev_step_scheduled_req_ids s0;
  fr_queues : running s = running s0 ∧ waiting s = waiting s0 ∧ skipped_waiting s = skipped_waiting s0;
  fr_requests : requests s = filter (λ p, p.1 ∉ names l) (requests s0);
  fr_objs o : o ∉ l.*1 → objs s !! o = objs s0 !! o;
  fr_tokens : tokens_as s0 s;
  fr_kv : kv_inv (F := F) (live ∖ list_to_set (names l)) (kv s);
  fr_enc : enc_inv (F := F) (encoder s);
  fr_finished : finished_req_ids s = list_to_set (names l) ∪ finished_req_ids s0;
  fr_released : for_each l.*2 (λ r, enc_free (encoder_request r)) (encoder s0) = (Ret tt, encoder s) ∧
    for_each l.*2 (λ r, kv_free (kv_request r)) (kv s0) = (Ret tt, kv s)
}.

Lemma for_each_snoc {T A} (l : list A) y (f : A → M T unit) x x' x'' :
  for_each l f x = (Ret tt, x') → f y x' = (Ret tt, x'') → for_each (l ++ [y]) f x = (Ret tt, x'').
Proof.
  revert x. induction l as [|z l IH]; intros x; simpl; [intros [= ->]; unfold bind; by intros ->|].
  unfold bind at 1. destruct (f z x) as [[[]|e] x1] eqn:Hz; [|done]. intros H1 H2. unfold bind at 1. rewrite Hz. by apply IH.
Qed.

Lemma od_del_filter {V} id (d : list (string * V)) : NoDup d.*1 → od_del id d = filter (λ p, p.1 ≠ id) d.
Proof.
  induction d as [|[id' v] d IH]; [done|]. csimpl. intros [Hid Hnd]%NoDup_cons. rewrite filter_cons. simpl. case_decide as He.
  - subst. rewrite decide_False by (intros Hne; by apply Hne). symmetry. apply filter_all. intros p Hp Heq. apply Hid. rewrite <- Heq. by apply list_elem_of_fmap_2.
  - rewrite decide_True by congruence. by rewrite IH.
Qed.

Lemma freeing_step live s0 l s o r st :
  freeing live s0 l s → is_finished st = true → objs s0 !! o = Some r → o ∉ l.*1 → od_get (request_id r) (requests s0) = Some o →
  request_id r ∉ names l → NoDup (requests s0).*1 → req_ok (enc_ok (F := F)) (cfg s0) r → status r ≠ WAITING_FOR_REMOTE_KVS →
  wpx F (r <- obj o ;; s <- get ;;
    delay <- (if bool_decide (status r = WAITING_FOR_REMOTE_KVS) then
                let id := request_id r in
                modify (λ s, with_recved (finished_recving_kv_req_ids s ∖ {[ id ]}) s) ;;
                modify (λ s, with_failed (failed_recving_kv_req_ids s ∖ {[ id ]}) s) ;;
                ret (bool_decide (id ∉ finished_recving_kv_req_ids s))
              else ret false) ;;
    mutate o (set_status st) ;; _free_request no_connector o delay) s
    (λ _ s', freeing live s0 (l ++ [(o, r)]) s').
Proof.
  intros [Hc Hp Hq Hreq Hobj Htok Hkv Henc Hfin [Hef Hkf]] Hst Hr Ho Hget Hid Hnd Hok Hne.
  assert (objs s !! o = Some r) as Hr' by by rewrite Hobj.
  wpx_step. apply (wpx_obj _ _ _ r); [done|]. wpx_steps. rewrite bool_decide_false by done. wpx_steps. eapply wpx_mutate; [exact Hr'|].
  assert (NoDup (requests s).*1) as Hnd'.
  { rewrite Hreq. eapply sublist_NoDup; [exact Hnd|]. apply fmap_sublist, sublist_filter. }
  eapply wpx_mono; [eapply (free_request_run _ o (set_status st r)); [apply lookup_insert_eq|done| |exact Hkv|done|apply Hok]|].
  { cbn. rewrite Hreq. apply od_elem_get; [by rewrite <- Hreq|]. apply list_elem_of_filter. split; [done|]. by apply od_get_elem. }
  cbv beta. intros _ s' (x & e & d & -> & Hx & He & Hee & Hxe). split; try done; cbn.
  - rewrite od_del_filter, Hreq, list_filter_filter by done. apply list_filter_iff. intros p.
    rewrite fmap_app, not_elem_of_app. csimpl. rewrite list_elem_of_singleton. tauto.
  - intros y. rewrite fmap_app, not_elem_of_app. csimpl. rewrite list_elem_of_singleton. intros [Hy Hyo].
    rewrite lookup_insert_ne by done. auto.
  - eapply tokens_as_trans; [exact Htok|]. by apply (tokens_as_put _ _ r).
  - cbn in Hx. eapply kv_inv_mono; [|exact Hx]. rewrite fmap_app, list_to_set_app_L. csimpl. set_solver.
  - rewrite Hfin, fmap_app, list_to_set_app_L. csimpl. set_solver.
  - rewrite fmap_app. split; by eapply for_each_snoc.
Qed.

Lemma doomed_names k s ids p : inv k [] [] s → p ∈ requests s → p.1 ∈ names (doomed s ids) ↔ p.1 ∈ targets s ids.
Proof.
  intros Hi Hp. split.
  - intros ([o r] & -> & Hin)%list_elem_of_fmap. by destruct (doomed_elem _ _ _ _ _ Hi Hin) as (_ & _ & _ & ? & _).
  - rewrite <- (doomed_iff k) by done. intros ([o r] & Ho & Hin)%list_elem_of_fmap. destruct (doomed_elem _ _ _ _ _ Hi Hin) as (Hr & _).
    pose proof (inv_objs _ _ _ _ _ Hi) as Hall. rewrite Forall_forall in Hall. destruct (Hall _ Hp) as (r' & Hr' & Hn & _).
    apply list_elem_of_fmap. exists (o, r). simpl in *. rewrite Ho in Hr'. by simplify_eq.
Qed.

(** The queues once the requests are out of them *)
Lemma clear_queues_run k s s1 ids (Q : unit → S → Prop) :
  inv k [] [] s → waiting s1 = waiting s → skipped_waiting s1 = skipped_waiting s →
  (∀ w sk, q_wf (policy (cfg s)) w → q_wf (policy (cfg s)) sk →
     q_items w ≡ₚ filter (λ x, oid x ∉ (doomed s ids).*1) (q_items (waiting s)) →
     q_items sk ≡ₚ filter (λ x, oid x ∉ (doomed s ids).*1) (q_items (skipped_waiting s)) →
     q_iter w = filter (λ x, oid x ∉ (doomed s ids).*1) (q_iter (waiting s)) →
     q_iter sk = filter (λ x, oid x ∉ (doomed s ids).*1) (q_iter (skipped_waiting s)) →
     Q tt (with_skipped sk (with_waiting w s1))) →
  wpx F (if bool_decide (filter (λ x, status x.2 ≠ RUNNING) (doomed s ids) ≠ []) then
     let keys := (λ x, queue_key x.1 x.2) <$> filter (λ x, status x.2 ≠ RUNNING) (doomed s ids) in
     on_which Waiting (q_remove_requests keys) ;; on_which SkippedWaiting (q_remove_requests keys)
   else ret tt) s1 Q.
Proof.
  intros Hi Hw1 Hs1 HQ. destruct (inv_wf _ _ _ _ _ Hi) as [Hw Hsk].
  pose proof (λ l, doomed_waiting _ _ ids (waiting s) l Hi ltac:(by left)) as Hfw.
  pose proof (λ l, doomed_waiting _ _ ids (skipped_waiting s) l Hi ltac:(by right)) as Hfs.
  pose proof (q_iter_perm _ _ Hw) as Hiw. pose proof (q_iter_perm _ _ Hsk) as His.
  set (keys := (λ x, queue_key x.1 x.2) <$> filter (λ x, status x.2 ≠ RUNNING) (doomed s ids)) in *. cbv zeta. case_bool_decide as Hne.
  - destruct (q_remove_requests_run _ keys _ Hw) as (w & Hrw & Hww & Hpw & How), (q_remove_requests_run _ keys _ Hsk) as (sk & Hrs & Hws & Hps & Hos).
    rewrite <- Hw1 in Hrw. rewrite <- Hs1 in Hrs. wpx_step. apply wpx_zoom. eapply wpx_run; [exact Hrw|]. apply wpx_zoom. eapply wpx_run; [exact Hrs|].
    rewrite Hfw in Hpw, How by done. rewrite Hfs in Hps, Hos by done. by apply HQ.
  - apply wpx_ret. assert (keys = []) as Hk by (unfold keys; by rewrite Hne).
    assert (∀ l, filter (λ x, ¬ among keys x) l = l) as Hnone by (intros l; apply filter_all; intros x _; rewrite Hk; by intros ?%elem_of_nil).
    specialize (HQ _ _ Hw Hsk). assert (∀ l, l ≡ₚ q_items (waiting s) → filter (λ x, oid x ∉ (doomed s ids).*1) l = l) as Hw2 by (intros l Hl; by rewrite <- Hfw).
    assert (∀ l, l ≡ₚ q_items (skipped_waiting s) → filter (λ x, oid x ∉ (doomed s ids).*1) l = l) as Hs2 by (intros l Hl; by rewrite <- Hfs).
    rewrite !(Hw2 _ (reflexivity _)), !(Hs2 _ (reflexivity _)), (Hw2 _ Hiw), (Hs2 _ His) in HQ. rewrite <- Hw1, <- Hs1 in HQ. 
    destruct s1. by apply HQ.
Qed.

Lemma no_streaming k s ids : inv k [] [] s → filter (λ x, status x.2 = WAITING_FOR_STREAMING_REQ) (doomed s ids) = [].
Proof.
  intros Hi. apply filter_none. intros [o r] Hin. destruct (doomed_elem _ _ _ _ _ Hi Hin) as (Hr & _ & _ & _ & Ho).
  by destruct (status_place _ _ _ _ Hi Hr Ho) as (_ & _ & ?).
Qed.

Lemma finish_requests_run k s ids st :
  inv k [] [] s → is_finished st = true →
  wpx F (finish_requests no_connector ids st) s (λ out s',
    inv k [] [] s' ∧ cfg s' = cfg s ∧ requests s' = filter (λ p, p.1 ∉ targets s ids) (requests s) ∧
    running s' = filter (.∉ (doomed s ids).*1) (running s) ∧
    tokens_as s s' ∧ finished_req_ids s' = list_to_set (names (doomed s ids)) ∪ finished_req_ids s ∧
    out = ((λ x, (request_id x.2, client_index (info x.2))) <$> doomed s ids) ∧
    q_iter (waiting s') = filter (λ x, oid x ∉ (doomed s ids).*1) (q_iter (waiting s)) ∧
    q_iter (skipped_waiting s') = filter (λ x, oid x ∉ (doomed s ids).*1) (q_iter (skipped_waiting s)) ∧
    for_each (doomed s ids).*2 (λ r, kv_free (kv_request r)) (kv s) = (Ret tt, kv s') ∧
    for_each (doomed s ids).*2 (λ r, enc_free (encoder_request r)) (encoder s) = (Ret tt, encoder s')).
Proof.
  intros Hi Hst. unfold finish_requests. wpx_step. apply wpx_assert; [done|]. wpx_steps. eapply lookup_all_run; [done|].
  change (match ids with Some l => remove_dups l | None => (requests s).*1 end) with (targets s ids).
  assert (omap id (found s <$> targets s ids) = doomed s ids) as ->.
  { unfold doomed. induction (targets s ids) as [|y l IH]; [done|]. csimpl. by rewrite IH. }
  rewrite (no_streaming k) by done. wpx_steps.
  pose proof (doomed_running _ _ ids Hi) as Hrun. eapply (clear_queues_run k s); [done..|]. intros w sk Hww Hws Hpw Hps How Hos. cbn. rewrite Hrun. wpx_step.
  set (s1 := with_skipped _ _).
  eapply (wpx_for_each _ _ _ _ (freeing (live_ids s) s1)); [split; try done; cbn|..].
  - symmetry. apply filter_all. intros p _. apply not_elem_of_nil.
  - apply tokens_as_refl.
  - rewrite difference_empty_L. apply Hi.
  - apply Hi.
  - by rewrite union_empty_l_L.
  - intros l [o r] todo s' Heq Hfr. assert ((o, r) ∈ doomed s ids) as Hin by (rewrite Heq; set_solver).
    destruct (doomed_elem _ _ _ _ _ Hi Hin) as (Hr & Hget & Hok & _ & Ho). pose proof (doomed_nodup _ _ ids Hi) as Hnd. rewrite Heq, fmap_app in Hnd.
    apply NoDup_app in Hnd as (_ & Hd & _). assert (o ∉ l.*1) as Hol. { intros Hl. apply (Hd o Hl). by left. }
    apply freeing_step; try done; [|apply Hi|by apply (status_place k s o r)].
    intros ([o' r'] & Hn & Hin')%list_elem_of_fmap. simpl in Hn. apply Hol.
    assert ((o', r') ∈ doomed s ids) as Hin2 by (rewrite Heq; set_solver).
    destruct (doomed_elem _ _ _ _ _ Hi Hin2) as (Hr' & Hget' & _). rewrite <- Hn in Hget'. simplify_eq. by apply (list_elem_of_fmap_2 fst) in Hin'.
  - intros s' Hfr. apply wpx_ret. destruct Hfr as [Hc Hp (Hr & Hw & Hsk) Hreq Hobj Htok Hkv Henc Hfin [Hef Hkf]]. subst s1. cbn in *.
    assert (requests s' = filter (λ p, p.1 ∉ targets s ids) (requests s)) as Hreq'.
    { rewrite Hreq. apply filter_ext_in. intros p Hin. by rewrite (doomed_names k) by done. }
    split_and!; try done; rewrite ?Hw, ?Hsk; try done. apply (inv_restrict k s s' (doomed s ids).*1); try done; rewrite ?Hw, ?Hsk; try done.
    + rewrite Hreq. apply sublist_filter.
    + intros p Hin. rewrite Hreq', list_elem_of_filter. rewrite (doomed_iff k) by done. naive_solver.
    + eapply kv_inv_mono; [|exact Hkv]. intros id [Hid Hnid]%elem_of_difference. unfold live_ids in *.
      apply elem_of_list_to_set, list_elem_of_fmap in Hid as (o & -> & Ho).
      destruct (inv_run_obj _ _ _ _ _ _ Hi Ho) as (r & Hro & Hn & _).
      assert (o ∉ (doomed s ids).*1) as Hod.
      { intros ([o' r'] & -> & Hin)%list_elem_of_fmap. apply Hnid, elem_of_list_to_set, list_elem_of_fmap. exists (o', r'). split; [|done].
        destruct (doomed_elem _ _ _ _ _ Hi Hin) as (Hr' & _). simpl in *. by simplify_eq. }
      apply elem_of_list_to_set, list_elem_of_fmap. exists o. split; [unfold name; by rewrite Hobj|].
      rewrite Hr. by apply list_elem_of_filter.
Qed.

(** C31: [finish_requests], without a connector and from any consistent state (no LoRA
    limit, no streaming sessions), for any ids (or all), whether known, unknown, repeated,
    running, waiting or skipped: the known ones leave the dictionary and whatever queue they
    are in; the block manager and the encoder cache are exactly as [free] of each of them,
    one after the other, leaves them; they are reported as finished, each once and in
    order; the other requests keep their tokens and the order in which they run or are
    served from either queue; nothing is raised but by the managers. *)
Theorem finish_requests_correct k s ids st :
  inv k [] [] s → is_finished st = true →
  wpx F (finish_requests no_connector ids st) s (λ out s',
    inv k [] [] s' ∧ cfg s' = cfg s ∧ requests s' = filter (λ p, p.1 ∉ targets s ids) (requests s) ∧
    running s' = filter (.∉ (doomed s ids).*1) (running s) ∧
    tokens_as s s' ∧ finished_req_ids s' = list_to_set (names (doomed s ids)) ∪ finished_req_ids s ∧
    out = ((λ x, (request_id x.2, client_index (info x.2))) <$> doomed s ids) ∧
    q_iter (waiting s') = filter (λ x, oid x ∉ (doomed s ids).*1) (q_iter (waiting s)) ∧
    q_iter (skipped_waiting s') = filter (λ x, oid x ∉ (doomed s ids).*1) (q_iter (skipped_waiting s)) ∧
    for_each (doomed s ids).*2 (λ r, kv_free (kv_request r)) (kv s) = (Ret tt, kv s') ∧
    for_each (doomed s ids).*2 (λ r, enc_free (encoder_request r)) (encoder s) = (Ret tt, encoder s')).
Proof. apply finish_requests_run. Qed.

(** ** A request enters *)

(** A request as the engine hands it over: nothing computed, not yet known *)
Record new_request s o r : Prop := {
  nr_id : request_id r ∉ (requests s).*1;
  nr_obj : objs s !! o = None;
  nr_ok : req_ok (enc_ok (F := F)) (cfg s) r;
  nr_start : skipped_ok r
}.

Lemma inv_enter k s s' o r :
  inv k [] [] s → new_request s o r → objs s' = <[o := r]> (objs s) → cfg s' = cfg s → requests s' = requests s ++ [(request_id r, o)] →
  prev_step_scheduled_req_ids s' = prev_step_scheduled_req_ids s → running s' = running s → kv s' = kv s → encoder s' = encoder s →
  q_wf (policy (cfg s)) (waiting s') ∧ q_wf (policy (cfg s)) (skipped_waiting s') →
  (status r = WAITING ∧ q_items (waiting s') ≡ₚ queue_key o r :: q_items (waiting s) ∧ skipped_waiting s' = skipped_waiting s ∨
   waiting s' = waiting s ∧ q_items (skipped_waiting s') ≡ₚ queue_key o r :: q_items (skipped_waiting s)) →
  inv k [] [] s'.
Proof.
  intros Hi [Hid Hnone Hok Hst] Hobj Hc Hreq Hp Hrun Hkv Henc Hwf Hq.
  assert (∀ x, x ∈ parts s [] → x ≠ o) as Hne.
  { intros x Hx ->. destruct (inv_obj _ _ _ _ _ _ Hi Hx) as (rx & Hrx & _). congruence. }
  assert (o ∉ (requests s).*2) as Ho. { rewrite (inv_parts _ _ _ _ _ Hi). intros Hx. by destruct (Hne o Hx). }
  assert (∀ Φ x, x ≠ o → holds s Φ x → holds s' Φ x) as Hh.
  { intros Φ x Hx (rx & Hrx & HΦ). exists rx. by rewrite Hobj, lookup_insert_ne. }
  assert (∀ x, x ≠ o → name s' x = name s x) as Hname by (intros x Hx; unfold name; by rewrite Hobj, lookup_insert_ne).
  assert (objs s' !! o = Some r) as Hro by (rewrite Hobj; apply lookup_insert_eq).
  assert (keyed s' (queue_key o r)) as Hko by (exists r; by split). unfold parts in Hne. rewrite app_nil_r in Hne.
  assert (∀ x, x ∈ running s → x ≠ o) as Hne1 by (intros x Hx; apply Hne; set_solver).
  assert (∀ x, x ∈ q_items (waiting s) → oid x ≠ o) as Hne2 by (intros x Hx; apply Hne; set_solver).
  assert (∀ x, x ∈ q_items (skipped_waiting s) → oid x ≠ o) as Hne3 by (intros x Hx; apply Hne; set_solver).
  destruct Hi as [Hcfg Hids Hobjs Hparts Hrunning Hwait Hskip Hex Hqwf Hprev Hcap Hkv0 Henc0].
  rewrite Forall_forall in Hrunning. rewrite Forall_forall in Hwait. rewrite Forall_forall in Hskip. rewrite Forall_forall in Hprev. rewrite Forall_forall in Hobjs.
  split; rewrite ?Hc, ?Hp, ?Hrun, ?Henc; try done.
  - rewrite Hreq, fmap_app. apply NoDup_app. split_and!; [done|by intros x Hx ->%list_elem_of_singleton|apply NoDup_singleton].
  - rewrite Hreq. apply Forall_app. split.
    + apply Forall_forall. intros p Hin. apply Hh; [|auto]. intros He. apply Ho. rewrite <- He. by apply list_elem_of_fmap_2.
    + apply Forall_singleton. by exists r.
  - rewrite Hreq, fmap_app, Hparts. unfold parts. rewrite Hrun. destruct Hq as [(_ & -> & ->)|[-> ->]]; csimpl; solve_Permutation.
  - apply Forall_forall. intros x Hx. rewrite ?Hc, Hname by auto. apply Hh; auto.
  - destruct Hq as [(Hw & -> & _)|[-> _]].
    + apply Forall_cons. split; [split; [done|]; exists r; unfold waiting_ok; destruct Hst; auto|].
      apply Forall_forall. intros x Hx. destruct (Hwait x Hx). unfold keyed. auto.
    + apply Forall_forall. intros x Hx. destruct (Hwait x Hx). unfold keyed. auto.
  - destruct Hq as [(_ & _ & ->)|[_ ->]].
    + apply Forall_forall. intros x Hx. destruct (Hskip x Hx). unfold keyed. auto.
    + apply Forall_cons. split; [split; [done|]; by exists r|]. apply Forall_forall. intros x Hx. destruct (Hskip x Hx). unfold keyed. auto.
  - assert (∀ x, x ∈ queue_oids (waiting s) → holds s' (λ r, status r = PREEMPTED) x → name s' x ∉ prev_step_scheduled_req_ids s ∨ x ∈ []) as Hold.
    { intros x (y & -> & Hy)%list_elem_of_fmap (rx & Hrx & Hs). rewrite Hname by auto. apply Hprev; [by apply list_elem_of_fmap_2|].
      exists rx. by rewrite Hobj, lookup_insert_ne in Hrx by (symmetry; auto). }
    destruct Hq as [(Hw & -> & _)|[-> _]]; [|by apply Forall_forall]. csimpl. apply Forall_cons. split; [|by apply Forall_forall].
    intros (r' & Hr' & Hs'). simplify_eq. congruence.
  - rewrite Hkv. unfold live_ids. rewrite Hrun. replace (name s' <$> running s) with (name s <$> running s); [done|].
    apply list_fmap_ext. intros i x Hx%list_elem_of_lookup_2. by rewrite Hname by auto.
Qed.

Lemma add_request_run bh k s o r :
  inv k [] [] s → new_request s o r →
  wpx F (add_request no_connector bh o) (put_obj o r s) (λ _ s', inv k [] [] s' ∧ cfg s' = cfg s ∧
    requests s' = requests s ++ [(request_id r, o)] ∧ running s' = running s ∧ objs s' = <[o := r]> (objs s)).
Proof.
  intros Hi Hnew. pose proof Hnew as [Hid Ho Hok [Hst _]]. unfold add_request. wpx_step. apply (wpx_obj _ _ _ r); [apply lookup_insert_eq|]. wpx_steps.
  unfold lookup_request. cbn [requests put_obj with_objs]. assert (od_get (request_id r) (requests s) = None) as Hnone by by apply od_get_None.
  rewrite Hnone, (rq_single _ _ _ Hok). wpx_steps. unfold _enqueue_waiting_request. wpx_step. apply (wpx_obj _ _ _ r); [apply lookup_insert_eq|].
  destruct (inv_wf _ _ _ _ _ Hi) as [Hw Hsk].
  destruct (q_add_run _ (queue_key o r) _ Hw) as (w & Hrw & Hww & Hpw), (q_add_run _ (queue_key o r) _ Hsk) as (sk & Hrs & Hws & Hps).
  destruct (_is_blocked_waiting_status (status r)) eqn:Hb; apply wpx_zoom; (eapply wpx_run; [eassumption|]); wpx_steps; cbn;
    rewrite od_set_keys_new by done; (split_and!; [|done..]).
  - eapply (inv_enter k s _ o r); try done. right. by split.
  - eapply (inv_enter k s _ o r); try done. left. destruct Hst as [Hst|Hst]; [done|]. by rewrite Hst in Hb.
Qed.

(** ** Resets *)

(** A change to a request in the waiting queue *)
Lemma inv_put_waiting k X P s o r r' :
  inv k X P s → o ∈ queue_oids (waiting s) → objs s !! o = Some r → same_key r r' → status r' = status r →
  num_computed_tokens r' = num_computed_tokens r →
  (req_ok (enc_ok (F := F)) (cfg s) r → req_ok (enc_ok (F := F)) (cfg s) r') → inv k X P (put_obj o r' s).
Proof.
  intros Hi Ho Hr Hk Hst Hcomp Hreq. pose proof (inv_nodup _ _ _ _ _ Hi) as (_ & Hd1 & (_ & Hd2 & _)%NoDup_app)%NoDup_app.
  eapply inv_put; try done.
  - intros Hrun. destruct (Hd1 o Hrun). set_solver.
  - intros _. pose proof (inv_waiting _ _ _ _ _ Hi) as Hw. rewrite Forall_forall in Hw. apply list_elem_of_fmap in Ho as (x & -> & Hx).
    destruct (Hw x Hx) as (_ & rx & Hrx & [Hs Hc]). simplify_eq. unfold waiting_ok. rewrite Hst, Hcomp. by split_and!.
  - intros Hs. by destruct (Hd2 o Ho).
Qed.

Lemma preempt_all_run k fuel P s :
  inv k [] P s → (length (running s) ≤ fuel)%nat →
  wpx F (preempt_all fuel) s (λ _ s', (∃ P', inv k [] P' s') ∧ running s' = [] ∧ cfg s' = cfg s ∧ requests s' = requests s ∧ tokens_as s s').
Proof.
  revert P s. induction fuel as [|fuel IH]; intros P s Hi Hlen; simpl; wpx_step; wpx_step.
  all: destruct (list_pop (running s)) as [[o rest]|] eqn:Hpop; cbv beta iota.
  1: { apply list_pop_Some in Hpop. rewrite Hpop, length_app in Hlen. simpl in Hlen. lia. }
  1, 3: apply list_pop_None in Hpop; apply wpx_ret; split_and!; eauto; apply tokens_as_refl.
  apply list_pop_Some in Hpop. wpx_steps. pose proof (preempt_run F k [] P s o rest [] Hi Hpop) as Hpre. rewrite app_nil_r in Hpre.
  eapply wpx_mono; [exact Hpre|]. cbv beta. intros _ s1 (Hi1 & Hk & Hrun & _ & _ & Hw). specialize (Hw o ltac:(by left)).
  destruct (inv_obj _ _ _ _ _ o Hi1) as (r & Hr & Hn & _); [unfold parts; set_solver|].
  wpx_step. apply (wpx_mutate _ _ _ _ r); [done|]. wpx_step. eapply wpx_mutate; [apply lookup_put|]. rewrite put_put.
  eapply wpx_mono; [eapply IH; [eapply inv_put_waiting; [exact Hi1|done|exact Hr|done..|]|]|].
  - intros []. by split.
  - change (running (put_obj _ _ s1)) with (running s1). rewrite Hrun. rewrite Hpop, length_app in Hlen. simpl in Hlen. lia.
  - cbv beta. intros _ s2 (HP & Hr2 & Hc2 & Hq2 & Ht2). split_and!; try done; [rewrite Hc2; apply Hk|rewrite Hq2; apply Hk|].
    eapply tokens_as_trans; [exact (kept_tokens _ _ Hk)|]. eapply tokens_as_trans; [|exact Ht2]. by apply (tokens_as_put _ _ r).
Qed.

Lemma inv_forget k P s : inv k [] P s → inv k [] [] (with_prev ∅ s).
Proof.
  intros []. split; try done. apply Forall_forall. intros o _ _. left. apply not_elem_of_empty.
Qed.

(** Resetting the prefix cache with the running requests preempted succeeds. *)
Lemma reset_prefix_cache_run k s reset_running reset_connector :
  inv k [] [] s →
  wpx F (reset_prefix_cache no_connector reset_running reset_connector) s (λ b s',
    inv k [] [] s' ∧ cfg s' = cfg s ∧ requests s' = requests s ∧ tokens_as s s' ∧ (reset_running = true → b = true ∧ running s' = [])).
Proof.
  intros Hi. unfold reset_prefix_cache. wpx_steps.
  apply (wpx_mono _ _ _ (λ _ s1, inv k [] [] s1 ∧ cfg s1 = cfg s ∧ requests s1 = requests s ∧ tokens_as s s1 ∧ (reset_running = true → running s1 = []))).
  { destruct reset_running; [|apply wpx_ret; split_and!; try done; apply tokens_as_refl]. wpx_step. eapply wpx_mono; [eapply preempt_all_run; [exact Hi|done]|]. cbv beta.
    intros _ s1 ([P' Hi1] & Hr & Hc & Hq & Ht). apply wpx_modify. split_and!; try done. by eapply inv_forget. }
  intros _ s1 (Hi1 & Hc1 & Hq1 & Ht1 & Hr1). wpx_step. eapply wpx_on_kv; [apply kvl_reset, Hi1|]. intros b x [Hx Hb]. wpx_step.
  assert (reset_running = true → b = true) as Hrb.
  { intros Hrr. apply Hb. unfold live_ids. by rewrite Hr1. }
  apply (wpx_mono _ _ _ (λ _ s2, s2 = with_kv x s1)).
  { destruct reset_running, b; simpl; try done. by specialize (Hrb eq_refl). }
  intros _ s2 ->. destruct reset_connector; unfold reset_connector_cache; wpx_steps; (split_and!; try done; [by apply inv_with_kv|]);
    intros Hrr; rewrite (Hrb Hrr); split; try done; by apply Hr1.
Qed.
End life.
