(* ===== verification/SchedulerUpdate.v ===== *)
(** * The scheduler: the model's output comes back

    [update_from_output] under synchronous scheduling: sampled tokens are appended,
    rejected drafts taken back and stopped requests leave; the queues stay consistent. *)

From S2P Require Import Prelude OrderedDict FreeQueue BlockHash RequestQueue SchedQueue SchedRequest SchedStop Raises Scheduler.
From S2P Require Import SchedulerInv SchedulerPreempt SchedulerRun SchedulerSchedule SchedulerLife.
From S2P Require EncoderCache KVCacheManager.

Open Scope Z_scope.

Section update.
Context {K E C : Type} (F : exn → Prop) `{!KVManager K} `{!EncoderManager E}.
Context `{!KVLaws F K} `{!EncoderLaws F E}.
Context (block_hasher : BlockHash.Request → list bytes).
Context (should_advance : SRequest → bool) (accept_tokens : SRequest → list Z → bool).
(** [StructuredOutputManager.should_advance] is about requests with a compiled grammar. *)
Context (advance_grammar : ∀ r, should_advance r = true → use_structured_output (info r) = true ∧ has_grammar r = true).
Notation S := (t K E C).
Notation inv := (inv F).
Notation no_connector := (@None (Connector C)).
Implicit Types (s : S) (o : Z) (r : SRequest) (id : string) (gen l : list Z) (k : string → Z).

(** ** Tokens are appended *)

(** What the tokens [l] make of a request *)
Record taken r l r' : Prop := {
  tk_info : info r' = info r ∧ arrival_time r' = arrival_time r;
  tk_tokens : all_token_ids (hashed r') = all_token_ids (hashed r) ++ l;
  tk_outputs : output_token_ids r' = output_token_ids r ++ l;
  tk_prompt : num_prompt_tokens r' = num_prompt_tokens r ∧ sampling_params r' = sampling_params r;
  tk_computed : num_computed_tokens r' = num_computed_tokens r ∧ num_output_placeholders r' = num_output_placeholders r;
  tk_features : mm_features r' = mm_features r;
  tk_grammar : has_grammar r' = has_grammar r ∧ prefill_stats r' = prefill_stats r
}.
Lemma taken_refl r : taken r [] r.
Proof. by split; rewrite ?app_nil_r. Qed.
Lemma taken_trans r l r' l' r'' : taken r l r' → taken r' l' r'' → taken r (l ++ l') r''.
Proof. intros [[] ? ? [] [] ? []] [[] ? ? [] [] ? []]. split; rewrite ?app_assoc; (split_and? || idtac); congruence. Qed.
Lemma taken_length r l r' : taken r l r' →
  num_tokens r' = num_tokens r + Z.of_nat (length l) ∧ num_output_tokens r' = num_output_tokens r + Z.of_nat (length l).
Proof. intros [_ Ht Ho _ _ _ _]. unfold num_tokens, num_output_tokens. rewrite Ht, Ho, !length_app. lia. Qed.

(** A text request within the context *)
Record text_ok (n : Z) r : Prop := {
  tx_text : pooling_params (info r) = false;
  tx_split : num_tokens r = num_prompt_tokens r + num_output_tokens r;
  tx_sampling : ∃ sp, sampling_params r = Some sp ∧ num_prompt_tokens r + min_tokens sp ≤ n
}.
Lemma text_ok_taken n r l r' : text_ok n r → taken r l r' → text_ok n r'.
Proof.
  intros [Hp Hs (sp & Hsp & Hmin)] Ht. destruct (taken_length _ _ _ Ht) as [H1 H2]. destruct Ht as [[Hi _] _ _ [Hpr Hsa] _ _ _]. split.
  - by rewrite Hi.
  - rewrite H1, H2, Hpr. lia.
  - exists sp. by rewrite Hsa, Hpr.
Qed.

(** ** When the tokens stop the request *)

(** The verdict once the tokens [l] are appended *)
Definition verdict_after (n : Z) r l (res : option RequestStatus) : Prop :=
  ∃ sp, sampling_params r = Some sp ∧
    stop_verdict sp n (max_tokens (info r)) (num_tokens r + Z.of_nat (length l)) (output_token_ids r ++ l) res.
(** [l] are the sampled tokens up to the first at which the request stops, or all of them. *)
Record cut (n : Z) r gen l (res : option RequestStatus) : Prop := {
  cut_prefix : l `prefix_of` gen ∧ l ≠ [];
  cut_before l' : l' `prefix_of` l → l' ≠ [] → l' ≠ l → verdict_after n r l' None;
  cut_here : verdict_after n r l res;
  cut_all : res = None → l = gen
}.
Definition grammar_accepts r l : Prop := ∃ r', taken r l r' ∧ (should_advance r' = true → accept_tokens r' l = true).
Definition grammar_rejects r l : Prop := ∃ r', taken r l r' ∧ should_advance r' = true ∧ accept_tokens r' l = false.

(** What a step makes of a request: the tokens it keeps, and the status if it stops. *)
Inductive settles (n : Z) r gen (pooled : bool) : list Z → option RequestStatus → Prop :=
  | settle_nothing : gen = [] → pooling_params (info r) && pooled = false → settles n r gen pooled [] None
  | settle_pooled : gen = [] → pooling_params (info r) && pooled = true → settles n r gen pooled [] (Some FINISHED_STOPPED)
  | settle_tokens l res : cut n r gen l res → grammar_accepts r l → settles n r gen pooled l res
  | settle_rejected l res : cut n r gen l res → grammar_rejects r l → settles n r gen pooled l (Some FINISHED_ERROR).

Lemma verdict_after_taken n r l r' l' res : taken r l r' → verdict_after n r' l' res ↔ verdict_after n r (l ++ l') res.
Proof.
  intros Ht. destruct (taken_length _ _ _ Ht) as [Hn _]. destruct Ht as [[Hi _] _ Ho [_ Hs] _ _ _]. unfold verdict_after.
  rewrite Hi, Ho, Hs, Hn, length_app, Nat2Z.inj_add, <- app_assoc, Z.add_assoc. done.
Qed.
Lemma cut_one n r x gen res : verdict_after n r [x] res → (res = None → gen = []) → cut n r (x :: gen) [x] res.
Proof.
  intros Hv Hg. split; [by split; [exists gen|]| |done|].
  - intros l' [l2 Heq] Hne Hx. destruct l' as [|y l']; [done|]. injection Heq as <- Heq. by destruct l'.
  - intros ->. by rewrite Hg.
Qed.
Lemma cut_cons n r x r1 gen l res : taken r [x] r1 → verdict_after n r [x] None → cut n r1 gen l res → cut n r (x :: gen) (x :: l) res.
Proof.
  intros Ht Hx [[Hp Hne] Hb Hh Ha]. split.
  - split; [by apply prefix_cons|done].
  - intros l' Hl' Hn' Hneq. destruct l' as [|y l']; [done|]. destruct (prefix_cons_inv_1 _ _ _ _ Hl'). pose proof (prefix_cons_inv_2 _ _ _ _ Hl').
    destruct (decide (l' = [])) as [->|Hl]; [done|]. apply (verdict_after_taken n r [y] r1 l' None Ht). apply Hb; [done..|]. congruence.
  - by apply (verdict_after_taken n r [x] r1).
  - intros Hr. by rewrite Ha.
Qed.

(** How the request looks then *)
Definition outcome_ok (n : Z) r gen (pooled : bool) l (stopped : bool) r' : Prop :=
  taken r l r' ∧ ∃ res, settles n r gen pooled l res ∧
    match res with
    | Some st => stopped = true ∧ status r' = st ∧ (resumable r = false → resumable r' = false)
    | None => stopped = false ∧ status r' = status r ∧ resumable r' = resumable r
    end.
Definition appended (n : Z) r gen l (stopped : bool) r' : Prop :=
  taken r l r' ∧ ∃ res, cut n r gen l res ∧
    match res with
    | Some st => stopped = true ∧ status r' = st ∧ (resumable r = false → resumable r' = false)
    | None => stopped = false ∧ status r' = status r ∧ resumable r' = resumable r
    end.

Lemma append_tokens_run s o r gen (Q : list Z * bool → S → Prop) :
  objs s !! o = Some r → gen ≠ [] → text_ok (max_model_len (cfg s)) r →
  (∀ l stopped r', appended (max_model_len (cfg s)) r gen l stopped r' → Q (l, stopped) (put_obj o r' s)) →
  wpx F (append_tokens block_hasher o gen) s Q.
Proof.
  revert s r Q. induction gen as [|x gen IH]; intros s r Q Hr Hne Htext HQ; [done|]. cbn [append_tokens].
  wpx_step. apply (wpx_mutate _ _ _ _ r); [done|]. set (r1 := append_output_token_id _ x r).
  assert (taken r [x] r1) as Ht1 by by split.
  pose proof (text_ok_taken _ _ _ _ Htext Ht1) as Htext1. pose proof Htext1 as [Hp1 Hs1 (sp & Hsp & Hmin)].
  wpx_step. apply (wpx_obj _ _ _ r1); [apply lookup_put|]. wpx_steps.
  destruct (check_stop_run r1 (max_model_len (cfg s)) sp) as (res & Hres & Hv); [done..| |].
  { rewrite (tk_outputs _ _ _ Ht1). by destruct (output_token_ids r). }
  assert (verdict_after (max_model_len (cfg s)) r [x] res) as Hva.
  { apply (verdict_after_taken _ r [x] r1 [] res Ht1). exists sp. split; [done|]. rewrite app_nil_r, Z.add_0_r. done. }
  change (cfg (put_obj o r1 s)) with (cfg s). eapply wpx_of_outcome; [exact Hres|]. destruct res as [st|].
  { wpx_step. eapply wpx_mutate; [apply lookup_put|]. rewrite put_put. apply wpx_ret. apply HQ. split; [by split|].
    exists (Some st). split; [by apply cut_one|done]. }
  wpx_step. destruct gen as [|y gen].
  { apply wpx_ret. apply wpx_ret. apply HQ. split; [done|]. exists None. split; [by apply cut_one|done]. }
  eapply (IH _ r1); [apply lookup_put|done|done|]. intros l stopped r' (Ht & res & Hc & Hst). rewrite put_put. apply wpx_ret.
  apply HQ. split; [by eapply (taken_trans _ [x])|]. exists res. split; [by eapply cut_cons|]. by destruct res.
Qed.

Lemma put_same s o r : objs s !! o = Some r → put_obj o r s = s.
Proof. intros Hr. unfold put_obj. rewrite insert_id by done. by destruct s. Qed.

Lemma take_output_run s o r gen pooled (Q : list Z * bool → S → Prop) :
  async_scheduling (cfg s) = false → objs s !! o = Some r → (gen ≠ [] → text_ok (max_model_len (cfg s)) r) →
  (∀ l stopped r', outcome_ok (max_model_len (cfg s)) r gen pooled l stopped r' → Q (l, stopped) (put_obj o r' s)) →
  wpx F (take_output block_hasher should_advance accept_tokens o gen pooled) s Q.
Proof.
  intros Hsync Hr Htext HQ. unfold take_output. wpx_steps. apply (wpx_obj _ _ _ r); [done|]. rewrite Hsync. wpx_step.
  case_bool_decide as Hgen.
  2:{ apply (wpx_mono _ _ _ (λ p s', ∃ r', s' = put_obj o r' s ∧ outcome_ok (max_model_len (cfg s)) r gen pooled p.1 p.2 r' ∧ p.1 = [])).
      - subst gen. destruct (pooling_params (info r) && pooled) eqn:Hp.
        + wpx_step. apply (wpx_mutate _ _ _ _ r); [done|]. apply wpx_ret. eexists. split; [done|]. split; [|done].
          split; [split; by rewrite ?app_nil_r|]. exists (Some FINISHED_STOPPED). split; [by constructor|done].
        + apply wpx_ret. exists r. rewrite put_same by done. split; [done|]. split; [|done]. split; [apply taken_refl|]. exists None. split; [by constructor|done].
      - intros [l stopped] s' (r' & -> & Hout & Hl). cbn [fst snd] in *. subst l. wpx_step. apply (wpx_obj _ _ _ r'); [apply lookup_put|].
        rewrite (bool_decide_false ([] ≠ [])) by (intros H; by apply H). apply wpx_ret. by apply HQ. }
  unfold _update_request_with_output. apply (append_tokens_run _ _ r); [done..|by apply Htext|]. intros l stopped r' (Ht & res & Hc & Hst).
  wpx_step. apply (wpx_obj _ _ _ r'); [apply lookup_put|]. rewrite (bool_decide_true (l ≠ [])) by apply Hc. cbn [andb].
  assert ((should_advance r' = true → accept_tokens r' l = true) → Q (l, stopped) (put_obj o r' s)) as Hgood.
  { intros Hacc. apply HQ. split; [done|]. exists res. split; [|done]. apply settle_tokens; [done|]. by exists r'. }
  destruct (should_advance r') eqn:Hadv; [|apply wpx_ret; by apply Hgood].
  destruct (advance_grammar _ Hadv) as [Hso Hg]. wpx_step. apply wpx_assert; [done|]. wpx_step. apply wpx_assert; [done|].
  destruct (accept_tokens r' l) eqn:Hacc; [apply wpx_ret; by apply Hgood|].
  do 2 (wpx_step; eapply wpx_mutate; [apply lookup_put|]; rewrite put_put). apply wpx_ret. apply HQ.
  split; [by destruct Ht; split|]. exists (Some FINISHED_ERROR). split; [|done]. eapply settle_rejected; [done|]. by exists r'.
Qed.

(** A request that goes on keeps all tokens, and stays within the context. *)
Lemma settles_on n r gen pooled l : settles n r gen pooled l None → l = gen ∧ (gen ≠ [] → text_ok n r → num_tokens r + Z.of_nat (length l) < n).
Proof.
  inversion 1 as [Hg| |l' res Hc|]; subst; [by split|]. destruct Hc as [_ _ (sp & Hsp & Hv) Ha]. specialize (Ha eq_refl). subst. split; [done|].
  intros _ [_ Hsplit (sp' & Hsp' & Hmin)]. simplify_eq. apply verdict_none in Hv. rewrite length_app, Nat2Z.inj_add in Hv. unfold num_output_tokens in Hsplit. lia.
Qed.
Lemma settles_stopped n r gen pooled l st : settles n r gen pooled l (Some st) → l `prefix_of` gen ∧ is_finished st = true.
Proof.
  inversion 1 as [|Hg|l' res Hc|l' res Hc]; subst; [done|..]; (split; [apply Hc|]); [|done]. destruct (cut_here _ _ _ _ _ Hc) as (sp & _ & Hv). by eapply verdict_finished.
Qed.

(** ** Encoder inputs that are in the decoder's cache are freed *)
Lemma list_get_in {A} (l : list A) i : 0 ≤ i < Z.of_nat (length l) → ∃ x, list_get l i = Some x.
Proof. intros Hi. unfold list_get, py_index. rewrite bool_decide_true by lia. simpl. apply lookup_lt_is_Some_2. lia. Qed.

Lemma free_inputs_run s o r (Q : unit → S → Prop) :
  objs s !! o = Some r → enc_inv (F := F) (encoder s) → enc_ok (F := F) (mm_features r) →
  (∀ e, enc_inv (F := F) e → Q tt (with_encoder e s)) →
  wpx F (_free_encoder_inputs o) s Q.
Proof.
  intros Hr He Hok HQ. unfold _free_encoder_inputs. wpx_step. apply (wpx_obj _ _ _ r); [done|]. wpx_steps.
  eapply (wpx_on_encoder _ _ _ (λ _ e, enc_inv (F := F) e)); [|by intros []; auto].
  unfold EncoderCache._free_encoder_inputs. wpx_steps.
  eapply (wpx_for_each _ _ _ _ (λ _ e, enc_inv (F := F) e)); [done| |done]. intros dn i todo e Heq Hei.
  assert (0 ≤ i < Z.of_nat (length (mm_features r))) as Hir by (eapply encl_cached; [exact He|]; rewrite Heq; set_solver).
  destruct (list_get_in (encoder_feature <$> mm_features r) i) as [f Hf]; [by rewrite length_fmap|].
  unfold EncoderCache.feature. wpx_step. eapply wpx_of_option; [exact Hf|].
  repeat case_match; try (by apply encl_free_input). by apply wpx_ret.
Qed.

(** ** One request *)
Section request.
Context (sched : SchedulerOutput) (out : ModelRunnerOutput).

Definition draft id : list Z := default [] (od_get id (out_spec_decode_tokens sched)).
Definition sampled id : list Z :=
  match od_get id (req_id_to_index out) with
  | Some i => if bool_decide (sampled_token_ids out ≠ []) then default [] (list_get (sampled_token_ids out) i) else []
  | None => []
  end.
Definition pooled id : bool :=
  match od_get id (req_id_to_index out) with
  | Some i => if bool_decide (pooler_output out ≠ []) then default false (list_get (pooler_output out) i) else false
  | None => false
  end.
(** What the model runner promises for a scheduled request: a place in its output, at
    most one token more than the draft and at least one if there is a draft, and no
    tokens for a pooling request. *)
Record answered id r : Prop := {
  an_index : ∃ i, od_get id (req_id_to_index out) = Some i ∧
    (sampled_token_ids out ≠ [] → is_Some (list_get (sampled_token_ids out) i)) ∧
    (pooler_output out ≠ [] → is_Some (list_get (pooler_output out) i));
  an_draft : draft id ≠ [] → sampled id ≠ [] ∧ (length (sampled id) ≤ 1 + length (draft id))%nat;
  an_text : sampled id ≠ [] → pooling_params (info r) = false
}.
(** The computed tokens that stay: the accepted part of a draft *)
Definition accepted id r : Z :=
  if bool_decide (draft id ≠ []) then num_computed_tokens r - (Z.of_nat (length (draft id)) - (Z.of_nat (length (sampled id)) - 1))
  else num_computed_tokens r.

Record settled (c : config) id r l (stopped : bool) r' : Prop := {
  se_key : same_key r r';
  se_outputs : output_token_ids r' = output_token_ids r ++ l;
  se_tokens : all_token_ids (hashed r') = all_token_ids (hashed r) ++ l;
  se_computed : num_computed_tokens r' = accepted id r;
  se_stopped : stopped = true → l `prefix_of` sampled id ∧ is_finished (status r') = true;
  se_going : stopped = false → l = sampled id ∧ req_ok (enc_ok (F := F)) c r' ∧ running_ok c 0 r';
  se_settles : settles (max_model_len c) (set_computed (accepted id r) r) (sampled id) (pooled id) l (if stopped then Some (status r') else None)
}.

Lemma set_computed_same r : set_computed (num_computed_tokens r) r = r.
Proof. by destruct r. Qed.

Lemma reject_draft_run s o r id (Q : unit → S → Prop) :
  answered id r → running_ok (cfg s) (Z.of_nat (length (draft id))) r → num_output_placeholders r = 0 → objs s !! o = Some r →
  Q tt (put_obj o (set_computed (accepted id r) r) s) →
  wpx F (if bool_decide (draft id ≠ []) && bool_decide (sampled id ≠ [])
         then mutate o (reject_draft (Z.of_nat (length (draft id)) - (Z.of_nat (length (sampled id)) - 1))) else ret tt) s Q.
Proof.
  intros Ha Hro Hpl Hr HQ. unfold accepted in HQ. destruct (bool_decide (draft id ≠ [])) eqn:Hd; simpl.
  - apply bool_decide_eq_true in Hd. destruct (an_draft _ _ Ha Hd) as [Hne _]. rewrite bool_decide_true by done.
    apply (wpx_mutate _ _ _ _ r); [done|]. unfold reject_draft. destruct Hro as [_ [Hk1 Hk2] _ _].
    assert (0 < Z.of_nat (length (draft id))) by (destruct (draft id); [done|simpl; lia]).
    rewrite (bool_decide_true (0 < num_computed_tokens r)) by lia. cbv zeta. rewrite bool_decide_false by (simpl; lia). done.
  - apply wpx_ret. rewrite set_computed_same in HQ. rewrite (put_same s o r Hr) in HQ. done.
Qed.

(** Once the tokens are taken, with [d]: whether the prefill statistics were handed out *)
Lemma settled_going c id r l r' (d : bool) :
  answered id r → req_ok (enc_ok (F := F)) c r → async_scheduling c = false → running_ok c (Z.of_nat (length (draft id))) r →
  outcome_ok (max_model_len c) (set_computed (accepted id r) r) (sampled id) (pooled id) l false r' → (l ≠ [] → d = true) →
  settled c id r l false (if d then drop_prefill_stats r' else r').
Proof.
  intros Ha Hok Hsync Hro [Ht ([st|] & Hset & Hout0)] Hd; [by destruct Hout0|]. destruct Hout0 as (_ & Hst & Hres).
  destruct (settles_on _ _ _ _ _ Hset) as [-> Hlen]. destruct (taken_length _ _ _ Ht) as [Hn1 Hn2]. unfold num_tokens, num_output_tokens in Hn1, Hn2.
  destruct Ht as [[Hi Harr] Htok Hout [Hpr Hsa] [Hcomp Hpl] Hfe [Hgr Hps]]. cbn in *.
  pose proof (an_draft _ _ Ha) as Hdraft. destruct Hok as [R1 R2 R3 R4 R5 R6 R7 R8 R9 R10]. destruct Hro as [O1 O2 O3 O4].
  assert (0 ≤ accepted id r ≤ num_computed_tokens r ∧ accepted id r ≤ num_tokens r + Z.of_nat (length (sampled id))) as Hacc.
  { unfold accepted. rewrite (R5 Hsync) in O4. case_bool_decide as Hdne; [destruct (Hdraft Hdne) as [Hs Hl]; destruct (sampled id); [done|]; simpl in *; lia|].
    assert (draft id = []) as Hnil by (destruct (draft id); [done|by destruct Hdne]). rewrite Hnil in O4. simpl in O4. lia. }
  assert (num_tokens r + Z.of_nat (length (sampled id)) < max_model_len c) as Hcap.
  { destruct (decide (sampled id = [])) as [Hnil|Hne]; [rewrite Hnil; simpl; lia|].
    apply (Hlen Hne). split; [by apply (an_text _ _ Ha)|done|]. by apply R10, (an_text _ _ Ha). }
  unfold num_tokens, num_output_tokens in *.
  split; [by destruct d|by destruct d|by destruct d|by destruct d|done| |done]. intros _. split; [done|]. split.
  - split; unfold num_tokens, num_output_tokens in *.
    all: destruct d; cbn; rewrite ?Hfe, ?Hi, ?Hpl, ?Hsa, ?Hpr, ?Hst, ?Hres; try done; try lia.
    intros Hpst. rewrite Hout, R3 by (by rewrite <- Hps). destruct (sampled id); [done|]. by specialize (Hd ltac:(done)).
  - split; unfold num_tokens in *; destruct d; cbn; rewrite ?Hst, ?Hcomp, ?Hpl; try done; lia.
Qed.

(** The state after one request: only its object changes, and if it stopped it is freed. *)
Record one_done (live : gset string) s id o r' (stopped : bool) s' : Prop := {
  od_cfg : cfg s' = cfg s;
  od_prev : prev_step_scheduled_req_ids s' = prev_step_scheduled_req_ids s;
  od_queues : running s' = running s ∧ waiting s' = waiting s ∧ skipped_waiting s' = skipped_waiting s;
  od_objs : objs s' = <[o := r']> (objs s);
  od_requests : requests s' = if stopped then od_del id (requests s) else requests s;
  od_kv : kv_inv (F := F) (if stopped then live ∖ {[ id ]} else live) (kv s');
  od_enc : enc_inv (F := F) (encoder s');
  od_finished : finished_req_ids s' = if stopped then {[ id ]} ∪ finished_req_ids s else finished_req_ids s
}.

(** The client is told what the request got. *)
Definition told id r l (stopped : bool) r' : EngineCoreOutput :=
  mkEngineOut (client_index (info r)) id l (if stopped then Some (status r') else None).

Lemma update_request_run live s id o r acc :
  async_scheduling (cfg s) = false → answered id r → req_ok (enc_ok (F := F)) (cfg s) r → request_id r = id →
  running_ok (cfg s) (Z.of_nat (length (draft id))) r → objs s !! o = Some r → od_get id (requests s) = Some o →
  kv_inv (F := F) live (kv s) → enc_inv (F := F) (encoder s) →
  wpx F (update_request no_connector block_hasher should_advance accept_tokens sched out id o acc) s (λ acc' s',
    ∃ l stopped r', settled (cfg s) id r l stopped r' ∧ one_done live s id o r' stopped s' ∧
      ua_stopped_running acc' = ua_stopped_running acc ++ (if stopped then [o] else []) ∧
      ua_stopped_preempted acc' = ua_stopped_preempted acc ∧
      ∃ new, ua_outputs acc' = ua_outputs acc ++ new ∧ (l ≠ [] ∨ stopped = true → new = [told id r l stopped r'])).
Proof.
  intros Hsync Ha Hok Hid Hro Hr Hget Hkv Henc. pose proof (an_index _ _ Ha) as (i & Hi & Hsi & Hpi).
  unfold update_request. wpx_step. eapply wpx_of_option; [exact Hi|]. wpx_step.
  apply (wpx_mono _ _ _ (λ g s', g = sampled id ∧ s' = s)).
  { unfold sampled. rewrite Hi. case_bool_decide as Hs; [|done]. destruct (Hsi Hs) as [g Hg]. eapply wpx_of_option; [exact Hg|]. by rewrite Hg. }
  intros g s' [-> ->]. fold (draft id). wpx_step. apply (reject_draft_run _ _ r); [done..|apply Hok, Hsync|done|].
  set (r1 := set_computed (accepted id r) r). wpx_step. apply (wpx_obj _ _ _ r1); [apply lookup_put|]. wpx_step.
  apply (wpx_mono _ _ _ (λ _ s', ∃ e, s' = put_obj o r1 (with_encoder e s) ∧ enc_inv (F := F) e)).
  { destruct (has_encoder_inputs r1).
    - apply (free_inputs_run _ _ r1); [apply lookup_put|done|apply Hok|]. intros e He. by exists e.
    - apply wpx_ret. exists (encoder s). split; [by destruct s|done]. }
  intros _ s' (e & -> & He). wpx_step.
  apply (wpx_mono _ _ _ (λ b s', b = pooled id ∧ s' = put_obj o r1 (with_encoder e s))).
  { unfold pooled. rewrite Hi. case_bool_decide as Hp; [|done]. destruct (Hpi Hp) as [b Hb]. eapply wpx_of_option; [exact Hb|]. by rewrite Hb. }
  intros b s' [-> ->]. wpx_step. apply (take_output_run _ _ r1); [done|apply lookup_put|..].
  { intros Hne. split; [by apply (an_text _ _ Ha)|apply Hok|]. by apply Hok, (an_text _ _ Ha). }
  intros l stopped r2 Hout. rewrite put_put. wpx_step. apply (wpx_obj _ _ _ r2); [apply lookup_put|]. cbv beta iota.
  pose proof Hout as (Ht & res & Hset & Hst). destruct stopped.
  - destruct res as [st|]; [|by destruct Hst]. destruct Hst as (_ & <- & Hres). destruct (settles_stopped _ _ _ _ _ _ Hset) as [Hpre Hfin]. specialize (Hres (rq_single _ _ _ Hok)). wpx_step. wpx_step. unfold _handle_stopped_request.
    wpx_step. apply (wpx_obj _ _ _ r2); [apply lookup_put|]. rewrite Hres. cbn [negb]. wpx_steps. cbv iota.
    assert (info r2 = info r) as Hinfo by apply Ht.
    eapply wpx_mono; [eapply (free_request_run _ _ o r2 live); [apply lookup_put|done| |done|done|by rewrite (tk_features _ _ _ Ht); apply Hok]|].
    { by rewrite Hinfo, Hid. }
    cbv beta. intros _ s3 (x & e' & d & -> & Hx & He' & _). wpx_steps. rewrite (bool_decide_true (status r1 = RUNNING)) by apply Hro. rewrite orb_true_r. wpx_step.
    eapply wpx_mutate; [cbn; apply lookup_insert_eq|]. apply wpx_ret. rewrite Hinfo, Hid in *.
    exists l, true, (drop_prefill_stats r2). destruct Ht as [[Hi1 Hi2] Htok Houts [Hpr Hsa] [Hcomp Hpl] Hfe [Hgr Hps]]. split_and!; try done.
    + split; try done. cbn. by rewrite insert_insert_eq.
    + eexists. split; [done|]. done.
  - wpx_steps. rewrite orb_false_r. 
    destruct (bool_decide (l ≠ []) || pooled id) eqn:Hd.
    + wpx_step. eapply wpx_mutate; [apply lookup_put|]. rewrite put_put. apply wpx_ret. exists l, false, (drop_prefill_stats r2).
      split_and!; try done; [by apply (settled_going _ _ _ _ _ true)|by rewrite app_nil_r|]. eexists. split; [done|]. intros _. unfold told.
      assert (info r2 = info r) as -> by apply Ht. done.
    + apply wpx_ret. apply orb_false_iff in Hd as [Hl%bool_decide_eq_false _]. exists l, false, r2.
      split_and!; try done; [by apply (settled_going _ _ _ _ _ false)|by rewrite app_nil_r|]. exists []. rewrite app_nil_r. split; [done|]. by intros [?|?].
Qed.

(** ** All requests *)

(** The requests that stopped stay in the running list until the end of the loop. *)
Definition without (T : list Z) s : S := with_running (filter (.∉ T) (running s)) s.

Lemma inv_k_ext k k' X P s : inv k X P s → (∀ o, o ∈ running s → k' (name s o) = k (name s o)) → inv k' X P s.
Proof.
  intros [] Hk. split; try done. rewrite Forall_forall in inv_running. apply Forall_forall. intros o Ho. rewrite Hk by done. auto.
Qed.
Lemma inv_fields k X P s s' :
  inv k X P s → cfg s' = cfg s → requests s' = requests s → objs s' = objs s → running s' = running s → waiting s' = waiting s →
  skipped_waiting s' = skipped_waiting s → prev_step_scheduled_req_ids s' = prev_step_scheduled_req_ids s →
  kv_inv (F := F) (live_ids s) (kv s') → enc_inv (F := F) (encoder s') → inv k X P s'.
Proof.
  intros [] Hc Hq Ho Hr Hw Hs Hp Hk He.
  assert (∀ o, name s' o = name s o) as Hn by (intros o; unfold name; by rewrite Ho).
  assert (∀ Φ o, holds s Φ o → holds s' Φ o) as Hh by (intros Φ o; unfold holds; by rewrite Ho).
  split; rewrite ?Hc, ?Hq, ?Hr, ?Hw, ?Hs, ?Hp; try done.
  - eapply Forall_impl; [exact inv_objs|]. intros p. apply Hh.
  - unfold parts. by rewrite Hr, Hw, Hs.
  - eapply Forall_impl; [exact inv_running|]. intros o Hro. rewrite ?Hc, Hn. by apply Hh.
  - eapply Forall_impl; [exact inv_waiting|]. intros x [? ?]. unfold keyed. auto.
  - eapply Forall_impl; [exact inv_skipped|]. intros x [? ?]. unfold keyed. auto.
  - eapply Forall_impl; [exact inv_extra|]. intros x. apply Hh.
  - eapply Forall_impl; [exact inv_prev|]. intros o Ho' (r & Hro & Hst). rewrite Hn. apply Ho'. exists r. by rewrite <- Ho.
  - unfold live_ids. rewrite Hr. by rewrite (list_fmap_ext _ (name s)) by (intros; apply Hn).
Qed.

Lemma one_going k k' T s s' id o r r' l :
  inv k [] [] (without T s) → o ∈ running (without T s) → objs s !! o = Some r → request_id r = id →
  settled (cfg s) id r l false r' → one_done (live_ids (without T s)) s id o r' false s' →
  k' id = 0 → (∀ x, x ≠ id → k' x = k x) → inv k' [] [] (without T s').
Proof.
  intros Hi Ho Hr Hid [Hkey _ _ _ _ Hgo _] [Dc Dp (Dr & Dw & Ds) Do Dq Dk De _] Hk0 Hk. destruct (Hgo eq_refl) as (_ & Hok & Hro).
  assert (inv k' [] [] (put_obj o r' (without T s))) as Hi'.
  { eapply inv_advance; [exact Hi|done|done|done|done|by rewrite Hid, Hk0|intros x Hx; apply Hk; congruence]. }
  eapply inv_fields; [exact Hi'|..]; try done; [cbn; by rewrite Dr|].
  by rewrite (live_put (without T s) o r r').
Qed.

Lemma one_stopped k k' T s s' id o r r' l :
  inv k [] [] (without T s) → o ∈ running (without T s) → objs s !! o = Some r → request_id r = id → od_get id (requests s) = Some o →
  settled (cfg s) id r l true r' → one_done (live_ids (without T s)) s id o r' true s' →
  (∀ x, x ≠ id → k' x = k x) → inv k' [] [] (without (T ++ [o]) s').
Proof.
  intros Hi Ho Hr Hid Hget _ [Dc Dp (Dr & Dw & Ds) Do Dq Dk De _] Hk.
  assert (filter (.∉ T ++ [o]) (running s) = filter (.∉ [o]) (filter (.∉ T) (running s))) as Hrun.
  { rewrite list_filter_filter. apply list_filter_iff. intros x. rewrite not_elem_of_app. tauto. }
  assert (∀ x, x ∈ (requests s).*2 → x ≠ o → name s x ≠ id) as Hnid.
  { intros x Hx Hne Hn. apply Hne. rewrite (inv_parts _ _ _ _ _ Hi) in Hx. apply (inv_name_inj _ _ _ _ _ _ _ Hi); [done|unfold parts; set_solver|].
    change (name s x = name s o). unfold name at 2. by rewrite Hn, Hr. }
  destruct (inv_running_only _ _ _ _ _ _ Hi Ho) as [Hnw Hns]. rewrite app_nil_r in Hns. cbn in Hnw, Hns.
  assert (∀ q, o ∉ queue_oids q → filter (λ x, oid x ∉ [o]) (q_items q) = q_items q) as Hq.
  { intros q Hoq. apply filter_all. intros x Hx Heq%list_elem_of_singleton. apply Hoq. rewrite <- Heq. by apply list_elem_of_fmap_2. }
  assert (inv k [] [] (without (T ++ [o]) s')) as Hi'.
  { apply (inv_restrict F k (without T s) _ [o]); try done; cbn; rewrite ?Dr, ?Dw, ?Ds, ?Dq, ?Do, ?Hq; try done.
    - apply od_del_sublist.
    - intros [id' o'] Hin. rewrite od_elem_del by apply Hi. simpl. rewrite list_elem_of_singleton.
      assert (od_get id' (requests s) = Some o') as Hget' by (apply od_elem_get; [apply Hi|done]). split.
      + intros [_ Hne] ->. apply Hne. pose proof (inv_objs _ _ _ _ _ Hi) as Hall. rewrite Forall_forall in Hall.
        destruct (Hall _ Hin) as (rx & Hrx & Hn & _). cbn in *. by simplify_eq.
      + intros Hne. split; [done|]. intros ->. by simplify_eq.
    - intros x Hx. rewrite not_elem_of_cons in Hx. by rewrite lookup_insert_ne by (symmetry; apply Hx).
    - apply Hi.
    - eapply kv_inv_mono; [|exact Dk]. intros id' [Hin Hne]%elem_of_difference. unfold live_ids in *.
      apply elem_of_list_to_set, list_elem_of_fmap in Hin as (x & -> & Hx). cbn in Hx. apply elem_of_list_to_set, list_elem_of_fmap. exists x. cbn.
      assert (x ≠ o) as Hxo. { intros ->. apply Hne. cbn. unfold name. cbn. rewrite Hr. set_solver. }
      split; [unfold name; cbn; by rewrite Do, lookup_insert_ne|]. rewrite Hrun, list_elem_of_filter, list_elem_of_singleton. done. }
  eapply inv_k_ext; [exact Hi'|]. intros x Hx. apply Hk. cbn in Hx. rewrite Dr, Hrun in Hx. apply list_elem_of_filter in Hx as [Hxo Hx].
  assert (x ≠ o) as Hne by (intros ->; by apply Hxo, list_elem_of_singleton).
  replace (name (without (T ++ [o]) s') x) with (name s x); [|unfold name; cbn; by rewrite Do, lookup_insert_ne].
  apply Hnid; [|done]. rewrite (inv_parts _ _ _ _ _ Hi). unfold parts. set_solver.
Qed.

(** No request loses tokens. *)
Definition tokens_more s s' : Prop := ∀ o r, objs s !! o = Some r →
  ∃ r', objs s' !! o = Some r' ∧ info r' = info r ∧ num_tokens r ≤ num_tokens r'.
Lemma tokens_more_step live s id o r r' stopped s0 s' l :
  tokens_more s0 s → objs s !! o = Some r → settled (cfg s) id r l stopped r' → one_done live s id o r' stopped s' → tokens_more s0 s'.
Proof.
  intros Hm Hr Hse Hd x rx Hx. destruct (Hm x rx Hx) as (r1 & Hr1 & Hi1 & Hn1). rewrite (od_objs _ _ _ _ _ _ _ Hd).
  destruct (decide (x = o)) as [->|Hne]; [|exists r1; by rewrite lookup_insert_ne]. rewrite lookup_insert_eq. simplify_eq. exists r'. split; [done|].
  destruct Hse as [[Hi _] _ Ht _ _ _ _]. split; [congruence|]. unfold num_tokens in *. rewrite Ht, length_app. lia.
Qed.

(** What became of a scheduled request *)
Definition reported (outs : list EngineCoreOutput) s id o r : Prop :=
  ∃ l stopped r', objs s !! o = Some r' ∧ settled (cfg s) id r l stopped r' ∧
    (if stopped : bool then od_get id (requests s) = None ∧ id ∈ finished_req_ids s else od_get id (requests s) = Some o) ∧
    (l ≠ [] ∨ stopped = true → told id r l stopped r' ∈ outs).

Record updating s0 (dn todo : list (string * Z)) (acc : update_acc) s (T := ua_stopped_running acc) : Prop := {
  up_cfg : cfg s = cfg s0;
  up_inv : inv (in_flight todo (out_spec_decode_tokens sched)) [] [] (without T s);
  up_running : running s = running s0;
  up_preempted : ua_stopped_preempted acc = [];
  up_present id o : id ∈ todo.*1 → od_get id (requests s) = Some o → o ∈ running (without T s);
  up_sub id o : od_get id (requests s) = Some o → od_get id (requests s0) = Some o;
  up_more : tokens_more s0 s;
  up_objs id o r : od_get id (requests s0) = Some o → objs s0 !! o = Some r →
    if decide (id ∈ dn.*1) then reported (ua_outputs acc) s id o r else od_get id (requests s) = Some o ∧ objs s !! o = Some r
}.

Lemma inv_get k X P s id o : inv k X P s → od_get id (requests s) = Some o →
  ∃ r, objs s !! o = Some r ∧ request_id r = id ∧ req_ok (enc_ok (F := F)) (cfg s) r.
Proof.
  intros Hi Hin%od_get_elem. pose proof (inv_objs _ _ _ _ _ Hi) as Hall. rewrite Forall_forall in Hall. by destruct (Hall _ Hin) as (r & ? & ? & ?); exists r.
Qed.
Lemma inv_get_inj k X P s id id' o : inv k X P s → od_get id (requests s) = Some o → od_get id' (requests s) = Some o → id = id'.
Proof. intros Hi (r & Hr & <- & _)%(inv_get _ _ _ _ _ _ Hi) (r' & Hr' & <- & _)%(inv_get _ _ _ _ _ _ Hi). by simplify_eq. Qed.

Lemma updating_absent s0 dn todo acc s id n :
  updating s0 dn ((id, n) :: todo) acc s → od_get id (requests s) = None → id ∉ dn.*1 → updating s0 (dn ++ [(id, n)]) todo acc s.
Proof.
  intros [Uc Ui Ur Up Upr Us Um Uo] Hnone Hid. split; try done.
  - eapply inv_k_ext; [exact Ui|]. intros o Ho. unfold in_flight. erewrite bool_decide_ext; [done|]. csimpl. rewrite elem_of_cons.
    destruct (inv_run_obj _ _ _ _ _ _ Ui Ho) as (r & _ & -> & _ & _ & Hget). cbn in Hget. naive_solver.
  - intros id' o Hin. apply Upr. by right.
  - intros id' o r Hget Hr. specialize (Uo id' o r Hget Hr). rewrite fmap_app. csimpl. destruct (decide (id' = id)) as [->|Hne].
    + rewrite decide_False in Uo by done. destruct Uo. congruence.
    + erewrite decide_ext; [exact Uo|]. rewrite elem_of_app, list_elem_of_singleton. naive_solver.
Qed.

Lemma reported_other outs new s s' id o r id' o' r' live stopped :
  reported outs s id' o' r' → one_done live s id o r stopped s' → NoDup (requests s).*1 → o' ≠ o → id' ≠ id →
  reported (outs ++ new) s' id' o' r'.
Proof.
  intros (l & st & r'' & Hr & Hse & Hst & Htold) [Dc Dp (Dr & Dw & Ds) Do Dq Dk De Df] Hnd Hne Hid. exists l, st, r''. rewrite Dc, Do, lookup_insert_ne by done.
  assert (od_get id' (requests s') = od_get id' (requests s)) as Hget. { rewrite Dq. destruct stopped; [|done]. rewrite od_get_del by done. by rewrite decide_False. }
  split_and!; [done..| |].
  - rewrite Hget. destruct st; [|done]. destruct Hst as [? Hin]. split; [done|]. rewrite Df. destruct stopped; set_solver.
  - intros H. apply elem_of_app. left. auto.
Qed.

Lemma updating_step k0 s0 dn todo acc s id n o r acc' s' l stopped r' new (T := ua_stopped_running acc) :
  inv k0 [] [] s0 →
  updating s0 dn ((id, n) :: todo) acc s → id ∉ dn.*1 → id ∉ todo.*1 → od_get id (requests s) = Some o → objs s !! o = Some r → request_id r = id →
  settled (cfg s) id r l stopped r' → one_done (live_ids (without T s)) s id o r' stopped s' →
  ua_stopped_running acc' = T ++ (if stopped then [o] else []) → ua_stopped_preempted acc' = ua_stopped_preempted acc →
  ua_outputs acc' = ua_outputs acc ++ new → (l ≠ [] ∨ stopped = true → new = [told id r l stopped r']) →
  updating s0 (dn ++ [(id, n)]) todo acc' s'.
Proof.
  intros Hi0 [Uc Ui Ur Up Upr Us Um Uo] Hid Htodo Hget Hr Hrid Hse Hdone HT HP Hout Hnew.
  assert (∀ id' o', od_get id' (requests s0) = Some o' → od_get id (requests s0) = Some o' → id' = id) as Hinj.
  { intros id' o' H1 H2. exact (inv_get_inj _ _ _ _ _ _ _ Hi0 H1 H2). }
  assert (o ∈ running (without T s)) as Ho by (apply (Upr id); [by left|done]).
  assert (NoDup (requests s).*1) as Hnd by apply Ui.
  assert (∀ x, x ≠ id → in_flight todo (out_spec_decode_tokens sched) x = in_flight ((id, n) :: todo) (out_spec_decode_tokens sched) x) as Hk.
  { intros x Hx. unfold in_flight. erewrite bool_decide_ext; [done|]. csimpl. rewrite elem_of_cons. naive_solver. }
  assert (in_flight todo (out_spec_decode_tokens sched) id = 0) as Hk0 by (unfold in_flight; by rewrite bool_decide_false).
  pose proof Hdone as [Dc Dp (Dr & Dw & Ds) Do Dq Dk De Df].
  assert (∀ id', od_get id' (requests s') = if stopped then (if decide (id' = id) then None else od_get id' (requests s)) else od_get id' (requests s)) as Hget'.
  { intros id'. rewrite Dq. destruct stopped; [|done]. by rewrite od_get_del. }
  split.
  - congruence.
  - rewrite HT. destruct stopped; [eapply one_stopped|rewrite app_nil_r; eapply one_going]; try done.
  - congruence.
  - congruence.
  - intros id' o' Hin Hg. rewrite Hget' in Hg. assert (id' ≠ id) as Hne by (intros ->; done).
    assert (od_get id' (requests s) = Some o') as Hg2 by (destruct stopped; [rewrite decide_False in Hg by done|]; done).
    pose proof (Upr id' o' ltac:(by right) Hg2) as Ho'. cbn in Ho' |- *. rewrite Dr, HT. apply list_elem_of_filter in Ho' as [HnT Ho'].
    apply list_elem_of_filter. split; [|done]. rewrite not_elem_of_app. split; [done|]. destruct stopped; [|apply not_elem_of_nil].
    intros ->%list_elem_of_singleton. by apply Hne, (Hinj id' o); apply Us.
  - intros id' o' Hg. apply Us. rewrite Hget' in Hg. destruct stopped; [by case_decide|done].
  - by eapply tokens_more_step.
  - intros id' o' r0 Hg0 Hr0. pose proof (Uo id' o' r0 Hg0 Hr0) as Hold. rewrite fmap_app. csimpl. destruct (decide (id' = id)) as [->|Hne].
    + rewrite decide_True by set_solver. rewrite decide_False in Hold by done. destruct Hold as [Hg1 Hr1]. simplify_eq.
      exists l, stopped, r'. rewrite Do, lookup_insert_eq, Hget', Dc. split_and!; [done..| |].
      * destruct stopped; [|done]. rewrite decide_True by done. split; [done|]. rewrite Df. set_solver.
      * intros H. rewrite Hout, (Hnew H). apply elem_of_app. right. by left.
    + assert (o' ≠ o) as Hoo. { intros ->. apply Hne, (Hinj id' o); [done|]. by apply Us. }
      rewrite (decide_ext _ (id' ∈ dn.*1)) by (rewrite elem_of_app, list_elem_of_singleton; naive_solver). case_decide.
      * rewrite Hout. by eapply reported_other.
      * rewrite Hget', Do, lookup_insert_ne by done. destruct stopped; [by rewrite decide_False|done].
Qed.

Lemma update_requests_run k0 s0 (todo : list (string * Z)) dn acc s (Q : update_acc → S → Prop) :
  inv k0 [] [] s0 → async_scheduling (cfg s0) = false →
  (∀ id o r, id ∈ (dn ++ todo).*1 → od_get id (requests s0) = Some o → objs s0 !! o = Some r → answered id r) →
  NoDup (dn ++ todo).*1 → (∀ id n, (id, n) ∈ todo → 0 < n) →
  updating s0 dn todo acc s → (∀ acc s, updating s0 (dn ++ todo) [] acc s → Q acc s) →
  wpx F (update_requests no_connector block_hasher should_advance accept_tokens sched out [] todo acc) s Q.
Proof.
  intros Hi0 Hsync. revert dn acc s. induction todo as [|[id n] todo IH]; intros dn acc s Hans Hnd Hpos Hup HQ; cbn [update_requests].
  { apply wpx_ret. rewrite app_nil_r in HQ. by apply HQ. }
  assert (id ∉ dn.*1 ∧ id ∉ todo.*1) as [Hid Htodo].
  { rewrite fmap_app in Hnd. csimpl in Hnd. apply NoDup_app in Hnd as (_ & Hd & [Ht _]%NoDup_cons). split; [|done]. intros Hin. apply (Hd id Hin). by left. }
  assert (∀ acc s, updating s0 (dn ++ [(id, n)]) todo acc s →
    wpx F (update_requests no_connector block_hasher should_advance accept_tokens sched out [] todo acc) s Q) as Hnext.
  { intros acc' s' Hup'. assert (dn ++ (id, n) :: todo = (dn ++ [(id, n)]) ++ todo) as Heq by by rewrite <- app_assoc. rewrite Heq in *.
    apply (IH (dn ++ [(id, n)])); try done. intros id' n' Hin. apply (Hpos id'). by right. }
  wpx_step. apply wpx_assert; [apply bool_decide_eq_true, (Hpos id); by left|]. wpx_steps.
  rewrite bool_decide_false by apply not_elem_of_nil. unfold lookup_request. destruct (od_get id (requests s)) as [o|] eqn:Hget.
  2:{ apply Hnext. by eapply updating_absent. }
  pose proof Hup as [Uc Ui Ur Up Upr Us Um Uo]. destruct (inv_get _ _ _ _ _ _ Hi0 (Us _ _ Hget)) as (r & Hr0 & Hrid & _).
  pose proof (Uo id o r (Us _ _ Hget) Hr0) as Hold. rewrite decide_False in Hold by done. destruct Hold as [_ Hr].
  assert (o ∈ running (without (ua_stopped_running acc) s)) as Ho by (apply (Upr id); [by left|done]).
  destruct (inv_run_obj _ _ _ _ _ _ Ui Ho) as (r1 & Hr1 & _ & Hok & Hro & _). cbn in Hr1, Hok, Hro. simplify_eq.
  wpx_step. apply (wpx_obj _ _ _ r); [done|]. rewrite (rq_live _ _ _ Hok). wpx_step.
  eapply wpx_mono; [apply (update_request_run (live_ids (without (ua_stopped_running acc) s)) s _ o r); try done|].
  - by rewrite Uc.
  - apply (Hans _ o); [rewrite fmap_app; set_solver|by apply Us|done].
  - unfold in_flight in Hro. rewrite bool_decide_true in Hro by (by left). exact Hro.
  - apply Ui.
  - apply Ui.
  - cbv beta. intros acc' s' (l & stopped & r' & Hse & Hdone & HT & HP & new & Hout & Hnew). apply Hnext.
    by eapply (updating_step k0).
Qed.

(** ** The whole update *)

(** The scheduled requests are still running, unless they were aborted. *)
Record awaited s : Prop := {
  aw_ids : NoDup (out_num_scheduled_tokens sched).*1;
  aw_positive id n : (id, n) ∈ out_num_scheduled_tokens sched → 0 < n;
  aw_running id o : id ∈ (out_num_scheduled_tokens sched).*1 → od_get id (requests s) = Some o → o ∈ running s
}.
Definition all_answered s : Prop := kv_connector_output out = None ∧
  ∀ id o r, id ∈ (out_num_scheduled_tokens sched).*1 → od_get id (requests s) = Some o → objs s !! o = Some r → answered id r.

Lemma without_nil s : without [] s = s.
Proof. unfold without. rewrite filter_all by (intros o _; apply not_elem_of_nil). by destruct s. Qed.

(** The requests after the update, by id *)
Definition updated (outs : list EngineCoreOutput) s s' : Prop := ∀ id o r, od_get id (requests s) = Some o → objs s !! o = Some r →
  if decide (id ∈ (out_num_scheduled_tokens sched).*1) then reported outs s' id o r
  else od_get id (requests s') = Some o ∧ objs s' !! o = Some r.

Lemma update_from_output_run s :
  inv (pending (cfg s) sched) [] [] s → async_scheduling (cfg s) = false → awaited s → all_answered s →
  wpx F (update_from_output no_connector block_hasher should_advance accept_tokens sched out) s (λ res s',
    inv idle [] [] s' ∧ cfg s' = cfg s ∧ (∀ id o, od_get id (requests s') = Some o → od_get id (requests s) = Some o) ∧
    tokens_more s s' ∧ updated res.1 s s').
Proof.
  intros Hi Hsync [Hids Hpos Hrun] [Hnc Hans]. unfold update_from_output. rewrite Hnc. wpx_steps.
  assert (updating s [] (out_num_scheduled_tokens sched) (mkUpdateAcc [] [] []) s) as Hup.
  { split; cbn [ua_stopped_running ua_outputs]; try done.
    - rewrite without_nil. unfold pending in Hi. by rewrite Hsync in Hi.
    - rewrite without_nil. auto.
    - intros o r Hr. by exists r. }
  apply (update_requests_run (pending (cfg s) sched) s _ []); [exact Hi|done|exact Hans|exact Hids|exact Hpos|exact Hup|]. intros acc s1 [Uc Ui Ur Up Upr Us Um Uo]. wpx_step.
  apply (wpx_mono _ _ _ (λ _ s2, s2 = without (ua_stopped_running acc) s1)).
  { case_bool_decide as Hne.
    - apply wpx_modify. unfold without. rewrite remove_all_filter; [done|]. rewrite Ur. by pose proof (inv_nodup _ _ _ _ _ Hi) as (? & _)%NoDup_app.
    - apply wpx_ret. assert (ua_stopped_running acc = []) as -> by by destruct (ua_stopped_running acc). by rewrite without_nil. }
  intros _ s2 ->. rewrite Up. rewrite bool_decide_false by (intros H; by apply H). wpx_steps.
  assert (bool_decide (@nil string ≠ []) = false) as -> by (apply bool_decide_eq_false; intros H; by apply H). cbn [andb]. wpx_steps.
  split_and!; [|done..|].
  - assert (inv idle [] [] (without (ua_stopped_running acc) s1)) as Hi1.
    { eapply inv_k_ext; [exact Ui|]. intros o Ho. unfold in_flight, idle. by rewrite bool_decide_false by apply not_elem_of_nil. }
    by eapply inv_fields; [exact Hi1|try done..]; apply Hi1.
  - cbn [fst]. rewrite app_nil_r. exact Uo.
Qed.

(** C16: [update_from_output] of a synchronous scheduler without connector, LoRA limit or
    streaming sessions, over managers with the laws of [SchedulerInv], after requests may
    have been added and aborted during the step, for every answer of the model runner that
    has a place for each scheduled request, at most one token more than its draft, at least
    one if it has a draft and none for a pooling request: it returns with a consistent state
    or raises what a manager raised. Each scheduled request that is still there takes its
    sampled tokens one by one; it goes on with all of them if none of them ends it, or it
    keeps those up to the first that does and gets the status of that reason: past its
    minimum of output tokens an end or stop token, the context or the output limit, or a
    repetition, in this order. A structured request whose grammar rejects the tokens ends
    with an error, a pooled one when its output is there. The computed tokens are those of
    the accepted part of its draft. A stopped request leaves dictionary and queues and is no
    longer among those that may hold blocks; the client is told the tokens and the status.
    Every other request is untouched. *)
Theorem update_from_output_correct s :
  inv (pending (cfg s) sched) [] [] s → async_scheduling (cfg s) = false → awaited s → all_answered s →
  wpx F (update_from_output no_connector block_hasher should_advance accept_tokens sched out) s (λ res s',
    inv idle [] [] s' ∧ cfg s' = cfg s ∧ (∀ id o, od_get id (requests s') = Some o → od_get id (requests s) = Some o) ∧
    tokens_more s s' ∧ updated res.1 s s').
Proof. apply update_from_output_run. Qed.
End request.
End update.
