(* ===== verification/SchedulerReach.v ===== *)
(** * The scheduler: every interleaving

    The states that the engine can bring a synchronous scheduler to: requests are added
    and aborted at any time, [schedule] and [update_from_output] alternate, drafts are
    recorded, caches are reset. The invariant holds in all of them, so no operation fails
    on its own account. *)

From S2P Require Import Prelude OrderedDict FreeQueue BlockHash RequestQueue SchedQueue SchedRequest SchedStop Raises Scheduler.
From S2P Require Import SchedulerInv SchedulerPreempt SchedulerRun SchedulerSchedule SchedulerLife SchedulerUpdate.
From S2P Require EncoderCache KVCacheManager.

Open Scope Z_scope.

Section reach.
Context {K E C : Type} (F : exn → Prop) `{!KVManager K} `{!EncoderManager E}.
Context `{!KVLaws F K} `{!EncoderLaws F E}.
Context (ec : option (string → bool)) (block_hasher : BlockHash.Request → list bytes).
Context (should_advance : SRequest → bool) (accept_tokens : SRequest → list Z → bool) (validate_tokens : SRequest → list Z → list Z).
Context (advance_grammar : ∀ r, should_advance r = true → use_structured_output (info r) = true ∧ has_grammar r = true).
Notation S := (t K E C).
Notation inv := (inv F).
Notation no_connector := (@None (Connector C)).
Implicit Types (s : S) (o : Z) (r : SRequest) (id : string) (k : string → Z) (w : option SchedulerOutput).

(** ** Drafts *)
Lemma inv_set_spec k s o r x : inv k [] [] s → objs s !! o = Some r → inv k [] [] (put_obj o (set_spec x r) s).
Proof.
  intros Hi Hr. eapply inv_put; [exact Hi|exact Hr|done|by intros []; split|..].
  - intros Ho. destruct (inv_run_obj _ _ _ _ _ _ Hi Ho) as (r' & Hr' & _ & _ & [] & _). simplify_eq. by split.
  - intros (y & -> & Hy)%list_elem_of_fmap. pose proof (inv_waiting _ _ _ _ _ Hi) as Hw. rewrite Forall_forall in Hw.
    destruct (Hw y Hy) as (_ & r' & Hr' & Hok). simplify_eq. by split.
  - rewrite app_nil_r. intros (y & -> & Hy)%list_elem_of_fmap. pose proof (inv_skipped _ _ _ _ _ Hi) as Hw. rewrite Forall_forall in Hw.
    destruct (Hw y Hy) as (_ & r' & Hr' & Hok). by simplify_eq.
Qed.

Lemma update_draft_run k s drafts : inv k [] [] s →
  wpx F (update_draft_token_ids should_advance validate_tokens drafts) s (λ _ s',
    inv k [] [] s' ∧ cfg s' = cfg s ∧ requests s' = requests s ∧ running s' = running s ∧ tokens_as s s').
Proof.
  intros Hi. unfold update_draft_token_ids.
  eapply (wpx_for_each _ _ _ _ (λ _ s', inv k [] [] s' ∧ cfg s' = cfg s ∧ requests s' = requests s ∧ running s' = running s ∧ tokens_as s s'));
    [split_and!; try done; apply tokens_as_refl| |done].
  intros _ [id spec] _ s' _ (Hi' & Hc & Hq & Hr & Ht). wpx_steps. unfold lookup_request. destruct (od_get id (requests s')) as [o|] eqn:Hget; [|by apply wpx_ret].
  destruct (inv_get F _ _ _ _ _ _ Hi' Hget) as (r & Hro & _ & Hok). wpx_step. apply (wpx_obj _ _ _ r); [done|]. rewrite (rq_live _ _ _ Hok).
  assert (∀ x, wpx F (mutate o (set_spec x)) s' (λ _ s', inv k [] [] s' ∧ cfg s' = cfg s ∧ requests s' = requests s ∧ running s' = running s ∧
    tokens_as s s')) as Hset.
  { intros x. apply (wpx_mutate _ _ _ _ r); [done|]. split_and!; try done; [by apply inv_set_spec|].
    eapply tokens_as_trans; [exact Ht|]. by apply (tokens_as_put _ _ r). }
  destruct (is_prefill_chunk r); [case_bool_decide; [apply Hset|by apply wpx_ret]|]. wpx_step.
  destruct (should_advance r) eqn:Hadv; [destruct (advance_grammar r Hadv) as [-> ->]|]; wpx_steps; apply Hset.
Qed.

(** ** The states of the engine loop *)
Record initial s : Prop := {
  in_cfg : cfg_ok (cfg s) ∧ async_scheduling (cfg s) = false ∧ 0 ≤ max_num_running_reqs (cfg s);
  in_requests : requests s = [] ∧ running s = [];
  in_queues : waiting s = create_request_queue (policy (cfg s)) ∧ skipped_waiting s = create_request_queue (policy (cfg s));
  in_managers : kv_inv (F := F) ∅ (kv s) ∧ enc_inv (F := F) (encoder s)
}.

(** The requests that the model runner sampled for *)
Definition served (sched : SchedulerOutput) (out : ModelRunnerOutput) : list string :=
  filter (λ id, sampled out id ≠ []) (out_num_scheduled_tokens sched).*1.

(** One call of the engine, in a state with or without an output that is awaited, and
    the requests it serves *)
Inductive engine_step : option SchedulerOutput → S → list string → option SchedulerOutput → S → Prop :=
  | es_add w s o r u s' :
      new_request F s o r → (∀ sched, w = Some sched → request_id r ∉ (out_num_scheduled_tokens sched).*1) →
      add_request no_connector block_hasher o (put_obj o r s) = (Ret u, s') → engine_step w s [] w s'
  | es_finish w s ids st out s' :
      is_finished st = true → finish_requests no_connector ids st s = (Ret out, s') → engine_step w s [] w s'
  | es_drafts w s drafts u s' :
      update_draft_token_ids should_advance validate_tokens drafts s = (Ret u, s') → engine_step w s [] w s'
  | es_pause w s p : engine_step w s [] w (with_pause p s)
  | es_reset_encoder w s u s' : reset_encoder_cache s = (Ret u, s') → engine_step w s [] w s'
  | es_reset s a b u s' : reset_prefix_cache no_connector a b s = (Ret u, s') → engine_step None s [] None s'
  | es_schedule s out s' : schedule ec no_connector s = (Ret out, s') → engine_step None s [] (Some out) s'
  | es_update sched out s res s' :
      all_answered sched out s →
      update_from_output no_connector block_hasher should_advance accept_tokens sched out s = (Ret res, s') →
      engine_step (Some sched) s (served sched out) None s'.

Inductive run w0 s0 : list string → option SchedulerOutput → S → Prop :=
  | run_refl : run w0 s0 [] w0 s0
  | run_step l w s l' w' s' : run w0 s0 l w s → engine_step w s l' w' s' → run w0 s0 (l ++ l') w' s'.
Definition reachable w s : Prop := ∃ s0 l, initial s0 ∧ run None s0 l w s.

Record consistent w s : Prop := {
  cs_sync : async_scheduling (cfg s) = false;
  cs_inv : inv (match w with Some sched => pending (cfg s) sched | None => idle end) [] [] s;
  cs_awaited sched : w = Some sched → awaited sched s
}.

Lemma wpx_returns {A} (m : M S A) s (Q : A → S → Prop) a s' : wpx F m s Q → m s = (Ret a, s') → Q a s'.
Proof. unfold wpx. intros HQ Hm. by rewrite Hm in HQ. Qed.

Lemma initial_consistent s : initial s → consistent None s.
Proof.
  intros [(Hc & Hsync & Hmax) [Hreq Hrun] [Hw Hs] [Hk He]]. split; [done| |done].
  destruct (q_wf_create (policy (cfg s))) as [Hwf Hnil]. split; rewrite ?Hw, ?Hs, ?Hrun, ?Hreq, ?Hnil; try done; try constructor; try done.
  - unfold parts. by rewrite Hw, Hs, Hrun, Hnil.
  - unfold live_ids. by rewrite Hrun.
Qed.

Lemma awaited_same sched s s' : awaited sched s → requests s' = requests s → running s' = running s → awaited sched s'.
Proof. intros [H1 H2 H3] Hq Hr. split; [done|done|]. rewrite Hq, Hr. done. Qed.

Lemma finish_awaited sched k s s' ids : awaited sched s → inv k [] [] s →
  requests s' = filter (λ p, p.1 ∉ targets s ids) (requests s) → running s' = filter (.∉ (doomed s ids).*1) (running s) → awaited sched s'.
Proof.
  intros [H1 H2 H3] Hi Hq Hr. split; [done|done|]. intros id o Hid. rewrite Hq, Hr. intros [Hn Hin]%od_get_elem%list_elem_of_filter.
  apply list_elem_of_filter. split; [|apply (H3 id); [done|apply od_elem_get; [apply Hi|done]]].
  rewrite (doomed_iff F k s ids (id, o)) by done. done.
Qed.

Lemma schedule_awaited s out s' : output_ok s out s' → awaited out s'.
Proof.
  intros Ho. split; [apply Ho|intros id n Hin; by destruct (ok_entry _ _ _ Ho _ _ Hin)|].
  intros id o ([id' n] & -> & Hin)%list_elem_of_fmap Hget. destruct (ok_entry _ _ _ Ho _ _ Hin) as (_ & o' & Hget' & Hrun). simpl in *. congruence.
Qed.

Definition times id (l : list string) : Z := Z.of_nat (length (filter (.= id) l)).
(** What a step does to the tokens: no request gets fewer, and one that stays gets more
    when it is served. *)
Definition tokens_step s (l : list string) s' : Prop := ∀ o r, objs s !! o = Some r →
  ∃ r', objs s' !! o = Some r' ∧ info r' = info r ∧ num_tokens r ≤ num_tokens r' ∧
    ∀ id, od_get id (requests s') = Some o → od_get id (requests s) = Some o ∧ num_tokens r + times id l ≤ num_tokens r'.

Lemma tokens_step_as s s' : tokens_as s s' → (∀ id o, is_Some (objs s !! o) → od_get id (requests s') = Some o → od_get id (requests s) = Some o) → tokens_step s [] s'.
Proof.
  intros Ht Hsub o r Hr. destruct (Ht o r Hr) as (r' & Hr' & Hi & Hn). exists r'. unfold num_tokens, times. rewrite Hn. split_and!; [done..|].
  intros id Hget. split; [by eapply Hsub|]. simpl. lia.
Qed.
Lemma tokens_step_same s s' : tokens_as s s' → requests s' = requests s → tokens_step s [] s'.
Proof. intros Ht Hq. apply tokens_step_as; [done|]. by rewrite Hq. Qed.

Lemma times_served sched out id : NoDup (out_num_scheduled_tokens sched).*1 →
  times id (served sched out) ≤ 1 ∧ (times id (served sched out) ≠ 0 → id ∈ (out_num_scheduled_tokens sched).*1 ∧ sampled out id ≠ []).
Proof.
  intros Hnd. unfold times, served. rewrite list_filter_filter. set (l := (out_num_scheduled_tokens sched).*1) in *. clearbody l.
  induction l as [|x l IH]; [done|]. apply NoDup_cons in Hnd as [Hx Hnd]. specialize (IH Hnd). rewrite filter_cons. case_decide as Hd.
  - destruct Hd as [-> Hs]. rewrite (filter_none _ l); [|intros y Hy [-> _]; done]. simpl. split; [lia|]. intros _. split; [by left|done].
  - destruct IH as [H1 H2]. split; [done|]. intros Hne. destruct (H2 Hne). split; [by right|done].
Qed.

Lemma update_tokens sched out s res s' :
  awaited sched s → inv (pending (cfg s) sched) [] [] s → (∀ id o, od_get id (requests s') = Some o → od_get id (requests s) = Some o) →
  tokens_more s s' → updated F should_advance accept_tokens sched out res s s' → tokens_step s (served sched out) s'.
Proof.
  intros Ha Hi Hsub Hmore Hup o r Hr. destruct (Hmore o r Hr) as (r' & Hr' & Hinf & Hn). exists r'. split_and!; [done..|]. intros id Hget. split; [by apply Hsub|].
  destruct (times_served sched out id) as [Hle Hs]; [apply Ha|]. destruct (decide (times id (served sched out) = 0)) as [->|Hne]; [lia|].
  destruct (Hs Hne) as [Hin Hsam]. specialize (Hup id o r (Hsub _ _ Hget) Hr). rewrite decide_True in Hup by done.
  destruct Hup as (l & stopped & r2 & Hr2 & Hse & Hst & _). destruct stopped; [destruct Hst; congruence|]. rewrite Hr' in Hr2. simplify_eq.
  destruct (se_going _ _ _ _ _ _ _ _ _ _ _ Hse eq_refl) as (-> & _). unfold num_tokens. rewrite (se_tokens _ _ _ _ _ _ _ _ _ _ _ Hse), length_app.
  destruct (sampled out id); [done|]. simpl. lia.
Qed.

Lemma engine_step_ok w s l w' s' : consistent w s → engine_step w s l w' s' → consistent w' s' ∧ cfg s' = cfg s ∧ tokens_step s l s'.
Proof.
  intros [Hsync Hi Ha] Hstep.
  destruct Hstep as [w s o r u s' Hnew Hfresh Hrun|w s ids st out s' Hst Hrun|w s drafts u s' Hrun|w s p|w s u s' Hrun|s a b u s' Hrun|s out s' Hrun|sched out s res s' Hans Hrun].
  - apply (wpx_returns _ _ _ _ _ (add_request_run F block_hasher _ _ _ _ Hi Hnew)) in Hrun as (Hi' & Hc & Hq & Hr & Ho). split_and!; [split| |]; try by rewrite Hc.
    + intros sched ->. destruct (Ha _ eq_refl) as [H1 H2 H3]. split; [done|done|]. intros id o' Hid. rewrite Hq, od_get_app, Hr.
      destruct (od_get id (requests s)) eqn:Hget; [intros [= <-]; by apply (H3 id)|]. simpl. case_decide as Hd; [|done]. subst id. by destruct (Hfresh _ eq_refl).
    + apply tokens_step_as.
      * intros x rx Hx. exists rx. rewrite Ho, lookup_insert_ne; [done|]. intros ->. by rewrite (nr_obj _ _ _ _ Hnew) in Hx.
      * intros id x [rx Hx]. rewrite Hq, od_get_app. destruct (od_get id (requests s)); [done|]. simpl. case_decide; [|done]. intros [= ->]. by rewrite (nr_obj _ _ _ _ Hnew) in Hx.
  - apply (wpx_returns _ _ _ _ _ (finish_requests_run F _ _ ids _ Hi Hst)) in Hrun as (Hi' & Hc & Hq & Hr & Ht & _). split_and!; [split| |]; try by rewrite Hc.
    + intros sched ->. eapply finish_awaited; [by apply Ha|exact Hi|done|done].
    + apply tokens_step_as; [done|]. intros id o _. rewrite Hq. intros [_ Hin]%od_get_elem%list_elem_of_filter. apply od_elem_get; [apply Hi|done].
  - apply (wpx_returns _ _ _ _ _ (update_draft_run _ _ drafts Hi)) in Hrun as (Hi' & Hc & Hq & Hr & Ht). split_and!; [split| |]; try by rewrite Hc.
    + intros sched ->. eapply awaited_same; [by apply Ha|done|done].
    + by apply tokens_step_same.
  - split_and!; [split; [done|by destruct Hi; split|]|done|by apply tokens_step_same; [apply tokens_as_objs|]].
    intros sched ->. by eapply awaited_same; [by apply Ha|..].
  - unfold reset_encoder_cache in Hrun.
    eapply wpx_returns in Hrun; [|eapply (wpx_on_encoder F _ _ _ (λ _ s', ∃ e, s' = with_encoder e s ∧ enc_inv (F := F) e)); [apply encl_reset, Hi|]].
    + destruct Hrun as (e & -> & He). split_and!; [split; [done|by apply inv_with_encoder|]|done|by apply tokens_step_same; [apply tokens_as_objs|]].
      intros sched ->. by eapply awaited_same; [by apply Ha|..].
    + intros a x Hx. by exists x.
  - apply (wpx_returns _ _ _ _ _ (reset_prefix_cache_run F _ _ a b Hi)) in Hrun as (Hi' & Hc & Hq & Ht & _). split_and!; [by split; [rewrite Hc|..]|done|by apply tokens_step_same].
  - apply (wpx_returns _ _ _ _ _ (schedule_run F ec _ Hi)) in Hrun as (Hi' & Hc & Hq & _ & Hout). split_and!; [split| |]; try by rewrite Hc.
    + intros sched Heq. simplify_eq. by eapply schedule_awaited.
    + apply tokens_step_same; [apply Hout|done].
  - apply (wpx_returns _ _ _ _ _ (update_from_output_run F block_hasher should_advance accept_tokens advance_grammar sched out s Hi Hsync (Ha _ eq_refl) Hans))
      in Hrun as (Hi' & Hc & Hsub & Hmore & Hup). split_and!; [by split; [rewrite Hc|..]|done|]. eapply update_tokens; [by apply Ha|done..].
Qed.

Lemma run_consistent w0 s0 l w s : consistent w0 s0 → run w0 s0 l w s → consistent w s ∧ cfg s = cfg s0.
Proof.
  intros H0 Hrun. induction Hrun as [|l w s l' w' s' _ [IH Hc] Hstep]; [done|]. destruct (engine_step_ok _ _ _ _ _ IH Hstep) as (? & Hc' & _). split; [done|congruence].
Qed.
Lemma reachable_consistent w s : reachable w s → consistent w s.
Proof. intros (s0 & l & H0 & Hrun). by destruct (run_consistent _ _ _ _ _ (initial_consistent _ H0) Hrun). Qed.

Lemma run_tokens w0 s0 l w s : consistent w0 s0 → run w0 s0 l w s → tokens_step s0 l s.
Proof.
  intros H0 Hrun. induction Hrun as [|l w s l' w' s' Hr IH Hstep].
  - apply tokens_step_same; [apply tokens_as_refl|done].
  - destruct (run_consistent _ _ _ _ _ H0 Hr) as [Hc _]. destruct (engine_step_ok _ _ _ _ _ Hc Hstep) as (_ & _ & Ht).
    intros o r Hor. destruct (IH o r Hor) as (r1 & Hr1 & Hi1 & Hn1 & Hl1). destruct (Ht o r1 Hr1) as (r2 & Hr2 & Hi2 & Hn2 & Hl2).
    exists r2. split_and!; [done|congruence|lia|]. intros id Hget. destruct (Hl2 id Hget) as [Hget1 Ha]. destruct (Hl1 id Hget1) as [Hget0 Hb].
    split; [done|]. unfold times in *. rewrite filter_app, length_app. lia.
Qed.

(** ** What the engine can rely on *)

(** C26: in every state that a synchronous engine without connector, LoRA limit or
    streaming sessions, over managers with the laws of [SchedulerInv], can reach, by any interleaving of its calls for requests whose
    minimum of output tokens fits the context: the ids of the dictionary are distinct and
    every request is in exactly one of the running list, the waiting queue and the queue of
    the skipped ones; at most [max_num_running_reqs] requests run; a request runs exactly
    if its status says so, is within the context, and only then may hold KV-cache blocks;
    a waiting request is unfinished, has nothing computed and is queued under its current
    priority and arrival time. *)
Theorem scheduler_queues_consistent w s :
  reachable w s →
  NoDup (requests s).*1 ∧ NoDup (running s ++ queue_oids (waiting s) ++ queue_oids (skipped_waiting s)) ∧
  (requests s).*2 ≡ₚ running s ++ queue_oids (waiting s) ++ queue_oids (skipped_waiting s) ∧
  Z.of_nat (length (running s)) ≤ max_num_running_reqs (cfg s) ∧
  (∀ o, o ∈ running s → holds s (λ r, status r = RUNNING ∧ 0 ≤ num_computed_tokens r < max_model_len (cfg s)) o) ∧
  (∀ x, x ∈ q_items (waiting s) ++ q_items (skipped_waiting s) →
     holds s (λ r, status r ≠ RUNNING ∧ is_finished (status r) = false ∧ num_computed_tokens r = 0 ∧ x = queue_key (oid x) r) (oid x)) ∧
  kv_inv (F := F) (live_ids s) (kv s).
Proof.
  intros [_ Hi _]%reachable_consistent. pose proof (inv_nodup _ _ _ _ _ Hi) as Hnd. pose proof (inv_parts _ _ _ _ _ Hi) as Hp.
  unfold parts in Hnd, Hp. rewrite app_nil_r in Hnd, Hp. split_and!; [apply Hi|done|done|apply Hi|..|apply Hi].
  - intros o Ho. destruct (inv_run_obj _ _ _ _ _ _ Hi Ho) as (r & Hr & _ & _ & [Hst Hk Hlen _] & _). exists r. split_and!; [done..|lia|done].
  - intros x [Hx|Hx]%elem_of_app.
    + pose proof (inv_waiting _ _ _ _ _ Hi) as Hw. rewrite Forall_forall in Hw. destruct (Hw x Hx) as [(r & Hr & Hkey) (r' & Hr' & [Hst Hc])]. simplify_eq.
      exists r. split; [done|]. split_and!; [by destruct Hst; congruence|by destruct Hst as [-> | ->]|done|done].
    + pose proof (inv_skipped _ _ _ _ _ Hi) as Hw. rewrite Forall_forall in Hw. destruct (Hw x Hx) as [(r & Hr & Hkey) (r' & Hr' & [Hst Hc])]. simplify_eq.
      exists r. split; [done|]. split_and!; [by destruct Hst; congruence|by destruct Hst as [-> | ->]|done|done].
Qed.

(** Every call returns, or raises what a manager raised. *)
Definition safe {A} (m : M S A) s : Prop := wpx F m s (λ _ _, True).

Lemma operations_safe w s :
  reachable w s →
  (∀ o r, new_request F s o r → safe (add_request no_connector block_hasher o) (put_obj o r s)) ∧
  (∀ ids st, is_finished st = true → safe (finish_requests no_connector ids st) s) ∧
  (∀ drafts, safe (update_draft_token_ids should_advance validate_tokens drafts) s) ∧
  (∀ reset_running reset_connector, safe (reset_prefix_cache no_connector reset_running reset_connector) s) ∧
  (w = None → safe (schedule ec no_connector) s) ∧
  (∀ sched out, w = Some sched → all_answered sched out s →
     safe (update_from_output no_connector block_hasher should_advance accept_tokens sched out) s).
Proof.
  intros [Hsync Hi Ha]%reachable_consistent.
  assert (∀ {A} (m : M S A) s (Q : A → S → Prop), wpx F m s Q → safe m s) as Hsafe by (intros A m s1 Q HQ; by eapply wpx_mono).
  split_and!.
  - intros o r Hnew. eapply Hsafe. by eapply add_request_run.
  - intros ids st Hst. eapply Hsafe. by eapply finish_requests_run.
  - intros drafts. eapply Hsafe. by eapply update_draft_run.
  - intros a b. eapply Hsafe. by eapply reset_prefix_cache_run.
  - intros ->. eapply Hsafe. by apply schedule_run.
  - intros sched out -> Hans. eapply Hsafe. eapply update_from_output_run; try done. by apply Ha.
Qed.

(** C33: a request is served to its end. Along any run of a synchronous engine without
    connector, LoRA limit or streaming sessions, over managers with the laws of
    [SchedulerInv], from any reachable state, for requests
    whose minimum of output tokens fits the context, with any other requests coming, going
    and being preempted: a request that has [n] tokens and is still there at the end was
    served (got sampled tokens) fewer than [max_model_len - n] times; so once served that
    often it has finished. *)
Theorem requests_finish w0 s0 l w s id o r :
  reachable w0 s0 → run w0 s0 l w s → od_get id (requests s0) = Some o → objs s0 !! o = Some r →
  od_get id (requests s) = Some o → times id l < max_model_len (cfg s0) - num_tokens r.
Proof.
  intros Hreach Hrun Hget0 Hr0 Hget. pose proof (reachable_consistent _ _ Hreach) as H0.
  destruct (run_tokens _ _ _ _ _ H0 Hrun o r Hr0) as (r' & Hr' & _ & _ & Hl). destruct (Hl id Hget) as [_ Hle].
  destruct (run_consistent _ _ _ _ _ H0 Hrun) as [[_ Hi _] Hc]. destruct (inv_get F _ _ _ _ _ _ Hi Hget) as (r2 & Hr2 & _ & Hok). simplify_eq.
  pose proof (rq_tokens _ _ _ Hok) as [_ Hlt]. rewrite Hc in Hlt. lia.
Qed.
End reach.
