(* ===== verification/SchedulerKV.v ===== *)
(** * The scheduler over the modelled managers

    [KVLaws] for the KV-cache manager with one full-attention group (Quest's included) and
    prefix caching off, and [EncoderLaws] for the encoder cache and text requests. Neither
    ever raises: what the check of free blocks admits, the allocation gets. *)

From S2P Require Import Prelude OrderedDict FreeQueue BlockHash BlockPool BlockPoolProps BlockPoolCache CacheHit.
Import BlockPool.
From S2P Require Import SingleType SingleTypeProps SingleTypeStatic SingleTypeOwn SingleTypeAdmit CoordinatorOwn.
From S2P Require Coordinator KVCacheManager EncoderCache.
From S2P Require Import SchedRequest Raises Scheduler SchedulerInv.

Open Scope Z_scope.

Definition never : exn → Prop := λ _, False.
Notation kvm := KVCacheManager.t.
Implicit Types (live : gset string) (s : SingleType.t) (p : pool) (l bs : list ref) (c : coord) (m : kvm) (req : KRequest).

(** ** One full-attention manager *)
Record full_mgr live s p l : Prop := {
  fm_own : own (λ _, 0) s p l;
  fm_class : SingleType.cls s = FullAttentionManager;
  fm_size : 0 < block_size s;
  fm_uncached : num_cached_block s = ∅;
  fm_live r : list_of s r ≠ [] → r ∈ live
}.

(** Nothing is out of the window of full attention. *)
Lemma full_skipped s p n : SingleType.cls s = FullAttentionManager → get_num_skipped_tokens n (s, p) = (Ret 0, (s, p)).
Proof. unfold SingleType.cls, get_num_skipped_tokens. intros Hc. unfold bind, self, gets. simpl. by destruct (kv_cache_spec s). Qed.

Lemma full_num_run live s p l r n tot nm cap : full_mgr live s p l →
  ∃ k, SingleType.get_num_blocks_to_allocate r n [] tot nm cap (s, p) = (Ret k, (s, p)) ∧
    (cap = false → k = Z.max 0 (ceil_div n (block_size s) - Z.of_nat (length (list_of s r)))).
Proof.
  intros [Ho Hc Hbs Hun _].
  assert (∃ k, base_num_blocks_to_allocate r n [] tot nm cap (s, p) = (Ret k, (s, p)) ∧
    (cap = false → k = Z.max 0 (ceil_div n (block_size s) - Z.of_nat (length (list_of s r))))) as (k & Hk & Heq).
  { unfold base_num_blocks_to_allocate. erewrite (run_bind _ _ (s, p) s (s, p)) by done. erewrite run_bind by by apply cdiv_run. cbv zeta.
    rewrite bool_decide_false by (rewrite Hun, lookup_empty; by intros [? ?]). erewrite run_bind by by apply full_skipped.
    erewrite run_bind by by apply floordiv_run. erewrite run_bind by done. rewrite Z.div_0_l by lia. eexists. split; [done|].
    intros ->. unfold _get_num_evictable_blocks. rewrite drop_nil. simpl. destruct (max_admission_blocks_per_request s); lia. }
  exists k. split; [|done]. unfold SingleType.get_num_blocks_to_allocate. erewrite (run_bind _ _ (s, p) s (s, p)) by done.
  unfold SingleType.cls in Hc. by destruct (kv_cache_spec s).
Qed.

Lemma full_remove_run s p r n : SingleType.cls s = FullAttentionManager → SingleType.remove_skipped_blocks r n (s, p) = (Ret tt, (s, p)).
Proof.
  intros Hc. assert (base_remove_skipped_blocks r n (s, p) = (Ret tt, (s, p))) as Hb.
  { unfold base_remove_skipped_blocks. erewrite run_bind by by apply full_skipped. done. }
  unfold SingleType.remove_skipped_blocks. erewrite (run_bind _ _ (s, p) s (s, p)) by done. unfold SingleType.cls in Hc. by destruct (kv_cache_spec s).
Qed.

Lemma full_allocate_run live s p l r n nm : full_mgr live s p l →
  Z.max 0 (ceil_div n (block_size s) - Z.of_nat (length (list_of s r))) ≤ Z.of_nat (length l) →
  ∃ nb s' p' l', SingleType.allocate_new_blocks r n nm (s, p) = (Ret nb, (s', p')) ∧ full_mgr ({[ r ]} ∪ live) s' p' l'.
Proof.
  intros [Ho Hc Hbs Hun Hlive] Hle.
  assert (∃ nb s' p' l', base_allocate_new_blocks r n (s, p) = (Ret nb, (s', p')) ∧ full_mgr ({[ r ]} ∪ live) s' p' l') as (nb & s' & p' & l' & Hrun & Hf).
  { unfold base_allocate_new_blocks. destruct (blocks_of_run s p r) as (s1 & Hrun & Hb1 & Ha1 & Hc1). erewrite run_bind by exact Hrun.
    assert (own (λ _, 0) s1 p l) as Ho1 by (eapply (own_reorder _ s p l r (list_of s r) 0); [done|by rewrite app_nil_r|done|apply Ha1]).
    assert (list_of s1 r = list_of s r) as Hl1 by (rewrite Hb1, lookup_insert_eq; done).
    assert (kv_cache_spec s1 = kv_cache_spec s ∧ block_size s1 = block_size s) as [Hsp Hb] by (split; apply Ha1).
    erewrite (run_bind _ _ (s1, p) s1 (s1, p)) by done. rewrite Hb. erewrite run_bind by by apply cdiv_run. cbv zeta. case_bool_decide as Hn.
    - exists [], s1, p, l. split; [done|]. split; [done|unfold SingleType.cls; by rewrite Hsp|lia|congruence|].
      intros r'. rewrite Hb1, lookup_insert. case_decide; [set_solver|]. intros Hne. apply elem_of_union_r. by apply Hlive.
    - set (need := ceil_div n (block_size s) - Z.of_nat (length (list_of s r))) in *. assert (0 ≤ need) as H0 by lia.
      pose proof (grow_run (λ _, 0) (λ _, Z.le_refl 0) s1 p l r need Ho1 H0) as Hg.
      rewrite decide_True in Hg by lia. destruct Hg as (s' & p' & Hg1 & Hg2 & Ho' & _ & Hb' & Ha' & Hc').
      eexists _, s', p', _. erewrite run_bind by exact Hg1. erewrite run_bind by exact Hg2. split; [done|].
      assert (kv_cache_spec s' = kv_cache_spec s1 ∧ block_size s' = block_size s1) as [Hsp' Hbs'] by (split; apply Ha').
      split; [done|unfold SingleType.cls; by rewrite Hsp', Hsp|lia|congruence|].
      intros r'. rewrite Hb', lookup_insert. case_decide; [set_solver|]. rewrite Hb1, lookup_insert_ne by done.
      intros Hne. apply elem_of_union_r. by apply Hlive. }
  exists nb, s', p', l'. split; [|done]. unfold SingleType.allocate_new_blocks. erewrite (run_bind _ _ (s, p) s (s, p)) by done.
  unfold SingleType.cls in Hc. by destruct (kv_cache_spec s).
Qed.

Lemma full_free_run live s p l r : full_mgr live s p l →
  ∃ s' p' l', SingleType.free r (s, p) = (Ret tt, (s', p')) ∧ full_mgr (live ∖ {[ r ]}) s' p' l'.
Proof.
  intros [Ho Hc Hbs Hun Hlive]. set (s1 := with_blocks (delete r (req_to_blocks s)) s).
  destruct (release_run (λ _, 0) (λ _, Z.le_refl 0) s p l s1 r [] (rev (list_of s r)) Ho) as (p' & l' & Hrun & Ho' & _).
  - by right.
  - done.
  - split; [by intros b ?%not_elem_of_nil|constructor].
  - eapply list_ok_perm; [symmetry; apply Permutation_rev|by eapply own_list].
  - intros b. by rewrite <- Permutation_rev.
  - intros i _. assert (count_in (Blk i) [] = 0) as -> by done. by rewrite (count_in_perm _ (rev _) (list_of s r)) by (symmetry; apply Permutation_rev).
  - assert (base_free r (s, p) = (Ret tt, (with_cached (delete r (num_cached_block s)) s1, p'))) as Hb.
    { unfold base_free. erewrite (run_bind _ _ (s, p) s (s, p)) by done. erewrite (run_bind _ _ (s, p) tt (s1, p)) by done.
      by erewrite run_bind by (apply on_pool_run; exact Hrun). }
    eexists _, p', l'. split.
    + unfold SingleType.free. erewrite (run_bind _ _ (s, p) s (s, p)) by done. unfold SingleType.cls in Hc. destruct (kv_cache_spec s); try done; erewrite run_bind by done; exact Hb.
    + split; [by eapply own_same|done|done|by rewrite Hun, delete_empty|]. intros r'. simpl. rewrite lookup_delete. case_decide; [done|].
      intros Hne. apply elem_of_difference. split; [by apply Hlive|set_solver].
Qed.

(** ** The coordinator of one group *)
Definition full_coord live c : Prop :=
  ∃ s l, managers c = [s] ∧ Coordinator.kind c = Coordinator.NoPrefixCache ∧ full_mgr live s (cpool c) l.

Lemma on_manager_run {A} c s (f : M (SingleType.t * pool) A) a s' p' :
  managers c = [s] → f (s, cpool c) = (Ret a, (s', p')) → Coordinator.on_manager 0 f c = (Ret a, Coordinator.with_managers [s'] p' c).
Proof. intros Hm Hf. unfold Coordinator.on_manager. rewrite Hm. simpl. by rewrite Hf. Qed.
Lemma with_managers_same c s : managers c = [s] → Coordinator.with_managers [s] (cpool c) c = c.
Proof. intros Hm. destruct c. simpl in *. by subst. Qed.
Lemma ids_run c s : managers c = [s] → Coordinator.manager_ids c = (Ret [0], c).
Proof. intros Hm. unfold Coordinator.manager_ids, gets. by rewrite Hm. Qed.
Lemma cross_run c s : managers c = [s] → SingleType.cls s = FullAttentionManager → Coordinator.is_cross 0 c = (Ret false, c).
Proof. intros Hm Hc. unfold Coordinator.is_cross, gets. rewrite Hm. simpl. by rewrite Hc. Qed.

Lemma collect_one {T A B} (x : A) (f : A → M T B) (c c' : T) b : f x c = (Ret b, c') → for_collect [x] f c = (Ret [b], c').
Proof. intros Hx. simpl. by erewrite run_bind by exact Hx. Qed.
Lemma each_one {T A} (x : A) (f : A → M T unit) (c c' : T) : f x c = (Ret tt, c') → for_each [x] f c = (Ret tt, c').
Proof. intros Hx. simpl. by erewrite run_bind by exact Hx. Qed.

Section coord.
Context live c s l (Hm : managers c = [s]) (Hk : Coordinator.kind c = Coordinator.NoPrefixCache) (Hf : full_mgr live s (cpool c) l).

Lemma coord_num_run r n enc tot nm cap : ∃ k,
  Coordinator.get_num_blocks_to_allocate r n [[]] enc tot nm cap c = (Ret k, c) ∧
  (cap = false → k = Z.max 0 (ceil_div n (block_size s) - Z.of_nat (length (list_of s r)))).
Proof.
  destruct (full_num_run live s (cpool c) l r n tot nm cap Hf) as (k & Hrun & Heq). exists k. split; [|done].
  unfold Coordinator.get_num_blocks_to_allocate. erewrite run_bind by by eapply ids_run. erewrite run_bind.
  2:{ apply collect_one. erewrite run_bind by (eapply cross_run; [done|apply Hf]). cbv iota. erewrite run_bind by done.
      rewrite (on_manager_run _ _ _ _ _ _ Hm Hrun), with_managers_same by done. done. }
  unfold total, ret. simpl. by rewrite Z.add_0_r.
Qed.
Lemma coord_remove_run r n : Coordinator.remove_skipped_blocks r n c = (Ret tt, c).
Proof.
  unfold Coordinator.remove_skipped_blocks. erewrite run_bind by by eapply ids_run. apply each_one.
  rewrite (on_manager_run _ s _ tt s (cpool c)); [by rewrite with_managers_same|done|]. apply full_remove_run, Hf.
Qed.
Lemma coord_step_run : Coordinator.new_step_starts c = (Ret tt, c).
Proof.
  unfold Coordinator.new_step_starts. erewrite run_bind by by eapply ids_run. apply each_one.
  rewrite (on_manager_run _ s _ tt s (cpool c)); [by rewrite with_managers_same|done|].
  unfold SingleType.new_step_starts, bind, self, gets. simpl. by rewrite (fm_class _ _ _ _ Hf).
Qed.
Lemma coord_allocate_run r n nm enc :
  Z.max 0 (ceil_div n (block_size s) - Z.of_nat (length (list_of s r))) ≤ get_num_free_blocks (cpool c) →
  ∃ nb c', Coordinator.allocate_new_blocks r n nm enc c = (Ret nb, c') ∧ full_coord ({[ r ]} ∪ live) c'.
Proof.
  rewrite (num_free _ l) by apply Hf. intros Hle.
  destruct (full_allocate_run live s (cpool c) l r n nm Hf Hle) as (nb & s' & p' & l' & Hrun & Hf').
  eexists [nb], _. split.
  - unfold Coordinator.allocate_new_blocks. erewrite run_bind by by eapply ids_run. apply collect_one.
    erewrite run_bind by (eapply cross_run; [done|apply Hf]). by apply (on_manager_run _ _ _ _ _ _ Hm Hrun).
  - by exists s', l'.
Qed.
Lemma coord_free_run r : ∃ c', Coordinator.free r c = (Ret tt, c') ∧ full_coord (live ∖ {[ r ]}) c'.
Proof.
  destruct (full_free_run live s (cpool c) l r Hf) as (s' & p' & l' & Hrun & Hf'). eexists. split.
  - unfold Coordinator.free. erewrite run_bind by by eapply ids_run. apply each_one. by apply (on_manager_run _ _ _ _ _ _ Hm Hrun).
  - by exists s', l'.
Qed.
Lemma coord_common_run r : Coordinator.get_num_common_prefix_blocks r c = (Ret [0], c).
Proof.
  unfold Coordinator.get_num_common_prefix_blocks. erewrite (run_bind _ _ c Coordinator.NoPrefixCache c) by (unfold gets; by rewrite Hk).
  erewrite run_bind by by eapply ids_run. done.
Qed.
Lemma coord_take_run : ∃ ids c', (ids <- Coordinator.manager_ids ;;
  idss <- for_collect ids (λ i, Coordinator.on_manager i SingleType.take_new_block_ids) ;; ret (concat idss)) c = (Ret ids, c') ∧ full_coord live c'.
Proof.
  eexists _, _. split.
  - erewrite run_bind by by eapply ids_run. erewrite run_bind; [done|]. apply collect_one. by apply (on_manager_run _ s).
  - exists (with_new_ids [] s), l. split_and!; [done..|]. destruct Hf. split; try done. by eapply own_same.
Qed.
(** Without holders every block but the null block is free. *)
Lemma full_all_free : live = ∅ → Z.of_nat (length l) = num_gpu_blocks (cpool c) - 1.
Proof.
  intros Hlive. pose proof (fm_own _ _ _ _ Hf) as Ho. pose proof (ow_pool _ _ _ _ Ho) as Hp.
  assert (l ≡ₚ Blk <$> seqZ 1 (num_gpu_blocks (cpool c) - 1)) as Hperm.
  { apply NoDup_Permutation; [by eapply free_list_nodup|apply NoDup_fmap; [by intros ? ? [= ->]|apply NoDup_seqZ]|]. intros b.
    rewrite list_elem_of_fmap. setoid_rewrite elem_of_seqZ. split.
    - intros Hb. destruct (proj1 (pi_free _ _ _ Hp b) (or_introl Hb)) as (i & -> & Hi & Hi0 & _). unfold in_pool in Hi. exists i. split; [done|lia].
    - intros (i & -> & Hi). apply (in_free_list (cpool c)); [done|unfold in_pool; lia|lia|]. rewrite (ow_refs _ _ _ _ Ho) by (unfold in_pool; lia).
      destruct (decide (held (req_to_blocks s) i = 0)) as [|(r & bs & Hr & Hin)%held_elem]; [lia|]. exfalso.
      assert (r ∈ live) as Hbad; [|rewrite Hlive in Hbad; by apply elem_of_empty in Hbad]. apply (fm_live _ _ _ _ Hf). rewrite Hr. simpl. by intros ->; apply not_elem_of_nil in Hin. }
  rewrite Hperm, length_fmap, length_seqZ. pose proof (pi_size _ _ _ Hp). lia.
Qed.
Lemma coord_reset_run : ∃ b c', Coordinator.on_block_pool BlockPool.reset_prefix_cache c = (Ret b, c') ∧ full_coord live c' ∧ (live = ∅ → b = true).
Proof.
  pose proof (fm_own _ _ _ _ Hf) as Ho. pose proof (reset_prefix_cache_spec (cpool c) l (ow_pool _ _ _ _ Ho)) as Hr.
  unfold Coordinator.on_block_pool, zoom. case_decide as Hall.
  - destruct Hr as (p' & -> & Hp' & Hcfg & Hcnt & _). eexists true, _. split_and!; [done| |done]. exists s, l. simpl. split_and!; [done..|].
    assert (num_gpu_blocks p' = num_gpu_blocks (cpool c)) as Hn by apply Hcfg.
    destruct Hf as [_ H1 H2 H3 H4]. split; try done. destruct Ho as [Op On Or Ol Oe]. split; try done.
    + intros i Hi Hi0. destruct (Hcnt (Blk i)) as (_ & -> & _). apply Or; [|done]. unfold in_pool in *. by rewrite <- Hn.
    + intros r bs Hb. eapply list_ok_config; [done|by eapply Ol].
  - rewrite Hr. eexists false, _. split_and!; [done|by exists s, l; rewrite ?Hm|]. intros Hlive. by destruct Hall; apply full_all_free.
Qed.
End coord.

(** ** The manager *)
Definition full_inv live m : Prop :=
  full_coord live (KVCacheManager.coordinator m) ∧ KVCacheManager.enable_caching m = false ∧ KVCacheManager.num_kv_cache_groups m = 1%nat ∧
  (KVCacheManager.log_stats m = true → is_Some (KVCacheManager.prefix_cache_stats m)).

Lemma full_mono live live' m : live ⊆ live' → full_inv live m → full_inv live' m.
Proof.
  intros Hsub ((s & l & Hm & Hk & []) & Hrest). split; [|done]. exists s, l. split_and!; [done..|]. split; [done..|]. intros r Hr. apply Hsub. auto.
Qed.
Lemma full_on_coordinator {A} live live' m (f : M coord A) a c' :
  full_inv live m → f (KVCacheManager.coordinator m) = (Ret a, c') → full_coord live' c' →
  ∃ m', KVCacheManager.on_coordinator f m = (Ret a, m') ∧ full_inv live' m'.
Proof. intros (_ & Hrest) Hrun Hc. eexists. split; [unfold KVCacheManager.on_coordinator, zoom; by rewrite Hrun|done]. Qed.

Section slots.
Context (embeds_digest : list Z → bytes).

(** A request is given its blocks, or the state stays as it is. *)
Lemma full_slots_run live m req n given lookahead encoder full :
  full_inv live m → 0 < n → default KVCacheManager.EmptyBlocks given = KVCacheManager.EmptyBlocks →
  wpx never (KVCacheManager.allocate_slots embeds_digest n 0 given lookahead 0 false encoder full) (m, req) (λ res y,
    full_inv (match res with Some _ => {[ KVCacheManager.request_id req ]} ∪ live | None => live end) y.1 ∧ y.2 = req).
Proof.
  intros Hi Hn Hgiven. pose proof Hi as ((s & l & Hm & Hk & Hf) & Hcach & Hgr & Hst). unfold KVCacheManager.allocate_slots.
  rewrite bool_decide_false by lia. cbn [andb]. wpx_steps. rewrite Hgiven. cbv zeta. cbn [KVCacheManager.blocks]. rewrite Hgr. cbn [replicate].
  assert (∀ {A} (f : M coord A) a (Q : A → kvm * KRequest → Prop), f (KVCacheManager.coordinator m) = (Ret a, KVCacheManager.coordinator m) →
    Q a (m, req) → wpx never (KVCacheManager.on_self (KVCacheManager.on_coordinator f)) (m, req) Q) as Hread.
  { intros A f a Q Ha HQ. eapply wpx_run; [|exact HQ]. unfold KVCacheManager.on_self, KVCacheManager.on_coordinator, zoom. simpl. rewrite Ha. by destruct m. }
  apply (wpx_mono _ _ _ (λ _ y, y = (m, req))).
  { destruct full; [|done]. wpx_step.
    match goal with |- wpx _ (KVCacheManager.on_self (KVCacheManager.on_coordinator (Coordinator.get_num_blocks_to_allocate ?r ?n ?new ?enc ?tot ?nm ?cap))) _ _ =>
      destruct (coord_num_run _ _ _ _ Hm Hf r n enc tot nm cap) as (k & Hrun & _) end.
    eapply Hread; [exact Hrun|]. wpx_steps. done. }
  intros fits y ->. destruct fits; cbn [negb]; [|by apply wpx_ret].
  wpx_step. eapply Hread; [by eapply coord_remove_run|]. wpx_step.
  match goal with |- wpx _ (KVCacheManager.on_self (KVCacheManager.on_coordinator (Coordinator.get_num_blocks_to_allocate ?r ?n ?new ?enc ?tot ?nm ?cap))) _ _ =>
    destruct (coord_num_run _ _ _ _ Hm Hf r n enc tot nm cap) as (k & Hrun & Heq) end.
  eapply Hread; [exact Hrun|]. wpx_steps. case_bool_decide as Hfree; [by apply wpx_ret|]. cbn [negb orb]. rewrite bool_decide_false by lia. wpx_steps.
  rewrite (Heq eq_refl) in Hfree.
  match goal with |- wpx _ (KVCacheManager.on_self (KVCacheManager.on_coordinator (Coordinator.allocate_new_blocks ?r ?n ?nm ?enc))) _ _ =>
    destruct (coord_allocate_run _ _ _ _ Hm Hk Hf r n nm enc) as (nb & c' & Hrun' & Hc'); [lia|] end.
  eapply wpx_run; [unfold KVCacheManager.on_self, KVCacheManager.on_coordinator, zoom; simpl; rewrite Hrun'; reflexivity|].
  rewrite Hcach. cbn [negb orb]. wpx_steps. by split.
Qed.

#[global] Instance full_kv_laws : @KVLaws never kvm (kv_cache_manager embeds_digest).
Proof.
  refine {| kv_inv := full_inv; kv_hit := λ _ _ b n, b = KVCacheManager.EmptyBlocks ∧ n = 0 |}.
  - apply full_mono.
  - intros live m Hi. pose proof Hi as ((s & l & Hm & Hk & Hf) & _).
    destruct (full_on_coordinator live live m _ _ _ Hi (coord_step_run _ _ _ _ Hm Hf)) as (m' & Hrun & Hi'); [by exists s, l|]. by eapply wpx_run.
  - intros live m req Hi Hn. cbn. unfold KVCacheManager.get_computed_blocks. wpx_steps. destruct Hi as (Hc & Hcach & Hr). rewrite Hcach. cbn [negb orb]. apply wpx_ret.
    by split_and!.
  - intros live m req n la Hi Hlive Hn. eapply wpx_mono; [by apply full_slots_run|]. cbv beta. intros res [m' req'] [Hi' Heq]. simpl in Heq. subst req'. split; [|done].
    destruct res; [|done]. eapply full_mono; [|exact Hi']. set_solver.
  - intros live m req b hit n la enc full Hi Hlive [-> ->] Hcomp Hn. eapply wpx_mono; [by apply full_slots_run|]. cbv beta.
    intros res [m' req'] [Hi' Heq]. simpl in Heq. by subst req'.
  - intros live m req n Hi Hlive. cbn. unfold KVCacheManager.cache_blocks. wpx_steps. destruct Hi as (Hc & Hcach & Hr). rewrite Hcach. by apply wpx_ret.
  - intros live m req Hi. pose proof Hi as ((s & l & Hm & Hk & Hf) & _). destruct (coord_free_run _ _ _ _ Hm Hk Hf (KVCacheManager.request_id req)) as (c' & Hrun & Hc').
    destruct (full_on_coordinator live _ m _ _ _ Hi Hrun Hc') as (m' & Hrun' & Hi'). by eapply wpx_run.
  - intros live m id Hi. pose proof Hi as ((s & l & Hm & Hk & Hf) & _).
    destruct (full_on_coordinator live live m _ _ _ Hi (coord_common_run _ _ Hm Hk id)) as (m' & Hrun & Hi'); [by exists s, l|]. by eapply wpx_run.
  - intros live m Hi. pose proof Hi as ((s & l & Hm & Hk & Hf) & _). destruct (coord_take_run _ _ _ _ Hm Hk Hf) as (ids & c' & Hrun & Hc').
    destruct (full_on_coordinator live _ m _ _ _ Hi Hrun Hc') as (m' & Hrun' & Hi'). by eapply wpx_run.
  - intros live m Hi. pose proof Hi as ((s & l & Hm & Hk & Hf) & _). destruct (coord_reset_run _ _ _ _ Hm Hk Hf) as (b & c' & Hrun & Hc' & Hb).
    destruct (full_on_coordinator live _ m _ _ _ Hi Hrun Hc') as (m' & Hrun' & Hi'). cbn. unfold KVCacheManager.reset_prefix_cache. wpx_step.
    eapply wpx_run; [exact Hrun'|]. wpx_steps. destruct b; cbn [negb]; [|by apply wpx_ret; split]. wpx_step. destruct Hi' as (Hc2 & Hr1 & Hr2 & Hst).
    destruct (KVCacheManager.log_stats m') eqn:Hlog; [|wpx_steps; split; [|done]; split_and!; [done..|by rewrite Hlog]]. destruct (Hst eq_refl) as [st ->]. wpx_steps. split; [|done]. split_and!; try done.
Defined.
End slots.

(** ** The encoder cache with text requests *)
#[global] Instance text_encoder_laws : EncoderLaws never EncoderCache.EncoderCacheManager.t.
Proof.
  refine {| enc_inv := λ _, True; enc_ok := λ fs, fs = [] |}.
  all: try by intros x r i _ -> Hi; simpl in Hi; lia.
  - intros x r i b n _ -> Hi. simpl in Hi. lia.
  - intros x r _ Hr. cbn. unfold EncoderCache.EncoderCacheManager.free. wpx_steps.
    replace (EncoderCache.EncoderCacheManager.get_cached_input_ids (encoder_request r) x) with (@nil Z); [done|].
    unfold EncoderCache.EncoderCacheManager.get_cached_input_ids, EncoderCache.input_ids. cbn. by rewrite Hr.
  - intros x r i _ [_ Hi]%list_elem_of_filter. unfold EncoderCache.input_ids in Hi. apply elem_of_seqZ in Hi. cbn in Hi. rewrite length_fmap in Hi. lia.
  - by intros x _.
  - by intros x _.
Defined.

(** ** Construction *)
Definition full_spec (spec : KVCacheSpec) : Prop := spec_manager_map spec = FullAttentionManager ∧ 0 < spec_block_size spec.

Lemma full_manager_run spec mb ml dcp pcp p : full_spec spec → 0 < dcp → 0 < pcp →
  ∃ s, get_manager_for_kv_cache_spec spec mb ml false 0 dcp pcp p = (Ret s, p) ∧ SingleType.cls s = FullAttentionManager ∧ 0 < block_size s ∧
    num_cached_block s = ∅ ∧ req_to_blocks s = ∅ ∧ SingleType.null_block s = BlockPool.null_block p.
Proof.
  intros [Hc Hbs] Hd Hp. unfold get_manager_for_kv_cache_spec, admission_cap, SingleType.init, bind, get, of_outcome, ret.
  assert (0 < (if bool_decide (1 < dcp * pcp) then spec_block_size spec * (dcp * pcp) else spec_block_size spec)) as Hb by (case_bool_decide; nia).
  destruct spec; try done; eexists; by split_and!.
Qed.

Lemma full_init spec other grp_eagle n ml hbs mb eagle stats ev dcp pcp metrics ints :
  full_spec spec → 0 < n → 0 < dcp → 0 < pcp →
  ∃ m, KVCacheManager.init (Coordinator.mkConfig n [Coordinator.mkGroup spec other grp_eagle]) ml hbs mb false eagle stats ev dcp pcp metrics ints = Ret m ∧
    full_inv ∅ m.
Proof.
  intros Hs Hn Hd Hp. unfold KVCacheManager.init, Coordinator.get_kv_cache_coordinator, Coordinator.init_base, Coordinator.base_init. cbn [negb].
  destruct (pool_init_correct n false hbs ev metrics ints Hn) as (p & Hrun & Hpi & _ & _ & _ & _ & _ & Hz).
  destruct (full_manager_run spec (default ml mb) ml dcp pcp p Hs Hd Hp) as (s & Hm & Hc & Hbs & Hnc & Hrb & Hnull).
  cbn [Coordinator.num_blocks Coordinator.kv_cache_groups]. rewrite Hrun. cbv zeta.
  change (py_range (Z.of_nat (length [Coordinator.mkGroup spec other grp_eagle]))) with [0]. cbn [zip zip_with].
  match goal with |- context [for_collect [?x] ?f p] => rewrite (collect_one x f p p s) by exact Hm end. eexists. split; [reflexivity|]. split_and!; [|done|done|by destruct stats].
  exists s, (Blk <$> seqZ 1 (n - 1)). split_and!; [done|done|]. split; [|done..|].
  - split; cbn; [done|rewrite Hnull; apply Hpi| |by rewrite Hrb|done]. intros i Hi Hi0. destruct (Hz i Hi) as [-> _]. rewrite Hrb. unfold held. by rewrite map_to_list_empty.
  - intros r. by rewrite Hrb.
Qed.
