(* ===== verification/SchedulerEngine.v ===== *)
(** * The engine core of a text model

    The scheduler over the modelled KV-cache manager (one full-attention group, such as
    Quest's, prefix caching off) and encoder cache, synchronous, without a connector: no
    call of a reachable state raises. *)

From S2P Require Import Prelude OrderedDict FreeQueue BlockHash BlockPool CacheHit RequestQueue SchedQueue SchedRequest SchedStop Raises Scheduler.
From S2P Require Import SchedulerInv SchedulerPreempt SchedulerRun SchedulerSchedule SchedulerLife SchedulerUpdate SchedulerReach SchedulerKV.
From S2P Require Coordinator EncoderCache KVCacheManager.

Open Scope Z_scope.

Notation text_scheduler := (t KVCacheManager.t EncoderCache.EncoderCacheManager.t unit).

(** A configuration for text *)
Record text_config (c : config) : Prop := {
  tc_cfg : cfg_ok c;
  tc_sync : async_scheduling c = false;
  tc_running : 0 ≤ max_num_running_reqs c
}.

Section engine.
Context (embeds_digest : list Z → bytes) (ec : option (string → bool)) (block_hasher : BlockHash.Request → list bytes).
Context (should_advance : SRequest → bool) (accept_tokens : SRequest → list Z → bool) (validate_tokens : SRequest → list Z → list Z).
Context (advance_grammar : ∀ r, should_advance r = true → use_structured_output (info r) = true ∧ has_grammar r = true).
#[local] Instance engine_kv : KVManager KVCacheManager.t := kv_cache_manager embeds_digest.
#[local] Instance engine_kv_laws : KVLaws never KVCacheManager.t := full_kv_laws embeds_digest.
Notation no_connector := (@None (Connector unit)).
Implicit Types (s : text_scheduler) (w : option SchedulerOutput).
Notation engine_reach := (reachable never ec block_hasher should_advance accept_tokens validate_tokens).

(** The engine starts: the constructors succeed and the scheduler is ready. *)
Lemma engine_starts c spec other eagle_group num_blocks hbs mb stats ev metrics ints cache_size finished :
  text_config c → full_spec spec → 0 < num_blocks →
  ∃ m, KVCacheManager.init (Coordinator.mkConfig num_blocks [Coordinator.mkGroup spec other eagle_group]) (max_model_len c) hbs mb false
         (use_eagle c) stats ev 1 1 metrics ints = Ret m ∧
    engine_reach None (new_scheduler c m (EncoderCache.EncoderCacheManager.init cache_size) tt finished).
Proof.
  intros [Hc Hs Hr] Hspec Hn. destruct (full_init spec other eagle_group num_blocks (max_model_len c) hbs mb (use_eagle c) stats ev 1 1 metrics ints Hspec Hn)
    as (m & Hm & Hi); [lia..|]. exists m. split; [done|].
  eexists _, []. split; [|apply run_refl]. by split.
Qed.

(** C19: the synchronous engine core of a text model, over the modelled KV-cache manager
    with one full-attention group and prefix caching off, without connector, LoRA limit or
    streaming sessions, for text requests whose minimum of output tokens fits the context,
    never raises. From its construction on, in every state it can reach: [schedule]
    returns, so no allocation that was admitted fails, no assertion of the scheduler or of
    the managers does, and its loops end; [update_from_output] returns for every answer of
    the model runner that answers each scheduled request (as in C16), [add_request] for every new request, [finish_requests] for any ids,
    and a forced reset preempts the running requests and returns. *)
Theorem text_engine_never_raises w s :
  engine_reach w s →
  (w = None → ∃ out s', schedule ec no_connector s = (Ret out, s')) ∧
  (∀ sched out, w = Some sched → all_answered sched out s →
     ∃ res s', update_from_output no_connector block_hasher should_advance accept_tokens sched out s = (Ret res, s')) ∧
  (∀ o r, new_request never s o r → ∃ s', add_request no_connector block_hasher o (put_obj o r s) = (Ret tt, s')) ∧
  (∀ ids st, is_finished st = true → ∃ l s', finish_requests no_connector ids st s = (Ret l, s')) ∧
  (∀ reset_connector, ∃ s', reset_prefix_cache no_connector true reset_connector s = (Ret true, s') ∧ running s' = []).
Proof.
  intros Hr. assert (∀ {A} (m : M text_scheduler A) s, safe never m s → ∃ a s', m s = (Ret a, s')) as Hret.
  { intros A m s0. unfold safe, wpx. destruct (m s0) as [[a|e] s']; [by eauto|done]. }
  destruct (operations_safe never ec block_hasher should_advance accept_tokens validate_tokens advance_grammar w s Hr) as (H1 & H2 & _ & _ & H3 & H4).
  split_and!; [auto..| |auto|].
  - intros o r Hnew. destruct (Hret _ _ _ (H1 o r Hnew)) as ([] & s' & ?). by exists s'.
  - intros b. pose proof (reachable_consistent _ _ _ _ _ _ advance_grammar _ _ Hr) as [_ Hi _].
    pose proof (reset_prefix_cache_run never _ _ true b Hi) as Hreset. unfold wpx in Hreset.
    destruct (reset_prefix_cache _ _ _ _) as [[x|e] s']; [|done]. destruct Hreset as (_ & _ & _ & _ & Hb). destruct (Hb eq_refl) as [-> ?]. by exists s'.
Qed.
End engine.
