(* ===== verification/SchedulerExamples.v ===== *)
(** * Concrete runs of the scheduler

    Witnesses for the theorems on the scheduler: two text requests on a small engine, over
    the modelled managers. *)

From S2P Require Import Prelude OrderedDict FreeQueue BlockHash BlockPool CacheHit RequestQueue SchedQueue SchedRequest SchedStop Raises Scheduler.
From S2P Require Import SchedulerInv SchedulerPreempt SchedulerRun SchedulerSchedule SchedulerLife SchedulerUpdate SchedulerReach SchedulerKV SchedulerEngine.
From S2P Require Coordinator EncoderCache KVCacheManager.

Open Scope Z_scope.

(** ** A small engine *)
Definition no_digest (rows : list Z) : bytes := [].
Definition no_hashes (r : BlockHash.Request) : list bytes := [].
Definition no_grammar (r : SRequest) : bool := false.
Definition accept_all (r : SRequest) (l : list Z) : bool := true.
Definition keep_draft (r : SRequest) (l : list Z) : list Z := l.

(** Two requests at a time, 8 tokens a step, a context of 16 tokens *)
Definition small_config : config :=
  mkConfig 2 8 16 0 true false FCFS false 0 0 None 0 false false 4 4 false false 1 true false false false.

Definition sampling : SamplingParams := mkSampling 0 (Some 99) [] None.
Definition text_request (id : string) (prompt : list Z) (max_tokens : Z) : SRequest :=
  mkReq (mkInfo id 0 0 false None false false max_tokens) WAITING 0 (Some sampling)
    (BlockHash.mkRequest prompt [] [] None None None ∅) true (Z.of_nat (length prompt)) [] [] 0 0 [] 0 false 0 true false false None.

(** The value of a call that returns *)
Definition returned {A} (o : outcome A) : match o with Ret _ => A | Raise _ => unit end :=
  match o with Ret a => a | Raise _ => tt end.

(** Five blocks of four tokens *)
Definition small_kv : KVCacheManager.t :=
  (returned (KVCacheManager.init (Coordinator.mkConfig 5 [Coordinator.mkGroup (QuestKVCacheSpec 4) 0 false]) 16 4 None false false false false 1 1 None false)
   <: KVCacheManager.t).
#[local] Instance small_manager : KVManager KVCacheManager.t := engine_kv no_digest.
#[local] Instance small_laws : KVLaws never KVCacheManager.t := engine_kv_laws no_digest.
Notation no_connector := (@None (Connector unit)).
Notation small_reach := (reachable never None no_hashes no_grammar accept_all keep_draft).
Notation small_run := (run never None no_hashes no_grammar accept_all keep_draft).
Notation small_step := (engine_step never None no_hashes no_grammar accept_all keep_draft).
Lemma no_grammar_ok r : no_grammar r = true → use_structured_output (info r) = true ∧ has_grammar r = true.
Proof. done. Qed.

(** ** A run: two requests are added, a step is scheduled, one of them is aborted, the
    model's tokens come back, and the next step is scheduled. *)
Definition req_a : SRequest := text_request "a" [1; 2; 3] 4.
Definition req_b : SRequest := text_request "b" [4; 5; 6; 7; 8] 4.

Definition s0 : text_scheduler := new_scheduler small_config small_kv (EncoderCache.EncoderCacheManager.init 0) tt false.
Definition s1 : text_scheduler := (add_request no_connector no_hashes 1 (put_obj 1 req_a s0)).2.
Definition s2 : text_scheduler := (add_request no_connector no_hashes 2 (put_obj 2 req_b s1)).2.
Definition out3 : SchedulerOutput :=
  match (schedule None no_connector s2).1 with Ret out => out | Raise _ => mkOutput [] [] [] 0 [] [] [] [] ∅ [] [] end.
Definition s3 : text_scheduler := (schedule None no_connector s2).2.
Definition s4 : text_scheduler := (finish_requests no_connector (Some ["b"]) FINISHED_ABORTED s3).2.
Definition answer : ModelRunnerOutput := mkRunnerOut [("a", 0); ("b", 1)] [[10]; [11]] [] None.
Definition s5 : text_scheduler := (update_from_output no_connector no_hashes no_grammar accept_all out3 answer s4).2.

Example both_scheduled : out_num_scheduled_tokens out3 = [("a", 3); ("b", 5)].
Proof. vm_compute. reflexivity. Qed.
Example then_one : requests s5 = [("a", 1)] ∧ running s5 = [1] ∧ (output_token_ids <$> (objs s5 !! 1)) = Some [10].
Proof. vm_compute. split_and!; reflexivity. Qed.

(** ** The run is one of the engine *)
Lemma small_text : text_config small_config.
Proof. by repeat split. Qed.
Lemma s0_initial : initial never s0.
Proof.
  split; [by repeat split|done|done|]. split; [|done].
  destruct (full_init (QuestKVCacheSpec 4) 0 false 5 16 4 None false false false 1 1 None false) as (m & Hm & Hi); [by split|lia..|].
  assert (small_kv = m) as Heq; [|change (full_inv ∅ small_kv); by rewrite Heq].
  assert (Ret small_kv = Ret m) as Hret; [|by simplify_eq]. rewrite <- Hm. vm_compute. reflexivity.
Qed.
Lemma text_request_ok id prompt n : prompt ≠ [] → Z.of_nat (length prompt) < 16 → req_ok (λ fs, fs = []) small_config (text_request id prompt n).
Proof. intros Hne Hlen. destruct prompt as [|x prompt]; [done|]. split; try done.
  intros _. exists sampling. split; [done|]. cbn in *. lia.
Qed.

Lemma step1 : small_step None s0 [] None s1.
Proof. apply (es_add _ _ _ _ _ _ _ _ 1 req_a tt); [|done|vm_compute; reflexivity]. split; [set_solver|done|by apply text_request_ok|by split; [left|]]. Qed.
Lemma step2 : small_step None s1 [] None s2.
Proof.
  apply (es_add _ _ _ _ _ _ _ _ 2 req_b tt); [|done|vm_compute; reflexivity].
  split; [vm_compute; intros H; apply list_elem_of_singleton in H; done|vm_compute; reflexivity|by apply text_request_ok|by split; [left|]].
Qed.
Lemma step3 : small_step None s2 [] (Some out3) s3.
Proof. apply es_schedule. vm_compute. reflexivity. Qed.
Lemma step4 : small_step (Some out3) s3 [] (Some out3) s4.
Proof. apply (es_finish _ _ _ _ _ _ _ _ (Some ["b"]) FINISHED_ABORTED [("b", 0)]); [done|vm_compute; reflexivity]. Qed.

Lemma only_a id (o : Z) : od_get id [("a", 1)] = Some o → id = "a" ∧ o = 1.
Proof. simpl. case_decide; [by intros [= <-]|done]. Qed.
Lemma s4_requests : requests s4 = [("a", 1)].
Proof. vm_compute. reflexivity. Qed.
Lemma s4_object : pooling_params ∘ info <$> (objs s4 !! 1) = Some false.
Proof. vm_compute. reflexivity. Qed.
Lemma text_answered r : pooling_params (info r) = false → answered out3 answer "a" r.
Proof.
  intros Hp. split; [|vm_compute; congruence|by intros _]. exists 0. split_and!; [vm_compute; reflexivity| |].
  - intros _. exists [10]. vm_compute. reflexivity.
  - intros Hne. exfalso. apply Hne. reflexivity.
Qed.
Lemma answer_ok : all_answered out3 answer s4.
Proof.
  split; [reflexivity|]. intros id o r _ Hget Hr. rewrite s4_requests in Hget. apply only_a in Hget as [-> ->]. apply text_answered.
  pose proof s4_object as H. rewrite Hr in H. cbn in H. congruence.
Qed.
Lemma step5 : small_step (Some out3) s4 ["a"; "b"] None s5.
Proof.
  assert (served out3 answer = ["a"; "b"]) as <- by (vm_compute; reflexivity).
  apply (es_update _ _ _ _ _ _ _ _ _ ([mkEngineOut 0 "a" [10] None], ∅)); [exact answer_ok|vm_compute; reflexivity].
Qed.

#[local] Opaque s0 s1 s2 s3 s4 s5 out3.
Lemma run_s2 : small_run None s0 ([] ++ []) None s2.
Proof. eapply run_step; [|exact step2]. eapply (run_step _ _ _ _ _ _ _ _ []); [apply run_refl|exact step1]. Qed.
Lemma reach_s2 : small_reach None s2.
Proof. exists s0, ([] ++ []). split; [exact s0_initial|exact run_s2]. Qed.
Lemma run_s5 : small_run None s2 ["a"; "b"] None s5.
Proof.
  eapply (run_step _ _ _ _ _ _ _ _ [] _ s4 ["a"; "b"]); [|exact step5]. eapply (run_step _ _ _ _ _ _ _ _ [] _ s3 []); [|exact step4].
  eapply (run_step _ _ _ _ _ _ _ _ [] _ s2 []); [apply run_refl|exact step3].
Qed.
Lemma reach_s4 : small_reach (Some out3) s4.
Proof.
  exists s0, ((([] ++ []) ++ []) ++ []). split; [exact s0_initial|]. eapply run_step; [|exact step4]. eapply run_step; [exact run_s2|exact step3].
Qed.
Lemma consistent_s2 : consistent never None s2.
Proof. exact (reachable_consistent never None no_hashes no_grammar accept_all keep_draft no_grammar_ok None s2 reach_s2). Qed.
Lemma consistent_s4 : consistent never (Some out3) s4.
Proof. exact (reachable_consistent never None no_hashes no_grammar accept_all keep_draft no_grammar_ok (Some out3) s4 reach_s4). Qed.

(** ** Witnesses *)
Lemma schedule_correct_witness :
  inv never idle [] [] s2 ∧ wpx never (schedule None no_connector) s2 (λ out s', NoDup (out_num_scheduled_tokens out).*1 ∧ output_ok s2 out s').
Proof.
  split; [exact (cs_inv _ _ _ consistent_s2)|]. eapply wpx_mono; [exact (schedule_correct never None s2 (cs_inv _ _ _ consistent_s2))|].
  cbv beta. intros out s' (_ & _ & _ & _ & Ho). split; [exact (ok_ids _ _ _ Ho)|exact Ho].
Defined.

Lemma update_from_output_correct_witness :
  all_answered out3 answer s4 ∧
  wpx never (update_from_output no_connector no_hashes no_grammar accept_all out3 answer) s4 (λ res s', inv never idle [] [] s' ∧ updated never no_grammar accept_all out3 answer res.1 s4 s').
Proof.
  split; [exact answer_ok|].
  eapply wpx_mono; [exact (update_from_output_correct never no_hashes no_grammar accept_all no_grammar_ok out3 answer s4 (cs_inv _ _ _ consistent_s4)
    (cs_sync _ _ _ consistent_s4) (cs_awaited _ _ _ consistent_s4 out3 eq_refl) answer_ok)|].
  cbv beta. intros res s' (Hi & _ & _ & _ & Hu). split; [exact Hi|exact Hu].
Defined.

Lemma text_engine_never_raises_witness :
  small_reach None s2 ∧ (∃ out s', schedule None no_connector s2 = (Ret out, s')) ∧
  (∃ res s', update_from_output no_connector no_hashes no_grammar accept_all out3 answer s4 = (Ret res, s')).
Proof.
  split; [exact reach_s2|]. split.
  - exact (proj1 (text_engine_never_raises no_digest None no_hashes no_grammar accept_all keep_draft no_grammar_ok None s2 reach_s2) eq_refl).
  - exact (proj1 (proj2 (text_engine_never_raises no_digest None no_hashes no_grammar accept_all keep_draft no_grammar_ok (Some out3) s4 reach_s4)) out3 answer eq_refl answer_ok).
Defined.

Lemma scheduler_queues_consistent_witness :
  small_reach (Some out3) s4 ∧ NoDup (requests s4).*1 ∧
  (requests s4).*2 ≡ₚ running s4 ++ queue_oids (waiting s4) ++ queue_oids (skipped_waiting s4).
Proof.
  split; [exact reach_s4|].
  destruct (scheduler_queues_consistent never None no_hashes no_grammar accept_all keep_draft no_grammar_ok (Some out3) s4 reach_s4) as (H1 & _ & H2 & _).
  split; [exact H1|exact H2].
Defined.

Lemma finish_requests_correct_witness :
  inv never idle [] [] s2 ∧ wpx never (finish_requests no_connector (Some ["b"; "x"; "b"]) FINISHED_ABORTED) s2 (λ out s',
    requests s' = [("a", 1)] ∧ out = [("b", 0)] ∧ finished_req_ids s' = {[ "b" ]}).
Proof.
  split; [exact (cs_inv _ _ _ consistent_s2)|].
  eapply wpx_mono; [exact (finish_requests_correct never idle s2 (Some ["b"; "x"; "b"]) FINISHED_ABORTED (cs_inv _ _ _ consistent_s2) eq_refl)|].
  cbv beta. intros out s' (_ & _ & Hq & _ & _ & Hf & Ho & _). split; [|split].
  - rewrite Hq. vm_compute. reflexivity.
  - rewrite Ho. vm_compute. reflexivity.
  - rewrite Hf. vm_compute. reflexivity.
Defined.

Lemma requests_finish_witness : small_run None s2 ["a"; "b"] None s5 ∧ times "a" ["a"; "b"] < 16 - 3.
Proof.
  split; [exact run_s5|].
  exact (requests_finish never None no_hashes no_grammar accept_all keep_draft no_grammar_ok None s2 ["a"; "b"] None s5 "a" 1 req_a reach_s2 run_s5
    ltac:(vm_compute; reflexivity) ltac:(vm_compute; reflexivity) ltac:(vm_compute; reflexivity)).
Defined.
