(* ===== verification/SchedulerRuns.v ===== *)
(** * Runs of the scheduler that go wrong

    Concrete runs, over the modelled managers, outside the hypotheses of the theorems: a
    LoRA limit, a minimum of output tokens beyond the context, and asynchronous
    scheduling. *)

From S2P Require Import Prelude OrderedDict FreeQueue BlockHash BlockPool CacheHit RequestQueue SchedQueue SchedRequest SchedStop Raises Scheduler.
From S2P Require Import SchedulerInv SchedulerLife SchedulerKV SchedulerEngine SchedulerExamples.
From S2P Require Coordinator EncoderCache KVCacheManager.

Open Scope Z_scope.

#[local] Instance runs_manager : KVManager KVCacheManager.t := engine_kv no_digest.
Notation no_connector := (@None (Connector unit)).

(** Twenty blocks of four tokens *)
Definition kv20 : KVCacheManager.t :=
  (returned (KVCacheManager.init (Coordinator.mkConfig 20 [Coordinator.mkGroup (QuestKVCacheSpec 4) 0 false]) 16 4 None false false false false 1 1 None false)
   <: KVCacheManager.t).
Definition engine (c : config) : text_scheduler := new_scheduler c kv20 (EncoderCache.EncoderCacheManager.init 0) tt false.

Definition value {A} (x : outcome A * text_scheduler) : option (A * text_scheduler) :=
  match x with (Ret a, s) => Some (a, s) | (Raise _, _) => None end.
Definition add (o : Z) (r : SRequest) (s : text_scheduler) : option text_scheduler :=
  snd <$> value (add_request no_connector no_hashes o (put_obj o r s)).
Definition step (s : text_scheduler) : option (SchedulerOutput * text_scheduler) := value (schedule None no_connector s).
(** The model runner answers with the given tokens. *)
Definition answer_with (l : list (string * list Z)) : ModelRunnerOutput :=
  mkRunnerOut (zip l.*1 (py_range (Z.of_nat (length l)))) l.*2 [] None.
Definition back (sched : SchedulerOutput) (l : list (string * list Z)) (s : text_scheduler) : option (list EngineCoreOutput * text_scheduler) :=
  '(res, s) ← value (update_from_output no_connector no_hashes no_grammar accept_all sched (answer_with l) s); Some (res.1, s).
Definition tokens_of (o : Z) (s : text_scheduler) : option (list Z) := output_token_ids <$> (objs s !! o).

(** ** A LoRA limit *)
Definition lora_request (id : string) (prompt : list Z) (lora : option Z) : SRequest :=
  mkReq (mkInfo id 0 0 false lora false false 8) WAITING 0 (Some sampling)
    (BlockHash.mkRequest prompt [] [] None None None ∅) true (Z.of_nat (length prompt)) [] [] 0 0 [] 0 false 0 true false false None.
(** One LoRA at a time; prefills are split at blocks of four tokens. *)
Definition lora_config : config :=
  mkConfig 4 8 32 0 true false FCFS false 5 0 (Some 1) 0 false true 4 4 false false 1 true false false false.

(** [x] decodes with five draft tokens, so the prefill of [a] (adapter 1) does not get a whole
    block and is skipped in this step; [b] (adapter 2) is admitted, since only scheduled
    requests count. In the next step both adapters are scheduled. *)
Definition lora_run : option (list (list (string * Z)) * (outcome SchedulerOutput * list string)) :=
  s ← add 1 (lora_request "x" (seqZ 1 10) None) (engine lora_config);
  '(o1, s) ← step s;
  '(_, s) ← back o1 [("x", [])] s;
  s ← add 2 (lora_request "a" (seqZ 1 12) (Some 1)) s;
  '(o2, s) ← step s;
  '(_, s) ← back o2 [("x", [50]); ("a", [])] s;
  '(_, s) ← value (update_draft_token_ids no_grammar keep_draft [("x", [51; 52; 53; 54; 55])] s);
  s ← add 3 (lora_request "b" [7; 8] (Some 2)) s;
  '(o3, s) ← step s;
  '(_, s) ← back o3 [("x", [51]); ("b", [60])] s;
  let '(res, s) := schedule None no_connector s in
  Some (out_num_scheduled_tokens <$> [o1; o2; o3],
        (res, name s <$> running s)).

(** ** A minimum of output tokens beyond the context *)
Definition min_request : SRequest :=
  mkReq (mkInfo "m" 0 0 false None false false 100) WAITING 0 (Some (mkSampling 100 None [] None))
    (BlockHash.mkRequest (seqZ 1 14) [] [] None None None ∅) true 14 [] [] 0 0 [] 0 false 0 true false false None.
Definition wide_config : config :=
  mkConfig 2 32 16 0 true false FCFS false 0 0 None 0 false false 4 4 false false 1 true false false false.

(** [n] steps in which the model answers with a token whenever it is asked to: the tokens
    scheduled in each *)
Fixpoint decode (n : nat) (s : text_scheduler) : option (list (list (string * Z)) * text_scheduler) :=
  match n with
  | O => Some ([], s)
  | Datatypes.S n =>
      '(o, s) ← step s;
      '(_, s) ← back o (match out_num_scheduled_tokens o with [] => [] | _ => [("m", [5])] end) s;
      '(l, s) ← decode n s;
      Some (out_num_scheduled_tokens o :: l, s)
  end.
Definition min_run : option (list (list (string * Z)) * text_scheduler) := s ← add 1 min_request (engine wide_config); decode 4 s.

(** ** Resetting the prefix cache under asynchronous scheduling with drafts *)
Definition async_config : config :=
  mkConfig 2 32 16 0 true false FCFS false 2 2 None 0 false false 4 4 false false 1 true false false true.
Definition discard_run : option (list (option Z) * list (option (list Z)) * list (list EngineCoreOutput)) :=
  s ← add 1 (text_request "a" [1; 2; 3] 8) (engine async_config);
  '(o1, s) ← step s;
  '(o2, s) ← step s;
  '(_, s) ← value (reset_prefix_cache no_connector true false s);
  let pending := async_tokens_to_discard <$> (objs s !! 1) in
  '(e1, s) ← back o1 [("a", [10])] s;
  '(e2, s) ← back o2 [("a", [11; 12])] s;
  let left := async_tokens_to_discard <$> (objs s !! 1) in
  '(o3, s) ← step s;
  '(e3, s) ← back o3 [("a", [20])] s;
  Some ([pending; left], [tokens_of 1 s], [e1; e2; e3]).

(** ** A preempted request stops while it is among the skipped ones *)
Definition skipped_run : option (bool * list string * list Z * outcome SchedulerOutput) :=
  s ← add 1 (text_request "a" [1; 2; 3] 1) (engine async_config);
  '(o1, s) ← step s;
  '(_, s) ← value (_preempt_request 1 (with_running [] s));
  '(_, s) ← value ((k <- on_which Waiting q_pop ;; on_which SkippedWaiting (q_add k)) s);
  '(_, s) ← back o1 [("a", [10])] s;
  Some (bool_decide (is_finished ∘ status <$> (objs s !! 1) = Some true), (requests s).*1, oid <$> q_items (skipped_waiting s), (schedule None no_connector s).1).

(** ** What the runs show *)

(** The limit on LoRA adapters counts the adapters of the running requests that were
    scheduled in this step only; the assertion on it fails in the next step. *)
Lemma lora_limit_fails : lora_run =
  Some ([[("x", 8)]; [("x", 2); ("a", 4)]; [("x", 6); ("b", 2)]], (Raise AssertionError, ["x"; "a"; "b"])).
Proof. vm_compute. reflexivity. Qed.

(** The minimum of output tokens is tested before the length of the context: at 16 tokens of
    16 the request does not stop, gets nothing scheduled and stays running, as it is. *)
Lemma min_tokens_never_stops : ∃ s s' out, min_run = Some ([[("m", 14)]; [("m", 1)]; []; []], s) ∧ step s = Some (out, s') ∧
  out_num_scheduled_tokens out = [] ∧ running s' = [1] ∧ num_tokens <$> (objs s' !! 1) = Some 16 ∧ objs s' = objs s.
Proof. eexists _, _, _. split; [vm_compute; reflexivity|]. split; [vm_compute; reflexivity|]. vm_compute. split_and!; reflexivity. Qed.

(** Two output frames are in flight, with four placeholder tokens: four frames will be
    dropped, so the first two that come after the reset are lost. *)
Lemma reset_discards_fresh_tokens : discard_run = Some ([Some 4; Some 2], [Some []], [[]; []; []]).
Proof. vm_compute. reflexivity. Qed.

(** A stopped request that was preempted is taken out of the waiting queue only: it stays
    among the skipped ones, unknown to the dictionary, and the next step fails on it. *)
Lemma stopped_skipped_request_stays : skipped_run = Some (true, [], [1], Raise RuntimeError).
Proof. vm_compute. reflexivity. Qed.
